(* ===== verification/_CoqProject ===== *)
-Q . S2P
Prelude.v
Command.v
Workers.v
TaskStore.v
CommandQueue.v
RobotState.v
SafetyValidator.v
CommandValidation.v
QueueClient.v
CommandDispatcher.v
DispatcherProofs.v
DispatcherProperties.v
Cancellation.v
ExecutionContext.v
Blackboard.v
ResourceManager.v
Scheduler.v
CommandPipeline.v
PipelineStore.v
PipelineProofs.v
PipelineProperties.v
Mission.v
MissionExecutor.v
MissionProofs.v
MissionProperties.v
Text.v
Json.v
JsonGrammar.v
JsonPrinter.v
MissionJson.v
Doubles.v
Yaml.v
YamlPrinter.v
MissionYaml.v
MissionTyping.v
MissionDocument.v
MissionLines.v
MissionRoundtrip.v
MissionLoading.v
BTNode.v
BTProofs.v
BehaviorTree.v
BTExample.v
BTProperties.v
TreeProperties.v
TreeLoading.v
TreeParser.v
TreeRoundtrip.v
Status.v
Planner.v
PlannerProofs.v
PlanningPipeline.v
PlanningProperties.v
InstanceLedger.v
PlannerFactory.v
Plugins.v
PluginProofs.v
Sensors.v
PerceptionPipeline.v
PerceptionProofs.v
SensorFusion.v
ModelManager.v
SensorManager.v
SensorManagerProofs.v
SensorAccounts.v
SensorProperties.v
UnitreeTypes.v
SdkClients.v
SdkWrapper.v
SdkProofs.v
SdkWorkers.v
SdkProperties.v
UnitreeAdapter.v
UnitreePlugin.v
RobotFactories.v
Telemetry.v
TelemetryProperties.v
Ros2Bridge.v
Cloud.v
Managers.v
