(* ===== verification/Prelude.v ===== *)
(** * humanoid-core: a verification of its execution core

    humanoid-core is a C++ framework that drives humanoid robots.  Commands
    are checked for safety, queued and executed by worker threads; jobs run
    on a scheduler that shares a blackboard, resources and cancellation
    tokens; behavior trees compose commands and missions; planners make them;
    a perception pipeline reads sensors; adapters and plugins drive the robot
    over the vendor's SDK; telemetry, a ROS 2 bridge and cloud services look at
    it from outside.  This development models these parts and proves what makes
    them correct.

    ** How the code is modelled

    A class is a record of its fields and each of its operations a function
    on it.  Where threads share a class, each of its critical sections is one
    transition of an executable function [exec] on labels, [None] for a label
    that is not enabled; a list of labels is an interleaving of the threads,
    and [reachable] states are those some list leads to.  Code between two
    critical sections (setting a promise, calling an executor or a callback)
    is a transition of its own, so that nothing is assumed of the order in
    which threads run.  Objects that threads share by pointer live in a heap.

    Integers of a fixed width wrap around ([u64_incr], congruence [≡₆₄]); so do
    the signed 64-bit nanoseconds that times and timeouts are compared in
    ([i64_wrap]), where C++ leaves an overflow undefined;
    doubles are [spec_float]; enumerations have a constructor for the values
    a cast can give them.  What a job, an executor or a callback of the
    application answers is a label or a parameter; exceptions are outcomes.
    Time is a number that the caller or the world supplies.

    ** The parts

    Commands (src/src/core, src/include/humanoid/core)
    - Command.v: [Command], [CommandResult], their enumerations, and the
      validation functions of CommandQueue.cpp and CommandExecutionPipeline.cpp.
    - Workers.v, TaskStore.v: the program points of worker threads and the heap
      of tasks with promises that CommandQueue.v and Scheduler.v share.
    - CommandQueue.v: CommandQueue.cpp.
    - RobotState.v, SafetyValidator.v: RobotStateManager.cpp, SafetyValidator.cpp.
    - CommandValidation.v: the checks of CommandDispatcher.cpp on a command and
      the schema of its parameters.
    - QueueClient.v: what the queue promises to the owner of its executor.
    - CommandDispatcher.v: CommandDispatcher.cpp, over CommandQueue.v and
      SafetyValidator.v; DispatcherProofs.v has its invariants,
      DispatcherProperties.v the theorems.
    - CommandPipeline.v: CommandExecutionPipeline.cpp; PipelineStore.v has its
      invariants, PipelineProofs.v their preservation, PipelineProperties.v
      the theorems.

    Runtime (src/src/runtime, src/include/humanoid/runtime)
    - Cancellation.v: Cancellation.cpp, the states that sources, tokens and
      registrations share.
    - ExecutionContext.v: ExecutionContext.cpp, over Cancellation.v.
    - Blackboard.v: Blackboard.cpp.
    - ResourceManager.v: ResourceManager.cpp, the leases and who waits for them.
    - Scheduler.v: RuntimeScheduler.cpp, over TaskStore.v and ExecutionContext.v.

    Behavior trees (src/src/bt, src/include/humanoid/bt)
    - BTNode.v: the nodes and their four operations; what they use of the
      application is the class [BTEnvironment].
    - BTProofs.v: no operation changes more of a node than its run state.
    - BehaviorTree.v: BehaviorTree.cpp, which publishes to the context of
      ExecutionContext.v, and [ExecuteTree] of BehaviorTreeRuntime.cpp.
    - BTExample.v: a concrete world for the examples.
    - BTProperties.v, TreeProperties.v: the theorems on nodes, trees and jobs.
    - TreeLoading.v: BehaviorTreeFactory.cpp, TreeValidator.cpp and the
      construction of trees by TreeLoader.cpp.
    - TreeParser.v: TreeParser.cpp and the rest of TreeLoader.cpp, over Json.v;
      TreeRoundtrip.v prints trees and reads them back.

    Missions (src/src/mission, src/include/humanoid/mission)
    - Mission.v: missions, steps, policies, conditions; ConditionEvaluator.cpp
      and MissionValidator.cpp.
    - MissionExecutor.v: MissionExecutor.cpp; MissionProofs.v has its bounds
      and what a cancellation does, MissionProperties.v its outcome.

    Documents (src/src/mission/MissionParser.cpp, MissionLoader.cpp)
    - Text.v: characters, lines, the monad [Parse] of the parsers' answers, and
      the conversions of numbers.
    - Json.v: the class [JsonParser]; JsonGrammar.v its grammar and that the
      parser accepts exactly that, JsonPrinter.v documents it reads back.
    - MissionJson.v: missions from JSON; MissionDocument.v the round trip.
    - Yaml.v: lines, scalars and loops of the YAML parser, with YamlPrinter.v;
      MissionYaml.v: missions from YAML, and the loader.
    - MissionLines.v, MissionRoundtrip.v: missions printed in YAML and read
      back.  Doubles.v: floats that doubles hold.
    - MissionTyping.v: the ranges of what the parsers answer; MissionLoading.v
      the theorems on the parsers and the loader.

    Planning (src/src/planner, src/include/humanoid/planner)
    - Status.v: Status.cpp of src/common, and the outcomes of calls that throw.
    - Planner.v: goals, requests and results, and RuleBasedPlanner.cpp, which
      makes the missions of Mission.v and the trees of BehaviorTree.v;
      PlannerProofs.v has its lemmas.
    - PlanningPipeline.v: PlanningPipeline.cpp; planners and the runtime that
      trees are handed to are the class [PlanningEnvironment].
      PlanningProperties.v has the theorems.
    - InstanceLedger.v: what the factories of planners and plugins share.
    - PlannerFactory.v: PlannerRegistry.cpp and PlannerFactory.cpp.

    Plugins (src/plugins)
    - Plugins.v: versions, metadata, PluginRegistry.cpp and PluginFactory.cpp,
      with PluginProofs.v.

    Perception (src/src/perception, src/include/humanoid/perception)
    - Sensors.v: frames, capabilities, states, and the registry of creators.
    - PerceptionPipeline.v: PerceptionPipeline.cpp, whose stages are the class
      [StageEnvironment]; PerceptionProofs.v has its order of stages and the
      theorems on its runs.
    - SensorFusion.v: FrameSynchronizer of SensorFusion.cpp.
    - ModelManager.v: ModelManager.cpp; engines are a class.
    - SensorManager.v: SensorManager.cpp, sensors and listeners in labels;
      SensorManagerProofs.v and SensorAccounts.v have its invariants,
      SensorProperties.v the theorems.

    Robots (src/plugins/unitree, src/src/adapters, src/src/sdk, src/src/factory)
    - UnitreeTypes.v: SdkTypes.h and SdkConverter.cpp.
    - SdkClients.v: LocoAdapter.cpp, HandAdapter.cpp, AudioAdapter.cpp, over
      the calls of the SDK, the parameter [Sdk].
    - SdkWrapper.v: SdkWrapper.cpp with its heartbeat worker; SdkProofs.v has
      its invariants, SdkWorkers.v the ends of workers, SdkProperties.v the
      theorems.
    - UnitreeAdapter.v: UnitreeG1Adapter.cpp of the framework, and
      LocoClientWrapper.cpp.  UnitreePlugin.v: UnitreeG1Adapter.cpp of the
      plugin.  Both take commands that CommandValidation.v admits.
    - RobotFactories.v: RobotFactoryRegistry.cpp, UnitreeRobotFactory.cpp,
      UnitreeG1Plugin.cpp.

    Services
    - Telemetry.v: TelemetryService.cpp of src/src/services;
      TelemetryProperties.v has its invariants and theorems.
    - Ros2Bridge.v: ROS2Bridge.cpp of src/ros2, over Telemetry.v, and its
      messages; commands go to CommandValidation.v.
    - Cloud.v: src/cloud, a Module per manager.
    - Managers.v: the managers of src/logging, src/safety, src/motion,
      src/gesture, src/diagnostics, src/robot and src/configuration, a Module
      each, whose controllers are records of operations; and BTContext.cpp.

    ** What the theorems show

    - Every promise is set exactly once: in the queue, the pipeline and the
      scheduler, under any interleaving of submissions, cancellations,
      workers and shutdown; a value agrees with the record of its execution.
    - What runs is what should: a worker takes the first of the waiting
      entries of the highest priority; a sequential job runs alone; the pipeline
      calls its executor at most once for an execution, not after it was
      completed, and never for one whose cancellation was accepted.
    - Counters account for every submission, modulo [2 ^ 64]; queues and
      workers keep within their bounds, and so do histories until a shutdown begins.
    - Shutdown ends: a measure decreases with every internal transition, one
      is enabled until it is complete, and then nothing is left behind.
    - The safety validator admits exactly the commands its rules allow, and
      stop commands whatever the state of the robot; its comparison of times is
      the one of 64-bit nanoseconds, and that of the times themselves for timeouts
      of at most 9223372036854 ms.
    - The dispatcher hands a command to the robot only after that check, with
      the robot locked; no two commands with the same identifier are in
      flight; what is reported as completed was executed; all that was
      accepted ends, and a shutdown leaves nothing behind.
    - Leases exclude each other, are granted as documented, and no waiter
      that could proceed is left asleep.
    - A cancellation runs every callback once; a blackboard is a finite map.
    - Whatever is called on a behavior tree leaves it the same tree in a
      consistent state, shown by its execution context; a reset restores the
      tree that was built; sequences, selectors, parallel and retry nodes
      follow their specifications; a job that runs a tree ends.
    - A document is loaded exactly when it describes a tree, as that tree.
    - The JSON parser accepts exactly the documents of its grammar, with the
      values the grammar gives; the missions and trees that a JSON or a YAML
      document can carry survive the round trip through it (what that excludes is
      in [mission_representable], [mission_writable], [type_representable] and
      [type_writable]); the parsers answer on every
      document, and a loaded mission has fields in the ranges of their types,
      satisfies the schema and can run.
    - The mission validator accepts exactly the missions of its schema, and
      these can run.  A mission ends, after no more commands than its policies
      allow; pausing does not change its outcome, which is the one of the
      loops of the code; a cancelled one hands out no further command.
    - The planner plans every valid request, by the first of the best rules,
      as a mission that can run and a tree; no more plans are cancelled than
      cancellations were requested.  The planning pipeline delivers only plans
      that were accepted and validated, and its metrics account for every
      request.
    - The factories of planners and plugins count exactly the instances that
      are being created, destroyed or held; the plugin registry holds only
      plugins that are compatible with the framework.
    - The order of the perception stages exists exactly if the graph is closed
      and has no cycle, and lists each stage after those it depends on.  An
      unregistered sensor is left alone once it is shut down; the counters
      account for registrations and frames; every operation of the sensor
      manager ends if the sensors and listeners that it calls return.
    - The robot moves only after a query of its state succeeded, with no failed
      query or damping since; an emergency stop always reaches the SDK; the
      heartbeat worker ends; what the robot reports arrives in its state.  An
      adapter requests only velocities within its limits, initializes its client
      only with its own valid configuration, and without one requests nothing
      unless it was given a client; a command that the dispatcher admits becomes
      exactly the request it stands for.
    - Stopping the telemetry service ends, even from inside of a listener; an
      unsubscribed listener is called at most once more by each worker that
      copied it; subscriptions have identifiers of their own.
    - The ROS 2 bridge leaves no subscription behind; exactly which messages for
      a velocity become commands that pass the checks of the dispatcher.
    - A key is authorized exactly by what was registered and granted, and every
      attempt is logged; missions are distributed to registered robots; a
      rollback succeeds exactly if all plans support it.
    - A message is logged to every sink that accepts it, whatever others answer;
      without a safety controller no motion is allowed.

    Each property with hypotheses has a witness that applies it to a concrete
    run.  The lemmas [Scheduler.sequential_job_passed],
    [PipelineProperties.pipeline_cancelled_twice],
    [BTProperties.delay_starts_anew], [MissionProperties.executor_stuck],
    [MissionProperties.cancel_overtaken],
    [DispatcherProperties.shutdown_not_drained],
    [PlannerProofs.planned_ids_overlap], [PluginProofs.destroyed_with_error],
    [PerceptionProofs.disabled_dependency], [SensorFusion.unknown_time_accepted],
    [SdkProperties.emergency_stop_undone], [SdkWorkers.concurrent_stops],
    [SafetyValidator.long_timeout_expires], [TreeRoundtrip.comment_in_quotes],
    [UnitreeAdapter.dot_at_the_end], [UnitreeAdapter.connected_unvalidated], [UnitreePlugin.volume_not_a_number],
    [UnitreePlugin.shutdown_while_connecting],
    [TelemetryProperties.two_final_snapshots],
    [TelemetryProperties.stopped_from_listener],
    [Ros2Bridge.zero_speed_is_rejected], [Ros2Bridge.callback_after_stop],
    [Ota.failed_rollback_rolls_back] and [Ota.verifies_other_version] of
    Cloud.v, and the last examples of MissionLoading.v, show where the code
    departs from its documentation or its intent.

    ** Bounds and fuel

    [BehaviorTreeRuntime.run_tree] takes fuel, a unit per round of its loop;
    [ExecuteTree_ends] gives the amount that is enough.  The JSON parser takes
    a unit per call and per round, and is given twice the length of the
    document; the loops of the YAML parsers a unit per line, and are given the
    number of lines; [NodeFromJson] descends the height of its value.  Running
    out is the answer [Exhausted], which no parser gives
    ([Parse_json_exact], [MissionParser_typed], [TreeParser_roundtrip]).  The
    termination measures of the shutdowns are functions of the state.
    The search for a subscription identifier makes as many rounds as there are
    listeners, and one more, where the code allows [2 ^ 64 - 1]:
    [allocate_enough] shows that these find what the others would.
    Lease identifiers are reused after [2 ^ 64] of them: the theorems on
    leases bound the length of the run accordingly.

    ** Not modelled

    - Failures of allocation and mutexes, and of thread creation except where
      the code answers them; what the parts write to the logger.
    - Sensors that call the sensor manager back while it calls them with the mutex
      of their entry held: a call of a sensor is one transition.
    - Memory reclamation: objects stay in the heap.
    - Opening and reading files: the loaders start from what the file system
      answers.  The depth of the recursion on the stack.
    - In the parsers of documents, [std::from_chars] on the texts of infinities
      and of numbers that are not, which they refuse in any case; a conversion to float
      out of range is the infinity of IEEE arithmetic.
    - What [GetMetrics] of the planning pipeline sees while a request is
      executed.  The loading of shared libraries, which the repository has an
      interface for only.
    - The interfaces of language models and their tools, in
      src/include/humanoid/ai, which nothing implements.
    - The vendor's SDK itself, and the build without it, in which the plugin
      refuses every operation.  The destructors of the Unitree classes.
    - CoreContext.cpp, the catalogues of names of the ROS 2 bridge and of the
      gRPC and streaming services, Endpoint.cpp, Filesystem.cpp and Time.cpp:
      pointers and texts that are stored and read, and calls of the standard
      library.
    - The examples, tests and benchmarks. *)

From Stdlib Require Import Morphisms.
From Stdlib Require Export ZArith Lia.
From stdpp Require Export base tactics numbers option strings gmap list.
From stdpp Require Import sorting.

Create HintDb cpp_lib.

#[export] Set Default Goal Selector "!".

(* ------------------------------------------------------------------ *)
(** ** Record update *)

(** [r <| proj := v |>] is the record [r] with the field [proj] replaced
    by [v]; [r <| proj ::= f |>] applies [f] to the field.  The setter of a
    projection is found by instance search: it abstracts the projection out
    of the eta expansion of the record, which each record supplies by an
    instance of [EtaRecord]. *)
Class EtaRecord (R : Type) := eta_record : R -> R.

Class FieldSetter {R T : Type} (proj : R -> T) :=
  set_field : (T -> T) -> R -> R.

Arguments set_field {R T} proj {FieldSetter} f r /.

Ltac solve_field_setter :=
  match goal with
  | |- @FieldSetter ?R ?T ?proj =>
      let inst := constr:(_ : EtaRecord R) in
      let eta := eval hnf in (@eta_record R inst) in
      exact (fun (update_field : T -> T) (record_at : R) =>
               ltac:(let body := eval cbv beta in (eta record_at) in
                     match eval pattern (proj record_at) in body with
                     | ?k _ => let res := eval cbv beta in (k (update_field (proj record_at))) in
                               exact res
                     end))
  end.

#[export] Hint Extern 1 (FieldSetter _) => solve_field_setter : typeclass_instances.

Declare Scope record_scope.
Delimit Scope record_scope with record.
Notation "r <| proj := v |>" := (set_field proj (fun _ => v) r)
  (at level 1, left associativity, proj at next level,
   format "r  <| proj  :=  v |>") : record_scope.
Notation "r <| proj ::= f |>" := (set_field proj f r)
  (at level 1, left associativity, proj at next level,
   format "r  <| proj  ::=  f |>") : record_scope.
Open Scope record_scope.

(* ------------------------------------------------------------------ *)
(** ** Machine words *)

(** [std::uint64_t] and [std::size_t] counters are integers of [Z]; the
    increments the code performs wrap around at [2 ^ 64]. *)
Open Scope Z_scope.

Definition u64_modulus : Z := 2 ^ 64.

Definition u64_incr (x : Z) : Z := (x + 1) mod u64_modulus.

Definition u64_decr (x : Z) : Z := (x - 1) mod u64_modulus.

Definition is_u64 (x : Z) : Prop := (0 <= x < u64_modulus)%Z.

(** [std::int64_t]: what the machine keeps of a result in two's complement, which
    is the result if it fits. *)
Definition i64_wrap (x : Z) : Z := (x + 2 ^ 63) mod 2 ^ 64 - 2 ^ 63.

Lemma i64_wrap_small x : - 2 ^ 63 <= x < 2 ^ 63 → i64_wrap x = x.
Proof. intros Hx. unfold i64_wrap. rewrite Z.mod_small; lia. Qed.

Lemma i64_wrap_range x : - 2 ^ 63 <= i64_wrap x < 2 ^ 63.
Proof. unfold i64_wrap. pose proof (Z.mod_pos_bound (x + 2 ^ 63) (2 ^ 64) eq_refl). lia. Qed.

(** Congruence of counters: two integers with the same 64-bit word. *)
Definition eq64 (x y : Z) : Prop := x mod u64_modulus = y mod u64_modulus.

Infix "≡₆₄" := eq64 (at level 70, no associativity).

#[export] Instance eq64_equivalence : Equivalence eq64.
Proof. split; unfold eq64; repeat intro; congruence. Qed.

#[export] Instance eq64_add_proper : Proper (eq64 ==> eq64 ==> eq64) Z.add.
Proof.
  unfold eq64. intros x x' Hx y y' Hy.
  rewrite (Zplus_mod x y), (Zplus_mod x' y'). congruence.
Qed.

#[export] Instance eq64_sub_proper : Proper (eq64 ==> eq64 ==> eq64) Z.sub.
Proof.
  unfold eq64. intros x x' Hx y y' Hy.
  rewrite (Zminus_mod x y), (Zminus_mod x' y'). congruence.
Qed.

Lemma u64_incr_eq64 x : u64_incr x ≡₆₄ x + 1.
Proof. unfold eq64, u64_incr. by rewrite Zmod_mod. Qed.

Lemma u64_decr_eq64 x : u64_decr x ≡₆₄ x - 1.
Proof. unfold eq64, u64_decr. by rewrite Zmod_mod. Qed.

Lemma u64_incr_small x : (0 <= x)%Z → (x + 1 < u64_modulus)%Z → u64_incr x = (x + 1)%Z.
Proof. intros. unfold u64_incr. apply Z.mod_small. lia. Qed.

Lemma u64_decr_small x : (1 <= x < u64_modulus)%Z → u64_decr x = (x - 1)%Z.
Proof. intros. unfold u64_decr. apply Z.mod_small. lia. Qed.

Lemma u64_incr_range x : is_u64 (u64_incr x).
Proof. unfold is_u64, u64_incr. apply Z.mod_pos_bound. reflexivity. Qed.

#[export] Instance u64_incr_proper : Proper (eq64 ==> eq64) u64_incr.
Proof. intros x y H. by rewrite !u64_incr_eq64, H. Qed.

Lemma eq64_small x y : is_u64 x → is_u64 y → x ≡₆₄ y → x = y.
Proof. unfold eq64, is_u64. intros Hx Hy. by rewrite !Z.mod_small. Qed.

(** [congr64] proves a congruence between sums of counters: increments are
    replaced by additions, and what is left is linear in the words. *)
Lemma eq64_divide x y : x ≡₆₄ y ↔ ∃ k, (x - y = k * u64_modulus)%Z.
Proof.
  unfold eq64. split.
  - intros H. exists (x / u64_modulus - y / u64_modulus)%Z.
    pose proof (Z_div_mod_eq_full x u64_modulus).
    pose proof (Z_div_mod_eq_full y u64_modulus). lia.
  - intros [k Hk]. replace x with (y + k * u64_modulus)%Z by lia.
    by rewrite Z_mod_plus_full.
Qed.

Ltac congr64 :=
  repeat match goal with
  | H : context [u64_incr ?x] |- _ =>
      let k := fresh "k" in
      destruct (proj1 (eq64_divide _ _) (u64_incr_eq64 x)) as [k ?];
      generalize dependent (u64_incr x); intros
  | |- context [u64_incr ?x] =>
      let k := fresh "k" in
      destruct (proj1 (eq64_divide _ _) (u64_incr_eq64 x)) as [k ?];
      generalize dependent (u64_incr x); intros
  end;
  repeat match goal with
  | H : _ ≡₆₄ _ |- _ =>
      let k := fresh "k" in apply eq64_divide in H as [k H]
  end;
  apply eq64_divide;
  unfold u64_modulus in *;
  match goal with
  | |- ∃ k, ?e = (k * ?m)%Z =>
      exists (e / m)%Z;
      pose proof (Z_div_mod_eq_full e m);
      pose proof (Z.mod_pos_bound e m eq_refl); lia
  end.

Close Scope Z_scope.

(* ------------------------------------------------------------------ *)
(** ** Case analysis on guards *)

(** [guards] splits every [if] and [match] of the goal. *)
Ltac guards := repeat (case_match; simplify_eq/=; try done).

(** [guards_in H] splits the tests on which the hypothesis [H] computes. *)
Ltac guards_in H :=
  repeat match type of H with
  | context [mbind (M := option) _ ?x] =>
      let E := fresh "Hguard" in destruct x eqn:E; simplify_eq/=; try done
  | context [match ?x with _ => _ end] =>
      let E := fresh "Hguard" in destruct x eqn:E; simplify_eq/=; try done
  end.

(* ------------------------------------------------------------------ *)
(** ** Sequence algorithms of the C++ standard library *)

(** [std::find_if] followed by [erase]. *)
Definition erase_first {A} (P : A → bool) (l : list A) : list A :=
  match list_find (λ x, Is_true (P x)) l with
  | Some (i, _) => delete i l
  | None => l
  end.

Section MaxElement.
Context {A : Type} (ltb : A → A → bool).

(** The loop of [std::max_element]: [best] is replaced only by a strictly
    larger element, so that the first of equal elements is kept. *)
Fixpoint max_element_from (best_index : nat) (best : A) (index : nat) (l : list A) : nat :=
  match l with
  | [] => best_index
  | x :: l' =>
      if ltb best x then max_element_from index x (S index) l'
      else max_element_from best_index best (S index) l'
  end.

Definition max_element (l : list A) : option nat :=
  match l with
  | [] => None
  | x :: l' => Some (max_element_from 0 x 1 l')
  end.

(** The comparators the code passes are strict weak orders. *)
Class StrictWeakOrder : Prop := {
  swo_asym : ∀ x y, ltb x y = true → ltb y x = false;
  swo_negtrans : ∀ x y z, ltb x y = false → ltb y z = false → ltb x z = false;
}.

Context `{StrictWeakOrder}.

Lemma swo_lt_le x y z : ltb x y = true → ltb y z = false → ltb z y = false → ltb x z = true.
Proof.
  intros Hxy Hyz Hzy. destruct (ltb x z) eqn:E; [done|].
  pose proof (swo_negtrans _ _ _ E Hzy). congruence.
Qed.

Lemma swo_trans x y z : ltb x y = true → ltb y z = true → ltb x z = true.
Proof.
  intros Hxy Hyz. destruct (ltb x z) eqn:E; [done|].
  pose proof (swo_negtrans _ _ _ E (swo_asym _ _ Hyz)). congruence.
Qed.
(** What the loop has established when it stands before [l]: [best], at
    [best_index] of the elements [pre] already passed, is the first of
    their maxima. *)
Definition first_maximum (l : list A) (i : nat) (x : A) : Prop :=
  l !! i = Some x ∧
  (∀ j y, l !! j = Some y → ltb x y = false) ∧
  (∀ j y, j < i → l !! j = Some y → ltb y x = true).

Lemma max_element_from_spec l : ∀ pre bi best,
  first_maximum pre bi best →
  ∃ x, first_maximum (pre ++ l) (max_element_from bi best (length pre) l) x.
Proof.
  induction l as [|x l IH]; intros pre bi best (Hbi & Hmax & Hfirst); simpl.
  { exists best. by rewrite app_nil_r. }
  pose proof (lookup_lt_Some _ _ _ Hbi).
  replace (S (length pre)) with (length (pre ++ [x])) by (rewrite length_app; simpl; lia).
  replace (pre ++ x :: l) with ((pre ++ [x]) ++ l) by (by rewrite <-app_assoc).
  destruct (ltb best x) eqn:Hlt; apply IH; repeat split.
  - by apply list_lookup_middle.
  - intros j y Hj. apply lookup_app_Some in Hj as [Hj|[_ Hj]].
    + apply (swo_negtrans _ best); eauto using swo_asym.
    + apply list_lookup_singleton_Some in Hj as [_ <-].
      destruct (ltb x x) eqn:E; [|done]. by rewrite (swo_asym _ _ E) in E.
  - intros j y Hj Hy. rewrite lookup_app_l in Hy by done.
    destruct (ltb best y) eqn:E; [by rewrite (Hmax _ _ Hy) in E|].
    destruct (ltb y x) eqn:E'; [done|].
    pose proof (swo_negtrans _ _ _ E E'). congruence.
  - rewrite lookup_app_l; [done|lia].
  - intros j y Hj. apply lookup_app_Some in Hj as [Hj|[_ Hj]]; [by eauto|].
    by apply list_lookup_singleton_Some in Hj as [_ <-].
  - intros j y Hj Hy. rewrite lookup_app_l in Hy by lia. by eauto.
Qed.

(** [std::max_element] returns the first of the maxima. *)
Lemma max_element_spec l i :
  max_element l = Some i → ∃ x, first_maximum l i x.
Proof.
  destruct l as [|x l]; [done|]. simpl. intros [= <-].
  apply (max_element_from_spec l [x] 0 x). repeat split.
  - intros j y Hj. apply list_lookup_singleton_Some in Hj as [_ <-].
    destruct (ltb x x) eqn:E; [|done]. by rewrite (swo_asym _ _ E) in E.
  - intros j y Hj. lia.
Qed.

Lemma max_element_None l : max_element l = None ↔ l = [].
Proof. by destruct l. Qed.

Lemma max_element_is_Some l : l ≠ [] → is_Some (max_element l).
Proof. destruct l; [done|]. eauto. Qed.

End MaxElement.

#[export] Hint Resolve swo_asym : cpp_lib.
(** Comparing by a key in [Z], the usual comparator, is a strict weak order. *)
#[export] Instance key_strict_weak_order {A} (key : A → Z) :
  StrictWeakOrder (λ x y, (key x <? key y)%Z).
Proof. split; intros; lia. Qed.

(** Deleting the element at an index. *)
Lemma elem_of_delete_NoDup {A} (l : list A) i x y :
  NoDup l → l !! i = Some x → y ∈ delete i l ↔ y ∈ l ∧ y ≠ x.
Proof.
  intros Hnd Hi. rewrite (delete_Permutation l i x Hi) in Hnd.
  apply NoDup_cons in Hnd as [Hx Hnd].
  rewrite (delete_Permutation l i x Hi) at 2. rewrite elem_of_cons.
  split; [|naive_solver]. intros Hy. split; [by right|]. by intros ->.
Qed.

Lemma NoDup_delete {A} (l : list A) i : NoDup l → NoDup (delete i l).
Proof. intros. eapply sublist_NoDup; [done|]. apply sublist_delete. Qed.

Lemma length_delete_Some {A} (l : list A) i x :
  l !! i = Some x → S (length (delete i l)) = length l.
Proof. intros Hi. by rewrite (delete_Permutation l i x Hi) at 2. Qed.

Lemma insert_delete_Permutation {A} (l : list A) i x y :
  l !! i = Some x → <[i := y]> l ≡ₚ y :: delete i l.
Proof.
  intros Hi. pose proof (lookup_lt_Some _ _ _ Hi).
  rewrite (delete_Permutation (<[i := y]> l) i y) by by apply list_lookup_insert_eq.
  by rewrite !delete_take_drop, take_insert_ge, drop_insert_lt by lia.
Qed.

Lemma sum_list_insert (l : list nat) i x y :
  l !! i = Some x → sum_list (<[i := y]> l) + x = sum_list l + y.
Proof.
  revert i. induction l as [|z l IH]; intros [|i] Hi; simplify_eq/=; [lia|].
  specialize (IH i Hi). lia.
Qed.

Section EraseFirst.
Context `{EqDecision A}.
Implicit Types (l : list A) (x y : A).

Definition erase_value (x : A) (l : list A) : list A :=
  erase_first (λ y, bool_decide (y = x)) l.

Lemma erase_value_cases x l :
  (x ∉ l ∧ erase_value x l = l) ∨
  (∃ i, l !! i = Some x ∧ erase_value x l = delete i l).
Proof.
  unfold erase_value, erase_first. destruct (list_find _ l) as [[i y]|] eqn:E.
  - apply list_find_Some in E as (Hi & Hp & _). apply bool_decide_unpack in Hp as ->.
    right. eauto.
  - left. split; [|done]. apply list_find_None in E. intros Hx.
    rewrite Forall_forall in E. apply (E x Hx). by apply bool_decide_pack.
Qed.

Lemma elem_of_erase_value x y l :
  NoDup l → y ∈ erase_value x l ↔ y ∈ l ∧ y ≠ x.
Proof.
  intros Hnd. destruct (erase_value_cases x l) as [[Hx ->]|(i & Hi & ->)].
  - naive_solver.
  - by apply elem_of_delete_NoDup.
Qed.

Lemma NoDup_erase_value x l : NoDup l → NoDup (erase_value x l).
Proof.
  intros. destruct (erase_value_cases x l) as [[Hx ->]|(i & Hi & ->)];
    eauto using NoDup_delete.
Qed.

Lemma erase_value_Permutation x l : x ∈ l → l ≡ₚ x :: erase_value x l.
Proof.
  intros Hx. destruct (erase_value_cases x l) as [[Hx' _]|(i & Hi & ->)]; [done|].
  by apply delete_Permutation.
Qed.

Lemma length_erase_value x l : length (erase_value x l) <= length l.
Proof.
  destruct (erase_value_cases x l) as [[Hx ->]|(i & Hi & ->)]; [done|].
  pose proof (length_delete_Some _ _ _ Hi). lia.
Qed.

Lemma length_erase_value_in x l : x ∈ l → S (length (erase_value x l)) = length l.
Proof.
  intros Hx. destruct (erase_value_cases x l) as [[Hx' _]|(i & Hi & ->)]; [done|].
  by eapply length_delete_Some.
Qed.
End EraseFirst.

(* ------------------------------------------------------------------ *)
(** ** Runs of a component *)

(** A component is an executable transition function on labels, [None] for a
    label that is not enabled.  Each label is one critical section of the
    code, so that a list of labels is an interleaving of its threads. *)
Section Runs.
Context {State Label : Type} (exec : State → Label → option State).

Fixpoint run (s : State) (ls : list Label) : option State :=
  match ls with
  | [] => Some s
  | l :: ls' => match exec s l with Some s' => run s' ls' | None => None end
  end.

Lemma run_app s ls1 ls2 :
  run s (ls1 ++ ls2) = match run s ls1 with Some s' => run s' ls2 | None => None end.
Proof. revert s. induction ls1 as [|l ls1 IH]; intros s; simpl; [done|]. by case_match. Qed.

Lemma run_invariant (Inv : State → Prop) :
  (∀ s l s', Inv s → exec s l = Some s' → Inv s') →
  ∀ ls s s', Inv s → run s ls = Some s' → Inv s'.
Proof.
  intros Hstep ls. induction ls as [|l ls IH]; intros s s' HI Hrun; simplify_eq/=; [done|].
  destruct (exec s l) as [s1|] eqn:E; [|done]. eauto.
Qed.

(** An invariant that also counts the labels that were executed. *)
Lemma run_invariant_trace (Inv : list Label → State → Prop) :
  (∀ ls s l s', Inv ls s → exec s l = Some s' → Inv (ls ++ [l]) s') →
  ∀ ls' ls s s', Inv ls s → run s ls' = Some s' → Inv (ls ++ ls') s'.
Proof.
  intros Hstep ls'. induction ls' as [|l ls' IH]; intros ls s s' HI Hrun; simplify_eq/=.
  - by rewrite app_nil_r.
  - destruct (exec s l) as [s1|] eqn:E; [|done].
    replace (ls ++ l :: ls') with ((ls ++ [l]) ++ ls') by (by rewrite <-app_assoc). eauto.
Qed.
End Runs.

(* ------------------------------------------------------------------ *)
(** ** Maps in the order of their keys

    A [std::map] whose keys are strings is traversed in the order of the keys,
    byte by byte.  [bindings] lists a finite map in that order. *)

Definition key_le {A} (x y : string * A) : Prop := String.leb x.1 y.1 = true.

#[export] Instance key_le_dec {A} : RelDecision (@key_le A).
Proof. intros x y. unfold key_le. apply _. Defined.

#[export] Instance key_le_total {A} : Total (@key_le A).
Proof. intros x y. apply String.leb_total. Qed.

Lemma leb_cons a s b t :
  String.leb (String a s) (String b t) = true ↔
    (Ascii.N_of_ascii a < Ascii.N_of_ascii b)%N ∨ a = b ∧ String.leb s t = true.
Proof.
  unfold String.leb. simpl. unfold Ascii.compare.
  destruct (N.compare_spec (Ascii.N_of_ascii a) (Ascii.N_of_ascii b)) as [E|E|E].
  - assert (a = b) as <- by by rewrite <-(Ascii.ascii_N_embedding a), E, Ascii.ascii_N_embedding.
    split; [by right|]. intros [?|[_ ?]]; [lia|done].
  - split; [by left|done].
  - split; [done|]. intros [?|[-> _]]; lia.
Qed.

Lemma string_leb_trans s t u :
  String.leb s t = true → String.leb t u = true → String.leb s u = true.
Proof.
  revert t u. induction s as [|a s IH]; intros [|b t] [|c u]; try done.
  rewrite !leb_cons. intros [?|[-> ?]] [?|[-> ?]]; [left; lia|by left|by left|].
  right. split; [done|]. by eapply IH.
Qed.

#[export] Instance key_le_trans {A} : Transitive (@key_le A).
Proof. intros x y z. apply string_leb_trans. Qed.

Definition bindings {A} (m : gmap string A) : list (string * A) := merge_sort key_le (map_to_list m).

Section Bindings.
Context {A : Type}.
Implicit Types m : gmap string A.

Lemma bindings_perm m : bindings m ≡ₚ map_to_list m.
Proof. apply merge_sort_Permutation. Qed.

Lemma bindings_sorted m : StronglySorted key_le (bindings m).
Proof. apply StronglySorted_merge_sort; apply _. Qed.

Lemma elem_of_bindings m k x : (k, x) ∈ bindings m ↔ m !! k = Some x.
Proof. rewrite bindings_perm. apply elem_of_map_to_list. Qed.

Lemma NoDup_bindings m : NoDup (bindings m).*1.
Proof. rewrite bindings_perm. apply NoDup_fst_map_to_list. Qed.

Lemma length_bindings m : length (bindings m) = size m.
Proof. rewrite bindings_perm. apply length_map_to_list. Qed.
End Bindings.
