(* ===== verification/Command.v ===== *)
(** * The command model

    Commands, their statuses and results (include/humanoid/core/Command.h,
    CommandType.h, CommandPriority.h, CommandStatus.h, CommandResult.h), and
    the checks on identifiers, timeouts and monotonic timestamps that the
    command queue, the dispatcher, the execution pipeline and the safety
    validator share.

    Enumerations have a fixed underlying type in the source, so that a value
    outside the enumerators can reach a [switch] through a cast: each
    inductive type has one more constructor, carrying the raw value, which
    takes the path after the [switch].  The steady clock is read explicitly:
    each reading of the code is an argument [now]. *)

From Stdlib Require Import SpecFloat.
From S2P Require Import Prelude.

Open Scope Z_scope.

(* ------------------------------------------------------------------ *)
(** ** Enumerations *)

Inductive CommandPriority :=
  | PriorityLow | PriorityNormal | PriorityHigh | PriorityCritical
  | PriorityRaw (value : Z).

Inductive CommandType :=
  | TypeStand | TypeSit | TypeWalk | TypeStop | TypeMove | TypeRotate | TypeVelocity
  | TypeEmergencyStop | TypeHandOpen | TypeHandClose | TypeGesture | TypePlayAudio
  | TypeStopAudio | TypeSetVolume | TypeMuteAudio | TypeCustom
  | TypeRaw (value : Z).

Inductive CommandStatus :=
  | StatusPending | StatusQueued | StatusRunning | StatusCompleted | StatusCancelled
  | StatusFailed | StatusTimeout | StatusRejected
  | StatusRaw (value : Z).

#[export] Instance CommandPriority_eq_dec : EqDecision CommandPriority.
Proof. solve_decision. Defined.
#[export] Instance CommandType_eq_dec : EqDecision CommandType.
Proof. solve_decision. Defined.
#[export] Instance CommandStatus_eq_dec : EqDecision CommandStatus.
Proof. solve_decision. Defined.

(** [static_cast<std::uint8_t>(priority)] *)
Definition priority_value (p : CommandPriority) : Z :=
  match p with
  | PriorityLow => 0
  | PriorityNormal => 1
  | PriorityHigh => 2
  | PriorityCritical => 3
  | PriorityRaw v => v
  end.

Definition IsKnownPriority (p : CommandPriority) : bool :=
  match p with
  | PriorityLow | PriorityNormal | PriorityHigh | PriorityCritical => true
  | PriorityRaw _ => false
  end.

Definition IsKnownCommandType (t : CommandType) : bool :=
  match t with
  | TypeStand | TypeSit | TypeWalk | TypeStop | TypeMove | TypeRotate | TypeVelocity
  | TypeEmergencyStop | TypeHandOpen | TypeHandClose | TypeGesture | TypePlayAudio
  | TypeStopAudio | TypeSetVolume | TypeMuteAudio | TypeCustom => true
  | TypeRaw _ => false
  end.

Definition isTerminal (s : CommandStatus) : bool :=
  match s with
  | StatusCompleted | StatusCancelled | StatusFailed | StatusTimeout | StatusRejected => true
  | StatusPending | StatusQueued | StatusRunning => false
  | StatusRaw _ => false
  end.

Definition CommandPriority_toString (p : CommandPriority) : string :=
  match p with
  | PriorityLow => "Low"
  | PriorityNormal => "Normal"
  | PriorityHigh => "High"
  | PriorityCritical => "Critical"
  | PriorityRaw _ => "Unknown"
  end.

Definition CommandStatus_toString (s : CommandStatus) : string :=
  match s with
  | StatusPending => "Pending"
  | StatusQueued => "Queued"
  | StatusRunning => "Running"
  | StatusCompleted => "Completed"
  | StatusCancelled => "Cancelled"
  | StatusFailed => "Failed"
  | StatusTimeout => "Timeout"
  | StatusRejected => "Rejected"
  | StatusRaw _ => "Unknown"
  end.

Definition CommandType_toString (t : CommandType) : string :=
  match t with
  | TypeStand => "Stand"
  | TypeSit => "Sit"
  | TypeWalk => "Walk"
  | TypeStop => "Stop"
  | TypeMove => "Move"
  | TypeRotate => "Rotate"
  | TypeVelocity => "Velocity"
  | TypeEmergencyStop => "EmergencyStop"
  | TypeHandOpen => "HandOpen"
  | TypeHandClose => "HandClose"
  | TypeGesture => "Gesture"
  | TypePlayAudio => "PlayAudio"
  | TypeStopAudio => "StopAudio"
  | TypeSetVolume => "SetVolume"
  | TypeMuteAudio => "MuteAudio"
  | TypeCustom => "Custom"
  | TypeRaw _ => "Unknown"
  end.

(* ------------------------------------------------------------------ *)
(** ** Commands and results *)

(** [std::variant<bool, std::int64_t, double, std::string>]; a [double] is a
    binary64 value of the Standard Library's specification of floats. *)
Inductive CommandPayloadValue :=
  | PayloadBool (b : bool)
  | PayloadInt (i : Z)
  | PayloadDouble (d : spec_float)
  | PayloadString (s : string).

(** Identifiers are 64-bit words, [timestamp] counts nanoseconds since the
    epoch of the steady clock, [timeout] counts milliseconds. *)
Record Command := mkCommand {
  id : Z;
  timestamp : Z;
  type : CommandType;
  priority : CommandPriority;
  timeout : Z;
  payload : gmap string CommandPayloadValue;
  metadata : gmap string string;
}.

#[export] Instance eta_Command : EtaRecord Command := fun c =>
  mkCommand (id c) (timestamp c) (type c) (priority c) (timeout c) (payload c) (metadata c).

(** The default-constructed command. *)
Definition default_Command : Command :=
  mkCommand 0 0 TypeCustom PriorityNormal 0 ∅ ∅.

Definition isValid (c : Command) : bool := negb (id c =? 0) && (0 <=? timeout c).

Definition hasTimeout (c : Command) : bool := 0 <? timeout c.

Record CommandResult := mkResult { status : CommandStatus; message : string }.

#[export] Instance CommandResult_eq_dec : EqDecision CommandResult.
Proof. solve_decision. Defined.

(** The helper [Result] of the anonymous namespaces. *)
Definition Result (s : CommandStatus) (m : string) : CommandResult := mkResult s m.

Definition isSuccess (r : CommandResult) : bool := bool_decide (status r = StatusCompleted).

Definition CommandResult_isTerminal (r : CommandResult) : bool := isTerminal (status r).

(* ------------------------------------------------------------------ *)
(** ** Timeouts *)

(** A comparison of a duration in nanoseconds with one in milliseconds converts
    the second to nanoseconds in [std::int64_t].  The C++ standard leaves an overflow
    undefined; here it wraps around, as the multiplication of the machine does. *)
Definition ns_of_ms (ms : Z) : Z := i64_wrap (ms * 1000000).

(** The difference of two time points in nanoseconds. *)
Definition elapsed_ns (now since : Z) : Z := i64_wrap (now - since).

(** Time points that a steady clock gives, and timeouts of at most 292 years, are
    compared as numbers. *)
Lemma expiry_compared now since ms :
  0 <= since < 2 ^ 63 → 0 <= now < 2 ^ 63 → 0 <= ms <= 9223372036854 →
  elapsed_ns now since < ns_of_ms ms ↔ now - since < ms * 1000000.
Proof. intros. unfold elapsed_ns, ns_of_ms. by rewrite !i64_wrap_small by lia. Qed.

Definition HasExpired (c : Command) (now : Z) : bool :=
  if negb (hasTimeout c) || (timestamp c =? 0) then false
  else (timestamp c <=? now) && (ns_of_ms (timeout c) <=? elapsed_ns now (timestamp c)).

(** The checks of a timed command common to the entry points; [expired] is
    the message of the component for a command whose time has passed. *)
Definition ValidateTimes (c : Command) (now : Z) (expired : string) : option CommandResult :=
  if timestamp c =? 0 then
    Some (Result StatusRejected "Timed commands require a monotonic creation timestamp")
  else if now <? timestamp c then
    Some (Result StatusRejected "Command timestamp must not be in the future")
  else if ns_of_ms (timeout c) <=? elapsed_ns now (timestamp c) then
    Some (Result StatusTimeout expired)
  else None.

(** [ValidateForQueue] of src/core/CommandQueue.cpp *)
Definition ValidateForQueue (c : Command) (now : Z) : option CommandResult :=
  if id c =? 0 then Some (Result StatusRejected "Command identifier must be nonzero")
  else if timeout c <? 0 then Some (Result StatusRejected "Command timeout must not be negative")
  else if negb (IsKnownPriority (priority c)) then
    Some (Result StatusRejected "Command priority is invalid")
  else if negb (hasTimeout c) then None
  else ValidateTimes c now "Command expired before queue acceptance".

(** [ValidateForSubmission] of src/core/CommandExecutionPipeline.cpp *)
Definition ValidateForSubmission (c : Command) (now : Z) : option CommandResult :=
  if id c =? 0 then Some (Result StatusRejected "Command identifier must be nonzero")
  else if timeout c <? 0 then Some (Result StatusRejected "Command timeout must not be negative")
  else if negb (IsKnownCommandType (type c)) then
    Some (Result StatusRejected "Command type is invalid")
  else if negb (IsKnownPriority (priority c)) then
    Some (Result StatusRejected "Command priority is invalid")
  else if negb (hasTimeout c) then None
  else ValidateTimes c now "Command expired before execution submission".
