(* ===== verification/Workers.v ===== *)
(** * Worker pools

    The command queue, the execution pipeline and the runtime scheduler each
    own a pool of [std::jthread] workers running the same loop: wait for work
    under the mutex, take a task, run it unlocked, record its result under the
    mutex, deliver the result to the task's promise unlocked.  This file holds
    the program counter of such a worker, the caller identities of
    [std::this_thread::get_id], and the lemmas on the tasks a pool holds.

    Tasks are shared objects ([std::shared_ptr]): a task is named by the
    location at which the store of its component keeps it. *)

From S2P Require Import Prelude.

(** Location of a shared object in the store of a component. *)
Abbreviation ptr := nat.

(** What [std::this_thread::get_id] tells apart: the workers of the component
    at hand, and any other thread. *)
Inductive ThreadId :=
  | WorkerThread (index : nat)
  | ClientThread (number : nat).

#[export] Instance ThreadId_eq_dec : EqDecision ThreadId.
Proof. solve_decision. Defined.

(** Where a worker stands in its loop. [R] is the type of results. *)
Inductive WorkerPc (R : Type) :=
  | WorkerStarting                        (** before it stored its thread id *)
  | WorkerWaiting                         (** at the condition variable *)
  | WorkerExecuting (p : ptr)             (** unlocked, its task not run yet *)
  | WorkerFinished (p : ptr) (r : R)      (** result known, not recorded *)
  | WorkerDelivering (p : ptr) (r : R)    (** recorded, promise not set yet *)
  | WorkerExited.

Arguments WorkerStarting {R}.
Arguments WorkerWaiting {R}.
Arguments WorkerExecuting {R} p.
Arguments WorkerFinished {R} p r.
Arguments WorkerDelivering {R} p r.
Arguments WorkerExited {R}.

Section Pool.
Context {R : Type}.
Implicit Types (pc : WorkerPc R) (ws : list (WorkerPc R)).

(** The task a worker is running, the one it is delivering. *)
Definition running_of (pc : WorkerPc R) : option ptr :=
  match pc with
  | WorkerExecuting p | WorkerFinished p _ => Some p
  | _ => None
  end.

Definition delivering_of (pc : WorkerPc R) : option ptr :=
  match pc with
  | WorkerDelivering p _ => Some p
  | _ => None
  end.

Definition has_exited (pc : WorkerPc R) : bool :=
  match pc with WorkerExited => true | _ => false end.

Definition running_tasks (ws : list (WorkerPc R)) : list ptr := omap running_of ws.
Definition delivering_tasks (ws : list (WorkerPc R)) : list ptr := omap delivering_of ws.

(** All workers have left their loop, what [join] waits for. *)
Definition all_exited (ws : list (WorkerPc R)) : bool := forallb has_exited ws.
End Pool.

(** [IsWorkerThread]: the identity of the caller is among the stored ones. *)
Definition IsWorkerThread (caller : ThreadId) (worker_ids : list (option ThreadId)) : bool :=
  bool_decide (Some caller ∈ worker_ids).

(* ------------------------------------------------------------------ *)
(** ** Lemmas *)

Lemma omap_lookup_Permutation {A B} (f : A → option B) (l : list A) i x :
  l !! i = Some x → omap f l ≡ₚ option_list (f x) ++ omap f (delete i l).
Proof.
  intros Hi. rewrite (delete_Permutation l i x Hi) at 1. simpl. by destruct (f x).
Qed.

Lemma omap_insert_Permutation {A B} (f : A → option B) (l : list A) i x y :
  l !! i = Some x → omap f (<[i := y]> l) ≡ₚ option_list (f y) ++ omap f (delete i l).
Proof.
  intros Hi. rewrite (insert_delete_Permutation _ _ _ y Hi). simpl. by destruct (f y).
Qed.

Lemma omap_delete_None {A B} (f : A → option B) (l : list A) i x :
  l !! i = Some x → f x = None → omap f (delete i l) = omap f l.
Proof.
  intros Hi Hx. rewrite <-(take_drop_middle l i x Hi) at 2. rewrite delete_take_drop, !omap_app.
  simpl. by rewrite Hx.
Qed.

Section PoolLemmas.
Context {R : Type}.
Implicit Types (pc : WorkerPc R) (ws : list (WorkerPc R)).

(** A worker that moves exchanges the task it held for the one it now holds. *)
Lemma running_tasks_move ws w pc pc' :
  ws !! w = Some pc →
  option_list (running_of pc) ++ running_tasks (<[w := pc']> ws) ≡ₚ
  option_list (running_of pc') ++ running_tasks ws.
Proof.
  intros Hw. unfold running_tasks.
  rewrite (omap_insert_Permutation _ _ _ _ pc' Hw), (omap_lookup_Permutation _ _ _ _ Hw).
  apply Permutation_app_swap_app.
Qed.

Lemma delivering_tasks_move ws w pc pc' :
  ws !! w = Some pc →
  option_list (delivering_of pc) ++ delivering_tasks (<[w := pc']> ws) ≡ₚ
  option_list (delivering_of pc') ++ delivering_tasks ws.
Proof.
  intros Hw. unfold delivering_tasks.
  rewrite (omap_insert_Permutation _ _ _ _ pc' Hw), (omap_lookup_Permutation _ _ _ _ Hw).
  apply Permutation_app_swap_app.
Qed.

Lemma running_tasks_in ws w pc p :
  ws !! w = Some pc → running_of pc = Some p → p ∈ running_tasks ws.
Proof. intros. apply list_elem_of_omap. exists pc. eauto using list_elem_of_lookup_2. Qed.

Lemma delivering_tasks_in ws w pc p :
  ws !! w = Some pc → delivering_of pc = Some p → p ∈ delivering_tasks ws.
Proof. intros. apply list_elem_of_omap. exists pc. eauto using list_elem_of_lookup_2. Qed.

Lemma running_tasks_bound ws : length (running_tasks ws) <= length ws.
Proof.
  induction ws as [|pc ws IH]; [done|].
  change (running_tasks (pc :: ws)) with
    (match running_of pc with Some p => p :: running_tasks ws | None => running_tasks ws end).
  destruct (running_of pc); simpl; lia.
Qed.

Lemma all_exited_spec ws :
  all_exited ws = true ↔ ∀ w pc, ws !! w = Some pc → pc = WorkerExited.
Proof.
  unfold all_exited. rewrite forallb_forall. split.
  - intros H w pc Hw. specialize (H pc). destruct pc; try done;
      (discriminate H; apply list_elem_of_In; by eapply list_elem_of_lookup_2).
  - intros H pc Hin. apply list_elem_of_In, list_elem_of_lookup in Hin as [w Hw].
    by rewrite (H _ _ Hw).
Qed.

Lemma all_exited_running ws : all_exited ws = true → running_tasks ws = [].
Proof.
  unfold all_exited, running_tasks. induction ws as [|pc ws IH]; simpl; [done|].
  rewrite andb_true_iff. intros [? ?]. destruct pc; simplify_eq/=; eauto.
Qed.

Lemma all_exited_delivering ws : all_exited ws = true → delivering_tasks ws = [].
Proof.
  unfold all_exited, delivering_tasks. induction ws as [|pc ws IH]; simpl; [done|].
  rewrite andb_true_iff. intros [? ?]. destruct pc; simplify_eq/=; eauto.
Qed.

Lemma running_tasks_replicate n pc : running_of pc = None → running_tasks (replicate n pc) = [].
Proof. intros H. unfold running_tasks. induction n; simpl; [done|]. by rewrite H. Qed.

Lemma delivering_tasks_replicate n pc :
  delivering_of pc = None → delivering_tasks (replicate n pc) = [].
Proof. intros H. unfold delivering_tasks. induction n; simpl; [done|]. by rewrite H. Qed.
End PoolLemmas.
