(* ===== verification/TaskStore.v ===== *)
(** * The task store of a worker-pool component

    The objects behind [std::shared_ptr<Task>] and the containers that point
    to them: the deque of waiting tasks, the tasks the workers run, the tasks
    whose promise a worker is about to set, the tasks a shutting-down thread
    has withdrawn from the deque, and the index from identifiers to tasks.

    [store_inv] states how these fit together; a lemma per move of the code
    shows that it is kept.  The components instantiate [TaskLike]. *)

From S2P Require Import Prelude Workers.

Class TaskLike (T R : Type) := {
  task_promise : T → option R;   (** the value delivered to the future *)
  task_key : T → Z;              (** the identifier in the index *)
  task_running : T → bool;       (** taken by a worker *)
}.

Section Store.
Context {T R : Type} `{TaskLike T R}.
Implicit Types (h : gmap ptr T) (n : ptr) (q r d c : list ptr) (tk : gmap Z ptr).

Record store_inv h n q r d c tk : Prop := {
  si_nodup : NoDup (q ++ r ++ d ++ c);
  si_live p : p ∈ q ++ r ++ d ++ c ↔ ∃ t, h !! p = Some t ∧ task_promise t = None;
  si_fresh p : is_Some (h !! p) → p < n;
  si_index i p :
    tk !! i = Some p ↔ p ∈ q ++ r ∧ ∃ t, h !! p = Some t ∧ task_key t = i;
  si_running p t : h !! p = Some t → p ∈ q ++ r → task_running t = bool_decide (p ∈ r);
}.

#[export] Instance store_inv_proper h n :
  Proper ((≡ₚ) ==> (≡ₚ) ==> (≡ₚ) ==> (≡ₚ) ==> eq ==> iff) (store_inv h n).
Proof.
  cut (∀ q q' r r' d d' c c' tk, q ≡ₚ q' → r ≡ₚ r' → d ≡ₚ d' → c ≡ₚ c' →
         store_inv h n q r d c tk → store_inv h n q' r' d' c' tk).
  { intros Hcut q q' Hq r r' Hr d d' Hd c c' Hc tk tk' <-.
    split; apply Hcut; done || by symmetry. }
  intros q q' r r' d d' c c' tk Hq Hr Hd Hc [H1 H2 H3 H4 H5]. split.
  - by rewrite <-Hq, <-Hr, <-Hd, <-Hc.
  - intros p. by rewrite <-H2, Hq, Hr, Hd, Hc.
  - done.
  - intros i p. by rewrite H4, Hq, Hr.
  - intros p t Hp Hin. rewrite (H5 p t Hp) by (by rewrite Hq, Hr).
    apply bool_decide_ext. by rewrite Hr.
Qed.

Lemma store_inv_empty n : store_inv ∅ n [] [] [] [] ∅.
Proof.
  split; simpl; try done.
  - constructor.
  - intros p. rewrite lookup_empty. split; [by intros ?%elem_of_nil|naive_solver].
  - intros p. rewrite lookup_empty. by intros [].
  - intros i p. rewrite !lookup_empty. split; [done|]. by intros [?%elem_of_nil _].
Qed.

(** *** Reading the store *)

Section Facts.
Context {h n q r d c tk} (I : store_inv h n q r d c tk).

Lemma store_live_lookup p :
  p ∈ q ++ r ++ d ++ c → ∃ t, h !! p = Some t ∧ task_promise t = None.
Proof. apply (si_live _ _ _ _ _ _ _ I). Qed.

Lemma store_fresh_None p : n <= p → h !! p = None.
Proof.
  intros. destruct (h !! p) eqn:E; [|done].
  pose proof (si_fresh _ _ _ _ _ _ _ I p). rewrite E in *.
  assert (p < n) by eauto. lia.
Qed.

Lemma store_fresh_not_live : n ∉ q ++ r ++ d ++ c.
Proof. intros [t [Ht _]]%store_live_lookup. by rewrite (store_fresh_None n) in Ht. Qed.

(** The index is injective: no two outstanding tasks share a key. *)
Lemma store_index_key p t :
  p ∈ q ++ r → h !! p = Some t → tk !! task_key t = Some p.
Proof. intros. apply (si_index _ _ _ _ _ _ _ I). naive_solver. Qed.
End Facts.

(** What the invariant reads of an object. *)
Definition task_view (t : T) : option R * Z * bool := (task_promise t, task_key t, task_running t).

Lemma view_lookup h h' p t' :
  (∀ p, task_view <$> h' !! p = task_view <$> h !! p) → h' !! p = Some t' →
  ∃ t, h !! p = Some t ∧ task_promise t = task_promise t' ∧ task_key t = task_key t' ∧
       task_running t = task_running t'.
Proof.
  intros Hv Hp. specialize (Hv p). rewrite Hp in Hv. unfold task_view in Hv.
  destruct (h !! p) as [t|]; simplify_eq/=. eauto.
Qed.

(** Objects may change in what the invariant does not read. *)
Lemma store_inv_view h h' n q r d c tk :
  (∀ p, task_view <$> h' !! p = task_view <$> h !! p) →
  store_inv h n q r d c tk → store_inv h' n q r d c tk.
Proof.
  intros Hv [H1 H2 H3 H4 H5].
  assert (Hv' : ∀ p, task_view <$> h !! p = task_view <$> h' !! p) by done.
  split; try done.
  - intros p. rewrite H2. split; intros (t & Ht & Hp).
    + destruct (view_lookup _ _ _ _ Hv' Ht) as (t' & ? & ? & _). exists t'. split; congruence.
    + destruct (view_lookup _ _ _ _ Hv Ht) as (t' & ? & ? & _). exists t'. split; congruence.
  - intros p [t Ht]. destruct (view_lookup _ _ _ _ Hv Ht) as (t' & ? & _). eauto.
  - intros i p. rewrite H4. split; intros [Hin (t & Ht & Hk)]; (split; [done|]).
    + destruct (view_lookup _ _ _ _ Hv' Ht) as (t' & ? & _ & ? & _). exists t'. split; congruence.
    + destruct (view_lookup _ _ _ _ Hv Ht) as (t' & ? & _ & ? & _). exists t'. split; congruence.
  - intros p t Ht Hin. destruct (view_lookup _ _ _ _ Hv Ht) as (t' & ? & _ & _ & <-). eauto.
Qed.

(** *** The moves *)

(** An object whose promise is already set does not matter. *)
Lemma store_alloc_done h n q r d c tk t :
  store_inv h n q r d c tk → is_Some (task_promise t) →
  store_inv (<[n := t]> h) (S n) q r d c tk.
Proof.
  intros I Ht. pose proof (store_fresh_not_live I) as Hn.
  assert (Hne : ∀ p, p ∈ q ++ r ++ d ++ c → n ≠ p) by (by intros p Hp ->).
  assert (Hqr : ∀ p, p ∈ q ++ r → p ∈ q ++ r ++ d ++ c).
  { intros p. rewrite !elem_of_app. tauto. }
  destruct I as [H1 H2 H3 H4 H5]. split.
  - done.
  - intros p. rewrite H2. destruct (decide (n = p)) as [->|].
    + rewrite lookup_insert_eq. split; [|by intros (? & [= ->] & HN); destruct Ht; congruence].
      intros [t' [Hp _]]. assert (p < p) by eauto. lia.
    + by rewrite lookup_insert_ne.
  - intros p. destruct (decide (n = p)) as [->|].
    + lia.
    + rewrite lookup_insert_ne by done. intros Hp%H3. lia.
  - intros i p. rewrite H4. split; intros [Hp (t' & Ht' & Hi)]; split; try done; exists t'.
    + by rewrite lookup_insert_ne by auto.
    + by rewrite lookup_insert_ne in Ht' by auto.
  - intros p t' Ht' Hp. rewrite lookup_insert_ne in Ht' by auto. eauto.
Qed.

(** [Enqueue]: a fresh object enters the deque and the index. *)
Lemma store_alloc_waiting h n q r d c tk t :
  store_inv h n q r d c tk →
  task_promise t = None → task_running t = false → tk !! task_key t = None →
  store_inv (<[n := t]> h) (S n) (q ++ [n]) r d c (<[task_key t := n]> tk).
Proof.
  intros I Ht Hrun Hkey. pose proof (store_fresh_not_live I) as Hn.
  assert (Hne : ∀ p, p ∈ q ++ r ++ d ++ c → n ≠ p) by (by intros p Hp ->).
  assert (Hqr : ∀ p, p ∈ q ++ r → p ∈ q ++ r ++ d ++ c).
  { intros p. rewrite !elem_of_app. tauto. }
  assert (Hperm : q ++ [n] ≡ₚ n :: q) by (symmetry; apply Permutation_cons_append).
  rewrite Hperm. destruct I as [H1 H2 H3 H4 H5]. split; simpl.
  - by constructor.
  - intros p. rewrite elem_of_cons, H2. destruct (decide (n = p)) as [->|].
    + rewrite lookup_insert_eq. naive_solver.
    + rewrite lookup_insert_ne by done. naive_solver.
  - intros p. destruct (decide (n = p)) as [->|]; [lia|].
    rewrite lookup_insert_ne by done. intros Hp%H3. lia.
  - intros i p. rewrite elem_of_cons. destruct (decide (task_key t = i)) as [<-|].
    + rewrite lookup_insert_eq. split.
      * intros [= <-]. split; [by left|]. exists t. by rewrite lookup_insert_eq.
      * intros [[->|Hp] (t' & Ht' & Hk)]; [done|].
        rewrite lookup_insert_ne in Ht' by auto.
        assert (tk !! task_key t = Some p) by (apply H4; eauto). congruence.
    + rewrite lookup_insert_ne by done. rewrite H4. split.
      * intros [Hp (t' & Ht' & Hk)]. split; [by right|]. exists t'.
        by rewrite lookup_insert_ne by auto.
      * intros [[->|Hp] (t' & Ht' & Hk)]; [by rewrite lookup_insert_eq in Ht'; naive_solver|].
        rewrite lookup_insert_ne in Ht' by auto. eauto.
  - intros p t' Ht' [->|Hp]%elem_of_cons.
    + rewrite lookup_insert_eq in Ht'. simplify_eq. rewrite Hrun. symmetry.
      apply bool_decide_eq_false. intros Hp. apply Hn. rewrite !elem_of_app. tauto.
    + rewrite lookup_insert_ne in Ht' by auto. eauto.
Qed.

(** An object of the live lists is rewritten in place, promise untouched. *)
Lemma store_take h n q r d c tk i p t t' :
  store_inv h n q r d c tk → q !! i = Some p → h !! p = Some t →
  task_key t' = task_key t → task_promise t' = task_promise t → task_running t' = true →
  store_inv (<[p := t']> h) n (delete i q) (p :: r) d c tk.
Proof.
  intros I Hi Hp Hk Hpr Hrun. rewrite (delete_Permutation q i p Hi) in I.
  set (q' := delete i q) in *. clearbody q'. destruct I as [H1 H2 H3 H4 H5].
  assert (Hperm : (p :: q') ++ r ++ d ++ c ≡ₚ q' ++ (p :: r) ++ d ++ c).
  { simpl. apply Permutation_middle. }
  split.
  - by rewrite <-Hperm.
  - intros x. rewrite <-Hperm, H2. destruct (decide (p = x)) as [->|].
    + rewrite lookup_insert_eq.
      split; intros (t0 & Ht0 & HN); simplify_eq; eexists; split; done || congruence.
    + by rewrite lookup_insert_ne.
  - intros x. destruct (decide (p = x)) as [->|].
    + intros _. eauto.
    + rewrite lookup_insert_ne by done. eauto.
  - intros j x. rewrite H4. rewrite !elem_of_app, !elem_of_cons.
    destruct (decide (p = x)) as [->|].
    + rewrite lookup_insert_eq. split; intros [_ (t0 & Ht0 & Hkey)]; simplify_eq.
      * split; [tauto|]. exists t'. by rewrite Hk.
      * split; [tauto|]. exists t. by rewrite <-Hk.
    + rewrite lookup_insert_ne by done. intuition congruence.
  - intros x t0 Hx Hin. destruct (decide (p = x)) as [->|].
    + rewrite lookup_insert_eq in Hx. simplify_eq. rewrite Hrun. symmetry.
      apply bool_decide_eq_true. by left.
    + rewrite lookup_insert_ne in Hx by done. rewrite (H5 x t0 Hx).
      * apply bool_decide_ext. rewrite elem_of_cons. intuition congruence.
      * revert Hin. rewrite !elem_of_app, !elem_of_cons. tauto.
Qed.

(** The result of a running task is recorded: it leaves the index. *)
Lemma store_record h n q r d c tk p t :
  store_inv h n q (p :: r) d c tk → h !! p = Some t →
  store_inv h n q r (p :: d) c (delete (task_key t) tk).
Proof.
  intros I Hp.
  assert (Hin : p ∈ q ++ p :: r) by (rewrite elem_of_app, elem_of_cons; tauto).
  pose proof (store_index_key I p t Hin Hp) as Hkey.
  assert (Hperm : q ++ (p :: r) ++ d ++ c ≡ₚ q ++ r ++ (p :: d) ++ c).
  { simpl. by rewrite <-(Permutation_middle r (d ++ c) p). }
  destruct I as [H1 H2 H3 H4 H5]. split.
  - by rewrite <-Hperm.
  - intros x. by rewrite <-Hperm.
  - done.
  - assert (Hnd : p ∉ q ++ r).
    { rewrite <-(Permutation_middle q (r ++ d ++ c) p) in H1.
      apply NoDup_cons in H1 as [H1 _]. rewrite app_assoc in H1.
      by intros ?; apply H1, elem_of_app; left. }
    intros i x. destruct (decide (task_key t = i)) as [<-|].
    + rewrite lookup_delete_eq. split; [done|]. intros [Hx (t' & Ht' & Hi)].
      assert (tk !! task_key t = Some x).
      { apply H4. split; [|eauto]. revert Hx. rewrite !elem_of_app, elem_of_cons. tauto. }
      simplify_eq. by destruct Hnd.
    + rewrite lookup_delete_ne by done. rewrite H4, !elem_of_app, elem_of_cons.
      split; [|intuition]. intros [Hx (t' & Ht' & Hi)]. split; [|by eauto].
      destruct (decide (x = p)); [congruence|tauto].
  - intros x t' Hx Hq. rewrite (H5 x t' Hx).
    + apply bool_decide_ext. rewrite elem_of_cons. split; [|tauto]. intros [->|]; [|done].
      rewrite <-(Permutation_middle q (r ++ d ++ c) p) in H1.
      apply NoDup_cons in H1 as [H1 _]. rewrite app_assoc in H1.
      destruct H1. apply elem_of_app. by left.
    + revert Hq. rewrite !elem_of_app, elem_of_cons. tauto.
Qed.

(** The promise of a task that is no longer indexed is set. *)
Lemma store_deliver h n q r d c tk p t t' :
  store_inv h n q r (p :: d) c tk → h !! p = Some t → is_Some (task_promise t') →
  store_inv (<[p := t']> h) n q r d c tk.
Proof.
  intros I Hp Ht'.
  assert (Hperm : q ++ r ++ (p :: d) ++ c ≡ₚ p :: q ++ r ++ d ++ c).
  { simpl. by rewrite <-(Permutation_middle r (d ++ c) p), <-Permutation_middle. }
  destruct I as [H1 H2 H3 H4 H5]. rewrite Hperm in H1. apply NoDup_cons in H1 as [Hnin H1].
  assert (Hqr : ∀ x, x ∈ q ++ r → p ≠ x).
  { intros x Hx ->. apply Hnin. revert Hx. rewrite !elem_of_app. tauto. }
  split.
  - done.
  - intros x. destruct (decide (p = x)) as [->|].
    + rewrite lookup_insert_eq. split; [done|]. intros (? & [= ->] & HN).
      destruct Ht'. congruence.
    + rewrite lookup_insert_ne by done. rewrite <-H2, Hperm, elem_of_cons. naive_solver.
  - intros x. destruct (decide (p = x)) as [->|].
    + intros _. eauto.
    + rewrite lookup_insert_ne by done. eauto.
  - intros i x. rewrite H4. split; intros [Hx (t0 & Ht0 & Hi)]; split; try done; exists t0.
    + by rewrite lookup_insert_ne by auto.
    + by rewrite lookup_insert_ne in Ht0 by auto.
  - intros x t0 Hx Hin. rewrite lookup_insert_ne in Hx by auto. eauto.
Qed.

(** The deque is swapped out and its tasks leave the index. *)
Lemma store_withdraw_one h n q r d c tk p t :
  store_inv h n (p :: q) r d c tk → h !! p = Some t →
  store_inv h n q r d (p :: c) (delete (task_key t) tk).
Proof.
  intros I Hp. pose proof I as [_ _ _ _ Hrun].
  assert (Hin : p ∈ (p :: q) ++ r) by by left.
  pose proof (store_index_key I p t Hin Hp) as Hkey.
  assert (Hperm : (p :: q) ++ r ++ d ++ c ≡ₚ q ++ r ++ d ++ p :: c).
  { rewrite <-(Permutation_middle d c p), <-(Permutation_middle r (d ++ c) p).
    by rewrite <-Permutation_middle. }
  destruct I as [H1 H2 H3 H4 H5].
  pose proof H1 as Hnd. apply NoDup_cons in Hnd as [Hnd _].
  assert (Hqr : p ∉ q ++ r).
  { intros Hx. apply Hnd. revert Hx. rewrite !elem_of_app. tauto. }
  split.
  - by rewrite <-Hperm.
  - intros x. by rewrite <-Hperm.
  - done.
  - intros i x. destruct (decide (task_key t = i)) as [<-|].
    + rewrite lookup_delete_eq. split; [done|]. intros [Hx (t' & Ht' & Hi)].
      assert (tk !! task_key t = Some x) by (apply H4; split; [by right|eauto]).
      simplify_eq. by destruct Hqr.
    + rewrite lookup_delete_ne by done. rewrite H4. simpl. rewrite elem_of_cons.
      split; [|intuition]. intros [Hx (t' & Ht' & Hi)]. split; [|by eauto].
      destruct (decide (x = p)); [congruence|tauto].
  - intros x t' Hx Hq. apply Hrun; [done|]. by right.
Qed.

(** The set_value half of a cancellation, for a task withdrawn before. *)
Lemma store_settle_one h n q r d c tk p t t' :
  store_inv h n q r d (p :: c) tk → h !! p = Some t → is_Some (task_promise t') →
  store_inv (<[p := t']> h) n q r d c tk.
Proof.
  intros I. assert (store_inv h n q r (p :: d) c tk).
  { destruct I as [H1 H2 H3 H4 H5].
    assert (Hperm : q ++ r ++ d ++ p :: c ≡ₚ q ++ r ++ (p :: d) ++ c).
    { simpl. by rewrite <-(Permutation_middle d c p). }
    split; try done.
    - by rewrite <-Hperm.
    - intros x. by rewrite <-Hperm. }
  by apply store_deliver.
Qed.

(** The whole deque withdrawn at once, as a shutdown does. *)
Lemma store_withdraw h n q r d c tk :
  store_inv h n q r d c tk →
  store_inv h n [] r d (q ++ c)
    (foldl (λ m p, match h !! p with Some t => delete (task_key t) m | None => m end) tk q).
Proof.
  revert c tk. induction q as [|p q IH]; intros c tk I; simpl; [done|].
  destruct (store_live_lookup I p) as (t & Hp & _); [by left|]. rewrite Hp.
  rewrite (Permutation_middle q c p). apply IH. by eapply store_withdraw_one.
Qed.
End Store.
