(* ===== verification/CommandQueue.v ===== *)
(** * The bounded command queue

    [CommandQueue::Impl] of src/core/CommandQueue.cpp: bounded submission,
    selection by priority, cancellation, the worker loop and shutdown.

    Every critical section of the code is one transition ([exec]); a list of
    labels is an interleaving of clients and workers.  Tasks are shared
    objects of the store [heap], reached from the deque [queue], from the
    index [tasks], from the worker that runs them and from the promise behind
    the future handed to the client.  A promise is set at most once;
    [future_errors] counts the attempts to set one twice, which the standard
    library answers with [std::future_error].

    Not modelled: failures of allocation (the [catch] of [Enqueue] and the
    one of the constructor) and the wake-ups of the condition variable: a
    waiting worker may look at its predicate at any time. *)

From S2P Require Import Prelude Command Workers TaskStore.

Open Scope Z_scope.

Inductive TaskState := TaskQueued | TaskRunning.

#[export] Instance TaskState_eq_dec : EqDecision TaskState.
Proof. solve_decision. Defined.

Record Task := mkTask {
  t_command : Command;
  t_promise : option CommandResult;  (** the value its future delivers *)
  t_state : TaskState;
}.

#[export] Instance eta_Task : EtaRecord Task := fun t =>
  mkTask (t_command t) (t_promise t) (t_state t).

Record CommandQueueOptions := mkOptions {
  maximumQueueSize : Z;
  workerCount : nat;
}.

Record CommandQueueStatistics := mkStatistics {
  queued : Z;
  active : Z;
  stat_maximumQueueSize : Z;
  stat_workerCount : Z;
  highWatermark : Z;
  accepted : Z;
  completed : Z;
  cancelled : Z;
  failed : Z;
  timedOut : Z;
  rejected : Z;
}.

#[export] Instance eta_CommandQueueStatistics : EtaRecord CommandQueueStatistics := fun s =>
  mkStatistics (queued s) (active s) (stat_maximumQueueSize s) (stat_workerCount s)
    (highWatermark s) (accepted s) (completed s) (cancelled s) (failed s) (timedOut s)
    (rejected s).

Definition zero_statistics : CommandQueueStatistics := mkStatistics 0 0 0 0 0 0 0 0 0 0 0.

(** The thread that runs [Shutdown] holds the tasks it swapped out of the
    queue until their promises are set, then joins the workers. *)
Inductive ShutdownPhase :=
  | NoShutdown
  | ShutdownCancelling (cancelled_tasks : list ptr)
  | ShutdownJoining.

Record QueueState := mkQueueState {
  options : CommandQueueOptions;
  heap : gmap ptr Task;
  next_ptr : ptr;
  queue : list ptr;
  tasks : gmap Z ptr;
  statistics : CommandQueueStatistics;
  active_count : Z;
  accepting : bool;
  shutdown_in_progress : bool;
  shutdown_complete : bool;
  shutdown_phase : ShutdownPhase;
  stop_requested : bool;
  worker_ids : list (option ThreadId);
  workers : list (WorkerPc CommandResult);
  future_errors : nat;
}.

#[export] Instance eta_QueueState : EtaRecord QueueState := fun s =>
  mkQueueState (options s) (heap s) (next_ptr s) (queue s) (tasks s) (statistics s)
    (active_count s) (accepting s) (shutdown_in_progress s) (shutdown_complete s)
    (shutdown_phase s) (stop_requested s) (worker_ids s) (workers s) (future_errors s).

(** The constructor: the exceptions it throws, or the state in which every
    worker thread has been started. *)
Definition initial (has_executor : bool) (o : CommandQueueOptions) : string + QueueState :=
  if negb has_executor then inl "CommandQueue requires an executor"
  else if maximumQueueSize o =? 0 then
    inl "CommandQueue maximum size must be greater than zero"
  else if bool_decide (workerCount o = 0%nat) then
    inl "CommandQueue worker count must be greater than zero"
  else inr
    {| options := o; heap := ∅; next_ptr := 0%nat; queue := []; tasks := ∅;
       statistics := zero_statistics; active_count := 0; accepting := true;
       shutdown_in_progress := false; shutdown_complete := false;
       shutdown_phase := NoShutdown; stop_requested := false;
       worker_ids := replicate (workerCount o) None;
       workers := replicate (workerCount o) WorkerStarting; future_errors := 0%nat |}.

(* ------------------------------------------------------------------ *)
(** ** Helpers *)

(** [promise.set_value] on the promise of the task at [p]. *)
Definition set_value (p : ptr) (r : CommandResult) (s : QueueState) : QueueState :=
  match heap s !! p with
  | Some t =>
      match t_promise t with
      | None => s <| heap ::= insert p (t <| t_promise := Some r |>) |>
      | Some _ => s <| future_errors ::= S |>
      end
  | None => s
  end.

(** [std::make_shared<Task>] *)
Definition new_task (c : Command) (promise : option CommandResult) (s : QueueState) : QueueState :=
  s <| heap ::= insert (next_ptr s) (mkTask c promise TaskQueued) |> <| next_ptr ::= S |>.

Definition RecordResultLocked (st : CommandStatus) (x : CommandQueueStatistics) :
    CommandQueueStatistics :=
  match st with
  | StatusCompleted => x <| completed ::= u64_incr |>
  | StatusCancelled => x <| cancelled ::= u64_incr |>
  | StatusFailed => x <| failed ::= u64_incr |>
  | StatusTimeout => x <| timedOut ::= u64_incr |>
  | StatusRejected => x <| rejected ::= u64_incr |>
  | StatusPending | StatusQueued | StatusRunning => x <| failed ::= u64_incr |>
  | StatusRaw _ => x
  end.

Definition queue_size (s : QueueState) : Z := Z.of_nat (length (queue s)).

(* ------------------------------------------------------------------ *)
(** ** Client operations *)

(** What a client receives: a future that is ready, or the one of a task. *)
Inductive Future :=
  | ReadyFuture (r : CommandResult)
  | FutureOf (p : ptr).

Definition future_value (f : Future) (s : QueueState) : option CommandResult :=
  match f with
  | ReadyFuture r => Some r
  | FutureOf p => t ← heap s !! p; t_promise t
  end.

(** A task that is not accepted gets its result at once. *)
Definition refuse (c : Command) (m : string) (s : QueueState) : QueueState * Future :=
  ((new_task c (Some (Result StatusRejected m)) s)
     <| statistics ::= set_field rejected u64_incr |>,
   FutureOf (next_ptr s)).

Definition Enqueue (c : Command) (now : Z) (s : QueueState) : QueueState * Future :=
  match ValidateForQueue c now with
  | Some validation =>
      (s <| statistics ::= RecordResultLocked (status validation) |>, ReadyFuture validation)
  | None =>
      if negb (accepting s) then refuse c "Command queue is shut down" s
      else if bool_decide (is_Some (tasks s !! id c)) then
        refuse c "Command identifier is already outstanding" s
      else if maximumQueueSize (options s) <=? queue_size s then
        refuse c "Command queue is full" s
      else
        let task := next_ptr s in
        ((new_task c None s)
           <| tasks ::= insert (id c) task |>
           <| queue ::= (λ q, q ++ [task]) |>
           <| statistics ::= λ x, x
                <| accepted ::= u64_incr |>
                <| highWatermark ::= Z.max (Z.of_nat (length (queue s ++ [task]))) |> |>,
         FutureOf task)
  end.

Definition Cancel (command_id : Z) (s : QueueState) : QueueState * CommandResult :=
  if command_id =? 0 then
    (s, Result StatusRejected "Command identifier must be nonzero")
  else match tasks s !! command_id with
  | None => (s, Result StatusRejected "Command is not outstanding")
  | Some task =>
      match t_state <$> heap s !! task with
      | Some TaskRunning => (s, Result StatusRejected "A running command cannot be cancelled")
      | _ =>
          let result := Result StatusCancelled "Command cancelled before execution" in
          (set_value task result
             (s <| tasks ::= delete command_id |>
                <| queue ::= erase_value task |>
                <| statistics ::= set_field cancelled u64_incr |>),
           result)
      end
  end.

(** The first critical section of [Shutdown]: it answers, waits for the
    thread that is shutting down, or makes its caller that thread. *)
Inductive ShutdownDecision :=
  | ShutdownReturns (r : CommandResult)
  | ShutdownWaits
  | ShutdownOwns.

Definition Shutdown_begin (caller : ThreadId) (s : QueueState) : QueueState * ShutdownDecision :=
  if shutdown_complete s then
    (s, ShutdownReturns (Result StatusCompleted "Command queue is shut down"))
  else if IsWorkerThread caller (worker_ids s) then
    (s, ShutdownReturns
          (Result StatusRejected "Command queue cannot be shut down from its executor"))
  else if shutdown_in_progress s then (s, ShutdownWaits)
  else
    let cancelled_tasks := queue s in
    (s <| shutdown_in_progress := true |>
       <| accepting := false |>
       <| queue := [] |>
       <| shutdown_phase := ShutdownCancelling cancelled_tasks |>
       <| tasks ::= λ m, foldl (λ m p, match heap s !! p with
                                       | Some t => delete (id (t_command t)) m
                                       | None => m
                                       end) m cancelled_tasks |>
       <| statistics ::= set_field cancelled (λ n, foldl (λ n _, u64_incr n) n cancelled_tasks) |>,
     ShutdownOwns).

(** The promises of the tasks swapped out, then [request_stop] on every worker. *)
Definition Shutdown_cancel (s : QueueState) : option QueueState :=
  match shutdown_phase s with
  | ShutdownCancelling cancelled_tasks =>
      let cancel_one s p :=
        set_value p (Result StatusCancelled "Command cancelled during queue shutdown") s in
      Some ((foldl cancel_one s cancelled_tasks)
              <| stop_requested := true |> <| shutdown_phase := ShutdownJoining |>)
  | _ => None
  end.

(** After [join] has returned for every worker. *)
Definition Shutdown_end (s : QueueState) : option (QueueState * CommandResult) :=
  match shutdown_phase s with
  | ShutdownJoining =>
      if all_exited (workers s) then
        Some (s <| shutdown_complete := true |> <| shutdown_in_progress := false |>
                <| shutdown_phase := NoShutdown |>,
              Result StatusCompleted "Command queue shut down")
      else None
  | _ => None
  end.

Definition GetStatistics (s : QueueState) : CommandQueueStatistics :=
  (statistics s)
    <| queued := queue_size s |>
    <| active := active_count s |>
    <| stat_maximumQueueSize := maximumQueueSize (options s) |>
    <| stat_workerCount := Z.of_nat (workerCount (options s)) |>.

Definition Size (s : QueueState) : Z := queue_size s.

Definition Contains (command_id : Z) (s : QueueState) : bool :=
  bool_decide (is_Some (tasks s !! command_id)).

(* ------------------------------------------------------------------ *)
(** ** The worker loop *)

(** The rank by which [std::max_element] compares two tasks. *)
Definition task_priority (s : QueueState) (p : ptr) : Z :=
  match heap s !! p with
  | Some t => priority_value (priority (t_command t))
  | None => 0
  end.

Definition highest_priority (s : QueueState) : option nat :=
  max_element (λ left right, task_priority s left <? task_priority s right) (queue s).

Definition Run_register (w : nat) (s : QueueState) : option QueueState :=
  match workers s !! w with
  | Some WorkerStarting =>
      Some (s <| worker_ids ::= insert w (Some (WorkerThread w)) |>
              <| workers ::= insert w WorkerWaiting |>)
  | _ => None
  end.

(** The critical section that follows the wait: [None] when the predicate of
    the condition variable is false and the worker stays asleep. *)
Definition Run_take (w : nat) (s : QueueState) : option QueueState :=
  match workers s !! w with
  | Some WorkerWaiting =>
      if stop_requested s || negb (bool_decide (queue s = [])) || negb (accepting s) then
        match highest_priority s with
        | None =>
            if stop_requested s || negb (accepting s) then
              Some (s <| worker_ids ::= insert w None |> <| workers ::= insert w WorkerExited |>)
            else Some s
        | Some i =>
            task ← queue s !! i;
            Some (s <| queue ::= delete i |>
                    <| heap ::= alter (set_field t_state (λ _, TaskRunning)) task |>
                    <| active_count ::= u64_incr |>
                    <| workers ::= insert w (WorkerExecuting task) |>)
        end
      else None
  | _ => None
  end.

(** What a call of the injected executor does. *)
Inductive Outcome :=
  | Returned (r : CommandResult)
  | ThrewException (what : string)
  | ThrewUnknown.

(** The result of a task: [now] and [later] are the clock before and after
    the executor; [outcome] is what the executor does, if it is called. *)
Definition ExecuteTask (c : Command) (now : Z) (outcome : Outcome) (later : Z) : CommandResult :=
  if HasExpired c now then Result StatusTimeout "Command expired while waiting in queue"
  else
    let result :=
      match outcome with
      | Returned r => r
      | ThrewException what => Result StatusFailed ("Command executor failed: " +:+ what)
      | ThrewUnknown => Result StatusFailed "Command executor failed with an unknown error"
      end in
    if bool_decide (status result = StatusCompleted) && HasExpired c later then
      Result StatusTimeout "Command completed after its timeout"
    else if negb (isTerminal (status result)) then
      Result StatusFailed "Command executor returned a nonterminal status"
    else result.

Definition Run_execute (w : nat) (now : Z) (outcome : Outcome) (later : Z) (s : QueueState) :
    option QueueState :=
  match workers s !! w with
  | Some (WorkerExecuting task) =>
      t ← heap s !! task;
      Some (s <| workers ::= insert w
                   (WorkerFinished task (ExecuteTask (t_command t) now outcome later)) |>)
  | _ => None
  end.

Definition Run_record (w : nat) (s : QueueState) : option QueueState :=
  match workers s !! w with
  | Some (WorkerFinished task result) =>
      t ← heap s !! task;
      Some (s <| tasks ::= delete (id (t_command t)) |>
              <| active_count ::= u64_decr |>
              <| statistics ::= RecordResultLocked (status result) |>
              <| workers ::= insert w (WorkerDelivering task result) |>)
  | _ => None
  end.

Definition Run_deliver (w : nat) (s : QueueState) : option QueueState :=
  match workers s !! w with
  | Some (WorkerDelivering task result) =>
      Some ((set_value task result s) <| workers ::= insert w WorkerWaiting |>)
  | _ => None
  end.

(* ------------------------------------------------------------------ *)
(** ** Interleavings *)

Inductive Label :=
  | LEnqueue (c : Command) (now : Z)
  | LCancel (command_id : Z)
  | LShutdownBegin (caller : ThreadId)
  | LShutdownCancel
  | LShutdownEnd
  | LRegister (w : nat)
  | LTake (w : nat)
  | LExecute (w : nat) (now : Z) (outcome : Outcome) (later : Z)
  | LRecord (w : nat)
  | LDeliver (w : nat).

Definition exec (s : QueueState) (l : Label) : option QueueState :=
  match l with
  | LEnqueue c now => Some (Enqueue c now s).1
  | LCancel command_id => Some (Cancel command_id s).1
  | LShutdownBegin caller => Some (Shutdown_begin caller s).1
  | LShutdownCancel => Shutdown_cancel s
  | LShutdownEnd => fst <$> Shutdown_end s
  | LRegister w => Run_register w s
  | LTake w => Run_take w s
  | LExecute w now outcome later => Run_execute w now outcome later s
  | LRecord w => Run_record w s
  | LDeliver w => Run_deliver w s
  end.

(** The states a queue constructed with the options [o] can reach. *)
Definition reachable (o : CommandQueueOptions) (s : QueueState) : Prop :=
  ∃ s0 ls, initial true o = inr s0 ∧ run exec s0 ls = Some s.

(* ------------------------------------------------------------------ *)
(** ** The invariant *)

#[export] Instance Task_like : TaskLike Task CommandResult := {
  task_promise := t_promise;
  task_key t := id (t_command t);
  task_running t := match t_state t with TaskRunning => true | TaskQueued => false end;
}.

(** Tasks withdrawn from the deque whose promises are still to be set. *)
Definition withdrawn (s : QueueState) : list ptr :=
  match shutdown_phase s with ShutdownCancelling l => l | _ => [] end.

Record queue_inv (o : CommandQueueOptions) (s : QueueState) : Prop := {
  qi_options : options s = o;
  qi_store : store_inv (heap s) (next_ptr s) (queue s) (running_tasks (workers s))
               (delivering_tasks (workers s)) (withdrawn s) (tasks s);
  qi_active : active_count s = Z.of_nat (length (running_tasks (workers s)));
  qi_workers : length (workers s) = workerCount o;
  qi_watermark : queue_size s <= highWatermark (statistics s) <= maximumQueueSize o;
  qi_errors : future_errors s = 0%nat;
  qi_accepting : accepting s = negb (shutdown_in_progress s || shutdown_complete s);
  qi_closed : accepting s = false → queue s = [];
  qi_stop : stop_requested s = true → accepting s = false;
  qi_phase : shutdown_in_progress s = match shutdown_phase s with NoShutdown => false | _ => true end;
  qi_complete : shutdown_complete s = true →
    all_exited (workers s) = true ∧ shutdown_in_progress s = false;
}.

Lemma set_value_pending p r s t :
  heap s !! p = Some t → t_promise t = None →
  set_value p r s = s <| heap ::= insert p (t <| t_promise := Some r |>) |>.
Proof. intros Ht Hp. unfold set_value. by rewrite Ht, Hp. Qed.

Lemma initial_inv o s :
  0 <= maximumQueueSize o → initial true o = inr s → queue_inv o s.
Proof.
  unfold initial. intros Ho H. guards_in H. unfold queue_size. split; simpl; try done.
  - rewrite running_tasks_replicate, delivering_tasks_replicate by done. apply store_inv_empty.
  - by rewrite running_tasks_replicate.
  - by rewrite length_replicate.
Qed.

(** Updating statistics other than the watermark. *)
Lemma RecordResultLocked_watermark st x :
  highWatermark (RecordResultLocked st x) = highWatermark x.
Proof. by destruct st. Qed.

Lemma refuse_inv o c m s : queue_inv o s → queue_inv o (refuse c m s).1.
Proof.
  intros []. split; simpl; try done. apply store_alloc_done; [done|]. simpl. eauto.
Qed.

Lemma Enqueue_inv o c now s : queue_inv o s → queue_inv o (Enqueue c now s).1.
Proof.
  intros I. unfold Enqueue. destruct (ValidateForQueue c now) as [r|].
  { destruct I; split; simpl; rewrite ?RecordResultLocked_watermark; done. }
  destruct (accepting s) eqn:Hacc; simpl; [|by apply refuse_inv].
  case_bool_decide as Hid; [by apply refuse_inv|].
  case_match eqn:Hsize; [by apply refuse_inv|].
  apply Z.leb_gt in Hsize. apply eq_None_not_Some in Hid.
  destruct I as [<- ? ? ? Hw ? ? ? ? ? ?].
  unfold queue_size in *. split; simpl; try done.
  - exact (store_alloc_waiting _ _ _ _ _ _ _ (mkTask c None TaskQueued) qi_store0 eq_refl eq_refl Hid).
  - unfold queue_size. simpl. rewrite length_app. simpl. lia.
  - congruence.
Qed.

(** A task of the index that is not running waits in the deque. *)
Lemma index_waiting h n q r d c tk i p :
  store_inv (T := Task) h n q r d c tk → tk !! i = Some p →
  ∃ t, h !! p = Some t ∧ id (t_command t) = i ∧ t_promise t = None ∧
       if decide (t_state t = TaskRunning) then p ∈ r else p ∈ q.
Proof.
  intros I Hi. pose proof (si_index _ _ _ _ _ _ _ I i p) as [Hidx _].
  destruct (Hidx Hi) as (Hqr & t & Ht & Hk).
  assert (Hlive : p ∈ q ++ r ++ d ++ c) by (revert Hqr; rewrite !elem_of_app; tauto).
  destruct (store_live_lookup I p Hlive) as (t' & Ht' & Hpr). simplify_eq.
  exists t. do 3 (split; [done|]).
  pose proof (si_running _ _ _ _ _ _ _ I p t Ht Hqr) as Hrun. simpl in Hrun.
  apply elem_of_app in Hqr. destruct (decide _) as [E|E]; destruct (t_state t); try done.
  - by apply eq_sym, bool_decide_eq_true in Hrun.
  - apply eq_sym, bool_decide_eq_false in Hrun. tauto.
Qed.

Lemma Cancel_inv o i s : queue_inv o s → queue_inv o (Cancel i s).1.
Proof.
  intros I. unfold Cancel. case_match; [done|]. destruct (tasks s !! i) as [p|] eqn:Hi; [|done].
  destruct (index_waiting _ _ _ _ _ _ _ _ _ (qi_store _ _ I) Hi) as (t & Ht & <- & Hpr & Hst).
  rewrite Ht. simpl. destruct (t_state t) eqn:Est; [|done]. simpl in Hst.
  erewrite set_value_pending by done. destruct I as [<- Istore ? ? ? ? ? ? ? ? ?]. simpl.
  pose proof (erase_value_Permutation _ _ Hst) as Hperm. unfold queue_size in *.
  pose proof (length_erase_value p (queue s)). split; simpl; try done.
  - rewrite Hperm in Istore. eapply (store_withdraw_one _ _ _ _ _ _ _ p t) in Istore; [|done].
    by eapply store_settle_one; eauto.
  - unfold queue_size. simpl. lia.
  - intros Hacc. by rewrite qi_closed0 in *.
Qed.

Lemma Shutdown_begin_inv o caller s : queue_inv o s → queue_inv o (Shutdown_begin caller s).1.
Proof.
  intros I. unfold Shutdown_begin. repeat (case_match; [done|]).
  destruct I as [<- Istore ? ? ? ? ? ? ? Hphase Hcomplete]. split; simpl; try done.
  - unfold withdrawn at 1. simpl. apply store_withdraw in Istore. unfold withdrawn in Istore.
    destruct (shutdown_phase s); [|congruence..]. by rewrite app_nil_r in Istore.
  - unfold queue_size in *. simpl. lia.
  - congruence.
Qed.

(** The loop that settles the withdrawn promises changes only the store. *)
Lemma settle_all r l : ∀ s,
  store_inv (heap s) (next_ptr s) (queue s) (running_tasks (workers s))
    (delivering_tasks (workers s)) l (tasks s) →
  ∃ h, foldl (λ s p, set_value p r s) s l = s <| heap := h |> ∧
       store_inv h (next_ptr s) (queue s) (running_tasks (workers s))
         (delivering_tasks (workers s)) [] (tasks s).
Proof.
  induction l as [|p l IH]; intros s I; simpl.
  { exists (heap s). by destruct s. }
  destruct (store_live_lookup I p) as (t & Hp & Hpr).
  { rewrite !elem_of_app, elem_of_cons. tauto. }
  erewrite set_value_pending by done.
  edestruct (IH (s <| heap ::= insert p (t <| t_promise := Some r |>) |>)) as (h & E & Ih).
  { by eapply store_settle_one; eauto. }
  exists h. split; [exact E|exact Ih].
Qed.

Lemma Shutdown_cancel_inv o s s' : queue_inv o s → Shutdown_cancel s = Some s' → queue_inv o s'.
Proof.
  intros I. unfold Shutdown_cancel. destruct (shutdown_phase s) as [|l|] eqn:Hphase; [done| |done].
  intros [= <-]. destruct I as [<- Istore ? ? ? ? ? ? ? Hp ?].
  unfold withdrawn in Istore. rewrite Hphase in Istore, Hp.
  destruct (settle_all (Result StatusCancelled "Command cancelled during queue shutdown") l s Istore)
    as (h & -> & Ih). split; simpl; try done.
  intros _. by rewrite qi_accepting0, Hp.
Qed.

Lemma Shutdown_end_inv o s s' r : queue_inv o s → Shutdown_end s = Some (s', r) → queue_inv o s'.
Proof.
  intros I. unfold Shutdown_end. destruct (shutdown_phase s) eqn:Hphase; [done..|].
  destruct (all_exited (workers s)) eqn:Hall; [|done]. intros [= <- <-].
  destruct I as [<- Istore ? ? ? ? ? ? ? Hp ?]. rewrite Hphase in Hp.
  unfold withdrawn in Istore. rewrite Hphase in Istore.
  split; simpl; try done. by rewrite qi_accepting0, Hp.
Qed.

(** A worker that moves from [pc] to [pc']: the lists of tasks the pool holds. *)
Ltac pool_move Hw pc' :=
  let Hr := fresh "Hr" in let Hd := fresh "Hd" in
  pose proof (running_tasks_move _ _ _ pc' Hw) as Hr;
  pose proof (delivering_tasks_move _ _ _ pc' Hw) as Hd;
  simpl in Hr, Hd.

Lemma worker_not_exited s w pc :
  workers s !! w = Some pc → pc ≠ WorkerExited → all_exited (workers s) = false.
Proof.
  intros Hw Hpc. apply not_true_iff_false. rewrite all_exited_spec. intros H. by apply Hpc, (H w).
Qed.

Lemma Run_register_inv o w s s' : queue_inv o s → Run_register w s = Some s' → queue_inv o s'.
Proof.
  intros I. unfold Run_register. destruct (workers s !! w) as [[]|] eqn:Hw; try done.
  intros [= <-]. pool_move Hw (@WorkerWaiting CommandResult).
  pose proof (worker_not_exited _ _ _ Hw) as Hex.
  destruct I as [<- Istore ? ? ? ? ? ? ? ? Hc]. split; simpl; rewrite ?Hr, ?Hd; try done.
  - by rewrite length_insert.
  - intros H. destruct (Hc H). rewrite Hex in *; done.
Qed.

Lemma Run_take_inv o w s s' :
  Z.of_nat (workerCount o) < u64_modulus →
  queue_inv o s → Run_take w s = Some s' → queue_inv o s'.
Proof.
  intros Hcount I. unfold Run_take. destruct (workers s !! w) as [[]|] eqn:Hw; try done.
  case_match eqn:Hwake; [|done].
  pose proof (worker_not_exited _ _ _ Hw) as Hex.
  destruct (highest_priority s) as [i|] eqn:Hbest.
  - destruct (queue s !! i) as [p|] eqn:Hi; [|done]. intros [= <-]. simpl.
    pool_move Hw (@WorkerExecuting CommandResult p).
    pose proof (running_tasks_bound (<[w := WorkerExecuting p]> (workers s))) as Hbound.
    destruct I as [<- Istore ? ? ? ? ? ? ? ? Hc]. unfold queue_size in *.
    pose proof (length_delete_Some _ _ _ Hi). rewrite Hr in Hbound.
    rewrite length_insert in Hbound. simpl in Hbound.
    destruct (store_live_lookup Istore p) as (t & Ht & Hpr).
    { apply elem_of_app. left. by eapply list_elem_of_lookup_2. }
    split; simpl; rewrite ?Hr, ?Hd; try done.
    + rewrite (alter_alt_Some _ _ _ t) by done.
      by eapply (store_take _ _ _ _ _ _ _ i p t); eauto.
    + simpl. rewrite u64_incr_small; lia.
    + by rewrite length_insert.
    + unfold queue_size. simpl. lia.
    + intros Hacc. rewrite qi_closed0 in Hi by done. by rewrite lookup_nil in Hi.
    + intros H'. destruct (Hc H'). rewrite Hex in *; done.
  - case_match eqn:Hstop; [|by intros [= <-]]. intros [= <-].
    pool_move Hw (@WorkerExited CommandResult).
    destruct I as [<- Istore ? ? ? ? ? ? ? ? Hc]. split; simpl; rewrite ?Hr, ?Hd; try done.
    + by rewrite length_insert.
    + intros H'. destruct (Hc H'). rewrite Hex in *; done.
Qed.

Lemma Run_execute_inv o w now out later s s' :
  queue_inv o s → Run_execute w now out later s = Some s' → queue_inv o s'.
Proof.
  intros I. unfold Run_execute. destruct (workers s !! w) as [[]|] eqn:Hw; try done.
  destruct (heap s !! p) as [t|]; [|done]. intros [= <-].
  pool_move Hw (WorkerFinished p (ExecuteTask (t_command t) now out later)).
  apply Permutation_cons_inv in Hr.
  pose proof (worker_not_exited _ _ _ Hw) as Hex.
  destruct I as [<- Istore ? ? ? ? ? ? ? ? Hc]. split; simpl; rewrite ?Hr, ?Hd; try done.
  - by rewrite length_insert.
  - intros H. destruct (Hc H). rewrite Hex in *; done.
Qed.

Lemma Run_record_inv o w s s' :
  Z.of_nat (workerCount o) < u64_modulus →
  queue_inv o s → Run_record w s = Some s' → queue_inv o s'.
Proof.
  intros Hcount I. unfold Run_record. destruct (workers s !! w) as [[]|] eqn:Hw; try done.
  destruct (heap s !! p) as [t|] eqn:Ht; [|done]. intros [= <-].
  pool_move Hw (WorkerDelivering p r).
  pose proof (worker_not_exited _ _ _ Hw) as Hex.
  pose proof (running_tasks_bound (workers s)) as Hbound.
  destruct I as [<- Istore ? ? ? ? ? ? ? ? Hc]. rewrite <-Hr in *.
  split; simpl; rewrite ?Hd, ?RecordResultLocked_watermark; try done.
  - exact (store_record _ _ _ _ _ _ _ p t Istore Ht).
  - rewrite qi_active0. simpl. rewrite u64_decr_small; simpl in Hbound; lia.
  - by rewrite length_insert.
  - intros H. destruct (Hc H). rewrite Hex in *; done.
Qed.

Lemma Run_deliver_inv o w s s' : queue_inv o s → Run_deliver w s = Some s' → queue_inv o s'.
Proof.
  intros I. unfold Run_deliver. destruct (workers s !! w) as [[]|] eqn:Hw; try done.
  intros [= <-]. pool_move Hw (@WorkerWaiting CommandResult).
  pose proof (worker_not_exited _ _ _ Hw) as Hex.
  destruct I as [<- Istore ? ? ? ? ? ? ? ? Hc].
  destruct (store_live_lookup Istore p) as (t & Ht & Hpr).
  { rewrite <-Hd, !elem_of_app, elem_of_cons. tauto. }
  erewrite set_value_pending by done. split; simpl; rewrite ?Hr; try done.
  - rewrite <-Hd in Istore. by eapply store_deliver; eauto.
  - by rewrite length_insert.
  - intros H. destruct (Hc H). rewrite Hex in *; done.
Qed.

Lemma exec_inv o s l s' :
  Z.of_nat (workerCount o) < u64_modulus →
  queue_inv o s → exec s l = Some s' → queue_inv o s'.
Proof.
  intros Hcount I. destruct l; simpl; intros H;
    try (injection H as <-; by eauto using Enqueue_inv, Cancel_inv, Shutdown_begin_inv).
  - by eapply Shutdown_cancel_inv.
  - destruct (Shutdown_end s) as [[]|] eqn:E; simplify_eq/=. by eapply Shutdown_end_inv.
  - by eapply Run_register_inv.
  - by eapply Run_take_inv.
  - by eapply Run_execute_inv.
  - by eapply Run_record_inv.
  - by eapply Run_deliver_inv.
Qed.

(** The options a client can pass: both counts are 64-bit words. *)
Definition options_ok (o : CommandQueueOptions) : Prop :=
  is_u64 (maximumQueueSize o) ∧ is_u64 (Z.of_nat (workerCount o)).

Lemma reachable_inv o s : options_ok o → reachable o s → queue_inv o s.
Proof.
  intros [[Hmax _] [_ Hcount]] (s0 & ls & Hinit & Hrun).
  eapply (run_invariant exec (queue_inv o)); [|by apply initial_inv|done].
  intros ? ? ? ? ?. by eapply exec_inv.
Qed.

(* ------------------------------------------------------------------ *)
(** ** Accounting *)

Definition is_enqueue (l : Label) : bool := match l with LEnqueue _ _ => true | _ => false end.

(** How many commands were submitted along an interleaving. *)
Definition submissions (ls : list Label) : Z := Z.of_nat (length (filter is_enqueue ls)).

Lemma submissions_snoc ls l :
  submissions (ls ++ [l]) = submissions ls + (if is_enqueue l then 1 else 0).
Proof.
  unfold submissions. rewrite filter_app, length_app, filter_cons, filter_nil.
  destruct l; simpl; lia.
Qed.

(** The results that were counted, whatever their status. *)
Definition terminal_count (x : CommandQueueStatistics) : Z :=
  completed x + cancelled x + failed x + timedOut x + rejected x.

Lemma RecordResultLocked_count st x :
  isTerminal st = true → terminal_count (RecordResultLocked st x) ≡₆₄ terminal_count x + 1.
Proof. unfold terminal_count. destruct st; simpl; try done; intros _; congr64. Qed.

Lemma ExecuteTask_terminal c now out later :
  isTerminal (status (ExecuteTask c now out later)) = true.
Proof. unfold ExecuteTask. repeat case_match; simplify_eq/=; done || by destruct (isTerminal _). Qed.

Lemma ValidateForQueue_terminal c now r :
  ValidateForQueue c now = Some r → isTerminal (status r) = true.
Proof. unfold ValidateForQueue, ValidateTimes. intros H. guards_in H. Qed.

(** Results waiting to be recorded are terminal, so each is counted. *)
Definition results_terminal (s : QueueState) : Prop :=
  ∀ w p r, workers s !! w = Some (WorkerFinished p r) → isTerminal (status r) = true.

Lemma results_terminal_insert s w pc :
  results_terminal s → (∀ p r, pc = WorkerFinished p r → isTerminal (status r) = true) →
  ∀ s', workers s' = <[w := pc]> (workers s) → results_terminal s'.
Proof.
  intros Hs Hpc s' Hws w' p r. rewrite Hws, list_lookup_insert.
  case_decide; [|by apply Hs]. intros [= ->]. by eapply Hpc.
Qed.

Definition account (s : QueueState) : Z :=
  queue_size s + Z.of_nat (length (running_tasks (workers s))) + terminal_count (statistics s).

Ltac account_simpl := unfold account, queue_size, terminal_count; simpl.

Lemma set_value_same p r s :
  queue (set_value p r s) = queue s ∧ workers (set_value p r s) = workers s ∧
  statistics (set_value p r s) = statistics s.
Proof. unfold set_value. by repeat case_match. Qed.

Lemma settle_all_same r l : ∀ s,
  let s' := foldl (λ s p, set_value p r s) s l in
  queue s' = queue s ∧ workers s' = workers s ∧ statistics s' = statistics s.
Proof.
  induction l as [|p l IH]; intros s; [done|]. simpl.
  destruct (set_value_same p r s) as (<- & <- & <-). apply IH.
Qed.

Lemma foldl_incr_eq64 {A} (l : list A) : ∀ n,
  foldl (λ n _, u64_incr n) n l ≡₆₄ n + Z.of_nat (length l).
Proof.
  induction l as [|x l IH]; intros n; simpl; [congr64|].
  rewrite IH, u64_incr_eq64. congr64.
Qed.

Lemma Enqueue_account c now s : account (Enqueue c now s).1 ≡₆₄ account s + 1.
Proof.
  unfold Enqueue, refuse.
  destruct (ValidateForQueue c now) as [r|] eqn:Hval.
  { unfold account. simpl. pose proof (RecordResultLocked_count (status r) (statistics s)
      (ValidateForQueue_terminal _ _ _ Hval)). unfold queue_size. simpl. congr64. }
  repeat case_match; account_simpl; try rewrite length_app; simpl; congr64.
Qed.

Lemma Cancel_account o i s : queue_inv o s → account (Cancel i s).1 ≡₆₄ account s + 0.
Proof.
  intros I. unfold Cancel. case_match; [by rewrite Z.add_0_r|].
  destruct (tasks s !! i) as [p|] eqn:Hi; [|by rewrite Z.add_0_r].
  destruct (index_waiting _ _ _ _ _ _ _ _ _ (qi_store _ _ I) Hi) as (t & Ht & <- & Hpr & Hst).
  rewrite Ht. simpl. destruct (t_state t) eqn:Est; [|by rewrite Z.add_0_r]. simpl in Hst.
  account_simpl. edestruct set_value_same as (-> & -> & ->). simpl.
  pose proof (length_erase_value_in _ _ Hst). congr64.
Qed.

Lemma Shutdown_begin_account caller s :
  account (Shutdown_begin caller s).1 ≡₆₄ account s + 0.
Proof.
  unfold Shutdown_begin. repeat (case_match; [by rewrite Z.add_0_r|]). account_simpl.
  pose proof (foldl_incr_eq64 (queue s) (cancelled (statistics s))). congr64.
Qed.

Lemma length_running_move s w pc pc' :
  workers s !! w = Some pc →
  (length (option_list (running_of pc)) + length (running_tasks (<[w := pc']> (workers s))) =
   length (option_list (running_of pc')) + length (running_tasks (workers s)))%nat.
Proof.
  intros Hw. rewrite <-!length_app. by apply Permutation_length, running_tasks_move.
Qed.

Lemma exec_account o s l s' :
  queue_inv o s → results_terminal s → exec s l = Some s' →
  account s' ≡₆₄ account s + (if is_enqueue l then 1 else 0).
Proof.
  intros I Hres. destruct l; simpl; intros H.
  - injection H as <-. apply Enqueue_account.
  - injection H as <-. by eapply Cancel_account.
  - injection H as <-. apply Shutdown_begin_account.
  - unfold Shutdown_cancel in H. case_match; simplify_eq. account_simpl.
    edestruct settle_all_same as (-> & -> & ->). congr64.
  - unfold Shutdown_end in H. guards_in H. account_simpl. congr64.
  - unfold Run_register in H. guards_in H.
    pose proof (length_running_move _ _ _ (@WorkerWaiting CommandResult) Hguard).
    simpl in *. account_simpl. congr64.
  - unfold Run_take in H. destruct (workers s !! w) as [[]|] eqn:Hw; try done.
    case_match; [|done]. destruct (highest_priority s) as [i|].
    + destruct (queue s !! i) as [p|] eqn:Hi; [|done]. injection H as <-.
      pose proof (length_running_move _ _ _ (@WorkerExecuting CommandResult p) Hw).
      pose proof (length_delete_Some _ _ _ Hi). simpl in *. account_simpl. congr64.
    + case_match; [|injection H as <-; congr64]. injection H as <-.
      pose proof (length_running_move _ _ _ (@WorkerExited CommandResult) Hw).
      simpl in *. account_simpl. congr64.
  - unfold Run_execute in H. destruct (workers s !! w) as [[]|] eqn:Hw; try done.
    destruct (heap s !! p) as [t|]; [|done]. injection H as <-.
    pose proof (length_running_move _ _ _
      (WorkerFinished p (ExecuteTask (t_command t) now outcome later)) Hw).
    simpl in *. account_simpl. congr64.
  - unfold Run_record in H. destruct (workers s !! w) as [[]|] eqn:Hw; try done.
    destruct (heap s !! p) as [t|]; [|done]. injection H as <-.
    pose proof (length_running_move _ _ _ (WorkerDelivering p r) Hw).
    pose proof (RecordResultLocked_count (status r) (statistics s) (Hres _ _ _ Hw)).
    unfold account, queue_size. simpl in *. congr64.
  - unfold Run_deliver in H. destruct (workers s !! w) as [[]|] eqn:Hw; try done.
    injection H as <-. account_simpl. edestruct set_value_same as (-> & -> & ->).
    pose proof (length_running_move _ _ _ (@WorkerWaiting CommandResult) Hw).
    simpl in *. congr64.
Qed.

Lemma exec_results_terminal s l s' :
  results_terminal s → exec s l = Some s' → results_terminal s'.
Proof.
  intros Hs. destruct l; simpl; intros H.
  - injection H as <-. unfold Enqueue, refuse. by repeat case_match.
  - injection H as <-. unfold Cancel. repeat case_match; try done;
      intros ???; simpl; edestruct set_value_same as (_ & -> & _); apply Hs.
  - injection H as <-. unfold Shutdown_begin. by repeat case_match.
  - unfold Shutdown_cancel in H. case_match; simplify_eq. intros ???. simpl.
    edestruct settle_all_same as (_ & -> & _). apply Hs.
  - unfold Shutdown_end in H. by guards_in H.
  - unfold Run_register in H. guards_in H. by (eapply results_terminal_insert; [done| |reflexivity]).
  - unfold Run_take in H. guards_in H; by (eapply results_terminal_insert; [done| |reflexivity]).
  - unfold Run_execute in H. destruct (workers s !! w) as [[]|] eqn:Hw; try done.
    destruct (heap s !! p) as [t|]; [|done]. injection H as <-.
    eapply results_terminal_insert; [done| |done]. intros ?? [= _ <-]. apply ExecuteTask_terminal.
  - unfold Run_record in H. guards_in H; by (eapply results_terminal_insert; [done| |reflexivity]).
  - unfold Run_deliver in H. guards_in H. eapply results_terminal_insert; [done| |].
    2: { simpl. by edestruct set_value_same as (_ & -> & _). } done.
Qed.

(* ------------------------------------------------------------------ *)
(** ** Termination of shutdown *)

(** The transitions the component takes on its own, without a client call. *)
Definition internal (l : Label) : bool :=
  match l with
  | LEnqueue _ _ | LCancel _ | LShutdownBegin _ => false
  | _ => true
  end.

Definition worker_weight (pc : WorkerPc CommandResult) : nat :=
  match pc with
  | WorkerExited => 0
  | WorkerWaiting => 1
  | WorkerStarting | WorkerDelivering _ _ => 2
  | WorkerFinished _ _ => 3
  | WorkerExecuting _ => 4
  end.

Definition phase_weight (ph : ShutdownPhase) : nat :=
  match ph with NoShutdown => 0 | ShutdownJoining => 1 | ShutdownCancelling _ => 2 end.

(** How many internal transitions a queue that is shutting down has left. *)
Definition shutdown_measure (s : QueueState) : nat :=
  sum_list (worker_weight <$> workers s) + phase_weight (shutdown_phase s).

Lemma measure_move s w pc pc' s' :
  workers s !! w = Some pc → workers s' = <[w := pc']> (workers s) →
  shutdown_phase s' = shutdown_phase s → (worker_weight pc' < worker_weight pc)%nat →
  (shutdown_measure s' < shutdown_measure s)%nat.
Proof.
  unfold shutdown_measure. intros Hw -> -> Hlt.
  rewrite list_fmap_insert. pose proof (sum_list_insert (worker_weight <$> workers s) w
    (worker_weight pc) (worker_weight pc')) as Hsum.
  rewrite list_lookup_fmap, Hw in Hsum. specialize (Hsum eq_refl). lia.
Qed.

Lemma set_value_phase p r s : shutdown_phase (set_value p r s) = shutdown_phase s.
Proof. unfold set_value. by repeat case_match. Qed.

Lemma internal_decreases o s l s' :
  queue_inv o s → accepting s = false → internal l = true → exec s l = Some s' →
  (shutdown_measure s' < shutdown_measure s)%nat ∧ accepting s' = false.
Proof.
  intros I Hacc Hl H. pose proof (qi_closed _ _ I Hacc) as Hqueue.
  assert (Hbest : highest_priority s = None).
  { unfold highest_priority. by rewrite Hqueue. }
  destruct l; try done; simpl in H.
  - unfold Shutdown_cancel in H. case_match eqn:Hph; simplify_eq. unfold shutdown_measure. simpl.
    edestruct settle_all_same as (_ & -> & _). rewrite Hph. simpl. split; [lia|].
    pose proof (qi_store _ _ I) as Istore. unfold withdrawn in Istore. rewrite Hph in Istore.
    by edestruct settle_all as (h & -> & _).
  - unfold Shutdown_end in H. guards_in H. unfold shutdown_measure. simpl. rewrite Hguard. simpl.
    split; [lia|done].
  - unfold Run_register in H. guards_in H. split; [|done]. eapply measure_move; done || simpl; lia.
  - unfold Run_take in H. rewrite Hbest, Hacc, Hqueue in H. simpl in H.
    rewrite !orb_true_r in H. guards_in H. split; [|done].
    eapply measure_move; done || simpl; lia.
  - unfold Run_execute in H. guards_in H. split; [|done]. eapply measure_move; done || simpl; lia.
  - unfold Run_record in H. guards_in H. split; [|done]. eapply measure_move; done || simpl; lia.
  - unfold Run_deliver in H. guards_in H. split.
    + eapply (measure_move _ w _ WorkerWaiting); [done| | |simpl; lia]; simpl.
      * by edestruct set_value_same as (_ & -> & _).
      * by rewrite set_value_phase.
    + unfold set_value. by repeat case_match.
Qed.

Lemma internal_progress o s :
  queue_inv o s → shutdown_in_progress s = true →
  ∃ l, internal l = true ∧ is_Some (exec s l).
Proof.
  intros I Hin. pose proof (qi_phase _ _ I) as Hph. rewrite Hin in Hph.
  assert (Hacc : accepting s = false) by (by rewrite (qi_accepting _ _ I), Hin).
  destruct (shutdown_phase s) as [|l|] eqn:Hp; [done| |].
  { exists LShutdownCancel. split; [done|]. simpl. unfold Shutdown_cancel. rewrite Hp. eauto. }
  destruct (all_exited (workers s)) eqn:Hall.
  { exists LShutdownEnd. split; [done|]. simpl. unfold Shutdown_end. rewrite Hp, Hall. simpl. eauto. }
  assert (∃ w pc, workers s !! w = Some pc ∧ pc ≠ WorkerExited) as (w & pc & Hw & Hpc).
  { apply not_true_iff_false in Hall. unfold all_exited in Hall.
    rewrite forallb_forall in Hall. destruct (decide (Exists (λ pc, has_exited pc = false) (workers s)))
      as [(pc & Hin' & Hpc)%Exists_exists|Hno].
    - apply list_elem_of_lookup in Hin' as [w Hw]. exists w, pc. split; [done|]. by intros ->.
    - destruct Hall. intros pc Hpc%list_elem_of_In. apply not_Exists_Forall in Hno; [|apply _].
      rewrite Forall_forall in Hno. by apply not_false_iff_true, Hno. }
  pose proof (qi_store _ _ I) as Istore.
  destruct pc as [| |p|p r|p r|]; [| | | | |done].
  - exists (LRegister w). split; [done|]. simpl. unfold Run_register. rewrite Hw. eauto.
  - exists (LTake w). split; [done|]. simpl. unfold Run_take, highest_priority.
    rewrite Hw, Hacc, (qi_closed _ _ I Hacc), !orb_true_r. simpl. eauto.
  - exists (LExecute w 0 ThrewUnknown 0). split; [done|]. simpl. unfold Run_execute. rewrite Hw.
    destruct (store_live_lookup Istore p) as (t & -> & _); [|simpl; eauto].
    rewrite !elem_of_app. pose proof (running_tasks_in _ _ _ p Hw eq_refl). tauto.
  - exists (LRecord w). split; [done|]. simpl. unfold Run_record. rewrite Hw.
    destruct (store_live_lookup Istore p) as (t & -> & _); [|simpl; eauto].
    rewrite !elem_of_app. pose proof (running_tasks_in _ _ _ p Hw eq_refl). tauto.
  - exists (LDeliver w). split; [done|]. simpl. unfold Run_deliver. rewrite Hw. eauto.
Qed.

Lemma internal_shutting_down s l s' :
  internal l = true → exec s l = Some s' →
  shutdown_in_progress s || shutdown_complete s = true →
  shutdown_in_progress s' || shutdown_complete s' = true.
Proof.
  intros Hl H Hs. destruct l; try done; simpl in H.
  - unfold Shutdown_cancel in H. guards_in H. simpl.
    assert (∀ r s0, shutdown_in_progress (foldl (λ s p, set_value p r s) s0 cancelled_tasks) =
                 shutdown_in_progress s0 ∧
               shutdown_complete (foldl (λ s p, set_value p r s) s0 cancelled_tasks) =
                 shutdown_complete s0) as Hsame.
    { intros r. clear. induction cancelled_tasks as [|p l IH]; intros s; [done|]. simpl.
      destruct (IH (set_value p r s)) as [-> ->]. unfold set_value. by repeat case_match. }
    by edestruct Hsame as [-> ->].
  - unfold Shutdown_end in H. by guards_in H.
  - unfold Run_register in H. by guards_in H.
  - unfold Run_take in H. by guards_in H.
  - unfold Run_execute in H. by guards_in H.
  - unfold Run_record in H. by guards_in H.
  - unfold Run_deliver in H. guards_in H. simpl. unfold set_value. by repeat case_match.
Qed.

(* ------------------------------------------------------------------ *)
(** ** A scenario

    One worker, room for two commands: a normal command is accepted, then a
    critical one, a third is refused, the critical one runs, the normal one
    is cancelled and the queue is shut down.  The theorems' witnesses are
    states of this run. *)

Definition scenario_options : CommandQueueOptions := mkOptions 2 1.

Definition scenario_command (i : Z) (p : CommandPriority) : Command :=
  default_Command <| id := i |> <| priority := p |>.

Definition scenario_start : list Label :=
  [LEnqueue (scenario_command 1 PriorityNormal) 0; LEnqueue (scenario_command 2 PriorityCritical) 0;
   LEnqueue (scenario_command 3 PriorityLow) 0; LRegister 0%nat].

Definition scenario_cancel : list Label :=
  [LTake 0%nat; LCancel 1; LCancel 2; LShutdownBegin (ClientThread 0); LShutdownCancel].

Definition scenario_finish : list Label :=
  [LExecute 0%nat 0 (Returned (Result StatusCompleted "done")) 0; LRecord 0%nat; LDeliver 0%nat;
   LTake 0%nat].

Definition empty_state : QueueState :=
  match initial true scenario_options with
  | inr s => s
  | inl _ => mkQueueState scenario_options ∅ 0 [] ∅ zero_statistics 0 true false false NoShutdown
               false [] [] 0
  end.

Definition after (ls : list Label) : QueueState := default empty_state (run exec empty_state ls).

Lemma after_reachable ls : is_Some (run exec empty_state ls) → reachable scenario_options (after ls).
Proof.
  intros [s Hs]. exists empty_state, ls. split; [done|]. unfold after. by rewrite Hs.
Qed.

Lemma scenario_ok : options_ok scenario_options.
Proof. by vm_compute. Qed.

(* ------------------------------------------------------------------ *)
(** ** Properties *)

(** The queue is bounded.  In every reachable state, under every
    interleaving of clients and workers, the deque holds at most
    [maximumQueueSize] commands, the high watermark lies between the current
    and the maximal size, the active count is the number of workers that are
    running a task, and that is at most the number of workers. *)
Theorem CommandQueue_bounded o s :
  options_ok o → reachable o s →
  queue_size s <= highWatermark (statistics s) <= maximumQueueSize o ∧
  active_count s = Z.of_nat (length (running_tasks (workers s))) ∧
  active_count s <= Z.of_nat (workerCount o).
Proof.
  intros Ho Hs. destruct (reachable_inv _ _ Ho Hs).
  pose proof (running_tasks_bound (workers s)). repeat split; try done || lia.
Qed.

Lemma CommandQueue_bounded_witness :
  let s := after scenario_start in
  queue_size s <= highWatermark (statistics s) <= maximumQueueSize scenario_options ∧
  active_count s = Z.of_nat (length (running_tasks (workers s))) ∧
  active_count s <= Z.of_nat (workerCount scenario_options).
Proof.
  apply CommandQueue_bounded; [apply scenario_ok|].
  apply after_reachable. vm_compute. eauto.
Defined.

(** C10: every future gets exactly one value.  In every reachable state no
    promise has been set twice ([std::future_error] was never raised), and
    the tasks whose promise is not set are exactly those that wait in the
    deque, are run or delivered by a worker, or were withdrawn by the thread
    that is shutting down: no accepted command is lost. *)
Theorem CommandQueue_promise_once o s :
  options_ok o → reachable o s →
  future_errors s = 0%nat ∧
  ∀ p, (∃ t, heap s !! p = Some t ∧ t_promise t = None) ↔
       p ∈ queue s ++ running_tasks (workers s) ++ delivering_tasks (workers s) ++ withdrawn s.
Proof.
  intros Ho Hs. destruct (reachable_inv _ _ Ho Hs) as [_ [_ Hlive _ _ _]].
  split; [done|]. intros p. by rewrite Hlive.
Qed.

Lemma CommandQueue_promise_once_witness :
  let s := after (scenario_start ++ scenario_cancel) in
  future_errors s = 0%nat ∧
  ∀ p, (∃ t, heap s !! p = Some t ∧ t_promise t = None) ↔
       p ∈ queue s ++ running_tasks (workers s) ++ delivering_tasks (workers s) ++ withdrawn s.
Proof.
  apply (CommandQueue_promise_once scenario_options); [apply scenario_ok|].
  apply after_reachable. vm_compute. eauto.
Defined.

(** What taking a task does, when it takes one. *)
Lemma Run_take_cases w s s' p :
  Run_take w s = Some s' → workers s' !! w = Some (WorkerExecuting p) →
  ∃ i, highest_priority s = Some i ∧ queue s !! i = Some p ∧ workers s !! w = Some WorkerWaiting ∧
    queue s' = delete i (queue s) ∧
    heap s' = alter (set_field t_state (λ _, TaskRunning)) p (heap s) ∧
    workers s' = <[w := WorkerExecuting p]> (workers s).
Proof.
  intros H Hp. unfold Run_take in H. destruct (workers s !! w) as [[]|] eqn:Hw; try done.
  case_match; [|done]. destruct (highest_priority s) as [i|].
  - destruct (queue s !! i) as [q|] eqn:Hi; simplify_eq/=.
    rewrite list_lookup_insert_eq in Hp by (by eapply lookup_lt_Some). simplify_eq. eauto 10.
  - case_match; simplify_eq/=. rewrite list_lookup_insert in Hp. by case_decide; simplify_eq.
Qed.

(** selection.  A worker that takes a task takes one of the highest
    priority among the waiting ones, and among those the one submitted first:
    those before it in the deque have a strictly lower priority.  The task
    becomes running, so that it can no longer be cancelled. *)
Theorem Run_take_selects o w s s' p :
  options_ok o → reachable o s →
  Run_take w s = Some s' → workers s' !! w = Some (WorkerExecuting p) →
  ∃ l1 l2, queue s = l1 ++ p :: l2 ∧ queue s' = l1 ++ l2 ∧
    (∀ x, x ∈ l1 → task_priority s x < task_priority s p) ∧
    (∀ x, x ∈ l2 → task_priority s x <= task_priority s p) ∧
    t_state <$> heap s' !! p = Some TaskRunning ∧ active_count s' = active_count s + 1.
Proof.
  intros Ho Hs H Hp. pose proof (reachable_inv _ _ Ho Hs) as I.
  pose proof (Run_take_inv o w s s' (proj2 (proj2 Ho)) I H) as I'.
  destruct (Run_take_cases _ _ _ _ H Hp) as (i & Hbest & Hi & Hw & -> & Hheap & Hws).
  apply (max_element_spec _ (H := key_strict_weak_order (task_priority s)))
    in Hbest as (x & Hx & Hmax & Hfirst). simplify_eq.
  destruct (store_live_lookup (qi_store _ _ I) x) as (t & Ht & _).
  { apply elem_of_app. left. by eapply list_elem_of_lookup_2. }
  exists (take i (queue s)), (drop (S i) (queue s)). repeat split.
  - by rewrite take_drop_middle.
  - apply delete_take_drop.
  - intros y (j & Hj)%list_elem_of_lookup. apply lookup_take_Some in Hj as [Hj Hlt].
    specialize (Hfirst _ _ Hlt Hj). lia.
  - intros y (j & Hj)%list_elem_of_lookup. rewrite lookup_drop in Hj.
    specialize (Hmax _ _ Hj). lia.
  - by rewrite Hheap, lookup_alter_eq, Ht.
  - rewrite (qi_active _ _ I), (qi_active _ _ I'), Hws.
    pose proof (length_running_move _ _ _ (@WorkerExecuting CommandResult x) Hw). simpl in *. lia.
Qed.

Lemma Run_take_selects_witness :
  let s := after scenario_start in
  ∃ l1 l2, queue s = l1 ++ 1%nat :: l2 ∧
    queue (after (scenario_start ++ [LTake 0%nat])) = l1 ++ l2 ∧
    (∀ x, x ∈ l1 → task_priority s x < task_priority s 1%nat) ∧
    (∀ x, x ∈ l2 → task_priority s x <= task_priority s 1%nat) ∧
    t_state <$> heap (after (scenario_start ++ [LTake 0%nat])) !! 1%nat = Some TaskRunning ∧
    active_count (after (scenario_start ++ [LTake 0%nat])) = active_count s + 1.
Proof.
  apply (Run_take_selects scenario_options 0%nat); [apply scenario_ok| | |].
  - apply after_reachable. vm_compute. eauto.
  - vm_compute. reflexivity.
  - vm_compute. reflexivity.
Defined.

(** every submission is accounted for.  Along any interleaving, the number
    of [Enqueue] calls equals, as a 64-bit word, what [GetStatistics] reports
    as waiting, as active, and as completed, cancelled, failed, timed out or
    rejected together. *)
Theorem CommandQueue_statistics_account o s0 ls s :
  options_ok o → initial true o = inr s0 → run exec s0 ls = Some s →
  let x := GetStatistics s in
  submissions ls ≡₆₄ queued x + active x +
    (completed x + cancelled x + failed x + timedOut x + rejected x).
Proof.
  intros Ho Hinit Hrun x. unfold x. clear x.
  cut (queue_inv o s ∧ results_terminal s ∧ account s ≡₆₄ submissions ls).
  { intros (I & _ & <-). simpl. by rewrite (qi_active _ _ I). }
  refine (run_invariant_trace exec (λ ls s, queue_inv o s ∧ results_terminal s ∧
            account s ≡₆₄ submissions ls) _ ls [] s0 s _ Hrun).
  - intros ls' s1 l s2 (I & Hres & Hacc) Hl. split; [|split].
    + by eapply exec_inv; [apply Ho| |].
    + by eapply exec_results_terminal.
    + by rewrite (exec_account _ _ _ _ I Hres Hl), Hacc, submissions_snoc.
  - split; [by apply initial_inv; [apply Ho|]|]. unfold initial in Hinit. guards_in Hinit. split.
    + intros w p r Hw. by apply lookup_replicate in Hw as [? _].
    + unfold account, terminal_count, queue_size. simpl.
      by rewrite running_tasks_replicate.
Qed.

Lemma CommandQueue_statistics_account_witness :
  let ls := scenario_start ++ scenario_cancel ++ scenario_finish in
  let x := GetStatistics (after ls) in
  submissions ls ≡₆₄ queued x + active x +
    (completed x + cancelled x + failed x + timedOut x + rejected x).
Proof.
  apply (CommandQueue_statistics_account scenario_options empty_state);
    [apply scenario_ok|reflexivity|vm_compute; reflexivity].
Defined.

(** What shutdown leaves behind.  When [Shutdown] returns after joining
    the workers, every future ever handed out has its value, no command is
    waiting, running or indexed, and any later [Enqueue] answers at once with
    a terminal result that is not [Completed]. *)
Theorem Shutdown_settles o s s' r :
  options_ok o → reachable o s → Shutdown_end s = Some (s', r) →
  r = Result StatusCompleted "Command queue shut down" ∧
  (∀ p t, heap s' !! p = Some t → is_Some (t_promise t)) ∧
  queue s' = [] ∧ tasks s' = ∅ ∧ active_count s' = 0 ∧
  ∀ c now, ∃ r', future_value (Enqueue c now s').2 (Enqueue c now s').1 = Some r' ∧
                 (status r' = StatusRejected ∨ status r' = StatusTimeout).
Proof.
  intros Ho Hs H. pose proof (Shutdown_end_inv _ _ _ _ (reachable_inv _ _ Ho Hs) H) as I'.
  unfold Shutdown_end in H. guards_in H.
  destruct I' as [_ Istore Hact _ _ _ Hacc Hq _ _ _]. simpl in *.
  rewrite (all_exited_running _ Hguard0), (all_exited_delivering _ Hguard0), Hq in * by done.
  repeat split; try done.
  - intros p t Ht. destruct (t_promise t) eqn:E; [by eauto|].
    assert (p ∈ [] ++ [] ++ [] ++ []) as []%elem_of_nil.
    apply (si_live _ _ _ _ _ _ _ Istore). eauto.
  - apply map_eq. intros i. rewrite lookup_empty. destruct (tasks s !! i) as [p|] eqn:Hi; [|done].
    by apply (si_index _ _ _ _ _ _ _ Istore) in Hi as [[]%elem_of_nil _].
  - intros c now. unfold Enqueue. destruct (ValidateForQueue c now) as [r|] eqn:Hval.
    + exists r. split; [done|]. unfold ValidateForQueue, ValidateTimes in Hval.
      guards_in Hval; eauto.
    + simpl. rewrite Hacc. simpl. eexists. rewrite lookup_insert_eq. simpl. split; [done|]. eauto.
Qed.

Lemma Shutdown_settles_witness :
  let s := after (scenario_start ++ scenario_cancel ++ scenario_finish) in
  let s' := after (scenario_start ++ scenario_cancel ++ scenario_finish ++ [LShutdownEnd]) in
  let r := Result StatusCompleted "Command queue shut down" in
  r = Result StatusCompleted "Command queue shut down" ∧
  (∀ p t, heap s' !! p = Some t → is_Some (t_promise t)) ∧
  queue s' = [] ∧ tasks s' = ∅ ∧ active_count s' = 0 ∧
  ∀ c now, ∃ r', future_value (Enqueue c now s').2 (Enqueue c now s').1 = Some r' ∧
                 (status r' = StatusRejected ∨ status r' = StatusTimeout).
Proof.
  intros s s' r. apply (Shutdown_settles scenario_options s); [apply scenario_ok| |].
  - apply after_reachable. vm_compute. eauto.
  - vm_compute. reflexivity.
Defined.

(** C21: shutdown terminates.  Once a shutdown is in progress, whatever the
    executor returns and however the workers interleave, at most
    [shutdown_measure] internal transitions can happen, and as long as the
    shutdown is not complete one of them is enabled: [join] returns. *)
Theorem Shutdown_terminates o s ls s' :
  options_ok o → reachable o s → shutdown_in_progress s = true →
  forallb internal ls = true → run exec s ls = Some s' →
  (length ls <= shutdown_measure s)%nat ∧
  (shutdown_complete s' = true ∨ ∃ l, internal l = true ∧ is_Some (exec s' l)).
Proof.
  intros Ho Hs Hin Hls Hrun. pose proof (reachable_inv _ _ Ho Hs) as I.
  assert (Hacc : accepting s = false) by (by rewrite (qi_accepting _ _ I), Hin).
  assert (Hdown : shutdown_in_progress s || shutdown_complete s = true) by (by rewrite Hin).
  clear Hs Hin. revert s I Hacc Hdown Hrun.
  induction ls as [|l ls IH]; intros s I Hacc Hdown Hrun; simplify_eq/=.
  - split; [lia|]. destruct (shutdown_complete s') eqn:E; [by left|right].
    apply (internal_progress o); [done|]. by rewrite orb_false_r in Hdown.
  - apply andb_true_iff in Hls as [Hl Hls]. destruct (exec s l) as [s1|] eqn:E; [|done].
    destruct (internal_decreases _ _ _ _ I Hacc Hl E) as [Hlt Hacc1].
    destruct (IH Hls s1) as [Hlen Hend]; [|done| |done|].
    + by eapply exec_inv; [apply Ho| |].
    + by eapply internal_shutting_down.
    + split; [lia|done].
Qed.

Lemma Shutdown_terminates_witness :
  let s := after (scenario_start ++ scenario_cancel) in
  let s' := after (scenario_start ++ scenario_cancel ++ scenario_finish) in
  (length scenario_finish <= shutdown_measure s)%nat ∧
  (shutdown_complete s' = true ∨ ∃ l, internal l = true ∧ is_Some (exec s' l)).
Proof.
  apply (Shutdown_terminates scenario_options); [apply scenario_ok| | | |].
  - apply after_reachable. vm_compute. eauto.
  - vm_compute. reflexivity.
  - reflexivity.
  - vm_compute. reflexivity.
Defined.

(** Cancellation.  [Cancel] succeeds exactly on the identifiers of waiting
    commands; it then takes that one command out of the deque, keeping the
    order of the others, frees the identifier and delivers the [Cancelled]
    result to the command's future.  In every other case it answers
    [Rejected] and changes nothing. *)
Theorem Cancel_correct o i s :
  options_ok o → reachable o s →
  match Cancel i s with
  | (s', r) =>
      (status r = StatusCancelled ∧
       ∃ p l1 l2 t, tasks s !! i = Some p ∧ heap s !! p = Some t ∧
         queue s = l1 ++ p :: l2 ∧ queue s' = l1 ++ l2 ∧ tasks s' = delete i (tasks s) ∧
         heap s' = <[p := t <| t_promise := Some r |>]> (heap s) ∧ i ≠ 0) ∨
      (status r = StatusRejected ∧ s' = s ∧
       (i ≠ 0 → ∀ p, tasks s !! i = Some p → p ∈ running_tasks (workers s)))
  end.
Proof.
  intros Ho Hs. pose proof (reachable_inv _ _ Ho Hs) as I. unfold Cancel.
  destruct (Z.eqb_spec i 0) as [->|Hi0]; [by right|].
  destruct (tasks s !! i) as [p|] eqn:Hi; [|by right].
  destruct (index_waiting _ _ _ _ _ _ _ _ _ (qi_store _ _ I) Hi) as (t & Ht & _ & Hpr & Hst).
  rewrite Ht. simpl. destruct (t_state t); simpl in Hst.
  - left. split; [done|]. erewrite set_value_pending by done. simpl.
    destruct (erase_value_cases p (queue s)) as [[Hno _]|(j & Hj & ->)]; [done|].
    exists p, (take j (queue s)), (drop (S j) (queue s)), t.
    rewrite take_drop_middle, delete_take_drop by done. done.
  - right. do 2 (split; [done|]). intros _ p' [= <-]. done.
Qed.

Lemma Cancel_correct_witness :
  let s := after (scenario_start ++ [LTake 0%nat]) in
  match Cancel 1 s with
  | (s', r) =>
      (status r = StatusCancelled ∧
       ∃ p l1 l2 t, tasks s !! 1 = Some p ∧ heap s !! p = Some t ∧
         queue s = l1 ++ p :: l2 ∧ queue s' = l1 ++ l2 ∧ tasks s' = delete 1 (tasks s) ∧
         heap s' = <[p := t <| t_promise := Some r |>]> (heap s) ∧ 1 ≠ 0) ∨
      (status r = StatusRejected ∧ s' = s ∧
       (1 ≠ 0 → ∀ p, tasks s !! 1 = Some p → p ∈ running_tasks (workers s)))
  end.
Proof.
  apply (Cancel_correct scenario_options); [apply scenario_ok|].
  apply after_reachable. vm_compute. eauto.
Defined.
