(* ===== verification/RobotState.v ===== *)
(** * Robot state

    The vendor-independent state snapshot of core/include/humanoid/core/
    RobotState.hpp and its holder [RobotStateManager] (src/core/
    RobotStateManager.cpp).  A [float] is a binary32 value of the Standard
    Library's specification of floats, compared as IEEE 754 compares. *)

From Stdlib Require Import SpecFloat.
From S2P Require Import Prelude.

Open Scope Z_scope.

(** Binary32 numbers: the integer [z] rounded to a [float]. *)
Abbreviation float32 := spec_float.

Definition float32_of_Z (z : Z) : float32 := binary_normalize 24 128 z 0 false.

(** [std::isfinite] *)
Definition isfinite (x : spec_float) : bool :=
  match x with
  | S754_zero _ | S754_finite _ _ _ => true
  | S754_infinity _ | S754_nan => false
  end.

Record RobotConnectionState := mkConnection { connected : bool }.

Record RobotPowerState := mkPower { batteryLevel : float32; charging : bool }.

Record RobotMotionState := mkMotion {
  standing : bool; walking : bool; sitting : bool; robotMode : Z; motionMode : Z }.

Record RobotImuState := mkImu {
  imu_valid : bool;
  quaternionX : float32; quaternionY : float32; quaternionZ : float32; quaternionW : float32;
  angularVelocityX : float32; angularVelocityY : float32; angularVelocityZ : float32;
  linearAccelerationX : float32; linearAccelerationY : float32; linearAccelerationZ : float32;
  imu_temperatureCelsius : float32 }.

Record RobotJointState := mkJoint {
  joint_valid : bool; joint_position : float32; joint_velocity : float32;
  joint_acceleration : float32; joint_torque : float32; joint_voltage : float32;
  joint_temperatureCelsius : float32; joint_mode : Z; joint_faultCode : Z }.

Record RobotContactState := mkContact {
  contact_valid : bool; contact : bool; force : float32; contact_temperatureCelsius : float32 }.

Record RobotDiagnosticsState := mkDiagnostics {
  stateFeedbackAvailable : bool; diag_sequence : Z; heartbeatCount : Z;
  reconnectAttemptCount : Z; latencyMs : float32; maxMotorTemperatureCelsius : float32;
  jointCount : Z; contactCount : Z }.

Record RobotVelocity := mkVelocity { linearX : float32; linearY : float32; angularZ : float32 }.

Record RobotPose := mkPose { positionX : float32; positionY : float32; positionZ : float32 }.

Record RobotOrientation := mkOrientation { roll : float32; pitch : float32; yaw : float32 }.

Record RobotHealthState := mkHealth { emergencyStop : bool; faultCode : Z }.

Definition kMaxRobotJointStates : nat := 35.
Definition kMaxRobotContactStates : nat := 4.

Record RobotState := mkRobotState {
  connection : RobotConnectionState;
  power : RobotPowerState;
  motion : RobotMotionState;
  velocity : RobotVelocity;
  pose : RobotPose;
  orientation : RobotOrientation;
  imu : RobotImuState;
  joints : list RobotJointState;      (** [kMaxRobotJointStates] of them *)
  contacts : list RobotContactState;  (** [kMaxRobotContactStates] of them *)
  diagnostics : RobotDiagnosticsState;
  health : RobotHealthState;
  state_timestamp : Z;
}.

#[export] Instance eta_RobotState : EtaRecord RobotState := fun s =>
  mkRobotState (connection s) (power s) (motion s) (velocity s) (pose s) (orientation s) (imu s)
    (joints s) (contacts s) (diagnostics s) (health s) (state_timestamp s).

(** The default-constructed state: every member has its initializer. *)
Definition default_RobotState : RobotState :=
  let z := float32_of_Z 0 in
  {| connection := mkConnection false;
     power := mkPower z false;
     motion := mkMotion false false false 0 0;
     velocity := mkVelocity z z z;
     pose := mkPose z z z;
     orientation := mkOrientation z z z;
     imu := mkImu false z z z (float32_of_Z 1) z z z z z z z;
     joints := replicate kMaxRobotJointStates (mkJoint false z z z z z z 0 0);
     contacts := replicate kMaxRobotContactStates (mkContact false false z z);
     diagnostics := mkDiagnostics false 0 0 0 z z 0 0;
     health := mkHealth false 0;
     state_timestamp := 0 |}.

(** ** RobotStateManager: one snapshot behind a reader-writer lock *)

Record RobotStateManager := mkRobotStateManager { state_ : RobotState }.

Definition UpdateState (state : RobotState) (m : RobotStateManager) : RobotStateManager :=
  mkRobotStateManager state.

Definition GetState (m : RobotStateManager) : RobotState := state_ m.

Definition Reset_state (m : RobotStateManager) : RobotStateManager :=
  mkRobotStateManager default_RobotState.

Definition IsConnected (m : RobotStateManager) : bool := connected (connection (state_ m)).

Definition BatteryLevel (m : RobotStateManager) : float32 := batteryLevel (power (state_ m)).

Definition EmergencyStop (m : RobotStateManager) : bool := emergencyStop (health (state_ m)).

Definition FaultCode (m : RobotStateManager) : Z := faultCode (health (state_ m)).
