(* ===== verification/SafetyValidator.v ===== *)
(** * The safety validator

    [SafetyValidator::Validate] (src/core/SafetyValidator.cpp) with its
    options, capability sets and contexts (include/humanoid/core/
    SafetyValidator.h): the checks a command must pass before an adapter
    executes it.  The first part translates the code; the second states what
    a safe command is ([Safe]), proves that the validator accepts exactly the
    safe commands, and that a stop command is never held back by the state of
    the robot. *)

From Stdlib Require Import SpecFloat.
From S2P Require Import Prelude Command RobotState.

Open Scope Z_scope.

Record CommandCapabilitySet := mkCapabilities {
  stand : bool; sit : bool; walk : bool; stop : bool; move_ : bool; rotate : bool;
  velocity_ : bool; emergencyStop_ : bool; handOpen : bool; handClose : bool;
  gesture : bool; playAudio : bool; stopAudio : bool; setVolume : bool; muteAudio : bool;
  custom : bool }.

Definition LegacyAdapterDefaults : CommandCapabilitySet :=
  {| stand := true; sit := false; walk := true; stop := true; move_ := true; rotate := true;
     velocity_ := true; emergencyStop_ := true; handOpen := false; handClose := false;
     gesture := false; playAudio := false; stopAudio := false; setVolume := false;
     muteAudio := false; custom := false |}.

Definition Supports (t : CommandType) (c : CommandCapabilitySet) : bool :=
  match t with
  | TypeStand => stand c
  | TypeSit => sit c
  | TypeWalk => walk c
  | TypeStop => stop c
  | TypeMove => move_ c
  | TypeRotate => rotate c
  | TypeVelocity => velocity_ c
  | TypeEmergencyStop => emergencyStop_ c
  | TypeHandOpen => handOpen c
  | TypeHandClose => handClose c
  | TypeGesture => gesture c
  | TypePlayAudio => playAudio c
  | TypeStopAudio => stopAudio c
  | TypeSetVolume => setVolume c
  | TypeMuteAudio => muteAudio c
  | TypeCustom => custom c
  | TypeRaw _ => false
  end.

Record SafetyValidationContext := mkContext {
  robotState : RobotState;
  capabilities : CommandCapabilitySet;
  robotStateAvailable : bool;
  batteryStateAvailable : bool;
  capabilitiesAvailable : bool }.

#[export] Instance eta_SafetyValidationContext : EtaRecord SafetyValidationContext := fun c =>
  mkContext (robotState c) (capabilities c) (robotStateAvailable c) (batteryStateAvailable c)
    (capabilitiesAvailable c).

Record SafetyValidatorOptions := mkSafetyOptions {
  minimumBatteryLevelPercent : float32;
  requireConnection : bool;
  requireBatteryStateForActuatorCommands : bool;
  enforceBatteryRange : bool;
  rejectEmergencyStop : bool;
  allowStopDuringEmergencyStop : bool;
  rejectRobotFaults : bool;
  enforceMotionStateConsistency : bool;
  requireStandingForBaseMotion : bool }.

#[export] Instance eta_SafetyValidatorOptions : EtaRecord SafetyValidatorOptions := fun o =>
  mkSafetyOptions (minimumBatteryLevelPercent o) (requireConnection o)
    (requireBatteryStateForActuatorCommands o) (enforceBatteryRange o) (rejectEmergencyStop o)
    (allowStopDuringEmergencyStop o) (rejectRobotFaults o) (enforceMotionStateConsistency o)
    (requireStandingForBaseMotion o).

Definition default_SafetyValidatorOptions : SafetyValidatorOptions :=
  mkSafetyOptions (float32_of_Z 15) true true true true true true true true.

Definition IsActuatorCommand (t : CommandType) : bool :=
  match t with
  | TypeStand | TypeSit | TypeWalk | TypeMove | TypeRotate | TypeVelocity | TypeHandOpen
  | TypeHandClose | TypeGesture => true
  | TypeStop | TypeEmergencyStop | TypePlayAudio | TypeStopAudio | TypeSetVolume
  | TypeMuteAudio | TypeCustom => false
  | TypeRaw _ => false
  end.

Definition IsBaseMotionCommand (t : CommandType) : bool :=
  match t with
  | TypeWalk | TypeMove | TypeRotate | TypeVelocity => true
  | TypeStand | TypeSit | TypeStop | TypeEmergencyStop | TypeHandOpen | TypeHandClose
  | TypeGesture | TypePlayAudio | TypeStopAudio | TypeSetVolume | TypeMuteAudio
  | TypeCustom => false
  | TypeRaw _ => false
  end.

Definition IsStopCommand (t : CommandType) : bool :=
  bool_decide (t = TypeStop) || bool_decide (t = TypeEmergencyStop).

Definition IsBatteryPercent (value : float32) : bool :=
  isfinite value && SFleb (float32_of_Z 0) value && SFleb value (float32_of_Z 100).

Definition ActivePostureCount (m : RobotMotionState) : Z :=
  (if standing m then 1 else 0) + (if sitting m then 1 else 0).

Definition HasContradictoryMotionState (m : RobotMotionState) : bool :=
  (1 <? ActivePostureCount m) || (walking m && sitting m).

Definition ShouldCheckBattery (t : CommandType) : bool := IsActuatorCommand t.

(** The checks on identifier, timeout, type, priority and timestamps; the
    clock is read twice, at [now] and inside [HasExpired] at [later]. *)
Definition ValidateHeader (c : Command) (now later : Z) : option CommandResult :=
  if id c =? 0 then Some (Result StatusRejected "Command identifier must be nonzero")
  else if timeout c <? 0 then Some (Result StatusRejected "Command timeout must not be negative")
  else if negb (IsKnownCommandType (type c)) then
    Some (Result StatusRejected "Command type is invalid")
  else if negb (IsKnownPriority (priority c)) then
    Some (Result StatusRejected "Command priority is invalid")
  else if hasTimeout c then
    if timestamp c =? 0 then
      Some (Result StatusRejected "Timed commands require a monotonic creation timestamp")
    else if now <? timestamp c then
      Some (Result StatusRejected "Command timestamp must not be in the future")
    else if HasExpired c later then
      Some (Result StatusTimeout "Command expired before safety validation")
    else None
  else None.

(** The battery checks of actuator commands. *)
Definition ValidateBattery (o : SafetyValidatorOptions) (ctx : SafetyValidationContext) :
    option CommandResult :=
  let level := batteryLevel (power (robotState ctx)) in
  if negb (batteryStateAvailable ctx) then
    Some (Result StatusRejected "Robot battery state is unavailable")
  else if enforceBatteryRange o && negb (IsBatteryPercent level) then
    Some (Result StatusRejected "Robot battery level is invalid")
  else if SFltb level (minimumBatteryLevelPercent o) then
    Some (Result StatusRejected "Robot battery level is below safety threshold")
  else None.

(** The posture checks of base motion commands. *)
Definition ValidateBaseMotion (m : RobotMotionState) : option CommandResult :=
  if sitting m then Some (Result StatusRejected "Base motion is rejected while robot is sitting")
  else if negb (standing m) then
    Some (Result StatusRejected "Base motion requires a standing robot state")
  else None.

(** [first_failure x k] returns early with [x]'s result, if there is one. *)
Definition first_failure (x : option CommandResult) (k : CommandResult) : CommandResult :=
  match x with Some r => r | None => k end.

Definition Validate (o : SafetyValidatorOptions) (c : Command) (ctx : SafetyValidationContext)
    (now later : Z) : CommandResult :=
  first_failure (ValidateHeader c now later) (
  if negb (robotStateAvailable ctx) then Result StatusRejected "Robot state is unavailable"
  else if negb (capabilitiesAvailable ctx) then
    Result StatusRejected "Robot capabilities are unavailable"
  else if negb (Supports (type c) (capabilities ctx)) then
    Result StatusRejected "Command capability is not supported"
  else
  let state := robotState ctx in
  if requireConnection o && negb (connected (connection state)) then
    Result StatusRejected "Robot is not connected"
  else
  let stop_command := IsStopCommand (type c) in
  if rejectEmergencyStop o && emergencyStop (health state) &&
     negb (allowStopDuringEmergencyStop o && stop_command) then
    Result StatusRejected "Emergency stop is active"
  else if rejectRobotFaults o && negb (faultCode (health state) =? 0) && negb stop_command then
    Result StatusRejected "Robot fault is active"
  else if enforceMotionStateConsistency o && negb stop_command &&
          HasContradictoryMotionState (motion state) then
    Result StatusRejected "Robot motion state is inconsistent"
  else
  first_failure
    (if requireBatteryStateForActuatorCommands o && ShouldCheckBattery (type c)
     then ValidateBattery o ctx else None) (
  first_failure
    (if requireStandingForBaseMotion o && IsBaseMotionCommand (type c)
     then ValidateBaseMotion (motion state) else None) (
  if walking (motion state) &&
     (bool_decide (type c = TypeStand) || bool_decide (type c = TypeSit)) then
    Result StatusRejected "Posture command requires stopped base motion"
  else Result StatusCompleted "Command passed safety validation"))).

(* ------------------------------------------------------------------ *)
(** ** What a safe command is *)

(** A command that is well formed and whose time has not passed. *)
Record well_formed (c : Command) (now later : Z) : Prop := {
  wf_id : id c ≠ 0;
  wf_timeout : 0 <= timeout c;
  wf_type : IsKnownCommandType (type c) = true;
  wf_priority : IsKnownPriority (priority c) = true;
  wf_timed : 0 < timeout c → timestamp c ≠ 0 ∧ timestamp c <= now ∧
    (later < timestamp c ∨ elapsed_ns later (timestamp c) < ns_of_ms (timeout c));
}.

(** A command is safe in a context when the options [o] are in force. *)
Record Safe (o : SafetyValidatorOptions) (c : Command) (ctx : SafetyValidationContext) : Prop := {
  safe_known : robotStateAvailable ctx = true ∧ capabilitiesAvailable ctx = true;
  safe_supported : Supports (type c) (capabilities ctx) = true;
  safe_connected : requireConnection o = true → connected (connection (robotState ctx)) = true;
  safe_emergency : rejectEmergencyStop o = true → emergencyStop (health (robotState ctx)) = true →
    allowStopDuringEmergencyStop o = true ∧ IsStopCommand (type c) = true;
  safe_fault : rejectRobotFaults o = true → faultCode (health (robotState ctx)) ≠ 0 →
    IsStopCommand (type c) = true;
  safe_consistent : enforceMotionStateConsistency o = true → IsStopCommand (type c) = false →
    sitting (motion (robotState ctx)) = true →
    standing (motion (robotState ctx)) = false ∧ walking (motion (robotState ctx)) = false;
  safe_battery : requireBatteryStateForActuatorCommands o = true →
    IsActuatorCommand (type c) = true →
    batteryStateAvailable ctx = true ∧
    (enforceBatteryRange o = true →
       IsBatteryPercent (batteryLevel (power (robotState ctx))) = true) ∧
    SFltb (batteryLevel (power (robotState ctx))) (minimumBatteryLevelPercent o) = false;
  safe_posture : requireStandingForBaseMotion o = true → IsBaseMotionCommand (type c) = true →
    standing (motion (robotState ctx)) = true ∧ sitting (motion (robotState ctx)) = false;
  safe_stopped : walking (motion (robotState ctx)) = true →
    type c ≠ TypeStand ∧ type c ≠ TypeSit;
}.

Lemma ValidateHeader_None c now later :
  ValidateHeader c now later = None ↔ well_formed c now later.
Proof.
  unfold ValidateHeader, HasExpired, hasTimeout. split.
  - intros H. guards_in H; apply negb_false_iff in Hguard1, Hguard2; split; try done; lia.
  - intros [? ? Ht Hp Htimed]. rewrite Ht, Hp. simpl.
    destruct (Z.eqb_spec (id c) 0); [done|]. destruct (Z.ltb_spec (timeout c) 0); [lia|].
    destruct (Z.ltb_spec 0 (timeout c)) as [Hpos|]; [|done]. destruct (Htimed Hpos) as (? & ? & ?).
    destruct (Z.eqb_spec (timestamp c) 0); [done|]. destruct (Z.ltb_spec now (timestamp c)); [lia|].
    simpl. destruct (Z.leb_spec (timestamp c) later); simpl; [|done].
    destruct (Z.leb_spec (ns_of_ms (timeout c)) (elapsed_ns later (timestamp c))); [lia|done].
Qed.

Lemma ValidateHeader_terminal c now later r :
  ValidateHeader c now later = Some r → status r = StatusRejected ∨ status r = StatusTimeout.
Proof. unfold ValidateHeader. intros H. guards_in H; tauto. Qed.

Lemma first_failure_success x k :
  isSuccess (first_failure x k) = true ↔
  (x = None ∧ isSuccess k = true) ∨ (∃ r, x = Some r ∧ isSuccess r = true).
Proof. destruct x; simpl; naive_solver. Qed.

Lemma ValidateHeader_fails c now later r :
  ValidateHeader c now later = Some r → isSuccess r = false.
Proof.
  intros H. apply ValidateHeader_terminal in H. unfold isSuccess.
  apply bool_decide_eq_false. destruct H; congruence.
Qed.

Lemma ValidateBattery_None o ctx :
  ValidateBattery o ctx = None ↔
  batteryStateAvailable ctx = true ∧
  (enforceBatteryRange o = true → IsBatteryPercent (batteryLevel (power (robotState ctx))) = true) ∧
  SFltb (batteryLevel (power (robotState ctx))) (minimumBatteryLevelPercent o) = false.
Proof.
  unfold ValidateBattery. destruct (batteryStateAvailable ctx); simpl; [|naive_solver].
  destruct (enforceBatteryRange o), (IsBatteryPercent _), (SFltb _ _);
    naive_solver.
Qed.

Lemma ValidateBaseMotion_None m :
  ValidateBaseMotion m = None ↔ standing m = true ∧ sitting m = false.
Proof. unfold ValidateBaseMotion. destruct (sitting m), (standing m); naive_solver. Qed.

Lemma guarded_None {A} (b1 b2 : bool) (x : option A) (P : Prop) :
  (x = None ↔ P) → (if b1 && b2 then x else None) = None ↔ (b1 = true → b2 = true → P).
Proof. intros HP. destruct b1, b2; simpl; naive_solver. Qed.

Lemma contradictory_false m :
  HasContradictoryMotionState m = false ↔
  (sitting m = true → standing m = false ∧ walking m = false).
Proof.
  unfold HasContradictoryMotionState, ActivePostureCount.
  destruct (standing m), (sitting m), (walking m); naive_solver.
Qed.

(** A check that rejects can only be passed by not being triggered. *)
Lemma rejected_if (b : bool) m k :
  isSuccess (if b then Result StatusRejected m else k) = true ↔ b = false ∧ isSuccess k = true.
Proof. destruct b; naive_solver. Qed.

Lemma first_failure_rejecting x k :
  (∀ r, x = Some r → isSuccess r = false) →
  isSuccess (first_failure x k) = true ↔ x = None ∧ isSuccess k = true.
Proof. intros Hx. rewrite first_failure_success. naive_solver congruence. Qed.

Lemma Validate_success o c ctx now later :
  isSuccess (Validate o c ctx now later) = true ↔
  ValidateHeader c now later = None ∧
  robotStateAvailable ctx = true ∧ capabilitiesAvailable ctx = true ∧
  Supports (type c) (capabilities ctx) = true ∧
  requireConnection o && negb (connected (connection (robotState ctx))) = false ∧
  rejectEmergencyStop o && emergencyStop (health (robotState ctx)) &&
    negb (allowStopDuringEmergencyStop o && IsStopCommand (type c)) = false ∧
  rejectRobotFaults o && negb (faultCode (health (robotState ctx)) =? 0) &&
    negb (IsStopCommand (type c)) = false ∧
  enforceMotionStateConsistency o && negb (IsStopCommand (type c)) &&
    HasContradictoryMotionState (motion (robotState ctx)) = false ∧
  (if requireBatteryStateForActuatorCommands o && ShouldCheckBattery (type c)
   then ValidateBattery o ctx else None) = None ∧
  (if requireStandingForBaseMotion o && IsBaseMotionCommand (type c)
   then ValidateBaseMotion (motion (robotState ctx)) else None) = None ∧
  walking (motion (robotState ctx)) &&
    (bool_decide (type c = TypeStand) || bool_decide (type c = TypeSit)) = false.
Proof.
  unfold Validate. rewrite first_failure_rejecting by apply ValidateHeader_fails.
  rewrite !rejected_if. rewrite !first_failure_rejecting.
  - rewrite rejected_if, !negb_false_iff. unfold isSuccess. simpl. tauto.
  - intros r Hr. unfold ValidateBaseMotion in Hr. by guards_in Hr.
  - intros r Hr. unfold ValidateBattery in Hr. by guards_in Hr.
Qed.

(** Success means safe; the dispatcher relies on it. *)
Lemma Validate_success_safe o c ctx now later :
  isSuccess (Validate o c ctx now later) = true ↔ well_formed c now later ∧ Safe o c ctx.
Proof.
  rewrite Validate_success, ValidateHeader_None, (guarded_None _ _ _ _ (ValidateBattery_None o ctx)),
    (guarded_None _ _ _ _ (ValidateBaseMotion_None _)).
  set (m := motion (robotState ctx)).
  assert (∀ b1 b2 b3, b1 && negb b2 && b3 = false ↔ (b1 = true → b2 = false → b3 = false))
    as Hcons by (intros [] [] []; naive_solver).
  assert (∀ b1 b2 b3, b1 && b2 && negb b3 = false ↔ (b1 = true → b2 = true → b3 = true))
    as Hand by (intros [] [] []; naive_solver).
  assert (∀ b1 b2, b1 && negb b2 = false ↔ (b1 = true → b2 = true))
    as Himp by (intros [] []; naive_solver).
  rewrite !Hcons, !Hand, Himp, contradictory_false, andb_true_iff, negb_false_iff, Z.eqb_neq.
  assert (walking m && (bool_decide (type c = TypeStand) || bool_decide (type c = TypeSit)) = false
          ↔ (walking m = true → type c ≠ TypeStand ∧ type c ≠ TypeSit)) as ->.
  { rewrite andb_false_iff, orb_false_iff, !bool_decide_eq_false.
    destruct (walking m); intuition congruence. }
  split.
  - intros (? & ? & ? & ? & ? & ? & ? & ? & ? & ? & ?). split; [done|]. by split.
  - intros [? []]. tauto.
Qed.

(** C11: the validator is exact.  [Validate] answers [Completed] on a command
    if and only if the command is well formed (nonzero identifier, timeout not
    negative, known type and priority, not from the future and not expired) and
    [Safe] for the robot: supported, connected, no emergency stop or fault unless
    it is a stop command, a consistent posture, enough battery for actuators, a
    standing robot for base motion, and no posture change while walking.  Expiry
    is compared in signed 64-bit nanoseconds, as the code does: for timeouts of at
    most 9223372036854 ms, and clocks that are not negative, this is the
    comparison of the times themselves; longer timeouts wrap around (see
    [long_timeout_expires]). *)
Theorem Validate_exact o c ctx now later :
  (isSuccess (Validate o c ctx now later) = true ↔ well_formed c now later ∧ Safe o c ctx) ∧
  (0 <= timestamp c < 2 ^ 63 → 0 <= later < 2 ^ 63 → 0 <= timeout c <= 9223372036854 →
   (later < timestamp c ∨ elapsed_ns later (timestamp c) < ns_of_ms (timeout c)) ↔
   later < timestamp c + timeout c * 1000000).
Proof.
  split; [apply Validate_success_safe|]. intros Hs Hl Ht. rewrite expiry_compared by done. lia.
Qed.

(** A stop command is never held back by the robot.  With emergency stop
    exemption enabled (the default), a well-formed [Stop] or [EmergencyStop]
    that the robot supports passes validation whenever the robot state is
    known and the robot is connected, whatever the emergency stop, the fault
    code, the posture and the battery are. *)
Theorem Validate_stop_admitted o c ctx now later :
  allowStopDuringEmergencyStop o = true → IsStopCommand (type c) = true →
  well_formed c now later →
  robotStateAvailable ctx = true → capabilitiesAvailable ctx = true →
  Supports (type c) (capabilities ctx) = true → connected (connection (robotState ctx)) = true →
  Validate o c ctx now later = Result StatusCompleted "Command passed safety validation".
Proof.
  intros Hallow Hstop Hwf Hst Hcap Hsup Hconn. apply ValidateHeader_None in Hwf.
  assert (type c = TypeStop ∨ type c = TypeEmergencyStop) as Htype.
  { unfold IsStopCommand in Hstop. do 2 case_bool_decide; naive_solver. }
  unfold Validate. rewrite Hwf, Hst, Hcap, Hsup, Hconn, Hallow, Hstop. simpl.
  rewrite !andb_false_r. unfold ShouldCheckBattery.
  destruct Htype as [-> | ->]; simpl; by rewrite !andb_false_r.
Qed.

Definition faulty_context : SafetyValidationContext :=
  {| robotState := default_RobotState <| connection := mkConnection true |>
       <| health := mkHealth true 7 |> <| motion := mkMotion true true true 0 0 |>
       <| power := mkPower S754_nan false |>;
     capabilities := LegacyAdapterDefaults; robotStateAvailable := true;
     batteryStateAvailable := false; capabilitiesAvailable := true |}.

(** A stop with the longest timeout of the interface, sent at time 1. *)
Definition long_command (ms : Z) : Command :=
  default_Command <| id := 5 |> <| type := TypeStop |> <| timeout := ms |> <| timestamp := 1 |>.

(** The longest timeout expires at once: in nanoseconds it is negative.  The
    longest one that fits does not. *)
Example long_timeout_expires :
  Validate default_SafetyValidatorOptions (long_command (2 ^ 63 - 1)) faulty_context 1 1 =
    Result StatusTimeout "Command expired before safety validation" ∧
  Validate default_SafetyValidatorOptions (long_command 9223372036854) faulty_context 1 1 =
    Result StatusCompleted "Command passed safety validation".
Proof. split; reflexivity. Qed.

Lemma Validate_exact_witness :
  1 < 1 ∨ elapsed_ns 1 1 < ns_of_ms 9223372036854.
Proof.
  apply (proj2 (Validate_exact default_SafetyValidatorOptions (long_command 9223372036854) faulty_context 1 1));
    simpl; lia.
Defined.

Lemma Validate_stop_admitted_witness :
  Validate default_SafetyValidatorOptions
    (default_Command <| id := 5 |> <| type := TypeEmergencyStop |>) faulty_context 100 101 =
  Result StatusCompleted "Command passed safety validation".
Proof. apply Validate_stop_admitted; by vm_compute || (split; vm_compute; done). Defined.

(** Refusals are final.  Whatever the input, the validator's answer is
    [Completed], [Rejected] or [Timeout], and [Timeout] is given exactly when
    a well-formed timed command has used up its time. *)
Theorem Validate_refusals o c ctx now later :
  let r := Validate o c ctx now later in
  (status r = StatusCompleted ∨ status r = StatusRejected ∨ status r = StatusTimeout) ∧
  (status r = StatusTimeout ↔
     id c ≠ 0 ∧ IsKnownCommandType (type c) = true ∧ IsKnownPriority (priority c) = true ∧
     0 < timeout c ∧ timestamp c ≠ 0 ∧ timestamp c <= now ∧ timestamp c <= later ∧
     ns_of_ms (timeout c) <= elapsed_ns later (timestamp c)).
Proof.
  intros r. subst r. unfold Validate.
  destruct (ValidateHeader c now later) as [r|] eqn:Hh; simpl.
  - unfold ValidateHeader, hasTimeout, HasExpired, hasTimeout in Hh. split.
    + guards_in Hh; tauto.
    + guards_in Hh; rewrite ?negb_true_iff, ?negb_false_iff in *; simpl;
        (split; [|by intros; destruct_and?; congruence || lia]);
        intros; repeat split; done || lia.
  - assert (∀ k, status k = StatusCompleted ∨ status k = StatusRejected →
      (status k = StatusCompleted ∨ status k = StatusRejected ∨ status k = StatusTimeout) ∧
      (status k = StatusTimeout ↔ False)) as Hk by (intros k [-> | ->]; naive_solver).
    apply ValidateHeader_None in Hh as [? ? ? ? Htimed].
    assert (∀ P : Prop, ¬ P → P ↔ False) as Hno by tauto.
    rewrite (Hno (id c ≠ 0 ∧ _)).
    + apply Hk. unfold ValidateBattery, ValidateBaseMotion.
      repeat case_match; simplify_eq/=; tauto.
    + intros (? & ? & ? & Ht & ? & ? & ? & ?). destruct (Htimed Ht) as (? & ? & ?). lia.
Qed.
