(* ===== verification/CommandValidation.v ===== *)
(** * What the dispatcher demands of a command

    The checks that [CommandDispatcher] (src/core/CommandDispatcher.cpp)
    makes before a command reaches a robot: identifier, timeout, type,
    priority and time ([ValidateCommand]) and the parameters that each type
    of command takes ([ValidatePayload]).  The second part states the schema
    of the parameters, [payload_ok], and proves that exactly the payloads of
    the schema are accepted. *)

From Stdlib Require Import SpecFloat.
From S2P Require Import Prelude Command RobotState SafetyValidator.

Open Scope Z_scope.

Abbreviation CommandPayload := (gmap string CommandPayloadValue).

(* ------------------------------------------------------------------ *)
(** ** Numbers *)

(** [static_cast<double>] of an integer, rounded to nearest. *)
Definition double_of_int64 (i : Z) : spec_float := binary_normalize 53 1024 i 0 false.

(** [std::numeric_limits<float>], converted to [double]: [2 ^ 128 - 2 ^ 104]. *)
Definition kHighestFloat : spec_float := binary_normalize 53 1024 (2 ^ 24 - 1) 104 false.
Definition kLowestFloat : spec_float := binary_normalize 53 1024 (- (2 ^ 24 - 1)) 104 false.

Definition IsFiniteFloat (value : spec_float) : bool :=
  isfinite value && SFleb kLowestFloat value && SFleb value kHighestFloat.

Definition NumericPayloadValue (payload : CommandPayload) (key : string) : option spec_float :=
  match payload !! key with
  | Some (PayloadDouble d) => Some d
  | Some (PayloadInt i) => Some (double_of_int64 i)
  | Some (PayloadBool _) | Some (PayloadString _) => None
  | None => None
  end.

Definition HasValidNumber (payload : CommandPayload) (key : string) : bool :=
  match NumericPayloadValue payload key with
  | Some value => IsFiniteFloat value
  | None => false
  end.

(** [payload.find(key)] finds a [std::string]. *)
Definition HasString (payload : CommandPayload) (key : string) : bool :=
  match payload !! key with
  | Some (PayloadString _) => true
  | _ => false
  end.

(* ------------------------------------------------------------------ *)
(** ** Parameters of each type of command *)

Definition ValidatePayload (c : Command) : option CommandResult :=
  let payload := payload c in
  match type c with
  | TypeStand | TypeSit | TypeStop | TypeEmergencyStop | TypeHandOpen | TypeHandClose
  | TypeMuteAudio =>
      if negb (bool_decide (size payload = 0%nat)) then
        Some (Result StatusRejected "Command type does not accept payload parameters")
      else None
  | TypeWalk | TypeMove | TypeVelocity =>
      if negb (bool_decide (size payload = 3%nat)) || negb (HasValidNumber payload "linear_x") ||
         negb (HasValidNumber payload "linear_y") || negb (HasValidNumber payload "angular_z")
      then Some (Result StatusRejected
                   "Velocity commands require finite linear_x, linear_y, and angular_z values")
      else None
  | TypeRotate =>
      if negb (bool_decide (size payload = 1%nat)) || negb (HasValidNumber payload "angular_z") then
        Some (Result StatusRejected "Rotate requires one finite angular_z payload value")
      else None
  | TypeGesture =>
      if negb (bool_decide (size payload = 1%nat)) || negb (HasString payload "gesture") then
        Some (Result StatusRejected "Gesture requires one string gesture payload value")
      else None
  | TypePlayAudio =>
      if negb (HasString payload "app_name") || negb (HasString payload "stream_id") ||
         negb (HasString payload "pcm_data")
      then Some (Result StatusRejected
                   "PlayAudio requires string app_name, stream_id, and pcm_data payload values")
      else None
  | TypeStopAudio =>
      if negb (bool_decide (size payload = 1%nat)) || negb (HasString payload "app_name") then
        Some (Result StatusRejected "StopAudio requires one string app_name payload value")
      else None
  | TypeSetVolume =>
      let refusal :=
        Some (Result StatusRejected "SetVolume requires one integer volume payload value") in
      if negb (bool_decide (size payload = 1%nat)) then refusal
      else match payload !! "volume" with
      | Some (PayloadInt volume) =>
          if (volume <? 0) || (100 <? volume) then
            Some (Result StatusRejected "SetVolume volume must be in range [0, 100]")
          else None
      | _ => refusal
      end
  | TypeCustom => None
  | TypeRaw _ => Some (Result StatusRejected "Command type is invalid")
  end.

(** [ValidateCommand] of src/core/CommandDispatcher.cpp *)
Definition ValidateCommand (c : Command) (now : Z) : option CommandResult :=
  if id c =? 0 then Some (Result StatusRejected "Command identifier must be nonzero")
  else if timeout c <? 0 then Some (Result StatusRejected "Command timeout must not be negative")
  else if negb (IsKnownCommandType (type c)) then
    Some (Result StatusRejected "Command type is invalid")
  else if negb (IsKnownPriority (priority c)) then
    Some (Result StatusRejected "Command priority is invalid")
  else
    match (if hasTimeout c then ValidateTimes c now "Command expired before execution" else None) with
    | Some r => Some r
    | None => ValidatePayload c
    end.

(* ------------------------------------------------------------------ *)
(** ** The schema of the parameters *)

(** A number that a [float] of the robot interface can hold. *)
Definition is_number (v : CommandPayloadValue) : bool :=
  match v with
  | PayloadInt i => IsFiniteFloat (double_of_int64 i)
  | PayloadDouble d => IsFiniteFloat d
  | PayloadBool _ | PayloadString _ => false
  end.

Inductive payload_ok : CommandType → CommandPayload → Prop :=
  | ok_plain t :
      t ∈ [TypeStand; TypeSit; TypeStop; TypeEmergencyStop; TypeHandOpen; TypeHandClose;
           TypeMuteAudio] →
      payload_ok t ∅
  | ok_velocity t x y z :
      t ∈ [TypeWalk; TypeMove; TypeVelocity] → is_number x → is_number y → is_number z →
      payload_ok t {[ "linear_x" := x; "linear_y" := y; "angular_z" := z ]}
  | ok_rotate z : is_number z → payload_ok TypeRotate {[ "angular_z" := z ]}
  | ok_gesture g : payload_ok TypeGesture {[ "gesture" := PayloadString g ]}
  | ok_play_audio m app stream pcm :
      m !! "app_name" = Some (PayloadString app) →
      m !! "stream_id" = Some (PayloadString stream) →
      m !! "pcm_data" = Some (PayloadString pcm) →
      payload_ok TypePlayAudio m
  | ok_stop_audio app : payload_ok TypeStopAudio {[ "app_name" := PayloadString app ]}
  | ok_set_volume v : 0 <= v <= 100 → payload_ok TypeSetVolume {[ "volume" := PayloadInt v ]}
  | ok_custom m : payload_ok TypeCustom m.

(** A map of as many entries as a list of distinct bindings it contains. *)
Lemma map_of_bindings (m : CommandPayload) (l : list (string * CommandPayloadValue)) :
  NoDup l.*1 → size m = length l → Forall (λ b, m !! b.1 = Some b.2) l → m = list_to_map l.
Proof.
  intros Hnd Hsize Hl. symmetry. apply map_subseteq_size_eq.
  - apply map_subseteq_spec. intros k v Hk%elem_of_list_to_map_2.
    rewrite Forall_forall in Hl. apply (Hl _ Hk).
  - rewrite map_size_list_to_map; [lia|done].
Qed.

Lemma HasValidNumber_true m k :
  HasValidNumber m k = true ↔ ∃ v, m !! k = Some v ∧ is_number v.
Proof.
  unfold HasValidNumber, NumericPayloadValue. split.
  - destruct (m !! k) as [[]|] eqn:E; try done; intros H; eexists; (split; [done|]);
      by apply Is_true_true.
  - intros (v & -> & Hv%Is_true_true). by destruct v.
Qed.

Lemma HasString_true m k : HasString m k = true ↔ ∃ s, m !! k = Some (PayloadString s).
Proof.
  unfold HasString. split.
  - destruct (m !! k) as [[]|] eqn:E; try done; eauto.
  - by intros [s ->].
Qed.

Lemma size_is m n : negb (bool_decide (size (m : CommandPayload) = n)) = false ↔ size m = n.
Proof. by rewrite negb_false_iff, bool_decide_eq_true. Qed.

(** Reads the tests a payload has passed. *)
Ltac passed_tests :=
  repeat match goal with
  | H : _ || _ = false |- _ => apply orb_false_iff in H as [? ?]
  | H : negb (bool_decide (size _ = _)) = false |- _ => apply size_is in H
  | H : negb (HasValidNumber _ _) = false |- _ =>
      apply negb_false_iff, HasValidNumber_true in H as (? & ? & ?)
  | H : negb (HasString _ _) = false |- _ => apply negb_false_iff, HasString_true in H as (? & ?)
  end.

Lemma payload_singleton m k v : m !! k = Some v → size (m : CommandPayload) = 1%nat → m = {[ k := v ]}.
Proof.
  intros Hk Hsize. rewrite (map_of_bindings m [(k, v)]); [done| |done|by repeat constructor].
  apply NoDup_singleton.
Qed.

Lemma payload_velocity m x y z :
  m !! "linear_x" = Some x → m !! "linear_y" = Some y → m !! "angular_z" = Some z →
  size (m : CommandPayload) = 3%nat →
  m = {[ "linear_x" := x; "linear_y" := y; "angular_z" := z ]}.
Proof.
  intros Hx Hy Hz Hsize.
  rewrite (map_of_bindings m [("linear_x", x); ("linear_y", y); ("angular_z", z)]);
    [done| |done|by repeat constructor].
  by apply (bool_decide_unpack (NoDup ["linear_x"; "linear_y"; "angular_z"])).
Qed.

Lemma ValidatePayload_accepts c : ValidatePayload c = None → payload_ok (type c) (payload c).
Proof.
  unfold ValidatePayload. intros H.
  destruct (type c) eqn:Ht; try done;
    try (case_match; [done|]; passed_tests);
    try match goal with
    | H : size _ = 0%nat |- _ => apply map_size_empty_iff in H as ->; apply ok_plain; set_solver
    | H : size _ = 3%nat |- _ =>
        erewrite (payload_velocity (payload c)) by done; apply ok_velocity; [set_solver|done..]
    end.
  - erewrite (payload_singleton (payload c)) by done. by apply ok_rotate.
  - erewrite (payload_singleton (payload c)) by done. apply ok_gesture.
  - by eapply ok_play_audio.
  - erewrite (payload_singleton (payload c)) by done. apply ok_stop_audio.
  - guards_in H. erewrite (payload_singleton (payload c)) by done. apply ok_set_volume.
    apply orb_false_iff in Hguard0 as [??]. lia.
  - apply ok_custom.
Qed.

Lemma has_number m k v : m !! k = Some v → is_number v → HasValidNumber m k = true.
Proof. intros. apply HasValidNumber_true. eauto. Qed.

Lemma velocity_payload x y z :
  let m : CommandPayload := {[ "linear_x" := x; "linear_y" := y; "angular_z" := z ]} in
  size m = 3%nat ∧ m !! "linear_x" = Some x ∧ m !! "linear_y" = Some y ∧ m !! "angular_z" = Some z.
Proof.
  intros m. subst m. split; [|split_and!; by simplify_map_eq].
  by rewrite !map_size_insert_None, map_size_singleton by (by simplify_map_eq).
Qed.

Lemma ValidatePayload_complete c : payload_ok (type c) (payload c) → ValidatePayload c = None.
Proof.
  unfold ValidatePayload. generalize (type c) (payload c). intros t m H. destruct H as
    [t Ht|t x y z Ht Hx Hy Hz|z Hz|g|m app stream pcm Ha Hs Hp|app|v Hv|m].
  - rewrite map_size_empty. by repeat (apply elem_of_cons in Ht as [->|Ht]; [done|]);
      apply elem_of_nil in Ht.
  - destruct (velocity_payload x y z) as (Hsize & Ex & Ey & Ez).
    generalize dependent (<["linear_x" := x]> (<["linear_y" := y]> {["angular_z" := z]}) :
      CommandPayload). intros m Hsize Ex Ey Ez.
    rewrite Hsize, (has_number _ _ _ Ex Hx), (has_number _ _ _ Ey Hy), (has_number _ _ _ Ez Hz).
    by repeat (apply elem_of_cons in Ht as [->|Ht]; [done|]); apply elem_of_nil in Ht.
  - rewrite map_size_singleton. simpl.
    by rewrite (has_number _ _ _ (lookup_singleton_eq "angular_z" z) Hz).
  - rewrite map_size_singleton. simpl. unfold HasString. by rewrite lookup_singleton_eq.
  - unfold HasString. by rewrite Ha, Hs, Hp.
  - rewrite map_size_singleton. simpl. unfold HasString. by rewrite lookup_singleton_eq.
  - rewrite map_size_singleton, lookup_singleton_eq. simpl.
    destruct (Z.ltb_spec v 0), (Z.ltb_spec 100 v); try done; lia.
  - done.
Qed.

(** A command the dispatcher does not refuse at once is well formed and
    takes the parameters of its type. *)
Lemma ValidatePayload_rejects c r : ValidatePayload c = Some r → status r = StatusRejected.
Proof. unfold ValidatePayload. intros H. by guards_in H. Qed.

Lemma ValidateCommand_None c now :
  ValidateCommand c now = None → well_formed c now now ∧ payload_ok (type c) (payload c).
Proof.
  unfold ValidateCommand, ValidateTimes, hasTimeout. intros H. guards_in H.
  split; [|by apply ValidatePayload_accepts]. apply negb_false_iff in Hguard1, Hguard2.
  split; try done; [lia..|]. guards_in Hguard3; lia.
Qed.

(* ------------------------------------------------------------------ *)
(** ** Properties *)

(** C22: the parameters of a command are accepted exactly when they are those
    its type takes: no parameters, the three velocities, one angular
    velocity, a name, a volume of 0 to 100, and so on, every number finite
    and within the range of a [float].  Everything else is rejected. *)
Theorem ValidatePayload_exact c :
  match ValidatePayload c with
  | None => payload_ok (type c) (payload c)
  | Some r => status r = StatusRejected ∧ ¬ payload_ok (type c) (payload c)
  end.
Proof.
  destruct (ValidatePayload c) as [r|] eqn:E; [|by apply ValidatePayload_accepts].
  split; [by eapply ValidatePayload_rejects|].
  intros H%ValidatePayload_complete. congruence.
Qed.
