(* ===== verification/QueueClient.v ===== *)
(** * What the command queue promises to the owner of its executor

    The dispatcher owns a command queue and supplies its executor.  This file
    states, once for all transitions of the queue, what such an owner relies
    on: tasks keep their commands, the index gains only the identifiers that
    are enqueued, a worker stays at its task until it executes it, and a
    future delivers success only for a command whose execution succeeded. *)

From S2P Require Import Prelude Command Workers TaskStore CommandQueue.

Open Scope Z_scope.

(** The command that a transition may add to the queue. *)
Definition enqueued (l : Label) : option Command :=
  match l with LEnqueue c _ => Some c | _ => None end.

(** The worker that a transition takes away from the task it executes. *)
Definition executes (l : Label) : option nat :=
  match l with LExecute w _ _ _ => Some w | _ => None end.

Definition command_at (q : QueueState) (p : ptr) : option Command := t_command <$> heap q !! p.

Record queue_keeps (l : Label) (q q' : QueueState) : Prop := {
  qk_commands p c : command_at q p = Some c → command_at q' p = Some c;
  qk_new p c : command_at q' p = Some c → command_at q p = Some c ∨ enqueued l = Some c;
  qk_tasks i : tasks q !! i = None → id <$> enqueued l ≠ Some i → tasks q' !! i = None;
  qk_workers w p : executes l ≠ Some w →
    workers q !! w = Some (WorkerExecuting p) → workers q' !! w = Some (WorkerExecuting p);
}.

(** A transition that changes of the heap only what is not a command. *)
Lemma keeps_intro l q q' :
  (∀ p, command_at q' p = command_at q p) →
  (∀ i, tasks q !! i = None → tasks q' !! i = None) →
  (∀ w p, executes l ≠ Some w → workers q !! w = Some (WorkerExecuting p) →
     workers q' !! w = Some (WorkerExecuting p)) →
  queue_keeps l q q'.
Proof. intros Hheap Htasks Hworkers. split; [..|done]; intros; rewrite ?Hheap in *; auto. Qed.

Lemma command_at_insert q p t t' x :
  heap q !! p = Some t → t_command t' = t_command t →
  t_command <$> <[p := t']> (heap q) !! x = command_at q x.
Proof.
  intros Hp Ht. unfold command_at. destruct (decide (p = x)) as [->|].
  - rewrite lookup_insert_eq, Hp. simpl. by rewrite Ht.
  - by rewrite lookup_insert_ne.
Qed.

Lemma set_value_keeps r p q :
  (∀ x, command_at (set_value p r q) x = command_at q x) ∧
  tasks (set_value p r q) = tasks q ∧ workers (set_value p r q) = workers q.
Proof.
  unfold set_value. repeat case_match; (split; [|done]); intros x; try done.
  by eapply command_at_insert.
Qed.

Lemma settle_commands r l : ∀ q,
  let q' := foldl (λ q p, set_value p r q) q l in
  (∀ x, command_at q' x = command_at q x) ∧ tasks q' = tasks q ∧ workers q' = workers q.
Proof.
  induction l as [|p l IH]; intros q; [done|]. simpl.
  destruct (IH (set_value p r q)) as (Hh & -> & ->).
  destruct (set_value_keeps r p q) as (Hh' & -> & ->).
  split; [|done]. intros x. by rewrite <-Hh'.
Qed.

Definition is_executing {R} (pc : WorkerPc R) : bool :=
  match pc with WorkerExecuting _ => true | _ => false end.

(** The worker that moves does not execute a task. *)
Lemma workers_keep {R} (ws : list (WorkerPc R)) w w' pc pc' p :
  ws !! w = Some pc → is_executing pc = false →
  ws !! w' = Some (WorkerExecuting p) → <[w := pc']> ws !! w' = Some (WorkerExecuting p).
Proof.
  intros Hw Hpc Hw'. destruct (decide (w = w')) as [->|].
  - by simplify_eq.
  - by rewrite list_lookup_insert_ne.
Qed.

(** A transition that allocates the task of the enqueued command. *)
Lemma alloc_keeps o l q q' t :
  queue_inv o q → heap q' = <[next_ptr q := t]> (heap q) → enqueued l = Some (t_command t) →
  (∀ i, i ≠ id (t_command t) → tasks q !! i = None → tasks q' !! i = None) →
  workers q' = workers q → queue_keeps l q q'.
Proof.
  intros I Hheap Hl Htasks Hworkers.
  assert (Hfresh : heap q !! next_ptr q = None).
  { by apply (store_fresh_None (qi_store _ _ I)). }
  split; unfold command_at; rewrite ?Hheap, ?Hworkers, ?Hl; [| | |done].
  - intros p c Hp. rewrite lookup_insert_ne; [done|]. intros <-. by rewrite Hfresh in Hp.
  - intros p c. destruct (decide (next_ptr q = p)) as [<-|].
    + rewrite lookup_insert_eq. simpl. auto.
    + rewrite lookup_insert_ne by done. auto.
  - intros i Hi Hne. apply Htasks; simpl in *; congruence.
Qed.

Lemma Enqueue_keeps o c now q :
  queue_inv o q → queue_keeps (LEnqueue c now) q (Enqueue c now q).1.
Proof.
  intros I. unfold Enqueue, refuse. repeat case_match; [by apply keeps_intro|..];
    (eapply (alloc_keeps o); [done|by simpl|done| |done]; simpl; try done).
  intros i Hi Hnone. by rewrite lookup_insert_ne.
Qed.

Lemma Cancel_keeps i q : queue_keeps (LCancel i) q (CommandQueue.Cancel i q).1.
Proof.
  unfold CommandQueue.Cancel. repeat (case_match; [by apply keeps_intro|]).
  repeat case_match; try (by apply keeps_intro).
  all: match goal with |- context [set_value ?p ?r ?x] =>
         destruct (set_value_keeps r p x) as (Hh & Ht & Hw) end.
  all: cbn [fst]; apply keeps_intro; rewrite ?Ht, ?Hw; try done.
  all: intros j Hj; simpl; by apply lookup_delete_None; right.
Qed.

Lemma foldl_delete_None (h : gmap ptr Task) l i : ∀ m : gmap Z ptr,
  m !! i = None →
  foldl (λ m p, match h !! p with
                | Some t => delete (id (t_command t)) m
                | None => m
                end) m l !! i = None.
Proof.
  induction l as [|p l IH]; intros m Hm; [done|]. simpl. apply IH. case_match; [|done].
  by apply lookup_delete_None; right.
Qed.

(** Every transition of the queue keeps these promises. *)
Lemma exec_keeps o q l q' : queue_inv o q → exec q l = Some q' → queue_keeps l q q'.
Proof.
  intros I H. destruct l; simpl in H.
  - simplify_eq. by eapply Enqueue_keeps.
  - simplify_eq. apply Cancel_keeps.
  - simplify_eq. unfold Shutdown_begin. repeat case_match; apply keeps_intro; try done.
    intros i. apply foldl_delete_None.
  - unfold Shutdown_cancel in H. case_match; simplify_eq.
    destruct (settle_commands (Result StatusCancelled "Command cancelled during queue shutdown")
      cancelled_tasks q) as (Hh & Ht & Hw).
    apply keeps_intro; simpl; rewrite ?Ht, ?Hw; done.
  - unfold Shutdown_end in H. guards_in H. by apply keeps_intro.
  - unfold Run_register in H. guards_in H. apply keeps_intro; try done. intros w' p _.
    simpl. eapply workers_keep; eauto.
  - unfold Run_take in H. guards_in H; try (by apply keeps_intro); apply keeps_intro; try done.
    + intros p. unfold command_at. simpl. rewrite lookup_alter. case_decide as Hp; [|done].
      rewrite Hp. by destruct (heap q !! p).
    + intros w' p' _. eapply workers_keep; eauto.
    + intros w' p' _. eapply workers_keep; eauto.
  - unfold Run_execute in H. guards_in H. apply keeps_intro; try done. simpl.
    intros w' p' Hw' Hp. rewrite list_lookup_insert_ne; [done|congruence].
  - unfold Run_record in H. guards_in H. apply keeps_intro; try done; simpl.
    + intros i Hi. by apply lookup_delete_None; right.
    + intros w' p' _. eapply workers_keep; eauto.
  - unfold Run_deliver in H. guards_in H.
    destruct (set_value_keeps r p q) as (Hh & Ht & Hw).
    apply keeps_intro; simpl; rewrite ?Ht, ?Hw; try done.
    intros w' p' _. eapply workers_keep; eauto.
Qed.

(* ------------------------------------------------------------------ *)
(** ** Successful results *)

Section Completed.
Context (P : Command → Prop).

(** Every successful result, delivered or about to be, is of a command of [P]. *)
Record completed_by (q : QueueState) : Prop := {
  cb_promise p t r : heap q !! p = Some t → t_promise t = Some r → isSuccess r = true →
    P (t_command t);
  cb_result w p r : workers q !! w = Some (WorkerFinished p r) ∨
      workers q !! w = Some (WorkerDelivering p r) →
    isSuccess r = true → ∃ c, command_at q p = Some c ∧ P c;
}.

(** A worker that has no successful result to deliver. *)
Definition quiet (pc : WorkerPc CommandResult) : bool :=
  match pc with
  | WorkerFinished _ r | WorkerDelivering _ r => negb (isSuccess r)
  | _ => true
  end.

Lemma quiet_result pc p r :
  pc = WorkerFinished p r ∨ pc = WorkerDelivering p r → quiet pc = true → isSuccess r = false.
Proof. intros [-> | ->]; apply negb_true_iff. Qed.

Lemma set_value_completed p r q :
  completed_by q → (isSuccess r = true → ∃ c, command_at q p = Some c ∧ P c) →
  completed_by (set_value p r q).
Proof.
  intros [Hp Hr] Hok. destruct (set_value_keeps r p q) as (Hh & _ & Hw).
  split; [|intros w x y Hx; rewrite Hh; rewrite Hw in Hx; by apply (Hr w)].
  unfold set_value. destruct (heap q !! p) as [t|] eqn:Et; [|done].
  destruct (t_promise t) eqn:Epr; [done|].
  intros x t' r'. simpl. destruct (decide (p = x)) as [->|].
  - rewrite lookup_insert_eq. intros [= <-] [= <-] (c & Hc & HP)%Hok.
    unfold command_at in Hc. rewrite Et in Hc. by simplify_eq/=.
  - rewrite lookup_insert_ne by done. apply Hp.
Qed.

(** A transition that sets no promise and moves one worker at most. *)
Lemma completed_move q q' w pc :
  completed_by q →
  (∀ p t', heap q' !! p = Some t' → ∃ t, heap q !! p = Some t ∧
     t_promise t = t_promise t' ∧ t_command t = t_command t') →
  (∀ p c, command_at q p = Some c → command_at q' p = Some c) →
  workers q' = <[w := pc]> (workers q) →
  (∀ p r, pc = WorkerFinished p r ∨ pc = WorkerDelivering p r → isSuccess r = true →
     ∃ c, command_at q p = Some c ∧ P c) →
  completed_by q'.
Proof.
  intros [Hp Hr] Hheap Hcommands Hw Hpc. split.
  - intros p t' r Ht' Hr' Hs. destruct (Hheap _ _ Ht') as (t & Ht & Epr & <-).
    eapply Hp; [done| |done]. congruence.
  - intros w' p r Hres Hs.
    assert (∃ c, command_at q p = Some c ∧ P c) as (c & Hc & HP); [|eauto].
    rewrite Hw in Hres. destruct (decide (w = w')) as [->|].
    + destruct (decide (w' < length (workers q))%nat).
      * rewrite list_lookup_insert_eq in Hres by done. apply (Hpc p r); [|done].
        destruct Hres; simplify_eq; auto.
      * rewrite list_insert_ge in Hres by lia. by apply (Hr w' p r).
    + rewrite list_lookup_insert_ne in Hres by done. by apply (Hr w' p r).
Qed.

Lemma completed_same q q' :
  heap q' = heap q → workers q' = workers q → completed_by q → completed_by q'.
Proof.
  intros Hh Hw [Hp Hr]. split; unfold command_at; rewrite ?Hh, ?Hw; done.
Qed.

Lemma completed_alloc o q q' t :
  queue_inv o q → heap q' = <[next_ptr q := t]> (heap q) → workers q' = workers q →
  (∀ r, t_promise t = Some r → isSuccess r = false) → completed_by q → completed_by q'.
Proof.
  intros I Hheap Hw Ht [Hp Hr].
  assert (Hfresh : heap q !! next_ptr q = None).
  { by apply (store_fresh_None (qi_store _ _ I)). }
  split; unfold command_at; rewrite ?Hheap, ?Hw.
  - intros p t' r. destruct (decide (next_ptr q = p)) as [<-|].
    + rewrite lookup_insert_eq. intros [= <-] ->%Ht. done.
    + rewrite lookup_insert_ne by done. apply Hp.
  - intros w p r Hres Hs. destruct (Hr w p r Hres Hs) as (c & Hc & HP). exists c. split; [|done].
    rewrite lookup_insert_ne; [done|]. intros <-. unfold command_at in Hc. by rewrite Hfresh in Hc.
Qed.

Lemma settle_completed r l : isSuccess r = false → ∀ q,
  completed_by q → completed_by (foldl (λ q p, set_value p r q) q l).
Proof.
  intros Hr. induction l as [|p l IH]; intros q Hq; [done|]. simpl. apply IH.
  apply set_value_completed; [done|congruence].
Qed.

Lemma Enqueue_completed o c now q :
  queue_inv o q → completed_by q → completed_by (Enqueue c now q).1.
Proof.
  intros I Hq. unfold Enqueue, refuse. repeat case_match; [by apply (completed_same q)|..];
    (eapply (completed_alloc o); [done|by simpl|done| |done]); simpl; intros r Hr; by simplify_eq.
Qed.

Lemma Cancel_completed i q : completed_by q → completed_by (CommandQueue.Cancel i q).1.
Proof.
  intros Hq. unfold CommandQueue.Cancel. repeat case_match; try done; cbn [fst];
    (apply set_value_completed; [by apply (completed_same q)|done]).
Qed.

(** Executing a task succeeds only if its executor returned success. *)
Lemma ExecuteTask_success c now o later :
  isSuccess (ExecuteTask c now o later) = true →
  HasExpired c now = false ∧ ∃ r, o = Returned r ∧ isSuccess r = true.
Proof.
  unfold ExecuteTask. destruct (HasExpired c now); [done|]. intros H. split; [done|].
  destruct o as [r| |]; [|by guards_in H..].
  exists r. split; [done|]. unfold isSuccess in *. by guards_in H.
Qed.

(** The worker moves to a program point without a new successful result. *)
Lemma completed_advance q q' w pc pc' :
  completed_by q → workers q !! w = Some pc →
  heap q' = heap q → workers q' = <[w := pc']> (workers q) →
  (quiet pc' = true ∨ ∃ p r, pc = WorkerFinished p r ∧ pc' = WorkerDelivering p r) →
  completed_by q'.
Proof.
  intros Hq Hw Hh Hw' Hpc. eapply (completed_move q q' w pc'); [done| | |done|].
  - rewrite Hh. eauto.
  - unfold command_at. by rewrite Hh.
  - intros p r Hres Hs. destruct Hpc as [Hpc|(p' & r' & -> & ->)].
    + pose proof (quiet_result _ _ _ Hres Hpc). congruence.
    + destruct Hres; simplify_eq. eapply (cb_result _ Hq w); eauto.
Qed.

Lemma Run_take_completed w q q' : Run_take w q = Some q' → completed_by q → completed_by q'.
Proof.
  unfold Run_take. intros H Hq. guards_in H.
  - eapply (completed_move q _ w); [done| | |done|intros ??[]; done]; simpl.
    + intros p t'. rewrite lookup_alter. case_decide as Hp; [|by eauto].
      rewrite <-Hp. destruct (heap q !! n0); [|done]. intros [= <-]. eauto.
    + intros p c. unfold command_at. simpl. rewrite lookup_alter. case_decide as Hp; [|by eauto].
      rewrite <-Hp. by destruct (heap q !! n0).
  - eapply (completed_advance q _ w); [done|done|done|done|by left].
Qed.

(** Success is delivered only for what the executor of [P] completed. *)
Lemma exec_completed o q l q' :
  queue_inv o q → exec q l = Some q' →
  (∀ w now r later p c, l = LExecute w now (Returned r) later → isSuccess r = true →
     HasExpired c now = false → workers q !! w = Some (WorkerExecuting p) →
     command_at q p = Some c → P c) →
  completed_by q → completed_by q'.
Proof.
  intros I H Hexec Hq. destruct l; simpl in H.
  - simplify_eq. by eapply Enqueue_completed.
  - simplify_eq. by apply Cancel_completed.
  - simplify_eq. unfold Shutdown_begin. repeat case_match; try done; by apply (completed_same q).
  - unfold Shutdown_cancel in H. case_match; simplify_eq.
    eapply completed_same; [| |by apply (settle_completed
      (Result StatusCancelled "Command cancelled during queue shutdown") cancelled_tasks); eauto];
      done.
  - unfold Shutdown_end in H. guards_in H. by apply (completed_same q).
  - unfold Run_register in H. guards_in H.
    eapply (completed_advance q _ w); [done|done|done|done|by left].
  - by eapply Run_take_completed.
  - unfold Run_execute in H. guards_in H. eapply (completed_move q _ w); [done|by eauto|done|done|].
    intros p' r [[= <- <-]|Hd]; [|done]. intros [Hnow (r & -> & Hr)]%ExecuteTask_success.
    exists (t_command t). unfold command_at. rewrite Hguard0. split; [done|].
    eapply Hexec; try done. unfold command_at. by rewrite Hguard0.
  - unfold Run_record in H. guards_in H.
    eapply (completed_advance q _ w); [done|done|done|done|by eauto].
  - unfold Run_deliver in H. guards_in H.
    assert (completed_by (set_value p r q)) as Hset.
    { apply set_value_completed; [done|]. intros Hr. by apply (cb_result _ Hq w p r); auto. }
    destruct (set_value_keeps r p q) as (_ & _ & Hw).
    eapply (completed_advance (set_value p r q) _ w); [done| |done|done|by left].
    by rewrite Hw.
Qed.

Lemma initial_completed o q : initial true o = inr q → completed_by q.
Proof.
  unfold initial. intros H. guards_in H. split; simpl; [done|].
  intros w p r [H|H]; apply lookup_replicate in H as [? _]; done.
Qed.
End Completed.

Lemma completed_by_mono (P P' : Command → Prop) q :
  (∀ c, P c → P' c) → completed_by P q → completed_by P' q.
Proof.
  intros HP [Hp Hr]. split; [by eauto|]. intros w p r Hres Hs.
  destruct (Hr w p r Hres Hs) as (c & ? & ?). eauto.
Qed.

(* ------------------------------------------------------------------ *)
(** ** Flags *)

(** Only the two ends of [Shutdown] change whether the queue is shutting down
    or shut down. *)
Lemma exec_flags q l q' :
  exec q l = Some q' →
  match l with LShutdownBegin _ | LShutdownEnd => False | _ => True end →
  shutdown_in_progress q' = shutdown_in_progress q ∧ shutdown_complete q' = shutdown_complete q.
Proof.
  assert (Hset : ∀ p r q, shutdown_in_progress (set_value p r q) = shutdown_in_progress q ∧
                          shutdown_complete (set_value p r q) = shutdown_complete q).
  { intros p r q0. unfold set_value. by repeat case_match. }
  intros H Hl. destruct l; try done; simpl in H.
  - simplify_eq. unfold Enqueue, refuse. by repeat case_match.
  - simplify_eq. unfold CommandQueue.Cancel. repeat case_match; try done;
      cbn [fst]; by edestruct Hset as [-> ->].
  - unfold Shutdown_cancel in H. case_match; simplify_eq. simpl.
    assert (∀ r q, let q' := foldl (λ q p, set_value p r q) q cancelled_tasks in
      shutdown_in_progress q' = shutdown_in_progress q ∧
      shutdown_complete q' = shutdown_complete q) as Hall; [|apply Hall].
    intros r. clear -Hset. induction cancelled_tasks as [|p l IH]; intros q; [done|]. simpl.
    destruct (IH (set_value p r q)) as [-> ->]. apply Hset.
  - unfold Run_register in H. by guards_in H.
  - unfold Run_take in H. by guards_in H.
  - unfold Run_execute in H. by guards_in H.
  - unfold Run_record in H. by guards_in H.
  - unfold Run_deliver in H. by guards_in H.
Qed.

(** ** Workers *)

(** A worker leaves only a queue that accepts nothing any more. *)
Definition exits_closed (q : QueueState) : Prop :=
  ∀ w, workers q !! w = Some WorkerExited → accepting q = false.

Lemma exits_keep q q' :
  accepting q' = accepting q → workers q' = workers q → exits_closed q → exits_closed q'.
Proof. unfold exits_closed. by intros -> ->. Qed.

Lemma exits_move q q' w pc :
  accepting q' = accepting q → workers q' = <[w := pc]> (workers q) →
  (pc = WorkerExited → accepting q = false) → exits_closed q → exits_closed q'.
Proof.
  unfold exits_closed. intros -> -> Hpc Hq w' [(_ & -> & _)|[_ H]]%list_lookup_insert_Some; eauto.
Qed.

Lemma set_value_accepting p r q : accepting (set_value p r q) = accepting q.
Proof. unfold set_value. by repeat case_match. Qed.

Lemma settle_accepting r l : ∀ q, accepting (foldl (λ q p, set_value p r q) q l) = accepting q.
Proof. induction l; intros q; [done|]. simpl. by rewrite IHl, set_value_accepting. Qed.

Lemma exec_exits o q l q' :
  queue_inv o q → exec q l = Some q' → exits_closed q → exits_closed q'.
Proof.
  intros I H Hq. destruct l; simpl in H.
  - simplify_eq. unfold Enqueue, refuse. repeat case_match; by apply (exits_keep q).
  - simplify_eq. unfold CommandQueue.Cancel. repeat case_match; try done; cbn [fst].
    all: eapply exits_keep; [by rewrite set_value_accepting|by edestruct set_value_same as (_ & -> & _)
      |by apply (exits_keep q)].
  - simplify_eq. unfold Shutdown_begin. by repeat case_match.
  - unfold Shutdown_cancel in H. case_match; simplify_eq. apply (exits_keep q); [| |done]; simpl.
    + apply settle_accepting.
    + by edestruct settle_all_same as (_ & -> & _).
  - unfold Shutdown_end in H. by guards_in H.
  - unfold Run_register in H. guards_in H. by eapply (exits_move q).
  - unfold Run_take in H. destruct (workers q !! w) as [[]|] eqn:Hw; try done.
    case_match eqn:Hwake; [|done]. destruct (highest_priority q) as [i|].
    + destruct (queue q !! i) as [p|]; [|done]. simplify_eq/=. by eapply (exits_move q).
    + case_match eqn:Hstop; [|by simplify_eq]. simplify_eq. eapply (exits_move q); [done|done| |done].
      intros _. apply orb_true_iff in Hstop as [?|?%negb_true_iff]; [by apply (qi_stop _ _ I)|done].
  - unfold Run_execute in H. guards_in H. by eapply (exits_move q).
  - unfold Run_record in H. guards_in H. by eapply (exits_move q).
  - unfold Run_deliver in H. guards_in H.
    eapply (exits_move (set_value p r q)); [done|done|done|].
    eapply (exits_keep q); [apply set_value_accepting| |done].
    by edestruct set_value_same as (_ & -> & _).
Qed.

Lemma reachable_exits o q : options_ok o → reachable o q → exits_closed q.
Proof.
  intros Ho (q0 & ls & Hinit & Hrun).
  eapply (run_invariant exec (λ q, queue_inv o q ∧ exits_closed q)); [| |done].
  - intros q1 l q2 [I Hq] H. split; [eapply exec_inv; [apply Ho| |]; done|by eapply exec_exits].
  - split; [by apply initial_inv; [apply Ho|]|]. unfold initial in Hinit. guards_in Hinit.
    by intros w [? _]%lookup_replicate.
Qed.
