(* ===== verification/CommandDispatcher.v ===== *)
(** * The command dispatcher

    [CommandDispatcher::Impl] of src/core/CommandDispatcher.cpp: validation,
    synchronous execution on the thread of the client, asynchronous execution
    through a command queue of one worker, the safety check made while the
    adapter is locked, cancellation and shutdown.

    The dispatcher owns a [QueueState] of CommandQueue.v, whose executor is
    [Dispatch]: the transition [LExecute] of the queue is split into the
    program points of that call.  A critical section under [state_mutex_] is
    one transition, with the queue operation it contains; [adapter_mutex_] is
    held over several transitions and therefore a field.

    The adapter is code outside of the repository's core: what it answers to
    [GetCommandCapabilities], [GetRobotState], [GetCapabilities] and
    [ExecuteCommand], exceptions included, is part of the labels.  The ghost
    field [adapter_log] lists the commands handed to it, each with the context
    and the clock of its safety check.  Not modelled: failures of allocation,
    and an adapter that calls the dispatcher other than [Shutdown]. *)

From Stdlib Require Import SpecFloat.
From S2P Require Import Prelude Command Workers TaskStore CommandQueue RobotState.
From S2P Require Import SafetyValidator CommandValidation.

Open Scope Z_scope.

(* ------------------------------------------------------------------ *)
(** ** State *)

Definition LegacySafetyValidator : SafetyValidatorOptions :=
  default_SafetyValidatorOptions
    <| requireBatteryStateForActuatorCommands := false |>
    <| enforceBatteryRange := false |>
    <| rejectRobotFaults := false |>
    <| enforceMotionStateConsistency := false |>
    <| requireStandingForBaseMotion := false |>.

Definition kDispatcherMaximumQueueSize : Z := 1024.

(** Where a call of [Dispatch] stands. *)
Inductive DispatchPc :=
  | DispatchEntered                        (** before its first tests *)
  | DispatchLocking                        (** at [adapter_mutex_] *)
  | DispatchExecuting                      (** inside [ExecuteCommand], locked *)
  | DispatchExecuted (r : CommandResult)   (** unlocked, the adapter's answer known *)
  | DispatchDone (o : Outcome).            (** returned or thrown *)

Inductive CallPc :=
  | Dispatching (d : DispatchPc)           (** registered in [synchronous_ids_] *)
  | Answered (r : CommandResult).          (** [Execute] has returned *)

(** A call of [Execute] that was admitted. *)
Record Call := mkCall { call_command : Command; call_pc : CallPc }.

(** The call of [Dispatch] by the worker of the queue; [wc_now] is the clock
    that [ExecuteTask] read before it. *)
Record WorkerCall := mkWorkerCall { wc_command : Command; wc_now : Z; wc_pc : DispatchPc }.

(** Who is inside [Dispatch]: an admitted [Execute], or the worker. *)
Inductive Caller := SyncCaller (n : nat) | AsyncCaller.

#[export] Instance Caller_eq_dec : EqDecision Caller.
Proof. solve_decision. Defined.

(** The thread that runs [Shutdown]. *)
Inductive DispatcherPhase :=
  | Serving
  | ClosingQueue (caller : ThreadId)       (** before [queue_.Shutdown()] *)
  | WaitingQueue                           (** inside [queue_.Shutdown()] *)
  | Draining (queue_result : CommandResult).

(** A command handed to the adapter. *)
Record AdapterEntry := mkEntry {
  e_command : Command; e_context : SafetyValidationContext; e_now : Z; e_later : Z }.

Record DispatcherState := mkDispatcher {
  adapter_ : bool;                         (** not null *)
  state_manager_ : option RobotStateManager;
  capabilities_ : CommandCapabilitySet;
  safety_validator_ : SafetyValidatorOptions;
  capabilities_overridden_ : bool;
  adapter_mutex_ : option Caller;
  synchronous_ids_ : gset Z;
  accepting_ : bool;
  shutdown_in_progress_ : bool;
  shutdown_complete_ : bool;
  queue_ : QueueState;
  calls : list Call;
  worker_call : option WorkerCall;
  cancelling : list Z;                     (** calls of [Cancel] past their check *)
  phase : DispatcherPhase;
  adapter_log : list AdapterEntry;
}.

#[export] Instance eta_DispatcherState : EtaRecord DispatcherState := fun s =>
  mkDispatcher (adapter_ s) (state_manager_ s) (capabilities_ s) (safety_validator_ s)
    (capabilities_overridden_ s) (adapter_mutex_ s) (synchronous_ids_ s) (accepting_ s)
    (shutdown_in_progress_ s) (shutdown_complete_ s) (queue_ s) (calls s) (worker_call s)
    (cancelling s) (phase s) (adapter_log s).

Definition dispatcher_queue_options : CommandQueueOptions :=
  mkOptions kDispatcherMaximumQueueSize 1.

(** The constructor with all members; the constructor of the queue throws
    nothing for these options, so that [None] is never the value. *)
Definition Impl (adapter : bool) (state_manager : option RobotStateManager)
    (capabilities : CommandCapabilitySet) (safety_validator : SafetyValidatorOptions)
    (capabilities_overridden : bool) : option DispatcherState :=
  match initial true dispatcher_queue_options with
  | inl _ => None
  | inr q => Some
      {| adapter_ := adapter; state_manager_ := state_manager; capabilities_ := capabilities;
         safety_validator_ := safety_validator;
         capabilities_overridden_ := capabilities_overridden; adapter_mutex_ := None;
         synchronous_ids_ := ∅; accepting_ := true; shutdown_in_progress_ := false;
         shutdown_complete_ := false; queue_ := q; calls := []; worker_call := None;
         cancelling := []; phase := Serving; adapter_log := [] |}
  end.

(** The two constructors of the class. *)
Definition Impl_legacy (adapter : bool) : option DispatcherState :=
  Impl adapter None LegacyAdapterDefaults LegacySafetyValidator false.

Definition Impl_injected (adapter : bool) (state_manager : option RobotStateManager)
    (capabilities : CommandCapabilitySet) (safety_validator : SafetyValidatorOptions) :
    option DispatcherState :=
  Impl adapter state_manager capabilities safety_validator true.

(* ------------------------------------------------------------------ *)
(** ** Dispatch *)

(** What the adapter answers to the queries of one safety check; an
    exception is the [what()] of a [std::exception], or [None]. *)
Abbreviation Thrown := (option string).

Record AdapterView := mkView {
  view_capabilities : Thrown + CommandCapabilitySet;   (** [GetCommandCapabilities] *)
  view_state : Thrown + RobotState;                    (** [GetRobotState] *)
  view_supportsPowerState : Thrown + bool;             (** [GetCapabilities] *)
}.

Definition outcome_of_thrown (t : Thrown) : Outcome :=
  match t with Some what => ThrewException what | None => ThrewUnknown end.

(** The context of a robot whose state is read from the adapter. *)
Definition adapter_context (capabilities : CommandCapabilitySet) (v : AdapterView) :
    SafetyValidationContext :=
  match view_state v with
  | inl _ => mkContext default_RobotState capabilities false false true
  | inr st =>
      match view_supportsPowerState v with
      | inl _ => mkContext st capabilities false false true
      | inr supportsPowerState =>
          mkContext st capabilities true
            (supportsPowerState || SFltb (float32_of_Z 0) (batteryLevel (power st))) true
      end
  end.

Definition BuildSafetyContextLocked (v : AdapterView) (s : DispatcherState) :
    Thrown + SafetyValidationContext :=
  match (if capabilities_overridden_ s || negb (adapter_ s) then inr (capabilities_ s)
         else view_capabilities v) with
  | inl t => inl t
  | inr capabilities =>
      match state_manager_ s with
      | Some m => inr (mkContext (GetState m) capabilities true true true)
      | None => inr (adapter_context capabilities v)
      end
  end.

(** The call of [Dispatch] that [who] is in. *)
Definition dispatch_at (who : Caller) (s : DispatcherState) : option (Command * DispatchPc) :=
  match who with
  | SyncCaller n =>
      k ← calls s !! n;
      match call_pc k with Dispatching d => Some (call_command k, d) | Answered _ => None end
  | AsyncCaller => k ← worker_call s; Some (wc_command k, wc_pc k)
  end.

(** The call of [who], of the command [c], moves to [d]. *)
Definition set_dispatch (who : Caller) (c : Command) (d : DispatchPc) (s : DispatcherState) :
    DispatcherState :=
  match who with
  | SyncCaller n => s <| calls ::= insert n (mkCall c (Dispatching d)) |>
  | AsyncCaller => s <| worker_call ::= fmap (λ k, mkWorkerCall c (wc_now k) d) |>
  end.

(** The tests before the lock. *)
Definition Dispatch_enter (who : Caller) (now : Z) (s : DispatcherState) :
    option DispatcherState :=
  match dispatch_at who s with
  | Some (c, DispatchEntered) => Some (set_dispatch who c
      (if negb (adapter_ s) then
         DispatchDone (Returned (Result StatusRejected "Robot adapter dependency is unavailable"))
       else if HasExpired c now then
         DispatchDone (Returned (Result StatusTimeout "Command expired before adapter execution"))
       else DispatchLocking) s)
  | _ => None
  end.

(** What the critical section decides: to return, or to call the adapter. *)
Definition Dispatch_check (c : Command) (now : Z) (v : AdapterView) (safety_now safety_later : Z)
    (s : DispatcherState) : Outcome + SafetyValidationContext :=
  if HasExpired c now then
    inl (Returned (Result StatusTimeout "Command expired before adapter execution"))
  else match BuildSafetyContextLocked v s with
  | inl t => inl (outcome_of_thrown t)
  | inr context =>
      let safety_result := Validate (safety_validator_ s) c context safety_now safety_later in
      if negb (isSuccess safety_result) then inl (Returned safety_result) else inr context
  end.

(** The critical section up to the call of the adapter; it is left at once
    when the command is refused. *)
Definition Dispatch_lock (who : Caller) (now : Z) (v : AdapterView) (safety_now safety_later : Z)
    (s : DispatcherState) : option DispatcherState :=
  match dispatch_at who s, adapter_mutex_ s with
  | Some (c, DispatchLocking), None => Some
      (match Dispatch_check c now v safety_now safety_later s with
       | inl o => set_dispatch who c (DispatchDone o) s
       | inr context =>
           (set_dispatch who c DispatchExecuting s)
             <| adapter_mutex_ := Some who |>
             <| adapter_log ::= (λ l, l ++ [mkEntry c context safety_now safety_later]) |>
       end)
  | _, _ => None
  end.

(** [ExecuteCommand] returns or throws, and the lock is released. *)
Definition Dispatch_executed (who : Caller) (outcome : Outcome) (s : DispatcherState) :
    option DispatcherState :=
  match dispatch_at who s with
  | Some (c, DispatchExecuting) => Some
      ((set_dispatch who c (match outcome with
                          | Returned r => DispatchExecuted r
                          | ThrewException _ | ThrewUnknown => DispatchDone outcome
                          end) s) <| adapter_mutex_ := None |>)
  | _ => None
  end.

(** The test after the critical section. *)
Definition Dispatch_finish (who : Caller) (now : Z) (s : DispatcherState) :
    option DispatcherState :=
  match dispatch_at who s with
  | Some (c, DispatchExecuted r) => Some (set_dispatch who c
      (DispatchDone (Returned
         (if HasExpired c now then Result StatusTimeout "Command completed after its timeout"
          else r))) s)
  | _ => None
  end.

(* ------------------------------------------------------------------ *)
(** ** Client operations *)

(** [Execute] up to its call of [Dispatch]: it returns, or becomes the call
    of this number. *)
Definition Execute_begin (c : Command) (now : Z) (s : DispatcherState) :
    DispatcherState * (CommandResult + nat) :=
  match ValidateCommand c now with
  | Some validation => (s, inl validation)
  | None =>
      if negb (accepting_ s) then
        (s, inl (Result StatusRejected "Command dispatcher is shut down"))
      else if bool_decide (id c ∈ synchronous_ids_ s) || Contains (id c) (queue_ s) then
        (s, inl (Result StatusRejected "Command identifier is already in flight"))
      else
        (s <| synchronous_ids_ ::= union {[ id c ]} |>
           <| calls ::= (λ l, l ++ [mkCall c (Dispatching DispatchEntered)]) |>,
         inr (length (calls s)))
  end.

(** What [Execute] returns after [Dispatch]. *)
Definition execute_result (o : Outcome) : CommandResult :=
  match o with
  | Returned r => r
  | ThrewException what => Result StatusFailed ("Command dispatch failed: " +:+ what)
  | ThrewUnknown => Result StatusFailed "Command dispatch failed with an unknown error"
  end.

(** The destructor of the registration, then the return of [Execute]. *)
Definition ReleaseSynchronous (n : nat) (s : DispatcherState) : option DispatcherState :=
  match dispatch_at (SyncCaller n) s with
  | Some (c, DispatchDone o) => Some
      (s <| synchronous_ids_ ::= (λ ids, ids ∖ {[ id c ]}) |>
         <| calls ::= insert n (mkCall c (Answered (execute_result o))) |>)
  | _ => None
  end.

(** [queue_now] is the clock that [Enqueue] reads. *)
Definition ExecuteAsync (c : Command) (now queue_now : Z) (s : DispatcherState) :
    DispatcherState * Future :=
  match ValidateCommand c now with
  | Some validation => (s, ReadyFuture validation)
  | None =>
      if negb (accepting_ s) then
        (s, ReadyFuture (Result StatusRejected "Command dispatcher is shut down"))
      else if bool_decide (id c ∈ synchronous_ids_ s) then
        (s, ReadyFuture (Result StatusRejected "Command identifier is already in flight"))
      else
        let '(q, future) := Enqueue c queue_now (queue_ s) in (s <| queue_ := q |>, future)
  end.

(** The check of [Cancel]; [None] goes on to the queue. *)
Definition Cancel_check (command_id : Z) (s : DispatcherState) :
    DispatcherState * option CommandResult :=
  if bool_decide (command_id ∈ synchronous_ids_ s) then
    (s, Some (Result StatusRejected "A synchronously executing command cannot be cancelled"))
  else (s <| cancelling ::= (λ l, l ++ [command_id]) |>, None).

Definition Cancel_queue (i : nat) (s : DispatcherState) :
    option (DispatcherState * CommandResult) :=
  command_id ← cancelling s !! i;
  let '(q, r) := CommandQueue.Cancel command_id (queue_ s) in
  Some (s <| queue_ := q |> <| cancelling ::= delete i |>, r).

(* ------------------------------------------------------------------ *)
(** ** Shutdown *)

Definition DispatcherShutdown_begin (caller : ThreadId) (s : DispatcherState) :
    DispatcherState * ShutdownDecision :=
  if shutdown_complete_ s then
    (s, ShutdownReturns (Result StatusCompleted "Command dispatcher is shut down"))
  else if shutdown_in_progress_ s then (s, ShutdownWaits)
  else
    (s <| shutdown_in_progress_ := true |> <| accepting_ := false |>
       <| phase := ClosingQueue caller |>,
     ShutdownOwns).

(** The first critical section of [queue_.Shutdown()]. *)
Definition DispatcherShutdown_queue (s : DispatcherState) : option DispatcherState :=
  match phase s with
  | ClosingQueue caller =>
      match Shutdown_begin caller (queue_ s) with
      | (q, ShutdownReturns r) => Some (s <| queue_ := q |> <| phase := Draining r |>)
      | (_, ShutdownWaits) => None
      | (q, ShutdownOwns) => Some (s <| queue_ := q |> <| phase := WaitingQueue |>)
      end
  | _ => None
  end.

(** [queue_.Shutdown()] returns. *)
Definition DispatcherShutdown_closed (s : DispatcherState) : option DispatcherState :=
  match phase s with
  | WaitingQueue =>
      '(q, r) ← Shutdown_end (queue_ s);
      Some (s <| queue_ := q |> <| phase := Draining r |>)
  | _ => None
  end.

(** The last critical section, once no [Execute] is registered. *)
Definition DispatcherShutdown_end (s : DispatcherState) :
    option (DispatcherState * CommandResult) :=
  match phase s with
  | Draining queue_result =>
      if bool_decide (synchronous_ids_ s = ∅) then
        Some (s <| shutdown_complete_ := true |> <| shutdown_in_progress_ := false |>
                <| phase := Serving |>,
              if negb (isSuccess queue_result) then queue_result
              else Result StatusCompleted "Command dispatcher shut down")
      else None
  | _ => None
  end.

(* ------------------------------------------------------------------ *)
(** ** The worker of the queue *)

(** The task that the worker executes. *)
Definition worker_task (s : DispatcherState) : option Command :=
  match workers (queue_ s) !! 0%nat with
  | Some (WorkerExecuting p) => t_command <$> heap (queue_ s) !! p
  | _ => None
  end.

(** [ExecuteTask] reads the clock and calls its executor, or records that the
    command has expired. *)
Definition Worker_begin (now : Z) (s : DispatcherState) : option DispatcherState :=
  match worker_task s, worker_call s with
  | Some c, None =>
      if HasExpired c now then
        q ← Run_execute 0 now ThrewUnknown now (queue_ s); Some (s <| queue_ := q |>)
      else Some (s <| worker_call := Some (mkWorkerCall c now DispatchEntered) |>)
  | _, _ => None
  end.

(** The executor returns to [ExecuteTask]. *)
Definition Worker_end (later : Z) (s : DispatcherState) : option DispatcherState :=
  match worker_call s with
  | Some k =>
      match wc_pc k with
      | DispatchDone o =>
          q ← Run_execute 0 (wc_now k) o later (queue_ s);
          Some (s <| queue_ := q |> <| worker_call := None |>)
      | _ => None
      end
  | None => None
  end.

(** The transitions of the queue in which the dispatcher has no part. *)
Definition queue_label (l : Label) : bool :=
  match l with
  | LRegister _ | LTake _ | LRecord _ | LDeliver _ | LShutdownCancel => true
  | LEnqueue _ _ | LCancel _ | LShutdownBegin _ | LShutdownEnd | LExecute _ _ _ _ => false
  end.

Definition Queue_step (l : Label) (s : DispatcherState) : option DispatcherState :=
  if queue_label l then q ← CommandQueue.exec (queue_ s) l; Some (s <| queue_ := q |>) else None.

(* ------------------------------------------------------------------ *)
(** ** Interleavings *)

Inductive DispatcherLabel :=
  | DExecute (c : Command) (now : Z)
  | DExecuteAsync (c : Command) (now queue_now : Z)
  | DCancel (command_id : Z)
  | DShutdown (caller : ThreadId)
  | DUpdateState (state : RobotState)
  | DEnter (who : Caller) (now : Z)
  | DLock (who : Caller) (now : Z) (v : AdapterView) (safety_now safety_later : Z)
  | DExecuted (who : Caller) (outcome : Outcome)
  | DFinish (who : Caller) (now : Z)
  | DRelease (n : nat)
  | DCancelQueue (i : nat)
  | DShutdownQueue
  | DShutdownClosed
  | DShutdownEnd
  | DWorkerBegin (now : Z)
  | DWorkerEnd (later : Z)
  | DQueue (l : Label).

Definition dispatcher_exec (s : DispatcherState) (l : DispatcherLabel) : option DispatcherState :=
  match l with
  | DExecute c now => Some (Execute_begin c now s).1
  | DExecuteAsync c now queue_now => Some (ExecuteAsync c now queue_now s).1
  | DCancel command_id => Some (Cancel_check command_id s).1
  | DShutdown caller => Some (DispatcherShutdown_begin caller s).1
  | DUpdateState state => Some (s <| state_manager_ ::= fmap (UpdateState state) |>)
  | DEnter who now => Dispatch_enter who now s
  | DLock who now v safety_now safety_later => Dispatch_lock who now v safety_now safety_later s
  | DExecuted who outcome => Dispatch_executed who outcome s
  | DFinish who now => Dispatch_finish who now s
  | DRelease n => ReleaseSynchronous n s
  | DCancelQueue i => fst <$> Cancel_queue i s
  | DShutdownQueue => DispatcherShutdown_queue s
  | DShutdownClosed => DispatcherShutdown_closed s
  | DShutdownEnd => fst <$> DispatcherShutdown_end s
  | DWorkerBegin now => Worker_begin now s
  | DWorkerEnd later => Worker_end later s
  | DQueue l => Queue_step l s
  end.

(** The states a dispatcher can reach, whatever it was constructed with. *)
Definition dispatcher_reachable (s : DispatcherState) : Prop :=
  ∃ adapter manager capabilities options overridden s0 ls,
    Impl adapter manager capabilities options overridden = Some s0 ∧
    run dispatcher_exec s0 ls = Some s.
