(* ===== verification/DispatcherProofs.v ===== *)
(** * Invariants of the command dispatcher

    What every transition of CommandDispatcher.v keeps: the identifiers in
    flight are distinct ([ids_inv]), the adapter's mutex is held exactly by
    the call that is inside the adapter ([mutex_inv]), every command has the
    parameters of its type and succeeds only through the adapter
    ([commands_inv]), and the flags agree with the phase of the shutdown
    ([phase_inv]).  The transitions of the queue enter through the lemmas of
    QueueClient.v. *)

From Stdlib Require Import SpecFloat.
From S2P Require Import Prelude Command Workers TaskStore CommandQueue QueueClient RobotState.
From S2P Require Import SafetyValidator CommandValidation CommandDispatcher.

Open Scope Z_scope.

(* ------------------------------------------------------------------ *)
(** ** Calls of [Dispatch] *)

Lemma dispatch_at_sync n c d s :
  dispatch_at (SyncCaller n) s = Some (c, d) ↔ calls s !! n = Some (mkCall c (Dispatching d)).
Proof.
  simpl. split.
  - destruct (calls s !! n) as [[c' [d'|r]]|]; naive_solver.
  - by intros ->.
Qed.

Lemma dispatch_at_async c d s :
  dispatch_at AsyncCaller s = Some (c, d) ↔ ∃ now, worker_call s = Some (mkWorkerCall c now d).
Proof.
  simpl. split.
  - destruct (worker_call s) as [[]|]; naive_solver.
  - by intros [now ->].
Qed.

(** What [dispatch_at] reads. *)
Lemma dispatch_at_ext who s s' :
  calls s' = calls s → worker_call s' = worker_call s → dispatch_at who s' = dispatch_at who s.
Proof. intros Hc Hw. destruct who; simpl; by rewrite ?Hc, ?Hw. Qed.

Lemma dispatch_at_set who who' c d0 d s :
  dispatch_at who s = Some (c, d0) →
  dispatch_at who' (set_dispatch who c d s) =
    if decide (who = who') then Some (c, d) else dispatch_at who' s.
Proof.
  destruct who as [n|].
  - intros Hn%dispatch_at_sync. destruct who' as [n'|]; [|done]. simpl.
    pose proof (lookup_lt_Some _ _ _ Hn). case_decide as Heq; simplify_eq.
    + by rewrite list_lookup_insert_eq.
    + rewrite list_lookup_insert_ne; [done|congruence].
  - intros [now Hw]%dispatch_at_async. destruct who' as [n'|]; [done|]. simpl. by rewrite Hw.
Qed.

(** [set_dispatch] moves one caller and nothing else. *)
Lemma set_dispatch_frame who c d s :
  let s' := set_dispatch who c d s in
  adapter_ s' = adapter_ s ∧ state_manager_ s' = state_manager_ s ∧
  capabilities_ s' = capabilities_ s ∧ safety_validator_ s' = safety_validator_ s ∧
  capabilities_overridden_ s' = capabilities_overridden_ s ∧
  adapter_mutex_ s' = adapter_mutex_ s ∧ synchronous_ids_ s' = synchronous_ids_ s ∧
  accepting_ s' = accepting_ s ∧ shutdown_in_progress_ s' = shutdown_in_progress_ s ∧
  shutdown_complete_ s' = shutdown_complete_ s ∧ queue_ s' = queue_ s ∧
  cancelling s' = cancelling s ∧ phase s' = phase s ∧ adapter_log s' = adapter_log s.
Proof. by destruct who. Qed.

(** The identifiers of the calls of [Execute] that have not returned. *)
Definition live_id (k : Call) : option Z :=
  match call_pc k with Dispatching _ => Some (id (call_command k)) | Answered _ => None end.

Definition live_ids (s : DispatcherState) : list Z := omap live_id (calls s).

Lemma live_ids_set who c d0 d s :
  dispatch_at who s = Some (c, d0) → live_ids (set_dispatch who c d s) = live_ids s.
Proof.
  destruct who as [n|]; [|done]. intros Hn%dispatch_at_sync. unfold live_ids. simpl.
  generalize dependent (calls s). intros l. revert n. induction l as [|k l IH]; intros [|n] Hn;
    simplify_eq/=; [done|]. by rewrite (IH n).
Qed.

Lemma live_ids_at n c d s :
  dispatch_at (SyncCaller n) s = Some (c, d) → id c ∈ live_ids s.
Proof.
  intros Hn%dispatch_at_sync. apply list_elem_of_omap.
  exists (mkCall c (Dispatching d)). split; [by eapply list_elem_of_lookup_2|done].
Qed.

(** The call that returns takes its identifier with it. *)
Lemma live_ids_answer n c d r s :
  dispatch_at (SyncCaller n) s = Some (c, d) →
  live_ids s ≡ₚ id c :: omap live_id (<[n := mkCall c (Answered r)]> (calls s)).
Proof.
  intros Hn%dispatch_at_sync. unfold live_ids.
  rewrite (omap_lookup_Permutation _ _ _ _ Hn), (omap_insert_Permutation _ _ _ _ _ Hn).
  simpl. reflexivity.
Qed.

(* ------------------------------------------------------------------ *)
(** ** Identifiers in flight *)

Record ids_inv (s : DispatcherState) : Prop := {
  ii_nodup : NoDup (live_ids s);
  ii_registered i : i ∈ synchronous_ids_ s ↔ i ∈ live_ids s;
  ii_disjoint i : i ∈ synchronous_ids_ s → tasks (queue_ s) !! i = None;
}.

Lemma ids_keep s s' :
  live_ids s' = live_ids s → synchronous_ids_ s' = synchronous_ids_ s →
  (∀ i, i ∈ synchronous_ids_ s → tasks (queue_ s) !! i = None → tasks (queue_ s') !! i = None) →
  ids_inv s → ids_inv s'.
Proof.
  intros Hl Hi Ht [H1 H2 H3]. split; rewrite ?Hl, ?Hi; auto.
Qed.

(* ------------------------------------------------------------------ *)
(** ** The adapter's mutex *)

Record mutex_inv (s : DispatcherState) : Prop := {
  mi_holder who : adapter_mutex_ s = Some who ↔ ∃ c, dispatch_at who s = Some (c, DispatchExecuting);
  mi_worker k : worker_call s = Some k → worker_task s = Some (wc_command k);
}.

(** Nobody enters or leaves the adapter. *)
Lemma mutex_keep s s' :
  adapter_mutex_ s' = adapter_mutex_ s →
  (∀ who c, dispatch_at who s' = Some (c, DispatchExecuting) ↔
            dispatch_at who s = Some (c, DispatchExecuting)) →
  (∀ k, worker_call s' = Some k → worker_task s' = Some (wc_command k)) →
  mutex_inv s → mutex_inv s'.
Proof.
  intros Hm Hd Hw [H1 H2]. split; [|done]. intros who. rewrite Hm, H1.
  split; intros [c Hc]; exists c; by apply Hd.
Qed.

(** The command that a call of [Dispatch] carries does not change. *)
Lemma set_worker_command who c d0 d s k :
  dispatch_at who s = Some (c, d0) → worker_call (set_dispatch who c d s) = Some k →
  ∃ k0, worker_call s = Some k0 ∧ wc_command k = wc_command k0.
Proof.
  destruct who as [n|]; simpl; [by eauto|]. intros Hw. destruct (worker_call s) as [k0|]; [|done].
  intros [= <-]. simplify_eq/=. eauto.
Qed.

Lemma worker_task_ext s s' : queue_ s' = queue_ s → worker_task s' = worker_task s.
Proof. unfold worker_task. by intros ->. Qed.

Lemma inside_or_not d : d = DispatchExecuting ∨ d ≠ DispatchExecuting.
Proof. destruct d; auto. Qed.

(** [who] moves from [d0] to [d]; the holder of the mutex becomes [m]. *)
Lemma mutex_set who c d0 d m s :
  dispatch_at who s = Some (c, d0) →
  (m = Some who ↔ d = DispatchExecuting) →
  (d = DispatchExecuting → adapter_mutex_ s = None) →
  (d ≠ DispatchExecuting → m = if decide (adapter_mutex_ s = Some who) then None
                               else adapter_mutex_ s) →
  mutex_inv s → mutex_inv ((set_dispatch who c d s) <| adapter_mutex_ := m |>).
Proof.
  intros Hd Hm Hfree Hrest [H1 H2]. split.
  - intros who'. cbn [adapter_mutex_ set_field].
    rewrite (dispatch_at_ext who' (set_dispatch who c d s)) by done.
    rewrite (dispatch_at_set _ _ _ _ _ _ Hd). destruct (decide (who = who')) as [<-|].
    + rewrite Hm. split; [intros ->; eauto|naive_solver].
    + rewrite <-H1. destruct (inside_or_not d) as [He|He].
      * rewrite (Hfree He), (proj2 Hm He). naive_solver.
      * rewrite (Hrest He). case_decide; naive_solver.
  - intros k Hk. rewrite (worker_task_ext s) by by destruct who.
    destruct (set_worker_command who c d0 d s k Hd Hk) as (k0 & Hk0 & ->). auto.
Qed.

(* ------------------------------------------------------------------ *)
(** ** Commands and their results *)

(** The commands handed to the adapter so far. *)
Definition handed (s : DispatcherState) : list Command := e_command <$> adapter_log s.

Definition takes_payload (c : Command) : Prop := payload_ok (type c) (payload c).

(** Program points that only a command handed to the adapter reaches. *)
Definition past_adapter (d : DispatchPc) : bool :=
  match d with
  | DispatchExecuting | DispatchExecuted _ => true
  | DispatchDone (Returned r) => isSuccess r
  | _ => false
  end.

(** Program points past the test of the adapter's pointer. *)
Definition needs_adapter (d : DispatchPc) : bool :=
  match d with
  | DispatchLocking | DispatchExecuting | DispatchExecuted _ => true
  | DispatchEntered | DispatchDone _ => false
  end.

Record commands_inv (s : DispatcherState) : Prop := {
  ci_calls n k : calls s !! n = Some k → takes_payload (call_command k);
  ci_tasks p c : command_at (queue_ s) p = Some c → takes_payload c;
  ci_completed : completed_by (λ c, c ∈ handed s) (queue_ s);
  ci_dispatch who c d : dispatch_at who s = Some (c, d) → past_adapter d = true → c ∈ handed s;
  ci_answered n c r : calls s !! n = Some (mkCall c (Answered r)) → isSuccess r = true →
    c ∈ handed s;
  ci_adapter who c d : dispatch_at who s = Some (c, d) → needs_adapter d = true →
    adapter_ s = true;
}.

(** A caller moves; the log may grow. *)
Lemma commands_set who c d0 d s s' :
  dispatch_at who s = Some (c, d0) →
  calls s' = calls (set_dispatch who c d s) →
  worker_call s' = worker_call (set_dispatch who c d s) →
  queue_ s' = queue_ s → adapter_ s' = adapter_ s →
  (∀ c', c' ∈ handed s → c' ∈ handed s') →
  (past_adapter d = true → c ∈ handed s') →
  (needs_adapter d = true → adapter_ s = true) →
  commands_inv s → commands_inv s'.
Proof.
  intros Hd Hcalls Hworker Hq Hadapter Hlog Hpast Hneeds [H1 H2 H3 H4 H5 H6].
  assert (Hcalls' : ∀ n k, calls s' !! n = Some k →
    calls s !! n = Some k ∨ who = SyncCaller n ∧ k = mkCall c (Dispatching d)).
  { intros n k. rewrite Hcalls. destruct who as [m|]; [|by left]. simpl.
    intros [(-> & -> & _)|[? ?]]%list_lookup_insert_Some; auto. }
  assert (Hat : ∀ who' c' d', dispatch_at who' s' = Some (c', d') →
    dispatch_at who' s = Some (c', d') ∨ c' = c ∧ d' = d).
  { intros who' c' d'. rewrite (dispatch_at_ext who' (set_dispatch who c d s)) by done.
    rewrite (dispatch_at_set _ _ _ _ _ _ Hd). case_decide; [intros [= <- <-]; auto|auto]. }
  split; rewrite ?Hq, ?Hadapter.
  - intros n k [Hk|[-> ->]]%Hcalls'; [by eauto|]. apply dispatch_at_sync in Hd. exact (H1 _ _ Hd).
  - done.
  - by eapply completed_by_mono; [|done].
  - intros who' c' d' [?|[-> ->]]%Hat; [by eauto|done].
  - intros n c' r [Hk|[_ ?]]%Hcalls'; [by eauto|done].
  - intros who' c' d' [?|[-> ->]]%Hat; [by eauto|done].
Qed.

(** The queue moves without a new command. *)
Lemma commands_queue s q' :
  (∀ p c, command_at q' p = Some c → command_at (queue_ s) p = Some c) →
  completed_by (λ c, c ∈ handed s) q' →
  commands_inv s → commands_inv (s <| queue_ := q' |>).
Proof.
  intros Hc Hcomp [H1 H2 H3 H4 H5 H6]. split; simpl; eauto.
Qed.

(* ------------------------------------------------------------------ *)
(** ** Flags *)

Record phase_inv (s : DispatcherState) : Prop := {
  pi_accepting : accepting_ s = negb (shutdown_in_progress_ s || shutdown_complete_ s);
  pi_progress : shutdown_in_progress_ s = match phase s with Serving => false | _ => true end;
  pi_complete : shutdown_complete_ s = true → shutdown_in_progress_ s = false;
  pi_queue : shutdown_in_progress (queue_ s) =
             match phase s with WaitingQueue => true | _ => false end;
  pi_draining r : phase s = Draining r →
    isSuccess r = true ∧ shutdown_complete (queue_ s) = true ∨
    r = Result StatusRejected "Command queue cannot be shut down from its executor";
}.

Record dispatcher_inv (s : DispatcherState) : Prop := {
  di_queue : queue_inv dispatcher_queue_options (queue_ s);
  di_ids : ids_inv s;
  di_mutex : mutex_inv s;
  di_commands : commands_inv s;
  di_phase : phase_inv s;
}.

(* ------------------------------------------------------------------ *)
(** ** The queue moves *)

Lemma dispatcher_workers : Z.of_nat (workerCount dispatcher_queue_options) < u64_modulus.
Proof. done. Qed.

(** Everything but the queue, the phase and the flags is the same. *)
Record same_calls (s s' : DispatcherState) : Prop := {
  sc_calls : calls s' = calls s;
  sc_worker : worker_call s' = worker_call s;
  sc_ids : synchronous_ids_ s' = synchronous_ids_ s;
  sc_mutex : adapter_mutex_ s' = adapter_mutex_ s;
  sc_log : adapter_log s' = adapter_log s;
  sc_adapter : adapter_ s' = adapter_ s;
}.

Lemma worker_task_at s c :
  worker_task s = Some c ↔ ∃ p, workers (queue_ s) !! 0%nat = Some (WorkerExecuting p) ∧
                               command_at (queue_ s) p = Some c.
Proof.
  unfold worker_task, command_at. split.
  - intros H. guards_in H. eauto.
  - by intros (p & -> & Hp).
Qed.

Lemma worker_task_keeps s s' l c :
  queue_keeps l (queue_ s) (queue_ s') → executes l = None →
  worker_task s = Some c → worker_task s' = Some c.
Proof.
  intros [Hc _ _ Hw] Hl. rewrite !worker_task_at. intros (p & Hp & Hcp). exists p.
  split; [|by apply Hc]. apply Hw; [congruence|done].
Qed.

Record calls_inv (s : DispatcherState) : Prop := {
  ca_queue : queue_inv dispatcher_queue_options (queue_ s);
  ca_ids : ids_inv s;
  ca_mutex : mutex_inv s;
  ca_commands : commands_inv s;
}.

Lemma commands_ext s s' :
  same_calls s s' → queue_ s' = queue_ s → commands_inv s → commands_inv s'.
Proof.
  intros [Hc Hw Hi Hm Hl Ha] Hq [H1 H2 H3 H4 H5 H6].
  assert (Hh : handed s' = handed s) by (unfold handed; by rewrite Hl).
  assert (Hd : ∀ who, dispatch_at who s' = dispatch_at who s).
  { intros who. by apply dispatch_at_ext. }
  split; rewrite ?Hq, ?Hc, ?Hh, ?Ha; try done; intros who c d; rewrite Hd;
    [apply H4|apply H6].
Qed.

(** A step of the queue that neither enqueues nor executes. *)
Lemma queue_move s s' l :
  dispatcher_inv s → exec (queue_ s) l = Some (queue_ s') →
  enqueued l = None → executes l = None → same_calls s s' → calls_inv s'.
Proof.
  intros [Iq Iids Imutex Icommands _] H Hnew Hexec Hsame.
  pose proof (exec_keeps _ _ _ _ Iq H) as Hk. pose proof Hsame as [Hc Hw Hi Hm Hl Ha].
  split.
  - by eapply exec_inv; [apply dispatcher_workers| |].
  - eapply (ids_keep s); [unfold live_ids; by rewrite Hc|done| |done].
    intros i _ Hi'. eapply (qk_tasks _ _ _ Hk); [done|]. by rewrite Hnew.
  - eapply (mutex_keep s); [done| | |done].
    + intros who c. by rewrite (dispatch_at_ext who s s').
    + intros k. rewrite Hw. intros Hk'%(mi_worker _ Imutex). by eapply worker_task_keeps.
  - apply (commands_ext (s <| queue_ := queue_ s' |>)); [by destruct Hsame|done|].
    apply commands_queue; [| |done].
    + intros p c Hp. destruct (qk_new _ _ _ Hk p c Hp); congruence.
    + eapply exec_completed; [done|done| |apply Icommands]. intros; simplify_eq/=.
Qed.

(* ------------------------------------------------------------------ *)
(** ** Transitions inside [Dispatch] *)

Lemma phase_ext s s' :
  accepting_ s' = accepting_ s → shutdown_in_progress_ s' = shutdown_in_progress_ s →
  shutdown_complete_ s' = shutdown_complete_ s → phase s' = phase s →
  shutdown_in_progress (queue_ s') = shutdown_in_progress (queue_ s) →
  shutdown_complete (queue_ s') = shutdown_complete (queue_ s) →
  phase_inv s → phase_inv s'.
Proof.
  intros Ha Hi Hc Hp Hqi Hqc [H1 H2 H3 H4 H5].
  split; rewrite ?Ha, ?Hi, ?Hc, ?Hp, ?Hqi, ?Hqc; done.
Qed.

(** A caller moves from [d0] to [d]; the mutex and the log become [m], [l]. *)
Lemma dispatch_move who c d0 d m l s :
  dispatch_at who s = Some (c, d0) →
  (m = Some who ↔ d = DispatchExecuting) →
  (d = DispatchExecuting → adapter_mutex_ s = None) →
  (d ≠ DispatchExecuting → m = if decide (adapter_mutex_ s = Some who) then None
                               else adapter_mutex_ s) →
  (past_adapter d = true → past_adapter d0 = true ∨ c ∈ e_command <$> l) →
  (needs_adapter d = true → needs_adapter d0 = true ∨ adapter_ s = true) →
  dispatcher_inv s →
  dispatcher_inv
    ((set_dispatch who c d s) <| adapter_mutex_ := m |> <| adapter_log ::= (λ l0, l0 ++ l) |>).
Proof.
  intros Hd Hm Hfree Hrest Hpast Hneeds [Iq Iids Imutex Icommands Iphase].
  pose proof (mutex_set who c d0 d m s Hd Hm Hfree Hrest Imutex) as Hmutex.
  destruct (set_dispatch_frame who c d s) as
    (Eadapter & _ & _ & _ & _ & _ & Eids & Eacc & Ein & Ecomp & Eq & _ & Eph & Elog).
  split.
  - cbn [queue_ set_field]. by rewrite Eq.
  - eapply (ids_keep s); [|exact Eids| |done].
    + rewrite <-(live_ids_set who c d0 d s Hd). done.
    + intros i _. cbn [queue_ set_field]. by rewrite Eq.
  - eapply mutex_keep; [| | |exact Hmutex]; [done| |].
    + intros who' c'. by erewrite dispatch_at_ext.
    + intros k Hk. rewrite (worker_task_ext ((set_dispatch who c d s) <| adapter_mutex_ := m |>))
        by done. by apply Hmutex.
  - eapply commands_set; [exact Hd|done|done|exact Eq|exact Eadapter| | | |done].
    + unfold handed. cbn [adapter_log set_field]. rewrite Elog, fmap_app. intros c'.
      rewrite elem_of_app. auto.
    + intros [Hp|Hl]%Hpast; unfold handed; cbn [adapter_log set_field];
        rewrite Elog, fmap_app, elem_of_app; [|by right].
      left. by eapply (ci_dispatch _ Icommands).
    + intros [Hp|Ha]%Hneeds; [|done]. by eapply (ci_adapter _ Icommands).
  - eapply phase_ext; [exact Eacc|exact Ein|exact Ecomp|exact Eph| | |done];
      cbn [queue_ set_field]; by rewrite Eq.
Qed.

Lemma set_dispatch_id who c d s :
  (set_dispatch who c d s) <| adapter_mutex_ := adapter_mutex_ s |>
    <| adapter_log ::= (λ l, l ++ []) |> = set_dispatch who c d s.
Proof. destruct who, s; simpl; by rewrite app_nil_r. Qed.

(** A caller outside of the adapter moves, and stays outside. *)
Lemma dispatch_step who c d0 d s :
  dispatch_at who s = Some (c, d0) → d0 ≠ DispatchExecuting → d ≠ DispatchExecuting →
  (past_adapter d = true → past_adapter d0 = true) →
  (needs_adapter d = true → needs_adapter d0 = true ∨ adapter_ s = true) →
  dispatcher_inv s → dispatcher_inv (set_dispatch who c d s).
Proof.
  intros Hd Hd0 Hne Hpast Hneeds I.
  assert (Hno : adapter_mutex_ s ≠ Some who).
  { intros [c' Hc']%(mi_holder _ (di_mutex _ I)). congruence. }
  rewrite <-set_dispatch_id. apply (dispatch_move who c d0); auto.
  - done.
  - by intros ->.
  - by rewrite decide_False.
Qed.

Lemma Dispatch_enter_inv who now s s' :
  dispatcher_inv s → Dispatch_enter who now s = Some s' → dispatcher_inv s'.
Proof.
  intros I. unfold Dispatch_enter. destruct (dispatch_at who s) as [[c d]|] eqn:Hd; [|done].
  destruct d; try done. intros [= <-]. apply (dispatch_step _ _ DispatchEntered); try done;
    [by repeat case_match..|]. destruct (adapter_ s); auto.
Qed.

Lemma Dispatch_finish_inv who now s s' :
  dispatcher_inv s → Dispatch_finish who now s = Some s' → dispatcher_inv s'.
Proof.
  intros I. unfold Dispatch_finish. destruct (dispatch_at who s) as [[c d]|] eqn:Hd; [|done].
  destruct d as [| | |r|]; try done. intros [= <-]. by apply (dispatch_step _ _ (DispatchExecuted r)).
Qed.

(** A refusal in the critical section is never a success. *)
Lemma Dispatch_check_refusal c now v safety_now safety_later s r :
  Dispatch_check c now v safety_now safety_later s = inl (Returned r) → isSuccess r = false.
Proof.
  unfold Dispatch_check, outcome_of_thrown. intros H. guards_in H. by apply negb_true_iff.
Qed.

Lemma Dispatch_lock_inv who now v safety_now safety_later s s' :
  dispatcher_inv s → Dispatch_lock who now v safety_now safety_later s = Some s' →
  dispatcher_inv s'.
Proof.
  intros I. unfold Dispatch_lock. destruct (dispatch_at who s) as [[c d]|] eqn:Hd; [|done].
  destruct d; try done. destruct (adapter_mutex_ s) eqn:Hm; [done|]. intros [= <-].
  destruct (Dispatch_check _ _ _ _ _ _) as [o|context] eqn:Hcheck.
  - apply (dispatch_step _ _ DispatchLocking); try done. simpl. destruct o; try done.
    intros ?. by erewrite Dispatch_check_refusal in *.
  - apply (dispatch_move who c DispatchLocking); try done; [|by left].
    intros _. right. by left.
Qed.

Lemma Dispatch_executed_inv who outcome s s' :
  dispatcher_inv s → Dispatch_executed who outcome s = Some s' → dispatcher_inv s'.
Proof.
  intros I. unfold Dispatch_executed. destruct (dispatch_at who s) as [[c d]|] eqn:Hd; [|done].
  destruct d; try done. intros [= <-].
  assert (Hm : adapter_mutex_ s = Some who) by (apply (di_mutex _ I); eauto).
  match goal with |- dispatcher_inv ?x =>
    replace x with (x <| adapter_log ::= (λ l, l ++ []) |>) end.
  - apply (dispatch_move who c DispatchExecuting); try done; 
      [by destruct outcome..| |by left|by left]. by rewrite decide_True.
  - destruct who, s; simpl; by rewrite app_nil_r.
Qed.

(* ------------------------------------------------------------------ *)
(** ** Client operations *)

(** The flags of a state that differs in its calls and its queue's tasks. *)
Ltac same_dispatch := intros ? ?; by erewrite dispatch_at_ext.
Ltac same_phase s := by apply (phase_ext s).

Lemma Execute_begin_inv c now s :
  dispatcher_inv s → dispatcher_inv (Execute_begin c now s).1.
Proof.
  intros I. unfold Execute_begin. destruct (ValidateCommand c now) as [|] eqn:Hval; [done|].
  destruct (ValidateCommand_None _ _ Hval) as [_ Hpay].
  destruct (negb (accepting_ s)); [done|].
  case_match eqn:Hflight; [done|]. apply orb_false_iff in Hflight as [Hsync Hcont].
  apply bool_decide_eq_false in Hsync. unfold Contains in Hcont.
  apply bool_decide_eq_false, eq_None_not_Some in Hcont.
  destruct I as [Iq [I1 I2 I3] [M1 M2] [C1 C2 C3 C4 C5 C6] Iphase]. simpl.
  set (k := mkCall c (Dispatching DispatchEntered)).
  assert (Hcalls : ∀ n k', (calls s ++ [k]) !! n = Some k' → calls s !! n = Some k' ∨ k' = k).
  { intros n k' [?|[_ Hk]]%lookup_app_Some; [by left|right].
    by apply list_lookup_singleton_Some in Hk as [_ <-]. }
  assert (Hat : ∀ who c' d, dispatch_at who (s <| synchronous_ids_ ::= union {[ id c ]} |>
      <| calls ::= (λ l, l ++ [k]) |>) = Some (c', d) →
      dispatch_at who s = Some (c', d) ∨ c' = c ∧ d = DispatchEntered).
  { intros [n|] c' d; [|by left]. rewrite !dispatch_at_sync. intros [?|E]%Hcalls; [by left|].
    right. unfold k in E. by simplify_eq. }
  split; [done| | | |same_phase s].
  - assert (Hlive : omap live_id (calls s ++ [k]) = live_ids s ++ [id c]).
    { by rewrite omap_app. }
    split; unfold live_ids; simpl; rewrite ?Hlive.
    + apply NoDup_app. split; [done|]. split; [|by apply NoDup_singleton].
      intros i Hi Hic%list_elem_of_singleton. subst i. by apply Hsync, I2.
    + intros i. rewrite elem_of_union, elem_of_app, list_elem_of_singleton, elem_of_singleton, I2.
      tauto.
    + intros i [Hi%elem_of_singleton|Hi]%elem_of_union; [by subst i|by apply I3].
  - split; [|done]. intros who. simpl. rewrite M1. split; intros [c' Hc']; exists c'.
    + destruct who as [n|]; [|done]. rewrite dispatch_at_sync in *. simpl.
      by apply lookup_app_l_Some.
    + by destruct (Hat _ _ _ Hc') as [|[_ ?]].
  - split; simpl; try done.
    + intros n k' [?| ->]%Hcalls; [by eauto|done].
    + intros who c' d [?|[-> ->]]%Hat; [by eapply C4|done].
    + intros n c' r [?|?]%Hcalls; [by eapply C5|done].
    + intros who c' d [?|[-> ->]]%Hat; [by eapply C6|done].
Qed.

Lemma ExecuteAsync_inv c now queue_now s :
  dispatcher_inv s → dispatcher_inv (ExecuteAsync c now queue_now s).1.
Proof.
  intros I. unfold ExecuteAsync. destruct (ValidateCommand c now) as [|] eqn:Hval; [done|].
  destruct (ValidateCommand_None _ _ Hval) as [_ Hpay].
  destruct (negb (accepting_ s)); [done|]. case_bool_decide as Hsync; [done|].
  destruct (Enqueue c queue_now (queue_ s)) as [q f] eqn:Henq. simpl.
  destruct I as [Iq Iids Imutex Icommands Iphase].
  assert (H : exec (queue_ s) (LEnqueue c queue_now) = Some q) by (simpl; by rewrite Henq).
  pose proof (exec_keeps _ _ _ _ Iq H) as Hk.
  pose proof (exec_flags _ _ _ H Logic.I) as [Hqi Hqc].
  split; simpl.
  - by eapply exec_inv; [apply dispatcher_workers| |].
  - eapply (ids_keep s); [done|done| |done]. intros i Hi Hnone.
    apply (qk_tasks _ _ _ Hk); [done|]. simpl. intros [= <-]. done.
  - eapply (mutex_keep s); [done|same_dispatch| |done]. simpl.
    intros k Hk'%(mi_worker _ Imutex). by eapply worker_task_keeps.
  - destruct Icommands as [C1 C2 C3 C4 C5 C6]. split; simpl; try done.
    + intros p c' [Hp|Hp]%(qk_new _ _ _ Hk); [by eapply C2|]. by simplify_eq/=.
    + eapply exec_completed; [done|done| |done]. intros; simplify_eq/=.
  - by apply (phase_ext s); [| | | | | |done].
Qed.

Lemma Cancel_queue_inv i s s' r :
  dispatcher_inv s → Cancel_queue i s = Some (s', r) → dispatcher_inv s'.
Proof.
  intros I. unfold Cancel_queue. destruct (cancelling s !! i) as [command_id|]; [|done]. simpl.
  destruct (CommandQueue.Cancel command_id (queue_ s)) as [q r'] eqn:Hc. intros [= <- <-].
  assert (H : exec (queue_ s) (LCancel command_id) = Some q) by (simpl; by rewrite Hc).
  assert (calls_inv (s <| queue_ := q |> <| cancelling ::= delete i |>)) as [].
  { by apply (queue_move s _ (LCancel command_id)). }
  pose proof (exec_flags _ _ _ H Logic.I) as [Hqi Hqc].
  split; [done..|]. by apply (phase_ext s); [| | | | | |apply I].
Qed.

Lemma ReleaseSynchronous_inv n s s' :
  dispatcher_inv s → ReleaseSynchronous n s = Some s' → dispatcher_inv s'.
Proof.
  intros I. unfold ReleaseSynchronous.
  destruct (dispatch_at (SyncCaller n) s) as [[c d]|] eqn:Hd; [|done].
  destruct d as [| | | |o]; try done. intros [= <-].
  pose proof (live_ids_answer n c _ (execute_result o) s Hd) as Hperm.
  destruct I as [Iq [I1 I2 I3] [M1 M2] [C1 C2 C3 C4 C5 C6] Iphase].
  pose proof Hd as Hn. apply dispatch_at_sync in Hn.
  pose proof (lookup_lt_Some _ _ _ Hn) as Hlt.
  match goal with |- dispatcher_inv ?x => set (s' := x) end.
  assert (Hat : ∀ who c' d, dispatch_at who s' = Some (c', d) ↔
            who ≠ SyncCaller n ∧ dispatch_at who s = Some (c', d)).
  { intros [m|] c' d; [|by naive_solver]. rewrite !dispatch_at_sync. subst s'. simpl.
    destruct (decide (n = m)) as [<-|].
    - rewrite list_lookup_insert_eq by done. naive_solver.
    - rewrite list_lookup_insert_ne by done. naive_solver. }
  split; [done| | | |same_phase s].
  - unfold live_ids in *. rewrite Hperm in I1. apply NoDup_cons in I1 as [Hnin I1].
    split; unfold live_ids; simpl; [done| |].
    + intros i. rewrite elem_of_difference, elem_of_singleton, I2, Hperm, elem_of_cons.
      split; [tauto|]. intros Hi. split; [by right|]. by intros ->.
    + intros i [Hi _]%elem_of_difference. by apply I3.
  - split; [|done]. intros who. simpl. rewrite M1.
    split; intros [c' Hc']; exists c'; [apply Hat|by apply Hat in Hc' as [_ ?]].
    split; [|done]. intros ->. by simplify_eq.
  - split; simpl; try done.
    + intros m k [(<- & <- & _)|[_ Hk]]%list_lookup_insert_Some; [|by eapply C1].
      by apply (C1 _ _ Hn).
    + intros who c' d [_ H]%Hat. by eapply C4.
    + intros m c' r [(<- & [= <- <-] & _)|[_ Hk]]%list_lookup_insert_Some; [|by eapply C5].
      intros Hr. eapply C4; [done|]. simpl. by destruct o.
    + intros who c' d [_ H]%Hat. by eapply C6.
Qed.

(* ------------------------------------------------------------------ *)
(** ** The worker *)

Lemma Worker_begin_inv now s s' :
  dispatcher_inv s → Worker_begin now s = Some s' → dispatcher_inv s'.
Proof.
  intros I. unfold Worker_begin. destruct (worker_task s) as [c|] eqn:Htask; [|done].
  destruct (worker_call s) as [|] eqn:Hcall; [done|].
  destruct I as [Iq Iids Imutex Icommands Iphase].
  destruct (HasExpired c now) eqn:Hexp.
  - destruct (Run_execute 0 now ThrewUnknown now (queue_ s)) as [q|] eqn:Hrun; [|done].
    intros [= <-].
    assert (H : exec (queue_ s) (LExecute 0%nat now ThrewUnknown now) = Some q) by done.
    pose proof (exec_keeps _ _ _ _ Iq H) as Hk. pose proof (exec_flags _ _ _ H Logic.I) as [? ?].
    split; simpl.
    + by eapply exec_inv; [apply dispatcher_workers| |].
    + eapply (ids_keep s); [done|done| |done]. intros i _ Hi. by apply (qk_tasks _ _ _ Hk).
    + eapply (mutex_keep s); [done|same_dispatch| |done]. simpl. by rewrite Hcall.
    + apply commands_queue; [| |done].
      * by intros p c' [|]%(qk_new _ _ _ Hk).
      * eapply exec_completed; [done|done|by intros; simplify_eq|apply Icommands].
    + by apply (phase_ext s); [| | | | | |done].
  - intros [= <-].
    assert (Hat : ∀ who c' d, dispatch_at who
        (s <| worker_call := Some (mkWorkerCall c now DispatchEntered) |>) = Some (c', d) →
        dispatch_at who s = Some (c', d) ∨ d = DispatchEntered).
    { intros [n|] c' d; [by left|]. simpl. intros [= <- <-]. by right. }
    split; [done| | | |same_phase s].
    + by eapply (ids_keep s); [| | |done].
    + eapply (mutex_keep s); [done| | |done].
      * intros [n|] c'; [done|]. simpl. rewrite Hcall. by split.
      * simpl. by intros k [= <-].
    + destruct Icommands as [C1 C2 C3 C4 C5 C6]. split; simpl; try done;
        intros who c' d [?| ->]%Hat; done || by eapply C4 || by eapply C6.
Qed.

Lemma Worker_end_inv later s s' :
  dispatcher_inv s → Worker_end later s = Some s' → dispatcher_inv s'.
Proof.
  intros I. unfold Worker_end. destruct (worker_call s) as [k|] eqn:Hcall; [|done].
  destruct (wc_pc k) as [| | | |o] eqn:Hpc; try done.
  destruct (Run_execute 0 (wc_now k) o later (queue_ s)) as [q|] eqn:Hrun; [|done].
  intros [= <-]. destruct I as [Iq Iids Imutex Icommands Iphase].
  assert (H : exec (queue_ s) (LExecute 0%nat (wc_now k) o later) = Some q) by done.
  pose proof (exec_keeps _ _ _ _ Iq H) as Hk. pose proof (exec_flags _ _ _ H Logic.I) as [? ?].
  assert (Hd : dispatch_at AsyncCaller s = Some (wc_command k, DispatchDone o)).
  { simpl. rewrite Hcall. simpl. by rewrite Hpc. }
  pose proof (mi_worker _ Imutex _ Hcall) as (p & Hp & Hcp)%worker_task_at.
  split; simpl.
  - by eapply exec_inv; [apply dispatcher_workers| |].
  - eapply (ids_keep s); [done|done| |done]. intros i _ Hi. by apply (qk_tasks _ _ _ Hk).
  - eapply (mutex_keep s); [done| |done|done]. intros [n|] c; [done|]. simpl.
    rewrite Hcall. simpl. rewrite Hpc. by split.
  - assert (Icomm' : commands_inv (s <| queue_ := q |>)).
    { apply commands_queue; [| |done].
      - by intros p' c' [|]%(qk_new _ _ _ Hk).
      - eapply exec_completed; [done|done| |apply Icommands].
        intros w now r later' p' c [= <- <- -> <-] Hr _ Hp' Hc'. simplify_eq.
        by eapply (ci_dispatch _ Icommands AsyncCaller). }
    destruct Icomm' as [C1 C2 C3 C4 C5 C6]. split; simpl; try done;
      intros [n|] c d; done || apply (C4 (SyncCaller n)) || apply (C6 (SyncCaller n)).
  - by apply (phase_ext s); [| | | | | |done].
Qed.

(* ------------------------------------------------------------------ *)
(** ** Shutdown *)

Lemma DispatcherShutdown_begin_inv caller s :
  dispatcher_inv s → dispatcher_inv (DispatcherShutdown_begin caller s).1.
Proof.
  intros I. unfold DispatcherShutdown_begin. destruct (shutdown_complete_ s) eqn:Hc; [done|].
  destruct (shutdown_in_progress_ s) eqn:Hp; [done|].
  destruct I as [Iq [] [M1 M2] Icommands [P1 P2 P3 P4 P5]]. rewrite Hp in P2.
  split; simpl; [done|by split| | |].
  - split; [|done]. intros who. simpl. rewrite M1. by destruct who.
  - by apply (commands_ext s).
  - split; simpl; try done; [by rewrite Hc|]. rewrite P4. by destruct (phase s).
Qed.

(** The shutdown moves the queue, itself and its phase. *)
Lemma shutdown_move s q' ph l :
  dispatcher_inv s → exec (queue_ s) l = Some q' → enqueued l = None → executes l = None →
  phase_inv (s <| queue_ := q' |> <| phase := ph |>) →
  dispatcher_inv (s <| queue_ := q' |> <| phase := ph |>).
Proof.
  intros I H Hn He Hph.
  assert (calls_inv (s <| queue_ := q' |> <| phase := ph |>)) as [] by by apply (queue_move s _ l).
  by split.
Qed.

Lemma DispatcherShutdown_queue_inv s s' :
  dispatcher_inv s → DispatcherShutdown_queue s = Some s' → dispatcher_inv s'.
Proof.
  intros I. unfold DispatcherShutdown_queue. destruct (phase s) as [|caller| |] eqn:Hph; try done.
  destruct (Shutdown_begin caller (queue_ s)) as [q d] eqn:Hbegin.
  assert (H : exec (queue_ s) (LShutdownBegin caller) = Some q) by (simpl; by rewrite Hbegin).
  destruct (di_phase _ I) as [P1 P2 P3 P4 P5]. rewrite Hph in *.
  unfold Shutdown_begin in Hbegin. intros Hs.
  repeat (case_match; simplify_eq); (eapply shutdown_move; [done|done|done|done|]);
    split; simpl; rewrite ?Hph; try done.
  all: intros r [= <-]; auto.
Qed.

Lemma DispatcherShutdown_closed_inv s s' :
  dispatcher_inv s → DispatcherShutdown_closed s = Some s' → dispatcher_inv s'.
Proof.
  intros I. unfold DispatcherShutdown_closed. destruct (phase s) as [| | |] eqn:Hph; try done.
  destruct (Shutdown_end (queue_ s)) as [[q r]|] eqn:Hend; [|done]. intros [= <-].
  assert (H : exec (queue_ s) LShutdownEnd = Some q) by (simpl; by rewrite Hend).
  eapply shutdown_move; [done|done|done|done|].
  destruct (di_phase _ I) as [P1 P2 P3 P4 P5]. rewrite Hph in *.
  unfold Shutdown_end in Hend. guards_in Hend. split; simpl; try done.
  intros r [= <-]. by left.
Qed.

Lemma DispatcherShutdown_end_inv s s' r :
  dispatcher_inv s → DispatcherShutdown_end s = Some (s', r) → dispatcher_inv s'.
Proof.
  intros I. unfold DispatcherShutdown_end. destruct (phase s) eqn:Hph; try done.
  case_bool_decide; [|done]. intros [= <- <-].
  destruct I as [Iq [] [M1 M2] Icommands [P1 P2 P3 P4 P5]]. rewrite Hph in *.
  split; simpl; [done|by split| | |].
  - split; [|done]. intros who. simpl. rewrite M1. by destruct who.
  - by apply (commands_ext s).
  - split; simpl; try done. by rewrite P1, P2.
Qed.

Lemma Queue_step_inv l s s' :
  dispatcher_inv s → Queue_step l s = Some s' → dispatcher_inv s'.
Proof.
  intros I. unfold Queue_step. destruct (queue_label l) eqn:Hl; [|done].
  destruct (exec (queue_ s) l) as [q|] eqn:H; [|done]. intros [= <-].
  assert (calls_inv (s <| queue_ := q |>)) as [].
  { apply (queue_move s _ l); by destruct l. }
  pose proof (exec_flags _ _ _ H) as [Hqi Hqc]; [by destruct l|].
  split; [done..|]. by apply (phase_ext s); [| | | | | |apply I].
Qed.

(** Every transition keeps the invariant. *)
Lemma dispatcher_exec_inv s l s' :
  dispatcher_inv s → dispatcher_exec s l = Some s' → dispatcher_inv s'.
Proof.
  intros I. destruct l; simpl; intros H.
  - simplify_eq. by apply Execute_begin_inv.
  - simplify_eq. by apply ExecuteAsync_inv.
  - simplify_eq. unfold Cancel_check. case_bool_decide; [done|].
    destruct I as [Iq [] [M1 M2] Icommands Iphase].
    split; simpl; [done|by split| |by apply (commands_ext s)|same_phase s].
    split; [|done]. intros who. simpl. rewrite M1. by destruct who.
  - simplify_eq. by apply DispatcherShutdown_begin_inv.
  - simplify_eq. destruct I as [Iq [] [M1 M2] Icommands Iphase].
    split; simpl; [done|by split| |by apply (commands_ext s)|same_phase s].
    split; [|done]. intros who'. simpl. rewrite M1. by destruct who'.
  - by eapply Dispatch_enter_inv.
  - by eapply Dispatch_lock_inv.
  - by eapply Dispatch_executed_inv.
  - by eapply Dispatch_finish_inv.
  - by eapply ReleaseSynchronous_inv.
  - destruct (Cancel_queue i s) as [[]|] eqn:E; simplify_eq/=. by eapply Cancel_queue_inv.
  - by eapply DispatcherShutdown_queue_inv.
  - by eapply DispatcherShutdown_closed_inv.
  - destruct (DispatcherShutdown_end s) as [[]|] eqn:E; simplify_eq/=.
    by eapply DispatcherShutdown_end_inv.
  - by eapply Worker_begin_inv.
  - by eapply Worker_end_inv.
  - by eapply Queue_step_inv.
Qed.

Lemma Impl_inv adapter manager capabilities options overridden s :
  Impl adapter manager capabilities options overridden = Some s → dispatcher_inv s.
Proof.
  unfold Impl. destruct (initial true dispatcher_queue_options) as [|q] eqn:Hinit; [done|].
  intros [= <-]. pose proof (initial_inv dispatcher_queue_options q) as Iq.
  split; simpl; [by apply Iq| | | |].
  - split; simpl; [by constructor| |done]. intros i. by rewrite elem_of_empty, elem_of_nil.
  - split; [|done]. intros [n|]; simpl; split; try done; naive_solver.
  - split; simpl; try done.
    + unfold initial in Hinit. by guards_in Hinit.
    + by eapply initial_completed.
    + by intros [n|] c d.
    + by intros [n|] c d.
  - unfold initial in Hinit. by guards_in Hinit.
Qed.

Lemma dispatcher_reachable_inv s : dispatcher_reachable s → dispatcher_inv s.
Proof.
  intros (adapter & manager & capabilities & options & overridden & s0 & ls & Hinit & Hrun).
  eapply (run_invariant dispatcher_exec dispatcher_inv); [|by eapply Impl_inv|done].
  intros ? ? ? ? ?. by eapply dispatcher_exec_inv.
Qed.
