(* ===== verification/DispatcherProperties.v ===== *)
(** * What the command dispatcher guarantees

    Over the invariants of DispatcherProofs.v: the dispatcher drives its queue
    through the operations of CommandQueue.v only ([queue_reachable]), all
    work in flight ends ([in_flight], [dispatcher_progress]), and the
    theorems. *)

From Stdlib Require Import SpecFloat.
From S2P Require Import Prelude Command Workers TaskStore CommandQueue QueueClient RobotState.
From S2P Require Import SafetyValidator CommandValidation CommandDispatcher DispatcherProofs.

Open Scope Z_scope.

(* ------------------------------------------------------------------ *)
(** ** The dispatcher is a client of its queue *)

(** One transition of the dispatcher is at most one of its queue. *)
Lemma dispatcher_queue_step s l s' :
  dispatcher_exec s l = Some s' →
  queue_ s' = queue_ s ∨ ∃ ql, exec (queue_ s) ql = Some (queue_ s').
Proof.
  assert (Hset : ∀ who c d s, queue_ (set_dispatch who c d s) = queue_ s) by by intros [].
  intros H. destruct l; simpl in H.
  - left. simplify_eq. unfold Execute_begin. by repeat case_match.
  - simplify_eq. unfold ExecuteAsync. repeat (case_match; [by left|]).
    destruct (Enqueue c queue_now (queue_ s)) as [q f] eqn:E. right.
    exists (LEnqueue c queue_now). simpl. by rewrite E.
  - left. simplify_eq. unfold Cancel_check. by case_match.
  - left. simplify_eq. unfold DispatcherShutdown_begin. by repeat case_match.
  - left. by simplify_eq.
  - left. unfold Dispatch_enter in H. guards_in H; apply Hset.
  - left. unfold Dispatch_lock in H. guards_in H. case_match; apply Hset.
  - left. unfold Dispatch_executed in H. guards_in H; apply Hset.
  - left. unfold Dispatch_finish in H. guards_in H; apply Hset.
  - left. unfold ReleaseSynchronous in H. by guards_in H.
  - unfold Cancel_queue in H. destruct (cancelling s !! i) as [command_id|]; [|done]. simpl in H.
    destruct (CommandQueue.Cancel command_id (queue_ s)) as [q r] eqn:E. simplify_eq/=.
    right. exists (LCancel command_id). simpl. by rewrite E.
  - unfold DispatcherShutdown_queue in H. destruct (phase s) as [|caller| |]; try done.
    destruct (Shutdown_begin caller (queue_ s)) as [q d] eqn:E.
    right. exists (LShutdownBegin caller). simpl. rewrite E. by destruct d; simplify_eq/=.
  - unfold DispatcherShutdown_closed in H. destruct (phase s); try done.
    destruct (Shutdown_end (queue_ s)) as [[q r]|] eqn:E; [|done]. simplify_eq/=.
    right. exists LShutdownEnd. simpl. by rewrite E.
  - left. unfold DispatcherShutdown_end in H. destruct (phase s); try done.
    by case_bool_decide; simplify_eq/=.
  - unfold Worker_begin in H. destruct (worker_task s); [|done]. destruct (worker_call s); [done|].
    destruct (HasExpired c now); [|left; by simplify_eq].
    destruct (Run_execute 0 now ThrewUnknown now (queue_ s)) as [q|] eqn:E; [|done].
    simplify_eq/=. right. by exists (LExecute 0%nat now ThrewUnknown now).
  - unfold Worker_end in H. destruct (worker_call s) as [k|]; [|done].
    destruct (wc_pc k) as [| | | |o]; try done.
    destruct (Run_execute 0 (wc_now k) o later (queue_ s)) as [q|] eqn:E; [|done].
    simplify_eq/=. right. by exists (LExecute 0%nat (wc_now k) o later).
  - unfold Queue_step in H. destruct (queue_label l); [|done].
    destruct (exec (queue_ s) l) as [q|] eqn:E; [|done]. simplify_eq/=. right. by exists l.
Qed.

Lemma queue_reachable s :
  dispatcher_reachable s → reachable dispatcher_queue_options (queue_ s).
Proof.
  intros (adapter & manager & capabilities & options & overridden & s0 & ls & Hinit & Hrun).
  eapply (run_invariant dispatcher_exec (λ s, reachable dispatcher_queue_options (queue_ s)));
    [| |done].
  - intros s1 l s2 (q0 & ls' & Hq & Hls) [->|[ql Hql]]%dispatcher_queue_step; exists q0.
    + by exists ls'.
    + exists (ls' ++ [ql]). split; [done|]. rewrite run_app, Hls. simpl. by rewrite Hql.
  - unfold Impl in Hinit. destruct (initial true dispatcher_queue_options) as [|q] eqn:E; [done|].
    simplify_eq. exists q, []. by split.
Qed.

(* ------------------------------------------------------------------ *)
(** ** Work in flight *)

(** The transitions that the dispatcher makes on its own, given that the
    adapter returns from its calls. *)
Definition dispatcher_internal (l : DispatcherLabel) : bool :=
  match l with
  | DExecute _ _ | DExecuteAsync _ _ _ | DCancel _ | DShutdown _ | DUpdateState _ => false
  | _ => true
  end.

Definition dispatch_weight (d : DispatchPc) : nat :=
  match d with
  | DispatchEntered => 5
  | DispatchLocking => 4
  | DispatchExecuting => 3
  | DispatchExecuted _ => 2
  | DispatchDone _ => 1
  end.

Definition call_weight (k : Call) : nat :=
  match call_pc k with Dispatching d => dispatch_weight d | Answered _ => 0 end.

(** The task the worker is executing: 6 before the executor is called. *)
Definition executor_weight (s : DispatcherState) : nat :=
  match worker_task s, worker_call s with
  | Some _, None => 6
  | Some _, Some k => dispatch_weight (wc_pc k)
  | None, _ => 0
  end.

Definition dispatcher_phase_weight (ph : DispatcherPhase) : nat :=
  match ph with Serving => 0 | Draining _ => 1 | WaitingQueue => 2 | ClosingQueue _ => 5 end.

(** How many internal transitions the work in flight takes at most. *)
Definition in_flight (s : DispatcherState) : nat :=
  10 * length (queue (queue_ s)) + shutdown_measure (queue_ s) + executor_weight s +
  sum_list (call_weight <$> calls s) + length (cancelling s) + dispatcher_phase_weight (phase s).

Lemma call_weight_set n c d k s :
  dispatch_at (SyncCaller n) s = Some (c, d) →
  (sum_list (call_weight <$> <[n := k]> (calls s)) + dispatch_weight d =
   sum_list (call_weight <$> calls s) + call_weight k)%nat.
Proof.
  intros Hn%dispatch_at_sync. rewrite list_fmap_insert. apply sum_list_insert.
  by rewrite list_lookup_fmap, Hn.
Qed.

(** A caller that goes on has less to do. *)
Lemma in_flight_set who c d0 d s s' :
  dispatcher_inv s → dispatch_at who s = Some (c, d0) →
  (dispatch_weight d < dispatch_weight d0)%nat →
  queue_ s' = queue_ s → calls s' = calls (set_dispatch who c d s) →
  worker_call s' = worker_call (set_dispatch who c d s) →
  cancelling s' = cancelling s → phase s' = phase s →
  (in_flight s' < in_flight s)%nat.
Proof.
  intros I Hd Hlt Hq Hc Hw Hcancel Hph. unfold in_flight, executor_weight.
  rewrite Hc, Hw, Hcancel, Hph, Hq, (worker_task_ext s s') by done. destruct who as [n|]; simpl.
  - pose proof (call_weight_set n c d0 (mkCall c (Dispatching d)) s Hd) as Hsum.
    change (call_weight (mkCall c (Dispatching d))) with (dispatch_weight d) in Hsum. lia.
  - apply dispatch_at_async in Hd as [now Hk].
    rewrite (mi_worker _ (di_mutex _ I) _ Hk), Hk. simpl. lia.
Qed.

(** What a transition of the queue alone does to its own measure: it takes a
    task from the deque, or comes closer to its end. *)
Lemma queue_step_weight q l q' :
  queue_label l = true → exec q l = Some q' →
  (S (length (queue q')) = length (queue q) ∧ shutdown_measure q' = shutdown_measure q + 3)%nat ∨
  queue q' = queue q ∧ (shutdown_measure q' < shutdown_measure q)%nat ∧
  ∀ w p, workers q' !! w = Some (WorkerExecuting p) → workers q !! w = Some (WorkerExecuting p).
Proof.
  assert (Hother : ∀ (ws : list (WorkerPc CommandResult)) w pc w' p, is_executing pc = false →
    <[w := pc]> ws !! w' = Some (WorkerExecuting p) → ws !! w' = Some (WorkerExecuting p)).
  { intros ws w pc w' p Hpc [(_ & -> & _)|[_ H]]%list_lookup_insert_Some; done. }
  assert (Hmove : ∀ w pc, is_executing pc = false → ∀ w' p,
    <[w := pc]> (workers q) !! w' = Some (WorkerExecuting p) →
    workers q !! w' = Some (WorkerExecuting p)) by eauto. clear Hother.
  intros Hl H. destruct l; try done; simpl in H.
  - right. unfold Shutdown_cancel in H. destruct (shutdown_phase q) eqn:Hph; simplify_eq.
    unfold shutdown_measure. simpl.
    edestruct settle_all_same as (-> & -> & _). rewrite Hph. simpl. split_and!; [done|lia|done].
  - right. unfold Run_register in H. guards_in H. split_and!; [done| |by apply Hmove].
    eapply measure_move; done || simpl; lia.
  - unfold Run_take in H. destruct (workers q !! w) as [[]|] eqn:Hw; try done.
    case_match eqn:Hwake; [|done]. destruct (highest_priority q) as [i|] eqn:Hbest.
    + left. destruct (queue q !! i) as [p|] eqn:Hi; [|done]. simplify_eq/=.
      split; [by eapply length_delete_Some|]. unfold shutdown_measure. simpl.
      rewrite list_fmap_insert. pose proof (sum_list_insert (worker_weight <$> workers q) w 1 4)
        as Hsum. rewrite list_lookup_fmap, Hw in Hsum. specialize (Hsum eq_refl). simpl. lia.
    + right. assert (Hq : queue q = []).
      { unfold highest_priority, max_element in Hbest. by destruct (queue q). }
      rewrite Hq in *. simpl in *. rewrite orb_false_r in Hwake. rewrite Hwake in H.
      simplify_eq/=. split_and!; [done| |by apply Hmove]. eapply measure_move; done || simpl; lia.
  - right. unfold Run_record in H. guards_in H. split_and!; [done| |by apply Hmove].
    eapply measure_move; done || simpl; lia.
  - right. unfold Run_deliver in H. guards_in H. destruct (set_value_same p r q) as (-> & Ew & _).
    split_and!; [done| |simpl; rewrite Ew; by apply Hmove].
    eapply (measure_move _ w _ WorkerWaiting); [done| |by rewrite set_value_phase|simpl; lia].
    simpl. by rewrite Ew.
Qed.

Lemma executor_weight_bound s s' l :
  dispatcher_inv s → exec (queue_ s) l = Some (queue_ s') → executes l = None →
  worker_call s' = worker_call s →
  (executor_weight s' <= executor_weight s + 6)%nat ∧
  ((∀ w p, workers (queue_ s') !! w = Some (WorkerExecuting p) →
           workers (queue_ s) !! w = Some (WorkerExecuting p)) →
   executor_weight s' = executor_weight s).
Proof.
  intros I H Hl Hcall. pose proof (exec_keeps _ _ _ _ (di_queue _ I) H) as Hk.
  unfold executor_weight. rewrite Hcall. destruct (worker_task s) as [c|] eqn:Htask.
  { rewrite (worker_task_keeps s s' l c Hk Hl Htask). split; [lia|done]. }
  destruct (worker_call s) as [k|] eqn:Hk'.
  { apply (mi_worker _ (di_mutex _ I)) in Hk'. congruence. }
  destruct (worker_task s') as [c|] eqn:Htask'; (split; [lia|]); [|done]. intros Hexec.
  apply worker_task_at in Htask' as (p & Hp%Hexec & Hc).
  unfold worker_task in Htask. rewrite Hp in Htask.
  destruct (store_live_lookup (qi_store _ _ (di_queue _ I)) p) as (t & Ht & _).
  { rewrite !elem_of_app. pose proof (running_tasks_in _ _ _ p Hp eq_refl). tauto. }
  by rewrite Ht in Htask.
Qed.

(** The queue moves on, and the rest of the dispatcher gets no more to do. *)
Lemma in_flight_queue s s' l :
  dispatcher_inv s → queue_label l = true → exec (queue_ s) l = Some (queue_ s') →
  worker_call s' = worker_call s → calls s' = calls s → cancelling s' = cancelling s →
  phase s' = phase s → (in_flight s' < in_flight s)%nat.
Proof.
  intros I Hl H Hw Hc Hcancel Hph.
  destruct (executor_weight_bound s s' l I H) as [Hle Heq]; [by destruct l|done|].
  unfold in_flight. rewrite Hc, Hcancel, Hph.
  destruct (queue_step_weight _ _ _ Hl H) as [[Hlen Hm]|(-> & Hm & Hex)].
  - lia.
  - rewrite (Heq Hex). lia.
Qed.

(** Executing the task of the worker: the executor has nothing left. *)
Lemma in_flight_execute s q now o later :
  Run_execute 0 now o later (queue_ s) = Some q →
  queue q = queue (queue_ s) ∧ (shutdown_measure q < shutdown_measure (queue_ s))%nat ∧
  ∀ s', queue_ s' = q → executor_weight s' = 0%nat.
Proof.
  unfold Run_execute. intros H. guards_in H. split_and!; [done| |].
  - eapply measure_move; done || simpl; lia.
  - intros s' Hs'. unfold executor_weight, worker_task. rewrite Hs'. simpl.
    pose proof (lookup_lt_Some _ _ _ Hguard). by rewrite list_lookup_insert_eq.
Qed.

Lemma shutdown_begin_weight caller q q' d :
  Shutdown_begin caller q = (q', d) → shutdown_phase q = NoShutdown →
  (length (queue q') <= length (queue q))%nat ∧ workers q' = workers q ∧
  (shutdown_measure q' <= shutdown_measure q + match d with ShutdownOwns => 2 | _ => 0 end)%nat.
Proof.
  unfold Shutdown_begin, shutdown_measure. intros H Hph.
  repeat (case_match; simplify_eq/=; [by rewrite Nat.add_0_r|]). simplify_eq/=.
  rewrite Hph. split_and!; [lia|done|simpl; lia].
Qed.

Lemma executor_weight_workers s s' :
  dispatcher_inv s → workers (queue_ s') = workers (queue_ s) →
  (∀ p c, command_at (queue_ s') p = Some c → command_at (queue_ s) p = Some c) →
  worker_call s' = worker_call s → (executor_weight s' <= executor_weight s)%nat.
Proof.
  intros I Hw Hc Hk. unfold executor_weight. rewrite Hk.
  destruct (worker_task s') as [c|] eqn:Htask; [|lia].
  apply worker_task_at in Htask as (p & Hp & Hcp). rewrite Hw in Hp.
  by rewrite (proj2 (worker_task_at s c)) by eauto.
Qed.

Lemma cancel_weight i q :
  let q' := (CommandQueue.Cancel i q).1 in
  (length (queue q') <= length (queue q))%nat ∧ shutdown_measure q' = shutdown_measure q ∧
  workers q' = workers q.
Proof.
  unfold CommandQueue.Cancel, shutdown_measure. simpl.
  repeat case_match; try done; cbn [fst]; rewrite set_value_phase;
    match goal with |- context [set_value ?p ?r ?x] =>
      destruct (set_value_same p r x) as (-> & -> & _) end;
    (split; [|done]); simpl; apply length_erase_value.
Qed.

(** Before [queue_.Shutdown()] nobody shuts the queue down. *)
Lemma closing_queue s caller :
  dispatcher_inv s → phase s = ClosingQueue caller → shutdown_phase (queue_ s) = NoShutdown.
Proof.
  intros I Hph. pose proof (pi_queue _ (di_phase _ I)) as Hq.
  rewrite Hph, (qi_phase _ _ (di_queue _ I)) in Hq. by destruct (shutdown_phase (queue_ s)).
Qed.

Lemma dispatcher_decreases s l s' :
  dispatcher_inv s → dispatcher_internal l = true → dispatcher_exec s l = Some s' →
  (in_flight s' < in_flight s)%nat.
Proof.
  intros I Hl H. destruct l; try done; simpl in H.
  - unfold Dispatch_enter in H. destruct (dispatch_at who s) as [[c d]|] eqn:Hd; [|done].
    destruct d; simplify_eq. eapply in_flight_set; try done; [repeat case_match; simpl; lia|..];
      by destruct who.
  - unfold Dispatch_lock in H. destruct (dispatch_at who s) as [[c d]|] eqn:Hd; [|done].
    destruct d; try done. destruct (adapter_mutex_ s); [done|]. simplify_eq.
    destruct (Dispatch_check _ _ _ _ _ _);
      (eapply in_flight_set; [done|done| |by destruct who..]; simpl; lia).
  - unfold Dispatch_executed in H. destruct (dispatch_at who s) as [[c d]|] eqn:Hd; [|done].
    destruct d; simplify_eq. eapply in_flight_set; try done; [case_match; simpl; lia|..];
      by destruct who.
  - unfold Dispatch_finish in H. destruct (dispatch_at who s) as [[c d]|] eqn:Hd; [|done].
    destruct d; simplify_eq. eapply in_flight_set; try done; [simpl; lia|..]; by destruct who.
  - unfold ReleaseSynchronous in H.
    destruct (dispatch_at (SyncCaller n) s) as [[c d]|] eqn:Hd; [|done].
    destruct d as [| | | |o]; simplify_eq.
    pose proof (call_weight_set n c _ (mkCall c (Answered (execute_result o))) s Hd) as Hsum.
    change (call_weight (mkCall c (Answered (execute_result o)))) with 0%nat in Hsum.
    unfold in_flight, executor_weight, worker_task. simpl in *. lia.
  - unfold Cancel_queue in H. destruct (cancelling s !! i) as [command_id|] eqn:Hi; [|done].
    simpl in H. destruct (CommandQueue.Cancel command_id (queue_ s)) as [q r] eqn:E.
    simplify_eq/=. pose proof (length_delete_Some _ _ _ Hi).
    assert (Hexec : exec (queue_ s) (LCancel command_id) = Some q) by (simpl; by rewrite E).
    destruct (executor_weight_bound s (s <| queue_ := q |> <| cancelling ::= delete i |>)
      (LCancel command_id) I) as [_ Heq]; [exact Hexec|done|done|].
    destruct (cancel_weight command_id (queue_ s)) as (Hlen & Hm & Hw). rewrite E in *. simpl in *.
    unfold in_flight. simpl. rewrite Heq; [lia|]. intros w p. by rewrite Hw.
  - unfold DispatcherShutdown_queue in H. destruct (phase s) as [|caller| |] eqn:Hph; try done.
    destruct (Shutdown_begin caller (queue_ s)) as [q d] eqn:E.
    destruct (shutdown_begin_weight _ _ _ _ E (closing_queue s caller I Hph)) as (Hlen & Hw & Hm).
    assert (Hexec : exec (queue_ s) (LShutdownBegin caller) = Some q) by (simpl; by rewrite E).
    pose proof (executor_weight_workers s (s <| queue_ := q |>) I Hw) as Hex.
    assert ((executor_weight (s <| queue_ := q |>) <= executor_weight s)%nat).
    { apply Hex; [|done].
      by intros p c [|]%(qk_new _ _ _ (exec_keeps _ _ _ _ (di_queue _ I) Hexec)). }
    assert (Hs' : ∀ ph, executor_weight (s <| queue_ := q |> <| phase := ph |>) =
                         executor_weight (s <| queue_ := q |>)) by done.
    generalize dependent (executor_weight (s <| queue_ := q |>)). intros n _ Hn Hs'.
    destruct d; simplify_eq; unfold in_flight; rewrite Hs'; simpl; rewrite Hph; simpl; lia.
  - unfold DispatcherShutdown_closed in H. destruct (phase s) eqn:Hph; try done.
    destruct (Shutdown_end (queue_ s)) as [[q r]|] eqn:E; [|done].
    unfold Shutdown_end in E. guards_in E. unfold in_flight, shutdown_measure.
    match goal with |- (_ + _ + executor_weight ?x + _ + _ + _ < _)%nat =>
      change (executor_weight x) with (executor_weight s) end.
    simpl. rewrite Hph, Hguard. simpl. lia.
  - unfold DispatcherShutdown_end in H. destruct (phase s) eqn:Hph; try done.
    case_bool_decide; simplify_eq/=.
    unfold in_flight, executor_weight, worker_task. simpl. rewrite Hph. simpl. lia.
  - unfold Worker_begin in H. destruct (worker_task s) as [c|] eqn:Htask; [|done].
    destruct (worker_call s) eqn:Hcall; [done|]. destruct (HasExpired c now).
    + destruct (Run_execute 0 now ThrewUnknown now (queue_ s)) as [q|] eqn:E; [|done].
      simplify_eq/=. destruct (in_flight_execute _ _ _ _ _ E) as (Hq & Hm & Hzero).
      unfold in_flight. rewrite Hzero by done. simpl. rewrite Hq. lia.
    + simplify_eq. unfold in_flight, executor_weight. rewrite Hcall.
      rewrite (worker_task_ext s) by done. rewrite Htask. simpl. lia.
  - unfold Worker_end in H. destruct (worker_call s) as [k|] eqn:Hcall; [|done].
    destruct (wc_pc k) as [| | | |o] eqn:Hpc; try done.
    destruct (Run_execute 0 (wc_now k) o later (queue_ s)) as [q|] eqn:E; [|done].
    simplify_eq/=. destruct (in_flight_execute _ _ _ _ _ E) as (Hq & Hm & Hzero).
    unfold in_flight. rewrite Hzero by done. simpl. rewrite Hq. lia.
  - unfold Queue_step in H. destruct (queue_label l) eqn:Hql; [|done].
    destruct (exec (queue_ s) l) as [q|] eqn:E; [|done]. simplify_eq/=.
    by eapply in_flight_queue.
Qed.

(* ------------------------------------------------------------------ *)
(** ** Something can always be done *)

Definition can_move (s : DispatcherState) : Prop :=
  ∃ l, dispatcher_internal l = true ∧ is_Some (dispatcher_exec s l).

(** What keeps no client waiting: every [Execute] has returned, every future
    has its value, no [Cancel] and no [Shutdown] is under way. *)
Definition settled (s : DispatcherState) : Prop :=
  (∀ n k, calls s !! n = Some k → ∃ r, call_pc k = Answered r) ∧
  (∀ p t, heap (queue_ s) !! p = Some t → is_Some (t_promise t)) ∧
  cancelling s = [] ∧ shutdown_in_progress_ s = false.

Definition quiet_view : AdapterView := mkView (inl None) (inl None) (inl None).

(** No caller of [Dispatch] is stuck: it moves, or the one that holds the
    mutex does. *)
Lemma dispatch_moves s who c d :
  dispatcher_inv s → dispatch_at who s = Some (c, d) → who = AsyncCaller ∧ (∃ o, d = DispatchDone o) ∨
  can_move s.
Proof.
  intros I Hd. destruct d as [| | |r|o].
  - right. exists (DEnter who 0). split; [done|]. simpl. unfold Dispatch_enter. rewrite Hd. eauto.
  - right. destruct (adapter_mutex_ s) as [who'|] eqn:Hm.
    + pose proof (proj1 (mi_holder _ (di_mutex _ I) who') Hm) as [c' Hc'].
      exists (DExecuted who' ThrewUnknown). split; [done|]. simpl. unfold Dispatch_executed.
      rewrite Hc'. eauto.
    + exists (DLock who 0 quiet_view 0 0). split; [done|]. simpl. unfold Dispatch_lock.
      rewrite Hd, Hm. eauto.
  - right. exists (DExecuted who ThrewUnknown). split; [done|]. simpl. unfold Dispatch_executed.
    rewrite Hd. eauto.
  - right. exists (DFinish who 0). split; [done|]. simpl. unfold Dispatch_finish. rewrite Hd. eauto.
  - destruct who as [n|]; [right|left; eauto]. exists (DRelease n). split; [done|].
    cbn [dispatcher_exec]. unfold ReleaseSynchronous. rewrite Hd. eauto.
Qed.

Lemma call_moves s n c d :
  dispatcher_inv s → calls s !! n = Some (mkCall c (Dispatching d)) → can_move s.
Proof.
  intros I Hn. apply dispatch_at_sync in Hn. by destruct (dispatch_moves _ _ _ _ I Hn) as [[]|].
Qed.

Lemma queue_moves s l :
  queue_label l = true → is_Some (exec (queue_ s) l) → can_move s.
Proof.
  intros Hl [q Hq]. exists (DQueue l). split; [done|]. simpl. unfold Queue_step.
  rewrite Hl, Hq. simpl. eauto.
Qed.

(** The worker moves unless it sleeps or has left. *)
Lemma worker_moves s pc :
  dispatcher_inv s → workers (queue_ s) !! 0%nat = Some pc → pc ≠ WorkerExited →
  (pc = WorkerWaiting → queue (queue_ s) ≠ [] ∨ accepting (queue_ s) = false) → can_move s.
Proof.
  intros I Hw Hpc Hwake. pose proof (qi_store _ _ (di_queue _ I)) as Istore.
  destruct pc as [| |p|p r|p r|]; [| | | | |done].
  - apply (queue_moves s (LRegister 0)); [done|]. simpl. unfold Run_register. rewrite Hw. eauto.
  - apply (queue_moves s (LTake 0)); [done|]. simpl. unfold Run_take. rewrite Hw.
    destruct (highest_priority (queue_ s)) as [i|] eqn:Hbest.
    + apply (max_element_spec _
        (H := key_strict_weak_order (task_priority (queue_ s)))) in Hbest as (p & Hi & _).
      rewrite bool_decide_eq_false_2 by (intros Hq; by rewrite Hq in Hi).
      rewrite orb_true_r, Hi. simpl. eauto.
    + assert (Hq : queue (queue_ s) = []).
      { unfold highest_priority, max_element in Hbest. by destruct (queue (queue_ s)). }
      destruct (Hwake eq_refl) as [|Hacc]; [done|]. rewrite Hacc, !orb_true_r. simpl. eauto.
  - pose proof (running_tasks_in _ _ _ p Hw eq_refl) as Hr.
    destruct (store_live_lookup Istore p) as (t & Ht & _); [rewrite !elem_of_app; tauto|].
    assert (Htask : worker_task s = Some (t_command t)).
    { unfold worker_task. by rewrite Hw, Ht. }
    assert (Hrun : ∀ now o later, is_Some (Run_execute 0 now o later (queue_ s))).
    { intros. unfold Run_execute. rewrite Hw, Ht. simpl. eauto. }
    destruct (worker_call s) as [k|] eqn:Hk.
    + destruct (dispatch_moves s AsyncCaller (wc_command k) (wc_pc k) I) as [[_ [o Ho]]|]; [|  |done].
      { simpl. by rewrite Hk. }
      exists (DWorkerEnd 0). split; [done|]. simpl. unfold Worker_end. rewrite Hk, Ho.
      destruct (Hrun (wc_now k) o 0) as [q ->]. simpl. eauto.
    + exists (DWorkerBegin 0). split; [done|]. simpl. unfold Worker_begin. rewrite Htask, Hk.
      case_match; [|eauto]. destruct (Hrun 0 ThrewUnknown 0) as [q ->]. simpl. eauto.
  - pose proof (running_tasks_in _ _ _ p Hw eq_refl) as Hr.
    destruct (store_live_lookup Istore p) as (t & Ht & _); [rewrite !elem_of_app; tauto|].
    apply (queue_moves s (LRecord 0)); [done|]. simpl. unfold Run_record. rewrite Hw, Ht. simpl. eauto.
  - apply (queue_moves s (LDeliver 0)); [done|]. simpl. unfold Run_deliver. rewrite Hw. eauto.
Qed.

Lemma one_worker s : dispatcher_inv s → ∃ pc, workers (queue_ s) = [pc].
Proof.
  intros I. pose proof (qi_workers _ _ (di_queue _ I)) as Hlen. simpl in Hlen.
  destruct (workers (queue_ s)) as [|pc [|]]; try done. by exists pc.
Qed.

(** A task that has no result is waiting, held by the worker, or withdrawn. *)
Lemma unset_promise_moves s p t :
  dispatcher_inv s → exits_closed (queue_ s) →
  heap (queue_ s) !! p = Some t → t_promise t = None → can_move s.
Proof.
  intros I Hexit Ht Hpr. pose proof (di_queue _ I) as Iq. pose proof (qi_store _ _ Iq) as Istore.
  destruct (one_worker s I) as [pc Hws].
  assert (Hw : workers (queue_ s) !! 0%nat = Some pc) by by rewrite Hws.
  assert (Hlive : p ∈ queue (queue_ s) ++ running_tasks (workers (queue_ s)) ++
            delivering_tasks (workers (queue_ s)) ++ withdrawn (queue_ s)).
  { apply (si_live _ _ _ _ _ _ _ Istore). eauto. }
  rewrite Hws, !elem_of_app in Hlive. destruct Hlive as [Hin|[Hin|[Hin|Hin]]].
  - apply (worker_moves s pc I Hw).
    + intros ->. apply Hexit, (qi_closed _ _ Iq) in Hw. rewrite Hw in Hin. by apply elem_of_nil in Hin.
    + intros _. left. intros Hq. rewrite Hq in Hin. by apply elem_of_nil in Hin.
  - by destruct pc; apply (worker_moves s _ I Hw); try done; apply elem_of_nil in Hin.
  - by destruct pc; apply (worker_moves s _ I Hw); try done; apply elem_of_nil in Hin.
  - unfold withdrawn in Hin. destruct (shutdown_phase (queue_ s)) eqn:Hph;
      try by apply elem_of_nil in Hin.
    apply (queue_moves s LShutdownCancel); [done|]. simpl. unfold Shutdown_cancel. rewrite Hph. eauto.
Qed.

Lemma shutdown_moves s :
  dispatcher_inv s → shutdown_in_progress_ s = true →
  (∀ n k, calls s !! n = Some k → ∃ r, call_pc k = Answered r) → can_move s.
Proof.
  intros I Hin Hcalls. destruct (di_phase _ I) as [P1 P2 P3 P4 P5]. rewrite Hin in P2.
  destruct (one_worker s I) as [pc Hws]. pose proof (di_queue _ I) as Iq.
  destruct (phase s) as [|caller| |r] eqn:Hph; [done| | |].
  - exists DShutdownQueue. split; [done|]. simpl. unfold DispatcherShutdown_queue. rewrite Hph.
    unfold Shutdown_begin. rewrite P4. repeat case_match; simplify_eq; eauto.
  - pose proof (qi_phase _ _ Iq) as Hq. rewrite P4 in Hq.
    destruct (shutdown_phase (queue_ s)) as [|l|] eqn:Hqp; [done| |].
    { apply (queue_moves s LShutdownCancel); [done|]. simpl. unfold Shutdown_cancel.
      rewrite Hqp. eauto. }
    destruct (decide (has_exited pc = true)) as [Hex|Hex].
    + exists DShutdownClosed. split; [done|]. simpl. unfold DispatcherShutdown_closed, Shutdown_end.
      rewrite Hph, Hqp, Hws. unfold all_exited. simpl. rewrite Hex. simpl. eauto.
    + apply (worker_moves s pc I); [by rewrite Hws|by intros ->|]. intros _. right.
      by rewrite (qi_accepting _ _ Iq), P4.
  - exists DShutdownEnd. split; [done|]. simpl. unfold DispatcherShutdown_end. rewrite Hph.
    rewrite bool_decide_eq_true_2; [simpl; eauto|].
    apply set_eq. intros i. rewrite (ii_registered _ (di_ids _ I)), elem_of_empty. split; [|done].
    intros (k & [n Hk]%list_elem_of_lookup & Hi)%list_elem_of_omap.
    destruct (Hcalls n k Hk) as [a Ha]. unfold live_id in Hi. by rewrite Ha in Hi.
Qed.

Lemma dispatcher_progress s : dispatcher_inv s → exits_closed (queue_ s) → settled s ∨ can_move s.
Proof.
  intros I Hexit.
  destruct (decide (Forall (λ k, live_id k = None) (calls s))) as [Hcalls|Hcalls].
  2: { right. apply not_Forall_Exists in Hcalls; [|apply _].
       apply Exists_exists in Hcalls as ([c [d|r]] & Hk & Hlive); [|by destruct Hlive].
       apply list_elem_of_lookup in Hk as [n Hn]. by eapply call_moves. }
  assert (Hans : ∀ n k, calls s !! n = Some k → ∃ r, call_pc k = Answered r).
  { intros n [c [d|r]] Hk; [|eauto]. by apply (Forall_lookup_1 _ _ _ _ Hcalls) in Hk. }
  destruct (cancelling s) as [|command_id l] eqn:Hcancel.
  2: { right. exists (DCancelQueue 0). split; [done|]. simpl. unfold Cancel_queue.
       rewrite Hcancel. simpl. destruct (CommandQueue.Cancel _ _). simpl. eauto. }
  destruct (shutdown_in_progress_ s) eqn:Hin; [right; by apply shutdown_moves|].
  destruct (decide (map_Forall (λ _ t, t_promise t ≠ None) (heap (queue_ s)))) as [Hheap|Hheap].
  - left. split_and!; try done. intros p t Ht. apply not_eq_None_Some. by apply (Hheap p).
  - right. apply map_not_Forall in Hheap as (p & t & Ht & Hpr); [|apply _].
    apply dec_stable in Hpr. by eapply unset_promise_moves.
Qed.

(* ------------------------------------------------------------------ *)
(** ** A scenario

    A connected robot that stands.  A client executes [Stand] on its own
    thread while the worker takes an asynchronous [Stop]; both reach the
    adapter, one after the other, and the dispatcher is shut down. *)

Definition scenario_robot : RobotState :=
  default_RobotState
    <| connection := mkConnection true |>
    <| power := mkPower (float32_of_Z 80) false |>
    <| motion := mkMotion true false false 0 0 |>.

Definition scenario_dispatcher : DispatcherState :=
  match Impl_injected true (Some (mkRobotStateManager scenario_robot)) LegacyAdapterDefaults
          default_SafetyValidatorOptions with
  | Some s => s
  | None => mkDispatcher false None LegacyAdapterDefaults LegacySafetyValidator false None ∅ false
              false false empty_state [] None [] Serving []
  end.

Definition stand_command : Command := default_Command <| id := 1 |> <| type := TypeStand |>.
Definition stop_command : Command := default_Command <| id := 2 |> <| type := TypeStop |>.
Definition done_result : CommandResult := Result StatusCompleted "done".

Definition scenario_dispatch : list DispatcherLabel :=
  [DExecute stand_command 0; DExecuteAsync stop_command 0 0; DQueue (LRegister 0%nat);
   DQueue (LTake 0%nat); DWorkerBegin 0; DEnter AsyncCaller 0; DEnter (SyncCaller 0) 0].

Definition scenario_adapter : list DispatcherLabel :=
  [DExecuted (SyncCaller 0) (Returned done_result); DLock AsyncCaller 0 quiet_view 0 0;
   DExecuted AsyncCaller (Returned done_result)].

Definition scenario_close : list DispatcherLabel :=
  [DShutdown (ClientThread 0); DShutdownQueue; DQueue LShutdownCancel;
   DFinish AsyncCaller 0; DWorkerEnd 0; DQueue (LRecord 0%nat); DQueue (LDeliver 0%nat);
   DQueue (LTake 0%nat); DShutdownClosed; DFinish (SyncCaller 0) 0; DRelease 0].

Definition scenario_lock : DispatcherLabel := DLock (SyncCaller 0) 0 quiet_view 0 0.

Definition dispatched (ls : list DispatcherLabel) : DispatcherState :=
  default scenario_dispatcher (run dispatcher_exec scenario_dispatcher ls).

Lemma dispatched_reachable ls :
  is_Some (run dispatcher_exec scenario_dispatcher ls) → dispatcher_reachable (dispatched ls).
Proof.
  intros [s Hs]. exists true, (Some (mkRobotStateManager scenario_robot)), LegacyAdapterDefaults,
    default_SafetyValidatorOptions, true, scenario_dispatcher, ls.
  split; [done|]. unfold dispatched. by rewrite Hs.
Qed.

Example scenario_runs :
  is_Some (run dispatcher_exec scenario_dispatcher
    (scenario_dispatch ++ [scenario_lock] ++ scenario_adapter ++ scenario_close ++ [DShutdownEnd])).
Proof. vm_compute. eauto. Qed.

(* ------------------------------------------------------------------ *)
(** ** Properties *)

Lemma dispatcher_options_ok : options_ok dispatcher_queue_options.
Proof. by vm_compute. Qed.

Lemma dispatch_command_ok s who c d :
  dispatcher_inv s → dispatch_at who s = Some (c, d) → takes_payload c.
Proof.
  intros I Hd. destruct who as [n|].
  - apply dispatch_at_sync in Hd. apply (ci_calls _ (di_commands _ I) _ _ Hd).
  - apply dispatch_at_async in Hd as [now Hk].
    apply (mi_worker _ (di_mutex _ I)), worker_task_at in Hk as (p & _ & Hp).
    apply (ci_tasks _ (di_commands _ I) _ _ Hp).
Qed.

(** Two elements that [f] keeps with the same value are one. *)
Lemma omap_NoDup_inj {A B} (f : A → option B) (l : list A) i j x y z :
  NoDup (omap f l) → l !! i = Some x → l !! j = Some y → f x = Some z → f y = Some z → i = j.
Proof.
  intros Hnd Hi Hj Hx Hy. destruct (decide (i = j)) as [|Hne]; [done|exfalso].
  rewrite (omap_lookup_Permutation f l i x Hi), Hx in Hnd. simpl in Hnd.
  apply NoDup_cons in Hnd as [Hnin _]. apply Hnin, list_elem_of_omap. exists y. split; [|done].
  apply list_elem_of_lookup. destruct (decide (j < i)%nat).
  - exists j. by rewrite list_lookup_delete_lt.
  - exists (pred j). rewrite list_lookup_delete_ge by lia. by replace (S (pred j)) with j by lia.
Qed.

(** The only transition that reaches the adapter. *)
Lemma adapter_log_grows s l s' :
  dispatcher_exec s l = Some s' →
  adapter_log s' = adapter_log s ∨
  ∃ who c now v safety_now safety_later context,
    l = DLock who now v safety_now safety_later ∧ dispatch_at who s = Some (c, DispatchLocking) ∧
    adapter_mutex_ s = None ∧ adapter_mutex_ s' = Some who ∧
    Dispatch_check c now v safety_now safety_later s = inr context ∧
    adapter_log s' = adapter_log s ++ [mkEntry c context safety_now safety_later].
Proof.
  assert (Hset : ∀ who c d s, adapter_log (set_dispatch who c d s) = adapter_log s) by by intros [].
  intros H. destruct l; simpl in H; try (left; by simplify_eq).
  - left. simplify_eq. unfold Execute_begin. by repeat case_match.
  - left. simplify_eq. unfold ExecuteAsync. repeat (case_match; [done|]). by case_match.
  - left. simplify_eq. unfold Cancel_check. by case_match.
  - left. simplify_eq. unfold DispatcherShutdown_begin. by repeat case_match.
  - left. unfold Dispatch_enter in H. guards_in H; apply Hset.
  - unfold Dispatch_lock in H. destruct (dispatch_at who s) as [[c d]|] eqn:Hd; [|done].
    destruct d; try done. destruct (adapter_mutex_ s) eqn:Hm; [done|]. simplify_eq.
    destruct (Dispatch_check _ _ _ _ _ _) as [o|context] eqn:Hcheck; [left; apply Hset|right].
    exists who, c, now, v, safety_now, safety_later, context. cbn [adapter_log set_field].
    by rewrite Hset.
  - left. unfold Dispatch_executed in H. guards_in H; apply Hset.
  - left. unfold Dispatch_finish in H. guards_in H; apply Hset.
  - left. unfold ReleaseSynchronous in H. by guards_in H.
  - left. unfold Cancel_queue in H. by guards_in H.
  - left. unfold DispatcherShutdown_queue in H. by guards_in H.
  - left. unfold DispatcherShutdown_closed in H. by guards_in H.
  - left. unfold DispatcherShutdown_end in H. by guards_in H.
  - left. unfold Worker_begin in H. by guards_in H.
  - left. unfold Worker_end in H. by guards_in H.
  - left. unfold Queue_step in H. by guards_in H.
Qed.

(** C2: nothing unsafe reaches the robot.  Under every interleaving, the
    adapter is asked to execute a command only by a caller that takes the
    adapter's mutex, of an adapter that exists, after checking, with the
    mutex held, that the command has the parameters of its type, has not
    expired and is [Safe] in the context just built from the state of the
    robot; and the mutex stays with that caller. *)
Theorem dispatcher_hands_over_safe s l s' :
  dispatcher_reachable s → dispatcher_exec s l = Some s' →
  adapter_log s' = adapter_log s ∨
  ∃ who c now v safety_now safety_later context,
    adapter_log s' = adapter_log s ++ [mkEntry c context safety_now safety_later] ∧
    l = DLock who now v safety_now safety_later ∧
    adapter_mutex_ s = None ∧ adapter_mutex_ s' = Some who ∧ adapter_ s = true ∧
    payload_ok (type c) (payload c) ∧ HasExpired c now = false ∧
    BuildSafetyContextLocked v s = inr context ∧
    well_formed c safety_now safety_later ∧ Safe (safety_validator_ s) c context.
Proof.
  intros I%dispatcher_reachable_inv H.
  destruct (adapter_log_grows _ _ _ H) as
    [?|(who & c & now & v & sn & sl & context & -> & Hd & Hm & Hm' & Hcheck & Hlog)]; [by left|right].
  exists who, c, now, v, sn, sl, context.
  pose proof (dispatch_command_ok _ _ _ _ I Hd) as Hpay.
  pose proof (ci_adapter _ (di_commands _ I) _ _ _ Hd eq_refl) as Hadapter.
  unfold Dispatch_check in Hcheck. destruct (HasExpired c now); [done|].
  destruct (BuildSafetyContextLocked v s) as [|context'] eqn:Hctx; [done|].
  destruct (negb _) eqn:Hsafe; simplify_eq.
  apply negb_false_iff, Validate_success_safe in Hsafe as [Hwf Hsafe]. by split_and!.
Qed.

Lemma dispatcher_hands_over_safe_witness :
  let s := dispatched scenario_dispatch in
  let s' := dispatched (scenario_dispatch ++ [scenario_lock]) in
  adapter_log s' = adapter_log s ∨
  ∃ who c now v safety_now safety_later context,
    adapter_log s' = adapter_log s ++ [mkEntry c context safety_now safety_later] ∧
    scenario_lock = DLock who now v safety_now safety_later ∧
    adapter_mutex_ s = None ∧ adapter_mutex_ s' = Some who ∧ adapter_ s = true ∧
    payload_ok (type c) (payload c) ∧ HasExpired c now = false ∧
    BuildSafetyContextLocked v s = inr context ∧
    well_formed c safety_now safety_later ∧ Safe (safety_validator_ s) c context.
Proof.
  intros s s'. apply (dispatcher_hands_over_safe s scenario_lock s').
  - apply dispatched_reachable. vm_compute. eauto.
  - vm_compute. reflexivity.
Defined.

(** Commands run one at a time.  Under every interleaving no two commands with the
    same identifier are inside [Dispatch], whether a client executes them or
    the worker, at most one caller is inside the adapter, and the identifier
    of a client's command is not outstanding in the queue. *)
Theorem dispatcher_distinct s who who' c c' d d' :
  dispatcher_reachable s →
  dispatch_at who s = Some (c, d) → dispatch_at who' s = Some (c', d') →
  (id c = id c' ∨ d = DispatchExecuting ∧ d' = DispatchExecuting → who = who') ∧
  (∀ n, who = SyncCaller n → Contains (id c) (queue_ s) = false).
Proof.
  intros I%dispatcher_reachable_inv Hd Hd'.
  assert (Hsync : ∀ n c d, dispatch_at (SyncCaller n) s = Some (c, d) →
            tasks (queue_ s) !! id c = None).
  { intros n c0 d0 H0%live_ids_at. by apply (ii_disjoint _ (di_ids _ I)), (ii_registered _ (di_ids _ I)). }
  assert (Hasync : ∀ c d, dispatch_at AsyncCaller s = Some (c, d) →
            is_Some (tasks (queue_ s) !! id c)).
  { intros c0 d0 [now Hk]%dispatch_at_async.
    apply (mi_worker _ (di_mutex _ I)), worker_task_at in Hk as (p & Hw & Hp). simpl in Hp.
    unfold command_at in Hp. destruct (heap (queue_ s) !! p) as [t|] eqn:Ht; simplify_eq/=.
    exists p. apply (store_index_key (qi_store _ _ (di_queue _ I))); [|done].
    apply elem_of_app. right. by eapply running_tasks_in. }
  split; [|intros n ->; unfold Contains; by rewrite (Hsync _ _ _ Hd)].
  intros [Hid|[-> ->]].
  - destruct who as [n|], who' as [n'|]; [|exfalso..|done].
    + f_equal. apply dispatch_at_sync in Hd, Hd'.
      by eapply (omap_NoDup_inj live_id _ _ _ _ _ (id c) (ii_nodup _ (di_ids _ I))); [..|rewrite Hid].
    + destruct (Hasync _ _ Hd') as [p Hp]. rewrite <-Hid, (Hsync _ _ _ Hd) in Hp. done.
    + destruct (Hasync _ _ Hd) as [p Hp]. rewrite Hid, (Hsync _ _ _ Hd') in Hp. done.
  - assert (H1 : adapter_mutex_ s = Some who) by (apply (di_mutex _ I); eauto).
    assert (H2 : adapter_mutex_ s = Some who') by (apply (di_mutex _ I); eauto). congruence.
Qed.

Lemma dispatcher_distinct_witness :
  let s := dispatched (scenario_dispatch ++ [scenario_lock]) in
  (id stand_command = id stop_command ∨
     DispatchExecuting = DispatchExecuting ∧ DispatchLocking = DispatchExecuting →
     SyncCaller 0 = AsyncCaller) ∧
  (∀ n, SyncCaller 0 = SyncCaller n → Contains (id stand_command) (queue_ s) = false).
Proof.
  intros s. apply (dispatcher_distinct s (SyncCaller 0) AsyncCaller stand_command stop_command
    DispatchExecuting DispatchLocking).
  - apply dispatched_reachable. vm_compute. eauto.
  - vm_compute. reflexivity.
  - vm_compute. reflexivity.
Defined.

(** Success is the adapter's.  Under every interleaving, a command whose
    [Execute] returned [Completed], and one whose future delivers
    [Completed], was handed to the adapter: no check, cancellation, timeout,
    exception or shutdown is ever reported as a success. *)
Theorem dispatcher_success_executed s :
  dispatcher_reachable s →
  (∀ n c r, calls s !! n = Some (mkCall c (Answered r)) → isSuccess r = true → c ∈ handed s) ∧
  (∀ p t r, heap (queue_ s) !! p = Some t → t_promise t = Some r → isSuccess r = true →
            t_command t ∈ handed s).
Proof.
  intros I%dispatcher_reachable_inv%di_commands.
  split; [apply (ci_answered _ I)|apply (ci_completed _ I)].
Qed.

Lemma dispatcher_success_executed_witness :
  let s := dispatched (scenario_dispatch ++ [scenario_lock] ++ scenario_adapter ++ scenario_close) in
  (∀ n c r, calls s !! n = Some (mkCall c (Answered r)) → isSuccess r = true → c ∈ handed s) ∧
  (∀ p t r, heap (queue_ s) !! p = Some t → t_promise t = Some r → isSuccess r = true →
            t_command t ∈ handed s).
Proof.
  intros s. apply (dispatcher_success_executed s). apply dispatched_reachable. vm_compute. eauto.
Defined.

Lemma ids_empty_answered s :
  ids_inv s → synchronous_ids_ s = ∅ →
  ∀ n k, calls s !! n = Some k → ∃ r, call_pc k = Answered r.
Proof.
  intros I Hempty n [c [d|r]] Hk; [|by eauto]. exfalso.
  apply (not_elem_of_empty (C := gset Z) (id c)). rewrite <-Hempty.
  apply (ii_registered _ I). by apply (live_ids_at n c d), dispatch_at_sync.
Qed.

(** A queue whose workers have left has delivered everything. *)
Lemma shut_down_settled s :
  dispatcher_inv s → shutdown_complete (queue_ s) = true →
  (∀ p t, heap (queue_ s) !! p = Some t → is_Some (t_promise t)) ∧ worker_call s = None.
Proof.
  intros I Hc. pose proof (di_queue _ I) as Iq. pose proof (qi_store _ _ Iq) as Istore.
  destruct (qi_complete _ _ Iq Hc) as [Hexit Hin].
  assert (Hq : queue (queue_ s) = []).
  { apply (qi_closed _ _ Iq). by rewrite (qi_accepting _ _ Iq), Hin, Hc. }
  assert (Hwd : withdrawn (queue_ s) = []).
  { pose proof (qi_phase _ _ Iq) as Hph. rewrite Hin in Hph. unfold withdrawn.
    by destruct (shutdown_phase (queue_ s)). }
  rewrite (all_exited_running _ Hexit), (all_exited_delivering _ Hexit), Hq, Hwd in Istore.
  split.
  - intros p t Ht. destruct (t_promise t) eqn:E; [by eauto|].
    assert (p ∈ ([] : list ptr)) as []%elem_of_nil. apply (si_live _ _ _ _ _ _ _ Istore). eauto.
  - destruct (worker_call s) as [k|] eqn:Hk; [|done].
    apply (mi_worker _ (di_mutex _ I)), worker_task_at in Hk as (p & Hw & _).
    by apply (proj1 (all_exited_spec _) Hexit) in Hw.
Qed.

(** what the end of [Shutdown] means.  Every [Execute] has returned and
    new commands are refused; if it answers [Completed], every future has its
    value, the worker is not in [Dispatch] and nobody is inside the adapter.
    The only other answer is that of the queue, which cannot be shut down
    from its own executor. *)
Theorem dispatcher_shutdown_settles s s' r :
  dispatcher_reachable s → DispatcherShutdown_end s = Some (s', r) →
  (∀ n k, calls s' !! n = Some k → ∃ a, call_pc k = Answered a) ∧
  (∀ c now, ∃ a, (Execute_begin c now s').2 = inl a ∧ isSuccess a = false) ∧
  (∀ c now queue_now, ∃ a, (ExecuteAsync c now queue_now s').2 = ReadyFuture a ∧
                           isSuccess a = false) ∧
  (r = Result StatusCompleted "Command dispatcher shut down" ∧
   (∀ p t, heap (queue_ s') !! p = Some t → is_Some (t_promise t)) ∧
   worker_call s' = None ∧ adapter_mutex_ s' = None ∨
   r = Result StatusRejected "Command queue cannot be shut down from its executor").
Proof.
  intros I%dispatcher_reachable_inv H.
  pose proof (DispatcherShutdown_end_inv _ _ _ I H) as I'.
  unfold DispatcherShutdown_end in H. destruct (phase s) as [| | |queue_result] eqn:Hph; try done.
  case_bool_decide as Hempty; [|done]. simplify_eq.
  assert (Hrefused : ∀ c now a, ValidateCommand c now = Some a → isSuccess a = false).
  { intros c now a. unfold ValidateCommand, ValidateTimes. intros Ha.
    guards_in Ha; try (by guards_in Hguard3).
    unfold isSuccess. by rewrite (ValidatePayload_rejects _ _ Ha). }
  assert (Hacc : accepting_ s = false).
  { rewrite (pi_accepting _ (di_phase _ I)), (pi_progress _ (di_phase _ I)). by rewrite Hph. }
  pose proof (ids_empty_answered _ (di_ids _ I) Hempty) as Hans.
  split_and!; [done|..].
  - intros c now. unfold Execute_begin. destruct (ValidateCommand c now) eqn:E; [by eauto|].
    simpl. rewrite Hacc. simpl. eauto.
  - intros c now queue_now. unfold ExecuteAsync. destruct (ValidateCommand c now) eqn:E; [by eauto|].
    simpl. rewrite Hacc. simpl. eauto.
  - destruct (pi_draining _ (di_phase _ I) _ Hph) as [[Hr Hc]| ->]; [left|by right].
    rewrite Hr. destruct (shut_down_settled _ I Hc) as [Hheap Hnone].
    split_and!; [done|done|done|]. simpl. destruct (adapter_mutex_ s) as [who|] eqn:Hm; [|done].
    apply (di_mutex _ I) in Hm as [c Hd]. destruct who as [n|].
    + apply dispatch_at_sync, Hans in Hd as [a Ha]. done.
    + simpl in Hd. by rewrite Hnone in Hd.
Qed.

Lemma dispatcher_shutdown_settles_witness :
  let ls := scenario_dispatch ++ [scenario_lock] ++ scenario_adapter ++ scenario_close in
  let s := dispatched ls in
  let s' := dispatched (ls ++ [DShutdownEnd]) in
  let r := Result StatusCompleted "Command dispatcher shut down" in
  (∀ n k, calls s' !! n = Some k → ∃ a, call_pc k = Answered a) ∧
  (∀ c now, ∃ a, (Execute_begin c now s').2 = inl a ∧ isSuccess a = false) ∧
  (∀ c now queue_now, ∃ a, (ExecuteAsync c now queue_now s').2 = ReadyFuture a ∧
                           isSuccess a = false) ∧
  (r = Result StatusCompleted "Command dispatcher shut down" ∧
   (∀ p t, heap (queue_ s') !! p = Some t → is_Some (t_promise t)) ∧
   worker_call s' = None ∧ adapter_mutex_ s' = None ∨
   r = Result StatusRejected "Command queue cannot be shut down from its executor").
Proof.
  intros ls s s' r. apply (dispatcher_shutdown_settles s s' r).
  - apply dispatched_reachable. vm_compute. eauto.
  - vm_compute. reflexivity.
Defined.

(** The dispatcher finishes what it has accepted.  From any reachable
    state, whatever the adapter answers and however the threads interleave,
    at most [in_flight] transitions can happen before a client calls again,
    and as long as some [Execute], [Cancel], [Shutdown] or future has no
    result, one of them is possible: no caller waits for ever for the
    adapter's mutex, the worker or the shutdown. *)
Theorem dispatcher_ends s ls s' :
  dispatcher_reachable s → forallb dispatcher_internal ls = true →
  run dispatcher_exec s ls = Some s' →
  (length ls <= in_flight s)%nat ∧
  (settled s' ∨ ∃ l, dispatcher_internal l = true ∧ is_Some (dispatcher_exec s' l)).
Proof.
  revert s. induction ls as [|l ls IH]; intros s Hs Hls Hrun; simplify_eq/=.
  - split; [lia|]. apply dispatcher_progress; [by apply dispatcher_reachable_inv|].
    apply (reachable_exits dispatcher_queue_options);
      [apply dispatcher_options_ok|by apply queue_reachable].
  - apply andb_true_iff in Hls as [Hl Hls]. destruct (dispatcher_exec s l) as [s1|] eqn:E; [|done].
    pose proof (dispatcher_decreases _ _ _ (dispatcher_reachable_inv _ Hs) Hl E).
    destruct (IH s1) as [Hlen Hend]; [|done|done|split; [lia|done]].
    destruct Hs as (adapter & manager & capabilities & options & overridden & s0 & ls0 & Hinit & Hls0).
    exists adapter, manager, capabilities, options, overridden, s0, (ls0 ++ [l]).
    split; [done|]. rewrite run_app, Hls0. simpl. by rewrite E.
Qed.

Lemma dispatcher_ends_witness :
  let s := dispatched scenario_dispatch in
  let ls := [scenario_lock] ++ scenario_adapter in
  let s' := dispatched (scenario_dispatch ++ ls) in
  (length ls <= in_flight s)%nat ∧
  (settled s' ∨ ∃ l, dispatcher_internal l = true ∧ is_Some (dispatcher_exec s' l)).
Proof.
  intros s ls s'. apply (dispatcher_ends s ls s').
  - apply dispatched_reachable. vm_compute. eauto.
  - vm_compute. reflexivity.
  - vm_compute. reflexivity.
Defined.

(* ------------------------------------------------------------------ *)
(** ** A shutdown from inside the adapter

    An adapter that calls [Shutdown] while it executes a command gets the
    refusal of the queue; but the dispatcher counts as shut down from then
    on, so that the next [Shutdown] answers [Completed] at once although the
    adapter is still executing and the worker has not left. *)

Definition reentrant_shutdown : list DispatcherLabel :=
  [DExecuteAsync stop_command 0 0; DQueue (LRegister 0%nat); DQueue (LTake 0%nat);
   DWorkerBegin 0; DEnter AsyncCaller 0; DLock AsyncCaller 0 quiet_view 0 0;
   DShutdown (WorkerThread 0); DShutdownQueue; DShutdownEnd].

Lemma shutdown_not_drained :
  ∃ s, dispatcher_reachable s ∧ adapter_mutex_ s = Some AsyncCaller ∧
    (DispatcherShutdown_begin (ClientThread 0) s).2 =
      ShutdownReturns (Result StatusCompleted "Command dispatcher is shut down").
Proof.
  exists (dispatched reentrant_shutdown). split; [|by vm_compute].
  apply dispatched_reachable. vm_compute. eauto.
Qed.
