(* ===== verification/Cancellation.v ===== *)
(** * Cooperative cancellation

    [CancellationState], [CancellationRegistration], [CancellationToken] and
    [CancellationSource] of src/runtime/Cancellation.cpp.

    A world holds the shared cancellation states, addressed by their position,
    and the log of the user callbacks that ran, in order.  A callback is a
    user function, of which only the invocation is observed, or the function
    by which a source links itself to a parent token: it cancels the linked
    state if that is still alive ([weak_ptr::lock]).  The registered callbacks
    of a state are a [std::map] keyed by registration number, kept here as an
    association list in increasing order of its keys.

    Operations run one after the other: the code takes its lock per state,
    and calls back without it.  [Cancel] is recursive through the links, so
    it takes fuel; [Cancel_total] shows that one more than the number of
    states not yet cancelled is enough. *)

From S2P Require Import Prelude Workers.

Inductive CancellationCallback :=
  | UserCallback (tag : nat)
  | CancelChild (child : ptr).

Record CancellationState := mkCancellationState {
  alive : bool;      (** some [shared_ptr] still owns the state *)
  cancelled : bool;
  next_callback_id : Z;
  callbacks : list (Z * CancellationCallback);
}.

#[export] Instance eta_CancellationState : EtaRecord CancellationState := fun s =>
  mkCancellationState (alive s) (cancelled s) (next_callback_id s) (callbacks s).

Record World := mkWorld { states : list CancellationState; invoked : list nat }.

#[export] Instance eta_World : EtaRecord World := fun w => mkWorld (states w) (invoked w).

(** [CancellationRegistration]: the owning state, if any, and the number. *)
Record CancellationRegistration := mkRegistration { reg_state : option ptr; reg_id : Z }.

Definition no_registration : CancellationRegistration := mkRegistration None 0.

Definition IsValidRegistrationId (id : Z) : bool := negb (id =? 0)%Z.

(* ------------------------------------------------------------------ *)
(** ** CancellationState *)

Definition is_cancelled (p : ptr) (w : World) : bool :=
  match states w !! p with Some s => cancelled s | None => false end.

(** [InvokeSafely]: a linked state is cancelled by [cancel], if it is alive. *)
Definition InvokeSafely (cancel : ptr → World → option (World * bool))
    (cb : CancellationCallback) (w : World) : option World :=
  match cb with
  | UserCallback tag => Some (w <| invoked ::= (λ l, l ++ [tag]) |>)
  | CancelChild q =>
      match states w !! q with
      | Some s => if alive s then fst <$> cancel q w else Some w
      | None => Some w
      end
  end.

(** The loop over the callbacks that were moved out of the state. *)
Fixpoint invoke_all (cancel : ptr → World → option (World * bool))
    (cbs : list CancellationCallback) (w : World) : option World :=
  match cbs with
  | [] => Some w
  | cb :: cbs' => w' ← InvokeSafely cancel cb w; invoke_all cancel cbs' w'
  end.

(** The critical section of [Cancel] on a state that is not cancelled. *)
Definition mark_cancelled (s : CancellationState) : CancellationState :=
  s <| cancelled := true |> <| callbacks := [] |>.

Definition take_callbacks (p : ptr) (s : CancellationState) (w : World) : World :=
  w <| states ::= insert p (mark_cancelled s) |>.

(** [CancellationState::Cancel] *)
Fixpoint Cancel_state (fuel : nat) (p : ptr) (w : World) : option (World * bool) :=
  match fuel with
  | O => None
  | S fuel' =>
      match states w !! p with
      | None => Some (w, false)
      | Some s =>
          if cancelled s then Some (w, false)
          else
            w' ← invoke_all (Cancel_state fuel') (snd <$> callbacks s) (take_callbacks p s w);
            Some (w', true)
      end
  end.

(** The states that can still be cancelled. *)
Definition uncancelled (w : World) : nat :=
  sum_list ((λ s, if cancelled s then 0 else 1) <$> states w).

(** The fuel that suffices, see [Cancel_total]. *)
Definition enough (w : World) : nat := S (uncancelled w).

(** [std::map::emplace] under a key that sorts after the present ones, or
    that is already there. *)
Fixpoint emplace (k : Z) (cb : CancellationCallback) (l : list (Z * CancellationCallback)) :
    list (Z * CancellationCallback) :=
  match l with
  | [] => [(k, cb)]
  | (k', cb') :: l' =>
      if (k <? k')%Z then (k, cb) :: l
      else if (k =? k')%Z then l
      else (k', cb') :: emplace k cb l'
  end.

(** [CancellationState::Register]; [None] is an empty [std::function]. *)
Definition Register_state (p : ptr) (callback : option CancellationCallback) (w : World) :
    option (World * CancellationRegistration) :=
  match callback with
  | None => Some (w, no_registration)
  | Some cb =>
      match states w !! p with
      | None => Some (w, no_registration)
      | Some s =>
          if negb (cancelled s) then
            let id := next_callback_id s in
            Some (w <| states ::= insert p
                        (s <| next_callback_id := u64_incr id |> <| callbacks ::= emplace id cb |>) |>,
                  mkRegistration (Some p) id)
          else w' ← InvokeSafely (Cancel_state (enough w)) cb w; Some (w', no_registration)
      end
  end.

Definition Unregister_state (p : ptr) (id : Z) (w : World) : World * bool :=
  if negb (IsValidRegistrationId id) then (w, false)
  else match states w !! p with
  | None => (w, false)
  | Some s =>
      (w <| states ::= insert p (s <| callbacks ::= filter (λ e, e.1 ≠ id) |>) |>,
       bool_decide (id ∈ (callbacks s).*1))
  end.

Definition ContainsRegistration (p : ptr) (id : Z) (w : World) : bool :=
  if negb (IsValidRegistrationId id) then false
  else match states w !! p with
  | None => false
  | Some s => bool_decide (id ∈ (callbacks s).*1)
  end.

(* ------------------------------------------------------------------ *)
(** ** Registrations, tokens and sources *)

Definition IsRegistered (r : CancellationRegistration) (w : World) : bool :=
  match reg_state r with Some p => ContainsRegistration p (reg_id r) w | None => false end.

(** [CancellationRegistration::Unregister], also what its destructor runs. *)
Definition Unregister (r : CancellationRegistration) (w : World) :
    World * CancellationRegistration * bool :=
  match reg_state r with
  | Some p =>
      if IsValidRegistrationId (reg_id r) then
        let '(w', removed) := Unregister_state p (reg_id r) w in (w', no_registration, removed)
      else (w, r, false)
  | None => (w, r, false)
  end.

(** Move assignment to [r] from a different registration [other]: what [r]
    held is unregistered; [other] is left without a state and number. *)
Definition move_assign (r other : CancellationRegistration) (w : World) :
    World * CancellationRegistration * CancellationRegistration :=
  ((Unregister r w).1.1, other, no_registration).

Record CancellationToken := mkToken { token_state : option ptr }.

Definition IsCancellationPossible (t : CancellationToken) : bool :=
  bool_decide (is_Some (token_state t)).

Definition token_IsCancelled (t : CancellationToken) (w : World) : bool :=
  match token_state t with Some p => is_cancelled p w | None => false end.

Definition token_Register (t : CancellationToken) (callback : option CancellationCallback)
    (w : World) : option (World * CancellationRegistration) :=
  match token_state t with
  | None => Some (w, no_registration)
  | Some p => Register_state p callback w
  end.

Record CancellationSource := mkSource {
  source_state : ptr;
  parent_registration : CancellationRegistration }.

(** The state that [make_shared<CancellationState>()] creates. *)
Definition fresh_state : CancellationState := mkCancellationState true false 1 [].

Definition add_state (w : World) : World := w <| states ::= (λ l, l ++ [fresh_state]) |>.

(** The two constructors of [CancellationSource]. *)
Definition new_source (w : World) : World * CancellationSource :=
  (add_state w,
   mkSource (length (states w)) no_registration).

Definition new_linked_source (parent_token : CancellationToken) (w : World) :
    option (World * CancellationSource) :=
  let '(w1, source) := new_source w in
  '(w2, r) ← token_Register parent_token (Some (CancelChild (source_state source))) w1;
  Some (w2, mkSource (source_state source) r).

Definition source_Cancel (s : CancellationSource) (w : World) : option (World * bool) :=
  Cancel_state (enough w) (source_state s) w.

Definition source_IsCancelled (s : CancellationSource) (w : World) : bool :=
  is_cancelled (source_state s) w.

Definition source_Token (s : CancellationSource) : CancellationToken :=
  mkToken (Some (source_state s)).

Definition source_Register (s : CancellationSource) (callback : option CancellationCallback)
    (w : World) : option (World * CancellationRegistration) :=
  Register_state (source_state s) callback w.

(** The last owner of a state goes away. *)
Definition release_state (p : ptr) (w : World) : World :=
  w <| states ::= alter (set_field alive (λ _, false)) p |>.

(* ------------------------------------------------------------------ *)
(** ** What cancelling may change *)

(** A state is left alone, or becomes cancelled and loses its callbacks. *)
Definition state_evolves (s s' : CancellationState) : Prop :=
  s' = s ∨ (cancelled s = false ∧ s' = mark_cancelled s).

Definition evolves (w w' : World) : Prop := Forall2 state_evolves (states w) (states w').

#[export] Instance state_evolves_preorder : PreOrder state_evolves.
Proof.
  split.
  - intros s. by left.
  - intros s1 s2 s3 [-> | [H1 ->]] [-> | [H2 ->]]; unfold state_evolves; auto.
Qed.

#[export] Instance evolves_preorder : PreOrder evolves.
Proof.
  split.
  - intros w. unfold evolves. reflexivity.
  - intros w1 w2 w3. unfold evolves. intros. by transitivity (states w2).
Qed.

Lemma evolves_mark w p s :
  states w !! p = Some s → cancelled s = false →
  evolves w (take_callbacks p s w).
Proof.
  intros Hp Hs. apply Forall2_same_length_lookup. simpl. rewrite length_insert. split; [done|].
  intros i x y Hx Hy. rewrite list_lookup_insert in Hy. case_decide; simplify_eq/=.
  - destruct_and!. simplify_eq. by right.
  - by left.
Qed.

Lemma evolves_lookup w w' p s :
  evolves w w' → states w !! p = Some s → ∃ s', states w' !! p = Some s' ∧ state_evolves s s'.
Proof. intros H Hp. by eapply Forall2_lookup_l in H as (s' & ? & ?); eauto. Qed.

Lemma evolves_cancelled w w' p : evolves w w' → is_cancelled p w = true → is_cancelled p w' = true.
Proof.
  unfold is_cancelled. intros H. destruct (states w !! p) as [s|] eqn:Hp; [|done]. intros Hs.
  destruct (evolves_lookup _ _ _ _ H Hp) as (s' & -> & [-> | [? _]]); congruence.
Qed.

Lemma evolves_alive w w' p s s' :
  evolves w w' → states w !! p = Some s → states w' !! p = Some s' → alive s' = alive s.
Proof.
  intros H Hp Hp'. destruct (evolves_lookup _ _ _ _ H Hp) as (s'' & ? & [-> | [_ ->]]);
    by simplify_eq.
Qed.

Lemma invoke_all_invariant cancel (R : relation World) `{!PreOrder R} :
  (∀ w w' tag, states w' = states w → invoked w' = invoked w ++ [tag] → R w w') →
  (∀ q w w' b, cancel q w = Some (w', b) → R w w') →
  ∀ cbs w w', invoke_all cancel cbs w = Some w' → R w w'.
Proof.
  intros Htag Hcancel cbs. induction cbs as [|cb cbs IH]; intros w w' H; simplify_eq/=; [done|].
  destruct (InvokeSafely cancel cb w) as [w1|] eqn:E; [|done]. transitivity w1; [|by apply IH].
  destruct cb as [tag|q]; simpl in E.
  - simplify_eq. by eapply Htag.
  - repeat case_match; simplify_eq; [|done..].
    destruct (cancel q w) as [[w2 b]|] eqn:Hq; simplify_eq/=. by eapply Hcancel.
Qed.

Lemma Cancel_evolves fuel : ∀ p w w' b, Cancel_state fuel p w = Some (w', b) → evolves w w'.
Proof.
  induction fuel as [|fuel IH]; intros p w w' b H; [done|]. simpl in H.
  destruct (states w !! p) as [s|] eqn:Hp; simplify_eq; [|done].
  destruct (cancelled s) eqn:Hs; simplify_eq; [done|].
  destruct (invoke_all _ _ _) as [w1|] eqn:E; simplify_eq/=.
  transitivity (take_callbacks p s w); [by apply evolves_mark|].
  eapply (invoke_all_invariant _ evolves); [| |exact E].
  - intros w1 w2 tag Hst _. unfold evolves. rewrite Hst. reflexivity.
  - intros q w1 w2 b Hq. by eapply IH.
Qed.

Lemma evolves_uncancelled w w' : evolves w w' → uncancelled w' <= uncancelled w.
Proof.
  unfold evolves, uncancelled. intros H. induction H as [|s s' l l' Hs _ IH]; simpl; [done|].
  unfold fmap in *. destruct Hs as [-> | [-> ->]]; unfold mark_cancelled; simpl; lia.
Qed.

Lemma mark_uncancelled w p s :
  states w !! p = Some s → cancelled s = false →
  S (uncancelled (take_callbacks p s w)) = uncancelled w.
Proof.
  intros Hp Hs. unfold uncancelled. simpl. rewrite list_fmap_insert. simpl.
  pose proof (sum_list_insert ((λ s, if cancelled s then 0 else 1) <$> states w) p 1 0) as Hsum.
  rewrite list_lookup_fmap, Hp in Hsum. simpl in Hsum. rewrite Hs in Hsum. specialize (Hsum eq_refl).
  lia.
Qed.

(** *** Fuel *)

Lemma invoke_all_total cancel n :
  (∀ q w, uncancelled w < n → is_Some (cancel q w)) →
  (∀ q w w' b, cancel q w = Some (w', b) → evolves w w') →
  ∀ cbs w, uncancelled w < n → is_Some (invoke_all cancel cbs w).
Proof.
  intros Htotal Hev cbs. induction cbs as [|cb cbs IH]; intros w Hw; simpl; [by eauto|].
  assert (∃ w1, InvokeSafely cancel cb w = Some w1 ∧ evolves w w1) as (w1 & -> & Hw1).
  { destruct cb as [tag|q]; simpl.
    - eexists. split; [done|]. unfold evolves. reflexivity.
    - repeat case_match; try (by eexists; split; [done|reflexivity]).
      destruct (Htotal q w Hw) as [[w1 b] E]. rewrite E. simpl. eauto. }
  simpl. apply IH. apply evolves_uncancelled in Hw1. lia.
Qed.

Lemma Cancel_fuel fuel : ∀ p w, uncancelled w < fuel → is_Some (Cancel_state fuel p w).
Proof.
  induction fuel as [|fuel IH]; intros p w Hfuel; [lia|]. simpl.
  destruct (states w !! p) as [s|] eqn:Hp; [|by eauto].
  destruct (cancelled s) eqn:Hs; [by eauto|].
  destruct (invoke_all_total (Cancel_state fuel) fuel IH (Cancel_evolves fuel) (snd <$> callbacks s)
    (take_callbacks p s w)) as [w' ->]; [|simpl; eauto].
  pose proof (mark_uncancelled _ _ _ Hp Hs). lia.
Qed.

(** [Cancel] always returns, also along chains and cycles of links. *)
Lemma Cancel_total p w : is_Some (Cancel_state (enough w) p w).
Proof. apply Cancel_fuel. unfold enough. lia. Qed.

(* ------------------------------------------------------------------ *)
(** ** Callbacks run once *)

Definition user_tag (cb : CancellationCallback) : option nat :=
  match cb with UserCallback tag => Some tag | CancelChild _ => None end.

Definition tags_of (s : CancellationState) : list nat := omap user_tag (snd <$> callbacks s).

(** The user callbacks still registered somewhere. *)
Definition registered (w : World) : list nat := states w ≫= tags_of.

Lemma registered_take w p s :
  states w !! p = Some s → registered w ≡ₚ tags_of s ++ registered (take_callbacks p s w).
Proof.
  intros Hp. unfold registered. simpl.
  rewrite (insert_delete_Permutation _ _ _ (mark_cancelled s) Hp). simpl.
  by rewrite (delete_Permutation _ _ _ Hp) at 1.
Qed.

Lemma invoke_all_conserves cancel :
  (∀ q w w' b, cancel q w = Some (w', b) → invoked w' ++ registered w' ≡ₚ invoked w ++ registered w) →
  ∀ cbs w w', invoke_all cancel cbs w = Some w' →
    invoked w' ++ registered w' ≡ₚ omap user_tag cbs ++ invoked w ++ registered w.
Proof.
  intros Hcancel cbs. induction cbs as [|cb cbs IH]; intros w w' H; simplify_eq/=; [done|].
  destruct (InvokeSafely cancel cb w) as [w1|] eqn:E; [|done]. rewrite (IH _ _ H).
  destruct cb as [tag|q]; simpl in E |- *.
  - simplify_eq/=. rewrite <-app_assoc. simpl. by rewrite <-!Permutation_middle.
  - f_equiv. repeat case_match; simplify_eq/=; try done.
    destruct (cancel q w) as [[w2 b]|] eqn:Hq; simplify_eq/=. by eapply Hcancel.
Qed.

Lemma Cancel_conserves fuel : ∀ p w w' b,
  Cancel_state fuel p w = Some (w', b) → invoked w' ++ registered w' ≡ₚ invoked w ++ registered w.
Proof.
  induction fuel as [|fuel IH]; intros p w w' b H; [done|]. simpl in H.
  destruct (states w !! p) as [s|] eqn:Hp; simplify_eq; [|done].
  destruct (cancelled s) eqn:Hs; simplify_eq; [done|].
  destruct (invoke_all _ _ _) as [w1|] eqn:E; simplify_eq/=.
  rewrite (invoke_all_conserves _ IH _ _ _ E). rewrite (registered_take _ _ _ Hp).
  unfold tags_of. simpl. apply Permutation_app_swap_app.
Qed.

(* ------------------------------------------------------------------ *)
(** ** Cascades *)

(** [q] is alive and linked to the state [p], which is not cancelled yet. *)
Definition linked (w : World) (p q : ptr) : Prop :=
  ∃ s t, states w !! p = Some s ∧ cancelled s = false ∧ CancelChild q ∈ (callbacks s).*2 ∧
         states w !! q = Some t ∧ alive t = true.

(** Whatever was cancelled on the way took its linked states along. *)
Definition cascades (w w' : World) : Prop :=
  evolves w w' ∧ ∀ p q, linked w p q → is_cancelled p w' = true → is_cancelled q w' = true.

#[export] Instance cascades_preorder : PreOrder cascades.
Proof.
  split.
  - intros w. split; [done|]. intros p q (s & t & Hp & Hs & _) Hc.
    unfold is_cancelled in Hc. rewrite Hp in Hc. congruence.
  - intros w1 w2 w3 [E12 H12] [E23 H23]. split; [by transitivity w2|].
    intros p q Hl Hp3. destruct (is_cancelled p w2) eqn:Hp2.
    { eapply evolves_cancelled; [done|]. by eapply H12. }
    destruct Hl as (s & t & Hp & Hs & Hin & Hq & Ht).
    destruct (evolves_lookup _ _ _ _ E12 Hp) as (s' & Hs' & Hev).
    destruct (evolves_lookup _ _ _ _ E12 Hq) as (t' & Ht' & _).
    apply (H23 p); [|done]. exists s', t'. unfold is_cancelled in Hp2. rewrite Hs' in Hp2.
    pose proof (evolves_alive _ _ _ _ _ E12 Hq Ht').
    destruct Hev as [-> | [_ ->]]; [|done]. repeat split; congruence || done.
Qed.

Lemma cascades_tag w w' tag :
  states w' = states w → invoked w' = invoked w ++ [tag] → cascades w w'.
Proof.
  intros Hst _. split; [unfold evolves; by rewrite Hst|].
  intros p q (s & t & Hp & Hs & _) Hc. unfold is_cancelled in Hc. rewrite Hst, Hp in Hc. congruence.
Qed.

(** After the loop every linked state among its callbacks is cancelled. *)
Lemma invoke_all_reaches cancel :
  (∀ q w w' b, cancel q w = Some (w', b) → evolves w w') →
  (∀ q w w' b, cancel q w = Some (w', b) → is_Some (states w !! q) → is_cancelled q w' = true) →
  ∀ cbs w w' q t, invoke_all cancel cbs w = Some w' → CancelChild q ∈ cbs →
    states w !! q = Some t → alive t = true → is_cancelled q w' = true.
Proof.
  intros Hev Hc cbs. induction cbs as [|cb cbs IH]; intros w w' q t H Hin Hq Ht;
    [by apply elem_of_nil in Hin|]. simplify_eq/=.
  destruct (InvokeSafely cancel cb w) as [w1|] eqn:E; [|done]. simpl in H.
  assert (Hrest : evolves w1 w').
  { eapply (invoke_all_invariant _ evolves); [| |exact H]; [|done].
    intros w2 w3 tag Hst _. unfold evolves. by rewrite Hst. }
  apply elem_of_cons in Hin as [<-|Hin].
  - simpl in E. rewrite Hq, Ht in E. destruct (cancel q w) as [[w2 b]|] eqn:Hcq; simplify_eq/=.
    eapply evolves_cancelled; [done|]. eapply Hc; [done|]. by rewrite Hq.
  - assert (Hw1 : evolves w w1).
    { apply (invoke_all_invariant cancel evolves) with (cbs := [cb]); simpl.
      - intros w2 w3 tag Hst _. unfold evolves. by rewrite Hst.
      - done.
      - by rewrite E. }
    destruct (evolves_lookup _ _ _ _ Hw1 Hq) as (t1 & Ht1 & _).
    pose proof (evolves_alive _ _ _ _ _ Hw1 Hq Ht1). eapply IH; [done..|congruence].
Qed.

Lemma take_callbacks_cancelled w p s :
  states w !! p = Some s → is_cancelled p (take_callbacks p s w) = true.
Proof.
  intros Hp. unfold is_cancelled, take_callbacks. simpl.
  by rewrite list_lookup_insert_eq by (by eapply lookup_lt_Some).
Qed.

Lemma Cancel_cancels fuel p w w' b :
  Cancel_state fuel p w = Some (w', b) → is_Some (states w !! p) → is_cancelled p w' = true.
Proof.
  intros H [s Hp]. destruct fuel as [|fuel]; [done|]. simpl in H. rewrite Hp in H.
  destruct (cancelled s) eqn:Hs; simplify_eq; [unfold is_cancelled; by rewrite Hp|].
  destruct (invoke_all _ _ _) as [w1|] eqn:E; simplify_eq/=.
  eapply evolves_cancelled; [|by apply take_callbacks_cancelled].
  eapply (invoke_all_invariant _ evolves); [| |exact E].
  - intros w1 w2 tag Hst _. unfold evolves. by rewrite Hst.
  - intros q w1 w2 b Hq. by eapply Cancel_evolves.
Qed.

Lemma Cancel_cascades fuel : ∀ p w w' b, Cancel_state fuel p w = Some (w', b) → cascades w w'.
Proof.
  induction fuel as [|fuel IH]; intros p w w' b H; [done|].
  pose proof (Cancel_evolves _ _ _ _ _ H) as Hev. simpl in H.
  destruct (states w !! p) as [s|] eqn:Hp; simplify_eq; [|done].
  destruct (cancelled s) eqn:Hs; simplify_eq; [done|].
  destruct (invoke_all _ _ _) as [w1|] eqn:E; simplify_eq/=.
  assert (Hloop : cascades (take_callbacks p s w) w').
  { eapply (invoke_all_invariant _ cascades); [apply cascades_tag|exact IH|exact E]. }
  split; [done|]. intros p' q (s' & t & Hp' & Hs' & Hin & Hq & Ht) Hc.
  assert (Htake : evolves w (take_callbacks p s w)) by by apply evolves_mark.
  destruct (evolves_lookup _ _ _ _ Htake Hq) as (t1 & Ht1 & _).
  pose proof (evolves_alive _ _ _ _ _ Htake Hq Ht1) as Halive.
  destruct (decide (p' = p)) as [->|Hne].
  - simplify_eq. eapply (invoke_all_reaches (Cancel_state fuel)); [| |exact E|done|done|congruence].
    + apply Cancel_evolves.
    + intros ????. apply Cancel_cancels.
  - destruct Hloop as [_ Hloop]. apply (Hloop p'); [|done].
    exists s', t1. simpl. rewrite list_lookup_insert_ne by done. repeat split; congruence || done.
Qed.

Lemma cascades_rtc w w' p q :
  cascades w w' → rtc (linked w) p q → is_cancelled p w' = true → is_cancelled q w' = true.
Proof. intros [_ Hc] Hpq. induction Hpq; eauto. Qed.

Lemma Cancel_state_again fuel p w :
  is_cancelled p w = true → Cancel_state (S fuel) p w = Some (w, false).
Proof.
  unfold is_cancelled. intros Hc. simpl. destruct (states w !! p) as [s|]; [|done]. by rewrite Hc.
Qed.

Lemma Cancel_state_returns w p s :
  states w !! p = Some s → cancelled s = false →
  ∃ w', Cancel_state (enough w) p w = Some (w', true).
Proof.
  intros Hp Hs. destruct (Cancel_total p w) as [[w' b] H]. exists w'. rewrite H.
  unfold enough in H. simpl in H. rewrite Hp, Hs in H. by destruct (invoke_all _ _ _); simplify_eq/=.
Qed.

(** A small world: source 0, and source 1 linked to it; one user callback on each. *)
Definition two_linked_sources : option (World * (CancellationSource * CancellationSource)) :=
  let '(w0, parent) := new_source (mkWorld [] []) in
  '(w1, _) ← source_Register parent (Some (UserCallback 7)) w0;
  '(w2, child) ← new_linked_source (source_Token parent) w1;
  '(w3, _) ← source_Register child (Some (UserCallback 8)) w2;
  Some (w3, (parent, child)).

Definition two_linked_world : World :=
  match two_linked_sources with Some (w, _) => w | None => mkWorld [] [] end.

(** Cancelling a state that is not cancelled returns true after
    terminating, whatever the links; it and every live state reachable over
    links is then cancelled, the user callbacks that ran are exactly those
    that are no longer registered (each ran once, none is lost), and a second
    cancellation returns false and does nothing. *)
Theorem Cancel_once w p s :
  states w !! p = Some s → cancelled s = false →
  ∃ w', Cancel_state (enough w) p w = Some (w', true) ∧
        invoked w' ++ registered w' ≡ₚ invoked w ++ registered w ∧
        (∀ q, rtc (linked w) p q → is_cancelled q w' = true) ∧
        ∀ fuel, Cancel_state (S fuel) p w' = Some (w', false).
Proof.
  intros Hp Hs. destruct (Cancel_total p w) as [[w' b] Hcancel].
  pose proof (Cancel_cancels _ _ _ _ _ Hcancel (mk_is_Some _ _ Hp)) as Hdone.
  destruct (Cancel_state_returns w p s Hp Hs) as [w'' Hret]. simplify_eq.
  exists w'. repeat split.
  - done.
  - by eapply Cancel_conserves.
  - intros q Hq. eapply cascades_rtc; [by eapply Cancel_cascades|done..].
  - intros fuel. by apply Cancel_state_again.
Qed.

Lemma Cancel_once_witness :
  ∃ w', Cancel_state (enough two_linked_world) 0 two_linked_world = Some (w', true) ∧
        invoked w' = [7; 8] ∧ is_cancelled 1 w' = true.
Proof.
  destruct (Cancel_once two_linked_world 0 (mkCancellationState true false 3
    [(1%Z, UserCallback 7); (2%Z, CancelChild 1)]) eq_refl eq_refl) as (w' & H & _ & Hl & _).
  exists w'. split; [done|]. split.
  - vm_compute in H. by simplify_eq.
  - apply Hl. apply rtc_once. eexists _, _. repeat split. apply list_elem_of_In. simpl. auto.
Defined.

(** *** Registering *)

(** Registration numbers come from the counter of the state; the counter has
    not wrapped around. *)
Definition registrations_ok (s : CancellationState) : Prop :=
  (1 <= next_callback_id s < u64_modulus - 1)%Z ∧
  Forall (λ e, (e.1 < next_callback_id s)%Z) (callbacks s).

Lemma emplace_last k cb l : Forall (λ e, (e.1 < k)%Z) l → emplace k cb l = l ++ [(k, cb)].
Proof.
  induction 1 as [|[k' cb'] l Hlt _ IH]; simpl in *; [done|].
  rewrite IH. repeat case_match; [lia..|done].
Qed.

Lemma filter_below k (l : list (Z * CancellationCallback)) :
  Forall (λ e, (e.1 < k)%Z) l → filter (λ e, e.1 ≠ k) l = l.
Proof.
  induction 1 as [|e l Hlt _ IH]; [done|]. rewrite filter_cons_True by lia. by rewrite IH.
Qed.

Lemma notin_below k (l : list (Z * CancellationCallback)) :
  Forall (λ e, (e.1 < k)%Z) l → k ∉ l.*1.
Proof.
  intros Hl Hin. apply list_elem_of_fmap in Hin as (e & -> & He).
  rewrite Forall_forall in Hl. specialize (Hl e He). lia.
Qed.

(** Registering on a state that is not cancelled appends the callback,
    which will run last, and hands out a registration that reports itself
    registered; unregistering it returns true, takes exactly that callback
    away again and leaves an empty registration, and is then idempotent. *)
Theorem Register_Unregister w p s cb :
  states w !! p = Some s → cancelled s = false → registrations_ok s →
  ∃ w1 r, Register_state p (Some cb) w = Some (w1, r) ∧
    callbacks <$> states w1 !! p = Some (callbacks s ++ [(next_callback_id s, cb)]) ∧
    IsRegistered r w1 = true ∧
    ∃ w2, Unregister r w1 = (w2, no_registration, true) ∧
      callbacks <$> states w2 !! p = Some (callbacks s) ∧
      invoked w2 = invoked w ∧ IsRegistered r w2 = false ∧
      Unregister no_registration w2 = (w2, no_registration, false).
Proof.
  intros Hp Hs [Hid Hok]. pose proof (lookup_lt_Some _ _ _ Hp) as Hlt.
  unfold Register_state. rewrite Hp, Hs. eexists _, _. split; [done|].
  unfold IsRegistered, Unregister, Unregister_state, ContainsRegistration. simpl.
  rewrite (emplace_last _ _ _ Hok). rewrite list_lookup_insert_eq by done. simpl.
  assert (IsValidRegistrationId (next_callback_id s) = true) as ->
    by (unfold IsValidRegistrationId; apply negb_true_iff; lia).
  simpl. rewrite fmap_app. simpl. split; [done|]. split.
  { apply bool_decide_eq_true. apply elem_of_app. right. by left. }
  rewrite bool_decide_eq_true_2 by (apply elem_of_app; right; by left).
  eexists. split; [done|]. simpl.
  rewrite list_lookup_insert_eq by (by rewrite length_insert). simpl.
  rewrite filter_app, (filter_below _ _ Hok), filter_cons_False by (simpl; tauto).
  rewrite filter_nil, app_nil_r. repeat split.
  apply bool_decide_eq_false. by apply notin_below.
Qed.

Lemma Register_Unregister_witness :
  ∃ w1 r, Register_state 0 (Some (UserCallback 9)) two_linked_world = Some (w1, r) ∧
    IsRegistered r w1 = true.
Proof.
  destruct (Register_Unregister two_linked_world 0 (mkCancellationState true false 3
    [(1%Z, UserCallback 7); (2%Z, CancelChild 1)]) (UserCallback 9) eq_refl eq_refl)
    as (w1 & r & H & _ & Hr & _).
  - split; [by vm_compute|]. repeat constructor.
  - eauto.
Defined.

Lemma lookup_fresh (l : list CancellationState) : (l ++ [fresh_state]) !! length l = Some fresh_state.
Proof. by apply list_lookup_middle. Qed.

(** A source linked to a parent token is cancelled with it: right away
    when the parent was already cancelled, otherwise by the cancellation of
    the parent; linked to an empty token it starts uncancelled. *)
Theorem new_linked_source_follows w t :
  (∀ p, token_state t = Some p → ∃ s, states w !! p = Some s ∧ registrations_ok s) →
  ∃ w1 src, new_linked_source t w = Some (w1, src) ∧
    source_IsCancelled src w1 = token_IsCancelled t w ∧
    (∀ p, token_state t = Some p → token_IsCancelled t w = false →
       ∃ w2, Cancel_state (enough w1) p w1 = Some (w2, true) ∧ source_IsCancelled src w2 = true).
Proof.
  intros Hstate. unfold new_linked_source, new_source, token_Register.
  cbn [source_state].
  unfold source_IsCancelled, token_IsCancelled.
  destruct (token_state t) as [p|] eqn:Ht.
  2: { eexists _, _. split; [done|]. split; [|done].
       unfold is_cancelled. simpl. by rewrite lookup_fresh. }
  destruct (Hstate p eq_refl) as (s & Hp & [Hid Hok]).
  pose proof (lookup_lt_Some _ _ _ Hp) as Hlt.
  set (w1 := add_state w).
  unfold Register_state, InvokeSafely.
  assert (states w1 !! p = Some s) as -> by (simpl; by rewrite lookup_app_l).
  assert (states w1 !! length (states w) = Some fresh_state) as -> by by apply lookup_fresh.
  unfold is_cancelled at 2 3. rewrite Hp. destruct (cancelled s) eqn:Hs; cbn [negb alive fresh_state].
  - destruct (Cancel_state_returns w1 (length (states w)) fresh_state) as [w2 Hc];
      [by apply lookup_fresh|done|].
    rewrite Hc. eexists _, _. split; [done|]. split; [|done].
    eapply Cancel_cancels; [done|]. eexists. by apply lookup_fresh.
  - eexists _, _. split; [done|]. split.
    { unfold is_cancelled. simpl. rewrite list_lookup_insert_ne by lia. by rewrite lookup_fresh. }
    intros p' [= <-] _.
    match goal with |- context [Cancel_state (enough ?w1) p ?w1] => set (w1' := w1) end.
    assert (∃ s1, states w1' !! p = Some s1 ∧ cancelled s1 = false ∧
      CancelChild (length (states w)) ∈ (callbacks s1).*2) as (s1 & Hp1 & Hs1 & Hin).
    { eexists. unfold w1'. simpl. rewrite list_lookup_insert_eq by (rewrite length_app; simpl; lia).
      split; [done|]. simpl. split; [done|].
      rewrite (emplace_last _ _ _ Hok), fmap_app. apply elem_of_app. right. by left. }
    destruct (Cancel_state_returns w1' p s1 Hp1 Hs1) as [w2 Hc]. exists w2. split; [done|].
    eapply cascades_rtc; [by eapply Cancel_cascades| |by eapply Cancel_cancels].
    apply rtc_once. exists s1, fresh_state. repeat split; try done.
    unfold w1'. simpl. rewrite list_lookup_insert_ne by lia. by apply lookup_fresh.
Qed.

Lemma new_linked_source_follows_witness :
  ∃ w1 src, new_linked_source (mkToken (Some 1)) two_linked_world = Some (w1, src) ∧
    source_IsCancelled src w1 = false.
Proof.
  destruct (new_linked_source_follows two_linked_world (mkToken (Some 1)))
    as (w1 & src & H & Hc & _).
  - intros p [= <-]. eexists. split; [done|]. split; [by vm_compute|]. repeat constructor.
  - exists w1, src. split; [done|]. by rewrite Hc.
Defined.

(** Clients reason about cancellation by the lemmas above. *)
#[global] Arguments Cancel_state : simpl never.
