(* ===== verification/ExecutionContext.v ===== *)
(** * Execution contexts

    [ExecutionContext] of src/runtime/ExecutionContext.cpp with the
    enumerations of include/humanoid/runtime/ExecutionState.h and
    ExecutionScope.h: the mutable context that an engine and the job it runs
    share.  Its framework-wide cancellation source lives in a world of
    Cancellation.v; its [std::stop_source] is the flag the standard library
    documents (nothing in the repository registers a [std::stop_callback]). *)

From S2P Require Import Prelude Workers Cancellation.

(** The enumerators, and one more constructor for a raw value of the
    underlying type that reaches a [switch] through a cast. *)
Inductive ExecutionState :=
  | StateCreated | StateStarting | StateRunning | StatePaused
  | StateCompleted | StateCancelled | StateFailed | StateAborted
  | StateRaw (value : Z).

Inductive ExecutionScope :=
  | ScopeUnknown | ScopeMission | ScopeBehaviorTree | ScopeAIPlanner | ScopeROS2 | ScopeCustom
  | ScopeRaw (value : Z).

#[export] Instance ExecutionState_eq_dec : EqDecision ExecutionState.
Proof. solve_decision. Defined.
#[export] Instance ExecutionScope_eq_dec : EqDecision ExecutionScope.
Proof. solve_decision. Defined.

Definition ExecutionState_toString (s : ExecutionState) : string :=
  match s with
  | StateCreated => "Created"
  | StateStarting => "Starting"
  | StateRunning => "Running"
  | StatePaused => "Paused"
  | StateCompleted => "Completed"
  | StateCancelled => "Cancelled"
  | StateFailed => "Failed"
  | StateAborted => "Aborted"
  | StateRaw _ => "Unknown"
  end.

Definition isTerminal (s : ExecutionState) : bool :=
  match s with
  | StateCompleted | StateCancelled | StateFailed | StateAborted => true
  | StateCreated | StateStarting | StateRunning | StatePaused => false
  | StateRaw _ => false
  end.

Definition ExecutionScope_toString (s : ExecutionScope) : string :=
  match s with
  | ScopeUnknown => "Unknown"
  | ScopeMission => "Mission"
  | ScopeBehaviorTree => "BehaviorTree"
  | ScopeAIPlanner => "AIPlanner"
  | ScopeROS2 => "ROS2"
  | ScopeCustom => "Custom"
  | ScopeRaw _ => "Unknown"
  end.

Definition ExecutionMetadata : Type := gmap string string.

Record ExecutionContextSnapshot := mkExecutionContextSnapshot {
  executionId : Z;
  missionId : Z;
  snap_state : ExecutionState;
  startTimestamp : option Z;
  currentStep : option Z;
  snap_scope : ExecutionScope;
  cancellationRequested : bool;
  snap_metadata : ExecutionMetadata;
}.

Record ExecutionContext := mkExecutionContext {
  execution_id : Z;
  scope : ExecutionScope;
  mission_id : Z;
  state : ExecutionState;
  start_timestamp : option Z;
  current_step : option Z;
  cancellation_source : bool;                      (** stop requested *)
  runtime_cancellation_source : CancellationSource;
  metadata : ExecutionMetadata;
}.

#[export] Instance eta_ExecutionContext : EtaRecord ExecutionContext := fun e =>
  mkExecutionContext (execution_id e) (scope e) (mission_id e) (state e) (start_timestamp e)
    (current_step e) (cancellation_source e) (runtime_cancellation_source e) (metadata e).

(** The constructor; it creates the context's cancellation state. *)
Definition new_ExecutionContext (id : Z) (sc : ExecutionScope) (mission : Z)
    (meta : ExecutionMetadata) (w : World) : World * ExecutionContext :=
  let '(w', source) := new_source w in
  (w', mkExecutionContext id sc mission StateCreated None None false source meta).

Definition SetMissionId (m : Z) (e : ExecutionContext) : ExecutionContext := e <| mission_id := m |>.

Definition SetState (s : ExecutionState) (e : ExecutionContext) : ExecutionContext :=
  e <| state := s |>.

Definition SetStartTimestamp (t : Z) (e : ExecutionContext) : ExecutionContext :=
  e <| start_timestamp := Some t |>.

Definition ClearStartTimestamp (e : ExecutionContext) : ExecutionContext :=
  e <| start_timestamp := None |>.

Definition SetCurrentStep (s : Z) (e : ExecutionContext) : ExecutionContext :=
  e <| current_step := Some s |>.

Definition ClearCurrentStep (e : ExecutionContext) : ExecutionContext :=
  e <| current_step := None |>.

Definition request_stop (e : ExecutionContext) : ExecutionContext * bool :=
  (e <| cancellation_source := true |>, negb (cancellation_source e)).

Definition RequestCancellation (e : ExecutionContext) (w : World) :
    option (World * ExecutionContext * bool) :=
  let '(e', stop_requested) := request_stop e in
  '(w', runtime_cancelled) ← source_Cancel (runtime_cancellation_source e') w;
  Some (w', e', stop_requested || runtime_cancelled).

Definition RuntimeCancellationToken (e : ExecutionContext) : CancellationToken :=
  source_Token (runtime_cancellation_source e).

Definition CancellationRequested (e : ExecutionContext) (w : World) : bool :=
  cancellation_source e || source_IsCancelled (runtime_cancellation_source e) w.

Definition SetMetadata (m : ExecutionMetadata) (e : ExecutionContext) : ExecutionContext :=
  e <| metadata := m |>.

Definition SetMetadataValue (key value : string) (e : ExecutionContext) : ExecutionContext :=
  e <| metadata ::= insert key value |>.

Definition MetadataValue (key : string) (e : ExecutionContext) : option string := metadata e !! key.

Definition RemoveMetadata (key : string) (e : ExecutionContext) : ExecutionContext * bool :=
  match metadata e !! key with
  | None => (e, false)
  | Some _ => (e <| metadata ::= delete key |>, true)
  end.

Definition Snapshot (e : ExecutionContext) (w : World) : ExecutionContextSnapshot :=
  mkExecutionContextSnapshot (execution_id e) (mission_id e) (state e) (start_timestamp e)
    (current_step e) (scope e) (CancellationRequested e w) (metadata e).

(* ------------------------------------------------------------------ *)
(** ** Cancellation of a context *)

(** Both sources exist, and neither is cancelled without the other. *)
Definition context_ok (e : ExecutionContext) (w : World) : Prop :=
  (∃ s, states w !! source_state (runtime_cancellation_source e) = Some s) ∧
  source_IsCancelled (runtime_cancellation_source e) w = cancellation_source e.

Lemma context_new id sc mission meta w :
  let '(w', e) := new_ExecutionContext id sc mission meta w in
  context_ok e w' ∧ CancellationRequested e w' = false.
Proof.
  unfold context_ok, CancellationRequested, source_IsCancelled, is_cancelled. simpl.
  rewrite lookup_fresh. simpl. eauto.
Qed.

(** Cancellation of a context is monotone and its first request is the
    only effective one: whether a request was made before decides the answer,
    afterwards every reader sees it (the context, its snapshot and the
    runtime token), and repeating it answers false and changes nothing. *)
Theorem RequestCancellation_first e w :
  context_ok e w →
  ∃ w' e', RequestCancellation e w = Some (w', e', negb (CancellationRequested e w)) ∧
    context_ok e' w' ∧
    CancellationRequested e' w' = true ∧
    cancellationRequested (Snapshot e' w') = true ∧
    token_IsCancelled (RuntimeCancellationToken e') w' = true ∧
    RequestCancellation e' w' = Some (w', e', false) ∧
    (∀ t, token_IsCancelled t w = true → token_IsCancelled t w' = true).
Proof.
  intros [[s Hs] Hsync]. unfold RequestCancellation, request_stop, source_Cancel. simpl.
  set (src := runtime_cancellation_source e) in *.
  destruct (Cancel_total (source_state src) w) as [[w' b] Hc].
  pose proof (Cancel_cancels _ _ _ _ _ Hc (mk_is_Some _ _ Hs)) as Hdone.
  pose proof (Cancel_evolves _ _ _ _ _ Hc) as Hev. rewrite Hc. simpl.
  eexists w', _. split; [|split; [|split; [|split; [|split; [|split]]]]].
  - do 2 f_equal. unfold CancellationRequested. fold src. rewrite Hsync.
    destruct (cancellation_source e) eqn:E; simpl; [|done].
    unfold source_IsCancelled in Hsync.
    rewrite (Cancel_state_again (uncancelled w)) in Hc by done. by simplify_eq.
  - split; simpl; [|done]. destruct (evolves_lookup _ _ _ _ Hev Hs) as (s' & ? & _). eauto.
  - done.
  - done.
  - done.
  - simpl. fold src. by rewrite (Cancel_state_again (uncancelled w')) by done.
  - intros [[p|]]; simpl; [|done]. by apply evolves_cancelled.
Qed.

Lemma RequestCancellation_first_witness :
  let '(w, e) := new_ExecutionContext 5 ScopeMission 0 ∅ (mkWorld [] []) in
  ∃ w' e', RequestCancellation e w = Some (w', e', true) ∧ CancellationRequested e' w' = true.
Proof.
  destruct (RequestCancellation_first (new_ExecutionContext 5 ScopeMission 0 ∅ (mkWorld [] [])).2
    (new_ExecutionContext 5 ScopeMission 0 ∅ (mkWorld [] [])).1) as (w' & e' & H & _ & Hc & _).
  - split; [|done]. by eexists.
  - by exists w', e'.
Defined.
