(* ===== verification/Blackboard.v ===== *)
(** * The runtime blackboard

    [Blackboard] of src/runtime/Blackboard.cpp and its typed accessors of
    include/humanoid/runtime/Blackboard.h: a map from namespaces to maps from
    keys to values of any type.  A stored value carries the [type_index] it
    was stored with and [Get] casts only at that index, so the model has a
    type of indices and a carrier for each.  The interface promised to clients
    is a finite map from addresses to values; [BlackboardSpec] states it and
    [Blackboard_implements] proves that the two-level map implements it.

    Each operation is one critical section of the shared mutex.  The
    exception path of [StoreValue], taken when memory runs out, is left out. *)

From S2P Require Import Prelude.
From stdpp Require Import fin_maps.

(* ------------------------------------------------------------------ *)
(** ** Specification *)

Definition Address : Type := string * string.

(** What the blackboard promises: [contents] is a finite map from valid
    addresses to values, which the operations update pointwise. *)
Class BlackboardSpec (B V : Type) := {
  contents : B → gmap Address V;
  store : string → string → V → B → B * bool;
  fetch : string → string → B → option V;
  remove : string → string → B → B * bool;
  clear_namespace : string → B → B * nat;
  clear : B → B * nat;
}.

Definition valid_address (a : Address) : Prop := a.1 ≠ "" ∧ a.2 ≠ "".

#[export] Instance valid_address_dec a : Decision (valid_address a).
Proof. unfold valid_address. apply _. Defined.

Class BlackboardLaws {B V} (S : BlackboardSpec B V) (wf : B → Prop) : Prop := {
  store_law ns key v b : wf b →
    let '(b', ok) := store ns key v b in
    wf b' ∧ ok = bool_decide (valid_address (ns, key)) ∧
    contents b' = if ok then <[(ns, key) := v]> (contents b) else contents b;
  fetch_law ns key b : wf b → fetch ns key b = contents b !! (ns, key);
  remove_law ns key b : wf b →
    let '(b', ok) := remove ns key b in
    wf b' ∧ ok = bool_decide (is_Some (contents b !! (ns, key))) ∧
    contents b' = delete (ns, key) (contents b);
  clear_namespace_law ns b : wf b →
    let '(b', n) := clear_namespace ns b in
    wf b' ∧ contents b' = filter (λ e, e.1.1 ≠ ns) (contents b) ∧
    n + size (contents b') = size (contents b);
  clear_law b : wf b →
    let '(b', n) := clear b in wf b' ∧ contents b' = ∅ ∧ n = size (contents b);
}.

(* ------------------------------------------------------------------ *)
(** ** The implementation *)

Section Blackboard.
Context {TypeIndex : Type} `{!EqDecision TypeIndex} (Carrier : TypeIndex → Type).

(** [ValueHolder<T>]: a non-null [shared_ptr] to a value, tagged by its type. *)
Record StoredValue := mkStoredValue { type : TypeIndex; value : Carrier type }.

Local Notation NamespaceValues := (gmap string StoredValue).
Local Notation Values := (gmap string NamespaceValues).

Definition IsValidAddress (namespace_name key : string) : bool :=
  negb (String.eqb namespace_name "") && negb (String.eqb key "").

(** A null [StoredValue] is [None]. *)
Definition StoreValue (namespace_name key : string) (v : option StoredValue) (values : Values) :
    Values * bool :=
  match v with
  | None => (values, false)
  | Some v =>
      if negb (IsValidAddress namespace_name key) then (values, false)
      else (<[namespace_name := <[key := v]> (default ∅ (values !! namespace_name))]> values, true)
  end.

Definition GetValue (namespace_name key : string) (values : Values) : option StoredValue :=
  if negb (IsValidAddress namespace_name key) then None
  else match values !! namespace_name with
  | None => None
  | Some ns => ns !! key
  end.

Definition Contains (namespace_name key : string) (values : Values) : bool :=
  bool_decide (is_Some (GetValue namespace_name key values)).

Definition Remove (namespace_name key : string) (values : Values) : Values * bool :=
  if negb (IsValidAddress namespace_name key) then (values, false)
  else match values !! namespace_name with
  | None => (values, false)
  | Some ns =>
      match ns !! key with
      | None => (values, false)
      | Some _ =>
          let ns' := delete key ns in
          (if bool_decide (ns' = ∅) then delete namespace_name values
           else <[namespace_name := ns']> values, true)
      end
  end.

Definition Clear (namespace_name : string) (values : Values) : Values * nat :=
  if String.eqb namespace_name "" then (values, 0)
  else match values !! namespace_name with
  | None => (values, 0)
  | Some ns => (delete namespace_name values, size ns)
  end.

Definition Clear_all (values : Values) : Values * nat :=
  (∅, map_fold (λ _ ns removed, removed + size ns) 0 values).

(** The typed accessors: a null pointer is refused, and a value is only read
    back at the type it was stored with. *)
Definition StoreShared {T : TypeIndex} (namespace_name key : string) (v : option (Carrier T))
    (values : Values) : Values * bool :=
  match v with
  | None => (values, false)
  | Some v => StoreValue namespace_name key (Some (mkStoredValue T v)) values
  end.

Definition Get (T : TypeIndex) (namespace_name key : string) (values : Values) :
    option (Carrier T) :=
  match GetValue namespace_name key values with
  | None => None
  | Some stored =>
      match decide (type stored = T) with
      | left E => Some (eq_rect _ Carrier (value stored) _ E)
      | right _ => None
      end
  end.

(* ------------------------------------------------------------------ *)
(** ** Refinement *)

(** Namespaces are not empty, and every address is valid. *)
Definition well_formed (values : Values) : Prop :=
  ∀ n ns, values !! n = Some ns → ns ≠ ∅ ∧ n ≠ "" ∧ ns !! "" = None.

(** The addresses in use and their values. *)
Definition flat (values : Values) : gmap Address StoredValue :=
  map_uncurry (M1 := gmap string) (M2 := gmap string) (M12 := gmap Address) values.

#[global] Instance Blackboard_spec : BlackboardSpec Values StoredValue := {|
  contents := flat;
  store ns key v := StoreValue ns key (Some v);
  fetch := GetValue;
  remove := Remove;
  clear_namespace := Clear;
  clear := Clear_all;
|}.

Lemma IsValidAddress_spec n k : IsValidAddress n k = bool_decide (valid_address (n, k)).
Proof.
  unfold IsValidAddress, valid_address. simpl.
  destruct (String.eqb_spec n ""), (String.eqb_spec k ""); simpl; symmetry;
    (apply bool_decide_eq_true || apply bool_decide_eq_false); tauto.
Qed.

Lemma flat_lookup n k (values : Values) :
  flat values !! (n, k) = values !! n ≫= (.!! k).
Proof. apply lookup_map_uncurry. Qed.

Lemma GetValue_flat n k values :
  well_formed values → GetValue n k values = flat values !! (n, k).
Proof.
  intros Hwf. rewrite flat_lookup. unfold GetValue. rewrite IsValidAddress_spec.
  destruct (values !! n) as [ns|] eqn:Hn; simpl; [|by case_match].
  destruct (Hwf _ _ Hn) as (_ & Hne & He). case_bool_decide as Hv; [done|]. simpl.
  destruct (decide (k = "")) as [->|Hk]; [done|]. by destruct Hv.
Qed.

Lemma well_formed_delete n values : well_formed values → well_formed (delete n values).
Proof. intros Hwf m ns [_ Hm]%lookup_delete_Some. by apply (Hwf m). Qed.

Lemma well_formed_insert n ns values :
  well_formed values → ns ≠ ∅ → n ≠ "" → ns !! "" = None → well_formed (<[n := ns]> values).
Proof. intros Hwf ??? m ns' [[-> ->]|[_ Hm]]%lookup_insert_Some; [done|]. by apply (Hwf m). Qed.

Lemma well_formed_empty : well_formed ∅.
Proof. intros n ns H. by rewrite lookup_empty in H. Qed.

(** *** Sizes *)

Lemma flat_insert_fresh n (ns : NamespaceValues) (values : Values) :
  values !! n = None →
  flat (<[n := ns]> values) = kmap (pair n) ns ∪ flat values ∧
  kmap (M2 := gmap Address) (pair n) ns ##ₘ flat values.
Proof.
  intros Hn.
  assert (Hdisj : kmap (M2 := gmap Address) (pair n) ns ##ₘ flat values).
  { apply map_disjoint_spec. intros [m k] x y (k' & [= <- <-] & _)%lookup_kmap_Some Hy; [|apply _].
    by rewrite flat_lookup, Hn in Hy. }
  split; [|done]. apply map_eq. intros [m k]. rewrite flat_lookup.
  destruct (decide (m = n)) as [->|Hne].
  - rewrite lookup_insert_eq. simpl. rewrite lookup_union_l.
    + symmetry. apply (lookup_kmap (M2 := gmap Address) (pair n)).
    + by rewrite flat_lookup, Hn.
  - rewrite lookup_insert_ne by done. rewrite lookup_union_r; [by rewrite flat_lookup|].
    apply lookup_kmap_None; [apply _|]. intros k' [= -> _]. done.
Qed.

Lemma size_flat_insert_fresh n ns values :
  values !! n = None → size (flat (<[n := ns]> values)) = size ns + size (flat values).
Proof.
  intros Hn. destruct (flat_insert_fresh n ns values Hn) as [-> Hd].
  rewrite map_size_disj_union by done. f_equal.
  rewrite <-!length_map_to_list, map_to_list_kmap by apply _. apply length_fmap.
Qed.

Lemma flat_empty : flat (∅ : Values) = ∅.
Proof. apply map_eq. intros [n k]. by rewrite flat_lookup, !lookup_empty. Qed.

Lemma Clear_all_counts values : (Clear_all values).2 = size (flat values).
Proof.
  unfold Clear_all. simpl. induction values as [|n ns values Hn IH] using map_ind.
  - by rewrite map_fold_empty.
  - rewrite map_fold_insert_L; [|intros; lia|done].
    rewrite size_flat_insert_fresh by done. simpl in IH. lia.
Qed.

Lemma flat_delete_namespace n values :
  flat (delete n values) = filter (λ e, e.1.1 ≠ n) (flat values).
Proof.
  apply map_eq. intros [m k]. rewrite flat_lookup, map_lookup_filter, flat_lookup.
  destruct (decide (m = n)) as [->|Hne].
  - rewrite lookup_delete_eq. simpl. destruct (values !! n ≫= _); simpl; [|done].
    by rewrite option_guard_False by (simpl; tauto).
  - rewrite lookup_delete_ne by done. destruct (values !! m ≫= _); simpl; [|done].
    by rewrite option_guard_True.
Qed.

Lemma size_flat_delete n ns values :
  values !! n = Some ns → size ns + size (flat (delete n values)) = size (flat values).
Proof.
  intros Hn. rewrite <-(insert_delete_id _ _ _ Hn) at 2.
  by rewrite size_flat_insert_fresh by apply lookup_delete_eq.
Qed.

Lemma filter_flat_absent n values :
  values !! n = None → filter (λ e, e.1.1 ≠ n) (flat values) = flat values.
Proof. intros Hn. rewrite <-flat_delete_namespace. by rewrite delete_id. Qed.

(** *** The laws *)

Lemma flat_insert_value n k v values :
  flat (<[n := <[k := v]> (default ∅ (values !! n))]> values) = <[(n, k) := v]> (flat values).
Proof.
  apply map_eq. intros [m j]. rewrite flat_lookup.
  destruct (decide (m = n)) as [->|Hm].
  - rewrite lookup_insert_eq. simpl. destruct (decide (j = k)) as [->|Hj].
    + by rewrite !lookup_insert_eq.
    + rewrite !lookup_insert_ne by congruence. rewrite flat_lookup.
      destruct (values !! n); simpl; [done|]. apply lookup_empty.
  - rewrite !lookup_insert_ne by congruence. by rewrite flat_lookup.
Qed.

Lemma StoreValue_law n k v values :
  well_formed values →
  let '(values', ok) := StoreValue n k (Some v) values in
  well_formed values' ∧ ok = bool_decide (valid_address (n, k)) ∧
  flat values' = if ok then <[(n, k) := v]> (flat values) else flat values.
Proof.
  intros Hwf. unfold StoreValue. rewrite IsValidAddress_spec.
  case_bool_decide as Hv; simpl; [|done]. destruct Hv as [Hn Hk]. simpl in *.
  split; [|split; [done|apply flat_insert_value]].
  apply well_formed_insert; [done|apply insert_non_empty|done|].
  rewrite lookup_insert_ne by done. destruct (values !! n) as [ns|] eqn:E; simpl; [|done].
  by destruct (Hwf _ _ E) as (_ & _ & ?).
Qed.

Lemma flat_delete_value n k (ns : NamespaceValues) values :
  values !! n = Some ns →
  flat (if bool_decide (delete k ns = ∅) then delete n values
        else <[n := delete k ns]> values) = delete (n, k) (flat values).
Proof.
  intros Hn. apply map_eq. intros [m j].
  assert (Hat : ∀ values', values' !! n ≫= (.!! j) = delete k ns !! j →
    (m ≠ n → values' !! m = values !! m) →
    flat values' !! (m, j) = delete (n, k) (flat values) !! (m, j)).
  { intros values' Hsame Hother. rewrite flat_lookup.
    destruct (decide (m = n)) as [->|Hm].
    - rewrite Hsame. destruct (decide (j = k)) as [->|Hj]; [by rewrite !lookup_delete_eq|].
      rewrite !lookup_delete_ne by congruence. by rewrite flat_lookup, Hn.
    - rewrite lookup_delete_ne by congruence. by rewrite flat_lookup, Hother. }
  apply Hat; case_bool_decide as He.
  - by rewrite lookup_delete_eq, He, lookup_empty.
  - by rewrite lookup_insert_eq.
  - intros. by rewrite lookup_delete_ne.
  - intros. by rewrite lookup_insert_ne.
Qed.

Lemma Remove_law n k values :
  well_formed values →
  let '(values', ok) := Remove n k values in
  well_formed values' ∧ ok = bool_decide (is_Some (flat values !! (n, k))) ∧
  flat values' = delete (n, k) (flat values).
Proof.
  intros Hwf. rewrite <-(GetValue_flat _ _ _ Hwf). unfold Remove, GetValue.
  assert (Hnone : GetValue n k values = None → flat values = delete (n, k) (flat values)).
  { intros Hg. rewrite GetValue_flat in Hg by done. by rewrite delete_id. }
  unfold GetValue in Hnone. destruct (negb _); [by auto|].
  destruct (values !! n) as [ns|] eqn:Hn; [|by auto].
  destruct (ns !! k) as [v|] eqn:Hk; [|by auto].
  split; [|split; [done|by apply flat_delete_value]].
  destruct (Hwf _ _ Hn) as (_ & Hne & He).
  case_bool_decide; [by apply well_formed_delete|].
  apply well_formed_insert; [done..|]. destruct (decide (k = "")) as [->|]; [congruence|].
  by rewrite lookup_delete_ne.
Qed.

Lemma Clear_law n values :
  well_formed values →
  let '(values', removed) := Clear n values in
  well_formed values' ∧ flat values' = filter (λ e, e.1.1 ≠ n) (flat values) ∧
  removed + size (flat values') = size (flat values).
Proof.
  intros Hwf. unfold Clear. destruct (String.eqb_spec n "") as [->|Hn].
  - split; [done|]. split; [|done]. symmetry. apply filter_flat_absent.
    destruct (values !! "") eqn:E; [|done]. by destruct (Hwf _ _ E) as (_ & ? & _).
  - destruct (values !! n) as [ns|] eqn:E.
    + split; [by apply well_formed_delete|]. split; [apply flat_delete_namespace|].
      by apply size_flat_delete.
    + split; [done|]. split; [|done]. by rewrite filter_flat_absent.
Qed.

(** C24: the two-level map implements the finite map from addresses to values
    that the interface promises: storing, fetching, removing and clearing act
    pointwise on the contents with the results the callers see, the counts
    that [Clear] returns are the numbers of values removed, and no operation
    leaves an empty namespace behind. *)
Theorem Blackboard_implements : BlackboardLaws Blackboard_spec well_formed.
Proof.
  split; intros; simpl.
  - by apply StoreValue_law.
  - by apply GetValue_flat.
  - by apply Remove_law.
  - by apply Clear_law.
  - split; [apply well_formed_empty|]. split; [apply flat_empty|]. apply Clear_all_counts.
Qed.

(** A value stored at a valid address is read back at the type it was
    stored with and at no other type, whatever was there before; all other
    addresses keep their values, and a null value is refused. *)
Theorem Store_Get (T T' : TypeIndex) n k v values :
  well_formed values → valid_address (n, k) →
  ∃ values', StoreShared (T := T) n k (Some v) values = (values', true) ∧
    well_formed values' ∧
    Get T n k values' = Some v ∧ (T' ≠ T → Get T' n k values' = None) ∧
    (∀ n' k' U, (n', k') ≠ (n, k) → Get U n' k' values' = Get U n' k' values) ∧
    StoreShared (T := T) n k None values = (values, false).
Proof.
  intros Hwf Hv. unfold StoreShared.
  pose proof (StoreValue_law n k (mkStoredValue T v) values Hwf) as Hlaw.
  destruct (StoreValue n k (Some (mkStoredValue T v)) values) as [values' ok].
  rewrite bool_decide_eq_true_2 in Hlaw by done. destruct Hlaw as (Hwf' & -> & Hflat).
  assert (Hget : GetValue n k values' = Some (mkStoredValue T v)).
  { rewrite GetValue_flat by done. rewrite Hflat. apply lookup_insert_eq. }
  exists values'. split; [done|]. split; [done|]. split; [|split; [|split; [|done]]].
  - unfold Get. rewrite Hget. simpl. destruct (decide (T = T)) as [E|]; [|done]. f_equal.
    symmetry. apply Eqdep_dec.eq_rect_eq_dec. intros x y. destruct (decide (x = y)); auto.
  - intros Hne. unfold Get. rewrite Hget. simpl. by destruct (decide (T = T')).
  - intros n' k' U Hne. unfold Get. rewrite !GetValue_flat by done. rewrite Hflat.
    by rewrite lookup_insert_ne.
Qed.

End Blackboard.

(** Two types: integers and strings. *)
Lemma Store_Get_witness :
  ∃ values', StoreShared (TypeIndex := bool) (λ b, if b then Z else string) (T := true)
      "robot" "battery" (Some 87%Z) ∅ = (values', true) ∧
    Get (λ b : bool, if b then Z else string) true "robot" "battery" values' = Some 87%Z.
Proof.
  destruct (Store_Get (λ b : bool, if b then Z else string) true false "robot" "battery" 87%Z ∅)
    as (values' & Hs & _ & Hg & _).
  - apply well_formed_empty.
  - by vm_compute.
  - by exists values'.
Defined.
