(* ===== verification/ResourceManager.v ===== *)
(** * The resource manager

    [ResourceManagerState], [ResourceHandle] and [ResourceLock] of
    src/runtime/ResourceManager.cpp: shared and exclusive leases on named
    resources, blocking, timed and non-blocking acquisition.

    Every critical section is one transition.  A blocking [Acquire] that
    cannot proceed becomes a waiter; [condition_variable::wait] with its
    predicate is a loop that looks at the predicate when it is notified, at
    any other time (spuriously), or when its deadline has passed.  A waiter
    carries whether a notification has reached it since it last went to
    sleep, and [Release] notifies after it has unlocked, so that lost wake-ups
    are expressible.  The steady clock only decides when a timed wait is over,
    which may be at any wake-up. *)

From S2P Require Import Prelude.
From stdpp Require Import fin_maps fin_sets.

Inductive ResourceLockMode := Shared | Exclusive | ModeRaw (value : Z).

#[export] Instance ResourceLockMode_eq_dec : EqDecision ResourceLockMode.
Proof. solve_decision. Defined.

Record ResourceState := mkResourceState {
  shared_leases : gset Z;
  exclusive_lease : option Z;
  waiting_shared : nat;
  waiting_exclusive : nat;
}.

#[export] Instance eta_ResourceState : EtaRecord ResourceState := fun r =>
  mkResourceState (shared_leases r) (exclusive_lease r) (waiting_shared r) (waiting_exclusive r).

#[export] Instance ResourceState_eq_dec : EqDecision ResourceState.
Proof. solve_decision. Defined.

Definition empty_resource : ResourceState := mkResourceState ∅ None 0 0.

Record ResourceHandle := mkHandle { resource_id : string; mode : ResourceLockMode; lease_id : Z }.

(** The default-constructed handle. *)
Definition no_handle : ResourceHandle := mkHandle "" Shared 0.

(** A thread inside a blocking [Acquire]. *)
Record Waiter := mkWaiter {
  w_resource : string;
  w_mode : ResourceLockMode;
  w_timed : bool;
  w_notified : bool;
}.

#[export] Instance eta_Waiter : EtaRecord Waiter := fun w =>
  mkWaiter (w_resource w) (w_mode w) (w_timed w) (w_notified w).

Record ManagerState := mkManagerState {
  resources : gmap string ResourceState;
  next_lease_id : Z;
  waiters : gmap nat Waiter;
  next_waiter : nat;
  pending_notifications : nat;   (** [Release]s between [unlock] and [notify_all] *)
}.

#[export] Instance eta_ManagerState : EtaRecord ManagerState := fun s =>
  mkManagerState (resources s) (next_lease_id s) (waiters s) (next_waiter s)
    (pending_notifications s).

Definition initial : ManagerState := mkManagerState ∅ 1 ∅ 0 0.

(* ------------------------------------------------------------------ *)
(** ** Leases *)

Definition IsValidResourceId (r : string) : bool := negb (String.eqb r "").

Definition CanAcquireShared (r : ResourceState) : bool :=
  negb (bool_decide (is_Some (exclusive_lease r))) && bool_decide (waiting_exclusive r = 0).

Definition CanAcquireExclusive (r : ResourceState) : bool :=
  negb (bool_decide (is_Some (exclusive_lease r))) && bool_decide (shared_leases r = ∅).

Definition CanAcquire (r : ResourceState) (m : ResourceLockMode) : bool :=
  if bool_decide (m = Shared) then CanAcquireShared r else CanAcquireExclusive r.

Definition IsValid (h : ResourceHandle) : bool :=
  negb (String.eqb (resource_id h) "") && negb (lease_id h =? 0)%Z.

(** Nothing holds, or waits for, the resource. *)
Definition unused (r : ResourceState) : bool :=
  bool_decide (shared_leases r = ∅) && negb (bool_decide (is_Some (exclusive_lease r))) &&
  bool_decide (waiting_shared r = 0) && bool_decide (waiting_exclusive r = 0).

(** [resources_[id]]: the entry, created if there is none. *)
Definition entry (r : string) (s : ManagerState) : ResourceState :=
  default empty_resource (resources s !! r).

Definition set_entry (r : string) (rs : ResourceState) (s : ManagerState) : ManagerState :=
  s <| resources ::= insert r rs |>.

Definition RemoveUnusedResourceLocked (r : string) (s : ManagerState) : ManagerState :=
  if unused (entry r s) then s <| resources ::= delete r |> else s.

Definition CreateLockLocked (r : string) (m : ResourceLockMode) (s : ManagerState) :
    ManagerState * ResourceHandle :=
  let lease := next_lease_id s in
  let s1 := s <| next_lease_id ::= u64_incr |> in
  ((if bool_decide (m = Exclusive)
    then set_entry r ((entry r s) <| exclusive_lease := Some lease |>) s1
    else set_entry r ((entry r s) <| shared_leases ::= union {[lease]} |>) s1),
   mkHandle r m lease).

(* ------------------------------------------------------------------ *)
(** ** Operations *)

Definition notify_all (s : ManagerState) : ManagerState :=
  s <| waiters ::= fmap (set_field w_notified (λ _, true)) |>.

(** What a call of [Acquire] or [TryAcquire] comes to. *)
Inductive AcquireResult :=
  | Acquired (h : ResourceHandle)
  | NotAcquired
  | Blocked (w : nat).

Definition TryAcquire (r : string) (m : ResourceLockMode) (s : ManagerState) :
    ManagerState * AcquireResult :=
  if negb (IsValidResourceId r) then (s, NotAcquired)
  else
    let s1 := set_entry r (entry r s) s in
    if negb (CanAcquire (entry r s1) m) then (RemoveUnusedResourceLocked r s1, NotAcquired)
    else let '(s2, h) := CreateLockLocked r m s1 in (s2, Acquired h).

(** The two branches of [Acquire]: the counter that is held while waiting and
    the predicate waited for. *)
Definition count_waiting (m : ResourceLockMode) (f : nat → nat) (r : ResourceState) :
    ResourceState :=
  if bool_decide (m = Exclusive) then r <| waiting_exclusive ::= f |>
  else r <| waiting_shared ::= f |>.

Definition wait_over (m : ResourceLockMode) (r : ResourceState) : bool :=
  if bool_decide (m = Exclusive) then CanAcquireExclusive r else CanAcquireShared r.

(** After the wait: the counter is given back and the lock is created, or
    the timed acquisition gives up. *)
Definition finish_wait (acquired : bool) (r : string) (m : ResourceLockMode) (s : ManagerState) :
    ManagerState * AcquireResult :=
  let s1 := set_entry r (count_waiting m pred (entry r s)) s in
  if acquired then let '(s2, h) := CreateLockLocked r m s1 in (s2, Acquired h)
  else
    let s2 := RemoveUnusedResourceLocked r s1 in
    (if bool_decide (m = Exclusive) then notify_all s2 else s2, NotAcquired).

(** The critical section up to the point where it owns the lock or sleeps. *)
Definition begin_wait (r : string) (m : ResourceLockMode) (timed : bool) (s : ManagerState) :
    ManagerState * AcquireResult :=
  let s1 := set_entry r (count_waiting m S (entry r s)) s in
  if wait_over m (entry r s1) then finish_wait true r m s1
  else
    (s1 <| waiters ::= insert (next_waiter s) (mkWaiter r m timed false) |>
        <| next_waiter ::= S |>,
     Blocked (next_waiter s)).

(** [timeout] is the argument of the timed overload, in milliseconds. *)
Definition Acquire (r : string) (m : ResourceLockMode) (timeout : option Z) (s : ManagerState) :
    ManagerState * AcquireResult :=
  if negb (IsValidResourceId r) then (s, NotAcquired)
  else match timeout with
  | Some t => if (t <=? 0)%Z then TryAcquire r m s else begin_wait r m true s
  | None => begin_wait r m false s
  end.

(** A waiter wakes up and looks at its predicate; [deadline_passed] is what
    [wait_until] reports.  [None] when there is no such waiter, or when the
    entry to which it holds a reference is gone. *)
Definition Acquire_wake (w : nat) (deadline_passed : bool) (s : ManagerState) :
    option (ManagerState * AcquireResult) :=
  waiter ← waiters s !! w;
  rs ← resources s !! w_resource waiter;
  if wait_over (w_mode waiter) rs then
    Some (finish_wait true (w_resource waiter) (w_mode waiter) (s <| waiters ::= delete w |>))
  else if w_timed waiter && deadline_passed then
    Some (finish_wait false (w_resource waiter) (w_mode waiter) (s <| waiters ::= delete w |>))
  else Some (s <| waiters ::= insert w (waiter <| w_notified := false |>) |>, Blocked w).

(** The critical section of [Release]; it owes a [notify_all] when it released. *)
Definition Release (h : ResourceHandle) (s : ManagerState) : ManagerState * bool :=
  if negb (IsValid h) then (s, false)
  else match resources s !! resource_id h with
  | None => (s, false)
  | Some rs =>
      let '(rs', released) :=
        if bool_decide (mode h = Exclusive) then
          if bool_decide (exclusive_lease rs = Some (lease_id h))
          then (rs <| exclusive_lease := None |>, true) else (rs, false)
        else (rs <| shared_leases ::= λ l, l ∖ {[lease_id h]} |>,
              bool_decide (lease_id h ∈ shared_leases rs)) in
      if negb released then (s, false)
      else
        ((if unused rs' then s <| resources ::= delete (resource_id h) |>
          else set_entry (resource_id h) rs' s) <| pending_notifications ::= S |>, true)
  end.

Definition Release_notify (s : ManagerState) : option ManagerState :=
  match pending_notifications s with
  | O => None
  | S n => Some ((notify_all s) <| pending_notifications := n |>)
  end.

Definition ActiveLockCount (r : string) (s : ManagerState) : nat :=
  if negb (IsValidResourceId r) then 0
  else match resources s !! r with
  | None => 0
  | Some rs => size (shared_leases rs) + (if bool_decide (is_Some (exclusive_lease rs)) then 1 else 0)
  end.

(** [ResourceLock]: whether it refers to a manager, its handle, and whether
    it owns the lease. *)
Record ResourceLock := mkLock { has_state : bool; handle : ResourceHandle; owns_lock : bool }.

Definition no_lock : ResourceLock := mkLock false no_handle false.

Definition new_lock (h : ResourceHandle) : ResourceLock := mkLock true h (IsValid h).

(** [ResourceLock::Release], also what its destructor runs. *)
Definition Lock_Release (l : ResourceLock) (s : ManagerState) : ManagerState * ResourceLock * bool :=
  if negb (owns_lock l) || negb (has_state l) then (s, l, false)
  else let '(s', released) := Release (handle l) s in
       (s', mkLock (has_state l) (handle l) false, released).

(** Move assignment from a different lock: both locks afterwards.  The moved
    handle keeps its numbers, its string is left unspecified. *)
Definition Lock_move_assign (l other : ResourceLock) (other_id : string) (s : ManagerState) :
    ManagerState * ResourceLock * ResourceLock :=
  ((Lock_Release l s).1.1, other,
   mkLock false (mkHandle other_id (mode (handle other)) (lease_id (handle other))) false).

(* ------------------------------------------------------------------ *)
(** ** Interleavings *)

Inductive Label :=
  | LAcquire (r : string) (m : ResourceLockMode) (timeout : option Z)
  | LTryAcquire (r : string) (m : ResourceLockMode)
  | LWake (w : nat) (deadline_passed : bool)
  | LRelease (h : ResourceHandle)
  | LNotify.

Definition exec (s : ManagerState) (l : Label) : option ManagerState :=
  match l with
  | LAcquire r m t => Some (Acquire r m t s).1
  | LTryAcquire r m => Some (TryAcquire r m s).1
  | LWake w d => fst <$> Acquire_wake w d s
  | LRelease h => Some (Release h s).1
  | LNotify => Release_notify s
  end.

(** A state some interleaving of fewer than [2 ^ 64 - 2] critical sections
    leads to: the lease counter has not wrapped around. *)
Definition reachable (s : ManagerState) : Prop :=
  ∃ ls, run exec initial ls = Some s ∧ (Z.of_nat (length ls) < u64_modulus - 2)%Z.

(* ------------------------------------------------------------------ *)
(** ** Invariant *)

Definition holds (rs : ResourceState) (lease : Z) : Prop :=
  exclusive_lease rs = Some lease ∨ lease ∈ shared_leases rs.

Definition is_exclusive (m : ResourceLockMode) : bool := bool_decide (m = Exclusive).

(** The waiters on [r] that wait for an exclusive, or for a shared, lease. *)
Definition waiting_on (r : string) (excl : bool) (ws : gmap nat Waiter) : nat :=
  size (filter (λ e, w_resource e.2 = r ∧ is_exclusive (w_mode e.2) = excl) ws).

Lemma waiting_on_insert r excl ws w x :
  ws !! w = None →
  waiting_on r excl (<[w := x]> ws) =
  (if bool_decide (w_resource x = r ∧ is_exclusive (w_mode x) = excl) then 1 else 0)
    + waiting_on r excl ws.
Proof.
  intros Hw. unfold waiting_on. rewrite map_filter_insert. case_decide as Hx; simpl in Hx.
  - rewrite bool_decide_eq_true_2 by done. rewrite map_size_insert_None; [done|].
    apply map_lookup_filter_None. by left.
  - rewrite bool_decide_eq_false_2 by done. by rewrite delete_id.
Qed.

Lemma waiting_on_delete r excl ws w x :
  ws !! w = Some x →
  waiting_on r excl ws =
  (if bool_decide (w_resource x = r ∧ is_exclusive (w_mode x) = excl) then 1 else 0)
    + waiting_on r excl (delete w ws).
Proof.
  intros Hw. rewrite <-(insert_delete_id _ _ _ Hw) at 1.
  apply waiting_on_insert. apply lookup_delete_eq.
Qed.

(** Only the notification flag of a waiter changes. *)
Lemma waiting_on_renotify r excl ws w x b :
  ws !! w = Some x →
  waiting_on r excl (<[w := x <| w_notified := b |>]> ws) = waiting_on r excl ws.
Proof.
  intros Hw. rewrite <-(insert_delete_eq ws w). rewrite waiting_on_insert by apply lookup_delete_eq.
  by rewrite (waiting_on_delete _ _ _ _ _ Hw).
Qed.

Lemma waiting_on_notify_all r excl ws :
  waiting_on r excl (set_field w_notified (λ _, true) <$> ws) = waiting_on r excl ws.
Proof. unfold waiting_on. rewrite map_filter_fmap, map_size_fmap. done. Qed.

Lemma waiting_on_positive r excl ws w x :
  ws !! w = Some x → w_resource x = r → is_exclusive (w_mode x) = excl → 1 <= waiting_on r excl ws.
Proof.
  intros Hw Hr Hx. rewrite (waiting_on_delete _ _ _ _ _ Hw), bool_decide_eq_true_2 by done. lia.
Qed.

(** The part of the invariant that only depends on the entries. *)
Record core (E : string → ResourceState) (ws : gmap nat Waiter) (next : Z) (nw : nat) : Prop := {
  co_shared r : waiting_shared (E r) = waiting_on r false ws;
  co_exclusive r : waiting_exclusive (E r) = waiting_on r true ws;
  co_mutex r : is_Some (exclusive_lease (E r)) → shared_leases (E r) = ∅;
  co_range r l : holds (E r) l → (1 <= l < next)%Z;
  co_unique r1 r2 l : holds (E r1) l → holds (E r2) l → r1 = r2;
  co_next : (1 <= next)%Z;
  co_fresh w : is_Some (ws !! w) → w < nw;
}.

Record rm_inv (s : ManagerState) : Prop := {
  ri_core : core (λ r, entry r s) (waiters s) (next_lease_id s) (next_waiter s);
  ri_used r rs : resources s !! r = Some rs → unused rs = false;
  ri_wakeup w x : waiters s !! w = Some x → w_notified x = false → pending_notifications s = 0 →
    wait_over (w_mode x) (entry (w_resource x) s) = false;
}.

(** Two families of entries that differ at one resource only. *)
Definition updated (r : string) (rs : ResourceState) (E E' : string → ResourceState) : Prop :=
  E' r = rs ∧ ∀ r', r' ≠ r → E' r' = E r'.

Definition add_lease (m : ResourceLockMode) (l : Z) (rs : ResourceState) : ResourceState :=
  if bool_decide (m = Exclusive) then rs <| exclusive_lease := Some l |>
  else rs <| shared_leases ::= union {[l]} |>.

Lemma holds_add_lease m l rs l' :
  exclusive_lease rs = None → holds (add_lease m l rs) l' ↔ l' = l ∨ holds rs l'.
Proof.
  intros Hn. unfold holds, add_lease. case_bool_decide; simpl; rewrite Hn; [|set_solver].
  split; [intros [[= ->]|?]|intros [->|[?|?]]]; auto; done.
Qed.

Lemma core_grant E E' ws next nw r m :
  core E ws next nw → updated r (add_lease m next (E r)) E E' →
  exclusive_lease (E r) = None → (m = Exclusive → shared_leases (E r) = ∅) →
  core E' ws (next + 1) nw.
Proof.
  intros [H1 H2 H3 H4 H5 H6 H7] [Hr Hother] Hnone Hexcl.
  assert (Hholds : ∀ r' l, holds (E' r') l → (r' = r ∧ l = next) ∨ holds (E r') l).
  { intros r' l Hl. destruct (decide (r' = r)) as [->|Hne]; [|by rewrite Hother in Hl; auto].
    rewrite Hr, holds_add_lease in Hl by done. tauto. }
  assert (Hcounts : ∀ r', waiting_shared (E' r') = waiting_shared (E r') ∧
    waiting_exclusive (E' r') = waiting_exclusive (E r')).
  { intros r'. destruct (decide (r' = r)) as [->|Hne]; [|by rewrite Hother].
    rewrite Hr. unfold add_lease. by case_bool_decide. }
  split; try done.
  - intros r'. by rewrite (proj1 (Hcounts r')).
  - intros r'. by rewrite (proj2 (Hcounts r')).
  - intros r'. destruct (decide (r' = r)) as [->|Hne]; [|rewrite Hother by done; apply H3].
    rewrite Hr. unfold add_lease. case_bool_decide; simpl; [auto|]. rewrite Hnone. by intros [].
  - intros r' l [[_ ->]|Hl%H4]%Hholds; lia.
  - intros r1 r2 l [[-> ->]|Hl1]%Hholds [[-> Hl]|Hl2]%Hholds; eauto.
    + apply H4 in Hl2. lia.
    + subst. apply H4 in Hl1. lia.
  - lia.
Qed.

Lemma count_waiting_fields m f rs :
  shared_leases (count_waiting m f rs) = shared_leases rs ∧
  exclusive_lease (count_waiting m f rs) = exclusive_lease rs ∧
  waiting_shared (count_waiting m f rs) =
    (if is_exclusive m then waiting_shared rs else f (waiting_shared rs)) ∧
  waiting_exclusive (count_waiting m f rs) =
    (if is_exclusive m then f (waiting_exclusive rs) else waiting_exclusive rs).
Proof. unfold count_waiting, is_exclusive. by case_bool_decide. Qed.

(** The counters follow the waiters, whoever they are. *)
Lemma core_counts E E' ws ws' next nw nw' r m f :
  core E ws next nw → updated r (count_waiting m f (E r)) E E' →
  (∀ excl, waiting_on r excl ws' =
     if bool_decide (is_exclusive m = excl) then f (waiting_on r excl ws) else waiting_on r excl ws) →
  (∀ r' excl, r' ≠ r → waiting_on r' excl ws' = waiting_on r' excl ws) →
  (∀ w, is_Some (ws' !! w) → w < nw') →
  core E' ws' next nw'.
Proof.
  intros [H1 H2 H3 H4 H5 H6 H7] [Hr Hother] Hat Haway Hfresh.
  pose proof (count_waiting_fields m f (E r)) as (F1 & F2 & F3 & F4).
  assert (Hholds : ∀ r' l, holds (E' r') l ↔ holds (E r') l).
  { intros r' l. destruct (decide (r' = r)) as [->|Hne]; [|by rewrite Hother].
    rewrite Hr. unfold holds. by rewrite F1, F2. }
  split; try done.
  - intros r'. destruct (decide (r' = r)) as [->|Hne]; [|by rewrite Hother, Haway].
    rewrite Hr, F3, Hat, H1. by destruct (is_exclusive m).
  - intros r'. destruct (decide (r' = r)) as [->|Hne]; [|by rewrite Hother, Haway].
    rewrite Hr, F4, Hat, H2. by destruct (is_exclusive m).
  - intros r'. destruct (decide (r' = r)) as [->|Hne]; [|by rewrite Hother; eauto].
    rewrite Hr, F1, F2. apply H3.
  - intros r' l Hl%Hholds. eauto.
  - intros r1 r2 l Hl1%Hholds Hl2%Hholds. eauto.
Qed.

Lemma core_enter E E' ws next nw r m timed :
  core E ws next nw → updated r (count_waiting m S (E r)) E E' →
  core E' (<[nw := mkWaiter r m timed false]> ws) next (S nw).
Proof.
  intros I Hup. assert (Hnone : ws !! nw = None).
  { destruct (ws !! nw) eqn:Hw; [|done].
    pose proof (co_fresh _ _ _ _ I nw (mk_is_Some _ _ Hw)). lia. }
  eapply core_counts; [done|done|..].
  - intros excl. rewrite waiting_on_insert by done. simpl.
    destruct (decide (is_exclusive m = excl)).
    + rewrite !bool_decide_eq_true_2 by done. done.
    + rewrite !bool_decide_eq_false_2 by tauto. done.
  - intros r' excl Hne. rewrite waiting_on_insert by done. simpl.
    by rewrite bool_decide_eq_false_2 by (intros [? _]; congruence).
  - intros w. destruct (decide (w = nw)) as [->|Hne]; [lia|].
    rewrite lookup_insert_ne by done. intros Hw%(co_fresh _ _ _ _ I). lia.
Qed.

Lemma core_leave E E' ws next nw w x :
  core E ws next nw → ws !! w = Some x →
  updated (w_resource x) (count_waiting (w_mode x) pred (E (w_resource x))) E E' →
  core E' (delete w ws) next nw.
Proof.
  intros I Hw Hup. eapply core_counts; [done|done|..].
  - intros excl. rewrite (waiting_on_delete _ _ _ _ _ Hw).
    destruct (decide (is_exclusive (w_mode x) = excl)).
    + rewrite !bool_decide_eq_true_2 by done. simpl. done.
    + rewrite !bool_decide_eq_false_2 by tauto. done.
  - intros r' excl Hne. rewrite (waiting_on_delete _ _ _ _ _ Hw).
    by rewrite bool_decide_eq_false_2 by (intros [? _]; congruence).
  - intros w' [x' [_ Hw']%lookup_delete_Some]. by apply (co_fresh _ _ _ _ I).
Qed.

(** A lease is given back. *)
Definition drop_lease (l : Z) (rs rs' : ResourceState) : Prop :=
  waiting_shared rs' = waiting_shared rs ∧ waiting_exclusive rs' = waiting_exclusive rs ∧
  (exclusive_lease rs' = exclusive_lease rs ∨ exclusive_lease rs' = None) ∧
  shared_leases rs' ⊆ shared_leases rs ∧
  (∀ l', holds rs' l' ↔ holds rs l' ∧ l' ≠ l).

Lemma core_release E E' ws next nw r l rs' :
  core E ws next nw → updated r rs' E E' → drop_lease l (E r) rs' → core E' ws next nw.
Proof.
  intros [H1 H2 H3 H4 H5 H6 H7] [Hr Hother] (D1 & D2 & D3 & D4 & D5).
  assert (Hholds : ∀ r' l', holds (E' r') l' → holds (E r') l').
  { intros r' l'. destruct (decide (r' = r)) as [->|Hne]; [|by rewrite Hother].
    rewrite Hr, D5. tauto. }
  split; try done.
  - intros r'. destruct (decide (r' = r)) as [->|Hne]; [|by rewrite Hother]. by rewrite Hr, D1.
  - intros r'. destruct (decide (r' = r)) as [->|Hne]; [|by rewrite Hother]. by rewrite Hr, D2.
  - intros r'. destruct (decide (r' = r)) as [->|Hne]; [|by rewrite Hother; eauto].
    rewrite Hr. intros Hex. destruct D3 as [D3|D3]; rewrite D3 in Hex; [|by destruct Hex].
    specialize (H3 r Hex). set_solver.
  - intros r' l' Hl%Hholds. eauto.
  - intros r1 r2 l' Hl1%Hholds Hl2%Hholds. eauto.
Qed.

(* ------------------------------------------------------------------ *)
(** ** The operations keep the invariant *)

Lemma entry_insert r rs m n ws nw p r' :
  entry r' (mkManagerState (<[r := rs]> m) n ws nw p) =
  if decide (r' = r) then rs else default empty_resource (m !! r').
Proof.
  unfold entry. simpl. case_decide; subst; [by rewrite lookup_insert_eq|].
  by rewrite lookup_insert_ne.
Qed.

Lemma unused_empty rs : unused rs = true → rs = empty_resource.
Proof.
  unfold unused. destruct rs as [sh ex ws we]. simpl. intros H.
  destruct (bool_decide (sh = ∅)) eqn:E1, ex, (bool_decide (ws = 0)) eqn:E2,
    (bool_decide (we = 0)) eqn:E3; try done.
  apply bool_decide_eq_true in E1 as ->, E2 as ->, E3 as ->. done.
Qed.

Lemma used_holds rs l : holds rs l → unused rs = false.
Proof.
  unfold unused. intros [Hl|Hl]; apply not_true_iff_false; intros H.
  - rewrite Hl in H. simpl in H. by rewrite andb_false_r in H.
  - destruct (bool_decide_reflect (shared_leases rs = ∅)) as [E|]; [|done].
    rewrite E in Hl. set_solver.
Qed.

Lemma used_waiting rs : waiting_shared rs ≠ 0 ∨ waiting_exclusive rs ≠ 0 → unused rs = false.
Proof.
  unfold unused. intros [H|H]; rewrite (bool_decide_eq_false_2 _ H), ?andb_false_r; done.
Qed.

(** [RemoveUnusedResourceLocked] and the end of [Release] store an entry
    unless it is unused: the entries that are read are the same. *)
Definition put (r : string) (rs : ResourceState) (s : ManagerState) : ManagerState :=
  if unused rs then s <| resources ::= delete r |> else set_entry r rs s.

Lemma entry_put r rs s r' : entry r' (put r rs s) = if decide (r' = r) then rs else entry r' s.
Proof.
  unfold put. destruct (unused rs) eqn:Hu; [|apply entry_insert].
  unfold entry. simpl. case_decide; subst.
  - rewrite lookup_delete_eq. simpl. by rewrite (unused_empty _ Hu).
  - by rewrite lookup_delete_ne.
Qed.

Lemma put_used r rs s r' rs' :
  (∀ r rs, resources s !! r = Some rs → unused rs = false) →
  resources (put r rs s) !! r' = Some rs' → unused rs' = false.
Proof.
  intros Hused. unfold put. destruct (unused rs) eqn:Hu; simpl.
  - intros [_ Hr]%lookup_delete_Some. eauto.
  - intros [[-> ->]|[_ Hr]]%lookup_insert_Some; eauto.
Qed.

Lemma put_used_eq r rs s : unused rs = false → put r rs s = set_entry r rs s.
Proof. unfold put. by intros ->. Qed.
Lemma put_next r rs s : next_lease_id (put r rs s) = next_lease_id s.
Proof. unfold put. by case_match. Qed.
Lemma put_waiters r rs s : waiters (put r rs s) = waiters s.
Proof. unfold put. by case_match. Qed.
Lemma put_next_waiter r rs s : next_waiter (put r rs s) = next_waiter s.
Proof. unfold put. by case_match. Qed.
Lemma put_pending r rs s : pending_notifications (put r rs s) = pending_notifications s.
Proof. unfold put. by case_match. Qed.

Lemma RemoveUnused_put r rs s : RemoveUnusedResourceLocked r (set_entry r rs s) = put r rs s.
Proof.
  unfold RemoveUnusedResourceLocked, put, set_entry. unfold entry. simpl.
  rewrite lookup_insert_eq. simpl. destruct (unused rs) eqn:Hu; [|done].
  unfold set_field. simpl. by rewrite delete_insert_eq.
Qed.

(** Granting a lease, seen from outside. *)
Definition grant (r : string) (m : ResourceLockMode) (s : ManagerState) : ManagerState :=
  put r (add_lease m (next_lease_id s) (entry r s)) (s <| next_lease_id ::= u64_incr |>).

Lemma holds_add_lease_new m l rs : holds (add_lease m l rs) l.
Proof. unfold add_lease, holds. case_bool_decide; simpl; [by left|right; set_solver]. Qed.

Lemma CreateLockLocked_grant r m s :
  CreateLockLocked r m s = (grant r m s, mkHandle r m (next_lease_id s)).
Proof.
  unfold CreateLockLocked, grant, put. rewrite (used_holds _ _ (holds_add_lease_new _ _ _)).
  unfold add_lease. by case_bool_decide.
Qed.

(** An entry written and then written again. *)
Lemma grant_set_entry r m rs s :
  grant r m (set_entry r rs s) =
  put r (add_lease m (next_lease_id s) rs) (s <| next_lease_id ::= u64_incr |>).
Proof.
  unfold grant, put. unfold entry at 1 2. simpl. rewrite lookup_insert_eq. simpl.
  rewrite (used_holds _ _ (holds_add_lease_new _ _ _)). unfold set_entry, set_field. simpl.
  by rewrite insert_insert_eq.
Qed.

Lemma finish_wait_true r m s :
  finish_wait true r m s =
  (put r (add_lease m (next_lease_id s) (count_waiting m pred (entry r s)))
     (s <| next_lease_id ::= u64_incr |>),
   Acquired (mkHandle r m (next_lease_id s))).
Proof. unfold finish_wait. rewrite CreateLockLocked_grant. by rewrite grant_set_entry. Qed.

Lemma finish_wait_false r m s :
  finish_wait false r m s =
  (let s' := put r (count_waiting m pred (entry r s)) s in
   if bool_decide (m = Exclusive) then notify_all s' else s', NotAcquired).
Proof. unfold finish_wait. by rewrite RemoveUnused_put. Qed.

Lemma count_waiting_back m rs : count_waiting m pred (count_waiting m S rs) = rs.
Proof. unfold count_waiting. destruct rs. by case_bool_decide. Qed.

(** *** Predicates *)

Lemma wait_over_spec m rs :
  wait_over m rs = true →
  exclusive_lease rs = None ∧ (m = Exclusive → shared_leases rs = ∅) ∧
  (m ≠ Exclusive → waiting_exclusive rs = 0).
Proof.
  unfold wait_over, CanAcquireExclusive, CanAcquireShared.
  case_bool_decide; rewrite andb_true_iff, bool_decide_eq_true; intros [He ?];
    destruct (exclusive_lease rs); try done; auto.
Qed.

Lemma CanAcquire_spec m rs :
  CanAcquire rs m = true →
  exclusive_lease rs = None ∧ (m = Exclusive → shared_leases rs = ∅) ∧
  (m = Shared → waiting_exclusive rs = 0).
Proof.
  unfold CanAcquire, CanAcquireExclusive, CanAcquireShared.
  case_bool_decide; rewrite andb_true_iff, bool_decide_eq_true; intros [He ?];
    destruct (exclusive_lease rs); try done; split; try done; split; intros; by subst.
Qed.

(** A lease more, or a waiter more, makes no predicate true. *)
Lemma wait_over_add_lease m m' l rs :
  exclusive_lease rs = None → wait_over m' (add_lease m l rs) = true → wait_over m' rs = true.
Proof.
  intros Hn. unfold wait_over, add_lease, CanAcquireExclusive, CanAcquireShared.
  repeat (case_bool_decide; simpl; try done); rewrite Hn in *; simpl in *; try done.
  exfalso. set_solver.
Qed.

Lemma wait_over_count_S m m' rs :
  wait_over m' (count_waiting m S rs) = true → wait_over m' rs = true.
Proof.
  unfold wait_over, count_waiting, CanAcquireExclusive, CanAcquireShared.
  repeat (case_bool_decide; simpl; try done).
Qed.

Lemma wait_over_count_S_self m rs : wait_over m (count_waiting m S rs) = wait_over m rs.
Proof.
  unfold wait_over, count_waiting, CanAcquireExclusive, CanAcquireShared. by case_bool_decide.
Qed.

(** A shared waiter that leaves makes no predicate true. *)
Lemma wait_over_count_pred m m' rs :
  m ≠ Exclusive → wait_over m' (count_waiting m pred rs) = wait_over m' rs.
Proof. intros Hm. unfold count_waiting. by rewrite bool_decide_eq_false_2. Qed.

(** *** Moves *)

Lemma updated_put r rs s E s' :
  s' = put r rs s → (∀ r', entry r' s = E r') → updated r rs E (λ r', entry r' s').
Proof.
  intros -> HE. split; [|intros r' Hne]; rewrite entry_put; [by rewrite decide_True|].
  by rewrite decide_False, HE.
Qed.

Lemma inv_grant r m s :
  rm_inv s → (next_lease_id s < u64_modulus - 1)%Z →
  exclusive_lease (entry r s) = None → (m = Exclusive → shared_leases (entry r s) = ∅) →
  rm_inv (grant r m s).
Proof.
  intros [Hcore Hused Hwake] Hn Hnone Hexcl. unfold grant. split.
  - rewrite put_next, put_waiters, put_next_waiter. simpl.
    pose proof (co_next _ _ _ _ Hcore).
    rewrite u64_incr_small by lia. eapply core_grant; [done| |done|done]. by eapply updated_put.
  - intros r' rs'. apply put_used. done.
  - rewrite put_waiters, put_pending. simpl.
    intros w x Hw Hx Hp. rewrite entry_put. case_decide as Hr; [|by apply (Hwake w)].
    apply not_true_iff_false. intros Hover%wait_over_add_lease; [|done].
    rewrite <-Hr, (Hwake w) in Hover; done.
Qed.

Lemma inv_enter r m timed s :
  rm_inv s → wait_over m (entry r s) = false →
  rm_inv ((set_entry r (count_waiting m S (entry r s)) s)
            <| waiters ::= insert (next_waiter s) (mkWaiter r m timed false) |>
            <| next_waiter ::= S |>).
Proof.
  intros [Hcore Hused Hwake] Hover. set (s' := _ <| next_waiter ::= S |>).
  assert (Hup : updated r (count_waiting m S (entry r s)) (λ r', entry r' s) (λ r', entry r' s')).
  { unfold s', set_entry, set_field. simpl.
    split; [|intros r' Hne]; rewrite entry_insert; [by rewrite decide_True|].
    by rewrite decide_False. }
  split.
  - by apply (core_enter (λ r', entry r' s)).
  - intros r' rs'. simpl. intros [[_ <-]|[_ Hr]]%lookup_insert_Some; [|by eauto].
    apply used_waiting. destruct (count_waiting_fields m S (entry r s)) as (_ & _ & -> & ->).
    destruct (is_exclusive m); lia.
  - intros w x Hw Hx Hp. simpl in Hw.
    assert (Hbefore : wait_over (w_mode x) (entry (w_resource x) s) = false).
    { apply lookup_insert_Some in Hw as [[_ <-]|[_ Hw]]; [done|]. by apply (Hwake w). }
    destruct Hup as [Hr Hother]. destruct (decide (w_resource x = r)) as [Hx'|Hne].
    + rewrite Hx' in *. rewrite Hr. apply not_true_iff_false. intros H%wait_over_count_S. congruence.
    + by rewrite Hother.
Qed.

(** Once every waiter is notified there is nothing to say of wake-ups. *)
Lemma inv_notify_all s n :
  core (λ r, entry r s) (waiters s) (next_lease_id s) (next_waiter s) →
  (∀ r rs, resources s !! r = Some rs → unused rs = false) →
  rm_inv ((notify_all s) <| pending_notifications := n |>).
Proof.
  intros Hcore Hused. split; [|done|].
  - destruct Hcore as [H1 H2 H3 H4 H5 H6 H7]. split; try done; simpl.
    + intros r. rewrite waiting_on_notify_all. apply H1.
    + intros r. rewrite waiting_on_notify_all. apply H2.
    + intros w. rewrite lookup_fmap, fmap_is_Some. apply H7.
  - simpl. intros w x Hw. rewrite lookup_fmap in Hw. by destruct (waiters s !! w); simplify_eq/=.
Qed.

(** A waiter leaves with its lease: what [Acquire_wake] comes to. *)
Lemma inv_leave_granted w x s :
  rm_inv s → waiters s !! w = Some x → (next_lease_id s < u64_modulus - 1)%Z →
  wait_over (w_mode x) (entry (w_resource x) s) = true →
  rm_inv (finish_wait true (w_resource x) (w_mode x) (s <| waiters ::= delete w |>)).1.
Proof.
  intros [Hcore Hused Hwake] Hw Hn Hover. rewrite finish_wait_true. simpl.
  set (r := w_resource x) in *. set (m := w_mode x) in *.
  set (rs := count_waiting m pred (entry r s)).
  destruct (wait_over_spec _ _ Hover) as (Hnone & Hexcl & Hwriters).
  destruct (count_waiting_fields m pred (entry r s)) as (F1 & F2 & F3 & F4). fold rs in F1, F2, F3, F4.
  change (entry r (s <| waiters ::= delete w |>)) with (entry r s). fold rs.
  set (E1 := λ r', if decide (r' = r) then rs else entry r' s).
  assert (Hcore1 : core E1 (delete w (waiters s)) (next_lease_id s) (next_waiter s)).
  { eapply core_leave; [done..|]. unfold E1. fold r m. split; [by rewrite decide_True|].
    intros r' Hne. by rewrite decide_False. }
  pose proof (co_next _ _ _ _ Hcore). split.
  - rewrite put_next, put_waiters, put_next_waiter. simpl.
    rewrite u64_incr_small by lia. apply (core_grant E1 _ _ _ _ r m); [done| | |].
    + unfold E1. split; [|intros r' Hne]; rewrite entry_put; [by rewrite !decide_True|].
      by rewrite !decide_False.
    + unfold E1. rewrite decide_True by done. by rewrite F2.
    + unfold E1. rewrite decide_True by done. rewrite F1. done.
  - intros r' rs'. by apply put_used.
  - rewrite put_waiters, put_pending. simpl.
    intros w' x' [Hne Hw']%lookup_delete_Some Hx' Hp. rewrite entry_put.
    case_decide as Hr; [|by apply (Hwake w')]. pose proof (Hwake w' x' Hw' Hx' Hp) as Hbefore.
    rewrite Hr in Hbefore. apply not_true_iff_false. unfold add_lease. case_bool_decide as Hm.
    + unfold wait_over, CanAcquireExclusive, CanAcquireShared. simpl. by case_bool_decide.
    + intros Hnow. apply not_true_iff_false in Hbefore. destruct Hbefore.
      rewrite <-(wait_over_count_pred m) by done. fold rs.
      eapply (wait_over_add_lease m); [by rewrite F2|].
      unfold add_lease. by rewrite bool_decide_eq_false_2.
Qed.

Lemma inv_leave_timeout w x s :
  rm_inv s → waiters s !! w = Some x →
  rm_inv (finish_wait false (w_resource x) (w_mode x) (s <| waiters ::= delete w |>)).1.
Proof.
  intros [Hcore Hused Hwake] Hw. rewrite finish_wait_false. simpl.
  set (r := w_resource x) in *. set (m := w_mode x) in *.
  change (entry r (s <| waiters ::= delete w |>)) with (entry r s).
  set (rs := count_waiting m pred (entry r s)). set (s1 := put r rs (s <| waiters ::= delete w |>)).
  assert (F1 : next_lease_id s1 = next_lease_id s) by (unfold s1; by rewrite put_next).
  assert (F2 : waiters s1 = delete w (waiters s)) by (unfold s1; by rewrite put_waiters).
  assert (F3 : next_waiter s1 = next_waiter s) by (unfold s1; by rewrite put_next_waiter).
  assert (F4 : pending_notifications s1 = pending_notifications s) by (unfold s1; by rewrite put_pending).
  assert (Hentry : ∀ r', entry r' s1 = if decide (r' = r) then rs else entry r' s).
  { intros r'. unfold s1. by rewrite entry_put. }
  assert (Hcore1 : core (λ r', entry r' s1) (waiters s1) (next_lease_id s1) (next_waiter s1)).
  { rewrite F1, F2, F3. eapply core_leave; [done..|].
    split; [|intros r' Hne]; rewrite Hentry; [by rewrite decide_True|by rewrite decide_False]. }
  assert (Hused1 : ∀ r rs, resources s1 !! r = Some rs → unused rs = false).
  { intros r' rs'. by apply put_used. }
  case_bool_decide as Hm.
  - exact (inv_notify_all s1 _ Hcore1 Hused1).
  - change (rm_inv s1). split; [done..|]. rewrite F2, F4. intros w' x' [_ Hw']%lookup_delete_Some Hx' Hp.
    rewrite Hentry. case_decide as Hr; [|by apply (Hwake w')].
    unfold rs. rewrite wait_over_count_pred by done. rewrite <-Hr. by apply (Hwake w').
Qed.

(** A waiter looks at a false predicate and sleeps again. *)
Lemma inv_sleep w x s :
  rm_inv s → waiters s !! w = Some x → wait_over (w_mode x) (entry (w_resource x) s) = false →
  rm_inv (s <| waiters ::= insert w (x <| w_notified := false |>) |>).
Proof.
  intros [Hcore Hused Hwake] Hw Hover. split; [|done|].
  - destruct Hcore as [H1 H2 H3 H4 H5 H6 H7]. split; try done; simpl.
    + intros r. etransitivity; [apply H1|]. symmetry. by apply (waiting_on_renotify _ _ _ _ x).
    + intros r. etransitivity; [apply H2|]. symmetry. by apply (waiting_on_renotify _ _ _ _ x).
    + intros w' [x' [[<- _]|[_ Hx']]%lookup_insert_Some]; eauto.
  - simpl. intros w' x' [[<- <-]|[_ Hw']]%lookup_insert_Some Hx' Hp; [done|]. by apply (Hwake w').
Qed.

(** *** [Release] *)

(** Which lease a handle releases. *)
Definition releases (h : ResourceHandle) (rs : ResourceState) : bool :=
  if bool_decide (mode h = Exclusive) then bool_decide (exclusive_lease rs = Some (lease_id h))
  else bool_decide (lease_id h ∈ shared_leases rs).

Definition released (h : ResourceHandle) (rs : ResourceState) : ResourceState :=
  if bool_decide (mode h = Exclusive) then rs <| exclusive_lease := None |>
  else rs <| shared_leases ::= λ l, l ∖ {[lease_id h]} |>.

Lemma Release_cases h s :
  rm_inv s →
  Release h s =
  if IsValid h && releases h (entry (resource_id h) s) then
    ((put (resource_id h) (released h (entry (resource_id h) s)) s)
       <| pending_notifications ::= S |>, true)
  else (s, false).
Proof.
  intros I. unfold Release. destruct (IsValid h); [|done]. simpl. unfold releases, released, entry.
  destruct (resources s !! resource_id h) as [rs|]; simpl.
  - unfold put. repeat (case_bool_decide; simpl; try done).
  - repeat (case_bool_decide; simpl; try done).
Qed.

Lemma released_drops E ws next nw r h :
  core E ws next nw → releases h (E r) = true → drop_lease (lease_id h) (E r) (released h (E r)).
Proof.
  intros Hcore. unfold releases, released, drop_lease, holds.
  case_bool_decide as Hm; simpl; rewrite bool_decide_eq_true; intros Hl.
  - rewrite (co_mutex _ _ _ _ Hcore r (mk_is_Some _ _ Hl)), Hl. set_solver.
  - destruct (exclusive_lease (E r)) eqn:E0.
    { rewrite (co_mutex _ _ _ _ Hcore r (mk_is_Some _ _ E0)) in Hl. set_solver. }
    split; [done|]. split; [done|]. set_solver.
Qed.

Lemma inv_release h s : rm_inv s → rm_inv (Release h s).1.
Proof.
  intros I. rewrite Release_cases by done. destruct (IsValid h); [|done]. simpl.
  destruct (releases _ _) eqn:Hr; simpl; [|done]. pose proof I as [Hcore Hused Hwake].
  set (r := resource_id h) in *. set (rs := released h (entry r s)).
  split; simpl.
  - rewrite put_next, put_waiters, put_next_waiter.
    eapply (core_release _ _ _ _ _ r); [done| |by eapply released_drops].
    by apply (updated_put r rs s (λ r', entry r' s) (put r rs s)).
  - intros r' rs'. by apply put_used.
  - done.
Qed.

(** *** Every transition *)

Lemma entry_same r s r' : entry r' (set_entry r (entry r s) s) = entry r' s.
Proof. unfold set_entry, set_field. simpl. rewrite entry_insert. by case_decide; subst. Qed.

Lemma TryAcquire_cases r m s :
  rm_inv s →
  TryAcquire r m s =
  if IsValidResourceId r && CanAcquire (entry r s) m
  then (grant r m s, Acquired (mkHandle r m (next_lease_id s))) else (s, NotAcquired).
Proof.
  intros I. unfold TryAcquire. destruct (IsValidResourceId r); [|done]. cbn [negb andb].
  rewrite entry_same. destruct (CanAcquire (entry r s) m) eqn:Hcan; cbn [negb].
  - by rewrite CreateLockLocked_grant, grant_set_entry.
  - f_equal. rewrite RemoveUnused_put. unfold put, entry in *.
    destruct (resources s !! r) as [rs|] eqn:Hr; simpl in *.
    + rewrite (ri_used _ I _ _ Hr). unfold set_entry, set_field. simpl.
      rewrite insert_id by done. by destruct s.
    + exfalso. revert Hcan. unfold CanAcquire. by case_bool_decide.
Qed.

Lemma begin_wait_cases r m timed s :
  begin_wait r m timed s =
  if wait_over m (entry r s)
  then (grant r m s, Acquired (mkHandle r m (next_lease_id s)))
  else ((set_entry r (count_waiting m S (entry r s)) s)
          <| waiters ::= insert (next_waiter s) (mkWaiter r m timed false) |>
          <| next_waiter ::= S |>, Blocked (next_waiter s)).
Proof.
  unfold begin_wait.
  assert (entry r (set_entry r (count_waiting m S (entry r s)) s) = count_waiting m S (entry r s))
    as E by (unfold entry at 1; simpl; by rewrite lookup_insert_eq).
  rewrite E, wait_over_count_S_self. destruct (wait_over m (entry r s)); [|done].
  rewrite finish_wait_true, E, count_waiting_back. f_equal.
  unfold grant. rewrite !put_used_eq by eapply used_holds, holds_add_lease_new.
  unfold set_entry, set_field. simpl. by rewrite insert_insert_eq.
Qed.

Definition lease_room (s : ManagerState) : Prop := (next_lease_id s < u64_modulus - 1)%Z.

Lemma inv_TryAcquire r m s : rm_inv s → lease_room s → rm_inv (TryAcquire r m s).1.
Proof.
  intros I Hn. rewrite TryAcquire_cases by done.
  destruct (IsValidResourceId r && CanAcquire (entry r s) m) eqn:E; simpl; [|done].
  apply andb_true_iff in E as [_ (? & ? & _)%CanAcquire_spec]. by apply inv_grant.
Qed.

Lemma inv_begin_wait r m timed s : rm_inv s → lease_room s → rm_inv (begin_wait r m timed s).1.
Proof.
  intros I Hn. rewrite begin_wait_cases. destruct (wait_over m (entry r s)) eqn:E; simpl.
  - apply wait_over_spec in E as (? & ? & _). by apply inv_grant.
  - by apply inv_enter.
Qed.

Lemma inv_Acquire r m t s : rm_inv s → lease_room s → rm_inv (Acquire r m t s).1.
Proof.
  intros. unfold Acquire. repeat case_match; try done; by (apply inv_TryAcquire || apply inv_begin_wait).
Qed.

Lemma waiter_entry s w x :
  rm_inv s → waiters s !! w = Some x →
  ∃ rs, resources s !! w_resource x = Some rs ∧ entry (w_resource x) s = rs.
Proof.
  intros [Hcore _ _] Hw. unfold entry. destruct (resources s !! w_resource x) eqn:E; [by eauto|].
  pose proof (co_shared _ _ _ _ Hcore (w_resource x)) as H1.
  pose proof (co_exclusive _ _ _ _ Hcore (w_resource x)) as H2. unfold entry in H1, H2.
  rewrite E in H1, H2. simpl in H1, H2.
  pose proof (waiting_on_positive _ _ _ _ _ Hw eq_refl eq_refl).
  destruct (is_exclusive (w_mode x)); lia.
Qed.

(** What a waiter finds when it wakes up. *)
Definition wake (w : nat) (d : bool) (x : Waiter) (s : ManagerState) : ManagerState * AcquireResult :=
  let s1 := s <| waiters ::= delete w |> in
  if wait_over (w_mode x) (entry (w_resource x) s) then finish_wait true (w_resource x) (w_mode x) s1
  else if w_timed x && d then finish_wait false (w_resource x) (w_mode x) s1
  else (s <| waiters ::= insert w (x <| w_notified := false |>) |>, Blocked w).

Lemma Acquire_wake_cases w d s :
  rm_inv s → Acquire_wake w d s = (λ x, wake w d x s) <$> waiters s !! w.
Proof.
  intros I. unfold Acquire_wake, wake. destruct (waiters s !! w) as [x|] eqn:Hw; [|done].
  destruct (waiter_entry _ _ _ I Hw) as (rs & Hrs & He). cbn. rewrite Hrs, He. cbn.
  by repeat case_match.
Qed.

Lemma inv_wake w d x s :
  rm_inv s → lease_room s → waiters s !! w = Some x → rm_inv (wake w d x s).1.
Proof.
  intros I Hn Hw. unfold wake. destruct (wait_over _ _) eqn:Hover; [by apply inv_leave_granted|].
  destruct (w_timed x && d); [by apply inv_leave_timeout|]. by apply inv_sleep.
Qed.

Lemma wake_next w d x s :
  lease_room s → (1 <= next_lease_id s)%Z →
  (next_lease_id (wake w d x s).1 <= next_lease_id s + 1)%Z.
Proof.
  unfold lease_room. intros Hn H1. unfold wake. case_match; [|case_match].
  - rewrite finish_wait_true. simpl. rewrite put_next. simpl. rewrite u64_incr_small; lia.
  - rewrite finish_wait_false. simpl. case_match; simpl; rewrite put_next; simpl; lia.
  - simpl. lia.
Qed.

Lemma inv_exec s l s' : rm_inv s → lease_room s → exec s l = Some s' → rm_inv s'.
Proof.
  intros I Hn H. destruct l; simpl in H; simplify_eq.
  - by apply inv_Acquire.
  - by apply inv_TryAcquire.
  - rewrite Acquire_wake_cases in H by done. destruct (waiters s !! w) eqn:Hw; simplify_eq/=.
    by apply inv_wake.
  - by apply inv_release.
  - unfold Release_notify in H. destruct (pending_notifications s); simplify_eq.
    apply inv_notify_all; apply I.
Qed.

Lemma inv_initial : rm_inv initial.
Proof.
  split; [|intros r rs; simpl; by rewrite lookup_empty|intros w x; simpl; by rewrite lookup_empty].
  assert (He : ∀ r, entry r initial = empty_resource) by done.
  assert (Hno : ∀ r l, ¬ holds (entry r initial) l).
  { intros r l. rewrite He. unfold holds. simpl. set_solver. }
  split; simpl; try (intros; exfalso; by eapply Hno); try done; try lia.
  intros w. rewrite lookup_empty. by intros [].
Qed.

(** The lease counter advances by at most one per critical section. *)
Lemma exec_next s l s' :
  rm_inv s → lease_room s → exec s l = Some s' → (next_lease_id s' <= next_lease_id s + 1)%Z.
Proof.
  intros I Hn H. pose proof (co_next _ _ _ _ (ri_core _ I)).
  assert (Hincr : u64_incr (next_lease_id s) = (next_lease_id s + 1)%Z).
  { unfold lease_room in Hn. apply u64_incr_small; lia. }
  assert (Htry : ∀ r m, (next_lease_id (TryAcquire r m s).1 <= next_lease_id s + 1)%Z).
  { intros r m. rewrite TryAcquire_cases by done. case_match; simpl; [|lia].
    unfold grant. rewrite put_next. simpl. lia. }
  destruct l; simpl in H; simplify_eq.
  - unfold Acquire. repeat (case_match; simpl; try lia; try apply Htry);
      rewrite begin_wait_cases; case_match; simpl; try lia;
      unfold grant; rewrite put_next; simpl; lia.
  - apply Htry.
  - rewrite Acquire_wake_cases in H by done. destruct (waiters s !! w) eqn:Hw; simplify_eq/=.
    by apply wake_next.
  - rewrite Release_cases by done. case_match; simpl; [|lia]. rewrite put_next. lia.
  - unfold Release_notify in H. destruct (pending_notifications s); simplify_eq. simpl. lia.
Qed.

Lemma manager_reachable_inv s : reachable s → rm_inv s.
Proof.
  intros (ls & Hrun & Hlen).
  cut ((Z.of_nat (length ([] ++ ls)) < u64_modulus - 2)%Z →
       rm_inv s ∧ (next_lease_id s <= 1 + Z.of_nat (length ([] ++ ls)))%Z).
  { intros Hcut. by apply Hcut. }
  eapply (run_invariant_trace exec (λ ls s, (Z.of_nat (length ls) < u64_modulus - 2)%Z →
    rm_inv s ∧ (next_lease_id s <= 1 + Z.of_nat (length ls))%Z)); [|by split; [apply inv_initial|]|done].
  clear. intros ls s l s' IH H Hlen. rewrite length_app in *. simpl in *.
  destruct IH as [I Hn]; [lia|]. assert (lease_room s) by (unfold lease_room; lia).
  split; [by eapply inv_exec|]. pose proof (exec_next _ _ _ I ltac:(done) H). lia.
Qed.

(* ------------------------------------------------------------------ *)
(** ** Properties *)

(** A scenario: two shared leases on the arm, an exclusive waiter, a shared
    waiter behind it, then both leases released. *)
Definition scenario_hold : list Label := [LAcquire "arm" Shared None; LTryAcquire "arm" Shared].

Definition scenario_wait : list Label :=
  [LAcquire "arm" Exclusive None; LAcquire "arm" Shared (Some 50%Z); LRelease (mkHandle "arm" Shared 1)].

Definition scenario_free : list Label := [LNotify; LRelease (mkHandle "arm" Shared 2)].

Definition after (ls : list Label) : ManagerState := default initial (run exec initial ls).

Lemma manager_after_reachable ls :
  is_Some (run exec initial ls) → (Z.of_nat (length ls) < u64_modulus - 2)%Z → reachable (after ls).
Proof. intros [s Hs] Hlen. exists ls. split; [|done]. unfold after. by rewrite Hs. Qed.

(** C12: mutual exclusion.  Under every interleaving, the holder of an
    exclusive lease is the only holder of its resource, no lease number is
    held on two resources, every lease number was handed out before, and a
    resource occupies an entry only while it is held or waited for. *)
Theorem ResourceManager_exclusive s :
  reachable s →
  (∀ r l l', exclusive_lease (entry r s) = Some l → holds (entry r s) l' → l' = l) ∧
  (∀ r1 r2 l, holds (entry r1 s) l → holds (entry r2 s) l → r1 = r2) ∧
  (∀ r l, holds (entry r s) l → (1 <= l < next_lease_id s)%Z) ∧
  (∀ r rs, resources s !! r = Some rs →
     (∃ l, holds rs l) ∨ ∃ w x, waiters s !! w = Some x ∧ w_resource x = r).
Proof.
  intros [Hcore Hused _]%manager_reachable_inv. split; [|split; [|split]].
  - intros r l l' Hl [Hl'|Hl']; [congruence|].
    rewrite (co_mutex _ _ _ _ Hcore r (mk_is_Some _ _ Hl)) in Hl'. set_solver.
  - intros r1 r2 l. apply (co_unique _ _ _ _ Hcore).
  - intros r l. apply (co_range _ _ _ _ Hcore).
  - intros r rs Hr. assert (He : entry r s = rs) by (unfold entry; by rewrite Hr).
    destruct (decide (rs = empty_resource)) as [E|Hne].
    { pose proof (Hused _ _ Hr) as Hu. by rewrite E in Hu. }
    destruct (exclusive_lease rs) as [l|] eqn:El; [left; exists l; by left|].
    destruct (decide (shared_leases rs = ∅)) as [Esh|Hsh].
    2: { apply set_choose_L in Hsh as [l Hl]. left. exists l. by right. }
    right. assert (∃ excl, waiting_on r excl (waiters s) ≠ 0) as [excl Hpos].
    { pose proof (co_shared _ _ _ _ Hcore r) as H1. pose proof (co_exclusive _ _ _ _ Hcore r) as H2.
      cbn beta in H1, H2. rewrite He in H1, H2. destruct (decide (waiting_on r false (waiters s) = 0)) as [E|]; [|by eauto].
      exists true. intros E'. apply Hne. destruct rs. simpl in *. subst. rewrite E, E'. done. }
    unfold waiting_on in Hpos. apply map_size_ne_0_lookup in Hpos as (w & x & Hw).
    apply map_lookup_filter_Some in Hw as [Hw [Hx _]]. eauto.
Qed.

Lemma ResourceManager_exclusive_witness :
  let s := after [LTryAcquire "arm" Exclusive] in
  exclusive_lease (entry "arm" s) = Some 1%Z ∧ ∀ l, holds (entry "arm" s) l → l = 1%Z.
Proof.
  assert (Hs : reachable (after [LTryAcquire "arm" Exclusive]))
    by (apply manager_after_reachable; vm_compute; eauto).
  assert (exclusive_lease (entry "arm" (after [LTryAcquire "arm" Exclusive])) = Some 1%Z) as Hl
    by by vm_compute.
  split; [exact Hl|]. intros l. by apply (ResourceManager_exclusive _ Hs).
Defined.

Lemma ActiveLockCount_entry r s :
  ActiveLockCount r s =
  if IsValidResourceId r then
    size (shared_leases (entry r s)) +
      (if bool_decide (is_Some (exclusive_lease (entry r s))) then 1 else 0)
  else 0.
Proof.
  unfold ActiveLockCount, entry. destruct (IsValidResourceId r); [|done]. simpl.
  by destruct (resources s !! r).
Qed.

Lemma IsValid_resource h : IsValid h = true → IsValidResourceId (resource_id h) = true.
Proof. unfold IsValid, IsValidResourceId. by intros [-> _]%andb_true_iff. Qed.

Lemma released_count h rs :
  releases h rs = true →
  size (shared_leases (released h rs)) +
    (if bool_decide (is_Some (exclusive_lease (released h rs))) then 1 else 0) + 1 =
  size (shared_leases rs) + (if bool_decide (is_Some (exclusive_lease rs)) then 1 else 0).
Proof.
  unfold releases, released. case_bool_decide; rewrite bool_decide_eq_true; intros Hl; simpl.
  - rewrite Hl. simpl. lia.
  - assert (shared_leases rs = {[lease_id h]} ∪ shared_leases rs ∖ {[lease_id h]}) as E
      by (apply union_difference_L; set_solver).
    pose proof (size_union {[lease_id h]} (shared_leases rs ∖ {[lease_id h]})) as Hs.
    rewrite <-E, size_singleton in Hs. rewrite Hs by set_solver. lia.
Qed.

(** Releasing.  [Release] answers true exactly for a valid handle whose
    lease is held in the mode of the handle; it then takes this one lease away
    and no other, the active count of its resource drops by one, and a second
    release of the same handle answers false.  Otherwise nothing changes. *)
Theorem Release_exact h s :
  reachable s →
  let '(s', b) := Release h s in
  b = IsValid h && releases h (entry (resource_id h) s) ∧
  (b = false → s' = s) ∧
  (b = true → ∀ r l, holds (entry r s') l ↔ holds (entry r s) l ∧ l ≠ lease_id h) ∧
  ActiveLockCount (resource_id h) s' + (if b then 1 else 0) = ActiveLockCount (resource_id h) s ∧
  (Release h s').2 = false.
Proof.
  intros I%manager_reachable_inv. pose proof (inv_release h s I) as I'. rewrite Release_cases in * by done.
  destruct (IsValid h) eqn:Hv; simpl in *; [|split_and!; try done; unfold Release; by rewrite Hv].
  destruct (releases h (entry (resource_id h) s)) eqn:Hr; simpl in *.
  2: { split_and!; try done. rewrite Release_cases by done. by rewrite Hv, Hr. }
  set (r := resource_id h) in *. set (rs := released h (entry r s)) in *.
  set (s1 := (put r rs s) <| pending_notifications ::= S |>).
  assert (He : ∀ r', entry r' s1 = if decide (r' = r) then rs else entry r' s).
  { intros r'. apply entry_put. }
  destruct (released_drops _ _ _ _ r h (ri_core _ I) Hr) as (_ & _ & _ & _ & Hd).
  split_and!; try done.
  - intros _ r' l. rewrite He. case_decide as Hr'; [subst r'; apply Hd|].
    split; [|tauto]. intros Hl. split; [done|]. intros ->. apply Hr'.
    apply (co_unique _ _ _ _ (ri_core _ I) r' r (lease_id h)); [done|].
    unfold releases in Hr. unfold holds. by case_bool_decide; apply bool_decide_eq_true in Hr; auto.
  - rewrite !ActiveLockCount_entry, (IsValid_resource _ Hv : IsValidResourceId r = true).
    rewrite He, decide_True by done. by apply released_count.
  - rewrite Release_cases by done. rewrite Hv. simpl. fold r s1. rewrite He, decide_True by done.
    destruct (releases h rs) eqn:Hr2; [|done]. exfalso.
    assert (holds rs (lease_id h)) as [_ []]%Hd; [|done].
    unfold releases in Hr2. unfold holds.
    by case_bool_decide; apply bool_decide_eq_true in Hr2; auto.
Qed.

Lemma Release_exact_witness :
  let s := after scenario_hold in
  let '(s', b) := Release (mkHandle "arm" Shared 1) s in
  b = true ∧ ActiveLockCount "arm" s' + 1 = ActiveLockCount "arm" s.
Proof.
  intros s.
  assert (Hs : reachable s) by (apply manager_after_reachable; vm_compute; eauto).
  pose proof (Release_exact (mkHandle "arm" Shared 1) s Hs) as H.
  destruct (Release (mkHandle "arm" Shared 1) s) as [s' b].
  destruct H as (Hb & _ & _ & Hc & _).
  assert (b = true) as -> by (rewrite Hb; by vm_compute). split; [done|exact Hc].
Defined.

Lemma add_lease_count E ws next nw r m :
  core E ws next nw → exclusive_lease (E r) = None →
  (m = Exclusive → shared_leases (E r) = ∅) →
  size (shared_leases (add_lease m next (E r))) +
    (if bool_decide (is_Some (exclusive_lease (add_lease m next (E r)))) then 1 else 0) =
  S (size (shared_leases (E r)) + (if bool_decide (is_Some (exclusive_lease (E r))) then 1 else 0)).
Proof.
  intros Hcore Hnone Hexcl. unfold add_lease. rewrite Hnone. case_bool_decide; simpl; [lia|].
  rewrite Hnone, (size_union {[next]} (shared_leases (E r))), size_singleton; [simpl; lia|].
  apply disjoint_singleton_l. intros Hl.
  pose proof (co_range _ _ _ _ Hcore r next (or_intror Hl)). lia.
Qed.

(** Acquiring without blocking.  [TryAcquire] succeeds exactly when the
    resource is named and its mode is compatible with the present holders and
    writers; it then hands out a valid handle with a lease number nobody
    holds, which can be released, and raises the active count by one; when it
    fails the state of the manager is the one before the call. *)
Theorem TryAcquire_exact r m s :
  reachable s → (next_lease_id s < u64_modulus - 1)%Z →
  match TryAcquire r m s with
  | (s', Acquired h) =>
      r ≠ "" ∧ CanAcquire (entry r s) m = true ∧
      resource_id h = r ∧ mode h = m ∧ IsValid h = true ∧
      (∀ r', ¬ holds (entry r' s) (lease_id h)) ∧ holds (entry r s') (lease_id h) ∧
      ActiveLockCount r s' = S (ActiveLockCount r s) ∧ (Release h s').2 = true
  | (s', NotAcquired) => s' = s ∧ (r = "" ∨ CanAcquire (entry r s) m = false)
  | (_, Blocked _) => False
  end.
Proof.
  intros I%manager_reachable_inv Hn. pose proof (inv_TryAcquire r m s I Hn) as I'.
  rewrite TryAcquire_cases in * by done.
  destruct (IsValidResourceId r) eqn:Hr; simpl in *.
  2: { split; [done|left]. unfold IsValidResourceId in Hr. by destruct (String.eqb_spec r ""). }
  destruct (CanAcquire (entry r s) m) eqn:Hcan; simpl in *; [|by auto].
  destruct (CanAcquire_spec _ _ Hcan) as (Hnone & Hexcl & _).
  pose proof (ri_core _ I) as Hcore. pose proof (co_next _ _ _ _ Hcore) as Hnext.
  assert (He : entry r (grant r m s) = add_lease m (next_lease_id s) (entry r s)).
  { unfold grant. rewrite entry_put. by rewrite decide_True. }
  assert (Hv : IsValid (mkHandle r m (next_lease_id s)) = true).
  { unfold IsValid. simpl. unfold IsValidResourceId in Hr. rewrite Hr. simpl.
    apply negb_true_iff. lia. }
  split_and!; try done.
  - intros ->. by vm_compute in Hr.
  - intros r' Hl%(co_range _ _ _ _ Hcore). simpl in Hl. lia.
  - rewrite He. apply holds_add_lease_new.
  - rewrite !ActiveLockCount_entry, Hr, He.
    by apply (add_lease_count (λ r, entry r s) (waiters s) _ (next_waiter s)).
  - rewrite Release_cases by done. rewrite Hv. simpl. rewrite He. unfold releases, add_lease. simpl.
    case_bool_decide; simpl; rewrite bool_decide_eq_true_2; done || set_solver.
Qed.

Lemma TryAcquire_exact_witness :
  ∃ s', TryAcquire "arm" Shared (after []) = (s', Acquired (mkHandle "arm" Shared 1)) ∧
        ActiveLockCount "arm" s' = 1 ∧ TryAcquire "arm" Exclusive s' = (s', NotAcquired).
Proof.
  assert (Hs : reachable (after [])) by (apply manager_after_reachable; vm_compute; eauto).
  pose proof (TryAcquire_exact "arm" Shared (after []) Hs ltac:(by vm_compute)) as H.
  destruct (TryAcquire "arm" Shared (after [])) as [s' res] eqn:E.
  vm_compute in E. simplify_eq. destruct H as (_ & _ & _ & _ & _ & _ & _ & H & _).
  eexists. split; [done|]. split; [exact H|]. by vm_compute.
Defined.

(** C23: no lost wake-up.  The entry a waiter refers to exists whenever it
    wakes up, so that waking is always defined; a waiter whose predicate holds
    gets its lock at its next wake-up, and that wake-up is coming: either a
    notification has reached it since it slept, or a [Release] has yet to
    notify. *)
Theorem ResourceManager_wakes s w x d :
  reachable s → waiters s !! w = Some x →
  ∃ s' res, Acquire_wake w d s = Some (s', res) ∧
    (wait_over (w_mode x) (entry (w_resource x) s) = true →
       res = Acquired (mkHandle (w_resource x) (w_mode x) (next_lease_id s)) ∧
       waiters s' = delete w (waiters s) ∧
       (w_notified x = true ∨ pending_notifications s ≠ 0)) ∧
    (wait_over (w_mode x) (entry (w_resource x) s) = false → w_timed x = true → d = true →
       res = NotAcquired ∧ waiters s' !! w = None).
Proof.
  intros I%manager_reachable_inv Hw. rewrite Acquire_wake_cases, Hw by done. cbn [fmap option_fmap option_map].
  unfold wake. destruct (wait_over _ _) eqn:Hover.
  - rewrite finish_wait_true. eexists _, _. split; [done|]. split; [|done]. intros _.
    split; [done|]. rewrite put_waiters. split; [done|].
    destruct (w_notified x) eqn:Hx; [by left|right]. intros Hp.
    by rewrite (ri_wakeup _ I w x Hw Hx Hp) in Hover.
  - destruct (w_timed x && d) eqn:Ht.
    + rewrite finish_wait_false. eexists _, _. split; [done|]. split; [done|]. intros _ _ _.
      split; [done|]. case_bool_decide; simpl; rewrite put_waiters; simpl.
      * by rewrite lookup_fmap, lookup_delete_eq.
      * by rewrite lookup_delete_eq.
    + eexists _, _. split; [done|]. split; [done|]. intros _ Hx ->. by rewrite Hx in Ht.
Qed.

Lemma ResourceManager_wakes_witness :
  let s := after (scenario_hold ++ scenario_wait ++ scenario_free) in
  ∃ s' res, Acquire_wake 0 false s = Some (s', res) ∧ res = Acquired (mkHandle "arm" Exclusive 3).
Proof.
  destruct (ResourceManager_wakes (after (scenario_hold ++ scenario_wait ++ scenario_free)) 0
    (mkWaiter "arm" Exclusive false true) false) as (s' & res & H & Hgot & _).
  - apply manager_after_reachable; vm_compute; eauto.
  - by vm_compute.
  - exists s', res. split; [done|]. apply Hgot. by vm_compute.
Defined.

Definition raw_mode (m : ResourceLockMode) : bool :=
  match m with ModeRaw _ => true | _ => false end.

Definition raw_label (l : Label) : bool :=
  match l with LAcquire _ m _ | LTryAcquire _ m => raw_mode m | _ => false end.

(** While a writer waits on [r], no operation gives out a shared lease on it. *)
Section WriterWaits.
Context (s : ManagerState) (r : string) (I : rm_inv s) (Hwriter : waiting_exclusive (entry r s) ≠ 0).

Lemma grant_no_reader r' m :
  (m ≠ Exclusive → waiting_exclusive (entry r' s) = 0) →
  shared_leases (entry r (grant r' m s)) ⊆ shared_leases (entry r s).
Proof.
  intros Hm. unfold grant. rewrite entry_put. case_decide as Hr; [|done]. subst r'.
  unfold add_lease. case_bool_decide; simpl; [done|]. by destruct (Hwriter (Hm ltac:(done))).
Qed.

Lemma TryAcquire_no_reader r' m :
  raw_mode m = false →
  shared_leases (entry r (TryAcquire r' m s).1) ⊆ shared_leases (entry r s).
Proof.
  intros Hm. rewrite TryAcquire_cases by done.
  destruct (IsValidResourceId r' && CanAcquire (entry r' s) m) eqn:E; simpl; [|done].
  apply andb_true_iff in E as [_ (_ & _ & Hsh)%CanAcquire_spec]. apply grant_no_reader.
  destruct m; try done. intros _. by apply Hsh.
Qed.

Lemma begin_wait_no_reader r' m timed :
  shared_leases (entry r (begin_wait r' m timed s).1) ⊆ shared_leases (entry r s).
Proof.
  rewrite begin_wait_cases. destruct (wait_over m (entry r' s)) eqn:E.
  - apply wait_over_spec in E as (_ & _ & ?). by apply grant_no_reader.
  - simpl. unfold entry at 1. simpl. destruct (decide (r' = r)) as [->|Hne].
    + rewrite lookup_insert_eq. simpl.
      by destruct (count_waiting_fields m S (entry r s)) as (-> & _).
    + by rewrite lookup_insert_ne.
Qed.

Lemma entry_notify_all s1 r' : entry r' (notify_all s1) = entry r' s1.
Proof. done. Qed.

Lemma wake_no_reader w d x :
  shared_leases (entry r (wake w d x s).1) ⊆ shared_leases (entry r s).
Proof.
  unfold wake. set (s1 := s <| waiters ::= delete w |>).
  assert (He : ∀ r', entry r' s1 = entry r' s) by done.
  destruct (count_waiting_fields (w_mode x) pred (entry r s)) as (F & _).
  destruct (wait_over _ _) eqn:E; [|case_match; [|done]].
  - rewrite finish_wait_true, He. simpl. rewrite entry_put. case_decide as Hr; [|done]. subst r.
    apply wait_over_spec in E as (_ & _ & Hm). unfold add_lease. case_bool_decide; simpl.
    + by rewrite F.
    + by destruct (Hwriter (Hm ltac:(done))).
  - rewrite finish_wait_false, He. cbn zeta. case_bool_decide; cbn [fst]; rewrite ?entry_notify_all,
      entry_put; (case_decide; [subst r; by rewrite F|done]).
Qed.

Lemma Release_no_reader h : shared_leases (entry r (Release h s).1) ⊆ shared_leases (entry r s).
Proof.
  rewrite Release_cases by done. case_match; cbn [fst]; [|done].
  change (shared_leases (entry r (put (resource_id h) (released h (entry (resource_id h) s)) s))
            ⊆ shared_leases (entry r s)).
  rewrite entry_put. case_decide; [subst r|done].
  unfold released. case_bool_decide; simpl; set_solver.
Qed.
End WriterWaits.

(** Writers are preferred.  While a thread waits for an exclusive lease of
    a resource, no critical section of any thread adds a shared lease on that
    resource, so that the readers in front of a writer only become fewer. *)
Theorem ResourceManager_prefers_writers s l s' w x :
  reachable s → raw_label l = false →
  waiters s !! w = Some x → w_mode x = Exclusive → exec s l = Some s' →
  shared_leases (entry (w_resource x) s') ⊆ shared_leases (entry (w_resource x) s).
Proof.
  intros I%manager_reachable_inv Hraw Hw Hx H. set (r := w_resource x) in *.
  assert (Hwriter : waiting_exclusive (entry r s) ≠ 0).
  { rewrite (co_exclusive _ _ _ _ (ri_core _ I) r).
    assert (1 <= waiting_on r true (waiters s)); [|lia].
    eapply waiting_on_positive; [done..|]. unfold is_exclusive. by rewrite Hx. }
  destruct l as [r' m t|r' m|w' d|h|]; simpl in H, Hraw; simplify_eq.
  - unfold Acquire. repeat case_match; try done;
      by (apply TryAcquire_no_reader || apply begin_wait_no_reader).
  - by apply TryAcquire_no_reader.
  - rewrite Acquire_wake_cases in H by done. destruct (waiters s !! w') eqn:E; simplify_eq/=.
    by apply wake_no_reader.
  - by apply Release_no_reader.
  - unfold Release_notify in H. by destruct (pending_notifications s); simplify_eq.
Qed.

Lemma ResourceManager_prefers_writers_witness :
  let s := after (scenario_hold ++ scenario_wait) in
  let s' := after (scenario_hold ++ scenario_wait ++ [LTryAcquire "arm" Shared]) in
  shared_leases (entry "arm" s') ⊆ shared_leases (entry "arm" s).
Proof.
  intros s s'. refine (ResourceManager_prefers_writers s (LTryAcquire "arm" Shared) s' 0
    (mkWaiter "arm" Exclusive false false) _ eq_refl _ eq_refl _).
  - apply manager_after_reachable; vm_compute; eauto.
  - by vm_compute.
  - by vm_compute.
Defined.
