(* ===== verification/Scheduler.v ===== *)
(** * The runtime scheduler

    [RuntimeScheduler::Impl] of src/runtime/RuntimeScheduler.cpp and the
    [RuntimeJobControl] its jobs share with their callbacks: submission,
    selection by priority and sequence, sequential jobs that run alone,
    pausing, stopping, the records of finished jobs with their bounded
    history, the worker loop and shutdown.

    Every critical section is one transition; what [Stop] and [Shutdown] do
    after they unlock (cancel the controls, set the promises) is a transition
    of its own, so that it interleaves with the others.  The cancellation
    states of the controls live in a world of Cancellation.v, the store of
    jobs follows TaskStore.v.  [std::map::at] throws when the key is missing:
    the transitions then return [None], which [Scheduler_defined] excludes.

    Not modelled: failures of allocation and the wake-ups of the condition
    variables (a waiting worker may look at its predicate at any time).  The
    hash map of outstanding jobs is iterated in the order of [map_to_list]. *)

From S2P Require Import Prelude Workers TaskStore Cancellation ExecutionContext.

Open Scope Z_scope.

Inductive RuntimeJobPriority :=
  | JobLow | JobNormal | JobHigh | JobCritical
  | JobPriorityRaw (value : Z).

Inductive RuntimeExecutionMode := Parallel | Sequential | ExecutionModeRaw (value : Z).

#[export] Instance RuntimeExecutionMode_eq_dec : EqDecision RuntimeExecutionMode.
Proof. solve_decision. Defined.

Record RuntimeJobResult := mkJobResult { result_state : ExecutionState; result_message : string }.

#[export] Instance RuntimeJobResult_eq_dec : EqDecision RuntimeJobResult.
Proof. solve_decision. Defined.

(** A job; what its callback does is decided when it runs. *)
Record RuntimeJob := mkJob {
  job_id : Z;
  job_priority : RuntimeJobPriority;
  executionMode : RuntimeExecutionMode;
  job_scope : ExecutionScope;
  job_metadata : ExecutionMetadata;
  has_callback : bool;
}.

Definition IsKnownPriority (p : RuntimeJobPriority) : bool :=
  match p with
  | JobLow | JobNormal | JobHigh | JobCritical => true
  | JobPriorityRaw _ => false
  end.

Definition PriorityRank (p : RuntimeJobPriority) : Z :=
  match p with
  | JobLow => 0
  | JobNormal => 1
  | JobHigh => 2
  | JobCritical => 3
  | JobPriorityRaw _ => -1
  end.

Definition IsKnownExecutionMode (m : RuntimeExecutionMode) : bool :=
  match m with
  | Parallel | Sequential => true
  | ExecutionModeRaw _ => false
  end.

Definition IsSuccessfulTerminal (s : ExecutionState) : bool := bool_decide (s = StateCompleted).

Definition Result (s : ExecutionState) (m : string) : RuntimeJobResult := mkJobResult s m.

(* ------------------------------------------------------------------ *)
(** ** Job controls *)

Record RuntimeJobControl := mkControl {
  execution : ExecutionContext;
  cancellation : CancellationSource;
  paused : bool;
}.

#[export] Instance eta_RuntimeJobControl : EtaRecord RuntimeJobControl := fun c =>
  mkControl (execution c) (cancellation c) (paused c).

(** The constructor, which creates both cancellation states. *)
Definition new_control (id : Z) (sc : ExecutionScope) (meta : ExecutionMetadata) (w : World) :
    World * RuntimeJobControl :=
  let '(w1, e) := new_ExecutionContext id sc 0 meta w in
  let '(w2, source) := new_source w1 in
  (w2, mkControl e source false).

Definition IsCancellationRequested (c : RuntimeJobControl) (w : World) : bool :=
  source_IsCancelled (cancellation c) w || CancellationRequested (execution c) w.

Definition SetPaused (b : bool) (c : RuntimeJobControl) : RuntimeJobControl := c <| paused := b |>.

(** [None] while the wait blocks. *)
Definition WaitIfPaused (c : RuntimeJobControl) (w : World) : option bool :=
  if negb (paused c) || IsCancellationRequested c w then Some (negb (IsCancellationRequested c w))
  else None.

Definition RequestStop (c : RuntimeJobControl) (w : World) :
    option (World * RuntimeJobControl * bool) :=
  '(w1, cancelled) ← source_Cancel (cancellation c) w;
  '(w2, e, context_cancelled) ← RequestCancellation (execution c) w1;
  Some (w2, c <| execution := e |> <| paused := false |>, cancelled || context_cancelled).

(* ------------------------------------------------------------------ *)
(** ** State *)

Inductive ScheduledJobState := JobQueued | JobRunning.

#[export] Instance ScheduledJobState_eq_dec : EqDecision ScheduledJobState.
Proof. solve_decision. Defined.

Record ScheduledJob := mkScheduledJob {
  job : RuntimeJob;
  sequence : Z;
  control : RuntimeJobControl;
  promise : option RuntimeJobResult;
  sj_state : ScheduledJobState;
  stopRequested : bool;
}.

#[export] Instance eta_ScheduledJob : EtaRecord ScheduledJob := fun j =>
  mkScheduledJob (job j) (sequence j) (control j) (promise j) (sj_state j) (stopRequested j).

Record RuntimeJobSnapshot := mkSnapshot {
  snap_jobId : Z;
  snap_sequence : Z;
  snap_priority : RuntimeJobPriority;
  snap_executionMode : RuntimeExecutionMode;
  snap_jobState : ExecutionState;
  queuedAt : Z;
  startedAt : option Z;
  completedAt : option Z;
  snap_result : RuntimeJobResult;
}.

#[export] Instance eta_RuntimeJobSnapshot : EtaRecord RuntimeJobSnapshot := fun s =>
  mkSnapshot (snap_jobId s) (snap_sequence s) (snap_priority s) (snap_executionMode s)
    (snap_jobState s) (queuedAt s) (startedAt s) (completedAt s) (snap_result s).

Record RuntimeSchedulerOptions := mkSchedulerOptions {
  maximumQueueSize : Z;
  workerCount : nat;
  maximumCompletedHistorySize : Z;
}.

Record RuntimeSchedulerStatistics := mkSchedulerStatistics {
  stat_queued : Z; stat_running : Z; stat_paused : Z;
  stat_maximumQueueSize : Z; stat_workerCount : Z;
  highWatermark : Z; maximumConcurrentRunning : Z;
  accepted : Z; started : Z; completed : Z; stat_cancelled : Z; stopped : Z; failed : Z;
  rejected : Z;
}.

#[export] Instance eta_RuntimeSchedulerStatistics : EtaRecord RuntimeSchedulerStatistics := fun x =>
  mkSchedulerStatistics (stat_queued x) (stat_running x) (stat_paused x) (stat_maximumQueueSize x)
    (stat_workerCount x) (highWatermark x) (maximumConcurrentRunning x) (accepted x) (started x)
    (completed x) (stat_cancelled x) (stopped x) (failed x) (rejected x).

Definition zero_statistics : RuntimeSchedulerStatistics :=
  mkSchedulerStatistics 0 0 0 0 0 0 0 0 0 0 0 0 0 0.

(** The thread that shuts down, between its critical sections. *)
Inductive ShutdownPhase :=
  | NoShutdown
  | ShutdownCancelling (queued_jobs running_jobs : list ptr)
  | ShutdownJoining.

Record SchedulerState := mkSchedulerState {
  options : RuntimeSchedulerOptions;
  world : World;
  heap : gmap ptr ScheduledJob;
  next_ptr : ptr;
  queue : list ptr;
  outstanding : gmap Z ptr;
  records : gmap Z RuntimeJobSnapshot;
  completed_order : list Z;
  statistics : RuntimeSchedulerStatistics;
  next_sequence : Z;
  running_count : Z;
  sequential_running : bool;
  accepting : bool;
  shutdown_in_progress : bool;
  shutdown_complete : bool;
  shutdown_phase : ShutdownPhase;
  stop_requested : bool;
  stopping : list (ptr * bool);   (** calls of [Stop] that have unlocked: job, was it queued *)
  worker_ids : list (option ThreadId);
  workers : list (WorkerPc RuntimeJobResult);
  future_errors : nat;            (** attempts to set a promise twice *)
}.

#[export] Instance eta_SchedulerState : EtaRecord SchedulerState := fun s =>
  mkSchedulerState (options s) (world s) (heap s) (next_ptr s) (queue s) (outstanding s) (records s)
    (completed_order s) (statistics s) (next_sequence s) (running_count s) (sequential_running s)
    (accepting s) (shutdown_in_progress s) (shutdown_complete s) (shutdown_phase s)
    (stop_requested s) (stopping s) (worker_ids s) (workers s) (future_errors s).

(** The constructor: the exceptions it throws, or the started scheduler. *)
Definition initial (o : RuntimeSchedulerOptions) (w : World) : string + SchedulerState :=
  if maximumQueueSize o =? 0 then
    inl "RuntimeScheduler maximum queue size must be greater than zero"
  else if bool_decide (workerCount o = 0%nat) then
    inl "RuntimeScheduler worker count must be greater than zero"
  else inr
    {| options := o; world := w; heap := ∅; next_ptr := 0%nat; queue := []; outstanding := ∅;
       records := ∅; completed_order := []; statistics := zero_statistics; next_sequence := 1;
       running_count := 0; sequential_running := false; accepting := true;
       shutdown_in_progress := false; shutdown_complete := false; shutdown_phase := NoShutdown;
       stop_requested := false; stopping := []; worker_ids := replicate (workerCount o) None;
       workers := replicate (workerCount o) WorkerStarting; future_errors := 0%nat |}.

(* ------------------------------------------------------------------ *)
(** ** Records *)

Definition Validate (j : RuntimeJob) : option RuntimeJobResult :=
  if job_id j =? 0 then Some (Result StateFailed "Runtime job identifier must be nonzero")
  else if negb (IsKnownPriority (job_priority j)) then
    Some (Result StateFailed "Runtime job priority is invalid")
  else if negb (IsKnownExecutionMode (executionMode j)) then
    Some (Result StateFailed "Runtime job execution mode is invalid")
  else if negb (has_callback j) then Some (Result StateFailed "Runtime job callback is required")
  else None.

Definition MakeInitialSnapshot (j : RuntimeJob) (seq now : Z) : RuntimeJobSnapshot :=
  mkSnapshot (job_id j) seq (job_priority j) (executionMode j) StateCreated now None None
    (Result StateCreated "Runtime job queued").

Definition IsTerminalLocked (i : Z) (s : SchedulerState) : bool :=
  match records s !! i with Some r => isTerminal (snap_jobState r) | None => false end.

(** [PruneCompletedHistoryLocked]: the loop over [completed_order_]; a limit
    of zero keeps everything. *)
Fixpoint prune (limit : Z) (out : gmap Z ptr) (order : list Z) (rs : gmap Z RuntimeJobSnapshot) :
    list Z * gmap Z RuntimeJobSnapshot :=
  match order with
  | [] => ([], rs)
  | oldest :: rest =>
      if (0 <? limit) && (limit <? Z.of_nat (length order)) then
        prune limit out rest (match out !! oldest with None => delete oldest rs | Some _ => rs end)
      else (order, rs)
  end.

Definition PruneCompletedHistoryLocked (s : SchedulerState) : SchedulerState :=
  let '(order, rs) := prune (maximumCompletedHistorySize (options s)) (outstanding s)
                        (completed_order s) (records s) in
  s <| completed_order := order |> <| records := rs |>.

Definition CompleteRecordLocked (i : Z) (r : RuntimeJobResult) (now : Z) (s : SchedulerState) :
    option SchedulerState :=
  record ← records s !! i;
  Some (PruneCompletedHistoryLocked
    (s <| records ::= insert i (record <| snap_jobState := result_state r |>
            <| snap_result := r |> <| completedAt := Some now |>) |>
       <| completed_order ::= (λ l, l ++ [i]) |>)).

(** [records_.at(id)] followed by the assignments to its state and result. *)
Definition set_record (i : Z) (r : RuntimeJobResult) (s : SchedulerState) : option SchedulerState :=
  record ← records s !! i;
  Some (s <| records ::= insert i (record <| snap_jobState := result_state r |>
              <| snap_result := r |>) |>).

Definition RecordTerminalStatisticsLocked (st : ExecutionState) (x : RuntimeSchedulerStatistics) :
    RuntimeSchedulerStatistics :=
  match st with
  | StateCompleted => x <| completed ::= u64_incr |>
  | StateCancelled => x <| stat_cancelled ::= u64_incr |>
  | StateFailed | StateAborted => x <| failed ::= u64_incr |>
  | StateCreated | StateStarting | StateRunning | StatePaused => x <| failed ::= u64_incr |>
  | StateRaw _ => x
  end.

(** [SetPromiseSafely] swallows the error of a second [set_value]. *)
Definition SetPromiseSafely (p : ptr) (r : RuntimeJobResult) (s : SchedulerState) : SchedulerState :=
  match heap s !! p with
  | Some j =>
      match promise j with
      | None => s <| heap ::= insert p (j <| promise := Some r |>) |>
      | Some _ => s <| future_errors ::= S |>
      end
  | None => s
  end.

Definition update_control (p : ptr) (f : RuntimeJobControl → RuntimeJobControl) (s : SchedulerState) :
    SchedulerState :=
  s <| heap ::= alter (set_field control f) p |>.

(** [control->RequestStop()] on the job at [p]. *)
Definition stop_control (p : ptr) (s : SchedulerState) : option SchedulerState :=
  j ← heap s !! p;
  '(w, c, _) ← RequestStop (control j) (world s);
  Some (update_control p (λ _, c) (s <| world := w |>)).

Definition queue_size (s : SchedulerState) : Z := Z.of_nat (length (queue s)).

(* ------------------------------------------------------------------ *)
(** ** Client operations *)

Inductive Future := ReadyFuture (r : RuntimeJobResult) | FutureOf (p : ptr).

Record RuntimeJobHandle := mkJobHandle { handle_jobId : Z; handle_result : Future }.

Definition refuse (j : RuntimeJob) (r : RuntimeJobResult) (s : SchedulerState) :
    SchedulerState * RuntimeJobHandle :=
  (s <| statistics ::= set_field rejected u64_incr |>, mkJobHandle (job_id j) (ReadyFuture r)).

Definition Submit (j : RuntimeJob) (now : Z) (s : SchedulerState) :
    SchedulerState * RuntimeJobHandle :=
  match Validate j with
  | Some validation => refuse j validation s
  | None =>
      if negb (accepting s) then refuse j (Result StateFailed "RuntimeScheduler is shut down") s
      else if bool_decide (is_Some (records s !! job_id j)) then
        refuse j (Result StateFailed "Runtime job identifier already exists") s
      else if maximumQueueSize (options s) <=? queue_size s then
        refuse j (Result StateFailed "RuntimeScheduler queue is full") s
      else
        let p := next_ptr s in
        let seq := next_sequence s in
        let '(w, c) := new_control (job_id j) (job_scope j) (job_metadata j) (world s) in
        (s <| world := w |>
           <| next_sequence ::= u64_incr |>
           <| heap ::= insert p (mkScheduledJob j seq c None JobQueued false) |>
           <| next_ptr ::= S |>
           <| records ::= insert (job_id j) (MakeInitialSnapshot j seq now) |>
           <| outstanding ::= insert (job_id j) p |>
           <| queue ::= (λ q, q ++ [p]) |>
           <| statistics ::= λ x, x
                <| accepted ::= u64_incr |>
                <| highWatermark ::= (λ h, Z.max h (Z.of_nat (length (queue s ++ [p])))) |> |>,
         mkJobHandle (job_id j) (FutureOf p))
  end.

(** [FindOutstandingLocked], with the object it points to. *)
Definition FindOutstandingLocked (i : Z) (s : SchedulerState) : option (ptr * ScheduledJob) :=
  p ← outstanding s !! i; j ← heap s !! p; Some (p, j).

Definition Pause (i : Z) (s : SchedulerState) : option (SchedulerState * bool) :=
  match FindOutstandingLocked i s with
  | None => Some (s, false)
  | Some (p, j) =>
      if IsTerminalLocked i s then Some (s, false)
      else
        s' ← set_record i (Result StatePaused "Runtime job paused")
               (update_control p (SetPaused true) s);
        Some (s', true)
  end.

Definition Resume (i : Z) (s : SchedulerState) : option (SchedulerState * bool) :=
  match FindOutstandingLocked i s with
  | None => Some (s, false)
  | Some (p, j) =>
      if negb (paused (control j)) || IsTerminalLocked i s then Some (s, false)
      else
        let st := if bool_decide (sj_state j = JobRunning) then StateRunning else StateCreated in
        s' ← set_record i (Result st "Runtime job resumed") (update_control p (SetPaused false) s);
        Some (s', true)
  end.

Definition stopped_before_execution : RuntimeJobResult :=
  Result StateCancelled "Runtime job stopped before execution".

(** The critical section of [Stop]. *)
Definition Stop (i : Z) (now : Z) (s : SchedulerState) : option (SchedulerState * bool) :=
  match FindOutstandingLocked i s with
  | None => Some (s, false)
  | Some (p, j) =>
      if IsTerminalLocked i s then Some (s, false)
      else if bool_decide (sj_state j = JobQueued) then
        s' ← CompleteRecordLocked i stopped_before_execution now
               (s <| queue ::= erase_value p |>
                  <| outstanding ::= delete i |>
                  <| statistics ::= λ x, x <| stat_cancelled ::= u64_incr |>
                                           <| stopped ::= u64_incr |> |>);
        Some (s' <| stopping ::= cons (p, true) |>, true)
      else
        let s1 :=
          if negb (stopRequested j) then
            s <| statistics ::= set_field stopped u64_incr |>
              <| heap ::= insert p (j <| stopRequested := true |>) |>
          else s in
        s' ← set_record i (Result StateCancelled "Runtime job stop requested") s1;
        Some (s' <| stopping ::= cons (p, false) |>, true)
  end.

(** The rest of [Stop], of the [k]-th call that is under way. *)
Definition Stop_finish (k : nat) (s : SchedulerState) : option SchedulerState :=
  '(p, queued) ← stopping s !! k;
  s' ← stop_control p (s <| stopping ::= delete k |>);
  Some (if queued : bool then SetPromiseSafely p stopped_before_execution s' else s').

Inductive ShutdownDecision := ShutdownReturns | ShutdownWaits | ShutdownOwns.

Definition shutdown_cancelled : RuntimeJobResult :=
  Result StateCancelled "Runtime job cancelled during scheduler shutdown".

(** The loop of [Shutdown] over the jobs it took out of the queue. *)
Fixpoint cancel_queued (now : Z) (ps : list ptr) (s : SchedulerState) : option SchedulerState :=
  match ps with
  | [] => Some s
  | p :: ps' =>
      j ← heap s !! p;
      s' ← CompleteRecordLocked (job_id (job j)) shutdown_cancelled now
             (s <| outstanding ::= delete (job_id (job j)) |>
                <| statistics ::= set_field stat_cancelled u64_incr |>);
      cancel_queued now ps' s'
  end.

(** Its loop over the jobs that are still outstanding. *)
Fixpoint cancel_running (ps : list ptr) (s : SchedulerState) : option SchedulerState :=
  match ps with
  | [] => Some s
  | p :: ps' =>
      j ← heap s !! p;
      let s1 :=
        if negb (stopRequested j) then
          s <| statistics ::= set_field stopped u64_incr |>
            <| heap ::= insert p (j <| stopRequested := true |>) |>
        else s in
      s' ← set_record (job_id (job j))
             (Result StateCancelled "Runtime job cancellation requested during scheduler shutdown") s1;
      cancel_running ps' s'
  end.

Definition Shutdown_begin (caller : ThreadId) (now : Z) (s : SchedulerState) :
    option (SchedulerState * ShutdownDecision) :=
  if shutdown_complete s then Some (s, ShutdownReturns)
  else if IsWorkerThread caller (worker_ids s) then
    Some (s <| accepting := false |>, ShutdownReturns)
  else if shutdown_in_progress s then Some (s, ShutdownWaits)
  else
    let queued_jobs := queue s in
    s1 ← cancel_queued now queued_jobs
           (s <| shutdown_in_progress := true |> <| accepting := false |> <| queue := [] |>);
    let running_jobs := (map_to_list (outstanding s1)).*2 in
    s2 ← cancel_running running_jobs s1;
    Some (s2 <| shutdown_phase := ShutdownCancelling queued_jobs running_jobs |>, ShutdownOwns).

(** After the critical section: every control is stopped, the promises of
    the queued jobs are set, and the workers are asked to stop. *)
Fixpoint stop_controls (ps : list ptr) (s : SchedulerState) : option SchedulerState :=
  match ps with
  | [] => Some s
  | p :: ps' => s' ← stop_control p s; stop_controls ps' s'
  end.

Fixpoint stop_queued (ps : list ptr) (s : SchedulerState) : option SchedulerState :=
  match ps with
  | [] => Some s
  | p :: ps' =>
      s' ← stop_control p s;
      stop_queued ps' (SetPromiseSafely p shutdown_cancelled s')
  end.

Definition Shutdown_cancel (s : SchedulerState) : option SchedulerState :=
  match shutdown_phase s with
  | ShutdownCancelling queued_jobs running_jobs =>
      s1 ← stop_queued queued_jobs s;
      s2 ← stop_controls running_jobs s1;
      Some (s2 <| stop_requested := true |> <| shutdown_phase := ShutdownJoining |>)
  | _ => None
  end.

Definition Shutdown_end (s : SchedulerState) : option SchedulerState :=
  match shutdown_phase s with
  | ShutdownJoining =>
      if all_exited (workers s) then
        Some (s <| shutdown_complete := true |> <| shutdown_in_progress := false |>
                <| shutdown_phase := NoShutdown |>)
      else None
  | _ => None
  end.

(** [CountPausedLocked] *)
Definition CountPausedLocked (s : SchedulerState) : Z :=
  Z.of_nat (length (filter (λ p, (paused ∘ control <$> heap s !! p) = Some true)
                      (map_to_list (outstanding s)).*2)).

Definition GetSnapshot (i : Z) (s : SchedulerState) : option RuntimeJobSnapshot := records s !! i.

Definition GetStatistics (s : SchedulerState) : RuntimeSchedulerStatistics :=
  (statistics s)
    <| stat_queued := queue_size s |>
    <| stat_running := running_count s |>
    <| stat_paused := CountPausedLocked s |>
    <| stat_maximumQueueSize := maximumQueueSize (options s) |>
    <| stat_workerCount := Z.of_nat (workerCount (options s)) |>.

Definition Size (s : SchedulerState) : Z := queue_size s.

(* ------------------------------------------------------------------ *)
(** ** The worker loop *)

Definition CanStartLocked (j : ScheduledJob) (s : SchedulerState) : bool :=
  if paused (control j) then false
  else if sequential_running s then false
  else if bool_decide (executionMode (job j) = Sequential) && (0 <? running_count s) then false
  else true.

(** The order in which startable jobs are preferred. *)
Definition preferred (candidate best : ScheduledJob) : bool :=
  let candidate_priority := PriorityRank (job_priority (job candidate)) in
  let best_priority := PriorityRank (job_priority (job best)) in
  (best_priority <? candidate_priority) ||
  ((candidate_priority =? best_priority) && (sequence candidate <? sequence best)).

(** The loop of [FindNextJobLocked] over the rest [l] of the queue; [index]
    is where it stands, [best] the position found so far. *)
Fixpoint find_next (s : SchedulerState) (best : option (nat * ScheduledJob)) (index : nat)
    (l : list ptr) : option (nat * ScheduledJob) :=
  match l with
  | [] => best
  | p :: l' =>
      let best' :=
        match heap s !! p with
        | None => best
        | Some j =>
            if negb (CanStartLocked j s) then best
            else match best with
            | None => Some (index, j)
            | Some (_, b) => if preferred j b then Some (index, j) else best
            end
        end in
      find_next s best' (S index) l'
  end.

Definition FindNextJobLocked (s : SchedulerState) : option nat :=
  fst <$> find_next s None 0 (queue s).

Definition HasSchedulableJobLocked (s : SchedulerState) : bool :=
  bool_decide (is_Some (FindNextJobLocked s)).

Definition Run_register (w : nat) (s : SchedulerState) : option SchedulerState :=
  match workers s !! w with
  | Some WorkerStarting =>
      Some (s <| worker_ids ::= insert w (Some (WorkerThread w)) |>
              <| workers ::= insert w WorkerWaiting |>)
  | _ => None
  end.

(** What taking a job changes in it. *)
Definition started_job (j : ScheduledJob) (now : Z) : ScheduledJob :=
  j <| sj_state := JobRunning |>
    <| control := (control j) <| execution :=
         SetState StateRunning (SetStartTimestamp now (execution (control j))) |> |>.

(** The job at position [i] of the queue starts on worker [w]. *)
Definition start_job (w i : nat) (now : Z) (s : SchedulerState) : option SchedulerState :=
  p ← queue s !! i;
  j ← heap s !! p;
  record ← records s !! job_id (job j);
  Some (s <| queue ::= delete i |>
          <| heap ::= insert p (started_job j now) |>
          <| running_count ::= u64_incr |>
          <| sequential_running := bool_decide (executionMode (job j) = Sequential) |>
          <| statistics ::= λ x, x
               <| maximumConcurrentRunning ::= (λ m, Z.max m (u64_incr (running_count s))) |>
               <| started ::= u64_incr |> |>
          <| records ::= insert (job_id (job j)) (record <| snap_jobState := StateRunning |>
               <| startedAt := Some now |>
               <| snap_result := Result StateRunning "Runtime job running" |>) |>
          <| workers ::= insert w (WorkerExecuting p) |>).

(** The critical section that follows the wait; [None] when the predicate of
    the condition variable is false and the worker stays asleep. *)
Definition Run_take (w : nat) (now : Z) (s : SchedulerState) : option SchedulerState :=
  match workers s !! w with
  | Some WorkerWaiting =>
      if stop_requested s || negb (accepting s) || HasSchedulableJobLocked s then
        match FindNextJobLocked s with
        | None =>
            if stop_requested s || negb (accepting s) then
              Some (s <| worker_ids ::= insert w None |> <| workers ::= insert w WorkerExited |>)
            else Some s
        | Some i => start_job w i now s
        end
      else None
  | _ => None
  end.

(** What the callback of a job does. *)
Inductive Outcome :=
  | Returned (r : RuntimeJobResult)
  | ThrewException (what : string)
  | ThrewUnknown.

Definition NormalizeResult (cancelled : bool) (r : RuntimeJobResult) : RuntimeJobResult :=
  if cancelled then Result StateCancelled "Runtime job cancelled"
  else if negb (isTerminal (result_state r)) then
    Result StateCompleted
      (if String.eqb (result_message r) "" then "Runtime job completed" else result_message r)
  else if negb (IsSuccessfulTerminal (result_state r)) && String.eqb (result_message r) "" then
    Result (result_state r) "Runtime job did not complete successfully"
  else r.

Definition job_result (cancelled : bool) (outcome : Outcome) : RuntimeJobResult :=
  match outcome with
  | Returned r => NormalizeResult cancelled r
  | ThrewException what => Result StateFailed what
  | ThrewUnknown => Result StateFailed "Runtime job callback threw an unknown exception"
  end.

Definition Run_execute (w : nat) (outcome : Outcome) (s : SchedulerState) : option SchedulerState :=
  match workers s !! w with
  | Some (WorkerExecuting p) =>
      j ← heap s !! p;
      Some (s <| workers ::= insert w (WorkerFinished p
              (job_result (IsCancellationRequested (control j) (world s)) outcome)) |>)
  | _ => None
  end.

(** What finishing a job changes in it. *)
Definition finished_job (j : ScheduledJob) (r : RuntimeJobResult) : ScheduledJob :=
  j <| control ::= set_field execution (SetState (result_state r)) |>.

Definition Run_record (w : nat) (now : Z) (s : SchedulerState) : option SchedulerState :=
  match workers s !! w with
  | Some (WorkerFinished p result) =>
      j ← heap s !! p;
      s' ← CompleteRecordLocked (job_id (job j)) result now
        (s <| running_count ::= (λ n, if 0 <? n then u64_decr n else n) |>
           <| sequential_running ::=
                (λ b, if bool_decide (executionMode (job j) = Sequential) then false else b) |>
           <| outstanding ::= delete (job_id (job j)) |>
           <| heap ::= insert p (finished_job j result) |>);
      Some (s' <| statistics ::= RecordTerminalStatisticsLocked (result_state result) |>
               <| workers ::= insert w (WorkerDelivering p result) |>)
  | _ => None
  end.

Definition Run_deliver (w : nat) (s : SchedulerState) : option SchedulerState :=
  match workers s !! w with
  | Some (WorkerDelivering p result) =>
      Some ((SetPromiseSafely p result s) <| workers ::= insert w WorkerWaiting |>)
  | _ => None
  end.

(** What a callback may do through its [RuntimeJobContext], or the holder of
    its token: register a callback, request cancellation of its own context. *)
Definition Job_register (p : ptr) (tag : nat) (s : SchedulerState) : option SchedulerState :=
  j ← heap s !! p;
  '(w, _) ← source_Register (cancellation (control j)) (Some (UserCallback tag)) (world s);
  Some (s <| world := w |>).

Definition Job_request_cancellation (p : ptr) (s : SchedulerState) : option SchedulerState :=
  j ← heap s !! p;
  '(w, e, _) ← RequestCancellation (execution (control j)) (world s);
  Some (update_control p (set_field execution (λ _, e)) (s <| world := w |>)).

(* ------------------------------------------------------------------ *)
(** ** Interleavings *)

Inductive Label :=
  | LSubmit (j : RuntimeJob) (now : Z)
  | LPause (i : Z)
  | LResume (i : Z)
  | LStop (i now : Z)
  | LStopFinish (k : nat)
  | LShutdownBegin (caller : ThreadId) (now : Z)
  | LShutdownCancel
  | LShutdownEnd
  | LRegister (w : nat)
  | LTake (w : nat) (now : Z)
  | LExecute (w : nat) (outcome : Outcome)
  | LRecord (w : nat) (now : Z)
  | LDeliver (w : nat)
  | LJobRegister (p : ptr) (tag : nat)
  | LJobCancel (p : ptr).

Definition exec (s : SchedulerState) (l : Label) : option SchedulerState :=
  match l with
  | LSubmit j now => Some (Submit j now s).1
  | LPause i => fst <$> Pause i s
  | LResume i => fst <$> Resume i s
  | LStop i now => fst <$> Stop i now s
  | LStopFinish k => Stop_finish k s
  | LShutdownBegin caller now => fst <$> Shutdown_begin caller now s
  | LShutdownCancel => Shutdown_cancel s
  | LShutdownEnd => Shutdown_end s
  | LRegister w => Run_register w s
  | LTake w now => Run_take w now s
  | LExecute w outcome => Run_execute w outcome s
  | LRecord w now => Run_record w now s
  | LDeliver w => Run_deliver w s
  | LJobRegister p tag => Job_register p tag s
  | LJobCancel p => Job_request_cancellation p s
  end.

Definition reachable (o : RuntimeSchedulerOptions) (s : SchedulerState) : Prop :=
  ∃ w s0 ls, initial o w = inr s0 ∧ run exec s0 ls = Some s.

(* ------------------------------------------------------------------ *)
(** ** Records and history *)

(** The records are those of the outstanding jobs and of the finished jobs
    whose history is kept. *)
Record records_inv (limit : Z) (out : gmap Z ptr) (rs : gmap Z RuntimeJobSnapshot)
    (order : list Z) : Prop := {
  rc_dom i : is_Some (rs !! i) ↔ is_Some (out !! i) ∨ i ∈ order;
  rc_nodup : NoDup order;
  rc_done i : i ∈ order → out !! i = None;
  rc_limit : 0 < limit → Z.of_nat (length order) <= limit;
}.

Lemma records_inv_empty limit : records_inv limit ∅ ∅ [].
Proof.
  split; simpl; try lia; [|constructor|done].
  intros i. rewrite !lookup_empty. split; [by intros []|]. by intros [[]|?%elem_of_nil].
Qed.

Lemma records_inv_set limit out rs order i x :
  records_inv limit out rs order → is_Some (rs !! i) → records_inv limit out (<[i := x]> rs) order.
Proof.
  intros [H1 H2 H3 H4] Hi. split; try done. intros k. rewrite <-H1.
  destruct (decide (i = k)) as [->|]; [by rewrite lookup_insert_eq|by rewrite lookup_insert_ne].
Qed.

Lemma records_inv_submit limit out rs order i p x :
  records_inv limit out rs order → rs !! i = None →
  records_inv limit (<[i := p]> out) (<[i := x]> rs) order.
Proof.
  intros [H1 H2 H3 H4] Hi.
  assert (Hno : i ∉ order) by (intros Hin; apply eq_None_not_Some in Hi; apply Hi, H1; auto).
  split; try done.
  - intros k. destruct (decide (i = k)) as [->|]; [|by rewrite !lookup_insert_ne].
    rewrite !lookup_insert_eq. split; eauto.
  - intros k Hk. rewrite lookup_insert_ne by (by intros ->). by apply H3.
Qed.

(** The pruning loop: it ends within the limit and drops a record together
    with its entry in the history. *)
Lemma prune_spec limit out order : ∀ rs,
  (∀ i, is_Some (rs !! i) ↔ is_Some (out !! i) ∨ i ∈ order) → NoDup order →
  (∀ i, i ∈ order → out !! i = None) →
  records_inv limit out (prune limit out order rs).2 (prune limit out order rs).1.
Proof.
  induction order as [|k order IH]; intros rs Hdom Hnd Hdone; simpl.
  { split; simpl; done || lia. }
  destruct ((0 <? limit) && (limit <? Z.of_nat (S (length order)))) eqn:E.
  2: { split; try done. cbn [length fst]. intros. apply andb_false_iff in E as [E%Z.ltb_ge|E%Z.ltb_ge]; lia. }
  apply NoDup_cons in Hnd as [Hk Hnd]. pose proof (Hdone k ltac:(by left)) as Hout.
  rewrite Hout. apply IH; [|done|].
  - intros i. destruct (decide (i = k)) as [->|Hne].
    + rewrite lookup_delete_eq, Hout. split; [by intros []|]. by intros [[]|?].
    + rewrite lookup_delete_ne by done. rewrite Hdom, elem_of_cons. tauto.
  - intros i Hi. apply Hdone. by right.
Qed.

Lemma CompleteRecordLocked_spec i r now s out p :
  records_inv (maximumCompletedHistorySize (options s)) out (records s) (completed_order s) →
  out !! i = Some p → outstanding s = delete i out →
  ∃ rs order, CompleteRecordLocked i r now s = Some (s <| records := rs |> <| completed_order := order |>) ∧
    records_inv (maximumCompletedHistorySize (options s)) (delete i out) rs order.
Proof.
  intros [H1 H2 H3 H4] Hi Hout. unfold CompleteRecordLocked.
  destruct (records s !! i) as [x|] eqn:Hx.
  2: { apply eq_None_not_Some in Hx. destruct Hx. apply H1. eauto. }
  simpl. unfold PruneCompletedHistoryLocked. simpl. rewrite Hout.
  set (x' := mkSnapshot _ _ _ _ _ _ _ _ _).
  assert (Hno : i ∉ completed_order s) by (intros Hin; rewrite (H3 _ Hin) in Hi; done).
  pose proof (prune_spec (maximumCompletedHistorySize (options s)) (delete i out)
    (completed_order s ++ [i]) (<[i := x']> (records s))) as Hprune.
  destruct (prune _ _ _ _) as [order rs]. exists rs, order. split; [done|].
  apply Hprune.
  - intros k. rewrite elem_of_app, list_elem_of_singleton. destruct (decide (i = k)) as [->|Hne].
    + rewrite lookup_insert_eq. split; [by right; right|eauto].
    + rewrite lookup_insert_ne, lookup_delete_ne by done. rewrite H1. naive_solver.
  - apply NoDup_app. split; [done|]. split; [|apply NoDup_singleton].
    intros k Hk ->%list_elem_of_singleton. done.
  - intros k [Hk|Hk%list_elem_of_singleton]%elem_of_app; [|subst; apply lookup_delete_eq].
    apply lookup_delete_None. right. by apply H3.
Qed.

Lemma set_record_spec limit i r s :
  records_inv limit (outstanding s) (records s) (completed_order s) →
  is_Some (outstanding s !! i) →
  ∃ rs, set_record i r s = Some (s <| records := rs |>) ∧
    records_inv limit (outstanding s) rs (completed_order s).
Proof.
  intros I Hi. unfold set_record.
  assert (is_Some (records s !! i)) as [x Hx] by (apply (rc_dom _ _ _ _ I); auto).
  rewrite Hx. simpl. eexists. split; [done|]. apply records_inv_set; [done|]. by rewrite Hx.
Qed.

(* ------------------------------------------------------------------ *)
(** ** The invariant *)

#[export] Instance ScheduledJob_like : TaskLike ScheduledJob RuntimeJobResult := {
  task_promise := promise;
  task_key j := job_id (job j);
  task_running j := bool_decide (sj_state j = JobRunning);
}.

(** Jobs that left the queue without a worker and whose promises are still to
    be set: by a thread that shuts down, or by a call of [Stop]. *)
Definition stopped_queued (x : ptr * bool) : option ptr := if x.2 then Some x.1 else None.

Definition cancelling (ph : ShutdownPhase) : list ptr :=
  match ph with ShutdownCancelling l _ => l | _ => [] end.

Definition withdrawn (s : SchedulerState) : list ptr :=
  cancelling (shutdown_phase s) ++ omap stopped_queued (stopping s).

(** Jobs whose controls are still to be stopped. *)
Definition to_stop (s : SchedulerState) : list ptr :=
  (stopping s).*1 ++ match shutdown_phase s with ShutdownCancelling _ l => l | _ => [] end.

Definition is_sequential (s : SchedulerState) (p : ptr) : bool :=
  match heap s !! p with
  | Some j => bool_decide (executionMode (job j) = Sequential)
  | None => false
  end.

Definition terminal_count (x : RuntimeSchedulerStatistics) : Z :=
  completed x + stat_cancelled x + failed x.

Definition account (s : SchedulerState) : Z :=
  queue_size s + running_count s + terminal_count (statistics s).

Record sched_inv (o : RuntimeSchedulerOptions) (s : SchedulerState) : Prop := {
  sc_options : options s = o;
  sc_store : store_inv (heap s) (next_ptr s) (queue s) (running_tasks (workers s))
               (delivering_tasks (workers s)) (withdrawn s) (outstanding s);
  sc_errors : future_errors s = 0%nat;
  sc_running : running_count s = Z.of_nat (length (running_tasks (workers s)));
  sc_workers : length (workers s) = workerCount o;
  sc_records : records_inv (maximumCompletedHistorySize (options s)) (outstanding s) (records s)
                 (completed_order s);
  sc_flag : sequential_running s = true ↔
    ∃ p, p ∈ running_tasks (workers s) ∧ is_sequential s p = true;
  sc_alone p : p ∈ running_tasks (workers s) → is_sequential s p = true →
    length (running_tasks (workers s)) = 1%nat;
  sc_watermark : queue_size s <= highWatermark (statistics s) <= maximumQueueSize o;
  sc_concurrent : running_count s <= maximumConcurrentRunning (statistics s) <= Z.of_nat (workerCount o);
  sc_closed : shutdown_in_progress s || shutdown_complete s = true →
    accepting s = false ∧ queue s = [];
  sc_stop : stop_requested s = true → accepting s = false;
  sc_phase : shutdown_in_progress s = match shutdown_phase s with NoShutdown => false | _ => true end;
  sc_complete : shutdown_complete s = true →
    all_exited (workers s) = true ∧ shutdown_in_progress s = false;
  sc_results w p r : workers s !! w = Some (WorkerFinished p r) → isTerminal (result_state r) = true;
  sc_stops p : p ∈ to_stop s → is_Some (heap s !! p);
  sc_account : accepted (statistics s) ≡₆₄ account s;
}.

Lemma scheduler_initial_inv o w s :
  0 <= maximumQueueSize o → initial o w = inr s → sched_inv o s.
Proof.
  unfold initial. intros Ho H. guards_in H.
  assert (Hrun : running_tasks (replicate (workerCount o) (@WorkerStarting RuntimeJobResult)) = [])
    by by apply running_tasks_replicate.
  split; simpl; rewrite ?Hrun, ?delivering_tasks_replicate by done; try done.
  - apply store_inv_empty.
  - by rewrite length_replicate.
  - apply records_inv_empty.
  - split; [done|]. intros (p & []%elem_of_nil & _).
  - lia.
  - intros k p r Hk. by apply lookup_replicate in Hk as [? _].
  - intros p. unfold to_stop. simpl. by intros ?%elem_of_nil.
Qed.

(** *** Frames *)

(** A job as the invariant sees it, with the job it was submitted with. *)
Definition job_view (j : ScheduledJob) : RuntimeJob * option RuntimeJobResult * bool :=
  (job j, promise j, bool_decide (sj_state j = JobRunning)).

Definition same_jobs (h h' : gmap ptr ScheduledJob) : Prop :=
  ∀ p, job_view <$> h' !! p = job_view <$> h !! p.

#[export] Instance same_jobs_preorder : PreOrder same_jobs.
Proof. split; [by intros h p|]. intros h1 h2 h3 H12 H23 p. by rewrite H23, H12. Qed.

Lemma same_jobs_insert h p j j' :
  h !! p = Some j → job_view j' = job_view j → same_jobs h (<[p := j']> h).
Proof.
  intros Hp Hj q. destruct (decide (p = q)) as [->|]; [|by rewrite lookup_insert_ne].
  rewrite lookup_insert_eq, Hp. simpl. by rewrite Hj.
Qed.

Lemma same_jobs_alter h p (f : ScheduledJob → ScheduledJob) :
  (∀ j, job_view (f j) = job_view j) → same_jobs h (alter f p h).
Proof.
  intros Hf q. destruct (decide (p = q)) as [->|]; [|by rewrite lookup_alter_ne].
  rewrite lookup_alter_eq. destruct (h !! q); simpl; [|done]. by rewrite Hf.
Qed.

Lemma same_jobs_lookup h h' p j :
  same_jobs h h' → h !! p = Some j → ∃ j', h' !! p = Some j' ∧ job_view j' = job_view j.
Proof.
  intros H Hp. specialize (H p). rewrite Hp in H. destruct (h' !! p) as [j'|]; simplify_eq/=.
  exists j'. split; [done|]. unfold job_view. congruence.
Qed.

Lemma same_jobs_store h h' n q r d c tk :
  same_jobs h h' → store_inv (T := ScheduledJob) h n q r d c tk → store_inv h' n q r d c tk.
Proof.
  intros H. apply store_inv_view. intros p. specialize (H p). unfold job_view in H.
  destruct (h' !! p) as [j'|], (h !! p) as [j|]; simplify_eq/=; [|done].
  unfold task_view. simpl. congruence.
Qed.

Lemma same_jobs_sequential s s' p :
  same_jobs (heap s) (heap s') → is_sequential s' p = is_sequential s p.
Proof.
  intros H. specialize (H p). unfold is_sequential, job_view in *.
  destruct (heap s' !! p) as [j'|], (heap s !! p) as [j|]; try done.
  simpl in H. injection H as Hj _ _. by rewrite Hj.
Qed.

(** What may change without touching the pool of jobs and workers. *)
Definition same_pool (s s' : SchedulerState) : Prop :=
  options s' = options s ∧ next_ptr s' = next_ptr s ∧ queue s' = queue s ∧
  outstanding s' = outstanding s ∧ completed_order s' = completed_order s ∧
  running_count s' = running_count s ∧ sequential_running s' = sequential_running s ∧
  accepting s' = accepting s ∧ shutdown_in_progress s' = shutdown_in_progress s ∧
  shutdown_complete s' = shutdown_complete s ∧ shutdown_phase s' = shutdown_phase s ∧
  stop_requested s' = stop_requested s ∧ workers s' = workers s ∧
  future_errors s' = future_errors s ∧
  (∃ k, statistics s' = (statistics s) <| stopped := k |>).

Lemma sched_inv_frame o s s' :
  sched_inv o s → same_pool s s' → same_jobs (heap s) (heap s') →
  omap stopped_queued (stopping s') = omap stopped_queued (stopping s) →
  (∀ p, p ∈ (stopping s').*1 → p ∈ (stopping s).*1 ∨ is_Some (heap s !! p)) →
  records_inv (maximumCompletedHistorySize o) (outstanding s) (records s') (completed_order s) →
  sched_inv o s'.
Proof.
  intros [] (E1 & E2 & E3 & E4 & E5 & E6 & E7 & E8 & E9 & E10 & E11 & E12 & E13 & E14 & k & E15)
    Hj Hstop Hnew Hrec. subst o.
  assert (Hseq : ∀ p, is_sequential s' p = is_sequential s p)
    by (intros; by apply same_jobs_sequential).
  assert (Hw : withdrawn s' = withdrawn s) by (unfold withdrawn; by rewrite E11, Hstop).
  assert (Hsome : ∀ p, is_Some (heap s !! p) → is_Some (heap s' !! p)).
  { intros p [j Hp]. destruct (same_jobs_lookup _ _ _ _ Hj Hp) as (j' & -> & _). eauto. }
  split; unfold account, queue_size in *;
    rewrite ?E1, ?E2, ?E3, ?E4, ?E5, ?E6, ?E7, ?E8, ?E9, ?E10, ?E11, ?E12, ?E13, ?E14, ?E15, ?Hw; try done.
  - by eapply same_jobs_store.
  - rewrite sc_flag0. split; intros (p & ? & ?); exists p; [by rewrite Hseq|by rewrite <-Hseq].
  - intros p. rewrite Hseq. eauto.
  - intros p. unfold to_stop in *. rewrite E11. rewrite elem_of_app. intros [Hp|Hp].
    + apply Hsome. destruct (Hnew _ Hp) as [?|?]; [|done]. apply sc_stops0, elem_of_app. by left.
    + apply Hsome, sc_stops0, elem_of_app. by right.
Qed.

(** *** Cancelling controls *)

Lemma stop_control_spec p s :
  is_Some (heap s !! p) →
  ∃ w c, stop_control p s = Some (update_control p (λ _, c) (s <| world := w |>)).
Proof.
  intros [j Hp]. unfold stop_control. rewrite Hp. simpl. unfold RequestStop, source_Cancel.
  destruct (Cancel_total (source_state (cancellation (control j))) (world s)) as [[w1 b1] ->]. simpl.
  unfold RequestCancellation, request_stop, source_Cancel.
  destruct (Cancel_total (source_state (runtime_cancellation_source
    (execution (control j)))) w1) as [[w2 b2] E]. simpl. rewrite E. simpl. eauto.
Qed.

Lemma update_control_same_jobs p f s : same_jobs (heap s) (heap (update_control p f s)).
Proof. simpl. by apply same_jobs_alter. Qed.

Lemma update_control_fields p f s :
  update_control p f s = s <| heap := heap (update_control p f s) |>.
Proof. done. Qed.

(** *** Every operation *)

Lemma live_outstanding o s i p :
  sched_inv o s → outstanding s !! i = Some p →
  ∃ j, heap s !! p = Some j ∧ job_id (job j) = i ∧ promise j = None ∧
       p ∈ queue s ++ running_tasks (workers s) ∧
       (sj_state j = JobRunning ↔ p ∈ running_tasks (workers s)).
Proof.
  intros [] Hi. apply (si_index _ _ _ _ _ _ _ sc_store0) in Hi as [Hin (j & Hj & Hk)].
  assert (Hlive : p ∈ queue s ++ running_tasks (workers s) ++ delivering_tasks (workers s) ++ withdrawn s).
  { revert Hin. rewrite !elem_of_app. tauto. }
  destruct (store_live_lookup sc_store0 p Hlive) as (j' & ? & ?). simplify_eq.
  exists j. do 3 (split; [done|]). split; [done|].
  pose proof (si_running _ _ _ _ _ _ _ sc_store0 p j Hj Hin) as Hrun. simpl in Hrun.
  rewrite <-(bool_decide_eq_true (p ∈ _)), <-Hrun. by rewrite bool_decide_eq_true.
Qed.

Lemma FindOutstandingLocked_spec o s i :
  sched_inv o s →
  FindOutstandingLocked i s =
  match outstanding s !! i with
  | Some p => match heap s !! p with Some j => Some (p, j) | None => None end
  | None => None
  end.
Proof.
  intros I. unfold FindOutstandingLocked. destruct (outstanding s !! i) as [p|]; [|done]. simpl.
  by destruct (heap s !! p).
Qed.

Lemma scheduler_refuse_inv o j r s : sched_inv o s → sched_inv o (refuse j r s).1.
Proof. intros []. by split. Qed.

Lemma Submit_inv o j now s : sched_inv o s → sched_inv o (Submit j now s).1.
Proof.
  intros I. unfold Submit. destruct (Validate j); [by apply scheduler_refuse_inv|].
  destruct (accepting s) eqn:Hacc; cbn [negb]; [|by apply scheduler_refuse_inv].
  case_bool_decide as Hid; [by apply scheduler_refuse_inv|]. apply eq_None_not_Some in Hid.
  destruct (maximumQueueSize (options s) <=? queue_size s) eqn:Hsize; [by apply scheduler_refuse_inv|].
  apply Z.leb_gt in Hsize. unfold new_control, new_ExecutionContext, new_source.
  set (c := mkControl _ _ _). set (w' := add_state _).
  destruct I as [<- Istore ? ? ? Irec ? ? ? ? ? ? ? ? ? Istop ?].
  assert (Hfresh : heap s !! next_ptr s = None) by (apply (store_fresh_None Istore); lia).
  assert (Hout : outstanding s !! job_id j = None).
  { apply eq_None_not_Some. intros Hs. apply eq_None_not_Some in Hid. apply Hid.
    apply (rc_dom _ _ _ _ Irec). by left. }
  assert (Hne : ∀ p, p ∈ running_tasks (workers s) → p ≠ next_ptr s).
  { intros p Hp ->. apply (store_fresh_not_live Istore). rewrite !elem_of_app. tauto. }
  split; simpl; try done.
  - exact (store_alloc_waiting _ _ _ _ _ _ _
      (mkScheduledJob j (next_sequence s) c None JobQueued false) Istore eq_refl eq_refl Hout).
  - by apply records_inv_submit.
  - rewrite sc_flag0. split; intros (p & Hp & Hs); exists p; (split; [done|]); revert Hs;
      unfold is_sequential; simpl; rewrite lookup_insert_ne by (by apply not_eq_sym, Hne); done.
  - intros p Hp. unfold is_sequential. simpl.
    rewrite lookup_insert_ne by (by apply not_eq_sym, Hne). by apply sc_alone0.
  - unfold queue_size in *. simpl. rewrite length_app. simpl. lia.
  - intros H. destruct (sc_closed0 H). congruence.
  - intros p Hp. destruct (decide (p = next_ptr s)) as [->|]; [by rewrite lookup_insert_eq; eauto|].
    rewrite lookup_insert_ne by done. by apply Istop.
  - unfold account, queue_size, terminal_count in *. simpl. rewrite length_app. simpl. congr64.
Qed.

Lemma live_record o s i :
  sched_inv o s → is_Some (outstanding s !! i) → is_Some (records s !! i).
Proof. intros I Hi. apply (rc_dom _ _ _ _ (sc_records _ _ I)). by left. Qed.

(** Changing the controls and the records of outstanding jobs. *)
Lemma set_record_frame o s s1 i r :
  sched_inv o s → is_Some (outstanding s !! i) → same_pool s s1 → records s1 = records s →
  same_jobs (heap s) (heap s1) → stopping s1 = stopping s →
  ∃ rs, set_record i r s1 = Some (s1 <| records := rs |>) ∧ sched_inv o (s1 <| records := rs |>).
Proof.
  intros I Hi Hp Hrs Hj Hst. pose proof Hp as (E1 & _ & _ & E4 & E5 & _).
  pose proof (sc_options _ _ I) as Ho. pose proof (sc_records _ _ I) as Irec.
  destruct (set_record_spec (maximumCompletedHistorySize (options s)) i r s1) as (rs & E & Irs).
  - by rewrite E4, Hrs, E5.
  - by rewrite E4.
  - exists rs. split; [exact E|]. apply (sched_inv_frame o s); simpl; try done.
    + by rewrite Hst.
    + rewrite Hst. auto.
    + by rewrite <-Ho, <-E4, <-E5.
Qed.

Lemma same_pool_refl s : same_pool s s.
Proof. repeat split. exists (stopped (statistics s)). by destruct (statistics s). Qed.

Lemma same_pool_control p f s : same_pool s (update_control p f s).
Proof. repeat split. exists (stopped (statistics s)). simpl. by destruct (statistics s). Qed.

Lemma Pause_inv o i s :
  sched_inv o s → ∃ s' b, Pause i s = Some (s', b) ∧ sched_inv o s'.
Proof.
  intros I. unfold Pause. rewrite (FindOutstandingLocked_spec o) by done.
  destruct (outstanding s !! i) as [p|] eqn:Hi; [|by eauto].
  destruct (live_outstanding o s i p I Hi) as (j & Hj & _). rewrite Hj.
  destruct (IsTerminalLocked i s); [by eauto|].
  destruct (set_record_frame o s (update_control p (SetPaused true) s) i
    (Result StatePaused "Runtime job paused")) as (rs & -> & I'); try done.
  - apply same_pool_control.
  - apply update_control_same_jobs.
  - cbn. eauto.
Qed.

Lemma Resume_inv o i s :
  sched_inv o s → ∃ s' b, Resume i s = Some (s', b) ∧ sched_inv o s'.
Proof.
  intros I. unfold Resume. rewrite (FindOutstandingLocked_spec o) by done.
  destruct (outstanding s !! i) as [p|] eqn:Hi; [|by eauto].
  destruct (live_outstanding o s i p I Hi) as (j & Hj & _). rewrite Hj.
  destruct (negb (paused (control j)) || IsTerminalLocked i s); [by eauto|]. cbv zeta.
  edestruct (set_record_frame o s (update_control p (SetPaused false) s) i)
    as (rs & -> & I'); try done.
  - apply same_pool_control.
  - apply update_control_same_jobs.
  - cbn. eauto.
Qed.

(** A job that is stopped while it waits is withdrawn from the queue. *)
Lemma stop_queued_job o i now p j s :
  sched_inv o s → outstanding s !! i = Some p → heap s !! p = Some j → sj_state j = JobQueued →
  ∃ s', CompleteRecordLocked i stopped_before_execution now
      (s <| queue ::= erase_value p |> <| outstanding ::= delete i |>
         <| statistics ::= λ x, x <| stat_cancelled ::= u64_incr |> <| stopped ::= u64_incr |> |>)
    = Some s' ∧ sched_inv o (s' <| stopping ::= cons (p, true) |>).
Proof.
  intros I Hi Hj Hq. destruct (live_outstanding o s i p I Hi) as (j' & Hj' & Hk & Hpr & Hin & Hrun).
  simplify_eq. assert (Hpq : p ∈ queue s).
  { apply elem_of_app in Hin as [|Hin]; [done|]. apply Hrun in Hin. congruence. }
  destruct I as [<- Istore ? ? ? Irec ? ? ? ? ? ? ? ? ? Istop ?].
  pose proof (erase_value_Permutation _ _ Hpq) as Hperm.
  pose proof (length_erase_value_in _ _ Hpq) as Hlen.
  edestruct (CompleteRecordLocked_spec (job_id (job j)) stopped_before_execution now
    (s <| queue ::= erase_value p |> <| outstanding ::= delete (job_id (job j)) |>
       <| statistics ::= λ x, x <| stat_cancelled ::= u64_incr |> <| stopped ::= u64_incr |> |>))
    as (rs & order & -> & Irs); [exact Irec|done|done|].
  eexists. split; [done|]. simpl in Irs. split; simpl; try done.
  - rewrite Hperm in Istore. apply (store_withdraw_one _ _ _ _ _ _ _ p j) in Istore; [|done].
    unfold withdrawn in *. simpl in *. by rewrite <-(Permutation_middle _ _ p).
  - unfold queue_size in *. simpl. lia.
  - intros H. destruct (sc_closed0 H) as [? E]. rewrite E in *. by apply elem_of_nil in Hpq.
  - intros q. unfold to_stop. simpl. intros [->|Hq']%elem_of_cons; [by eauto|]. by apply Istop.
  - unfold account, queue_size, terminal_count in *. simpl. congr64.
Qed.

Lemma Stop_inv o i now s :
  sched_inv o s → ∃ s' b, Stop i now s = Some (s', b) ∧ sched_inv o s'.
Proof.
  intros I. unfold Stop. rewrite (FindOutstandingLocked_spec o) by done.
  destruct (outstanding s !! i) as [p|] eqn:Hi; [|by eauto].
  destruct (live_outstanding o s i p I Hi) as (j & Hj & _). rewrite Hj.
  destruct (IsTerminalLocked i s); [by eauto|]. case_bool_decide as Hq.
  { destruct (stop_queued_job o i now p j s I Hi Hj Hq) as (s' & -> & I'). cbn. eauto. }
  cbv zeta. set (s1 := if negb (stopRequested j) then _ else s).
  assert (H1 : same_pool s s1 ∧ records s1 = records s ∧ same_jobs (heap s) (heap s1) ∧
               stopping s1 = stopping s).
  { unfold s1. destruct (stopRequested j); simpl; [by split; [apply same_pool_refl|]|].
    split_and!; try done; [by repeat split; eauto|]. by apply (same_jobs_insert _ _ j). }
  destruct H1 as (Hpool & Hrs & Hjobs & Hst).
  destruct (set_record_frame o s s1 i (Result StateCancelled "Runtime job stop requested") I)
    as (rs & -> & I'); try done. cbn [mbind option_bind]. eexists _, _. split; [done|].
  apply (sched_inv_frame o (s1 <| records := rs |>)); try done.
  - repeat split. exists (stopped (statistics s1)). simpl. by destruct (statistics s1).
  - simpl. intros q [->|Hin]%elem_of_cons; [right|by left].
    destruct (same_jobs_lookup _ _ _ _ Hjobs Hj) as (j' & -> & _). eauto.
  - pose proof (sc_records _ _ I') as Irec. by rewrite (sc_options _ _ I') in Irec.
Qed.

Lemma SetPromiseSafely_pending p r s j :
  heap s !! p = Some j → promise j = None →
  SetPromiseSafely p r s = s <| heap ::= insert p (j <| promise := Some r |>) |>.
Proof. intros Hp Hj. unfold SetPromiseSafely. by rewrite Hp, Hj. Qed.

(** Setting the promise of a withdrawn job. *)
Lemma settle_jobs_sequential s p j r q :
  heap s !! p = Some j →
  is_sequential (s <| heap ::= insert p (j <| promise := Some r |>) |>) q = is_sequential s q.
Proof.
  intros Hp. unfold is_sequential. simpl. destruct (decide (p = q)) as [->|].
  - by rewrite lookup_insert_eq, Hp.
  - by rewrite lookup_insert_ne.
Qed.

Lemma settle_inv o s p j r s0 :
  sched_inv o s0 → s = s0 <| heap := heap s |> <| world := world s |> <| stopping := stopping s |> →
  heap s !! p = Some j → same_jobs (heap s0) (heap s) → promise j = None →
  omap stopped_queued (stopping s0) ≡ₚ p :: omap stopped_queued (stopping s) →
  (∀ q, q ∈ (stopping s).*1 → q ∈ (stopping s0).*1) →
  sched_inv o (SetPromiseSafely p r s).
Proof.
  intros I Hs Hp Hjobs Hpr Hperm Hsub. erewrite SetPromiseSafely_pending by done.
  assert (Hseq : ∀ q, is_sequential (s <| heap ::= insert p (j <| promise := Some r |>) |>) q =
                      is_sequential s0 q).
  { intros q. rewrite settle_jobs_sequential by done.
    by apply same_jobs_sequential. }
  assert (Hsome : ∀ q, is_Some (heap s0 !! q) →
    is_Some (heap (s <| heap ::= insert p (j <| promise := Some r |>) |>) !! q)).
  { intros q [jq Hq]. simpl. destruct (decide (p = q)) as [->|]; [by rewrite lookup_insert_eq; eauto|].
    rewrite lookup_insert_ne by done.
    destruct (same_jobs_lookup _ _ _ _ Hjobs Hq) as (? & -> & _). eauto. }
  set (s2 := s <| heap ::= insert p (j <| promise := Some r |>) |>) in *.
  destruct I as [<- Istore ? ? ? Irec ? ? ? ? ? ? ? ? ? Istop ?].
  assert (Es : s2 = s0 <| heap := heap s2 |> <| world := world s2 |> <| stopping := stopping s2 |>).
  { unfold s2. rewrite Hs. done. }
  rewrite Es. split; simpl; try done.
  - eapply store_settle_one; [|exact Hp|simpl; eauto].
    eapply same_jobs_store; [exact Hjobs|]. revert Istore. unfold withdrawn. simpl.
    rewrite Hperm. by rewrite <-(Permutation_middle _ _ p).
  - rewrite sc_flag0. split; intros (q & ? & Hq); exists q; (split; [done|]).
    + etransitivity; [apply Hseq|exact Hq].
    + etransitivity; [symmetry; apply Hseq|exact Hq].
  - intros q ? Hq. apply (sc_alone0 q); [done|]. etransitivity; [symmetry; apply Hseq|exact Hq].
  - intros q Hq. apply Hsome, Istop. revert Hq. unfold to_stop. simpl. rewrite !elem_of_app.
    intros [Hq|Hq]; [left; by apply Hsub|by right].
Qed.

Lemma withdrawn_pending o s p :
  sched_inv o s → p ∈ withdrawn s → ∃ j, heap s !! p = Some j ∧ promise j = None.
Proof.
  intros [] Hp. apply (store_live_lookup sc_store0). rewrite !elem_of_app. tauto.
Qed.

Lemma same_jobs_promise h h' p j :
  same_jobs h h' → h !! p = Some j → ∃ j', h' !! p = Some j' ∧ promise j' = promise j ∧ job j' = job j.
Proof.
  intros H Hp. destruct (same_jobs_lookup _ _ _ _ H Hp) as (j' & Hp' & Hv).
  exists j'. unfold job_view in Hv. split; [done|]. split; congruence.
Qed.

Lemma control_shape p f s l w :
  let s2 := update_control p f (s <| stopping := l |> <| world := w |>) in
  s2 = s <| heap := heap s2 |> <| world := world s2 |> <| stopping := stopping s2 |>.
Proof. reflexivity. Qed.

Lemma Stop_finish_inv o k s :
  sched_inv o s → is_Some (stopping s !! k) → ∃ s', Stop_finish k s = Some s' ∧ sched_inv o s'.
Proof.
  intros I [[p b] Hk]. unfold Stop_finish. rewrite Hk. cbn [mbind option_bind].
  assert (Hin : p ∈ (stopping s).*1).
  { apply list_elem_of_fmap. exists (p, b). split; [done|]. by eapply list_elem_of_lookup_2. }
  assert (Hsome : is_Some (heap s !! p)).
  { apply (sc_stops _ _ I). unfold to_stop. apply elem_of_app. by left. }
  set (s1 := s <| stopping ::= delete k |>).
  destruct (stop_control_spec p s1) as (w & c & ->); [done|]. cbn [mbind option_bind].
  set (s2 := update_control p (λ _, c) (s1 <| world := w |>)).
  assert (Hjobs : same_jobs (heap s) (heap s2)) by apply (update_control_same_jobs p _ s).
  assert (Hsub : ∀ q, q ∈ (stopping s2).*1 → q ∈ (stopping s).*1).
  { intros q (x & -> & Hx)%list_elem_of_fmap. apply list_elem_of_fmap. exists x. split; [done|].
    rewrite (delete_Permutation _ _ _ Hk). by right. }
  pose proof (omap_lookup_Permutation stopped_queued _ _ _ Hk) as Hperm.
  eexists. split; [done|]. destruct b; simpl in Hperm.
  - destruct (withdrawn_pending o s p I) as (j & Hj & Hpr).
    { unfold withdrawn. apply elem_of_app. right. rewrite Hperm. by left. }
    destruct (same_jobs_promise _ _ _ _ Hjobs Hj) as (j' & Hj' & Hpr' & _).
    eapply (settle_inv o s2 p j' _ s); [done| |done|done|congruence|exact Hperm|exact Hsub].
    exact (control_shape p (λ _, c) s _ w).
  - apply (sched_inv_frame o s); [done| |done| | |].
    + repeat split. exists (stopped (statistics s)). simpl. by destruct (statistics s).
    + simpl. by eapply omap_delete_None.
    + intros q Hq. left. by apply Hsub.
    + pose proof (sc_records _ _ I) as Irec. by rewrite (sc_options _ _ I) in Irec.
Qed.

Lemma is_sequential_jobs s s' p :
  job <$> heap s' !! p = job <$> heap s !! p → is_sequential s' p = is_sequential s p.
Proof.
  unfold is_sequential. destruct (heap s' !! p) as [j'|], (heap s !! p) as [j|]; try done.
  simpl. intros [= E]. by rewrite E.
Qed.

Lemma same_jobs_job h h' p : same_jobs h h' → job <$> h' !! p = job <$> h !! p.
Proof.
  intros H. specialize (H p). unfold job_view in H.
  destruct (h' !! p) as [j'|], (h !! p) as [j|]; try done. simpl in *. congruence.
Qed.

(** *** Shutdown *)

(** The loop over the queued jobs: it withdraws them one by one. *)
Lemma cancel_queued_spec now r d ps : ∀ s c,
  store_inv (heap s) (next_ptr s) ps r d c (outstanding s) →
  records_inv (maximumCompletedHistorySize (options s)) (outstanding s) (records s)
    (completed_order s) →
  ∃ out rs order k,
    cancel_queued now ps s =
      Some (s <| outstanding := out |> <| records := rs |> <| completed_order := order |>
              <| statistics ::= set_field stat_cancelled (λ _, k) |>) ∧
    store_inv (heap s) (next_ptr s) [] r d (ps ++ c) out ∧
    records_inv (maximumCompletedHistorySize (options s)) out rs order ∧
    k ≡₆₄ stat_cancelled (statistics s) + Z.of_nat (length ps).
Proof.
  induction ps as [|p ps IH]; intros s c Istore Irec.
  { exists (outstanding s), (records s), (completed_order s), (stat_cancelled (statistics s)).
    split; [by destruct s as [? ? ? ? ? ? ? ? []]|]. do 2 (split; [done|]). simpl. congr64. }
  cbn [cancel_queued]. destruct (store_live_lookup Istore p) as (j & Hj & _); [by left|].
  rewrite Hj. cbn [mbind option_bind].
  assert (Hout : outstanding s !! job_id (job j) = Some p).
  { apply (store_index_key Istore p j); [by left|done]. }
  destruct (CompleteRecordLocked_spec (job_id (job j)) shutdown_cancelled now
    (s <| outstanding ::= delete (job_id (job j)) |>
       <| statistics ::= set_field stat_cancelled u64_incr |>) (outstanding s) p)
    as (rs & order & -> & Irs); [done..|]. cbn [mbind option_bind].
  edestruct (IH (s <| outstanding ::= delete (job_id (job j)) |>
       <| statistics ::= set_field stat_cancelled u64_incr |>
       <| records := rs |> <| completed_order := order |>) (p :: c))
    as (out & rs' & order' & k & -> & Is & Irs' & Hk).
  - exact (store_withdraw_one _ _ _ _ _ _ _ p j Istore Hj).
  - done.
  - exists out, rs', order', k. split; [done|]. split; [|split; [done|]].
    + simpl in Is |- *. by rewrite (Permutation_middle ps c p).
    + simpl in Hk |- *. congr64.
Qed.

(** The loop over the outstanding jobs: it marks them and their records. *)
Lemma cancel_running_spec limit ps : ∀ s,
  (∀ p, p ∈ ps → ∃ j, heap s !! p = Some j ∧ is_Some (outstanding s !! job_id (job j))) →
  records_inv limit (outstanding s) (records s) (completed_order s) →
  ∃ h rs k,
    cancel_running ps s = Some (s <| heap := h |> <| records := rs |>
                                  <| statistics ::= set_field stopped (λ _, k) |>) ∧
    same_jobs (heap s) h ∧ records_inv limit (outstanding s) rs (completed_order s).
Proof.
  induction ps as [|p ps IH]; intros s Hps Irec.
  { exists (heap s), (records s), (stopped (statistics s)).
    split; [by destruct s as [? ? ? ? ? ? ? ? []]|done]. }
  cbn [cancel_running]. destruct (Hps p ltac:(by left)) as (j & Hj & Hout). rewrite Hj.
  cbn [mbind option_bind]. cbv zeta. set (s1 := if negb (stopRequested j) then _ else s).
  assert (∃ h1 k1, s1 = s <| heap := h1 |> <| statistics ::= set_field stopped (λ _, k1) |> ∧
                   same_jobs (heap s) h1) as (h1 & k1 & E1 & Hjobs1).
  { unfold s1. destruct (stopRequested j); cbn [negb].
    - exists (heap s), (stopped (statistics s)). split; [by destruct s as [? ? ? ? ? ? ? ? []]|done].
    - eexists _, _. split; [reflexivity|]. by apply (same_jobs_insert _ _ j). }
  rewrite E1. clear E1. clearbody s1. clear s1.
  edestruct (set_record_spec limit (job_id (job j)) (Result StateCancelled
    "Runtime job cancellation requested during scheduler shutdown")
    (s <| heap := h1 |> <| statistics ::= set_field stopped (λ _, k1) |>)) as (rs & -> & Irs);
    [done..|]. cbn [mbind option_bind].
  edestruct (IH (s <| heap := h1 |> <| statistics ::= set_field stopped (λ _, k1) |>
    <| records := rs |>)) as (h & rs' & k & -> & Hjobs & Irs'); [|done|].
  - intros q Hq. destruct (Hps q ltac:(by right)) as (jq & Hjq & Houtq).
    destruct (same_jobs_promise _ _ _ _ Hjobs1 Hjq) as (jq' & ? & _ & Ejob).
    exists jq'. simpl. by rewrite Ejob.
  - exists h, rs', k. split; [done|]. split; [|done]. by transitivity h1.
Qed.

Lemma scheduler_Shutdown_begin_inv o caller now s :
  sched_inv o s → ∃ s' d, Shutdown_begin caller now s = Some (s', d) ∧ sched_inv o s'.
Proof.
  intros I. unfold Shutdown_begin.
  destruct (shutdown_complete s) eqn:Hcomp; [by eauto|].
  destruct (IsWorkerThread caller (worker_ids s)).
  { eexists _, _. split; [done|]. destruct I. split; simpl; try done.
    intros H. by destruct (sc_closed0 H). }
  destruct (shutdown_in_progress s) eqn:Hin; [by eauto|]. cbv zeta.
  pose proof (sc_phase _ _ I) as Hphase. rewrite Hin in Hphase.
  assert (Hph : shutdown_phase s = NoShutdown) by by destruct (shutdown_phase s).
  pose proof (sc_store _ _ I) as Istore. unfold withdrawn in Istore. rewrite Hph in Istore.
  match goal with |- context [cancel_queued now (queue s) ?s0] =>
    destruct (cancel_queued_spec now _ _ (queue s) s0 _ Istore (sc_records _ _ I))
      as (out & rs & order & k & -> & Is & Irs & Hk) end. cbn [mbind option_bind].
  simpl in Is, Irs, Hk.
  set (s1 := s <| shutdown_in_progress := true |> <| accepting := false |> <| queue := [] |>
    <| outstanding := out |> <| records := rs |> <| completed_order := order |>
    <| statistics ::= set_field stat_cancelled (λ _, k) |>).
  destruct (cancel_running_spec (maximumCompletedHistorySize (options s))
    (map_to_list (outstanding s1)).*2 s1) as (h & rs' & k' & -> & Hjobs & Irs'); [|done|].
  { intros p ((i & q) & -> & Hp%elem_of_map_to_list)%list_elem_of_fmap. unfold s1 in *. simpl in *.
    apply (si_index _ _ _ _ _ _ _ Is) in Hp as Hi. destruct Hi as (_ & j & Hj & <-).
    exists j. split; [done|]. eauto. }
  simpl in Hjobs, Irs'. eexists _, _. split; [done|].
  assert (Hseq : ∀ p, is_sequential (s <| heap := h |>) p = is_sequential s p).
  { intros p. apply is_sequential_jobs, same_jobs_job, Hjobs. }
  destruct I as [<- _ ? ? ? _ ? ? ? ? ? ? _ ? ? Istop ?]. split; simpl; try done.
  - eapply same_jobs_store; [exact Hjobs|]. unfold withdrawn. simpl. done.
  - rewrite sc_flag0. split; intros (q & ? & Hq); exists q; (split; [done|]).
    + etransitivity; [apply Hseq|exact Hq].
    + etransitivity; [symmetry; apply Hseq|exact Hq].
  - intros q ? Hq. apply (sc_alone0 q); [done|]. etransitivity; [symmetry; apply Hseq|exact Hq].
  - unfold queue_size in *. simpl. lia.
  - congruence.
  - intros q. unfold to_stop. simpl. intros [Hq|Hq]%elem_of_app.
    + destruct (Istop q) as [j Hj]; [unfold to_stop; apply elem_of_app; by left|].
      destruct (same_jobs_lookup _ _ _ _ Hjobs Hj) as (? & -> & _). eauto.
    + apply list_elem_of_fmap in Hq as ((i & q') & -> & Hq%elem_of_map_to_list). simpl.
      apply (si_index _ _ _ _ _ _ _ Is) in Hq as (_ & j & Hj & _).
      destruct (same_jobs_lookup _ _ _ _ Hjobs Hj) as (? & -> & _). eauto.
  - revert Hk sc_account0. clear. unfold account, queue_size, terminal_count. simpl.
    intros Hk Hacc. congr64.
Qed.

(** The loops after the critical section. *)
Lemma stop_queued_spec n q r d tk ps : ∀ s c,
  store_inv (heap s) n q r d (ps ++ c) tk →
  ∃ h w, stop_queued ps s = Some (s <| heap := h |> <| world := w |>) ∧
    store_inv h n q r d c tk ∧
    (∀ p, job <$> h !! p = job <$> heap s !! p).
Proof.
  induction ps as [|p ps IH]; intros s c I; cbn [stop_queued].
  { exists (heap s), (world s). split; [by destruct s|done]. }
  destruct (store_live_lookup I p) as (j & Hj & Hpr).
  { rewrite !elem_of_app, elem_of_cons. tauto. }
  destruct (stop_control_spec p s) as (w & c0 & ->); [by rewrite Hj|]. cbn [mbind option_bind].
  pose proof (update_control_same_jobs p (λ _, c0) (s <| world := w |>)) as Hjobs.
  destruct (same_jobs_promise _ _ _ _ Hjobs Hj) as (j' & Hj' & Hpr' & Hjob).
  assert (Hnone : promise j' = None) by by rewrite Hpr'.
  rewrite (SetPromiseSafely_pending p shutdown_cancelled _ j' Hj' Hnone).
  set (h1 := <[p := j' <| promise := Some shutdown_cancelled |>]>
    (heap (update_control p (λ _, c0) (s <| world := w |>)))).
  destruct (IH (s <| heap := h1 |> <| world := w |>) c) as (h & w' & E & Ih & Hsame).
  { eapply store_settle_one; [|exact Hj'|simpl; eauto].
    eapply same_jobs_store; [exact Hjobs|exact I]. }
  exists h, w'. split; [exact E|]. split; [done|]. intros x. rewrite Hsame. unfold h1.
  cbn [heap]. destruct (decide (p = x)) as [->|Hne].
  - simpl. rewrite lookup_insert_eq, Hj. simpl. by rewrite Hjob.
  - simpl. by rewrite lookup_insert_ne, lookup_alter_ne by done.
Qed.

Lemma stop_controls_spec ps : ∀ s,
  (∀ p, p ∈ ps → is_Some (heap s !! p)) →
  ∃ h w, stop_controls ps s = Some (s <| heap := h |> <| world := w |>) ∧ same_jobs (heap s) h.
Proof.
  induction ps as [|p ps IH]; intros s Hps; cbn [stop_controls].
  { exists (heap s), (world s). split; [by destruct s|done]. }
  destruct (stop_control_spec p s) as (w & c0 & ->); [apply Hps; by left|].
  cbn [mbind option_bind].
  pose proof (update_control_same_jobs p (λ _, c0) (s <| world := w |>)) as Hjobs.
  destruct (IH (update_control p (λ _, c0) (s <| world := w |>))) as (h & w' & E & Hh).
  { intros q Hq. destruct (Hps q ltac:(by right)) as [j Hj].
    destruct (same_jobs_lookup _ _ _ _ Hjobs Hj) as (j' & -> & _). eauto. }
  exists h, w'. split; [exact E|]. by transitivity (heap (update_control p (λ _, c0) (s <| world := w |>))).
Qed.

Lemma scheduler_Shutdown_cancel_inv o s :
  sched_inv o s → ∀ l l', shutdown_phase s = ShutdownCancelling l l' →
  ∃ s', Shutdown_cancel s = Some s' ∧ sched_inv o s'.
Proof.
  intros I l l' Hph. unfold Shutdown_cancel. rewrite Hph.
  pose proof (sc_store _ _ I) as Istore. unfold withdrawn in Istore. rewrite Hph in Istore.
  destruct (stop_queued_spec _ _ _ _ _ l s _ Istore) as (h & w & -> & Ih & Hsame).
  cbn [mbind option_bind].
  assert (Hsome : ∀ p, is_Some (heap s !! p) → is_Some (h !! p)).
  { intros p [j Hj]. specialize (Hsame p). rewrite Hj in Hsame. by destruct (h !! p). }
  destruct (stop_controls_spec l' (s <| heap := h |> <| world := w |>)) as (h' & w' & -> & Hjobs).
  { intros p Hp. simpl. apply Hsome, (sc_stops _ _ I). unfold to_stop. rewrite Hph.
    apply elem_of_app. by right. }
  cbn [mbind option_bind]. eexists. split; [done|].
  assert (Hseq : ∀ p, is_sequential (s <| heap := h' |>) p = is_sequential s p).
  { intros p. apply is_sequential_jobs. simpl. by rewrite (same_jobs_job _ _ p Hjobs). }
  destruct I as [<- _ ? ? ? ? ? ? ? ? ? ? Hp ? ? Istop ?]. rewrite Hph in Hp.
  split; simpl; try done.
  - by eapply same_jobs_store.
  - rewrite sc_flag0. split; intros (q & ? & Hq); exists q; (split; [done|]).
    + etransitivity; [apply Hseq|exact Hq].
    + etransitivity; [symmetry; apply Hseq|exact Hq].
  - intros q ? Hq. apply (sc_alone0 q); [done|]. etransitivity; [symmetry; apply Hseq|exact Hq].
  - intros _. rewrite Hp in sc_closed0. by destruct sc_closed0.
  - intros p Hp'. unfold to_stop in Hp'. simpl in Hp'. rewrite app_nil_r in Hp'.
    assert (is_Some (h !! p)) as [j Hj].
    { apply Hsome, Istop. unfold to_stop. apply elem_of_app. by left. }
    destruct (same_jobs_lookup _ _ _ _ Hjobs Hj) as (? & -> & _). eauto.
Qed.

Lemma scheduler_Shutdown_end_inv o s s' : sched_inv o s → Shutdown_end s = Some s' → sched_inv o s'.
Proof.
  intros I. unfold Shutdown_end. destruct (shutdown_phase s) eqn:Hph; [done..|].
  destruct (all_exited (workers s)) eqn:Hall; [|done]. intros [= <-].
  destruct I as [<- Istore ? ? ? ? ? ? ? ? ? ? Hp ? ? Istop ?]. rewrite Hph in Hp.
  unfold withdrawn in Istore. rewrite Hph in Istore.
  split; simpl; try done.
  - intros _. apply sc_closed0. by rewrite Hp.
  - intros p. unfold to_stop in *. rewrite Hph in Istop. apply Istop.
Qed.

(** *** Workers *)

Ltac pool_move Hw pc' :=
  let Hr := fresh "Hr" in let Hd := fresh "Hd" in
  pose proof (running_tasks_move _ _ _ pc' Hw) as Hr;
  pose proof (delivering_tasks_move _ _ _ pc' Hw) as Hd;
  simpl in Hr, Hd.

Lemma not_all_exited s w pc :
  workers s !! w = Some pc → pc ≠ WorkerExited → all_exited (workers s) = false.
Proof.
  intros Hw Hpc. apply not_true_iff_false. rewrite all_exited_spec. intros H. by apply Hpc, (H w).
Qed.

(** A worker moves without taking a job or giving one up. *)
Lemma worker_frame o s w pc pc' ids :
  sched_inv o s → workers s !! w = Some pc → pc ≠ WorkerExited →
  running_of pc' = running_of pc → delivering_of pc' = delivering_of pc →
  (∀ p r, pc' = WorkerFinished p r → isTerminal (result_state r) = true) →
  sched_inv o (s <| worker_ids := ids |> <| workers ::= insert w pc' |>).
Proof.
  intros I Hw Hpc Hrun Hdel Hres. pool_move Hw pc'. rewrite Hrun in Hr. rewrite Hdel in Hd.
  apply Permutation_app_inv_l in Hr, Hd.
  pose proof (not_all_exited _ _ _ Hw Hpc) as Hex.
  destruct I as [<- Istore ? ? ? ? ? ? ? ? ? ? ? Hc Hresults ? ?]. split; simpl; try done.
  - unfold withdrawn in *. simpl. by rewrite Hr, Hd.
  - by rewrite Hr.
  - by rewrite length_insert.
  - rewrite sc_flag0. by setoid_rewrite Hr.
  - intros p. rewrite Hr. apply sc_alone0.
  - intros H. destruct (Hc H). congruence.
  - intros w' p r. rewrite list_lookup_insert. case_decide; [|by apply Hresults].
    intros [= ->]. by eapply Hres.
Qed.

Lemma scheduler_Run_register_inv o w s s' : sched_inv o s → Run_register w s = Some s' → sched_inv o s'.
Proof.
  intros I. unfold Run_register. destruct (workers s !! w) as [[]|] eqn:Hw; try done.
  intros [= <-]. eapply (worker_frame o s w _ WorkerWaiting); done.
Qed.

Lemma NormalizeResult_terminal b r : isTerminal (result_state (NormalizeResult b r)) = true.
Proof.
  unfold NormalizeResult. destruct b; [done|].
  destruct (isTerminal (result_state r)) eqn:E; simpl; [|done]. by case_match.
Qed.

Lemma job_result_terminal b out : isTerminal (result_state (job_result b out)) = true.
Proof. destruct out; simpl; [apply NormalizeResult_terminal|done..]. Qed.

Lemma scheduler_Run_execute_inv o w out s s' : sched_inv o s → Run_execute w out s = Some s' → sched_inv o s'.
Proof.
  intros I. unfold Run_execute. destruct (workers s !! w) as [[]|] eqn:Hw; try done.
  destruct (heap s !! p) as [j|]; [|done]. intros [= <-].
  eapply (worker_frame o s w _ (WorkerFinished p _) (worker_ids s)); try done.
  intros ? ? [= _ <-]. apply job_result_terminal.
Qed.

(** [FindNextJobLocked] *)
Definition at_index (l : list ptr) (s : SchedulerState) (i : nat) (j : ScheduledJob) : Prop :=
  ∃ p, l !! i = Some p ∧ heap s !! p = Some j.

Definition startable (l : list ptr) (s : SchedulerState) (i : nat) (j : ScheduledJob) : Prop :=
  at_index l s i j ∧ CanStartLocked j s = true.

Lemma preferred_trans a b c :
  preferred b a = false → preferred c b = false → preferred c a = false.
Proof.
  unfold preferred. rewrite !orb_false_iff, !andb_false_iff, !Z.ltb_ge, !Z.eqb_neq. lia.
Qed.

Lemma preferred_asym a b : preferred a b = true → preferred b a = false.
Proof.
  unfold preferred. rewrite orb_true_iff, andb_true_iff, orb_false_iff, andb_false_iff,
    !Z.ltb_ge, !Z.ltb_lt, Z.eqb_eq, Z.eqb_neq. lia.
Qed.

(** What the loop knows when it stands behind [pre]. *)
Definition best_so_far (s : SchedulerState) (pre : list ptr) (best : option (nat * ScheduledJob)) :=
  match best with
  | None => ∀ i j, ¬ startable pre s i j
  | Some (i, j) => startable pre s i j ∧ ∀ i' j', startable pre s i' j' → preferred j' j = false
  end.

Lemma startable_snoc pre p s i j :
  startable (pre ++ [p]) s i j ↔
  startable pre s i j ∨ (i = length pre ∧ heap s !! p = Some j ∧ CanStartLocked j s = true).
Proof.
  unfold startable, at_index. split.
  - intros [(q & Hq & Hj) Hc]. apply lookup_app_Some in Hq as [Hq|[Hlen Hq]]; [by eauto 10|].
    apply list_lookup_singleton_Some in Hq as [Hi <-]. right. split; [lia|done].
  - intros [[(q & Hq & Hj) Hc]|(-> & Hj & Hc)]; (split; [|done]).
    + exists q. split; [|done]. by apply lookup_app_l_Some.
    + exists p. split; [|done]. by apply list_lookup_middle.
Qed.

Lemma find_next_spec s l : ∀ pre best,
  best_so_far s pre best → best_so_far s (pre ++ l) (find_next s best (length pre) l).
Proof.
  induction l as [|p l IH]; intros pre best Hbest; simpl; [by rewrite app_nil_r|].
  replace (S (length pre)) with (length (pre ++ [p])) by (rewrite length_app; simpl; lia).
  replace (pre ++ p :: l) with ((pre ++ [p]) ++ l) by (by rewrite <-app_assoc). apply IH.
  assert (Hskip : (∀ j, heap s !! p = Some j → CanStartLocked j s = false) →
    best_so_far s (pre ++ [p]) best).
  { intros Hno. assert (∀ i j, startable (pre ++ [p]) s i j ↔ startable pre s i j) as Hsame.
    { intros i j. rewrite startable_snoc. split; [|tauto].
      intros [?|(_ & Hj & Hc)]; [done|]. rewrite (Hno _ Hj) in Hc. done. }
    destruct best as [[i j]|]; simpl in *; setoid_rewrite Hsame; done. }
  destruct (heap s !! p) as [j|] eqn:Hp; [|apply Hskip; done].
  destruct (CanStartLocked j s) eqn:Hcan; simpl; [|apply Hskip; congruence].
  assert (Hself : startable (pre ++ [p]) s (length pre) j) by (apply startable_snoc; auto).
  destruct best as [[i b]|]; simpl in Hbest.
  - destruct Hbest as [Hb Hmax]. destruct (preferred j b) eqn:Hpref; simpl.
    + split; [done|]. intros i' j' [Hs|(_ & Hj' & _)]%startable_snoc.
      * apply (preferred_trans _ b); [by apply preferred_asym|by eapply Hmax].
      * assert (j' = j) as -> by congruence.
        destruct (preferred j j) eqn:E; [|done]. by rewrite (preferred_asym _ _ E) in E.
    + split; [apply startable_snoc; auto|]. intros i' j' [Hs|(_ & Hj' & _)]%startable_snoc; [by eapply Hmax|].
      assert (j' = j) as -> by congruence. done.
  - split; [done|]. intros i' j' [Hs|(_ & Hj' & _)]%startable_snoc; [by destruct (Hbest _ _ Hs)|].
    assert (j' = j) as -> by congruence.
    destruct (preferred j j) eqn:E; [|done]. by rewrite (preferred_asym _ _ E) in E.
Qed.

Lemma FindNextJobLocked_Some s i :
  FindNextJobLocked s = Some i →
  ∃ j, startable (queue s) s i j ∧ ∀ i' j', startable (queue s) s i' j' → preferred j' j = false.
Proof.
  unfold FindNextJobLocked. intros H.
  pose proof (find_next_spec s (queue s) [] None) as Hspec. simpl in Hspec.
  destruct (find_next s None 0 (queue s)) as [[i' j]|]; simplify_eq/=. exists j. apply Hspec.
  intros i' j' [(p & Hp & _) _]. by rewrite lookup_nil in Hp.
Qed.

Lemma FindNextJobLocked_None s :
  FindNextJobLocked s = None → ∀ i j, ¬ startable (queue s) s i j.
Proof.
  unfold FindNextJobLocked. intros H.
  pose proof (find_next_spec s (queue s) [] None) as Hspec. simpl in Hspec.
  destruct (find_next s None 0 (queue s)) as [[i' j]|]; [done|]. apply Hspec.
  intros i' j' [(p & Hp & _) _]. by rewrite lookup_nil in Hp.
Qed.

Lemma CanStartLocked_spec o s j :
  sched_inv o s → CanStartLocked j s = true →
  paused (control j) = false ∧ sequential_running s = false ∧
  (executionMode (job j) = Sequential → running_tasks (workers s) = []).
Proof.
  intros I. unfold CanStartLocked. destruct (paused (control j)); [done|].
  destruct (sequential_running s); [done|]. case_bool_decide as Hm; simpl.
  - rewrite (sc_running _ _ I). destruct (Z.ltb_spec 0 (Z.of_nat (length (running_tasks (workers s)))));
      [done|]. intros _. split_and!; try done. intros _. apply nil_length_inv. lia.
  - done.
Qed.

Lemma start_job_eq o s w i now p j :
  sched_inv o s → queue s !! i = Some p → heap s !! p = Some j →
  ∃ x, start_job w i now s =
    Some (s <| queue ::= delete i |>
            <| heap ::= insert p (started_job j now) |>
            <| running_count ::= u64_incr |>
            <| sequential_running := bool_decide (executionMode (job j) = Sequential) |>
            <| statistics ::= λ x, x
                 <| maximumConcurrentRunning ::= (λ m, Z.max m (u64_incr (running_count s))) |>
                 <| started ::= u64_incr |> |>
            <| records ::= insert (job_id (job j)) x |>
            <| workers ::= insert w (WorkerExecuting p) |>) ∧
    records_inv (maximumCompletedHistorySize (options s)) (outstanding s)
      (<[job_id (job j) := x]> (records s)) (completed_order s).
Proof.
  intros I Hi Hj. unfold start_job. rewrite Hi. cbn [mbind option_bind]. rewrite Hj.
  cbn [mbind option_bind].
  assert (is_Some (records s !! job_id (job j))) as [x Hx].
  { apply (live_record o); [done|]. exists p.
    apply (store_index_key (sc_store _ _ I) p j); [|done].
    apply elem_of_app. left. by eapply list_elem_of_lookup_2. }
  rewrite Hx. cbn [mbind option_bind]. eexists. split; [reflexivity|].
  exact (records_inv_set _ _ _ _ _ _ (sc_records _ _ I) (mk_is_Some _ _ Hx)).
Qed.

Lemma started_sequential s s' p j now q :
  heap s !! p = Some j → heap s' = <[p := started_job j now]> (heap s) →
  is_sequential s' q = is_sequential s q.
Proof.
  intros Hp Hh. apply is_sequential_jobs. rewrite Hh. destruct (decide (p = q)) as [->|].
  - by rewrite lookup_insert_eq, Hp.
  - by rewrite lookup_insert_ne.
Qed.

Lemma start_job_inv o s w i now p j s' :
  Z.of_nat (workerCount o) < u64_modulus →
  sched_inv o s → workers s !! w = Some WorkerWaiting →
  queue s !! i = Some p → heap s !! p = Some j → CanStartLocked j s = true →
  start_job w i now s = Some s' → sched_inv o s'.
Proof.
  intros Hcount I Hw Hi Hj Hcan Hstart.
  destruct (start_job_eq o s w i now p j I Hi Hj) as (rs & E & Irs).
  rewrite E in Hstart. injection Hstart as <-. clear E.
  destruct (CanStartLocked_spec o s j I Hcan) as (_ & Hflag & Halone).
  pool_move Hw (@WorkerExecuting RuntimeJobResult p).
  pose proof (running_tasks_bound (<[w := WorkerExecuting p]> (workers s))) as Hbound.
  rewrite Hr, length_insert in Hbound. simpl in Hbound.
  pose proof (length_delete_Some _ _ _ Hi) as Hlen.
  pose proof (not_all_exited _ _ _ Hw ltac:(done)) as Hex.
  assert (Hseq : ∀ s' q, heap s' = <[p := started_job j now]> (heap s) →
    is_sequential s' q = is_sequential s q) by (intros; by apply (started_sequential s _ p j now)).
  assert (Hnone : ∀ q, q ∈ running_tasks (workers s) → is_sequential s q = true → False).
  { intros q Hq Hs. assert (sequential_running s = true); [|congruence].
    apply (sc_flag _ _ I). eauto. }
  assert (Hp : is_sequential s p = bool_decide (executionMode (job j) = Sequential)).
  { unfold is_sequential. by rewrite Hj. }
  assert (Hincr : u64_incr (running_count s) = running_count s + 1).
  { rewrite (sc_running _ _ I), (sc_workers _ _ I) in *. apply u64_incr_small; lia. }
  destruct I as [<- Istore ? ? ? ? ? ? ? ? ? ? ? Hc Hresults Istop Hacc].
  split; simpl; rewrite ?Hincr; try done.
  - rewrite Hr, Hd. unfold withdrawn in *. simpl.
    exact (store_take _ _ _ _ _ _ _ i p j (started_job j now) Istore Hi Hj eq_refl eq_refl eq_refl).
  - rewrite Hr. simpl. lia.
  - by rewrite length_insert.
  - rewrite bool_decide_eq_true. setoid_rewrite Hr. split.
    + intros Hm. exists p. split; [by left|]. rewrite Hseq by done. rewrite Hp.
      by apply bool_decide_eq_true.
    + intros (q & [->|Hq]%elem_of_cons & Hs); rewrite Hseq in Hs by done.
      * rewrite Hp in Hs. by apply bool_decide_eq_true in Hs.
      * by destruct (Hnone q Hq).
  - intros q. rewrite Hr. intros [->|Hq]%elem_of_cons Hs; rewrite Hseq in Hs by done.
    + rewrite Hp in Hs. apply bool_decide_eq_true in Hs. by rewrite (Halone Hs).
    + by destruct (Hnone q Hq).
  - unfold queue_size in *. simpl. lia.
  - lia.
  - intros H. destruct (sc_closed0 H) as [_ E]. by rewrite E in Hi.
  - intros H. destruct (Hc H). congruence.
  - intros w' q r. rewrite list_lookup_insert. destruct (decide _); [by intros [= ?]|apply Hresults].
  - intros q Hq. destruct (decide (p = q)) as [->|]; [by rewrite lookup_insert_eq; eauto|].
    rewrite lookup_insert_ne by done. by apply Istop.
  - revert Hacc Hlen. rewrite <-Hincr. clear. unfold account, queue_size, terminal_count. simpl.
    intros. congr64.
Qed.

Lemma scheduler_Run_take_inv o w now s s' :
  Z.of_nat (workerCount o) < u64_modulus →
  sched_inv o s → Run_take w now s = Some s' → sched_inv o s'.
Proof.
  intros Hcount I. unfold Run_take. destruct (workers s !! w) as [[]|] eqn:Hw; try done.
  case_match; [|done]. destruct (FindNextJobLocked s) as [i|] eqn:Hnext.
  - destruct (FindNextJobLocked_Some _ _ Hnext) as (j & [(p & Hi & Hj) Hcan] & _).
    by apply (start_job_inv o s w i now p j).
  - case_match; intros [= <-]; [|done]. by eapply (worker_frame o s w _ WorkerExited).
Qed.

Lemma Run_record_eq o w now p r j s :
  Z.of_nat (workerCount o) < u64_modulus →
  sched_inv o s → workers s !! w = Some (WorkerFinished p r) → heap s !! p = Some j →
  ∃ rs order, Run_record w now s =
    Some (s <| running_count ::= u64_decr |>
            <| sequential_running ::=
                 (λ b, if bool_decide (executionMode (job j) = Sequential) then false else b) |>
            <| outstanding ::= delete (job_id (job j)) |>
            <| heap ::= insert p (finished_job j r) |>
            <| records := rs |> <| completed_order := order |>
            <| statistics ::= RecordTerminalStatisticsLocked (result_state r) |>
            <| workers ::= insert w (WorkerDelivering p r) |>) ∧
    records_inv (maximumCompletedHistorySize (options s)) (delete (job_id (job j)) (outstanding s))
      rs order.
Proof.
  intros Hcount I Hw Hj. unfold Run_record. rewrite Hw, Hj. cbn [mbind option_bind].
  pose proof (running_tasks_in _ _ _ p Hw eq_refl) as Hin.
  assert (Hpos : 0 <? running_count s = true).
  { rewrite (sc_running _ _ I). apply Z.ltb_lt. destruct (running_tasks (workers s)); [|simpl; lia].
    by apply elem_of_nil in Hin. }
  assert (Hout : outstanding s !! job_id (job j) = Some p).
  { apply (store_index_key (sc_store _ _ I) p j); [|done]. apply elem_of_app. by right. }
  match goal with |- context [CompleteRecordLocked _ _ _ ?s0] =>
    destruct (CompleteRecordLocked_spec (job_id (job j)) r now s0 (outstanding s) p)
      as (rs & order & -> & Irs); [exact (sc_records _ _ I)|done|done|] end.
  cbn [mbind option_bind]. exists rs, order. split; [|exact Irs].
  f_equal. simpl. by rewrite Hpos.
Qed.

Lemma RecordTerminalStatisticsLocked_count st x :
  isTerminal st = true →
  terminal_count (RecordTerminalStatisticsLocked st x) ≡₆₄ terminal_count x + 1.
Proof. unfold terminal_count. destruct st; simpl; try done; intros _; congr64. Qed.

Lemma RecordTerminalStatisticsLocked_same st x :
  highWatermark (RecordTerminalStatisticsLocked st x) = highWatermark x ∧
  maximumConcurrentRunning (RecordTerminalStatisticsLocked st x) = maximumConcurrentRunning x ∧
  accepted (RecordTerminalStatisticsLocked st x) = accepted x.
Proof. by destruct st. Qed.

Lemma scheduler_Run_record_inv o w now s s' :
  Z.of_nat (workerCount o) < u64_modulus →
  sched_inv o s → Run_record w now s = Some s' → sched_inv o s'.
Proof.
  intros Hcount I H. destruct (workers s !! w) as [[| | |p r| |]|] eqn:Hw;
    try (unfold Run_record in H; by rewrite Hw in H).
  destruct (heap s !! p) as [j|] eqn:Hj; [|unfold Run_record in H; by rewrite Hw, Hj in H].
  destruct (Run_record_eq o w now p r j s Hcount I Hw Hj) as (rs & order & E & Irs).
  rewrite E in H. injection H as <-. clear E.
  pool_move Hw (WorkerDelivering p r). pose proof (running_tasks_bound (workers s)) as Hbound.
  pose proof (not_all_exited _ _ _ Hw ltac:(done)) as Hex.
  destruct (RecordTerminalStatisticsLocked_same (result_state r) (statistics s)) as (W1 & W2 & W3).
  assert (Hjobs : same_jobs (heap s) (<[p := finished_job j r]> (heap s)))
    by by apply (same_jobs_insert _ _ j).
  assert (Hseq : ∀ q, is_sequential (s <| heap ::= insert p (finished_job j r) |>) q = is_sequential s q).
  { intros q. apply is_sequential_jobs, same_jobs_job, Hjobs. }
  assert (Hp : is_sequential s p = bool_decide (executionMode (job j) = Sequential)).
  { unfold is_sequential. by rewrite Hj. }
  destruct I as [<- Istore ? Hrun ? ? Hflag Halone ? ? ? ? ? Hc Hresults Istop Hacc].
  pose proof (RecordTerminalStatisticsLocked_count _ (statistics s) (Hresults _ _ _ Hw)) as Hstat.
  rewrite <-Hr in Istore, Hrun, Hbound. simpl in Hrun, Hbound.
  assert (Hdecr : u64_decr (running_count s) = running_count s - 1).
  { apply u64_decr_small. lia. }
  split; simpl; rewrite ?Hdecr, ?W1, ?W2, ?W3; try done.
  - rewrite Hd. unfold withdrawn in *. simpl.
    exact (same_jobs_store _ _ _ _ _ _ _ _ Hjobs (store_record _ _ _ _ _ _ _ p j Istore Hj)).
  - lia.
  - by rewrite length_insert.
  - case_bool_decide as Hm.
    + assert (Hone : length (running_tasks (workers s)) = 1%nat).
      { apply (Halone p); [by rewrite <-Hr; left|]. done. }
      rewrite <-Hr in Hone. simpl in Hone. split; [done|]. intros (q & Hq & _).
      destruct (running_tasks _); [by apply elem_of_nil in Hq|simpl in Hone; lia].
    + rewrite Hflag. setoid_rewrite <-Hr. split.
      * intros (q & [->|Hq]%elem_of_cons & Hs).
        { congruence. }
        exists q. split; [done|]. etransitivity; [apply Hseq|exact Hs].
      * intros (q & Hq & Hs). exists q. split; [by right|].
        etransitivity; [symmetry; apply Hseq|exact Hs].
  - intros q Hq Hs. exfalso.
    assert (Hone : length (running_tasks (workers s)) = 1%nat).
    { apply (Halone q); [by rewrite <-Hr; right|]. etransitivity; [symmetry; apply Hseq|exact Hs]. }
    rewrite <-Hr in Hone. simpl in Hone.
    destruct (running_tasks _); [by apply elem_of_nil in Hq|simpl in Hone; lia].
  - lia.
  - intros H. destruct (Hc H). congruence.
  - intros w' q r'. rewrite list_lookup_insert. destruct (decide _); [by intros [= ?]|apply Hresults].
  - intros q Hq. destruct (Istop q Hq) as [jq Hjq].
    destruct (same_jobs_lookup _ _ _ _ Hjobs Hjq) as (? & -> & _). eauto.
  - revert Hacc Hstat. rewrite <-Hdecr. unfold account, queue_size. simpl. clear. intros.
    pose proof (u64_decr_eq64 (running_count s)). congr64.
Qed.

Lemma scheduler_Run_deliver_inv o w s s' : sched_inv o s → Run_deliver w s = Some s' → sched_inv o s'.
Proof.
  intros I. unfold Run_deliver. destruct (workers s !! w) as [[]|] eqn:Hw; try done.
  intros [= <-]. pool_move Hw (@WorkerWaiting RuntimeJobResult).
  pose proof (not_all_exited _ _ _ Hw ltac:(done)) as Hex.
  destruct (store_live_lookup (sc_store _ _ I) p) as (j & Hj & Hpr).
  { rewrite <-Hd, !elem_of_app, elem_of_cons. tauto. }
  rewrite (SetPromiseSafely_pending p r s j Hj Hpr).
  assert (Hseq : ∀ q, is_sequential (s <| heap ::= insert p (j <| promise := Some r |>) |>) q =
    is_sequential s q) by (intros; by apply settle_jobs_sequential).
  destruct I as [<- Istore ? Hrun ? ? Hflag Halone ? ? ? ? ? Hc Hresults Istop Hacc].
  split; simpl; rewrite ?Hr; try done.
  - rewrite <-Hd in Istore. unfold withdrawn in *. simpl.
    eapply (store_deliver _ _ _ _ _ _ _ p j); [exact Istore|done|simpl; eauto].
  - by rewrite length_insert.
  - rewrite Hflag. setoid_rewrite Hr. split; intros (q & ? & Hs); exists q; (split; [done|]).
    + etransitivity; [apply Hseq|exact Hs].
    + etransitivity; [symmetry; apply Hseq|exact Hs].
  - intros q. rewrite Hr. intros Hq Hs. apply (Halone q); [done|].
    etransitivity; [symmetry; apply Hseq|exact Hs].
  - intros H. destruct (Hc H). congruence.
  - intros w' q r'. rewrite list_lookup_insert. destruct (decide _); [by intros [= ?]|apply Hresults].
  - intros q Hq. destruct (decide (p = q)) as [->|]; [by rewrite lookup_insert_eq; eauto|].
    rewrite lookup_insert_ne by done. by apply Istop.
Qed.

(** *** Callbacks acting on their own job *)

Lemma Job_register_inv o p tag s s' : sched_inv o s → Job_register p tag s = Some s' → sched_inv o s'.
Proof.
  intros I. unfold Job_register. destruct (heap s !! p) as [j|]; [|done]. cbn [mbind option_bind].
  destruct (source_Register _ _ _) as [[w r]|]; [|done]. intros [= <-].
  apply (sched_inv_frame o s); try done.
  - repeat split. exists (stopped (statistics s)). simpl. by destruct (statistics s).
  - auto.
  - pose proof (sc_records _ _ I) as Irec. by rewrite (sc_options _ _ I) in Irec.
Qed.

Lemma Job_request_cancellation_inv o p s s' :
  sched_inv o s → Job_request_cancellation p s = Some s' → sched_inv o s'.
Proof.
  intros I. unfold Job_request_cancellation. destruct (heap s !! p) as [j|]; [|done].
  cbn [mbind option_bind]. destruct (RequestCancellation _ _) as [[[w e] b]|]; [|done]. intros [= <-].
  apply (sched_inv_frame o s); try done.
  - repeat split. exists (stopped (statistics s)). simpl. by destruct (statistics s).
  - simpl. by apply same_jobs_alter.
  - auto.
  - pose proof (sc_records _ _ I) as Irec. by rewrite (sc_options _ _ I) in Irec.
Qed.

Lemma Shutdown_cancel_Some o s s' : sched_inv o s → Shutdown_cancel s = Some s' → sched_inv o s'.
Proof.
  intros I H. destruct (shutdown_phase s) as [|l l'|] eqn:Hph;
    [by unfold Shutdown_cancel in H; rewrite Hph in H| |by unfold Shutdown_cancel in H; rewrite Hph in H].
  destruct (scheduler_Shutdown_cancel_inv o s I l l' Hph) as (s1 & E & I'). congruence.
Qed.

Lemma scheduler_exec_inv o s l s' :
  Z.of_nat (workerCount o) < u64_modulus → sched_inv o s → exec s l = Some s' → sched_inv o s'.
Proof.
  intros Hcount I H. destruct l; simpl in H.
  - injection H as <-. by apply Submit_inv.
  - destruct (Pause_inv o i s I) as (s1 & b & E & ?). by rewrite E in H; simplify_eq/=.
  - destruct (Resume_inv o i s I) as (s1 & b & E & ?). by rewrite E in H; simplify_eq/=.
  - destruct (Stop_inv o i now s I) as (s1 & b & E & ?). by rewrite E in H; simplify_eq/=.
  - destruct (stopping s !! k) as [x|] eqn:Hk; [|by unfold Stop_finish in H; rewrite Hk in H].
    destruct (Stop_finish_inv o k s I) as (s1 & E & ?); [by rewrite Hk|]. congruence.
  - destruct (scheduler_Shutdown_begin_inv o caller now s I) as (s1 & b & E & ?). by rewrite E in H; simplify_eq/=.
  - by eapply Shutdown_cancel_Some.
  - by eapply scheduler_Shutdown_end_inv.
  - by eapply scheduler_Run_register_inv.
  - by eapply scheduler_Run_take_inv.
  - by eapply scheduler_Run_execute_inv.
  - by eapply scheduler_Run_record_inv.
  - by eapply scheduler_Run_deliver_inv.
  - by eapply Job_register_inv.
  - by eapply Job_request_cancellation_inv.
Qed.

Definition options_ok (o : RuntimeSchedulerOptions) : Prop :=
  is_u64 (maximumQueueSize o) ∧ is_u64 (Z.of_nat (workerCount o)).

Lemma scheduler_reachable_inv o s : options_ok o → reachable o s → sched_inv o s.
Proof.
  intros [[Hmax _] [_ Hcount]] (w & s0 & ls & Hinit & Hrun).
  eapply (run_invariant exec (sched_inv o)); [|by eapply scheduler_initial_inv|done].
  intros ? ? ? ? ?. by eapply scheduler_exec_inv.
Qed.

(* ------------------------------------------------------------------ *)
(** ** Termination of shutdown *)

(** The transitions of workers and of the thread that shuts down. *)
Definition internal (l : Label) : bool :=
  match l with
  | LShutdownCancel | LShutdownEnd | LRegister _ | LTake _ _ | LExecute _ _ | LRecord _ _
  | LDeliver _ => true
  | _ => false
  end.

Definition worker_weight (pc : WorkerPc RuntimeJobResult) : nat :=
  match pc with
  | WorkerExited => 0
  | WorkerWaiting => 1
  | WorkerStarting | WorkerDelivering _ _ => 2
  | WorkerFinished _ _ => 3
  | WorkerExecuting _ => 4
  end.

Definition phase_weight (ph : ShutdownPhase) : nat :=
  match ph with NoShutdown => 0 | ShutdownJoining => 1 | ShutdownCancelling _ _ => 2 end.

Definition shutdown_measure (s : SchedulerState) : nat :=
  sum_list (worker_weight <$> workers s) + phase_weight (shutdown_phase s).

Lemma scheduler_measure_move s w pc pc' s' :
  workers s !! w = Some pc → workers s' = <[w := pc']> (workers s) →
  shutdown_phase s' = shutdown_phase s → (worker_weight pc' < worker_weight pc)%nat →
  (shutdown_measure s' < shutdown_measure s)%nat.
Proof.
  unfold shutdown_measure. intros Hw -> -> Hlt.
  rewrite list_fmap_insert. pose proof (sum_list_insert (worker_weight <$> workers s) w
    (worker_weight pc) (worker_weight pc')) as Hsum.
  rewrite list_lookup_fmap, Hw in Hsum. specialize (Hsum eq_refl). lia.
Qed.

Lemma SetPromiseSafely_same p r s :
  workers (SetPromiseSafely p r s) = workers s ∧
  shutdown_phase (SetPromiseSafely p r s) = shutdown_phase s ∧
  shutdown_in_progress (SetPromiseSafely p r s) = shutdown_in_progress s ∧
  shutdown_complete (SetPromiseSafely p r s) = shutdown_complete s.
Proof. unfold SetPromiseSafely. by repeat case_match. Qed.

Definition shutting_down (s : SchedulerState) : bool := shutdown_in_progress s || shutdown_complete s.

Lemma FindNextJobLocked_empty s : queue s = [] → FindNextJobLocked s = None.
Proof. intros H. unfold FindNextJobLocked. by rewrite H. Qed.

Lemma scheduler_internal_decreases o s l s' :
  Z.of_nat (workerCount o) < u64_modulus →
  sched_inv o s → shutting_down s = true → internal l = true → exec s l = Some s' →
  (shutdown_measure s' < shutdown_measure s)%nat ∧ shutting_down s' = true.
Proof.
  intros Hcount I Hdown Hl H. destruct (sc_closed _ _ I Hdown) as [Hacc Hqueue].
  destruct l; try done; simpl in H.
  - unfold Shutdown_cancel in H. destruct (shutdown_phase s) as [|l l'|] eqn:Hph; try done.
    pose proof (sc_store _ _ I) as Istore. unfold withdrawn in Istore. rewrite Hph in Istore.
    destruct (stop_queued_spec _ _ _ _ _ l s _ Istore) as (h & w & E & _ & Hsame).
    rewrite E in H. cbn [mbind option_bind] in H.
    destruct (stop_controls_spec l' (s <| heap := h |> <| world := w |>)) as (h' & w' & E' & _).
    { intros p Hp. assert (is_Some (heap s !! p)) as [j Hj].
      { apply (sc_stops _ _ I). unfold to_stop. rewrite Hph. apply elem_of_app. by right. }
      simpl. specialize (Hsame p). rewrite Hj in Hsame. by destruct (h !! p). }
    rewrite E' in H. cbn [mbind option_bind] in H. injection H as <-.
    unfold shutdown_measure. simpl. rewrite Hph. simpl. split; [lia|exact Hdown].
  - unfold Shutdown_end in H. destruct (shutdown_phase s) eqn:Hph; try done.
    destruct (all_exited (workers s)); [|done]. injection H as <-.
    unfold shutdown_measure, shutting_down. simpl. rewrite Hph. simpl. split; [lia|done].
  - unfold Run_register in H. destruct (workers s !! w) as [[]|] eqn:Hw; try done. injection H as <-.
    split; [|done]. eapply scheduler_measure_move; done || simpl; lia.
  - unfold Run_take in H. destruct (workers s !! w) as [[]|] eqn:Hw; try done.
    rewrite (FindNextJobLocked_empty _ Hqueue), Hacc in H. rewrite !orb_true_r in H.
    simpl in H. injection H as <-. split; [|done]. eapply scheduler_measure_move; done || simpl; lia.
  - unfold Run_execute in H. destruct (workers s !! w) as [[]|] eqn:Hw; try done.
    destruct (heap s !! p) as [j|]; [|done]. injection H as <-.
    split; [|done]. eapply scheduler_measure_move; done || simpl; lia.
  - destruct (workers s !! w) as [[| | |p r| |]|] eqn:Hw; try (unfold Run_record in H; by rewrite Hw in H).
    destruct (heap s !! p) as [j|] eqn:Hj; [|unfold Run_record in H; by rewrite Hw, Hj in H].
    destruct (Run_record_eq o w now p r j s Hcount I Hw Hj) as (rs & order & E & _).
    rewrite E in H. injection H as <-.
    split; [|exact Hdown]. eapply scheduler_measure_move; done || simpl; lia.
  - unfold Run_deliver in H. destruct (workers s !! w) as [[]|] eqn:Hw; try done.
    injection H as <-. destruct (SetPromiseSafely_same p r s) as (E1 & E2 & E3 & E4). split.
    + eapply (scheduler_measure_move _ w _ WorkerWaiting); [done| | |simpl; lia]; simpl; congruence.
    + unfold shutting_down in *. simpl. by rewrite E3, E4.
Qed.

(** What a worker can do next, wherever it stands. *)
Definition worker_enabled (s : SchedulerState) (w : nat) (pc : WorkerPc RuntimeJobResult) : Prop :=
  match pc with
  | WorkerStarting => is_Some (Run_register w s)
  | WorkerWaiting => ∀ now,
      stop_requested s || negb (accepting s) || HasSchedulableJobLocked s = true →
      is_Some (Run_take w now s)
  | WorkerExecuting _ => ∀ out, is_Some (Run_execute w out s)
  | WorkerFinished _ _ => ∀ now, is_Some (Run_record w now s)
  | WorkerDelivering _ _ => is_Some (Run_deliver w s)
  | WorkerExited => True
  end.

Lemma workers_enabled o s w pc :
  Z.of_nat (workerCount o) < u64_modulus →
  sched_inv o s → workers s !! w = Some pc → worker_enabled s w pc.
Proof.
  intros Hcount I Hw. destruct pc as [| |p|p r|p r|]; simpl; [| | | | |done].
  - unfold Run_register. rewrite Hw. eauto.
  - intros now Hwake. unfold Run_take. rewrite Hw, Hwake.
    destruct (FindNextJobLocked s) as [i|] eqn:Hnext.
    + destruct (FindNextJobLocked_Some _ _ Hnext) as (j & [(p & Hi & Hj) _] & _).
      destruct (start_job_eq o s w i now p j I Hi Hj) as (x & -> & _). eauto.
    + case_match; eauto.
  - intros out. unfold Run_execute. rewrite Hw.
    destruct (store_live_lookup (sc_store _ _ I) p) as (j & -> & _); [|simpl; eauto].
    rewrite !elem_of_app. pose proof (running_tasks_in _ _ _ p Hw eq_refl). tauto.
  - intros now. destruct (store_live_lookup (sc_store _ _ I) p) as (j & Hj & _).
    { rewrite !elem_of_app. pose proof (running_tasks_in _ _ _ p Hw eq_refl). tauto. }
    destruct (Run_record_eq o w now p r j s Hcount I Hw Hj) as (rs & order & -> & _). eauto.
  - unfold Run_deliver. rewrite Hw. eauto.
Qed.

Lemma not_all_exited_worker ws :
  all_exited (R := RuntimeJobResult) ws = false → ∃ w pc, ws !! w = Some pc ∧ pc ≠ WorkerExited.
Proof.
  induction ws as [|pc ws IH]; simpl; [done|]. intros H.
  destruct (decide (has_exited pc = true)) as [E|E].
  - rewrite E in H. destruct (IH H) as (w & pc' & ? & ?). exists (S w), pc'. done.
  - exists 0%nat, pc. split; [done|]. by intros ->.
Qed.

Lemma scheduler_internal_progress o s :
  Z.of_nat (workerCount o) < u64_modulus →
  sched_inv o s → shutdown_in_progress s = true → ∃ l, internal l = true ∧ is_Some (exec s l).
Proof.
  intros Hcount I Hin. pose proof (sc_phase _ _ I) as Hph. rewrite Hin in Hph.
  destruct (sc_closed _ _ I) as [Hacc _]; [by rewrite Hin|].
  destruct (shutdown_phase s) as [|l l'|] eqn:Hp; [done| |].
  { destruct (scheduler_Shutdown_cancel_inv o s I l l' Hp) as (s' & E & _).
    exists LShutdownCancel. split; [done|]. simpl. eauto. }
  destruct (all_exited (workers s)) eqn:Hall.
  { exists LShutdownEnd. split; [done|]. simpl. unfold Shutdown_end. rewrite Hp, Hall. eauto. }
  destruct (not_all_exited_worker _ Hall) as (w & pc & Hw & Hpc).
  pose proof (workers_enabled o s w pc Hcount I Hw) as He.
  destruct pc as [| |p|p r|p r|]; simpl in He; [| | | | |done].
  - exists (LRegister w). done.
  - exists (LTake w 0). split; [done|]. apply He. by rewrite Hacc, orb_true_r.
  - exists (LExecute w ThrewUnknown). split; [done|]. apply He.
  - exists (LRecord w 0). split; [done|]. apply He.
  - exists (LDeliver w). done.
Qed.

(* ------------------------------------------------------------------ *)
(** ** A scenario

    Two workers and a history of one job.  A parallel job of low priority
    runs; a sequential critical one has to wait for it and a parallel one of
    normal priority passes it; that one is paused and resumed, the sequential
    job is stopped while it waits, and the scheduler is shut down. *)

Definition scenario_options : RuntimeSchedulerOptions := mkSchedulerOptions 4 2 1.

Definition scenario_job (i : Z) (p : RuntimeJobPriority) (m : RuntimeExecutionMode) : RuntimeJob :=
  mkJob i p m ScopeUnknown ∅ true.

Definition scenario_start : list Label :=
  [LRegister 0; LRegister 1; LSubmit (scenario_job 1 JobLow Parallel) 10; LTake 0 11;
   LSubmit (scenario_job 2 JobCritical Sequential) 12; LSubmit (scenario_job 3 JobNormal Parallel) 13].

Definition scenario_pass : list Label := [LTake 1 14].

Definition scenario_stop : list Label :=
  [LPause 3; LResume 3; LStop 2 15; LStop 3 16; LStopFinish 1; LStopFinish 0;
   LExecute 1 (Returned (Result StateCompleted "")); LRecord 1 17; LDeliver 1].

Definition scenario_shutdown : list Label := [LShutdownBegin (ClientThread 0) 18; LShutdownCancel].

Definition scenario_finish : list Label :=
  [LExecute 0 ThrewUnknown; LRecord 0 19; LDeliver 0; LTake 0 20; LTake 1 20].

Definition empty_state : SchedulerState :=
  match initial scenario_options (mkWorld [] []) with
  | inr s => s
  | inl _ => mkSchedulerState scenario_options (mkWorld [] []) ∅ 0 [] ∅ ∅ [] zero_statistics 1 0
               false true false false NoShutdown false [] [] [] 0
  end.

Definition after (ls : list Label) : SchedulerState := default empty_state (run exec empty_state ls).

Lemma scheduler_after_reachable ls :
  is_Some (run exec empty_state ls) → reachable scenario_options (after ls).
Proof.
  intros [s Hs]. exists (mkWorld [] []), empty_state, ls. split; [done|].
  unfold after. by rewrite Hs.
Qed.

Lemma scheduler_scenario_ok : options_ok scenario_options.
Proof. by vm_compute. Qed.

(** A critical job that needs the scheduler for itself is passed by a job of
    normal priority as long as another job runs. *)
Lemma sequential_job_passed :
  reachable scenario_options (after (scenario_start ++ scenario_pass)) ∧
  (∃ p j, p ∈ queue (after (scenario_start ++ scenario_pass)) ∧
     heap (after (scenario_start ++ scenario_pass)) !! p = Some j ∧
     job_priority (job j) = JobCritical) ∧
  (∃ p j, workers (after (scenario_start ++ scenario_pass)) !! 1%nat = Some (WorkerExecuting p) ∧
     heap (after (scenario_start ++ scenario_pass)) !! p = Some j ∧
     job_priority (job j) = JobNormal ∧ 2 < sequence j).
Proof.
  split; [apply scheduler_after_reachable; vm_compute; eauto|]. split.
  - exists 1%nat. eexists. split_and!; [vm_compute; left|by vm_compute|done].
  - exists 2%nat. eexists. split_and!; [by vm_compute..|done|done].
Qed.

(* ------------------------------------------------------------------ *)
(** ** Properties *)

(** C13: sequential jobs run alone.  In every reachable state, under every
    interleaving of clients, callbacks and workers, a sequential job that is
    running is the only running job; and the job a worker starts is not
    paused, and when it is sequential nothing else runs. *)
Theorem Scheduler_sequential_alone o s p j :
  options_ok o → reachable o s →
  p ∈ running_tasks (workers s) → heap s !! p = Some j → executionMode (job j) = Sequential →
  running_tasks (workers s) = [p] ∧ running_count s = 1 ∧ sequential_running s = true ∧
  ∀ i j', startable (queue s) s i j' → False.
Proof.
  intros Ho Hs Hp Hj Hm. pose proof (scheduler_reachable_inv _ _ Ho Hs) as I.
  assert (Hseq : is_sequential s p = true).
  { unfold is_sequential. rewrite Hj. by apply bool_decide_eq_true. }
  pose proof (sc_alone _ _ I p Hp Hseq) as Hone.
  assert (Hflag : sequential_running s = true) by (apply (sc_flag _ _ I); eauto).
  split_and!; [|by rewrite (sc_running _ _ I), Hone|done|].
  - destruct (running_tasks (workers s)) as [|q [|]]; try done.
    by apply list_elem_of_singleton in Hp as ->.
  - intros i j' [_ Hcan]. destruct (CanStartLocked_spec o s j' I Hcan) as (_ & ? & _). congruence.
Qed.

Lemma Scheduler_sequential_alone_witness :
  let s := after [LRegister 0; LRegister 1; LSubmit (scenario_job 7 JobHigh Sequential) 1; LTake 1 2] in
  running_tasks (workers s) = [0%nat] ∧ running_count s = 1.
Proof.
  intros s. destruct (heap s !! 0%nat) as [j|] eqn:Hj; [|by vm_compute in Hj].
  destruct (Scheduler_sequential_alone scenario_options s 0 j) as (H1 & H2 & _); [| | | | |done].
  - apply scheduler_scenario_ok.
  - apply scheduler_after_reachable. vm_compute. eauto.
  - vm_compute. left.
  - done.
  - vm_compute in Hj. by simplify_eq.
Defined.

(** selection.  A worker that starts a job starts one that may start (it is
    not paused, and the scheduler is free for it), of the highest priority
    among those, and of these the one submitted first; the job leaves the
    queue, the others keep their order, and it is marked running.  A worker
    that is awake and starts nothing leaves only when it was asked to stop or
    no more jobs are accepted, and then no job of the queue may start. *)
Theorem Run_take_chooses o w now s s' :
  options_ok o → reachable o s → Run_take w now s = Some s' →
  (∃ i p j, queue s !! i = Some p ∧ heap s !! p = Some j ∧
     CanStartLocked j s = true ∧ paused (control j) = false ∧
     (∀ i' j', startable (queue s) s i' j' →
        PriorityRank (job_priority (job j')) < PriorityRank (job_priority (job j)) ∨
        (PriorityRank (job_priority (job j')) = PriorityRank (job_priority (job j)) ∧
         sequence j <= sequence j')) ∧
     workers s' = <[w := WorkerExecuting p]> (workers s) ∧ queue s' = delete i (queue s) ∧
     sj_state <$> heap s' !! p = Some JobRunning ∧
     snap_jobState <$> records s' !! job_id (job j) = Some StateRunning) ∨
  ((∀ i' j', ¬ startable (queue s) s i' j') ∧ queue s' = queue s ∧ heap s' = heap s ∧
   (stop_requested s = true ∨ accepting s = false)).
Proof.
  intros Ho Hs H. pose proof (scheduler_reachable_inv _ _ Ho Hs) as I.
  unfold Run_take in H. destruct (workers s !! w) as [[]|] eqn:Hw; try done.
  destruct (stop_requested s || negb (accepting s) || HasSchedulableJobLocked s) eqn:Hwake; [|done].
  destruct (FindNextJobLocked s) as [i|] eqn:Hnext.
  - left. destruct (FindNextJobLocked_Some _ _ Hnext) as (j & [(p & Hi & Hj) Hcan] & Hbest).
    destruct (start_job_eq o s w i now p j I Hi Hj) as (x & E & _).
    destruct (CanStartLocked_spec o s j I Hcan) as (Hpaused & _).
    exists i, p, j. split_and!; try done.
    + intros i' j' Hj'. specialize (Hbest _ _ Hj'). unfold preferred in Hbest.
      apply orb_false_iff in Hbest as [H1 H2]. apply Z.ltb_ge in H1.
      apply andb_false_iff in H2 as [H2|H2]; [apply Z.eqb_neq in H2|apply Z.ltb_ge in H2]; lia.
    + rewrite E in H. by injection H as <-.
    + rewrite E in H. by injection H as <-.
    + rewrite E in H. injection H as <-. simpl. by rewrite lookup_insert_eq.
    + unfold start_job in H. rewrite Hi in H. cbn [mbind option_bind] in H. rewrite Hj in H.
      cbn [mbind option_bind] in H. destruct (records s !! job_id (job j)); [|done].
      cbn [mbind option_bind] in H. injection H as <-. simpl. by rewrite lookup_insert_eq.
  - right. split; [by apply FindNextJobLocked_None|].
    unfold HasSchedulableJobLocked in Hwake. rewrite Hnext in Hwake. simpl in Hwake.
    rewrite orb_false_r in Hwake. rewrite Hwake in H. injection H as <-.
    split_and!; try done. apply orb_true_iff in Hwake as [?|?%negb_true_iff]; auto.
Qed.

Lemma Run_take_chooses_witness :
  ∃ i p j, queue (after scenario_start) !! i = Some p ∧ heap (after scenario_start) !! p = Some j ∧
    paused (control j) = false ∧
    workers (after (scenario_start ++ scenario_pass)) =
      <[1%nat := WorkerExecuting p]> (workers (after scenario_start)).
Proof.
  destruct (Run_take_chooses scenario_options 1 14 (after scenario_start)
    (after (scenario_start ++ scenario_pass))) as [(i & p & j & H)|(_ & _ & _ & H)].
  - apply scheduler_scenario_ok.
  - apply scheduler_after_reachable. vm_compute. eauto.
  - vm_compute. reflexivity.
  - exists i, p, j. tauto.
  - exfalso. vm_compute in H. by destruct H.
Defined.

(** The scheduler never looks up a record that is gone.  In every reachable
    state every operation of a client is defined for every argument, what a
    call of [Stop] or [Shutdown] has left to do is defined, and so is the
    next step of every worker: no [std::map::at] throws, no reference
    dangles. *)
Theorem Scheduler_defined o s :
  options_ok o → reachable o s →
  (∀ i now caller, is_Some (Pause i s) ∧ is_Some (Resume i s) ∧ is_Some (Stop i now s) ∧
     is_Some (Shutdown_begin caller now s)) ∧
  (∀ k, is_Some (stopping s !! k) → is_Some (Stop_finish k s)) ∧
  (∀ l l', shutdown_phase s = ShutdownCancelling l l' → is_Some (Shutdown_cancel s)) ∧
  (∀ w pc, workers s !! w = Some pc → worker_enabled s w pc).
Proof.
  intros Ho Hs. pose proof (scheduler_reachable_inv _ _ Ho Hs) as I. split_and!.
  - intros i now caller.
    destruct (Pause_inv o i s I) as (? & ? & -> & _), (Resume_inv o i s I) as (? & ? & -> & _),
      (Stop_inv o i now s I) as (? & ? & -> & _),
      (scheduler_Shutdown_begin_inv o caller now s I) as (? & ? & -> & _). eauto.
  - intros k Hk. destruct (Stop_finish_inv o k s I Hk) as (? & -> & _). eauto.
  - intros l l' Hp. destruct (scheduler_Shutdown_cancel_inv o s I l l' Hp) as (? & -> & _). eauto.
  - intros w pc. apply (workers_enabled o); [apply Ho|done].
Qed.

Lemma Scheduler_defined_witness :
  let s := after (scenario_start ++ scenario_pass) in
  is_Some (Stop 2 15 s) ∧ is_Some (Shutdown_begin (ClientThread 0) 15 s).
Proof.
  destruct (Scheduler_defined scenario_options (after (scenario_start ++ scenario_pass)))
    as (H & _).
  - apply scheduler_scenario_ok.
  - apply scheduler_after_reachable. vm_compute. eauto.
  - destruct (H 2 15 (ClientThread 0)) as (_ & _ & ? & ?). done.
Defined.

(** Every future gets exactly one value.  No promise is set twice, and the
    futures without a value are those of the jobs that wait, run, are being
    delivered, or are being withdrawn by [Stop] or [Shutdown]; the jobs that
    wait or run are exactly the outstanding ones. *)
Theorem Scheduler_promise_once o s :
  options_ok o → reachable o s →
  future_errors s = 0%nat ∧
  (∀ p, (∃ j, heap s !! p = Some j ∧ promise j = None) ↔
        p ∈ queue s ++ running_tasks (workers s) ++ delivering_tasks (workers s) ++ withdrawn s) ∧
  (∀ i p, outstanding s !! i = Some p ↔
          p ∈ queue s ++ running_tasks (workers s) ∧ ∃ j, heap s !! p = Some j ∧ job_id (job j) = i).
Proof.
  intros Ho Hs. destruct (scheduler_reachable_inv _ _ Ho Hs) as [_ [_ Hlive _ Hidx _]].
  split; [done|]. split; [intros p; by rewrite Hlive|done].
Qed.

Lemma Scheduler_promise_once_witness :
  let s := after (scenario_start ++ scenario_pass ++ scenario_stop ++ scenario_shutdown) in
  future_errors s = 0%nat.
Proof.
  apply (Scheduler_promise_once scenario_options); [apply scheduler_scenario_ok|].
  apply scheduler_after_reachable. vm_compute. eauto.
Defined.

(** Every accepted job is accounted for.  The number of accepted jobs is,
    as a 64-bit word, the number of waiting, running, completed, cancelled and
    failed ones that [GetStatistics] reports. *)
Theorem Scheduler_statistics_account o s :
  options_ok o → reachable o s →
  let x := GetStatistics s in
  accepted x ≡₆₄ stat_queued x + stat_running x + (completed x + stat_cancelled x + failed x).
Proof.
  intros Ho Hs x. pose proof (sc_account _ _ (scheduler_reachable_inv _ _ Ho Hs)) as H. exact H.
Qed.

Lemma Scheduler_statistics_account_witness :
  let x := GetStatistics (after (scenario_start ++ scenario_pass ++ scenario_stop)) in
  accepted x ≡₆₄ stat_queued x + stat_running x + (completed x + stat_cancelled x + failed x).
Proof.
  apply (Scheduler_statistics_account scenario_options); [apply scheduler_scenario_ok|].
  apply scheduler_after_reachable. vm_compute. eauto.
Defined.

(** The scheduler is bounded.  The queue never exceeds its maximal size,
    no more jobs run than there are workers, and at most the configured number
    of finished jobs is remembered: the records are those of the outstanding
    jobs and of the remembered ones. *)
Theorem Scheduler_bounded o s :
  options_ok o → reachable o s →
  queue_size s <= highWatermark (statistics s) <= maximumQueueSize o ∧
  running_count s <= maximumConcurrentRunning (statistics s) <= Z.of_nat (workerCount o) ∧
  (0 < maximumCompletedHistorySize o →
     Z.of_nat (length (completed_order s)) <= maximumCompletedHistorySize o) ∧
  NoDup (completed_order s) ∧
  (∀ i, is_Some (GetSnapshot i s) ↔ is_Some (outstanding s !! i) ∨ i ∈ completed_order s) ∧
  (∀ i, i ∈ completed_order s → outstanding s !! i = None).
Proof.
  intros Ho Hs. destruct (scheduler_reachable_inv _ _ Ho Hs). subst o.
  destruct sc_records0. split_and!; done || lia.
Qed.

Lemma Scheduler_bounded_witness :
  let s := after (scenario_start ++ scenario_pass ++ scenario_stop) in
  Z.of_nat (length (completed_order s)) <= 1.
Proof.
  apply (Scheduler_bounded scenario_options); [apply scheduler_scenario_ok| |by vm_compute].
  apply scheduler_after_reachable. vm_compute. eauto.
Defined.

(** Shutdown of the scheduler terminates.  Once it is in progress, however
    the callbacks return and the workers interleave, at most
    [shutdown_measure] transitions of workers and of the shutting-down thread
    can happen, and one of them is enabled until the shutdown is complete. *)
Theorem Scheduler_shutdown_terminates o s ls s' :
  options_ok o → reachable o s → shutdown_in_progress s = true →
  forallb internal ls = true → run exec s ls = Some s' →
  (length ls <= shutdown_measure s)%nat ∧
  (shutdown_complete s' = true ∨ ∃ l, internal l = true ∧ is_Some (exec s' l)).
Proof.
  intros Ho Hs Hin Hls Hrun. pose proof (scheduler_reachable_inv _ _ Ho Hs) as I.
  destruct Ho as [_ [_ Hcount]].
  assert (Hdown : shutting_down s = true) by (unfold shutting_down; by rewrite Hin).
  clear Hs Hin. revert s I Hdown Hrun.
  induction ls as [|l ls IH]; intros s I Hdown Hrun; simplify_eq/=.
  - split; [lia|]. unfold shutting_down in Hdown.
    destruct (shutdown_complete s') eqn:E; [by left|right].
    apply (scheduler_internal_progress o); [done..|]. by rewrite orb_false_r in Hdown.
  - apply andb_true_iff in Hls as [Hl Hls]. destruct (exec s l) as [s1|] eqn:E; [|done].
    destruct (scheduler_internal_decreases _ _ _ _ Hcount I Hdown Hl E) as [Hlt Hdown1].
    destruct (IH Hls s1) as [Hlen Hend]; [by eapply scheduler_exec_inv|done|done|].
    split; [lia|done].
Qed.

Lemma Scheduler_shutdown_terminates_witness :
  let s := after (scenario_start ++ scenario_pass ++ scenario_stop ++ scenario_shutdown) in
  (length scenario_finish <= shutdown_measure s)%nat.
Proof.
  intros s. apply (Scheduler_shutdown_terminates scenario_options s scenario_finish
    (after (scenario_start ++ scenario_pass ++ scenario_stop ++ scenario_shutdown ++ scenario_finish))).
  - apply scheduler_scenario_ok.
  - apply scheduler_after_reachable. vm_compute. eauto.
  - by vm_compute.
  - done.
  - vm_compute. reflexivity.
Defined.

(** what shutdown leaves behind.  When [Shutdown] has joined the workers,
    no job waits or runs, the only futures without a value are those that a
    concurrent call of [Stop] is about to set, every record is one of the
    history, and a submission is answered at once with a failure. *)
Theorem Scheduler_shutdown_settles o s s' :
  options_ok o → reachable o s → Shutdown_end s = Some s' →
  queue s' = [] ∧ outstanding s' = ∅ ∧ running_count s' = 0 ∧
  (∀ p j, heap s' !! p = Some j → promise j = None → p ∈ (stopping s').*1) ∧
  (∀ i, is_Some (GetSnapshot i s') ↔ i ∈ completed_order s') ∧
  ∀ j now, ∃ r, Submit j now s' =
    (s' <| statistics ::= set_field rejected u64_incr |>, mkJobHandle (job_id j) (ReadyFuture r)) ∧
    result_state r = StateFailed.
Proof.
  intros Ho Hs H. pose proof (scheduler_Shutdown_end_inv _ _ _ (scheduler_reachable_inv _ _ Ho Hs) H) as I'.
  unfold Shutdown_end in H. destruct (shutdown_phase s) eqn:Hph; try done.
  destruct (all_exited (workers s)) eqn:Hall; [|done]. injection H as <-.
  destruct I' as [_ Istore _ Hrun _ Irec _ _ _ _ Hclosed _ _ _ _ _ _]. simpl in *.
  destruct Hclosed as [Hacc Hq]; [done|].
  rewrite (all_exited_running _ Hall), (all_exited_delivering _ Hall), Hq in *.
  assert (Hout : outstanding s = ∅).
  { apply map_eq. intros i. rewrite lookup_empty. destruct (outstanding s !! i) as [p|] eqn:Hi; [|done].
    by apply (si_index _ _ _ _ _ _ _ Istore) in Hi as [[]%elem_of_nil _]. }
  split_and!; try done.
  - intros p j Hj Hp. assert (Hin : p ∈ [] ++ [] ++ [] ++ omap stopped_queued (stopping s)).
    { apply (si_live _ _ _ _ _ _ _ Istore). eauto. }
    simpl in Hin. apply list_elem_of_omap in Hin as ([q b] & Hin & E).
    unfold stopped_queued in E. destruct b; simplify_eq/=.
    apply list_elem_of_fmap. by exists (p, true).
  - intros i. unfold GetSnapshot. simpl. rewrite (rc_dom _ _ _ _ Irec), Hout, lookup_empty.
    split; [by intros [[]|]|by right].
  - intros j now. unfold Submit, refuse. destruct (Validate j) as [r|] eqn:Hval; simpl.
    + exists r. split; [done|]. unfold Validate in Hval. by guards_in Hval.
    + rewrite Hacc. simpl. eauto.
Qed.

Lemma Scheduler_shutdown_settles_witness :
  let s' := after (scenario_start ++ scenario_pass ++ scenario_stop ++ scenario_shutdown ++
                   scenario_finish ++ [LShutdownEnd]) in
  outstanding s' = ∅ ∧ running_count s' = 0.
Proof.
  intros s'.
  destruct (Scheduler_shutdown_settles scenario_options
    (after (scenario_start ++ scenario_pass ++ scenario_stop ++ scenario_shutdown ++ scenario_finish)) s')
    as (_ & Hout & Hrun & _).
  - apply scheduler_scenario_ok.
  - apply scheduler_after_reachable. vm_compute. eauto.
  - vm_compute. reflexivity.
  - exact (conj Hout Hrun).
Defined.
