(* ===== verification/CommandPipeline.v ===== *)
(** * The command execution pipeline

    [CommandExecutionPipeline::Impl] of src/core/CommandExecutionPipeline.cpp:
    submission with pipeline-wide execution numbers, selection by priority
    and sequence, the history of records with its pruning, lifecycle events
    and their callbacks, cancellation, the worker loop and shutdown.

    Every critical section of the code, and every effect of a thread between
    two of them, is one transition ([exec]).  What a thread holds in its local
    variables between two critical sections is a [Locals]: of a worker in its
    program counter, of the shutting-down thread in [shutdown_phase], of the
    clients inside [Submit] and [Cancel] in [calls].  An event being handed to
    the callbacks is an entry of [emissions], with the thread that hands it
    out: that thread does not go on before the entry is gone.

    Not modelled: the optional logger, which sees the events and cannot fail
    the pipeline, failures of allocation, and the wake-ups of the condition
    variable: a waiting worker may look at its predicate at any time. *)

From S2P Require Import Prelude Command Workers.

Open Scope Z_scope.

(* ------------------------------------------------------------------ *)
(** ** Data *)

Record CommandExecutionPipelineOptions := mkPipelineOptions {
  maximumQueueSize : Z;
  workerCount : nat;
  maximumHistorySize : Z;
}.

(** The lifecycle event, without its timestamp: nothing reads it. *)
Record CommandExecutionEvent := mkEvent {
  ev_executionId : Z;
  ev_commandId : Z;
  ev_commandType : CommandType;
  ev_status : CommandStatus;
  ev_result : CommandResult;
}.

Record CommandExecutionRecord := mkRecord {
  executionId : Z;
  commandId : Z;
  commandType : CommandType;
  rec_priority : CommandPriority;
  rec_status : CommandStatus;
  submittedAt : Z;
  queuedAt : option Z;
  startedAt : option Z;
  completedAt : option Z;
  rec_result : CommandResult;
}.

#[export] Instance eta_CommandExecutionRecord : EtaRecord CommandExecutionRecord := fun r =>
  mkRecord (executionId r) (commandId r) (commandType r) (rec_priority r) (rec_status r)
    (submittedAt r) (queuedAt r) (startedAt r) (completedAt r) (rec_result r).

Record CommandExecutionMetrics := mkMetrics {
  currentQueued : Z;
  currentRunning : Z;
  met_maximumQueueSize : Z;
  met_workerCount : Z;
  met_maximumHistorySize : Z;
  historySize : Z;
  highWatermark : Z;
  maximumConcurrentRunning : Z;
  accepted : Z;
  started : Z;
  completed : Z;
  cancelled : Z;
  timedOut : Z;
  failed : Z;
  rejected : Z;
  callbackFailures : Z;
}.

#[export] Instance eta_CommandExecutionMetrics : EtaRecord CommandExecutionMetrics := fun m =>
  mkMetrics (currentQueued m) (currentRunning m) (met_maximumQueueSize m) (met_workerCount m)
    (met_maximumHistorySize m) (historySize m) (highWatermark m) (maximumConcurrentRunning m)
    (accepted m) (started m) (completed m) (cancelled m) (timedOut m) (failed m) (rejected m)
    (callbackFailures m).

Definition zero_metrics : CommandExecutionMetrics := mkMetrics 0 0 0 0 0 0 0 0 0 0 0 0 0 0 0 0.

Record Execution := mkExecution {
  e_command : Command;
  e_promise : option CommandResult;  (** the value its future delivers *)
  e_record : CommandExecutionRecord;
  e_sequence : Z;
  e_running : bool;
}.

#[export] Instance eta_Execution : EtaRecord Execution := fun e =>
  mkExecution (e_command e) (e_promise e) (e_record e) (e_sequence e) (e_running e).

(** A subscribed callback, by a name of its own. *)
Abbreviation Callback := nat.

(** The local variables of a thread that completes an execution: [result],
    [final_event] and [final_callbacks]. *)
Record Locals := mkLocals {
  l_result : CommandResult;
  l_event : CommandExecutionEvent;
  l_callbacks : list Callback;
}.

Definition default_event : CommandExecutionEvent :=
  mkEvent 0 0 TypeCustom StatusPending (Result StatusPending "").

(** A client inside [Submit] or [Cancel], between two critical sections. *)
Inductive ClientCall :=
  | CallSubmit (p : ptr)                      (** has its execution number *)
  | CallReject (p : ptr) (r : CommandResult)  (** to [CompleteRejectedExecution] *)
  | CallSettle (p : ptr) (l : Locals).        (** to [CompletePromise] and [Emit] *)

(** The thread that hands out an event. *)
Inductive Owner := OwnerClient | OwnerShutdown | OwnerWorker (w : nat).

#[export] Instance Owner_eq_dec : EqDecision Owner.
Proof. solve_decision. Defined.

Record Emission := mkEmission {
  em_owner : Owner;
  em_event : CommandExecutionEvent;
  em_callbacks : list Callback;
}.

(** The thread that runs [Shutdown]: the executions it swapped out of the
    queue are completed one after the other, then it joins the workers. *)
Inductive ShutdownPhase :=
  | NoShutdown
  | ShutdownCancelling (cancelled_executions : list ptr)
  | ShutdownSettling (p : ptr) (l : Locals) (rest : list ptr)
  | ShutdownJoining.

Record PipelineState := mkPipelineState {
  options : CommandExecutionPipelineOptions;
  heap : gmap ptr Execution;
  next_ptr : ptr;
  queue : list ptr;
  executions : gmap Z ptr;
  command_to_execution : gmap Z Z;
  records : gmap Z CommandExecutionRecord;
  history_order : list Z;
  callbacks : gmap Z Callback;
  metrics : CommandExecutionMetrics;
  running_count : Z;
  next_execution_id : Z;
  next_callback_id : Z;
  next_sequence : Z;
  accepting : bool;
  shutdown_in_progress : bool;
  shutdown_complete : bool;
  shutdown_phase : ShutdownPhase;
  stop_requested : bool;
  worker_ids : list (option ThreadId);
  workers : list (WorkerPc Locals);
  calls : list ClientCall;
  emissions : list Emission;
}.

#[export] Instance eta_PipelineState : EtaRecord PipelineState := fun s =>
  mkPipelineState (options s) (heap s) (next_ptr s) (queue s) (executions s)
    (command_to_execution s) (records s) (history_order s) (callbacks s) (metrics s)
    (running_count s) (next_execution_id s) (next_callback_id s) (next_sequence s) (accepting s)
    (shutdown_in_progress s) (shutdown_complete s) (shutdown_phase s) (stop_requested s)
    (worker_ids s) (workers s) (calls s) (emissions s).

(** The constructor: the exceptions it throws, or the state in which every
    worker thread has been started. *)
Definition initial (has_executor : bool) (o : CommandExecutionPipelineOptions) :
    string + PipelineState :=
  if negb has_executor then inl "CommandExecutionPipeline requires an executor"
  else if maximumQueueSize o =? 0 then
    inl "CommandExecutionPipeline queue size must be greater than zero"
  else if bool_decide (workerCount o = 0%nat) then
    inl "CommandExecutionPipeline worker count must be greater than zero"
  else if maximumHistorySize o =? 0 then
    inl "CommandExecutionPipeline history size must be greater than zero"
  else inr
    {| options := o; heap := ∅; next_ptr := 0%nat; queue := []; executions := ∅;
       command_to_execution := ∅; records := ∅; history_order := []; callbacks := ∅;
       metrics := zero_metrics; running_count := 0; next_execution_id := 1;
       next_callback_id := 1; next_sequence := 0; accepting := true;
       shutdown_in_progress := false; shutdown_complete := false; shutdown_phase := NoShutdown;
       stop_requested := false; worker_ids := replicate (workerCount o) None;
       workers := replicate (workerCount o) WorkerStarting; calls := []; emissions := [] |}.

(* ------------------------------------------------------------------ *)
(** ** Helpers *)

Definition queue_size (s : PipelineState) : Z := Z.of_nat (length (queue s)).

Definition new_record (execution_id : Z) (c : Command) (now : Z) : CommandExecutionRecord :=
  mkRecord execution_id (id c) (type c) (priority c) StatusPending now None None None
    (Result StatusPending "Command execution submitted").

(** The constructor of [Execution]. *)
Definition new_execution (execution_id : Z) (c : Command) (now : Z) : Execution :=
  mkExecution c None (new_record execution_id c now) 0 false.

Definition CallbackSnapshotLocked (s : PipelineState) : list Callback :=
  (map_to_list (callbacks s)).*2.

Definition EventFromRecord (r : CommandExecutionRecord) : CommandExecutionEvent :=
  mkEvent (executionId r) (commandId r) (commandType r) (rec_status r) (rec_result r).

Definition CompleteRecordLocked (r : CommandResult) (now : Z) (record : CommandExecutionRecord) :
    CommandExecutionRecord :=
  record <| rec_status := status r |> <| completedAt := Some now |> <| rec_result := r |>.

Definition RecordTerminalMetricsLocked (st : CommandStatus) (m : CommandExecutionMetrics) :
    CommandExecutionMetrics :=
  match st with
  | StatusCompleted => m <| completed ::= u64_incr |>
  | StatusCancelled => m <| cancelled ::= u64_incr |>
  | StatusTimeout => m <| timedOut ::= u64_incr |>
  | StatusFailed => m <| failed ::= u64_incr |>
  | StatusRejected => m <| rejected ::= u64_incr |>
  | StatusPending | StatusQueued | StatusRunning => m <| failed ::= u64_incr |>
  | StatusRaw _ => m
  end.

(** The loop of [PruneHistoryLocked]: each round erases one entry of the
    history, so that its length is fuel enough. *)
Fixpoint prune (fuel : nat) (limit : Z) (out : gmap Z ptr) (order : list Z)
    (rs : gmap Z CommandExecutionRecord) : list Z * gmap Z CommandExecutionRecord :=
  match fuel with
  | O => (order, rs)
  | S fuel' =>
      if negb ((limit <? Z.of_nat (size rs)) && negb (bool_decide (order = []))) then (order, rs)
      else match list_find (λ i, out !! i = None) order with
           | None => (order, rs)
           | Some (k, candidate) => prune fuel' limit out (delete k order) (delete candidate rs)
           end
  end.

Definition PruneHistoryLocked (s : PipelineState) : PipelineState :=
  let '(order, rs) := prune (length (history_order s)) (maximumHistorySize (options s))
                        (executions s) (history_order s) (records s) in
  s <| history_order := order |> <| records := rs |>.

(** [emplace] of the map of records: an entry that exists is kept. *)
Definition emplace_record (i : Z) (r : CommandExecutionRecord)
    (rs : gmap Z CommandExecutionRecord) : gmap Z CommandExecutionRecord :=
  match rs !! i with Some _ => rs | None => <[i := r]> rs end.

(** What a completion hands to [CompletePromise] and [Emit]. *)
Definition final_locals (r : CommandResult) (record : CommandExecutionRecord) (s : PipelineState) :
    Locals :=
  mkLocals r (EventFromRecord record) (CallbackSnapshotLocked s).

Definition CompleteExecutionLocked (p : ptr) (r : CommandResult) (now : Z) (s : PipelineState) :
    option (PipelineState * Locals) :=
  e ← heap s !! p;
  let record := CompleteRecordLocked r now (e_record e) in
  Some (PruneHistoryLocked
          (s <| heap ::= insert p (e <| e_record := record |> <| e_running := false |>) |>
             <| records ::= insert (executionId record) record |>
             <| executions ::= delete (executionId record) |>
             <| command_to_execution ::= delete (commandId record) |>
             <| running_count ::= λ n, if e_running e && (0 <? n) then u64_decr n else n |>
             <| metrics ::= RecordTerminalMetricsLocked (status r) |>),
        final_locals r record s).

(** The critical section of [CompleteRejectedExecution]. *)
Definition CompleteRejectedExecution (p : ptr) (r : CommandResult) (now : Z) (s : PipelineState) :
    option (PipelineState * Locals) :=
  e ← heap s !! p;
  let record := CompleteRecordLocked r now (e_record e) in
  Some (PruneHistoryLocked
          (s <| heap ::= insert p (e <| e_record := record |>) |>
             <| records ::= λ rs, <[executionId record := record]>
                                    (emplace_record (executionId record) (e_record e) rs) |>
             <| history_order ::= λ l, l ++ [executionId record] |>
             <| metrics ::= RecordTerminalMetricsLocked (status r) |>),
        final_locals r record s).

(** [CompletePromise]: the exception of a promise that is set already is
    swallowed. *)
Definition CompletePromise (p : ptr) (r : CommandResult) (s : PipelineState) : PipelineState :=
  match heap s !! p with
  | Some e =>
      match e_promise e with
      | None => s <| heap ::= insert p (e <| e_promise := Some r |>) |>
      | Some _ => s
      end
  | None => s
  end.

(** [Emit]: the thread [owner] starts to hand out the event. *)
Definition Emit (owner : Owner) (event : CommandExecutionEvent) (cbs : list Callback)
    (s : PipelineState) : PipelineState :=
  s <| emissions ::= λ l, l ++ [mkEmission owner event cbs] |>.

(** Whether a thread is still inside [Emit]. *)
Definition emitting (owner : Owner) (s : PipelineState) : bool :=
  existsb (λ em, bool_decide (em_owner em = owner)) (emissions s).

(** The loop of [Emit] of the [k]-th emission: it calls the next callback,
    whose exception is counted, or returns. *)
Definition Emit_callback (k : nat) (threw : bool) (s : PipelineState) : option PipelineState :=
  em ← emissions s !! k;
  match em_callbacks em with
  | [] => Some (s <| emissions ::= delete k |>)
  | _ :: cbs =>
      Some (s <| emissions ::= insert k (mkEmission (em_owner em) (em_event em) cbs) |>
              <| metrics ::= λ m, if threw then m <| callbackFailures ::= u64_incr |> else m |>)
  end.

(* ------------------------------------------------------------------ *)
(** ** Client operations *)

(** [Submit] up to [NextExecutionId] and the construction of the execution;
    the handle it will return names the execution and its future. *)
Definition Submit_begin (c : Command) (now : Z) (s : PipelineState) : PipelineState :=
  s <| heap ::= insert (next_ptr s) (new_execution (next_execution_id s) c now) |>
    <| next_ptr ::= S |>
    <| next_execution_id ::= u64_incr |>
    <| calls ::= λ l, l ++ [CallSubmit (next_ptr s)] |>.

(** The execution enters the queue. *)
Definition accept (p : ptr) (e : Execution) (now : Z) (s : PipelineState) : PipelineState :=
  let record := (e_record e)
    <| rec_status := StatusQueued |>
    <| queuedAt := Some now |>
    <| rec_result := Result StatusQueued "Command queued for execution" |> in
  Emit OwnerClient (EventFromRecord record) (CallbackSnapshotLocked s)
    (s <| heap ::= insert p (e <| e_record := record |> <| e_sequence := next_sequence s |>) |>
       <| next_sequence ::= u64_incr |>
       <| records ::= emplace_record (executionId record) record |>
       <| history_order ::= λ l, l ++ [executionId record] |>
       <| executions ::= λ m, match m !! executionId record with
                              | Some _ => m
                              | None => <[executionId record := p]> m
                              end |>
       <| command_to_execution ::= insert (commandId record) (executionId record) |>
       <| queue ::= λ q, q ++ [p] |>
       <| metrics ::= λ m, m
            <| accepted ::= u64_incr |>
            <| highWatermark ::= Z.max (Z.of_nat (length (queue s ++ [p]))) |> |>).

(** The answer to a submission that is not accepted. *)
Definition refusal (e : Execution) (s : PipelineState) : option CommandResult :=
  if negb (accepting s) then
    Some (Result StatusRejected "Command execution pipeline is shut down")
  else if bool_decide (is_Some (command_to_execution s !! id (e_command e))) then
    Some (Result StatusRejected "Command identifier is already outstanding")
  else if maximumQueueSize (options s) <=? queue_size s then
    Some (Result StatusRejected "Command execution queue is full")
  else None.

(** The validation, at the clock [now], and the critical section that
    accepts the execution or not. *)
Definition Submit_finish (k : nat) (now queued_at : Z) (s : PipelineState) : option PipelineState :=
  match calls s !! k with
  | Some (CallSubmit p) =>
      e ← heap s !! p;
      match ValidateForSubmission (e_command e) now with
      | Some validation => Some (s <| calls ::= insert k (CallReject p validation) |>)
      | None =>
          match refusal e s with
          | Some immediate_result =>
              Some (s <| calls ::= insert k (CallReject p immediate_result) |>)
          | None => Some ((accept p e queued_at s) <| calls ::= delete k |>)
          end
      end
  | _ => None
  end.

Definition Submit_reject (k : nat) (now : Z) (s : PipelineState) : option PipelineState :=
  match calls s !! k with
  | Some (CallReject p r) =>
      '(s', l) ← CompleteRejectedExecution p r now s;
      Some (s' <| calls ::= insert k (CallSettle p l) |>)
  | _ => None
  end.

(** [CompletePromise] and the start of [Emit], after a critical section of
    [Submit] or [Cancel]. *)
Definition Client_settle (k : nat) (s : PipelineState) : option PipelineState :=
  match calls s !! k with
  | Some (CallSettle p l) =>
      Some (Emit OwnerClient (l_event l) (l_callbacks l) (CompletePromise p (l_result l) s)
              <| calls ::= delete k |>)
  | _ => None
  end.

Definition Cancel (execution_id : Z) (now : Z) (s : PipelineState) :
    option (PipelineState * CommandResult) :=
  if execution_id =? 0 then
    Some (s, Result StatusRejected "Execution identifier must be nonzero")
  else match executions s !! execution_id with
  | None => Some (s, Result StatusRejected "Execution is not outstanding")
  | Some p =>
      e ← heap s !! p;
      if e_running e then Some (s, Result StatusRejected "A running execution cannot be cancelled")
      else
        let result := Result StatusCancelled "Command execution cancelled before start" in
        '(s', l) ← CompleteExecutionLocked p result now (s <| queue ::= erase_value p |>);
        Some (s' <| calls ::= λ cs, cs ++ [CallSettle p l] |>, result)
  end.

Inductive ShutdownDecision :=
  | ShutdownReturns (r : CommandResult)
  | ShutdownWaits
  | ShutdownOwns.

(** The first critical section of [Shutdown]. *)
Definition Shutdown_begin (caller : ThreadId) (s : PipelineState) :
    PipelineState * ShutdownDecision :=
  if shutdown_complete s then
    (s, ShutdownReturns (Result StatusCompleted "Command execution pipeline is shut down"))
  else if IsWorkerThread caller (worker_ids s) then
    (s, ShutdownReturns (Result StatusRejected
          "Command execution pipeline cannot be shut down from its executor"))
  else if shutdown_in_progress s then (s, ShutdownWaits)
  else
    (s <| shutdown_in_progress := true |>
       <| accepting := false |>
       <| shutdown_phase := ShutdownCancelling (queue s) |>
       <| queue := [] |>,
     ShutdownOwns).

(** The next critical section of the loop over [cancelled_executions]; after
    the last one, [request_stop] on every worker. *)
Definition Shutdown_next (now : Z) (s : PipelineState) : option PipelineState :=
  match shutdown_phase s with
  | ShutdownCancelling [] =>
      if emitting OwnerShutdown s then None
      else Some (s <| stop_requested := true |> <| shutdown_phase := ShutdownJoining |>)
  | ShutdownCancelling (p :: rest) =>
      if emitting OwnerShutdown s then None
      else
        '(s', l) ← CompleteExecutionLocked p
                     (Result StatusCancelled "Command execution cancelled during pipeline shutdown")
                     now s;
        Some (s' <| shutdown_phase := ShutdownSettling p l rest |>)
  | _ => None
  end.

Definition Shutdown_settle (s : PipelineState) : option PipelineState :=
  match shutdown_phase s with
  | ShutdownSettling p l rest =>
      Some (Emit OwnerShutdown (l_event l) (l_callbacks l) (CompletePromise p (l_result l) s)
              <| shutdown_phase := ShutdownCancelling rest |>)
  | _ => None
  end.

(** After [join] has returned for every worker. *)
Definition Shutdown_end (s : PipelineState) : option (PipelineState * CommandResult) :=
  match shutdown_phase s with
  | ShutdownJoining =>
      if all_exited (workers s) then
        Some ((PruneHistoryLocked s) <| shutdown_complete := true |>
                <| shutdown_in_progress := false |> <| shutdown_phase := NoShutdown |>,
              Result StatusCompleted "Command execution pipeline shut down")
      else None
  | _ => None
  end.

(** [Subscribe]; [None] is an empty [std::function]. *)
Definition Subscribe (callback : option Callback) (s : PipelineState) : PipelineState * Z :=
  match callback with
  | None => (s, 0)
  | Some cb =>
      let callback_id := next_callback_id s in
      (s <| next_callback_id ::= u64_incr |>
         <| callbacks ::= λ m, match m !! callback_id with
                               | Some _ => m
                               | None => <[callback_id := cb]> m
                               end |>,
       callback_id)
  end.

Definition Unsubscribe (callback_id : Z) (s : PipelineState) : PipelineState * bool :=
  if callback_id =? 0 then (s, false)
  else (s <| callbacks ::= delete callback_id |>,
        bool_decide (is_Some (callbacks s !! callback_id))).

Definition GetMetrics (s : PipelineState) : CommandExecutionMetrics :=
  (metrics s)
    <| currentQueued := queue_size s |>
    <| currentRunning := running_count s |>
    <| met_maximumQueueSize := maximumQueueSize (options s) |>
    <| met_workerCount := Z.of_nat (workerCount (options s)) |>
    <| met_maximumHistorySize := maximumHistorySize (options s) |>
    <| historySize := Z.of_nat (size (records s)) |>.

Definition GetHistory (s : PipelineState) : list CommandExecutionRecord :=
  omap (λ i, records s !! i) (history_order s).

Definition GetRecord (execution_id : Z) (s : PipelineState) : option CommandExecutionRecord :=
  records s !! execution_id.

Definition Contains (execution_id : Z) (s : PipelineState) : bool :=
  bool_decide (is_Some (executions s !! execution_id)).

(* ------------------------------------------------------------------ *)
(** ** The worker loop *)

Definition priority_of (s : PipelineState) (p : ptr) : Z :=
  match heap s !! p with Some e => priority_value (priority (e_command e)) | None => 0 end.

Definition sequence_of (s : PipelineState) (p : ptr) : Z :=
  match heap s !! p with Some e => e_sequence e | None => 0 end.

(** The comparator of [TakeNextExecutionLocked]. *)
Definition execution_less (s : PipelineState) (left right : ptr) : bool :=
  if priority_of s left =? priority_of s right then sequence_of s right <? sequence_of s left
  else priority_of s left <? priority_of s right.

Definition highest_priority (s : PipelineState) : option nat :=
  max_element (execution_less s) (queue s).

(** The execution a worker takes, as [TakeNextExecutionLocked] rewrites it. *)
Definition taken (e : Execution) (now : Z) : Execution :=
  e <| e_running := true |>
    <| e_record ::= λ r, r
         <| rec_status := StatusRunning |>
         <| startedAt := Some now |>
         <| rec_result := Result StatusRunning "Command execution started" |> |>.

Definition TakeNextExecutionLocked (i : nat) (now : Z) (s : PipelineState) :
    option (PipelineState * ptr) :=
  p ← queue s !! i;
  e ← heap s !! p;
  let e' := taken e now in
  let running := u64_incr (running_count s) in
  Some (s <| queue ::= delete i |>
          <| heap ::= insert p e' |>
          <| records ::= insert (executionId (e_record e')) (e_record e') |>
          <| running_count := running |>
          <| metrics ::= λ m, m
               <| started ::= u64_incr |>
               <| maximumConcurrentRunning ::= λ n, Z.max n running |> |>,
        p).

Definition Run_register (w : nat) (s : PipelineState) : option PipelineState :=
  match workers s !! w with
  | Some WorkerStarting =>
      Some (s <| worker_ids ::= insert w (Some (WorkerThread w)) |>
              <| workers ::= insert w WorkerWaiting |>)
  | _ => None
  end.

(** The critical section that follows the wait: [None] when the worker is
    still handing out an event or the predicate of the condition variable is
    false. *)
Definition Run_take (w : nat) (now : Z) (s : PipelineState) : option PipelineState :=
  match workers s !! w with
  | Some WorkerWaiting =>
      if emitting (OwnerWorker w) s then None
      else if stop_requested s || negb (bool_decide (queue s = [])) || negb (accepting s) then
        match highest_priority s with
        | None =>
            if stop_requested s || negb (accepting s) then
              Some (s <| worker_ids ::= insert w None |> <| workers ::= insert w WorkerExited |>)
            else Some s
        | Some i =>
            '(s', p) ← TakeNextExecutionLocked i now s;
            e ← heap s' !! p;
            Some (Emit (OwnerWorker w) (EventFromRecord (e_record e)) (CallbackSnapshotLocked s')
                    s' <| workers ::= insert w (WorkerExecuting p) |>)
        end
      else None
  | _ => None
  end.

(** What a call of the injected executor does. *)
Inductive Outcome :=
  | Returned (r : CommandResult)
  | ThrewException (what : string)
  | ThrewUnknown.

Definition InvokeExecutor (outcome : Outcome) : CommandResult :=
  match outcome with
  | Returned r => r
  | ThrewException what => Result StatusFailed ("Command executor failed: " +:+ what)
  | ThrewUnknown => Result StatusFailed "Command executor failed with an unknown error"
  end.

(** The result of an execution: [now] and [later] are the clock before and
    after the executor; [outcome] is what the executor does, if it is called. *)
Definition execution_result (c : Command) (now : Z) (outcome : Outcome) (later : Z) :
    CommandResult :=
  if HasExpired c now then Result StatusTimeout "Command expired before executor invocation"
  else
    let result := InvokeExecutor outcome in
    if bool_decide (status result = StatusCompleted) && HasExpired c later then
      Result StatusTimeout "Command completed after its timeout"
    else if negb (isTerminal (status result)) then
      Result StatusFailed "Command executor returned a nonterminal status"
    else result.

Definition Run_execute (w : nat) (now : Z) (outcome : Outcome) (later : Z) (s : PipelineState) :
    option PipelineState :=
  match workers s !! w with
  | Some (WorkerExecuting p) =>
      if emitting (OwnerWorker w) s then None
      else
        e ← heap s !! p;
        let r := execution_result (e_command e) now outcome later in
        Some (s <| workers ::= insert w (WorkerFinished p (mkLocals r default_event [])) |>)
  | _ => None
  end.

Definition Run_record (w : nat) (now : Z) (s : PipelineState) : option PipelineState :=
  match workers s !! w with
  | Some (WorkerFinished p l) =>
      '(s', l') ← CompleteExecutionLocked p (l_result l) now s;
      Some (s' <| workers ::= insert w (WorkerDelivering p l') |>)
  | _ => None
  end.

Definition Run_deliver (w : nat) (s : PipelineState) : option PipelineState :=
  match workers s !! w with
  | Some (WorkerDelivering p l) =>
      Some (Emit (OwnerWorker w) (l_event l) (l_callbacks l) (CompletePromise p (l_result l) s)
              <| workers ::= insert w WorkerWaiting |>)
  | _ => None
  end.

(* ------------------------------------------------------------------ *)
(** ** Interleavings *)

Inductive Label :=
  | LSubmit (c : Command) (now : Z)
  | LSubmitFinish (k : nat) (now queued_at : Z)
  | LSubmitReject (k : nat) (now : Z)
  | LCancel (execution_id : Z) (now : Z)
  | LClientSettle (k : nat)
  | LShutdownBegin (caller : ThreadId)
  | LShutdownNext (now : Z)
  | LShutdownSettle
  | LShutdownEnd
  | LSubscribe (callback : option Callback)
  | LUnsubscribe (callback_id : Z)
  | LRegister (w : nat)
  | LTake (w : nat) (now : Z)
  | LExecute (w : nat) (now : Z) (outcome : Outcome) (later : Z)
  | LRecord (w : nat) (now : Z)
  | LDeliver (w : nat)
  | LCallback (k : nat) (threw : bool).

Definition exec (s : PipelineState) (l : Label) : option PipelineState :=
  match l with
  | LSubmit c now => Some (Submit_begin c now s)
  | LSubmitFinish k now queued_at => Submit_finish k now queued_at s
  | LSubmitReject k now => Submit_reject k now s
  | LCancel execution_id now => fst <$> Cancel execution_id now s
  | LClientSettle k => Client_settle k s
  | LShutdownBegin caller => Some (Shutdown_begin caller s).1
  | LShutdownNext now => Shutdown_next now s
  | LShutdownSettle => Shutdown_settle s
  | LShutdownEnd => fst <$> Shutdown_end s
  | LSubscribe cb => Some (Subscribe cb s).1
  | LUnsubscribe callback_id => Some (Unsubscribe callback_id s).1
  | LRegister w => Run_register w s
  | LTake w now => Run_take w now s
  | LExecute w now outcome later => Run_execute w now outcome later s
  | LRecord w now => Run_record w now s
  | LDeliver w => Run_deliver w s
  | LCallback k threw => Emit_callback k threw s
  end.

(** The states a pipeline constructed with the options [o] can reach. *)
Definition reachable (o : CommandExecutionPipelineOptions) (s : PipelineState) : Prop :=
  ∃ s0 ls, initial true o = inr s0 ∧ run exec s0 ls = Some s.
