(* ===== verification/PipelineStore.v ===== *)
(** * The containers of the execution pipeline

    The queue, the two indices, the records and the history of
    [CommandPipeline] as an abstract store: [pool_inv] says where executions
    are and which promises are owed, with a lemma per move of the code, and
    [history_inv] bounds what pruning leaves. *)

From S2P Require Import Prelude Command Workers CommandPipeline.

Open Scope Z_scope.

(* ------------------------------------------------------------------ *)
(** ** Where executions are

    The containers of the code in terms of the lists of executions that wait
    in the queue [q], run [r], were withdrawn by a shutdown [w] or are still
    inside [Submit] [u], and of the promises [ow] some thread is about to
    complete.  A withdrawn execution may have been completed by a client
    before the shutting-down thread completes it. *)

Definition id_of (p : ptr) : Z := Z.of_nat p + 1.

Definition open (e : Execution) : Prop := completedAt (e_record e) = None.

(** An execution as [CompleteExecutionLocked] leaves it. *)
Definition completed_exec (e : Execution) (x : CommandResult) (now : Z) : Execution :=
  e <| e_record ::= CompleteRecordLocked x now |> <| e_running := false |>.

(** An execution after [CompletePromise]. *)
Definition settled_exec (e : Execution) (x : CommandResult) : Execution :=
  match e_promise e with Some _ => e | None => e <| e_promise := Some x |> end.

Definition exec_ok (q r w u : list ptr) (p : ptr) (e : Execution) : Prop :=
  (p ∈ q ∨ p ∈ u → e_running e = false ∧ startedAt (e_record e) = None ∧ open e) ∧
  (p ∈ r → e_running e = true ∧ is_Some (startedAt (e_record e)) ∧ open e) ∧
  (p ∈ w → e_running e = false ∧ startedAt (e_record e) = None ∧
           (open e ∨ rec_status (e_record e) = StatusCancelled)) ∧
  (p ∉ q → p ∉ r → p ∉ w → p ∉ u → e_running e = false ∧ ¬ open e).

(** What holds of an execution wherever it is. *)
Definition exec_wf (e : Execution) : Prop :=
  commandId (e_record e) = id (e_command e) ∧
  (¬ open e → isTerminal (rec_status (e_record e)) = true) ∧
  (∀ x, e_promise e = Some x → ¬ open e ∧ status x = rec_status (e_record e)).

Record pool_inv (h : gmap ptr Execution) (n : ptr) (q r w u : list ptr)
    (ow : list (ptr * CommandResult)) (ex cm : gmap Z _) : Prop := {
  pi_heap p e : h !! p = Some e → (p < n)%nat ∧ executionId (e_record e) = id_of p ∧ exec_wf e;
  pi_place p e : h !! p = Some e → exec_ok q r w u p e;
  pi_nodup : NoDup (q ++ r ++ w ++ u);
  pi_held p : p ∈ q ++ r ++ w ++ u → is_Some (h !! p);
  pi_unset p e : h !! p = Some e → e_promise e = None → ¬ open e → p ∈ ow.*1;
  pi_owed p x : (p, x) ∈ ow →
    ∃ e, h !! p = Some e ∧ ¬ open e ∧ status x = rec_status (e_record e);
  pi_index i p : ex !! i = Some p ↔
    i = id_of p ∧ p ∈ q ++ r ++ w ∧ ∃ e, h !! p = Some e ∧ open e;
  pi_command c i : cm !! c = Some i ↔
    ∃ p e, ex !! i = Some p ∧ h !! p = Some e ∧ id (e_command e) = c;
  pi_distinct p p' e e' : p ∈ q ++ r ++ w → p' ∈ q ++ r ++ w → h !! p = Some e →
    h !! p' = Some e' → id (e_command e) = id (e_command e') → p = p';
}.

Ltac places :=
  unfold exec_ok in *; rewrite ?elem_of_cons, ?elem_of_nil in *; intuition (congruence || eauto).

(** Two families of lists that place every execution but [p] alike. *)
Definition same_places (p : ptr) (q r w u q' r' w' u' : list ptr) : Prop :=
  ∀ x, x ≠ p → (x ∈ q' ↔ x ∈ q) ∧ (x ∈ r' ↔ x ∈ r) ∧ (x ∈ w' ↔ x ∈ w) ∧ (x ∈ u' ↔ x ∈ u).

Lemma id_of_inj p p' : id_of p = id_of p' → p = p'.
Proof. unfold id_of. lia. Qed.

Lemma exec_ok_same p q r w u q' r' w' u' x e :
  same_places p q r w u q' r' w' u' → x ≠ p → exec_ok q r w u x e → exec_ok q' r' w' u' x e.
Proof.
  intros Hs Hx. destruct (Hs x Hx) as (Hq & Hr & Hw & Hu). unfold exec_ok.
  by rewrite Hq, Hr, Hw, Hu.
Qed.

Lemma same_places_live p q r w u q' r' w' u' x :
  same_places p q r w u q' r' w' u' → x ≠ p → x ∈ q' ++ r' ++ w' ↔ x ∈ q ++ r ++ w.
Proof.
  intros Hs Hx. destruct (Hs x Hx) as (Hq & Hr & Hw & Hu). rewrite !elem_of_app. tauto.
Qed.

(** Only the contents of the lists matter. *)
Lemma pool_inv_lists {h n q r w u ow ex cm} q' r' w' u' ow' :
  pool_inv h n q r w u ow ex cm →
  q ≡ₚ q' → r ≡ₚ r' → w ≡ₚ w' → u ≡ₚ u' → ow ≡ₚ ow' →
  pool_inv h n q' r' w' u' ow' ex cm.
Proof.
  intros [H1 H2 H3 H4 H5 H6 H7 H8 H9] Hq Hr Hw Hu How. split.
  - done.
  - intros p e Hp. specialize (H2 p e Hp). unfold exec_ok in *. by rewrite <-Hq, <-Hr, <-Hw, <-Hu.
  - by rewrite <-Hq, <-Hr, <-Hw, <-Hu.
  - intros p. rewrite <-Hq, <-Hr, <-Hw, <-Hu. apply H4.
  - intros p e. rewrite <-How. apply H5.
  - intros p x. rewrite <-How. apply H6.
  - intros i p. by rewrite H7, Hq, Hr, Hw.
  - done.
  - intros p p' e e'. rewrite <-Hq, <-Hr, <-Hw. apply H9.
Qed.

Lemma pool_inv_empty n : pool_inv ∅ n [] [] [] [] [] ∅ ∅.
Proof.
  split; simpl; try (intros *; rewrite ?lookup_empty; done).
  - constructor.
  - intros p. by intros ?%elem_of_nil.
  - intros p x. by intros ?%elem_of_nil.
  - intros i p. rewrite lookup_empty. split; [done|]. by intros (_ & ?%elem_of_nil & _).
  - intros c i. rewrite lookup_empty. split; [done|]. intros (p & e & H & _).
    by rewrite lookup_empty in H.
Qed.

Section Moves.
Context {h n q r w u ow ex cm} (I : pool_inv h n q r w u ow ex cm).

Lemma pool_fresh : h !! n = None.
Proof.
  destruct (h !! n) as [e|] eqn:E; [|done]. destruct (pi_heap _ _ _ _ _ _ _ _ _ I n e E). lia.
Qed.

Lemma pool_fresh_ne p : is_Some (h !! p) → n ≠ p.
Proof. intros [e He] <-. by rewrite pool_fresh in He. Qed.

Lemma pool_fresh_places : n ∉ q ∧ n ∉ r ∧ n ∉ w ∧ n ∉ u.
Proof.
  assert (Hn : n ∉ q ++ r ++ w ++ u).
  { intros Hin. by apply (pi_held _ _ _ _ _ _ _ _ _ I), pool_fresh_ne in Hin. }
  rewrite !elem_of_app in Hn. tauto.
Qed.

(** An execution that is not open is never run. *)
Lemma pool_open p e : h !! p = Some e → p ∈ q ++ r ++ u → open e.
Proof.
  intros Hp Hin. destruct (pi_place _ _ _ _ _ _ _ _ _ I p e Hp) as (H1 & H2 & _).
  rewrite !elem_of_app in Hin. destruct Hin as [?|[?|?]]; [apply H1|apply H2|apply H1]; tauto.
Qed.

(** [Submit_begin] *)
Lemma pool_submit e :
  executionId (e_record e) = id_of n → exec_wf e →
  e_running e = false → startedAt (e_record e) = None → open e →
  pool_inv (<[n := e]> h) (S n) q r w (n :: u) ow ex cm.
Proof.
  intros Hid Hwf Hrun Hst Hopen. destruct pool_fresh_places as (Hq & Hr & Hw & Hu).
  pose proof pool_fresh as Hn. pose proof pool_fresh_ne as Hne.
  destruct I as [H1 H2 H3 H4 H5 H6 H7 H8 H9].
  assert (Hlive : ∀ x, x ∈ q ++ r ++ w → n ≠ x).
  { intros x Hx. apply Hne, H4. revert Hx. rewrite !elem_of_app. tauto. }
  split.
  - intros p e'. rewrite lookup_insert_Some. intros [[<- <-]|[? Hp%H1]].
    + split; [lia|done].
    + destruct Hp as (? & ?). split; [lia|done].
  - intros p e'. rewrite lookup_insert_Some. unfold exec_ok. rewrite elem_of_cons.
    intros [[<- <-]|[? Hp%H2]]; places.
  - rewrite <-(Permutation_middle w u n), <-(Permutation_middle r (w ++ u) n), <-(Permutation_middle q).
    constructor; [|done]. rewrite !elem_of_app. tauto.
  - intros p. rewrite !elem_of_app, elem_of_cons. destruct (decide (n = p)) as [->|].
    + rewrite lookup_insert_eq. eauto.
    + rewrite lookup_insert_ne by done. intros Hp. apply H4. rewrite !elem_of_app. naive_solver.
  - intros p e'. rewrite lookup_insert_Some. intros [[<- <-]|[? ?]]; [naive_solver|eauto].
  - intros p x Hx. destruct (H6 p x Hx) as (e' & Hp & ?). exists e'.
    rewrite lookup_insert_ne; [done|eauto].
  - intros i p. rewrite H7. split; intros (? & Hin & e' & He'); (split; [done|]); (split; [done|]).
    + exists e'. rewrite lookup_insert_ne; naive_solver.
    + exists e'. rewrite lookup_insert_ne in He'; naive_solver.
  - intros c i. rewrite H8. split; intros (p & e' & Hi & He'); exists p, e'; (split; [done|]).
    + rewrite lookup_insert_ne; naive_solver.
    + apply H7 in Hi as (_ & Hin & _). rewrite lookup_insert_ne in He'; naive_solver.
  - intros p p' e1 e2 Hp Hp'. rewrite !lookup_insert_ne by auto. eauto.
Qed.

(** One execution changes, and with it its place, the promises owed and the
    two indices. *)
Section Change.
Context {p : ptr} {e e' : Execution} {q' r' w' u' : list ptr} {ow' : list (ptr * CommandResult)}.
Context (Hp : h !! p = Some e).
Context (Hid : executionId (e_record e') = executionId (e_record e)) (Hwf : exec_wf e').
Context (Hcmd : id (e_command e') = id (e_command e)).
Context (Hok : exec_ok q' r' w' u' p e') (Hsame : same_places p q r w u q' r' w' u').
Context (Hnd : NoDup (q' ++ r' ++ w' ++ u')).
Context (How : ∀ x, x ≠ p → x ∈ ow.*1 → x ∈ ow'.*1).
Context (How_p : e_promise e' = None → ¬ open e' → p ∈ ow'.*1).
Context (How' : ∀ x c, (x, c) ∈ ow' →
  if decide (x = p) then ¬ open e' ∧ status c = rec_status (e_record e') else (x, c) ∈ ow).

Let h' := <[p := e']> h.
Let live (x : ptr) := x ∈ q ++ r ++ w.
Let live' (x : ptr) := x ∈ q' ++ r' ++ w'.

Lemma pool_change (ex' cm' : gmap Z _) :
  (∀ i x, ex' !! i = Some x ↔ i = id_of x ∧ live' x ∧ ∃ e, h' !! x = Some e ∧ open e) →
  (∀ c i, cm' !! c = Some i ↔
     ∃ x e, ex' !! i = Some x ∧ h' !! x = Some e ∧ id (e_command e) = c) →
  (∀ x y, live' p → live x → x ≠ p → h !! x = Some y → id (e_command y) ≠ id (e_command e)) →
  pool_inv h' n q' r' w' u' ow' ex' cm'.
Proof.
  intros Hex Hcm Hdist. subst h' live live'. destruct I as [H1 H2 H3 H4 H5 H6 H7 H8 H9].
  split; try done.
  - intros x y. rewrite lookup_insert_Some. intros [[<- <-]|[? Hx]]; [|by apply H1].
    destruct (H1 p e Hp) as (? & ? & _). split; [done|]. by rewrite Hid.
  - intros x y. rewrite lookup_insert_Some. intros [[<- <-]|[? Hx]]; [done|].
    eapply exec_ok_same; eauto.
  - intros x Hx. destruct (decide (x = p)) as [->|Hne]; [rewrite lookup_insert_eq; eauto|].
    rewrite lookup_insert_ne by done. apply H4.
    destruct (Hsame x Hne) as (Hq & Hr & Hw & Hu). revert Hx. rewrite !elem_of_app. tauto.
  - intros x y. rewrite lookup_insert_Some. intros [[<- <-]|[? Hx]]; eauto.
  - intros x c Hx. specialize (How' x c Hx). destruct (decide (x = p)) as [->|].
    + exists e'. by rewrite lookup_insert_eq.
    + destruct (H6 x c How') as (y & ? & ?). exists y. by rewrite lookup_insert_ne.
  - assert (Hl : ∀ x, x ≠ p → x ∈ q' ++ r' ++ w' → x ∈ q ++ r ++ w).
    { intros x Hx. by apply (same_places_live p q r w u q' r' w' u'). }
    intros x x' y y' Hx Hx'. rewrite !lookup_insert_Some.
    intros [[<- <-]|[? Hy]] [[<- <-]|[? Hy']] Heq; try done.
    + rewrite Hcmd in Heq. destruct (Hdist x' y'); auto.
    + rewrite Hcmd in Heq. destruct (Hdist x y); auto.
    + eauto.
Qed.

(** Neither its place among the outstanding executions changes nor that it
    is open. *)
Lemma pool_change_same :
  (live p ↔ live' p) → (open e ↔ open e') → pool_inv h' n q' r' w' u' ow' ex cm.
Proof.
  intros Hlive Hopen.
  assert (Hl : ∀ x, live' x ↔ live x).
  { intros x. destruct (decide (x = p)) as [->|]; [done|]. by eapply same_places_live. }
  assert (Hho : ∀ x, (∃ y, h' !! x = Some y ∧ open y) ↔ ∃ y, h !! x = Some y ∧ open y).
  { intros x. subst h'. destruct (decide (x = p)) as [->|].
    - rewrite lookup_insert_eq. split; intros (? & ? & ?); simplify_eq; eexists; split; tauto || done.
    - by rewrite lookup_insert_ne. }
  apply pool_change.
  - intros i x. by rewrite (pi_index _ _ _ _ _ _ _ _ _ I), Hl, Hho.
  - intros c i. rewrite (pi_command _ _ _ _ _ _ _ _ _ I). subst h'.
    split; intros (x & y & Hi & Hx & Hc); (destruct (decide (x = p)) as [->|Hne];
      [rewrite ?lookup_insert_eq in *|rewrite ?lookup_insert_ne in * by done]).
    + exists p, e'. rewrite lookup_insert_eq. simplify_eq. auto.
    + exists x, y. by rewrite lookup_insert_ne.
    + exists p, e. simplify_eq. auto.
    + eauto.
  - intros x y Hx Hx' Hne Hy Heq. apply Hl in Hx.
    by apply Hne, (pi_distinct _ _ _ _ _ _ _ _ _ I x p y e).
Qed.

(** It is completed: both indices forget it. *)
Lemma pool_change_completed :
  p ∈ q ++ r ++ w ++ u → (p ∈ q' ++ r' ++ w' → live p) → ¬ open e' →
  pool_inv h' n q' r' w' u' ow' (delete (id_of p) ex)
    (if decide (live p) then delete (id (e_command e)) cm else cm).
Proof.
  intros Hin Hlive' Hclosed.
  assert (Hl : ∀ x, x ≠ p → live' x ↔ live x) by (intros; by eapply same_places_live).
  assert (Hdead : ¬ live p → ex !! id_of p = None).
  { intros Hnl. destruct (ex !! id_of p) as [x|] eqn:Hx; [|done].
    apply (pi_index _ _ _ _ _ _ _ _ _ I) in Hx as (Hx & Hlx & _). apply id_of_inj in Hx as ->.
    by destruct Hnl. }
  assert (Hdist : ∀ x y, live p → live x → x ≠ p → h !! x = Some y →
                    id (e_command y) ≠ id (e_command e)).
  { intros x y Hlp Hlx Hne Hy Heq. by apply Hne, (pi_distinct _ _ _ _ _ _ _ _ _ I x p y e). }
  apply pool_change.
  - intros i x. rewrite lookup_delete_Some, (pi_index _ _ _ _ _ _ _ _ _ I). subst h'.
    destruct (decide (x = p)) as [->|Hne].
    + rewrite lookup_insert_eq. split; [by intros (? & -> & _)|].
      by intros (_ & _ & ? & [= <-] & ?).
    + rewrite lookup_insert_ne by done. fold (live x). rewrite (Hl x Hne).
      split; [tauto|]. intros (-> & ?). split; [|done]. by intros ?%id_of_inj.
  - intros c i. transitivity (cm !! c = Some i ∧ i ≠ id_of p).
    { destruct (decide (live p)) as [Hlp|Hlp].
      - rewrite lookup_delete_Some, !(pi_command _ _ _ _ _ _ _ _ _ I).
        split; [intros [Hc (x & y & Hi & Hy & <-)]|intros [(x & y & Hi & Hy & <-) Hc]].
        + split; [by eauto|]. intros ->. apply (pi_index _ _ _ _ _ _ _ _ _ I) in Hi as (Hx & _).
          apply id_of_inj in Hx as <-. by simplify_eq.
        + split; [|by eauto]. intros Heq. apply (pi_index _ _ _ _ _ _ _ _ _ I) in Hi as (-> & Hx & _).
          destruct (decide (x = p)) as [->|Hne]; [done|]. by apply (Hdist x y).
      - split; [|tauto]. intros Hc. split; [done|]. intros ->.
        apply (pi_command _ _ _ _ _ _ _ _ _ I) in Hc as (x & y & Hi & _). by rewrite Hdead in Hi. }
    rewrite (pi_command _ _ _ _ _ _ _ _ _ I). subst h'. split.
    + intros [(x & y & Hi & Hy & Hc) Hne]. exists x, y. rewrite lookup_delete_ne by done.
      split; [done|]. rewrite lookup_insert_ne; [done|]. intros <-.
      by apply (pi_index _ _ _ _ _ _ _ _ _ I) in Hi as (-> & _).
    + intros (x & y & [Hne Hi]%lookup_delete_Some & Hy & Hc). split; [|done]. exists x, y.
      split; [done|]. rewrite lookup_insert_ne in Hy; [done|]. intros <-.
      by apply (pi_index _ _ _ _ _ _ _ _ _ I) in Hi as (-> & _).
  - intros x y Hx. apply Hdist. by apply Hlive'.
Qed.
End Change.
End Moves.

Section CodeMoves.
Context {h n q r w u ow ex cm} (I : pool_inv h n q r w u ow ex cm).

(** [accept]: an execution enters the queue and both indices. *)
Lemma pool_accept p e e' u' :
  u = p :: u' → w = [] → h !! p = Some e → cm !! id (e_command e) = None →
  executionId (e_record e') = executionId (e_record e) → exec_wf e' →
  id (e_command e') = id (e_command e) →
  e_running e' = false → startedAt (e_record e') = None → open e' → e_promise e' = e_promise e →
  pool_inv (<[p := e']> h) n (p :: q) r w u' ow (<[id_of p := p]> ex)
    (<[id (e_command e) := id_of p]> cm).
Proof.
  intros -> -> Hp Hcm Hid Hwf Hcmd Hrun Hst Hopen Hpr.
  pose proof (pi_nodup _ _ _ _ _ _ _ _ _ I) as Hnd. simpl in Hnd.
  assert (Hnd' : NoDup (p :: q ++ r ++ u')) by (by rewrite !app_assoc, Permutation_middle, <-!app_assoc).
  pose proof Hnd' as [Hnin _]%NoDup_cons. rewrite !elem_of_app in Hnin.
  assert (Hlive : ∀ x y, x ∈ q ++ r ++ [] → h !! x = Some y → ex !! id_of x = Some x).
  { intros x y Hx Hy. apply (pi_index _ _ _ _ _ _ _ _ _ I). split; [done|]. split; [done|].
    exists y. split; [done|]. eapply (pool_open I); [done|].
    revert Hx. rewrite !elem_of_app. rewrite elem_of_nil. tauto. }
  assert (Hdist : ∀ x y, x ∈ q ++ r ++ [] → h !! x = Some y → id (e_command y) ≠ id (e_command e)).
  { intros x y Hx Hy Heq. assert (cm !! id (e_command e) = Some (id_of x)); [|congruence].
    apply (pi_command _ _ _ _ _ _ _ _ _ I). exists x, y. split; [by eapply Hlive|done]. }
  apply (pool_change I Hp Hid Hwf Hcmd); try done.
  - places.
  - intros x Hx. rewrite !elem_of_cons. tauto.
  - intros x c Hx. destruct (decide (x = p)) as [->|]; [|done].
    apply (pi_owed _ _ _ _ _ _ _ _ _ I) in Hx as (y & Hy & Hc & _). simplify_eq.
    destruct Hc. eapply (pool_open I); [done|]. rewrite !elem_of_app, elem_of_cons. tauto.
  - intros i x. rewrite !elem_of_app, elem_of_cons, elem_of_nil.
    destruct (decide (i = id_of p)) as [->|Hi].
    + rewrite lookup_insert_eq. split.
      * intros [= <-]. split; [done|]. split; [tauto|]. exists e'. by rewrite lookup_insert_eq.
      * intros (Hx & _). by apply id_of_inj in Hx as ->.
    + rewrite lookup_insert_ne by done. rewrite (pi_index _ _ _ _ _ _ _ _ _ I).
      rewrite !elem_of_app, elem_of_nil.
      split; intros (-> & Hx & Hy); (split; [done|]).
      * assert (p ≠ x) by congruence. rewrite lookup_insert_ne by done. tauto.
      * assert (p ≠ x) by congruence. rewrite lookup_insert_ne in Hy by done. naive_solver.
  - intros c i. destruct (decide (c = id (e_command e))) as [->|Hc].
    + rewrite lookup_insert_eq. split.
      * intros [= <-]. exists p, e'. by rewrite !lookup_insert_eq.
      * intros (x & y & Hi & Hy & Heq). destruct (decide (i = id_of p)) as [->|Hne]; [done|].
        rewrite lookup_insert_ne in Hi by done.
        apply (pi_index _ _ _ _ _ _ _ _ _ I) in Hi as (-> & Hx & _).
        assert (p ≠ x) by congruence. rewrite lookup_insert_ne in Hy by done.
        by destruct (Hdist x y).
    + rewrite lookup_insert_ne by done. rewrite (pi_command _ _ _ _ _ _ _ _ _ I).
      split; intros (x & y & Hi & Hy & Heq).
      * apply (pi_index _ _ _ _ _ _ _ _ _ I) in Hi as Hix. destruct Hix as (-> & _).
        assert (p ≠ x) by (intros ->; congruence). exists x, y.
        rewrite !lookup_insert_ne by (done || by intros ?%id_of_inj). done.
      * destruct (decide (i = id_of p)) as [->|Hne].
        { rewrite lookup_insert_eq in Hi. simplify_eq. rewrite lookup_insert_eq in Hy. congruence. }
        rewrite lookup_insert_ne in Hi by done.
        apply (pi_index _ _ _ _ _ _ _ _ _ I) in Hi as Hix. destruct Hix as (-> & _).
        assert (p ≠ x) by congruence. rewrite lookup_insert_ne in Hy by done. eauto.
  - intros x y _ Hx _ Hy. by apply (Hdist x).
Qed.

(** [TakeNextExecutionLocked] *)
Lemma pool_take p e q' now :
  q = p :: q' → h !! p = Some e → pool_inv (<[p := taken e now]> h) n q' (p :: r) w u ow ex cm.
Proof.
  intros -> Hp. destruct (pi_heap _ _ _ _ _ _ _ _ _ I p e Hp) as (_ & _ & Hcmd & Hterm & Hpr).
  assert (Hopen : open e).
  { eapply (pool_open I); [done|]. rewrite !elem_of_app, elem_of_cons. tauto. }
  pose proof (pi_nodup _ _ _ _ _ _ _ _ _ I) as Hnd. simpl in Hnd.
  pose proof Hnd as [Hnin _]%NoDup_cons. rewrite !elem_of_app in Hnin.
  apply (pool_change_same I (p := p) (e := e)); try done.
  - split; [done|]. split; [by intros []|]. intros x Hx. by destruct (Hpr x Hx).
  - unfold exec_ok. simpl. places.
  - intros x Hx. rewrite !elem_of_cons. tauto.
  - by rewrite (Permutation_middle q' (r ++ w ++ u) p) in Hnd.
  - intros x c Hx. destruct (decide (x = p)) as [->|]; [|done].
    apply (pi_owed _ _ _ _ _ _ _ _ _ I) in Hx as (y & Hy & Hc & _). by simplify_eq.
  - simpl. rewrite !elem_of_app, !elem_of_cons. tauto.
Qed.

(** A completion, whatever list the execution leaves. *)
Lemma pool_complete p e x now q' r' w' u' :
  h !! p = Some e → p ∈ q ++ r ++ w ++ u → isTerminal (status x) = true →
  (¬ open e → rec_status (e_record e) = status x) →
  same_places p q r w u q' r' w' u' → NoDup (q' ++ r' ++ w' ++ u') →
  p ∉ q' → p ∉ r' → p ∉ u' →
  (p ∈ w' → p ∈ w ∧ status x = StatusCancelled) →
  pool_inv (<[p := completed_exec e x now]> h) n q' r' w' u' ((p, x) :: ow) (delete (id_of p) ex)
    (if decide (p ∈ q ++ r ++ w) then delete (id (e_command e)) cm else cm).
Proof.
  intros Hp Hin Hx Hagain Hsame Hnd Hq Hr Hu Hw.
  destruct (pi_heap _ _ _ _ _ _ _ _ _ I p e Hp) as (_ & _ & Hcmd & Hterm & Hpr).
  pose proof (pi_place _ _ _ _ _ _ _ _ _ I p e Hp) as Hplace.
  apply (pool_change_completed I); try done.
  - split; [done|]. split; [done|]. intros y Hy. split; [done|]. simpl.
    destruct (Hpr y Hy) as [Hclosed ->]. by apply Hagain.
  - unfold exec_ok in *. simpl. split; [tauto|]. split; [tauto|]. split; [|done].
    intros Hw'. destruct (Hw Hw') as [Hpw ->]. split; [done|]. split; [|by right]. by apply Hplace.
  - intros y Hne Hy. simpl. by right.
  - intros _ _. simpl. by left.
  - intros y c [[= -> ->]|Hy]%elem_of_cons; [by destruct (decide (p = p))|].
    destruct (decide (y = p)) as [->|]; [|done]. split; [done|].
    apply (pi_owed _ _ _ _ _ _ _ _ _ I) in Hy as (z & Hz & Hc & ->). simplify_eq. by apply Hagain.
  - intros Hin'. rewrite !elem_of_app in *. destruct Hin' as [?|[?|Hw'%Hw]]; tauto.
Qed.

(** [CompletePromise] *)
Lemma pool_settle p x ow' e :
  ow = (p, x) :: ow' → h !! p = Some e →
  pool_inv (<[p := settled_exec e x]> h) n q r w u ow' ex cm.
Proof.
  intros -> Hp. destruct (pi_owed _ _ _ _ _ _ _ _ _ I p x) as (y & Hy & Hopen & Hst); [by left|].
  simplify_eq. destruct (pi_heap _ _ _ _ _ _ _ _ _ I p e Hp) as (_ & _ & Hcmd & Hterm & Hpr).
  pose proof (pi_place _ _ _ _ _ _ _ _ _ I p e Hp) as Hplace.
  assert (E : e_record (settled_exec e x) = e_record e ∧ e_command (settled_exec e x) = e_command e ∧
              e_running (settled_exec e x) = e_running e ∧
              ∃ z, e_promise (settled_exec e x) = Some z ∧ status z = rec_status (e_record e)).
  { unfold settled_exec. destruct (e_promise e) as [z|] eqn:Ez; simpl; repeat (split; [done|]).
    - exists z. split; [done|]. by apply Hpr.
    - by exists x. }
  destruct E as (E1 & E2 & E3 & z & E4 & E5).
  apply (pool_change_same I (p := p) (e := e)); rewrite ?E1, ?E2; try done.
  - unfold exec_wf, open. rewrite E1, E2, E4. split; [done|]. split; [done|]. by intros c [= <-].
  - unfold exec_ok, open in *. by rewrite E1, E3.
  - apply (pi_nodup _ _ _ _ _ _ _ _ _ I).
  - intros c Hne. simpl. by intros [?|?]%elem_of_cons.
  - intros Hn. by rewrite Hn in E4.
  - intros c d Hc. unfold open. rewrite E1. destruct (decide (c = p)) as [->|]; [|by right].
    destruct (pi_owed _ _ _ _ _ _ _ _ _ I p d) as (y & Hy & ? & ?); [by right|]. by simplify_eq.
  - unfold open. by rewrite E1.
Qed.

(** The deque is swapped out. *)
Lemma pool_withdraw : w = [] → pool_inv h n [] r q u ow ex cm.
Proof.
  intros ->. destruct I as [H1 H2 H3 H4 H5 H6 H7 H8 H9].
  assert (Hl : ∀ x, x ∈ [] ++ r ++ q ↔ x ∈ q ++ r ++ []).
  { intros x. rewrite !elem_of_app, !elem_of_nil. tauto. }
  split; try done.
  - intros p e Hp. specialize (H2 p e Hp). unfold exec_ok in *. rewrite elem_of_nil in *. naive_solver.
  - simpl in *. by rewrite (app_assoc r q u), (Permutation_app_comm r q), <-app_assoc.
  - intros p Hp. apply H4. revert Hp. rewrite !elem_of_app, !elem_of_nil. tauto.
  - intros i p. by rewrite H7, Hl.
  - intros p p' e e'. rewrite !Hl. apply H9.
Qed.
End CodeMoves.

(* ------------------------------------------------------------------ *)
(** ** The history *)

Abbreviation finished out := (λ i, out !! i = None).

(** The history lists the records, each once. *)
Definition listed (order : list Z) (rs : gmap Z CommandExecutionRecord) : Prop :=
  NoDup order ∧ ∀ i, i ∈ order ↔ is_Some (rs !! i).

(** At most [limit] records are of executions that are not outstanding. *)
Definition history_inv (limit : Z) (out : gmap Z ptr) (order : list Z)
    (rs : gmap Z CommandExecutionRecord) : Prop :=
  listed order rs ∧ Z.of_nat (length (filter (finished out) order)) <= limit.

Lemma length_filter_le {A} (P Q : A → Prop) `{∀ x, Decision (P x), ∀ x, Decision (Q x)} l :
  (∀ x, x ∈ l → P x → Q x) → (length (filter P l) <= length (filter Q l))%nat.
Proof.
  induction l as [|x l IH]; intros HPQ; [done|]. rewrite !filter_cons.
  assert (length (filter P l) <= length (filter Q l))%nat.
  { apply IH. intros y Hy. apply HPQ. by right. }
  pose proof (HPQ x (list_elem_of_here _ _)).
  destruct (decide (P x)), (decide (Q x)); simpl; tauto || lia.
Qed.

Lemma listed_size order rs : listed order rs → size rs = length order.
Proof.
  intros [Hnd Hdom]. rewrite <-size_dom.
  replace (dom rs) with (list_to_set (C := gset Z) order); [by apply size_list_to_set|].
  apply set_eq. intros i. by rewrite elem_of_list_to_set, elem_of_dom.
Qed.

(** Pruning only removes, and only what is not outstanding. *)
Lemma prune_removes fuel limit out : ∀ order rs order' rs',
  prune fuel limit out order rs = (order', rs') →
  rs' ⊆ rs ∧ ∀ i x, rs !! i = Some x → is_Some (out !! i) → rs' !! i = Some x.
Proof.
  induction fuel as [|fuel IH]; intros order rs order' rs' H; simplify_eq/=; [auto|].
  destruct (negb _); [by simplify_eq|].
  destruct (list_find _ order) as [[k c]|] eqn:Hf; [|by simplify_eq].
  apply list_find_Some in Hf as (_ & Hc & _).
  destruct (IH _ _ _ _ H) as [Hsub Hkeep]. split.
  - etransitivity; [done|]. apply delete_subseteq.
  - intros i x Hi Hout. apply Hkeep; [|done]. rewrite lookup_delete_ne; [done|].
    intros ->. rewrite Hc in Hout. by destruct Hout.
Qed.

(** It keeps the history in step with the records and, given enough fuel,
    meets the limit. *)
Lemma prune_history fuel limit out : ∀ order rs order' rs',
  0 <= limit → listed order rs → (length order <= fuel)%nat →
  prune fuel limit out order rs = (order', rs') → history_inv limit out order' rs'.
Proof.
  induction fuel as [|fuel IH]; intros order rs order' rs' Hlimit Hl Hfuel H; simplify_eq/=.
  { destruct order'; [|simpl in Hfuel; lia]. split; [done|]. simpl. lia. }
  destruct (negb _) eqn:Hguard.
  - simplify_eq. split; [done|]. pose proof (listed_size _ _ Hl) as Hsize.
    pose proof (length_filter (finished out) order'). apply negb_true_iff, andb_false_iff in Hguard.
    destruct Hguard as [Hg|Hg]; [apply Z.ltb_ge in Hg; lia|].
    case_bool_decide as He; [|done]. subst. simpl. lia.
  - destruct (list_find _ order) as [[k c]|] eqn:Hf.
    + apply list_find_Some in Hf as (Hk & Hc & _). eapply IH; [done| | |done].
      * destruct Hl as [Hnd Hdom]. split; [by apply NoDup_delete|].
        intros i. rewrite (elem_of_delete_NoDup _ _ c) by done. rewrite Hdom, lookup_delete_is_Some.
        split; intros []; split; done || by symmetry.
      * pose proof (length_delete_Some _ _ _ Hk). lia.
    + simplify_eq. split; [done|]. apply list_find_None in Hf.
      destruct (filter (finished out) order') as [|i l] eqn:Ef; [simpl; lia|].
      assert (Hi : i ∈ filter (finished out) order') by (rewrite Ef; by left).
      apply list_elem_of_filter in Hi as [Hp Hi]. rewrite Forall_forall in Hf. by destruct (Hf i Hi).
Qed.

(** What [PruneHistoryLocked] does to a state. *)
Lemma PruneHistoryLocked_spec s :
  ∃ order rs,
    PruneHistoryLocked s = s <| history_order := order |> <| records := rs |> ∧
    rs ⊆ records s ∧
    (∀ i x, records s !! i = Some x → is_Some (executions s !! i) → rs !! i = Some x) ∧
    (0 <= maximumHistorySize (options s) → listed (history_order s) (records s) →
     history_inv (maximumHistorySize (options s)) (executions s) order rs).
Proof.
  unfold PruneHistoryLocked. destruct (prune _ _ _ _ _) as [order rs] eqn:E. exists order, rs.
  split; [done|]. destruct (prune_removes _ _ _ _ _ _ _ E). split; [done|]. split; [done|].
  intros. by eapply prune_history.
Qed.
