(* ===== verification/PipelineProofs.v ===== *)
(** * Properties of the execution pipeline

    The invariant of the reachable states of [CommandPipeline], kept by every
    transition, and the properties that follow from it. *)

From S2P Require Import Prelude Command Workers CommandPipeline PipelineStore.

Open Scope Z_scope.

(* ------------------------------------------------------------------ *)
(** ** The invariant *)

Definition call_submits (c : ClientCall) : option ptr :=
  match c with CallSubmit p | CallReject p _ => Some p | CallSettle _ _ => None end.

Definition call_owes (c : ClientCall) : option (ptr * CommandResult) :=
  match c with CallSettle p l => Some (p, l_result l) | _ => None end.

Definition worker_owes (pc : WorkerPc Locals) : option (ptr * CommandResult) :=
  match pc with WorkerDelivering p l => Some (p, l_result l) | _ => None end.

(** Executions inside [Submit]. *)
Definition submitting (cs : list ClientCall) : list ptr := omap call_submits cs.

(** Executions a shutdown has still to complete. *)
Definition withdrawn (ph : ShutdownPhase) : list ptr :=
  match ph with
  | ShutdownCancelling l | ShutdownSettling _ _ l => l
  | _ => []
  end.

(** Promises that a thread is about to complete. *)
Definition owed (ph : ShutdownPhase) (cs : list ClientCall) (ws : list (WorkerPc Locals)) :
    list (ptr * CommandResult) :=
  match ph with ShutdownSettling p l _ => [(p, l_result l)] | _ => [] end ++
  omap call_owes cs ++ omap worker_owes ws.

(** Results that are known but not recorded. *)
Definition call_result (c : ClientCall) : option CommandResult :=
  match c with CallReject _ r => Some r | _ => None end.

Definition worker_result (pc : WorkerPc Locals) : option CommandResult :=
  match pc with WorkerFinished _ l => Some (l_result l) | _ => None end.

Definition unrecorded (cs : list ClientCall) (ws : list (WorkerPc Locals)) : list CommandResult :=
  omap call_result cs ++ omap worker_result ws.

Definition terminal (r : CommandResult) : Prop := isTerminal (status r) = true.

Record pipe_inv (o : CommandExecutionPipelineOptions) (s : PipelineState) : Prop := {
  vi_options : options s = o;
  vi_pool : pool_inv (heap s) (next_ptr s) (queue s) (running_tasks (workers s)) (withdrawn (shutdown_phase s))
              (submitting (calls s)) (owed (shutdown_phase s) (calls s) (workers s)) (executions s) (command_to_execution s);
  vi_next : next_execution_id s = id_of (next_ptr s) mod u64_modulus;
  vi_records i x : records s !! i = Some x →
    ∃ p e, heap s !! p = Some e ∧ i = id_of p ∧ x = e_record e ∧ p ∉ submitting (calls s);
  vi_recorded i : is_Some (executions s !! i) → is_Some (records s !! i);
  vi_history : accepting s = true →
    history_inv (maximumHistorySize o) (executions s) (history_order s) (records s);
  vi_terminal : Forall terminal (unrecorded (calls s) (workers s));
  vi_running : running_count s = Z.of_nat (length (running_tasks (workers s)));
  vi_workers : length (workers s) = workerCount o;
  vi_watermark : queue_size s <= highWatermark (metrics s) <= maximumQueueSize o;
  vi_accepting : accepting s = negb (shutdown_in_progress s || shutdown_complete s);
  vi_closed : accepting s = false → queue s = [];
  vi_stop : stop_requested s = true → accepting s = false;
  vi_phase : shutdown_in_progress s =
    match shutdown_phase s with NoShutdown => false | _ => true end;
  vi_complete : shutdown_complete s = true →
    all_exited (workers s) = true ∧ shutdown_in_progress s = false;
}.

(** Fewer executions were submitted than there are numbers for them. *)
Definition numbered (s : PipelineState) : Prop := Z.of_nat (next_ptr s) < u64_modulus.

(** The options a client can pass: the counts are 64-bit words. *)
Definition options_ok (o : CommandExecutionPipelineOptions) : Prop :=
  is_u64 (maximumQueueSize o) ∧ is_u64 (Z.of_nat (workerCount o)) ∧
  is_u64 (maximumHistorySize o).

Lemma omap_replicate_None {A B} (f : A → option B) k x : f x = None → omap f (replicate k x) = [].
Proof. intros Hf. induction k; simpl; [done|]. by rewrite Hf. Qed.

Lemma pipeline_initial_inv o s : options_ok o → initial true o = inr s → pipe_inv o s.
Proof.
  intros ([Hq _] & _ & [Hh _]). unfold initial. intros H. guards_in H.
  split; simpl; try done; unfold submitting, owed, unrecorded; simpl.
  - rewrite running_tasks_replicate, omap_replicate_None by done. apply pool_inv_empty.
  - intros i. rewrite lookup_empty. by intros [].
  - intros _. split; [|done]. split; [constructor|]. intros i. rewrite lookup_empty.
    split; [by intros ?%elem_of_nil|by intros []].
  - by rewrite omap_replicate_None.
  - by rewrite running_tasks_replicate.
  - by rewrite length_replicate.
Qed.

Lemma omap_insert_same {A B} (f : A → option B) (l : list A) k x y :
  l !! k = Some x → f x = f y → omap f (<[k := y]> l) = omap f l.
Proof.
  intros Hk Hf. rewrite insert_take_drop by (by eapply lookup_lt_Some).
  rewrite <-(take_drop_middle l k x Hk) at 3. rewrite !omap_app. simpl. by rewrite Hf.
Qed.

(** The pool of executions of a state, up to the order of its lists. *)
Lemma vi_pool_lists {o s} q r w u ow (I : pipe_inv o s) :
  queue s ≡ₚ q → running_tasks (workers s) ≡ₚ r → withdrawn (shutdown_phase s) ≡ₚ w → submitting (calls s) ≡ₚ u →
  owed (shutdown_phase s) (calls s) (workers s) ≡ₚ ow →
  pool_inv (heap s) (next_ptr s) q r w u ow (executions s) (command_to_execution s).
Proof. intros. by eapply (pool_inv_lists _ _ _ _ _ (vi_pool _ _ I)). Qed.

Lemma withdrawn_nil o s : pipe_inv o s → accepting s = true → withdrawn (shutdown_phase s) = [].
Proof.
  intros I Hacc. rewrite (vi_accepting _ _ I) in Hacc. pose proof (vi_phase _ _ I) as Hp.
  unfold withdrawn. destruct (shutdown_phase s); [done|..]; by rewrite Hp in Hacc.
Qed.

(** Records stay those of their executions when others change. *)
Lemma records_other o s p (e : Execution) i x :
  pipe_inv o s → records s !! i = Some x → i ≠ id_of p →
  ∃ p' e', (<[p := e]> (heap s)) !! p' = Some e' ∧ i = id_of p' ∧ x = e_record e' ∧ p' ∉ submitting (calls s).
Proof.
  intros I Hi Hne. destruct (vi_records _ _ I i x Hi) as (p' & e' & Hp' & -> & -> & Hsub).
  exists p', e'. rewrite lookup_insert_ne; [done|]. by intros ->.
Qed.

Lemma Submit_begin_inv o c now s :
  numbered (Submit_begin c now s) → pipe_inv o s → pipe_inv o (Submit_begin c now s).
Proof.
  unfold numbered. simpl. intros Hn I.
  pose proof (pool_fresh (vi_pool _ _ I)) as Hfresh.
  unfold Submit_begin in *.
  pose proof I as [<- Ipool Hnext Hrec ? ? ? ? ? ? ? ? ? ? ?]. split; simpl; try done.
  - eapply pool_inv_lists.
    + eapply (pool_submit Ipool); simpl.
      * rewrite Hnext, Z.mod_small; [done|]. unfold id_of. lia.
      * split; [done|]. split; [by intros []|done].
      * done.
      * done.
      * done.
    + done.
    + done.
    + done.
    + unfold submitting. simpl. rewrite omap_app. apply Permutation_cons_append.
    + unfold owed. simpl. rewrite omap_app. simpl. by rewrite app_nil_r.
  - rewrite Hnext. unfold id_of, u64_incr. rewrite Zplus_mod_idemp_l. f_equal. lia.
  - intros i x Hi. destruct (decide (i = id_of (next_ptr s))) as [->|Hne].
    + destruct (Hrec _ _ Hi) as (p & e & Hp & E & _). apply id_of_inj in E as <-. congruence.
    + destruct (records_other _ s (next_ptr s) (new_execution (next_execution_id s) c now) i x I Hi Hne)
        as (p & e & Hp & -> & -> & Hnot). exists p, e. split_and!; try done.
      intros Hin. unfold submitting in Hin. simpl in Hin. rewrite omap_app in Hin.
      apply elem_of_app in Hin as [Hin|Hin]; [done|]. simpl in Hin.
      apply list_elem_of_singleton in Hin as ->. done.
  - unfold unrecorded in *. simpl. rewrite omap_app. simpl. by rewrite app_nil_r.
Qed.

Lemma Forall_omap_insert {A B} (P : B → Prop) (f : A → option B) (l : list A) k x y rest :
  l !! k = Some x → (∀ b, f y = Some b → P b) → Forall P (omap f l ++ rest) →
  Forall P (omap f (<[k := y]> l) ++ rest).
Proof.
  intros Hk Hy. rewrite (omap_insert_Permutation f _ _ _ y Hk), (omap_lookup_Permutation f _ _ _ Hk).
  rewrite !Forall_app. intros [[_ ?] ?]. split_and!; try done.
  destruct (f y); simpl; [|done]. constructor; [by apply Hy|done].
Qed.

Lemma Forall_omap_delete {A B} (P : B → Prop) (f : A → option B) (l : list A) k x rest :
  l !! k = Some x → Forall P (omap f l ++ rest) → Forall P (omap f (delete k l) ++ rest).
Proof.
  intros Hk. rewrite (omap_lookup_Permutation f _ _ _ Hk), !Forall_app. tauto.
Qed.

Lemma ValidateForSubmission_terminal c now r :
  ValidateForSubmission c now = Some r → terminal r.
Proof. unfold ValidateForSubmission, ValidateTimes, terminal. intros H. guards_in H. Qed.

Lemma call_rejected_inv o k p r s :
  calls s !! k = Some (CallSubmit p) → terminal r → pipe_inv o s →
  pipe_inv o (s <| calls ::= insert k (CallReject p r) |>).
Proof.
  intros Hk Hr I. destruct I as [<- Ipool ? Hrec ? ? Hterm ? ? ? ? ? ? ? ?].
  assert (Hsub : submitting (<[k := CallReject p r]> (calls s)) = submitting (calls s)).
  { by eapply omap_insert_same. }
  split; simpl; rewrite ?Hsub; try done.
  - unfold owed. by erewrite (omap_insert_same call_owes).
  - unfold unrecorded in *. simpl. eapply Forall_omap_insert; [done| |done]. by intros b [= <-].
Qed.

(** An execution inside [Submit] is in no container. *)
Lemma submitting_unknown o s p :
  pipe_inv o s → p ∈ submitting (calls s) →
  p ∉ queue s ++ running_tasks (workers s) ++ withdrawn (shutdown_phase s) ∧
  executions s !! id_of p = None ∧ records s !! id_of p = None.
Proof.
  intros I Hp. pose proof (pi_nodup _ _ _ _ _ _ _ _ _ (vi_pool _ _ I)) as Hnd.
  assert (Hlive : p ∉ queue s ++ running_tasks (workers s) ++ withdrawn (shutdown_phase s)).
  { rewrite !app_assoc in Hnd. apply NoDup_app in Hnd as (_ & Hnd & _). intros Hin.
    apply (Hnd p); [|done]. by rewrite <-!app_assoc. }
  split; [done|]. split.
  - destruct (executions s !! id_of p) as [p'|] eqn:E; [|done].
    apply (pi_index _ _ _ _ _ _ _ _ _ (vi_pool _ _ I)) in E as (E & Hin & _).
    by apply id_of_inj in E as <-.
  - destruct (records s !! id_of p) as [x|] eqn:E; [|done].
    destruct (vi_records _ _ I _ _ E) as (p' & e & _ & Heq & _ & Hnot).
    by apply id_of_inj in Heq as <-.
Qed.

Lemma calls_at {s k c} {B} (f : ClientCall → option B) :
  calls s !! k = Some c → omap f (calls s) ≡ₚ option_list (f c) ++ omap f (delete k (calls s)).
Proof. apply omap_lookup_Permutation. Qed.

Lemma accept_inv o k p e now s :
  calls s !! k = Some (CallSubmit p) → heap s !! p = Some e → refusal e s = None →
  pipe_inv o s → pipe_inv o ((accept p e now s) <| calls ::= delete k |>).
Proof.
  intros Hk Hp Href I.
  assert (Hsub : submitting (calls s) ≡ₚ p :: omap call_submits (delete k (calls s))).
  { exact (calls_at call_submits Hk). }
  assert (Hin : p ∈ submitting (calls s)) by (rewrite Hsub; by left).
  destruct (submitting_unknown _ _ _ I Hin) as (Hlive & Hex & Hrecs).
  destruct (pi_heap _ _ _ _ _ _ _ _ _ (vi_pool _ _ I) p e Hp) as (_ & Hid & Hcmd & Hterm & Hpr).
  destruct (pi_place _ _ _ _ _ _ _ _ _ (vi_pool _ _ I) p e Hp) as ((Hrun & Hst & Hopen) & _).
  { by right. }
  unfold refusal in Href. destruct (accepting s) eqn:Hacc; [|done]. simpl in Href.
  case_bool_decide as Hcm; [done|]. case_match eqn:Hsize; [done|]. apply Z.leb_gt in Hsize.
  apply eq_None_not_Some in Hcm.
  pose proof (withdrawn_nil _ _ I Hacc) as Hw.
  pose proof (vi_pool _ _ I) as Ipool. rewrite Hw in Ipool.
  eapply (pool_inv_lists _ _ _ _ _) in Ipool; [|done|done|done|exact Hsub|done].
  destruct I as [<- _ ? Hrec Hrecd Hhist Ht ? ? Hwm ? ? ? ? ?].
  split; simpl; rewrite ?Hid, ?Hcmd; try done.
  - rewrite Hex, Hw. eapply pool_inv_lists.
    + eapply (pool_accept Ipool p e); try done.
      split; [done|]. split; [by intros []|]. simpl. intros x Hx. by destruct (Hpr x Hx).
    + apply Permutation_cons_append.
    + done.
    + done.
    + done.
    + unfold owed. by rewrite (calls_at call_owes Hk).
  - intros i x Hi. unfold emplace_record in Hi. rewrite Hrecs in Hi.
    apply lookup_insert_Some in Hi as [[<- <-]|[Hne Hi]].
    + eexists p, _. rewrite lookup_insert_eq. split_and!; [done..|].
      pose proof (pi_nodup _ _ _ _ _ _ _ _ _ Ipool) as Hnd. rewrite !NoDup_app in Hnd.
      destruct Hnd as (_ & _ & _ & _ & _ & _ & Hnd). by apply NoDup_cons in Hnd as [? _].
    + destruct (Hrec _ _ Hi) as (p' & e' & Hp' & -> & -> & Hnot). exists p', e'.
      rewrite lookup_insert_ne by (by intros ->). split_and!; try done.
      intros Hin'. apply Hnot. rewrite Hsub. by right.
  - rewrite Hex. intros i. unfold emplace_record. rewrite Hrecs.
    rewrite !lookup_insert_is_Some. intros [->|[? ?]]; [by left|]. right. eauto.
  - intros _. destruct (Hhist Hacc) as [[Hnd Hdom] Hlen]. rewrite Hex. unfold emplace_record.
    rewrite Hrecs. split; [split|].
    + apply NoDup_app. split; [done|]. split; [|apply NoDup_singleton].
      intros i Hi ->%list_elem_of_singleton. apply Hdom in Hi as [x Hi]. congruence.
    + intros i. rewrite elem_of_app, list_elem_of_singleton, Hdom, lookup_insert_is_Some'.
      naive_solver.
    + rewrite filter_app, length_app, (filter_cons_False _ (id_of p)), filter_nil by
        (by rewrite lookup_insert_eq). simpl. rewrite Nat.add_0_r.
      etransitivity; [|exact Hlen]. apply Nat2Z.inj_le, length_filter_le. intros i Hi.
      rewrite lookup_insert_ne; [done|]. intros <-. apply Hdom in Hi as [x Hi]. congruence.
  - unfold unrecorded in *. by eapply Forall_omap_delete.
  - unfold queue_size in *. simpl. rewrite length_app. simpl. lia.
  - congruence.
Qed.

(** *** Completions *)

(** What every completion does, whatever thread performs it: [rs] and [order]
    are the records and the history after pruning. *)
Definition pruned (out : gmap Z ptr) (limit : Z) (order0 : list Z)
    (rs0 : gmap Z CommandExecutionRecord) (order : list Z) (rs : gmap Z CommandExecutionRecord) :=
  rs ⊆ rs0 ∧
  (∀ i x, rs0 !! i = Some x → is_Some (out !! i) → rs !! i = Some x) ∧
  (0 <= limit → listed order0 rs0 → history_inv limit out order rs).

Lemma RecordTerminalMetricsLocked_watermark st m :
  highWatermark (RecordTerminalMetricsLocked st m) = highWatermark m.
Proof. by destruct st. Qed.

Lemma CompleteExecutionLocked_spec p x now s s' l :
  CompleteExecutionLocked p x now s = Some (s', l) →
  ∃ e order rs, heap s !! p = Some e ∧ l_result l = x ∧
    s' = s <| heap ::= insert p (completed_exec e x now) |>
           <| executions ::= delete (executionId (e_record e)) |>
           <| command_to_execution ::= delete (commandId (e_record e)) |>
           <| running_count ::= λ n, if e_running e && (0 <? n) then u64_decr n else n |>
           <| metrics ::= RecordTerminalMetricsLocked (status x) |>
           <| history_order := order |> <| records := rs |> ∧
    pruned (delete (executionId (e_record e)) (executions s)) (maximumHistorySize (options s))
      (history_order s)
      (<[executionId (e_record e) := e_record (completed_exec e x now)]> (records s)) order rs.
Proof.
  unfold CompleteExecutionLocked. destruct (heap s !! p) as [e|] eqn:Hp; [|done].
  cbn [mbind option_bind]. intros [= <- <-].
  match goal with |- context [PruneHistoryLocked ?x] => edestruct (PruneHistoryLocked_spec x) as
    (order & rs & -> & Hsub & Hkeep & Hhist) end.
  exists e, order, rs. split_and!; try done.
Qed.

Section Completion.
Context {o : CommandExecutionPipelineOptions} {s : PipelineState} (I : pipe_inv o s).
Context (Hlimit : 0 <= maximumHistorySize o).
Context {p : ptr} {e : Execution} {x : CommandResult} (now : Z).
Context {q : list ptr} {ws : list (WorkerPc Locals)} {cs : list ClientCall} {ph : ShutdownPhase}.
Context {rc : Z} {m : CommandExecutionMetrics} {order : list Z}.
Context {rs : gmap Z CommandExecutionRecord}.
Context (Hp : heap s !! p = Some e) (Hx : terminal x).
Context (Hagain : ¬ open e → rec_status (e_record e) = status x).
Context (Hlive : p ∈ queue s ++ running_tasks (workers s) ++ withdrawn (shutdown_phase s)).
Context (Hsame : same_places p (queue s) (running_tasks (workers s)) (withdrawn (shutdown_phase s))
  (submitting (calls s)) q (running_tasks ws) (withdrawn ph) (submitting cs)).
Context (Hnd : NoDup (q ++ running_tasks ws ++ withdrawn ph ++ submitting cs)).
Context (Hq : p ∉ q) (Hr : p ∉ running_tasks ws) (Hu : p ∉ submitting cs).
Context (Hw : p ∈ withdrawn ph → p ∈ withdrawn (shutdown_phase s) ∧ status x = StatusCancelled).
Context (Howed : owed ph cs ws ≡ₚ (p, x) :: owed (shutdown_phase s) (calls s) (workers s)).
Context (Hcount : rc = Z.of_nat (length (running_tasks ws))).
Context (Hlen : length ws = length (workers s)) (Hsize : (length q <= length (queue s))%nat).
Context (Hm : highWatermark m = highWatermark (metrics s)).
Context (Hterm : Forall terminal (unrecorded cs ws)).
Context (Hphase : match ph with NoShutdown => false | _ => true end =
                  match shutdown_phase s with NoShutdown => false | _ => true end).
Context (Hexit : all_exited (workers s) = true → all_exited ws = true).
Context (Hprune : pruned (delete (id_of p) (executions s)) (maximumHistorySize (options s))
  (history_order s) (<[id_of p := e_record (completed_exec e x now)]> (records s)) order rs).

Lemma completion_inv :
  pipe_inv o (s <| queue := q |> <| workers := ws |> <| calls := cs |> <| shutdown_phase := ph |>
                <| heap ::= insert p (completed_exec e x now) |>
                <| executions ::= delete (id_of p) |>
                <| command_to_execution ::= delete (id (e_command e)) |>
                <| running_count := rc |> <| metrics := m |>
                <| history_order := order |> <| records := rs |>).
Proof.
  destruct I as [<- Ipool ? Hrec Hrecd Hhist _ _ Hlen0 Hwm ? Hclosed ? Hph Hcomp].
  destruct Hprune as (Hsub & Hkeep & Hbound).
  split; simpl; try done.
  - eapply pool_inv_lists; [|done..|symmetry; exact Howed].
    pose proof (pool_complete Ipool p e x now q (running_tasks ws) (withdrawn ph) (submitting cs)) as H.
    destruct (decide _) as [_|Hn] in H; [|by destruct Hn]. apply H; try done.
    revert Hlive. rewrite !elem_of_app. tauto.
  - intros i y Hi. apply (lookup_weaken _ _ _ _ Hi) in Hsub.
    apply lookup_insert_Some in Hsub as [[<- <-]|[Hne Hy]].
    + eexists p, _. by rewrite lookup_insert_eq.
    + destruct (Hrec _ _ Hy) as (p' & e' & Hp' & -> & -> & Hnot). exists p', e'.
      assert (p' ≠ p) by (by intros ->). rewrite lookup_insert_ne by done. split_and!; try done.
      intros Hin. by apply Hnot, (Hsame p').
  - intros i [y Hi]. pose proof Hi as [Hne Hi']%lookup_delete_Some.
    destruct (Hrecd i) as [z Hz]; [by eauto|].
    exists z. apply Hkeep; [by rewrite lookup_insert_ne|by eauto].
  - intros Hacc. apply Hbound; [done|]. destruct (Hhist Hacc) as [[Hnd' Hdom] _].
    split; [done|]. intros i. rewrite Hdom, lookup_insert_is_Some'.
    split; [by right|]. intros [<-|]; [|done]. apply Hrecd.
    exists p. apply (pi_index _ _ _ _ _ _ _ _ _ Ipool). split; [done|]. split; [done|].
    exists e. split; [done|]. eapply (pool_open Ipool); [done|]. revert Hlive.
    assert (Hwd : withdrawn (shutdown_phase s) = []).
    { rewrite vi_accepting0 in Hacc. unfold withdrawn.
      destruct (shutdown_phase s); [done|..]; by rewrite Hph in Hacc. }
    rewrite Hwd, !elem_of_app, elem_of_nil. tauto.
  - by rewrite Hlen.
  - unfold queue_size in *. simpl. lia.
  - intros Hacc. specialize (Hclosed Hacc). rewrite Hclosed in Hsize. by destruct q; [|simpl in *; lia].
  - by rewrite Hphase.
  - intros Hc. destruct (Hcomp Hc) as [? ?]. auto.
Qed.
End Completion.

Lemma elem_of_erase_queue o s p x :
  pipe_inv o s → x ∈ erase_value p (queue s) ↔ x ∈ queue s ∧ x ≠ p.
Proof.
  intros I. apply elem_of_erase_value. pose proof (pi_nodup _ _ _ _ _ _ _ _ _ (vi_pool _ _ I)) as Hnd.
  by apply NoDup_app in Hnd as [? _].
Qed.

Lemma sublist_erase_value (p : ptr) l : erase_value p l `sublist_of` l.
Proof.
  destruct (erase_value_cases p l) as [[_ ->]|(i & _ & ->)]; [done|]. apply sublist_delete.
Qed.

Lemma pipeline_Cancel_inv o i now s s' r :
  0 <= maximumHistorySize o → pipe_inv o s → Cancel i now s = Some (s', r) → pipe_inv o s'.
Proof.
  intros Hlimit I. unfold Cancel. destruct (i =? 0); [by intros [= <- _]|].
  destruct (executions s !! i) as [p|] eqn:Hi; [|by intros [= <- _]].
  destruct (heap s !! p) as [e|] eqn:Hp; [|done]. cbn [mbind option_bind].
  destruct (e_running e) eqn:Hrun; [by intros [= <- _]|].
  destruct (CompleteExecutionLocked _ _ _ _) as [[s1 l]|] eqn:Hc; [|done]. intros [= <- <-].
  apply CompleteExecutionLocked_spec in Hc as (e' & order & rs & Hp' & Hl & -> & Hprune).
  simpl in Hp'. rewrite Hp in Hp'. injection Hp' as <-.
  pose proof (vi_pool _ _ I) as Ipool.
  destruct (pi_heap _ _ _ _ _ _ _ _ _ Ipool p e Hp) as (_ & Hid & Hcmd & _).
  rewrite Hid in *. rewrite Hcmd in *.
  apply (pi_index _ _ _ _ _ _ _ _ _ Ipool) in Hi as (_ & Hlive & e' & Hp' & Hopen).
  rewrite Hp in Hp'. injection Hp' as <-.
  destruct (pi_place _ _ _ _ _ _ _ _ _ Ipool p e Hp) as (_ & Hrunning & _).
  assert (Hnr : p ∉ running_tasks (workers s)) by (intros Hin; destruct (Hrunning Hin); congruence).
  pose proof (pi_nodup _ _ _ _ _ _ _ _ _ Ipool) as Hnd.
  assert (Hnu : p ∉ submitting (calls s)).
  { intros Hin. by apply (submitting_unknown _ _ _ I) in Hin as [? _]. }
  assert (Hsub : submitting (calls s ++ [CallSettle p l]) = submitting (calls s)).
  { unfold submitting. rewrite omap_app. apply app_nil_r. }
  pose proof (length_erase_value p (queue s)).
  eapply (eq_ind _ (pipe_inv o)); [eapply (completion_inv I Hlimit now Hp
    (q := erase_value p (queue s)) (ws := workers s) (cs := calls s ++ [CallSettle p l])
    (ph := shutdown_phase s)); cycle -1; [exact Hprune|..]|cbn; reflexivity].
  all: rewrite ?Hsub.
  - done.
  - by intros [].
  - done.
  - intros y Hy. rewrite elem_of_erase_queue by done. tauto.
  - eapply sublist_NoDup; [done|]. apply sublist_app; [apply sublist_erase_value|done].
  - rewrite elem_of_erase_queue by done. tauto.
  - done.
  - done.
  - done.
  - unfold owed. rewrite omap_app. simpl. rewrite Hl, app_assoc, (app_assoc _ _ [_]), <-app_assoc.
    symmetry. rewrite app_assoc. apply (Permutation_middle _ _ (p, _)).
  - rewrite Hrun. apply (vi_running _ _ I).
  - done.
  - done.
  - done.
  - unfold unrecorded. rewrite omap_app. simpl. rewrite app_nil_r. apply (vi_terminal _ _ I).
  - done.
  - done.
Qed.

(** *** Shutdown *)

Lemma NoDup_places (q r w u : list ptr) p :
  NoDup (q ++ r ++ w ++ u) →
  (p ∈ q → p ∉ r ∧ p ∉ w ∧ p ∉ u) ∧ (p ∈ r → p ∉ q ∧ p ∉ w ∧ p ∉ u) ∧
  (p ∈ w → p ∉ q ∧ p ∉ r ∧ p ∉ u) ∧ (p ∈ u → p ∉ q ∧ p ∉ r ∧ p ∉ w).
Proof.
  rewrite !NoDup_app. intros (_ & Hq & _ & Hr & _ & Hw & _).
  specialize (Hq p). specialize (Hr p). specialize (Hw p). rewrite !elem_of_app in *. tauto.
Qed.

Lemma pipeline_Shutdown_begin_inv o caller s : pipe_inv o s → pipe_inv o (Shutdown_begin caller s).1.
Proof.
  intros I. unfold Shutdown_begin. repeat (case_match; [done|]).
  assert (Hph : shutdown_phase s = NoShutdown).
  { pose proof (vi_phase _ _ I) as Hp. destruct (shutdown_phase s); [done|congruence..]. }
  destruct I as [<- Ipool ? ? ? ? ? ? ? ? ? ? ? ? ?]. rewrite Hph in *. split; simpl; try done.
  - exact (pool_withdraw Ipool eq_refl).
  - unfold queue_size in *. simpl. lia.
  - congruence.
Qed.

Lemma accepting_no_shutdown o s : pipe_inv o s → shutdown_phase s ≠ NoShutdown → accepting s = false.
Proof.
  intros I Hph. rewrite (vi_accepting _ _ I), (vi_phase _ _ I). by destruct (shutdown_phase s).
Qed.

Lemma Shutdown_stop_inv o s :
  shutdown_phase s = ShutdownCancelling [] → pipe_inv o s →
  pipe_inv o (s <| stop_requested := true |> <| shutdown_phase := ShutdownJoining |>).
Proof.
  intros Hph I. pose proof (accepting_no_shutdown _ _ I) as Hacc. rewrite Hph in Hacc.
  destruct I. rewrite Hph in *. split; simpl; try done. intros _. by apply Hacc.
Qed.

Lemma Shutdown_next_inv o now s s' :
  0 <= maximumHistorySize o → pipe_inv o s → Shutdown_next now s = Some s' → pipe_inv o s'.
Proof.
  intros Hlimit I. unfold Shutdown_next. destruct (shutdown_phase s) as [|[|p rest]| |] eqn:Hph; try done.
  { case_match; [done|]. intros [= <-]. by apply Shutdown_stop_inv. }
  case_match; [done|].
  destruct (CompleteExecutionLocked _ _ _ _) as [[s1 l]|] eqn:Hc; [|done]. intros [= <-].
  apply CompleteExecutionLocked_spec in Hc as (e & order & rs & Hp & Hl & -> & Hprune).
  pose proof (vi_pool _ _ I) as Ipool. pose proof (pi_nodup _ _ _ _ _ _ _ _ _ Ipool) as Hnd.
  destruct (pi_heap _ _ _ _ _ _ _ _ _ Ipool p e Hp) as (_ & Hid & Hcmd & _).
  rewrite Hid in *. rewrite Hcmd in *.
  destruct (pi_place _ _ _ _ _ _ _ _ _ Ipool p e Hp) as (_ & _ & Hwd & _).
  destruct (NoDup_places _ _ _ _ p Hnd) as (_ & _ & Hw & _).
  rewrite Hph in *. simpl in Hw, Hwd. destruct Hw as (Hnq & Hnr & Hnu); [by left|].
  destruct Hwd as (Hrun & _ & Hst); [by left|].
  assert (Hrest : p ∉ rest).
  { rewrite !NoDup_app in Hnd. simpl in Hnd. destruct Hnd as (_ & _ & _ & _ & Hnd & _).
    by apply NoDup_cons in Hnd as [? _]. }
  eapply (eq_ind _ (pipe_inv o)); [eapply (completion_inv I Hlimit now Hp
    (q := queue s) (ws := workers s) (cs := calls s)
    (ph := ShutdownSettling p l rest)); cycle -1; [exact Hprune|..]|cbn; reflexivity].
  all: rewrite ?Hph.
  - done.
  - intros Hclosed. by destruct Hst.
  - simpl. rewrite !elem_of_app, elem_of_cons. tauto.
  - intros y Hy. simpl. rewrite elem_of_cons. tauto.
  - eapply sublist_NoDup; [done|]. simpl. do 2 (apply sublist_app; [done|]). by apply sublist_cons.
  - done.
  - done.
  - done.
  - done.
  - unfold owed. by rewrite Hl.
  - rewrite Hrun. apply (vi_running _ _ I).
  - done.
  - done.
  - done.
  - apply (vi_terminal _ _ I).
  - done.
  - done.
Qed.

(** *** Promises *)

Lemma CompletePromise_eq p x s e :
  heap s !! p = Some e → CompletePromise p x s = s <| heap ::= insert p (settled_exec e x) |>.
Proof.
  intros Hp. unfold CompletePromise, settled_exec. rewrite Hp.
  destruct (e_promise e); [|done]. destruct s; simpl in *. by rewrite insert_id.
Qed.

Section Settling.
Context {o : CommandExecutionPipelineOptions} {s : PipelineState} (I : pipe_inv o s).
Context {p : ptr} {x : CommandResult}.
Context {ws : list (WorkerPc Locals)} {cs : list ClientCall} {ph : ShutdownPhase}.
Context {em : list Emission}.
Context (Howed : owed (shutdown_phase s) (calls s) (workers s) ≡ₚ (p, x) :: owed ph cs ws).
Context (Hrun : running_tasks ws ≡ₚ running_tasks (workers s)).
Context (Hwith : withdrawn ph = withdrawn (shutdown_phase s)).
Context (Hsub : submitting cs ≡ₚ submitting (calls s)).
Context (Hlen : length ws = length (workers s)).
Context (Hterm : Forall terminal (unrecorded cs ws)).
Context (Hphase : match ph with NoShutdown => false | _ => true end =
                  match shutdown_phase s with NoShutdown => false | _ => true end).
Context (Hexit : all_exited (workers s) = true → all_exited ws = true).

Lemma settling_inv :
  pipe_inv o ((CompletePromise p x s) <| emissions := em |> <| workers := ws |> <| calls := cs |>
                <| shutdown_phase := ph |>).
Proof.
  pose proof (vi_pool_lists _ _ _ _ _ I (Permutation_refl _) (symmetry Hrun) (Permutation_refl _)
    (symmetry Hsub) Howed) as Ipool.
  destruct (pi_owed _ _ _ _ _ _ _ _ _ Ipool p x) as (e & Hp & _); [by left|].
  rewrite (CompletePromise_eq _ _ _ _ Hp). pose proof I as I'.
  destruct I' as [<- _ ? Hrec ? ? _ Hcount Hlen0 ? ? ? ? Hph Hcomp]. split; simpl; try done.
  - rewrite Hwith. by eapply (pool_settle Ipool).
  - intros i y Hi. destruct (Hrec _ _ Hi) as (p' & e' & Hp' & -> & -> & Hnot).
    destruct (decide (p' = p)) as [->|Hne].
    + eexists p, _. rewrite lookup_insert_eq, Hsub. split_and!; try done.
      rewrite Hp in Hp'. injection Hp' as ->. unfold settled_exec. by destruct (e_promise e').
    + exists p', e'. rewrite lookup_insert_ne by done. by rewrite Hsub.
  - by rewrite Hrun.
  - by rewrite Hlen.
  - by rewrite Hphase.
  - intros Hc. destruct (Hcomp Hc) as [? ?]. auto.
Qed.
End Settling.

Lemma Shutdown_settle_inv o s s' : pipe_inv o s → Shutdown_settle s = Some s' → pipe_inv o s'.
Proof.
  intros I. unfold Shutdown_settle. destruct (shutdown_phase s) as [| |p l rest|] eqn:Hph; try done.
  intros [= <-].
  eapply (eq_ind _ (pipe_inv o)); [eapply (settling_inv I (p := p) (x := l_result l)
    (ws := workers s) (cs := calls s) (ph := ShutdownCancelling rest))
    |unfold Emit, CompletePromise; repeat case_match; cbn; reflexivity]; rewrite ?Hph; try done.
  apply (vi_terminal _ _ I).
Qed.

Lemma pipeline_Shutdown_end_inv o s s' r : pipe_inv o s → Shutdown_end s = Some (s', r) → pipe_inv o s'.
Proof.
  intros I. unfold Shutdown_end. destruct (shutdown_phase s) eqn:Hph; try done.
  destruct (all_exited (workers s)) eqn:Hall; [|done]. intros [= <- <-].
  pose proof (accepting_no_shutdown _ _ I) as Hacc. rewrite Hph in Hacc.
  destruct (PruneHistoryLocked_spec s) as (order & rs & -> & Hsub & Hkeep & _).
  destruct I as [<- Ipool ? Hrec Hrecd ? ? ? ? ? ? ? ? ? ?]. rewrite Hph in *.
  split; simpl; try done.
  - intros i x Hi. eapply Hrec, lookup_weaken; done.
  - intros i Hi. destruct (Hrecd i Hi) as [x Hx]. exists x. by apply Hkeep.
  - intros H. by rewrite Hacc in H.
  - by rewrite Hacc.
Qed.

(** *** Clients *)

Lemma Client_settle_inv o k s s' : pipe_inv o s → Client_settle k s = Some s' → pipe_inv o s'.
Proof.
  intros I. unfold Client_settle. destruct (calls s !! k) as [[| |p l]|] eqn:Hk; try done.
  intros [= <-].
  eapply (eq_ind _ (pipe_inv o)); [eapply (settling_inv I (p := p) (x := l_result l)
    (ws := workers s) (cs := delete k (calls s)) (ph := shutdown_phase s))
    |unfold Emit, CompletePromise; repeat case_match; cbn; reflexivity]; try done.
  - unfold owed. rewrite (calls_at call_owes Hk). simpl.
    symmetry. apply (Permutation_middle _ _ (p, l_result l)).
  - unfold submitting. by rewrite (calls_at call_submits Hk).
  - eapply Forall_omap_delete; [done|]. apply (vi_terminal _ _ I).
Qed.

Lemma Submit_finish_inv o k now queued_at s s' :
  pipe_inv o s → Submit_finish k now queued_at s = Some s' → pipe_inv o s'.
Proof.
  intros I. unfold Submit_finish. destruct (calls s !! k) as [[p| |]|] eqn:Hk; try done.
  destruct (heap s !! p) as [e|] eqn:Hp; [|done]. cbn [mbind option_bind].
  destruct (ValidateForSubmission _ _) as [v|] eqn:Hv.
  { intros [= <-]. apply call_rejected_inv; [done| |done]. by eapply ValidateForSubmission_terminal. }
  destruct (refusal e s) as [v|] eqn:Href; intros [= <-].
  - apply call_rejected_inv; [done| |done]. unfold refusal in Href. by guards_in Href.
  - by apply accept_inv.
Qed.

Lemma CompleteRejectedExecution_spec p x now s s' l :
  CompleteRejectedExecution p x now s = Some (s', l) →
  ∃ e order rs, heap s !! p = Some e ∧ l_result l = x ∧
    let record := CompleteRecordLocked x now (e_record e) in
    s' = s <| heap ::= insert p (e <| e_record := record |>) |>
           <| metrics ::= RecordTerminalMetricsLocked (status x) |>
           <| history_order := order |> <| records := rs |> ∧
    pruned (executions s) (maximumHistorySize (options s))
      (history_order s ++ [executionId (e_record e)])
      (<[executionId (e_record e) := record]>
         (emplace_record (executionId (e_record e)) (e_record e) (records s))) order rs.
Proof.
  unfold CompleteRejectedExecution. destruct (heap s !! p) as [e|] eqn:Hp; [|done].
  cbn [mbind option_bind]. intros [= <- <-].
  match goal with |- context [PruneHistoryLocked ?x] => edestruct (PruneHistoryLocked_spec x) as
    (order & rs & -> & Hsub & Hkeep & Hhist) end.
  exists e, order, rs. split_and!; try done.
Qed.

Lemma completed_exec_idle e x now :
  e_running e = false →
  e <| e_record := CompleteRecordLocked x now (e_record e) |> = completed_exec e x now.
Proof. destruct e. simpl. by intros ->. Qed.

(** Every entry of the lists a client holds is of a call, so that replacing
    the call replaces its entry. *)
Lemma calls_insert {s k c} c' {B} (f : ClientCall → option B) :
  calls s !! k = Some c →
  omap f (<[k := c']> (calls s)) ≡ₚ option_list (f c') ++ omap f (delete k (calls s)).
Proof. apply omap_insert_Permutation. Qed.

Lemma Submit_reject_inv o k now s s' :
  0 <= maximumHistorySize o → pipe_inv o s → Submit_reject k now s = Some s' → pipe_inv o s'.
Proof.
  intros Hlimit I. unfold Submit_reject. destruct (calls s !! k) as [[|p x|]|] eqn:Hk; try done.
  destruct (CompleteRejectedExecution _ _ _ _) as [[s1 l]|] eqn:Hc; [|done]. intros [= <-].
  apply CompleteRejectedExecution_spec in Hc as (e & order & rs & Hp & Hl & -> & Hprune).
  pose proof (calls_at call_submits Hk) as Hsub. fold (submitting (calls s)) in Hsub. simpl in Hsub.
  pose proof (calls_insert (CallSettle p l) call_submits Hk) as Hsub'. simpl in Hsub'.
  assert (Hin : p ∈ submitting (calls s)) by (rewrite Hsub; by left).
  destruct (submitting_unknown _ _ _ I Hin) as (Hlive & Hex & Hrecs).
  pose proof (vi_pool_lists _ _ _ _ _ I (Permutation_refl _) (Permutation_refl _)
    (Permutation_refl _) Hsub (Permutation_refl _)) as Ipool.
  destruct (pi_heap _ _ _ _ _ _ _ _ _ Ipool p e Hp) as (_ & Hid & _).
  rewrite Hid in *.
  destruct (pi_place _ _ _ _ _ _ _ _ _ Ipool p e Hp) as ((Hrun & Hst & Hopen) & _).
  { right. by left. }
  rewrite (completed_exec_idle _ _ _ Hrun).
  assert (Hx : terminal x).
  { pose proof (vi_terminal _ _ I) as Ht. unfold unrecorded in Ht.
    rewrite (calls_at call_result Hk) in Ht. simpl in Ht. by apply Forall_cons in Ht as [? _]. }
  pose proof (pi_nodup _ _ _ _ _ _ _ _ _ Ipool) as Hnd.
  assert (Hnd' : NoDup (queue s ++ running_tasks (workers s) ++ withdrawn (shutdown_phase s) ++
                        omap call_submits (delete k (calls s)))).
  { eapply sublist_NoDup; [done|]. do 3 (apply sublist_app; [done|]). by apply sublist_cons. }
  assert (Hnu : p ∉ omap call_submits (delete k (calls s))).
  { rewrite !NoDup_app in Hnd. destruct Hnd as (_ & _ & _ & _ & _ & _ & Hnd).
    by apply NoDup_cons in Hnd as [? _]. }
  destruct I as [<- _ ? Hrec Hrecd Hhist Ht ? ? Hwm ? ? ? ? ?].
  destruct Hprune as (Hrs & Hkeep & Hbound). unfold emplace_record in *. rewrite Hrecs, insert_insert_eq in *.
  rewrite !elem_of_app in Hlive.
  split; simpl; try done.
  - pose proof (pool_complete Ipool p e x now (queue s) (running_tasks (workers s))
      (withdrawn (shutdown_phase s)) (omap call_submits (delete k (calls s)))) as Ip.
    rewrite decide_False in Ip by (rewrite !elem_of_app; tauto). rewrite (delete_id (executions s)) in Ip by done.
    eapply pool_inv_lists; [apply Ip| | | | |]; try done.
    + rewrite !elem_of_app, elem_of_cons. tauto.
    + intros y Hy. rewrite elem_of_cons. tauto.
    + tauto.
    + tauto.
    + tauto.
    + unfold owed. rewrite (calls_insert (CallSettle p l) call_owes Hk), (calls_at call_owes Hk).
      simpl. rewrite Hl. apply (Permutation_middle _ _ (p, x)).
  - intros i y Hi. apply (lookup_weaken _ _ _ _ Hi) in Hrs.
    unfold submitting. setoid_rewrite Hsub'.
    apply lookup_insert_Some in Hrs as [[<- <-]|[Hne Hy]].
    + eexists p, _. by rewrite lookup_insert_eq.
    + destruct (Hrec _ _ Hy) as (p' & e' & Hp' & -> & -> & Hnot). exists p', e'.
      assert (p' ≠ p) by (by intros ->). rewrite lookup_insert_ne by done. split_and!; try done.
      intros Hin'. apply Hnot. rewrite Hsub. by right.
  - intros i Hi. destruct (Hrecd i Hi) as [y Hy]. exists y. apply Hkeep; [|done].
    rewrite lookup_insert_ne; [done|]. intros <-. congruence.
  - intros Hacc. apply Hbound; [done|]. destruct (Hhist Hacc) as [[Hndh Hdom] _]. split.
    + apply NoDup_app. split; [done|]. split; [|apply NoDup_singleton].
      intros i Hi ->%list_elem_of_singleton. apply Hdom in Hi as [y Hi]. congruence.
    + intros i. rewrite elem_of_app, list_elem_of_singleton, Hdom, lookup_insert_is_Some'.
      naive_solver.
  - eapply Forall_omap_insert; done.
  - unfold queue_size in *. simpl. by rewrite RecordTerminalMetricsLocked_watermark.
Qed.

Lemma Subscribe_inv o cb s : pipe_inv o s → pipe_inv o (Subscribe cb s).1.
Proof. intros I. unfold Subscribe. destruct cb; [|done]. by destruct I. Qed.

Lemma Unsubscribe_inv o i s : pipe_inv o s → pipe_inv o (Unsubscribe i s).1.
Proof. intros I. unfold Unsubscribe. case_match; [done|]. by destruct I. Qed.

Lemma Emit_callback_inv o k threw s s' :
  pipe_inv o s → Emit_callback k threw s = Some s' → pipe_inv o s'.
Proof.
  intros I. unfold Emit_callback. destruct (emissions s !! k) as [em|]; [|done].
  cbn [mbind option_bind]. destruct (em_callbacks em); intros [= <-]; destruct I; split; try done.
  by destruct threw.
Qed.

(** *** Workers *)

Lemma pipeline_worker_not_exited s w pc :
  workers s !! w = Some pc → pc ≠ WorkerExited → all_exited (workers s) = false.
Proof.
  intros Hw Hpc. apply not_true_iff_false. rewrite all_exited_spec. intros H. by apply Hpc, (H w).
Qed.

Lemma workers_insert {s w pc} pc' {B} (f : WorkerPc Locals → option B) :
  workers s !! w = Some pc →
  option_list (f pc) ++ omap f (<[w := pc']> (workers s)) ≡ₚ
  option_list (f pc') ++ omap f (workers s).
Proof.
  intros Hw. rewrite (omap_insert_Permutation _ _ _ _ pc' Hw), (omap_lookup_Permutation _ _ _ _ Hw).
  apply Permutation_app_swap_app.
Qed.

(** A worker that only moves between states in which it holds the same. *)
Lemma worker_moves_inv o s w pc pc' ids :
  workers s !! w = Some pc → pc ≠ WorkerExited → running_of pc = running_of pc' →
  worker_owes pc = worker_owes pc' → (∀ x, worker_result pc' = Some x → terminal x) →
  pipe_inv o s → pipe_inv o (s <| worker_ids := ids |> <| workers ::= insert w pc' |>).
Proof.
  intros Hw Hpc Hr Ho Hres I. pose proof (pipeline_worker_not_exited _ _ _ Hw Hpc) as Hex.
  assert (Hrun : running_tasks (<[w := pc']> (workers s)) = running_tasks (workers s)).
  { by eapply omap_insert_same. }
  destruct I. split; simpl; rewrite ?Hrun; try done.
  - unfold owed. by erewrite (omap_insert_same worker_owes).
  - unfold unrecorded in *. rewrite Permutation_app_comm in *. by eapply Forall_omap_insert.
  - by rewrite length_insert.
  - intros Hc. destruct (vi_complete0 Hc) as [Ha _]. congruence.
Qed.

Lemma pipeline_Run_register_inv o w s s' : pipe_inv o s → Run_register w s = Some s' → pipe_inv o s'.
Proof.
  intros I. unfold Run_register. destruct (workers s !! w) as [[]|] eqn:Hw; try done.
  intros [= <-]. by eapply worker_moves_inv.
Qed.

Lemma execution_result_terminal c now out later : terminal (execution_result c now out later).
Proof.
  unfold execution_result, terminal. repeat case_match; simplify_eq/=; done || by destruct (isTerminal _).
Qed.

Lemma pipeline_Run_execute_inv o w now out later s s' :
  pipe_inv o s → Run_execute w now out later s = Some s' → pipe_inv o s'.
Proof.
  intros I. unfold Run_execute. destruct (workers s !! w) as [[]|] eqn:Hw; try done.
  case_match; [done|]. destruct (heap s !! p) as [e|]; [|done]. cbn [mbind option_bind].
  intros [= <-].
  eapply (eq_ind _ (pipe_inv o)); [eapply (worker_moves_inv o s w _ _ (worker_ids s) Hw)
    |cbn; reflexivity]; try done.
  intros x [= <-]. apply execution_result_terminal.
Qed.

Lemma pipeline_Run_deliver_inv o w s s' : pipe_inv o s → Run_deliver w s = Some s' → pipe_inv o s'.
Proof.
  intros I. unfold Run_deliver. destruct (workers s !! w) as [[]|] eqn:Hw; try done.
  intros [= <-]. pose proof (pipeline_worker_not_exited _ _ _ Hw) as Hex.
  eapply (eq_ind _ (pipe_inv o)); [eapply (settling_inv I (p := p) (x := l_result r)
    (ws := <[w := WorkerWaiting]> (workers s)) (cs := calls s) (ph := shutdown_phase s))
    |unfold Emit, CompletePromise; repeat case_match; cbn; reflexivity]; try done.
  - unfold owed. pose proof (workers_insert WorkerWaiting worker_owes Hw) as Ho. simpl in Ho.
    rewrite <-Ho, !(app_assoc _ (omap call_owes (calls s))).
    symmetry. apply (Permutation_middle _ _ (p, l_result r)).
  - unfold running_tasks. by erewrite (omap_insert_same running_of).
  - by rewrite length_insert.
  - unfold unrecorded. rewrite Permutation_app_comm. eapply Forall_omap_insert; [done|done|].
    rewrite Permutation_app_comm. apply (vi_terminal _ _ I).
  - intros Ha. by rewrite Hex in Ha.
Qed.

Lemma pipeline_Run_record_inv o w now s s' :
  0 <= maximumHistorySize o → Z.of_nat (workerCount o) < u64_modulus →
  pipe_inv o s → Run_record w now s = Some s' → pipe_inv o s'.
Proof.
  intros Hlimit Hcount I. unfold Run_record. destruct (workers s !! w) as [[| | |p l0| |]|] eqn:Hw; try done.
  destruct (CompleteExecutionLocked _ _ _ _) as [[s1 l]|] eqn:Hc; [|done]. intros [= <-].
  apply CompleteExecutionLocked_spec in Hc as (e & order & rs & Hp & Hl & -> & Hprune).
  pose proof (pipeline_worker_not_exited _ _ _ Hw) as Hex.
  pose proof (running_tasks_move _ _ _ (WorkerDelivering p l) Hw) as Hr. simpl in Hr.
  pose proof (vi_pool _ _ I) as Ipool. pose proof (pi_nodup _ _ _ _ _ _ _ _ _ Ipool) as Hnd.
  assert (Hin : p ∈ running_tasks (workers s)) by (rewrite <-Hr; by left).
  destruct (NoDup_places _ _ _ _ p Hnd) as (_ & Hplaces & _). destruct (Hplaces Hin) as (Hnq & Hnw & Hnu).
  destruct (pi_heap _ _ _ _ _ _ _ _ _ Ipool p e Hp) as (_ & Hid & Hcmd & _).
  rewrite Hid in *. rewrite Hcmd in *.
  destruct (pi_place _ _ _ _ _ _ _ _ _ Ipool p e Hp) as (_ & Hrun & _).
  destruct (Hrun Hin) as (Hrunning & _ & Hopen).
  assert (Hnr : p ∉ running_tasks (<[w := WorkerDelivering p l]> (workers s))).
  { rewrite <-Hr in Hnd. rewrite !NoDup_app in Hnd. destruct Hnd as (_ & _ & Hnd & _).
    by apply NoDup_cons in Hnd as [? _]. }
  pose proof (running_tasks_bound (workers s)) as Hbound. pose proof (vi_workers _ _ I) as Hlen.
  eapply (eq_ind _ (pipe_inv o)); [eapply (completion_inv I Hlimit now Hp
    (q := queue s) (ws := <[w := WorkerDelivering p l]> (workers s)) (cs := calls s)
    (ph := shutdown_phase s)); cycle -1; [exact Hprune|..]|cbn; reflexivity]; try done.
  - pose proof (vi_terminal _ _ I) as Ht. rewrite Forall_forall in Ht. apply Ht.
    apply elem_of_app. right. apply list_elem_of_omap. exists (WorkerFinished p l0).
    split; [by eapply list_elem_of_lookup_2|done].
  - rewrite !elem_of_app. tauto.
  - intros y Hy. rewrite <-Hr, elem_of_cons. tauto.
  - eapply sublist_NoDup; [rewrite <-Hr in Hnd; exact Hnd|]. apply sublist_app; [done|].
    apply sublist_app; [by apply sublist_cons|done].
  - unfold owed. pose proof (workers_insert (WorkerDelivering p l) worker_owes Hw) as Ho.
    simpl in Ho. rewrite Ho, Hl, !(app_assoc _ (omap call_owes (calls s))).
    symmetry. apply (Permutation_middle _ _ (p, l_result l0)).
  - rewrite Hrunning, (vi_running _ _ I). pose proof (Permutation_length Hr) as Hlr. simpl in Hlr.
    rewrite (proj2 (Z.ltb_lt 0 _)) by lia. simpl. rewrite u64_decr_small; lia.
  - by rewrite length_insert.
  - by rewrite RecordTerminalMetricsLocked_watermark.
  - unfold unrecorded. rewrite Permutation_app_comm. eapply Forall_omap_insert; [done|done|].
    rewrite Permutation_app_comm. apply (vi_terminal _ _ I).
  - intros Ha. by rewrite Hex in Ha.
Qed.

(** A queue index is one of an execution that waits. *)
Lemma waiting_execution o s i p :
  pipe_inv o s → queue s !! i = Some p →
  ∃ e, heap s !! p = Some e ∧ executionId (e_record e) = id_of p ∧
       executions s !! id_of p = Some p ∧ open e ∧ e_running e = false ∧
       startedAt (e_record e) = None.
Proof.
  intros I Hi. pose proof (vi_pool _ _ I) as Ipool.
  assert (Hq : p ∈ queue s) by (by eapply list_elem_of_lookup_2).
  destruct (pi_held _ _ _ _ _ _ _ _ _ Ipool p) as [e Hp]; [by apply elem_of_app; left|].
  exists e. destruct (pi_heap _ _ _ _ _ _ _ _ _ Ipool p e Hp) as (_ & Hid & _).
  destruct (pi_place _ _ _ _ _ _ _ _ _ Ipool p e Hp) as ((Hrun & Hst & Hopen) & _); [by left|].
  split_and!; try done. apply (pi_index _ _ _ _ _ _ _ _ _ Ipool).
  split; [done|]. split; [by apply elem_of_app; left|]. eauto.
Qed.

Lemma start_inv o w i p e now s em :
  Z.of_nat (workerCount o) < u64_modulus → pipe_inv o s →
  workers s !! w = Some WorkerWaiting → queue s !! i = Some p → heap s !! p = Some e →
  let running := u64_incr (running_count s) in
  pipe_inv o
    (s <| queue ::= delete i |>
       <| heap ::= insert p (taken e now) |>
       <| records ::= insert (executionId (e_record (taken e now))) (e_record (taken e now)) |>
       <| running_count := running |>
       <| metrics ::= λ m, m
            <| started ::= u64_incr |>
            <| maximumConcurrentRunning ::= λ n, Z.max n running |> |>
       <| emissions := em |>
       <| workers ::= insert w (WorkerExecuting p) |>).
Proof.
  intros Hcount I Hw Hi Hp running.
  destruct (waiting_execution _ _ _ _ I Hi) as (e' & Hp' & Hid & Hex & _).
  rewrite Hp in Hp'. injection Hp' as <-.
  pose proof (pipeline_worker_not_exited _ _ _ Hw) as Hexit.
  pose proof (running_tasks_move _ _ _ (WorkerExecuting p) Hw) as Hr. simpl in Hr.
  pose proof (running_tasks_bound (<[w := WorkerExecuting p]> (workers s))) as Hbound.
  pose proof (Permutation_length Hr) as Hlr. simpl in Hlr. rewrite length_insert in Hbound.
  pose proof (length_delete_Some _ _ _ Hi) as Hlq.
  pose proof (vi_pool_lists _ _ _ _ _ I (delete_Permutation _ _ _ Hi) (Permutation_refl _)
    (Permutation_refl _) (Permutation_refl _) (Permutation_refl _)) as Ipool.
  pose proof (pi_nodup _ _ _ _ _ _ _ _ _ (vi_pool _ _ I)) as Hnd.
  destruct (NoDup_places _ _ _ _ p Hnd) as (Hpl & _). destruct Hpl as (_ & _ & Hnu).
  { by eapply list_elem_of_lookup_2. }
  destruct I as [<- _ ? Hrec Hrecd Hhist Ht Hrc Hlen Hwm ? Hclosed ? ? Hcomp].
  split; simpl; rewrite ?Hid; try done.
  - eapply pool_inv_lists; [by eapply (pool_take Ipool)|done|by rewrite <-Hr|done|done|].
    unfold owed. by erewrite (omap_insert_same worker_owes).
  - intros j x. rewrite lookup_insert_Some. intros [[<- <-]|[Hne Hj]].
    + exists p, (taken e now). rewrite lookup_insert_eq. split_and!; try done. cbn. by rewrite Hid.
    + destruct (Hrec _ _ Hj) as (p' & e' & Hp' & -> & -> & Hnot). exists p', e'.
      rewrite lookup_insert_ne; [done|]. by intros ->.
  - intros j Hj. rewrite lookup_insert_is_Some'. right. by apply Hrecd.
  - intros Hacc. destruct (Hhist Hacc) as [[Hndh Hdom] Hlim]. split; [split; [done|]|done].
    intros j. rewrite Hdom, lookup_insert_is_Some'. split; [by right|]. intros [<-|]; [|done].
    apply Hrecd. by rewrite Hex.
  - unfold unrecorded in *. rewrite Permutation_app_comm in *. by eapply Forall_omap_insert.
  - subst running. rewrite Hrc, u64_incr_small; lia.
  - by rewrite length_insert.
  - unfold queue_size in *. simpl. lia.
  - intros Hacc. rewrite Hclosed in Hi by done. by rewrite lookup_nil in Hi.
  - intros Hc. destruct (Hcomp Hc) as [Ha _]. by rewrite Hexit in Ha.
Qed.

Lemma pipeline_Run_take_cases w now s s' :
  Run_take w now s = Some s' →
  workers s !! w = Some WorkerWaiting ∧
  (s' = s ∨
   s' = s <| worker_ids ::= insert w None |> <| workers ::= insert w WorkerExited |> ∧
     queue s = [] ∧ (stop_requested s || negb (accepting s)) = true ∨
   ∃ i p e, highest_priority s = Some i ∧ queue s !! i = Some p ∧ heap s !! p = Some e ∧
     let running := u64_incr (running_count s) in
     s' = s <| queue ::= delete i |>
       <| heap ::= insert p (taken e now) |>
       <| records ::= insert (executionId (e_record (taken e now))) (e_record (taken e now)) |>
       <| running_count := running |>
       <| metrics ::= λ m, m
            <| started ::= u64_incr |>
            <| maximumConcurrentRunning ::= λ n, Z.max n running |> |>
       <| emissions := emissions s ++ [mkEmission (OwnerWorker w)
            (EventFromRecord (e_record (taken e now))) (CallbackSnapshotLocked s)] |>
       <| workers ::= insert w (WorkerExecuting p) |>).
Proof.
  unfold Run_take. destruct (workers s !! w) as [[]|] eqn:Hw; try done.
  case_match; [done|]. case_match; [|done]. intros H'. split; [done|].
  destruct (highest_priority s) as [i|] eqn:Hi.
  - right; right. unfold TakeNextExecutionLocked in H'.
    destruct (queue s !! i) as [p|] eqn:Hqi; [|done]. cbn [mbind option_bind] in H'.
    destruct (heap s !! p) as [e|] eqn:Hp; [|done]. cbn [mbind option_bind] in H'.
    exists i, p, e. split_and!; try done. revert H'. cbn. rewrite lookup_insert_eq. cbn.
    intros [= <-]. reflexivity.
  - apply max_element_None in Hi. case_match; injection H' as <-; [right; left|left]; done.
Qed.

Lemma pipeline_Run_take_inv o w now s s' :
  Z.of_nat (workerCount o) < u64_modulus → pipe_inv o s → Run_take w now s = Some s' →
  pipe_inv o s'.
Proof.
  intros Hcount I [Hw [->|[(-> & _)|(i & p & e & _ & Hi & Hp & ->)]]]%pipeline_Run_take_cases; [done| |].
  - eapply (eq_ind _ (pipe_inv o)); [eapply (worker_moves_inv o s w _ WorkerExited
      (<[w := None]> (worker_ids s)) Hw)|cbn; reflexivity]; done.
  - by apply start_inv.
Qed.

(** *** Reachable states *)

Lemma CompleteExecutionLocked_next_ptr p x now s s' l :
  CompleteExecutionLocked p x now s = Some (s', l) → next_ptr s' = next_ptr s.
Proof. by intros (e & order & rs & _ & _ & -> & _)%CompleteExecutionLocked_spec. Qed.

Lemma CompletePromise_next_ptr p x s : next_ptr (CompletePromise p x s) = next_ptr s.
Proof. unfold CompletePromise. by repeat case_match. Qed.

(** Only a submission takes an execution number. *)
Lemma exec_next_ptr s l s' : exec s l = Some s' → (next_ptr s <= next_ptr s')%nat.
Proof.
  destruct l; simpl; intros H.
  - injection H as <-. simpl. lia.
  - unfold Submit_finish, refusal in H. guards_in H.
  - unfold Submit_reject in H. destruct (calls s !! k) as [[| |]|]; try done.
    destruct (CompleteRejectedExecution _ _ _ _) as [[s1 l]|] eqn:Hc; [|done]. injection H as <-.
    by apply CompleteRejectedExecution_spec in Hc as (e & order & rs & _ & _ & -> & _).
  - unfold Cancel in H. destruct (execution_id =? 0); [by injection H as <-|].
    destruct (executions s !! execution_id) as [p|]; [|by injection H as <-].
    destruct (heap s !! p) as [e|]; [|done]. cbn [mbind option_bind] in H.
    destruct (e_running e); [by injection H as <-|].
    destruct (CompleteExecutionLocked _ _ _ _) as [[s1 l]|] eqn:Hc; [|done]. injection H as <-.
    apply CompleteExecutionLocked_next_ptr in Hc. simpl in *. by rewrite Hc.
  - unfold Client_settle in H. destruct (calls s !! k) as [[| |]|]; try done. injection H as <-.
    simpl. by rewrite CompletePromise_next_ptr.
  - injection H as <-. unfold Shutdown_begin. by repeat case_match.
  - unfold Shutdown_next in H. destruct (shutdown_phase s) as [|[|p rest]| |]; try done.
    { by guards_in H. }
    case_match; [done|]. destruct (CompleteExecutionLocked _ _ _ _) as [[s1 l]|] eqn:Hc; [|done].
    injection H as <-. apply CompleteExecutionLocked_next_ptr in Hc. simpl. by rewrite Hc.
  - unfold Shutdown_settle in H. destruct (shutdown_phase s); try done. injection H as <-.
    simpl. by rewrite CompletePromise_next_ptr.
  - unfold Shutdown_end in H. destruct (shutdown_phase s); try done. case_match; [|done].
    injection H as <-. by destruct (PruneHistoryLocked_spec s) as (order & rs & -> & _).
  - injection H as <-. by destruct callback.
  - injection H as <-. unfold Unsubscribe. by case_match.
  - unfold Run_register in H. guards_in H.
  - by apply pipeline_Run_take_cases in H as [_ [->|[(-> & _)|(i & p & e & _ & _ & _ & ->)]]].
  - unfold Run_execute in H. guards_in H.
  - unfold Run_record in H. destruct (workers s !! w) as [[]|]; try done.
    destruct (CompleteExecutionLocked _ _ _ _) as [[s1 l]|] eqn:Hc; [|done].
    injection H as <-. apply CompleteExecutionLocked_next_ptr in Hc. simpl. by rewrite Hc.
  - unfold Run_deliver in H. destruct (workers s !! w) as [[]|]; try done. injection H as <-.
    simpl. by rewrite CompletePromise_next_ptr.
  - unfold Emit_callback in H. guards_in H.
Qed.

Lemma pipeline_exec_inv o s l s' :
  options_ok o → numbered s' → pipe_inv o s → exec s l = Some s' → pipe_inv o s'.
Proof.
  intros ([Hq _] & [_ Hcount] & [Hlimit _]) Hn I. destruct l; simpl; intros H.
  - injection H as <-. by apply Submit_begin_inv.
  - by eapply Submit_finish_inv.
  - by eapply Submit_reject_inv.
  - destruct (Cancel _ _ _) as [[]|] eqn:E; simplify_eq/=. by eapply pipeline_Cancel_inv.
  - by eapply Client_settle_inv.
  - injection H as <-. by apply pipeline_Shutdown_begin_inv.
  - by eapply Shutdown_next_inv.
  - by eapply Shutdown_settle_inv.
  - destruct (Shutdown_end s) as [[]|] eqn:E; simplify_eq/=. by eapply pipeline_Shutdown_end_inv.
  - injection H as <-. by apply Subscribe_inv.
  - injection H as <-. by apply Unsubscribe_inv.
  - by eapply pipeline_Run_register_inv.
  - by eapply pipeline_Run_take_inv.
  - by eapply pipeline_Run_execute_inv.
  - by eapply pipeline_Run_record_inv.
  - by eapply pipeline_Run_deliver_inv.
  - by eapply Emit_callback_inv.
Qed.

Lemma run_next_ptr ls : ∀ s s', run exec s ls = Some s' → (next_ptr s <= next_ptr s')%nat.
Proof.
  induction ls as [|l ls IH]; intros s s' H; simplify_eq/=; [done|].
  destruct (exec s l) as [s1|] eqn:E; [|done]. etransitivity; [by eapply exec_next_ptr|by apply IH].
Qed.

Lemma run_inv o ls : ∀ s s',
  options_ok o → numbered s' → pipe_inv o s → run exec s ls = Some s' → pipe_inv o s'.
Proof.
  induction ls as [|l ls IH]; intros s s' Ho Hn I H; simplify_eq/=; [done|].
  destruct (exec s l) as [s1|] eqn:E; [|done]. apply (IH s1 s'); try done.
  eapply pipeline_exec_inv; try done. pose proof (run_next_ptr _ _ _ H). unfold numbered in *. lia.
Qed.

Lemma pipeline_reachable_inv o s : options_ok o → numbered s → reachable o s → pipe_inv o s.
Proof.
  intros Ho Hn (s0 & ls & Hinit & Hrun). eapply run_inv; try done. by apply pipeline_initial_inv.
Qed.

(* ------------------------------------------------------------------ *)
(** ** What one step does to an execution *)

(** An execution that was started, or completed, stays so. *)
Definition progressed (e e' : Execution) : Prop :=
  (is_Some (startedAt (e_record e)) → is_Some (startedAt (e_record e'))) ∧
  (¬ open e → ¬ open e').

#[export] Instance progressed_preorder : PreOrder progressed.
Proof. split; unfold progressed; [by intros e|]. intros e1 e2 e3 [] []. split; auto. Qed.

Definition heap_progressed (h h' : gmap ptr Execution) : Prop :=
  ∀ p e, h !! p = Some e → ∃ e', h' !! p = Some e' ∧ progressed e e'.

#[export] Instance heap_progressed_preorder : PreOrder heap_progressed.
Proof.
  split; unfold heap_progressed.
  - intros h p e Hp. exists e. split; [done|reflexivity].
  - intros h1 h2 h3 H1 H2 p e (e2 & (e3 & ? & ?)%H2 & ?)%H1. exists e3. split; [done|]. by etransitivity.
Qed.

Lemma heap_progressed_insert h p e e' :
  h !! p = Some e → progressed e e' → heap_progressed h (<[p := e']> h).
Proof.
  intros Hp He q d Hq. destruct (decide (q = p)) as [->|Hne].
  - exists e'. rewrite lookup_insert_eq. by simplify_eq.
  - exists d. rewrite lookup_insert_ne by done. split; [done|reflexivity].
Qed.

Lemma completed_progressed e x now : progressed e (completed_exec e x now).
Proof. split; [done|]. by intros _. Qed.

Lemma CompleteExecutionLocked_progressed p x now s s' l :
  CompleteExecutionLocked p x now s = Some (s', l) → heap_progressed (heap s) (heap s').
Proof.
  intros (e & order & rs & Hp & _ & -> & _)%CompleteExecutionLocked_spec. simpl.
  eapply heap_progressed_insert; [done|]. apply completed_progressed.
Qed.

Lemma CompletePromise_progressed p x s : heap_progressed (heap s) (heap (CompletePromise p x s)).
Proof.
  unfold CompletePromise. destruct (heap s !! p) as [e|] eqn:Hp; [|reflexivity].
  destruct (e_promise e); [reflexivity|]. simpl. by eapply heap_progressed_insert.
Qed.

Lemma exec_progressed o s l s' :
  pipe_inv o s → exec s l = Some s' → heap_progressed (heap s) (heap s').
Proof.
  intros I. destruct l; simpl; intros H.
  - injection H as <-. simpl. intros p e Hp. exists e. split; [|reflexivity].
    rewrite lookup_insert_ne; [done|]. intros <-. by rewrite (pool_fresh (vi_pool _ _ I)) in Hp.
  - unfold Submit_finish in H. destruct (calls s !! k) as [[p| |]|]; try done.
    destruct (heap s !! p) as [e|] eqn:Hp; [|done]. cbn [mbind option_bind] in H.
    destruct (ValidateForSubmission _ _); [by injection H as <-|].
    destruct (refusal e s); [by injection H as <-|]. injection H as <-. simpl.
    eapply heap_progressed_insert; [done|]. by split.
  - unfold Submit_reject in H. destruct (calls s !! k) as [[| |]|]; try done.
    destruct (CompleteRejectedExecution _ _ _ _) as [[s1 l]|] eqn:Hc; [|done]. injection H as <-.
    apply CompleteRejectedExecution_spec in Hc as (e & order & rs & Hp & _ & -> & _). simpl.
    eapply heap_progressed_insert; [done|]. split; [done|]. by intros _.
  - unfold Cancel in H. destruct (execution_id =? 0); [by injection H as <-|].
    destruct (executions s !! execution_id) as [p|]; [|by injection H as <-].
    destruct (heap s !! p) as [e|]; [|done]. cbn [mbind option_bind] in H.
    destruct (e_running e); [by injection H as <-|].
    destruct (CompleteExecutionLocked _ _ _ _) as [[s1 l]|] eqn:Hc; [|done]. injection H as <-.
    by apply CompleteExecutionLocked_progressed in Hc.
  - unfold Client_settle in H. destruct (calls s !! k) as [[| |]|]; try done. injection H as <-.
    apply CompletePromise_progressed.
  - injection H as <-. unfold Shutdown_begin. by repeat case_match.
  - unfold Shutdown_next in H. destruct (shutdown_phase s) as [|[|p rest]| |]; try done.
    { by guards_in H. }
    case_match; [done|]. destruct (CompleteExecutionLocked _ _ _ _) as [[s1 l]|] eqn:Hc; [|done].
    injection H as <-. by apply CompleteExecutionLocked_progressed in Hc.
  - unfold Shutdown_settle in H. destruct (shutdown_phase s); try done. injection H as <-.
    apply CompletePromise_progressed.
  - unfold Shutdown_end in H. destruct (shutdown_phase s); try done. case_match; [|done].
    injection H as <-. by destruct (PruneHistoryLocked_spec s) as (order & rs & -> & _).
  - injection H as <-. by destruct callback.
  - injection H as <-. unfold Unsubscribe. by case_match.
  - unfold Run_register in H. guards_in H.
  - apply pipeline_Run_take_cases in H as [_ [->|[(-> & _)|(i & p & e & _ & _ & Hp & ->)]]]; try done.
    simpl. eapply heap_progressed_insert; [done|]. split; [|done]. eauto.
  - unfold Run_execute in H. guards_in H.
  - unfold Run_record in H. destruct (workers s !! w) as [[]|]; try done.
    destruct (CompleteExecutionLocked _ _ _ _) as [[s1 l]|] eqn:Hc; [|done].
    injection H as <-. by apply CompleteExecutionLocked_progressed in Hc.
  - unfold Run_deliver in H. destruct (workers s !! w) as [[]|]; try done. injection H as <-.
    apply CompletePromise_progressed.
  - unfold Emit_callback in H. guards_in H.
Qed.

Lemma run_progressed o ls : ∀ s s',
  options_ok o → numbered s' → pipe_inv o s → run exec s ls = Some s' →
  heap_progressed (heap s) (heap s').
Proof.
  induction ls as [|l ls IH]; intros s s' Ho Hn I H; simplify_eq/=; [done|].
  destruct (exec s l) as [s1|] eqn:E; [|done].
  etransitivity; [by eapply exec_progressed|]. apply IH; try done.
  eapply pipeline_exec_inv; try done. pose proof (run_next_ptr _ _ _ H). unfold numbered in *. lia.
Qed.
