(* ===== verification/PipelineProperties.v ===== *)
(** * What the execution pipeline promises

    The properties of [CommandPipeline] in every reachable state, from the
    invariant of [PipelineProofs]: an execution is run at most once and never
    after it was completed, workers take the best execution of the queue,
    futures get the status of their record, results are counted, the queue
    and the history are bounded, shutdown leaves nothing behind. *)

From S2P Require Import Prelude Command Workers CommandPipeline PipelineStore PipelineProofs.

Open Scope Z_scope.

(* ------------------------------------------------------------------ *)
(** ** A scenario *)

Definition scenario_options : CommandExecutionPipelineOptions := mkPipelineOptions 2 1 1.

Definition scenario_command (i : Z) (p : CommandPriority) : Command :=
  mkCommand i 0 TypeStand p 0 ∅ ∅.

(** Three submissions, of which the last finds its number outstanding; the
    worker starts the execution of higher priority. *)
Definition scenario_start : list Label :=
  [LRegister 0; LSubscribe (Some 7%nat);
   LSubmit (scenario_command 1 PriorityLow) 10; LSubmitFinish 0 11 12;
   LSubmit (scenario_command 2 PriorityHigh) 13; LSubmitFinish 0 14 15;
   LSubmit (scenario_command 1 PriorityCritical) 16; LSubmitFinish 0 17 18;
   LSubmitReject 0 19; LClientSettle 0].

Definition scenario_take : list Label := [LTake 0 20].

(** A shutdown begins; before it completes the execution it withdrew, a
    client cancels this execution. *)
Definition scenario_race : list Label :=
  [LShutdownBegin (ClientThread 0); LCancel 1 21; LClientSettle 0].

Definition scenario_shutdown : list Label :=
  [LShutdownNext 22; LShutdownSettle; LCallback 5 true; LCallback 5 false; LShutdownNext 23].

Definition scenario_finish : list Label :=
  [LCallback 3 false; LCallback 3 false;
   LExecute 0 24 (Returned (Result StatusCompleted "")) 25; LRecord 0 26; LDeliver 0;
   LCallback 4 false; LCallback 4 false; LTake 0 27].

Definition empty_state : PipelineState :=
  match initial true scenario_options with
  | inr s => s
  | inl _ => mkPipelineState scenario_options ∅ 0 [] ∅ ∅ ∅ [] ∅ zero_metrics 0 1 1 0
               false true false NoShutdown false [] [] [] []
  end.

Definition after (ls : list Label) : PipelineState := default empty_state (run exec empty_state ls).

Lemma pipeline_after_reachable ls :
  is_Some (run exec empty_state ls) → reachable scenario_options (after ls).
Proof.
  intros [s Hs]. exists empty_state, ls. split; [done|]. unfold after. by rewrite Hs.
Qed.

Lemma pipeline_scenario_ok : options_ok scenario_options.
Proof. by vm_compute. Qed.

(* ------------------------------------------------------------------ *)
(** ** Selection *)

#[export] Instance execution_order s : StrictWeakOrder (execution_less s).
Proof.
  unfold execution_less. split; intros *;
    repeat match goal with |- context [?a =? ?b] => destruct (Z.eqb_spec a b) end;
    rewrite ?Z.ltb_lt, ?Z.ltb_ge; lia.
Qed.

(** Selection.  The execution a worker starts waited in the queue, which
    keeps the others in order; none of them has a higher priority, nor the
    same priority and an older sequence number. *)
Theorem Pipeline_take_best o s w now s' p :
  options_ok o → numbered s → reachable o s → Run_take w now s = Some s' →
  workers s' !! w = Some (WorkerExecuting p) →
  ∃ i e, queue s !! i = Some p ∧ queue s' = delete i (queue s) ∧
    heap s !! p = Some e ∧ heap s' = <[p := taken e now]> (heap s) ∧
    GetRecord (id_of p) s' = Some (e_record (taken e now)) ∧
    ∀ p', p' ∈ queue s →
      priority_of s p' < priority_of s p ∨
      (priority_of s p' = priority_of s p ∧ sequence_of s p <= sequence_of s p').
Proof.
  intros Ho Hn Hs [Hw [->|[(-> & _)|(i & p1 & e & Hi & Hq & Hp & ->)]]]%pipeline_Run_take_cases Hex.
  - congruence.
  - simpl in Hex. by rewrite list_lookup_insert_eq in Hex by (by eapply lookup_lt_Some).
  - simpl in Hex. rewrite list_lookup_insert_eq in Hex by (by eapply lookup_lt_Some).
    simplify_eq. exists i, e. pose proof (pipeline_reachable_inv _ _ Ho Hn Hs) as I.
    destruct (waiting_execution _ _ _ _ I Hq) as (e' & Hp' & Hid & _). simplify_eq.
    split_and!; try done.
    + unfold GetRecord. cbn. rewrite Hid. by rewrite lookup_insert_eq.
    + intros p' [j Hj]%list_elem_of_lookup.
      apply max_element_spec in Hi as (x & Hx & Hmax & _); [|apply _]. simplify_eq.
      specialize (Hmax _ _ Hj). unfold execution_less in Hmax.
      destruct (Z.eqb_spec (priority_of s x) (priority_of s p')); revert Hmax;
        rewrite Z.ltb_ge; lia.
Qed.

Lemma Pipeline_take_best_witness :
  priority_of (after scenario_start) 0 < priority_of (after scenario_start) 1.
Proof.
  assert (H := Pipeline_take_best scenario_options (after scenario_start) 0 20
    (after (scenario_start ++ scenario_take)) 1 pipeline_scenario_ok).
  destruct H as (i & e & Hi & _ & _ & _ & _ & Hbest).
  - by vm_compute.
  - apply pipeline_after_reachable. vm_compute. eauto.
  - by vm_compute.
  - by vm_compute.
  - destruct (Hbest 0%nat) as [H|[H _]]; [vm_compute; left|exact H|]. vm_compute in H. discriminate H.
Defined.

(* ------------------------------------------------------------------ *)
(** ** At most one run *)

(** The execution whose command a transition hands to the executor. *)
Definition executor_call (s : PipelineState) (l : Label) : option ptr :=
  match l with
  | LExecute w now _ _ =>
      match workers s !! w with
      | Some (WorkerExecuting p) =>
          if emitting (OwnerWorker w) s then None
          else
            e ← heap s !! p;
            if HasExpired (e_command e) now then None else Some p
      | _ => None
      end
  | _ => None
  end.

(** All of them, in order, along a run. *)
Fixpoint executor_calls (ls : list Label) (s : PipelineState) : list ptr :=
  match ls with
  | [] => []
  | l :: ls =>
      option_list (executor_call s l) ++
      match exec s l with Some s' => executor_calls ls s' | None => [] end
  end.

(** What was handed to the executor, or completed. *)
Definition spent (s : PipelineState) (p : ptr) : Prop :=
  (∃ w l, workers s !! w = Some (WorkerFinished p l)) ∨ ∃ e, heap s !! p = Some e ∧ ¬ open e.

Lemma executor_call_executing s l p :
  executor_call s l = Some p → ∃ w now o later, l = LExecute w now o later ∧ workers s !! w = Some (WorkerExecuting p).
Proof.
  unfold executor_call. destruct l as [| | | | | | | | | | | | |w now o later| | |]; try done.
  destruct (workers s !! w) as [[]|] eqn:Hw; try done. case_match; [done|].
  destruct (heap s !! p0); [|done]. simpl. case_match; [done|]. intros [= <-]. by exists w, now, o, later.
Qed.

(** Only its worker takes away what was handed over, and completes it. *)
Lemma finished_step s l s' w p x :
  exec s l = Some s' → workers s !! w = Some (WorkerFinished p x) →
  workers s' !! w = Some (WorkerFinished p x) ∨ ∃ e, heap s' !! p = Some e ∧ ¬ open e.
Proof.
  intros H Hw. destruct l; simpl in H.
  - injection H as <-. by left.
  - left. unfold Submit_finish in H. guards_in H.
  - unfold Submit_reject in H. destruct (calls s !! k) as [[| |]|]; try done.
    destruct (CompleteRejectedExecution _ _ _ _) as [[s1 l]|] eqn:Hc; [|done]. injection H as <-.
    apply CompleteRejectedExecution_spec in Hc as (e & order & rs & _ & _ & -> & _). by left.
  - unfold Cancel in H. destruct (execution_id =? 0); [injection H as <-; by left|].
    destruct (executions s !! execution_id) as [q|]; [|injection H as <-; by left].
    destruct (heap s !! q) as [e|]; [|done]. cbn [mbind option_bind] in H.
    destruct (e_running e); [injection H as <-; by left|].
    destruct (CompleteExecutionLocked _ _ _ _) as [[s1 l]|] eqn:Hc; [|done]. injection H as <-.
    apply CompleteExecutionLocked_spec in Hc as (e' & order & rs & _ & _ & -> & _). by left.
  - unfold Client_settle in H. destruct (calls s !! k) as [[| |]|]; try done. injection H as <-.
    left. simpl. unfold CompletePromise. by repeat case_match.
  - injection H as <-. left. unfold Shutdown_begin. by repeat case_match.
  - unfold Shutdown_next in H. destruct (shutdown_phase s) as [|[|q rest]| |]; try done.
    { left. by guards_in H. }
    case_match; [done|]. destruct (CompleteExecutionLocked _ _ _ _) as [[s1 l]|] eqn:Hc; [|done].
    injection H as <-. apply CompleteExecutionLocked_spec in Hc as (e' & order & rs & _ & _ & -> & _). by left.
  - unfold Shutdown_settle in H. destruct (shutdown_phase s); try done. injection H as <-.
    left. simpl. unfold CompletePromise. by repeat case_match.
  - unfold Shutdown_end in H. destruct (shutdown_phase s); try done. case_match; [|done].
    injection H as <-. left. by destruct (PruneHistoryLocked_spec s) as (order & rs & -> & _).
  - injection H as <-. left. by destruct callback.
  - injection H as <-. left. unfold Unsubscribe. by case_match.
  - left. unfold Run_register in H. destruct (workers s !! w0) as [[]|] eqn:E; try done. injection H as <-. simpl.
    rewrite list_lookup_insert_ne; [done|]. congruence.
  - left. apply pipeline_Run_take_cases in H as [E [->|[(-> & _)|(i & q & e & _ & _ & _ & ->)]]]; [done|..];
      simpl; (rewrite list_lookup_insert_ne; [done|congruence]).
  - left. unfold Run_execute in H. destruct (workers s !! w0) as [[]|] eqn:E; try done. case_match; [done|].
    destruct (heap s !! p0); [|done]. injection H as <-. simpl. rewrite list_lookup_insert_ne; [done|congruence].
  - unfold Run_record in H. destruct (workers s !! w0) as [[]|] eqn:E; try done.
    destruct (CompleteExecutionLocked _ _ _ _) as [[s1 l]|] eqn:Hc; [|done]. injection H as <-.
    apply CompleteExecutionLocked_spec in Hc as (e & order & rs & _ & _ & -> & _). simpl.
    destruct (decide (w0 = w)) as [->|Hne]; [|left; by rewrite list_lookup_insert_ne].
    right. simplify_eq. eexists. by rewrite lookup_insert_eq.
  - left. unfold Run_deliver in H. destruct (workers s !! w0) as [[]|] eqn:E; try done. injection H as <-. simpl.
    assert (Hp : workers (CompletePromise p0 (l_result r) s) = workers s) by (unfold CompletePromise; by repeat case_match).
    rewrite Hp, list_lookup_insert_ne; [done|congruence].
  - left. unfold Emit_callback in H. guards_in H.
Qed.

Lemma spent_step o s l s' p : pipe_inv o s → exec s l = Some s' → spent s p → spent s' p.
Proof.
  intros I H [(w & x & Hw)|(e & Hp & He)].
  - destruct (finished_step _ _ _ _ _ _ H Hw) as [Hw'|Hd]; [left; by exists w, x|by right].
  - right. destruct (exec_progressed _ _ _ _ I H p e Hp) as (e' & Hp' & _ & Ho). exists e'. split; [done|by apply Ho].
Qed.

(** What a worker is about to hand over is not spent; afterwards it is. *)
Lemma executing_not_spent o s w p : pipe_inv o s → workers s !! w = Some (WorkerExecuting p) → ¬ spent s p.
Proof.
  intros I Hw Hs. pose proof (vi_pool _ _ I) as Ipool. pose proof (running_tasks_in _ _ _ _ Hw eq_refl) as Hin.
  destruct Hs as [(w2 & x & Hw2)|(e & Hp & Ho)].
  - pose proof (pi_nodup _ _ _ _ _ _ _ _ _ Ipool) as Hnd. apply NoDup_app in Hnd as (_ & _ & Hnd).
    apply NoDup_app in Hnd as (Hnd & _ & _). unfold running_tasks in Hnd.
    rewrite (omap_lookup_Permutation _ _ _ _ Hw) in Hnd. simpl in Hnd. apply NoDup_cons in Hnd as [Hnd _].
    apply Hnd, list_elem_of_omap. exists (WorkerFinished p x). split; [|done].
    assert (w2 ≠ w) by congruence. destruct (decide (w2 < w)%nat).
    + apply (list_elem_of_lookup_2 _ w2). by rewrite list_lookup_delete_lt.
    + apply (list_elem_of_lookup_2 _ (pred w2)). rewrite list_lookup_delete_ge by lia.
      by replace (S (pred w2)) with w2 by lia.
  - apply Ho. eapply (pool_open Ipool); [done|]. rewrite !elem_of_app. tauto.
Qed.

Lemma executor_call_spent s l s' p : executor_call s l = Some p → exec s l = Some s' → spent s' p.
Proof.
  intros Hc E. destruct (executor_call_executing _ _ _ Hc) as (w & now & oc & later & -> & Hw). simpl in E.
  unfold Run_execute in E. rewrite Hw in E. case_match; [done|]. destruct (heap s !! p); [|done].
  injection E as <-. left. exists w. eexists. simpl.
  by rewrite list_lookup_insert_eq by (by eapply lookup_lt_Some).
Qed.

Lemma run_numbered ls s s' l s1 :
  exec s l = Some s1 → run exec s1 ls = Some s' → numbered s' → numbered s ∧ numbered s1.
Proof.
  intros E R. pose proof (run_next_ptr _ _ _ R). pose proof (exec_next_ptr _ _ _ E). unfold numbered. lia.
Qed.

(** What is spent is not handed over later; and nothing is twice. *)
Lemma executor_calls_fresh o ls : ∀ s s',
  options_ok o → numbered s' → pipe_inv o s → run exec s ls = Some s' →
  NoDup (executor_calls ls s) ∧ ∀ p, spent s p → p ∉ executor_calls ls s.
Proof.
  induction ls as [|l ls IH]; intros s s' Ho Hn I R; simpl.
  { split; [constructor|]. by intros p _ ?%elem_of_nil. }
  simpl in R. destruct (exec s l) as [s1|] eqn:E; [|done]. simpl in R.
  destruct (run_numbered _ _ _ _ _ E R Hn) as [Hn0 Hn1].
  pose proof (pipeline_exec_inv _ _ _ _ Ho Hn1 I E) as I1.
  destruct (IH s1 s' Ho Hn I1 R) as [Hnd Hout]. split.
  - destruct (executor_call s l) as [p|] eqn:Ec; [|done]. simpl. constructor; [|done].
    by apply Hout, (executor_call_spent s l).
  - intros p Hp. rewrite not_elem_of_app. split; [|by apply Hout, (spent_step o s l)].
    destruct (executor_call s l) as [q|] eqn:Ec; [|by intros ?%elem_of_nil].
    apply executor_call_executing in Ec as (w & now & oc & later & _ & Hw). simpl.
    intros ->%list_elem_of_singleton. by apply (executing_not_spent o s w q).
Qed.

Lemma executor_calls_app ls1 ls2 s s1 :
  run exec s ls1 = Some s1 → executor_calls (ls1 ++ ls2) s = executor_calls ls1 s ++ executor_calls ls2 s1.
Proof.
  revert s. induction ls1 as [|l ls1 IH]; intros s R; simpl in *; [by injection R as <-|].
  destruct (exec s l) as [s2|]; [|done]. simpl in R. by rewrite (IH s2 R), app_assoc.
Qed.

(** What was handed over is spent. *)
Lemma executor_calls_spent o ls : ∀ s s' p,
  options_ok o → numbered s' → pipe_inv o s → run exec s ls = Some s' →
  p ∈ executor_calls ls s ∨ spent s p → spent s' p.
Proof.
  induction ls as [|l ls IH]; intros s s' p Ho Hn I R; simpl in *.
  { injection R as <-. by intros [?%elem_of_nil|]. }
  destruct (exec s l) as [s1|] eqn:E; [|done]. simpl in R.
  destruct (run_numbered _ _ _ _ _ E R Hn) as [Hn0 Hn1].
  pose proof (pipeline_exec_inv _ _ _ _ Ho Hn1 I E) as I1. rewrite elem_of_app.
  intros Hp. apply (IH s1 s' p Ho Hn I1 R). destruct Hp as [[Hp|Hp]|Hp]; [right|by left|right].
  - apply (executor_call_spent s l); [|done]. destruct (executor_call s l); [|by apply elem_of_nil in Hp].
    by apply list_elem_of_singleton in Hp as ->.
  - by apply (spent_step o s l).
Qed.

(** A cancellation is accepted only for what is not spent, which it completes. *)
Lemma Cancel_accepted o i now s s' r p :
  pipe_inv o s → Cancel i now s = Some (s', r) → status r = StatusCancelled → executions s !! i = Some p →
  ¬ spent s p ∧ spent s' p.
Proof.
  intros I. unfold Cancel. destruct (i =? 0); [by intros [= _ <-]|]. intros H Hr Hi. rewrite Hi in H.
  destruct (heap s !! p) as [e|] eqn:Hp; [|done]. cbn [mbind option_bind] in H.
  destruct (e_running e) eqn:Erun; [by injection H as _ <-|].
  destruct (CompleteExecutionLocked _ _ _ _) as [[s1 l]|] eqn:Hc; [|done]. injection H as <- <-.
  apply CompleteExecutionLocked_spec in Hc as (e' & order & rs & Hp' & _ & -> & _).
  pose proof (vi_pool _ _ I) as Ipool.
  apply (pi_index _ _ _ _ _ _ _ _ _ Ipool) in Hi as (_ & _ & e2 & Hp2 & Hopen). simplify_eq. split.
  - simpl in Hp'. simplify_eq. intros [(w & x & Hw)|(e3 & Hp3 & Ho)]; [|by simplify_eq].
    destruct (pi_place _ _ _ _ _ _ _ _ _ Ipool p e Hp) as (_ & Hrunning & _).
    destruct (Hrunning (running_tasks_in _ _ _ _ Hw eq_refl)) as [? _]. congruence.
  - right. eexists. simpl. by rewrite lookup_insert_eq.
Qed.

(** C1: The executor is called at most once for each execution; never for one that
    is completed, by a rejection, a shutdown or otherwise; and never at all, before or
    after, for one whose cancellation was accepted, whatever the threads do in
    between. *)
Theorem Pipeline_runs_once o s0 ls s :
  options_ok o → initial true o = inr s0 → run exec s0 ls = Some s → numbered s →
  NoDup (executor_calls ls s0) ∧
  (∀ ls1 ls2 s1 p e, ls = ls1 ++ ls2 → run exec s0 ls1 = Some s1 →
    heap s1 !! p = Some e → is_Some (completedAt (e_record e)) → p ∉ executor_calls ls2 s1) ∧
  (∀ ls1 i now ls2 s1 s2 r p, ls = ls1 ++ LCancel i now :: ls2 → run exec s0 ls1 = Some s1 →
    executions s1 !! i = Some p → Cancel i now s1 = Some (s2, r) → status r = StatusCancelled →
    p ∉ executor_calls ls s0).
Proof.
  intros Ho Hinit R Hn. pose proof (pipeline_initial_inv _ _ Ho Hinit) as I.
  assert (Hsplit : ∀ ls1 ls2 s1, ls = ls1 ++ ls2 → run exec s0 ls1 = Some s1 →
    run exec s1 ls2 = Some s ∧ numbered s1 ∧ pipe_inv o s1).
  { intros ls1 ls2 s1 -> R1. rewrite run_app, R1 in R. simpl in R.
    assert (Hn1 : numbered s1) by (pose proof (run_next_ptr _ _ _ R); unfold numbered in *; lia).
    split_and!; [done|done|]. by eapply run_inv. }
  split_and!.
  - by eapply executor_calls_fresh.
  - intros ls1 ls2 s1 p e Hls R1 Hp [c Hc]. destruct (Hsplit _ _ _ Hls R1) as (R2 & _ & I1).
    eapply executor_calls_fresh; [done|exact Hn|exact I1|exact R2|]. right. exists e. split; [done|].
    unfold open. by rewrite Hc.
  - intros ls1 i now ls2 s1 s2 r p Hls R1 Hi Hc Hr. destruct (Hsplit _ _ _ Hls R1) as (R2 & Hn1 & I1).
    destruct (Cancel_accepted _ _ _ _ _ _ _ I1 Hc Hr Hi) as [Hbefore Hafter].
    simpl in R2. rewrite Hc in R2. simpl in R2. rewrite Hls, (executor_calls_app _ _ _ _ R1).
    simpl. rewrite Hc. simpl. rewrite not_elem_of_app. split.
    + intros Hin. apply Hbefore. eapply executor_calls_spent; [done|exact Hn1|exact I|exact R1|by left].
    + assert (I2 : pipe_inv o s2).
      { eapply pipeline_Cancel_inv; [|exact I1|exact Hc]. apply Ho. }
      eapply executor_calls_fresh; [done|exact Hn|exact I2|exact R2|done].
Qed.

(** Execution 1 is handed over; execution 0 is cancelled, in the middle of a
    shutdown that has withdrawn it. *)
Definition scenario_all : list Label :=
  scenario_start ++ scenario_take ++ scenario_race ++ scenario_shutdown ++ removelast scenario_finish.

Lemma scenario_initial : initial true scenario_options = inr empty_state.
Proof. by vm_compute. Qed.

Lemma scenario_all_runs : run exec empty_state scenario_all = Some (after scenario_all).
Proof. by vm_compute. Qed.

Lemma scenario_all_numbered : numbered (after scenario_all).
Proof. by vm_compute. Qed.

Lemma scenario_cancelled :
  match Cancel 1 21 (after (scenario_start ++ scenario_take ++ firstn 1 scenario_race)) with
  | Some (s, r) => status r = StatusCancelled
  | None => False
  end.
Proof. by vm_compute. Qed.

Lemma scenario_before_cancel :
  run exec empty_state (scenario_start ++ scenario_take ++ firstn 1 scenario_race) =
    Some (after (scenario_start ++ scenario_take ++ firstn 1 scenario_race)).
Proof. by vm_compute. Qed.

Lemma scenario_outstanding :
  executions (after (scenario_start ++ scenario_take ++ firstn 1 scenario_race)) !! 1 = Some 0%nat.
Proof. by vm_compute. Qed.

Lemma scenario_calls : executor_calls scenario_all empty_state = [1%nat].
Proof. by vm_compute. Qed.

Lemma Pipeline_runs_once_witness : NoDup [1%nat] ∧ 0%nat ∉ [1%nat].
Proof.
  destruct (Pipeline_runs_once scenario_options empty_state scenario_all (after scenario_all) pipeline_scenario_ok
    scenario_initial scenario_all_runs scenario_all_numbered) as (H1 & _ & H3).
  rewrite <-scenario_calls. split; [exact H1|].
  pose proof scenario_cancelled as Hc.
  destruct (Cancel 1 21 (after (scenario_start ++ scenario_take ++ firstn 1 scenario_race))) as [[s2 r]|] eqn:E;
    [|destruct Hc].
  exact (H3 (scenario_start ++ scenario_take ++ firstn 1 scenario_race) 1 21
    (skipn 2 scenario_race ++ scenario_shutdown ++ removelast scenario_finish) _ s2 r 0%nat eq_refl
    scenario_before_cancel scenario_outstanding E Hc).
Defined.

(* ------------------------------------------------------------------ *)
(** ** Futures and records *)

(** The value of a future has the terminal status of the record of its
    execution, and a future has no value only while its execution is inside
    [Submit], waits, runs, is withdrawn by a shutdown, or a thread that
    completed it is about to set its promise. *)
Theorem Pipeline_future_agrees o s p e :
  options_ok o → numbered s → reachable o s → heap s !! p = Some e →
  (∀ r, e_promise e = Some r →
     isTerminal (status r) = true ∧ status r = rec_status (e_record e)) ∧
  (e_promise e = None →
     p ∈ submitting (calls s) ∨ p ∈ queue s ∨ p ∈ running_tasks (workers s) ∨
     p ∈ withdrawn (shutdown_phase s) ∨
     p ∈ (owed (shutdown_phase s) (calls s) (workers s)).*1).
Proof.
  intros Ho Hn Hs Hp. pose proof (vi_pool _ _ (pipeline_reachable_inv _ _ Ho Hn Hs)) as Ipool.
  destruct (pi_heap _ _ _ _ _ _ _ _ _ Ipool p e Hp) as (_ & _ & _ & Hterm & Hpr). split.
  - intros r Hr. destruct (Hpr r Hr) as [Hclosed ->]. auto.
  - intros Hnone. destruct (decide (p ∈ queue s)); [tauto|].
    destruct (decide (p ∈ running_tasks (workers s))); [tauto|].
    destruct (decide (p ∈ withdrawn (shutdown_phase s))); [tauto|].
    destruct (decide (p ∈ submitting (calls s))); [tauto|].
    destruct (pi_place _ _ _ _ _ _ _ _ _ Ipool p e Hp) as (_ & _ & _ & Hd).
    destruct Hd as [_ Hclosed]; try done.
    pose proof (pi_unset _ _ _ _ _ _ _ _ _ Ipool p e Hp Hnone Hclosed). tauto.
Qed.

Lemma Pipeline_future_agrees_witness :
  isTerminal (status (Result StatusRejected "Command identifier is already outstanding")) = true.
Proof.
  eapply (Pipeline_future_agrees scenario_options (after scenario_start) 2 _ pipeline_scenario_ok).
  - by vm_compute.
  - apply pipeline_after_reachable. vm_compute. eauto.
  - vm_compute. reflexivity.
  - reflexivity.
Defined.

(** records.  [GetRecord] answers with the current record of the
    execution of that number; the outstanding executions, the ones
    [Contains] knows, are those that wait, run or are withdrawn and are not
    completed, and each of them has a record, however small the history. *)
Theorem Pipeline_records_current o s :
  options_ok o → numbered s → reachable o s →
  (∀ i r, GetRecord i s = Some r → ∃ p e, i = id_of p ∧ heap s !! p = Some e ∧ r = e_record e) ∧
  (∀ i, Contains i s = true ↔ ∃ p e, i = id_of p ∧ heap s !! p = Some e ∧
     p ∈ queue s ++ running_tasks (workers s) ++ withdrawn (shutdown_phase s) ∧
     completedAt (e_record e) = None) ∧
  (∀ i, Contains i s = true → is_Some (GetRecord i s)).
Proof.
  intros Ho Hn Hs. pose proof (pipeline_reachable_inv _ _ Ho Hn Hs) as I.
  unfold GetRecord, Contains. split_and!.
  - intros i r Hi. destruct (vi_records _ _ I i r Hi) as (p & e & ? & ? & ? & _). eauto.
  - intros i. rewrite bool_decide_eq_true. split.
    + intros [p Hi]. apply (pi_index _ _ _ _ _ _ _ _ _ (vi_pool _ _ I)) in Hi as (-> & ? & e & ? & ?).
      eauto 6.
    + intros (p & e & -> & ? & ? & ?). exists p.
      apply (pi_index _ _ _ _ _ _ _ _ _ (vi_pool _ _ I)). eauto 6.
  - intros i. rewrite bool_decide_eq_true. apply (vi_recorded _ _ I).
Qed.

Lemma Pipeline_records_current_witness :
  is_Some (GetRecord 1 (after (scenario_start ++ scenario_take))).
Proof.
  apply (Pipeline_records_current scenario_options); [apply pipeline_scenario_ok|by vm_compute| |].
  - apply pipeline_after_reachable. vm_compute. eauto.
  - by vm_compute.
Defined.

(* ------------------------------------------------------------------ *)
(** ** Accounting *)

Definition terminal_count (m : CommandExecutionMetrics) : Z :=
  completed m + cancelled m + timedOut m + failed m + rejected m.

(** Where the submitted executions are, as the metrics report it. *)
Definition account (s : PipelineState) : Z :=
  Z.of_nat (length (submitting (calls s))) + currentQueued (GetMetrics s) +
  currentRunning (GetMetrics s) + terminal_count (GetMetrics s).

Lemma RecordTerminalMetricsLocked_count st m :
  isTerminal st = true →
  terminal_count (RecordTerminalMetricsLocked st m) ≡₆₄ terminal_count m + 1.
Proof. unfold terminal_count. destruct st; simpl; try done; intros _; congr64. Qed.

Lemma account_eq s :
  account s = Z.of_nat (length (submitting (calls s))) + Z.of_nat (length (queue s)) +
              running_count s + terminal_count (metrics s).
Proof. done. Qed.

Definition accounted (s : PipelineState) : Prop := next_execution_id s ≡₆₄ account s + 1.

Lemma Submit_begin_accounted c now s : accounted s → accounted (Submit_begin c now s).
Proof.
  unfold accounted. rewrite !account_eq. simpl. unfold submitting. rewrite omap_app, length_app.
  simpl. intros H. congr64.
Qed.

Lemma length_submitting {s k c} :
  calls s !! k = Some c →
  length (submitting (calls s)) =
  (length (option_list (call_submits c)) + length (omap call_submits (delete k (calls s))))%nat.
Proof. intros Hk. unfold submitting. by rewrite (calls_at call_submits Hk), length_app. Qed.

Lemma Submit_finish_accounted k now queued_at s s' :
  Submit_finish k now queued_at s = Some s' → accounted s → accounted s'.
Proof.
  unfold Submit_finish. destruct (calls s !! k) as [[p| |]|] eqn:Hk; try done.
  destruct (heap s !! p) as [e|]; [|done]. cbn [mbind option_bind].
  assert (Hrej : ∀ r, accounted s → accounted (s <| calls ::= insert k (CallReject p r) |>)).
  { intros r. unfold accounted. rewrite !account_eq. simpl. unfold submitting.
    by rewrite (omap_insert_same call_submits _ _ _ (CallReject p r) Hk). }
  destruct (ValidateForSubmission _ _); [intros [= <-]; apply Hrej|].
  destruct (refusal e s); intros [= <-]; [apply Hrej|].
  unfold accounted. rewrite !account_eq. simpl. rewrite (length_submitting Hk), length_app.
  unfold terminal_count, submitting. simpl. intros H. congr64.
Qed.

Lemma Submit_reject_accounted o k now s s' :
  pipe_inv o s → Submit_reject k now s = Some s' → accounted s → accounted s'.
Proof.
  intros I. unfold Submit_reject. destruct (calls s !! k) as [[|p x|]|] eqn:Hk; try done.
  destruct (CompleteRejectedExecution _ _ _ _) as [[s1 l]|] eqn:Hc; [|done]. intros [= <-].
  apply CompleteRejectedExecution_spec in Hc as (e & order & rs & _ & _ & -> & _).
  assert (Hx : terminal x).
  { pose proof (vi_terminal _ _ I) as Ht. unfold unrecorded in Ht.
    rewrite (calls_at call_result Hk) in Ht. simpl in Ht. by apply Forall_cons in Ht as [? _]. }
  pose proof (RecordTerminalMetricsLocked_count (status x) (metrics s) Hx) as Hm.
  unfold accounted. rewrite !account_eq. cbn -[RecordTerminalMetricsLocked terminal_count].
  rewrite (length_submitting Hk). unfold submitting.
  rewrite (calls_insert (CallSettle p l) call_submits Hk). simpl.
  generalize dependent (terminal_count (RecordTerminalMetricsLocked (status x) (metrics s))).
  intros t Hm H. congr64.
Qed.

(** A completion moves one execution from where it was to the results. *)
Lemma completion_accounted p x now s s' l :
  CompleteExecutionLocked p x now s = Some (s', l) → isTerminal (status x) = true →
  ∃ e, heap s !! p = Some e ∧ next_execution_id s' = next_execution_id s ∧ queue s' = queue s ∧
    calls s' = calls s ∧ workers s' = workers s ∧ accepting s' = accepting s ∧
    shutdown_phase s' = shutdown_phase s ∧
    running_count s' = (if e_running e && (0 <? running_count s) then u64_decr (running_count s)
                        else running_count s) ∧
    terminal_count (metrics s') ≡₆₄ terminal_count (metrics s) + 1.
Proof.
  intros (e & order & rs & Hp & _ & -> & _)%CompleteExecutionLocked_spec Hx.
  exists e. split_and!; try done. by apply RecordTerminalMetricsLocked_count.
Qed.

Lemma Cancel_accounted o i now s s' r :
  pipe_inv o s → accepting s = true → Cancel i now s = Some (s', r) → accounted s → accounted s'.
Proof.
  intros I Hacc. unfold Cancel. destruct (i =? 0); [by intros [= <- _]|].
  destruct (executions s !! i) as [p|] eqn:Hi; [|by intros [= <- _]].
  destruct (heap s !! p) as [e|] eqn:Hp; [|done]. cbn [mbind option_bind].
  destruct (e_running e) eqn:Hrun; [by intros [= <- _]|].
  destruct (CompleteExecutionLocked _ _ _ _) as [[s1 l]|] eqn:Hc; [|done]. intros [= <- <-].
  destruct (completion_accounted _ _ _ _ _ _ Hc eq_refl)
    as (e' & Hp' & Hnext & Hq & Hcs & _ & _ & _ & Hrc & Ht).
  simpl in Hp', Hnext, Hq, Hcs, Hrc, Ht. rewrite Hp in Hp'. injection Hp' as <-. rewrite Hrun in Hrc.
  pose proof (vi_pool _ _ I) as Ipool.
  apply (pi_index _ _ _ _ _ _ _ _ _ Ipool) in Hi as (_ & Hlive & _).
  destruct (pi_place _ _ _ _ _ _ _ _ _ Ipool p e Hp) as (_ & Hrunning & _).
  rewrite (withdrawn_nil _ _ I Hacc), !elem_of_app, elem_of_nil in Hlive.
  assert (Hpq : p ∈ queue s).
  { destruct Hlive as [?|[?%Hrunning|?]]; [done| |done]. naive_solver congruence. }
  pose proof (length_erase_value_in _ _ Hpq) as Hlen.
  unfold accounted. rewrite !account_eq. cbn -[terminal_count]. rewrite Hnext, Hq, Hcs, Hrc.
  unfold submitting. rewrite omap_app, length_app. simpl.
  generalize dependent (terminal_count (metrics s1)). intros t Ht H. congr64.
Qed.

Lemma Run_take_accounted o w now s s' :
  Z.of_nat (workerCount o) < u64_modulus → pipe_inv o s → Run_take w now s = Some s' →
  accounted s → accounted s'.
Proof.
  intros Hcount I [Hw [->|[(-> & _)|(i & p & e & _ & Hi & Hp & ->)]]]%pipeline_Run_take_cases; [done..|].
  unfold accounted. rewrite !account_eq. unfold terminal_count. simpl.
  pose proof (length_delete_Some _ _ _ Hi). intros H'. congr64.
Qed.

Lemma Run_record_accounted o w now s s' :
  Z.of_nat (workerCount o) < u64_modulus → pipe_inv o s → Run_record w now s = Some s' →
  accounted s → accounted s'.
Proof.
  intros Hcount I. unfold Run_record. destruct (workers s !! w) as [[| | |p l0| |]|] eqn:Hw; try done.
  destruct (CompleteExecutionLocked _ _ _ _) as [[s1 l]|] eqn:Hc; [|done]. intros [= <-].
  assert (Hx : terminal (l_result l0)).
  { pose proof (vi_terminal _ _ I) as Ht. rewrite Forall_forall in Ht. apply Ht.
    apply elem_of_app. right. apply list_elem_of_omap. exists (WorkerFinished p l0).
    split; [by eapply list_elem_of_lookup_2|done]. }
  destruct (completion_accounted _ _ _ _ _ _ Hc Hx)
    as (e & Hp & Hnext & Hq & Hcs & _ & _ & _ & Hrc & Ht).
  pose proof (running_tasks_in _ _ _ p Hw eq_refl) as Hin.
  destruct (pi_place _ _ _ _ _ _ _ _ _ (vi_pool _ _ I) p e Hp) as (_ & Hrun & _).
  destruct (Hrun Hin) as (Hrunning & _). rewrite Hrunning in Hrc.
  pose proof (running_tasks_bound (workers s)) as Hbound. pose proof (vi_workers _ _ I) as Hlen.
  pose proof (vi_running _ _ I) as Hr.
  assert (Hpos : (0 < length (running_tasks (workers s)))%nat).
  { destruct (running_tasks (workers s)); [by apply elem_of_nil in Hin|simpl; lia]. }
  rewrite (proj2 (Z.ltb_lt 0 _)), u64_decr_small in Hrc by lia. simpl in Hrc.
  unfold accounted. rewrite !account_eq. cbn -[terminal_count]. rewrite Hnext, Hq, Hcs, Hrc.
  generalize dependent (terminal_count (metrics s1)). intros t Ht H.
  fold (submitting (calls s)). congr64.
Qed.

Lemma CompletePromise_accounted p x s : accounted s → accounted (CompletePromise p x s).
Proof. unfold CompletePromise. by repeat case_match. Qed.

Lemma exec_accounting o s l s' :
  options_ok o → pipe_inv o s → accepting s' = true → exec s l = Some s' →
  accepting s = true ∧ (accounted s → accounted s').
Proof.
  intros (_ & [_ Hcount] & _) I Hacc H. pose proof (accepting_no_shutdown _ _ I) as Hph.
  destruct l; simpl in H.
  - injection H as <-. split; [done|]. apply Submit_begin_accounted.
  - split; [|by eapply Submit_finish_accounted]. revert H. unfold Submit_finish.
    destruct (calls s !! k) as [[p| |]|]; try done. destruct (heap s !! p); [|done].
    cbn [mbind option_bind]. repeat case_match; by intros [= <-].
  - split; [|by eapply Submit_reject_accounted]. revert H. unfold Submit_reject.
    destruct (calls s !! k) as [[|p x|]|]; try done.
    destruct (CompleteRejectedExecution _ _ _ _) as [[s1 l]|] eqn:Hc; [|done]. intros [= <-].
    by apply CompleteRejectedExecution_spec in Hc as (e & order & rs & _ & _ & -> & _).
  - destruct (Cancel _ _ _) as [[s1 r]|] eqn:E; simplify_eq/=.
    assert (Hs : accepting s = true); [|split; [done|by eapply Cancel_accounted]].
    revert E. unfold Cancel. destruct (_ =? 0); [by intros [= <- _]|].
    destruct (executions s !! _) as [p|]; [|by intros [= <- _]].
    destruct (heap s !! p) as [e|]; [|done]. cbn [mbind option_bind].
    destruct (e_running e); [by intros [= <- _]|].
    destruct (CompleteExecutionLocked _ _ _ _) as [[s2 l]|] eqn:Hc; [|done]. intros [= <- <-].
    destruct (completion_accounted _ _ _ _ _ _ Hc eq_refl) as (? & _ & _ & _ & _ & _ & E & _).
    simpl in *. congruence.
  - revert H. unfold Client_settle. destruct (calls s !! k) as [[|? ?|p l]|] eqn:Hk; try done.
    intros [= <-]. split; [revert Hacc; simpl; unfold CompletePromise; by repeat case_match|].
    unfold accounted. rewrite !account_eq. rewrite (length_submitting Hk). unfold CompletePromise.
    by repeat case_match.
  - injection H as <-. revert Hacc. unfold Shutdown_begin. by repeat case_match.
  - revert H. unfold Shutdown_next. destruct (shutdown_phase s) as [|[|p rest]| |] eqn:E; try done.
    + case_match; [done|]. intros [= <-]. simpl in Hacc. rewrite Hph in Hacc; done.
    + case_match; [done|].
      destruct (CompleteExecutionLocked _ _ _ _) as [[s2 l]|] eqn:Hc; [|done]. intros [= <-].
      destruct (completion_accounted _ _ _ _ _ _ Hc eq_refl) as (? & _ & _ & _ & _ & _ & E' & _).
      simpl in *. rewrite Hph in E'; [congruence|done].
  - revert H. unfold Shutdown_settle. destruct (shutdown_phase s) eqn:E; try done. intros [= <-].
    split; [revert Hacc; simpl; unfold CompletePromise; by repeat case_match|].
    intros H. by apply (CompletePromise_accounted p (l_result l)) in H.
  - revert H. unfold Shutdown_end. destruct (shutdown_phase s) eqn:E; try done. case_match; [|done].
    intros [= <-]. destruct (PruneHistoryLocked_spec s) as (order & rs & E' & _).
    simpl in Hacc. rewrite E' in Hacc. simpl in Hacc. rewrite Hph in Hacc; done.
  - injection H as <-. by destruct callback.
  - injection H as <-. revert Hacc. unfold Unsubscribe. by case_match.
  - revert H. unfold Run_register. by destruct (workers s !! w) as [[]|]; try done; intros [= <-].
  - split; [|by eapply Run_take_accounted].
    by apply pipeline_Run_take_cases in H as [_ [->|[(-> & _)|(i & p & e & _ & _ & _ & ->)]]].
  - revert H. unfold Run_execute. destruct (workers s !! w) as [[]|]; try done.
    case_match; [done|]. destruct (heap s !! p); [|done]. by intros [= <-].
  - split; [|by eapply Run_record_accounted]. revert H. unfold Run_record.
    destruct (workers s !! w) as [[| | |p l0| |]|] eqn:Hw; try done.
    destruct (CompleteExecutionLocked _ _ _ _) as [[s1 l]|] eqn:Hc; [|done]. intros [= <-].
    apply CompleteExecutionLocked_spec in Hc as (e & order & rs & _ & _ & -> & _). done.
  - revert H. unfold Run_deliver. destruct (workers s !! w) as [[]|] eqn:Hw; try done.
    intros [= <-]. split; [revert Hacc; simpl; unfold CompletePromise; by repeat case_match|].
    unfold CompletePromise. by repeat case_match.
  - revert H. unfold Emit_callback. destruct (emissions s !! k); [|done]. cbn [mbind option_bind].
    case_match; intros [= <-]; [done|]. split; [done|]. unfold accounted. rewrite !account_eq.
    by destruct threw.
Qed.

Lemma run_accounting o ls : ∀ s s',
  options_ok o → numbered s' → pipe_inv o s → run exec s ls = Some s' → accepting s' = true →
  accounted s → accounted s'.
Proof.
  induction ls as [|l ls IH] using rev_ind; intros s s' Ho Hn I Hrun Hacc Ha; simplify_eq/=; [done|].
  rewrite run_app in Hrun. destruct (run exec s ls) as [s1|] eqn:E; [|done].
  simpl in Hrun. destruct (exec s1 l) as [s2|] eqn:E2; simplify_eq.
  assert (Hn1 : numbered s1).
  { pose proof (exec_next_ptr _ _ _ E2). unfold numbered in *. lia. }
  pose proof (run_inv _ _ _ _ Ho Hn1 I E) as I1.
  destruct (exec_accounting _ _ _ _ Ho I1 Hacc E2) as [Hacc1 Hstep]. apply Hstep.
  exact (IH _ _ Ho Hn1 I E Hacc1 Ha).
Qed.

Lemma eq64_pred n a b c d : n ≡₆₄ a + b + c + d + 1 → n - 1 ≡₆₄ a + b + c + d.
Proof. intros H. congr64. Qed.

Lemma initial_accounted o s : initial true o = inr s → accepting s = true ∧ accounted s.
Proof.
  unfold initial. simpl. repeat (case_match; [done|]). intros [= <-]. split; [done|].
  unfold accounted. rewrite account_eq. unfold terminal_count, submitting. simpl.
  apply eq64_divide. by exists 0.
Qed.

Lemma reachable_accounted o s :
  options_ok o → numbered s → reachable o s → accepting s = true → accounted s.
Proof.
  intros Ho Hn (s0 & ls & Hinit & Hrun) Hacc.
  exact (run_accounting o ls s0 s Ho Hn (pipeline_initial_inv _ _ Ho Hinit) Hrun Hacc
           (proj2 (initial_accounted _ _ Hinit))).
Qed.

Lemma account_metrics s :
  let m := GetMetrics s in
  account s = Z.of_nat (length (submitting (calls s))) + currentQueued m + currentRunning m +
              (completed m + cancelled m + timedOut m + failed m + rejected m).
Proof. reflexivity. Qed.

(** Every submission is accounted for.  Until a shutdown begins, the
    number of executions submitted is, as a 64-bit word, the number of those
    inside [Submit] and of the queued, running, completed, cancelled, timed
    out, failed and rejected ones that [GetMetrics] reports. *)
Theorem Pipeline_metrics_account o s :
  options_ok o → numbered s → reachable o s → accepting s = true →
  let m := GetMetrics s in
  next_execution_id s - 1 ≡₆₄
  Z.of_nat (length (submitting (calls s))) + currentQueued m + currentRunning m +
  (completed m + cancelled m + timedOut m + failed m + rejected m).
Proof.
  intros Ho Hn Hs Hacc m. apply eq64_pred.
  pose proof (reachable_accounted o s Ho Hn Hs Hacc) as H. unfold accounted in H.
  rewrite account_metrics in H. exact H.
Qed.

Lemma Pipeline_metrics_account_witness :
  let m := GetMetrics (after (scenario_start ++ scenario_take)) in
  4 - 1 ≡₆₄ 0 + currentQueued m + currentRunning m +
    (completed m + cancelled m + timedOut m + failed m + rejected m).
Proof.
  apply (Pipeline_metrics_account scenario_options (after (scenario_start ++ scenario_take)));
    [apply pipeline_scenario_ok|by vm_compute| |by vm_compute].
  apply pipeline_after_reachable. vm_compute. eauto.
Defined.

(** A cancellation that reaches a withdrawn execution before the shutting-down
    thread does: the execution is completed twice.  [cancelled] counts it
    twice, the shutdown writes over its record, and two lifecycle events
    report its end. *)
Lemma pipeline_cancelled_twice :
  let s := after (scenario_start ++ scenario_take ++ scenario_race ++ scenario_shutdown) in
  reachable scenario_options s ∧
  cancelled (GetMetrics s) = 2 ∧
  size (filter (λ x, rec_status (e_record x.2) = StatusCancelled) (heap s)) = 1%nat ∧
  e_promise <$> heap s !! 0%nat =
    Some (Some (Result StatusCancelled "Command execution cancelled before start")) ∧
  rec_result <$> GetRecord 1 s =
    Some (Result StatusCancelled "Command execution cancelled during pipeline shutdown").
Proof.
  split; [apply pipeline_after_reachable; vm_compute; eauto|]. by vm_compute.
Qed.

(* ------------------------------------------------------------------ *)
(** ** Bounds *)

(** Outstanding executions of the history are among those that wait or run. *)
Lemma history_outstanding o s :
  pipe_inv o s → accepting s = true →
  (length (filter (λ i, ¬ finished (executions s) i) (history_order s)) <=
   length (queue s) + length (running_tasks (workers s)))%nat.
Proof.
  intros I Hacc. destruct (vi_history _ _ I Hacc) as [[Hnd _] _].
  rewrite <-length_app, <-(length_fmap id_of). apply submseteq_length, NoDup_submseteq.
  - by apply NoDup_filter.
  - intros i [Hi _]%list_elem_of_filter. destruct (executions s !! i) as [p|] eqn:Hp; [|done].
    apply (pi_index _ _ _ _ _ _ _ _ _ (vi_pool _ _ I)) in Hp as (-> & Hlive & _).
    apply list_elem_of_fmap. exists p. split; [done|].
    rewrite (withdrawn_nil _ _ I Hacc), app_nil_r in Hlive. done.
Qed.

Lemma length_filter_split {A} (P : A → Prop) `{∀ x, Decision (P x)} l :
  length l = (length (filter P l) + length (filter (λ x, ¬ P x) l))%nat.
Proof.
  induction l as [|x l IH]; [done|]. rewrite !filter_cons.
  destruct (decide (P x)), (decide (¬ P x)); simpl; try lia; tauto.
Qed.

(** C26: bounds.  The queue never holds more than [maximumQueueSize] executions and
    no more run than there are workers, always.  Until a shutdown begins, the completed
    records are at most [maximumHistorySize], and the history, in which outstanding
    executions stay, at most that plus the bounds of the queue and of the workers;
    nothing is stated of the history after that: a cancellation that overtakes the
    shutdown can bring back a record that was pruned (see
    [pipeline_cancelled_twice]). *)
Theorem Pipeline_bounded o s :
  options_ok o → numbered s → reachable o s →
  let m := GetMetrics s in
  currentQueued m <= highWatermark m <= maximumQueueSize o ∧
  currentRunning m = Z.of_nat (length (running_tasks (workers s))) ∧
  0 <= currentRunning m <= Z.of_nat (workerCount o) ∧
  (accepting s = true →
     Z.of_nat (length (filter (finished (executions s)) (history_order s))) <= maximumHistorySize o ∧
     historySize m <= maximumHistorySize o + maximumQueueSize o + Z.of_nat (workerCount o)).
Proof.
  intros Ho Hn Hs m. pose proof (pipeline_reachable_inv _ _ Ho Hn Hs) as I.
  pose proof (vi_watermark _ _ I) as Hwm. pose proof (vi_running _ _ I) as Hrun.
  pose proof (running_tasks_bound (workers s)) as Hb. rewrite (vi_workers _ _ I) in Hb.
  assert (Hr : currentRunning m = running_count s) by done.
  split_and!; [apply Hwm|apply Hwm|by rewrite Hr|lia|lia|].
  intros Hacc. destruct (vi_history _ _ I Hacc) as [Hl Hlim]. split; [done|].
  pose proof (history_outstanding _ _ I Hacc) as Hout.
  pose proof (length_filter_split (finished (executions s)) (history_order s)) as Hsplit.
  assert (Hsize : historySize m = Z.of_nat (length (history_order s))).
  { rewrite <-(listed_size _ _ Hl). done. }
  unfold queue_size in Hwm. lia.
Qed.

Lemma Pipeline_bounded_witness :
  historySize (GetMetrics (after (scenario_start ++ scenario_take))) <= 1 + 2 + 1.
Proof.
  apply (Pipeline_bounded scenario_options); [apply pipeline_scenario_ok|by vm_compute| |by vm_compute].
  apply pipeline_after_reachable. vm_compute. eauto.
Defined.

(* ------------------------------------------------------------------ *)
(** ** Shutdown *)

(** what shutdown leaves behind.  When [Shutdown] has joined the workers,
    nothing waits, runs or is outstanding, every execution that is not inside
    [Submit] is completed, the only futures of these without a value are
    those a client inside [Submit] or [Cancel] is about to complete, and
    submissions are rejected from then on. *)
Theorem Pipeline_shutdown_settles o s s' r :
  options_ok o → numbered s → reachable o s → Shutdown_end s = Some (s', r) →
  queue s' = [] ∧ executions s' = ∅ ∧ command_to_execution s' = ∅ ∧
  currentRunning (GetMetrics s') = 0 ∧
  (∀ p e, heap s' !! p = Some e → p ∉ submitting (calls s') → is_Some (completedAt (e_record e))) ∧
  (∀ p e, heap s' !! p = Some e → p ∉ submitting (calls s') → e_promise e = None →
     ∃ l, CallSettle p l ∈ calls s') ∧
  (∀ e, ∃ m, refusal e s' = Some (Result StatusRejected m)).
Proof.
  intros Ho Hn Hs H. pose proof (pipeline_reachable_inv _ _ Ho Hn Hs) as I.
  pose proof (pipeline_Shutdown_end_inv _ _ _ _ I H) as I'.
  unfold Shutdown_end in H. destruct (shutdown_phase s) eqn:Hph; try done.
  destruct (all_exited (workers s)) eqn:Hall; [|done]. injection H as <- <-.
  destruct (PruneHistoryLocked_spec s) as (order & rs & E & _). rewrite E in *. clear E.
  pose proof (accepting_no_shutdown _ _ I) as Hacc. rewrite Hph in Hacc.
  specialize (Hacc ltac:(done)). pose proof (vi_closed _ _ I Hacc) as Hq.
  pose proof (vi_pool _ _ I') as Ipool. pose proof (vi_running _ _ I') as Hrc. simpl in Ipool, Hrc.
  rewrite (all_exited_running _ Hall), Hq in *. simpl in Ipool, Hrc.
  assert (Hex : executions s = ∅).
  { apply map_eq. intros i. rewrite lookup_empty. destruct (executions s !! i) as [p|] eqn:Hi; [|done].
    apply (pi_index _ _ _ _ _ _ _ _ _ Ipool) in Hi as (_ & Hin & _). by apply elem_of_nil in Hin. }
  assert (Hdone : ∀ p e, heap s !! p = Some e → p ∉ submitting (calls s) → ¬ open e).
  { intros p e Hp Hsub. destruct (pi_place _ _ _ _ _ _ _ _ _ Ipool p e Hp) as (_ & _ & _ & Hd).
    apply Hd; try apply not_elem_of_nil. done. }
  split_and!; simpl; try done.
  - apply map_eq. intros c. rewrite lookup_empty.
    destruct (command_to_execution s !! c) as [i|] eqn:Hc; [|done].
    apply (pi_command _ _ _ _ _ _ _ _ _ Ipool) in Hc as (p & e & Hi & _).
    rewrite Hex in Hi. by rewrite lookup_empty in Hi.
  - intros p e Hp Hsub. specialize (Hdone p e Hp Hsub). unfold open in Hdone.
    destruct (completedAt _); [by eauto|done].
  - intros p e Hp Hsub Hnone.
    pose proof (pi_unset _ _ _ _ _ _ _ _ _ Ipool p e Hp Hnone (Hdone p e Hp Hsub)) as Hin.
    unfold owed in Hin. apply list_elem_of_fmap in Hin as ([q x] & -> & Hin). simpl in Hin.
    apply elem_of_app in Hin as [Hin|Hin].
    + apply list_elem_of_omap in Hin as (c & Hc & Hx). destruct c; try done. simpl in Hx.
      simplify_eq. eauto.
    + apply list_elem_of_omap in Hin as (pc & Hpc & Hx). apply list_elem_of_lookup in Hpc as [w Hw].
      by rewrite (proj1 (all_exited_spec _) Hall w pc Hw) in Hx.
  - intros e. unfold refusal. simpl. rewrite Hacc. simpl. eauto.
Qed.

Lemma Pipeline_shutdown_settles_witness :
  let s := after (scenario_start ++ scenario_take ++ scenario_race ++ scenario_shutdown ++
                  scenario_finish ++ [LShutdownEnd]) in
  executions s = ∅ ∧ currentRunning (GetMetrics s) = 0.
Proof.
  intros s.
  destruct (Pipeline_shutdown_settles scenario_options
    (after (scenario_start ++ scenario_take ++ scenario_race ++ scenario_shutdown ++ scenario_finish))
    s (Result StatusCompleted "Command execution pipeline shut down") pipeline_scenario_ok)
    as (_ & Hex & _ & Hrun & _).
  - by vm_compute.
  - apply pipeline_after_reachable. vm_compute. eauto.
  - vm_compute. reflexivity.
  - exact (conj Hex Hrun).
Defined.
