(* ===== verification/Mission.v ===== *)
(** * Missions

    The data of include/humanoid/mission: missions, steps, policies and
    conditions with their validity; the conditions of a step evaluated on the
    state of the robot (src/mission/ConditionEvaluator.cpp); and the schema
    check of src/mission/MissionValidator.cpp.

    Durations are milliseconds.  The time stamp of an event is a parameter. *)

From Stdlib Require Import SpecFloat.
From stdpp Require Import pretty.
From S2P Require Import Prelude Command RobotState SafetyValidator.

Open Scope Z_scope.

Inductive MissionStatus :=
  | MissionPending | MissionRunning | MissionPaused | MissionCompleted | MissionFailed
  | MissionCancelled.

#[export] Instance MissionStatus_eq_dec : EqDecision MissionStatus.
Proof. solve_decision. Defined.

Definition MissionStatus_toString (s : MissionStatus) : string :=
  match s with
  | MissionPending => "Pending"
  | MissionRunning => "Running"
  | MissionPaused => "Paused"
  | MissionCompleted => "Completed"
  | MissionFailed => "Failed"
  | MissionCancelled => "Cancelled"
  end.

Definition isTerminal (s : MissionStatus) : bool :=
  match s with
  | MissionCompleted | MissionFailed | MissionCancelled => true
  | MissionPending | MissionRunning | MissionPaused => false
  end.

Definition MissionMetadata : Type := gmap string string.

Record MissionResult := mkMissionResult { mr_status : MissionStatus; mr_message : string }.

#[export] Instance MissionResult_eq_dec : EqDecision MissionResult.
Proof. solve_decision. Defined.

Definition isSuccess (r : MissionResult) : bool := bool_decide (mr_status r = MissionCompleted).

(* ------------------------------------------------------------------ *)
(** ** Policies *)

Record RetryPolicy := mkRetryPolicy {
  maxAttempts : Z;
  delayBetweenAttempts : Z;
  retryOnFailure : bool;
  retryOnTimeout : bool;
}.

Definition RetryPolicy_isValid (p : RetryPolicy) : bool :=
  (0 <? maxAttempts p) && (0 <=? delayBetweenAttempts p).

Record LoopPolicy := mkLoopPolicy { iterations : Z }.

Definition LoopPolicy_isValid (p : LoopPolicy) : bool := 0 <? iterations p.

Record TimeoutPolicy := mkTimeoutPolicy { policy_timeout : Z; abortOnTimeout : bool }.

Definition TimeoutPolicy_isEnabled (p : TimeoutPolicy) : bool := 0 <? policy_timeout p.

Definition TimeoutPolicy_isValid (p : TimeoutPolicy) : bool := 0 <=? policy_timeout p.

(** [WaitStep] and [DelayStep] are durations that must not be negative. *)
Record WaitStep := mkWaitStep { wait_duration : Z }.
Record DelayStep := mkDelayStep { delay_duration : Z }.

Definition WaitStep_isValid (x : WaitStep) : bool := 0 <=? wait_duration x.
Definition DelayStep_isValid (x : DelayStep) : bool := 0 <=? delay_duration x.

(* ------------------------------------------------------------------ *)
(** ** Conditions *)

Inductive MissionConditionType :=
  | ConditionBatteryLevel | ConditionConnection | ConditionRobotStanding | ConditionRobotWalking
  | ConditionRobotSitting | ConditionCapability | ConditionFaultCode | ConditionEmergencyStop
  | ConditionTypeRaw (value : Z).

Inductive MissionConditionComparison :=
  | Equal | NotEqual | LessThan | LessThanOrEqual | GreaterThan | GreaterThanOrEqual
  | ComparisonRaw (value : Z).

Inductive MissionConditionFailureAction := ActionSkip | ActionAbort | FailureActionRaw (value : Z).

#[export] Instance MissionConditionType_eq_dec : EqDecision MissionConditionType.
Proof. solve_decision. Defined.
#[export] Instance MissionConditionComparison_eq_dec : EqDecision MissionConditionComparison.
Proof. solve_decision. Defined.
#[export] Instance MissionConditionFailureAction_eq_dec : EqDecision MissionConditionFailureAction.
Proof. solve_decision. Defined.

Definition MissionConditionType_toString (t : MissionConditionType) : string :=
  match t with
  | ConditionBatteryLevel => "BatteryLevel"
  | ConditionConnection => "Connection"
  | ConditionRobotStanding => "RobotStanding"
  | ConditionRobotWalking => "RobotWalking"
  | ConditionRobotSitting => "RobotSitting"
  | ConditionCapability => "Capability"
  | ConditionFaultCode => "FaultCode"
  | ConditionEmergencyStop => "EmergencyStop"
  | ConditionTypeRaw _ => "Unknown"
  end.

Record MissionCondition := mkCondition {
  condition_id : Z;
  condition_name : string;
  condition_type : MissionConditionType;
  comparison : MissionConditionComparison;
  numericValue : float32;
  boolValue : bool;
  condition_faultCode : Z;
  commandType : CommandType;
  failureAction : MissionConditionFailureAction;
  condition_metadata : MissionMetadata;
}.

Definition MissionCondition_isValid (c : MissionCondition) : bool := negb (condition_id c =? 0).

Inductive MissionEventType := ConditionSatisfied | ConditionFailed | ConditionUnavailable.

Record MissionEvent := mkEvent {
  event_id : Z;
  conditionId : Z;
  stepId : Z;
  event_type : MissionEventType;
  event_timestamp : Z;
  event_message : string;
  event_metadata : MissionMetadata;
}.

Record ConditionEvaluationResult := mkEvaluation {
  evaluated : bool;
  satisfied : bool;
  event : MissionEvent;
}.

Definition Succeeded (r : ConditionEvaluationResult) : bool := evaluated r && satisfied r.

Record ConditionEvaluatorContext := mkEvaluatorContext {
  evaluator_capabilities : CommandCapabilitySet;
  evaluator_capabilitiesAvailable : bool;
}.

Definition CompareFloat (actual : float32) (c : MissionConditionComparison) (expected : float32) : bool :=
  match c with
  | Equal => SFeqb actual expected
  | NotEqual => negb (SFeqb actual expected)
  | LessThan => SFltb actual expected
  | LessThanOrEqual => SFleb actual expected
  | GreaterThan => SFltb expected actual
  | GreaterThanOrEqual => SFleb expected actual
  | ComparisonRaw _ => false
  end.

Definition CompareInteger (actual : Z) (c : MissionConditionComparison) (expected : Z) : bool :=
  match c with
  | Equal => actual =? expected
  | NotEqual => negb (actual =? expected)
  | LessThan => actual <? expected
  | LessThanOrEqual => actual <=? expected
  | GreaterThan => expected <? actual
  | GreaterThanOrEqual => expected <=? actual
  | ComparisonRaw _ => false
  end.

Definition CompareBool (actual : bool) (c : MissionConditionComparison) (expected : bool) : bool :=
  match c with
  | Equal => Bool.eqb actual expected
  | NotEqual => negb (Bool.eqb actual expected)
  | LessThan | LessThanOrEqual | GreaterThan | GreaterThanOrEqual => false
  | ComparisonRaw _ => false
  end.

Definition MakeEvent (c : MissionCondition) (t : MissionEventType) (m : string) (now : Z) : MissionEvent :=
  mkEvent 0 (condition_id c) 0 t now m ∅.

Definition Unavailable (c : MissionCondition) (m : string) (now : Z) : ConditionEvaluationResult :=
  mkEvaluation false false (MakeEvent c ConditionUnavailable m now).

Definition Evaluated (c : MissionCondition) (b : bool) (now : Z) : ConditionEvaluationResult :=
  mkEvaluation true b
    (MakeEvent c (if b then ConditionSatisfied else ConditionFailed)
       (MissionConditionType_toString (condition_type c) +:+
        (if b then " condition satisfied" else " condition failed")) now).

Definition UpdateCapabilities (cs : CommandCapabilitySet) (x : ConditionEvaluatorContext) :
    ConditionEvaluatorContext := mkEvaluatorContext cs true.

(** [CommandCapabilitySet{}] *)
Definition no_capabilities : CommandCapabilitySet :=
  mkCapabilities false false false false false false false false false false false false false
    false false false.

Definition ClearCapabilities (x : ConditionEvaluatorContext) : ConditionEvaluatorContext :=
  mkEvaluatorContext no_capabilities false.

(** [ConditionEvaluator::Evaluate]; [state] is what the state manager
    answers, [None] if there is none. *)
Definition Evaluate (x : ConditionEvaluatorContext) (state : option RobotState)
    (c : MissionCondition) (now : Z) : ConditionEvaluationResult :=
  if negb (MissionCondition_isValid c) then Unavailable c "Mission condition is not valid" now
  else if bool_decide (condition_type c = ConditionCapability) then
    if negb (evaluator_capabilitiesAvailable x) then
      Unavailable c "Robot capabilities are unavailable" now
    else Evaluated c (CompareBool (Supports (commandType c) (evaluator_capabilities x))
                        (comparison c) (boolValue c)) now
  else match state with
  | None => Unavailable c "Robot state manager is unavailable" now
  | Some st =>
      let boolean b := Evaluated c (CompareBool b (comparison c) (boolValue c)) now in
      match condition_type c with
      | ConditionBatteryLevel =>
          if negb (isfinite (batteryLevel (power st))) then
            Unavailable c "Battery level is not finite" now
          else Evaluated c (CompareFloat (batteryLevel (power st)) (comparison c) (numericValue c)) now
      | ConditionConnection => boolean (connected (connection st))
      | ConditionRobotStanding => boolean (standing (motion st))
      | ConditionRobotWalking => boolean (walking (motion st))
      | ConditionRobotSitting => boolean (sitting (motion st))
      | ConditionFaultCode =>
          Evaluated c (CompareInteger (faultCode (health st)) (comparison c) (condition_faultCode c)) now
      | ConditionEmergencyStop => boolean (emergencyStop (health st))
      | ConditionCapability | ConditionTypeRaw _ => Unavailable c "Unknown mission condition type" now
      end
  end.

(** [ConditionEvaluator::EvaluateAll]; the state and the context are read anew
    for each condition. *)
Definition EvaluateAll
    (views : list (ConditionEvaluatorContext * option RobotState * Z)) (cs : list MissionCondition) :
    list ConditionEvaluationResult :=
  zip_with (λ v c, Evaluate v.1.1 v.1.2 c v.2) views cs.

(* ------------------------------------------------------------------ *)
(** ** Steps and missions *)

Record MissionStep := mkStep {
  step_id : Z;
  step_name : string;
  step_command : Command;
  step_timeout : Z;
  retry : Z;
  retryPolicy : RetryPolicy;
  loopPolicy : LoopPolicy;
  timeoutPolicy : TimeoutPolicy;
  wait : option WaitStep;
  delay : option DelayStep;
  skip : bool;
  abort : bool;
  conditions : list MissionCondition;
  enabled : bool;
  step_metadata : MissionMetadata;
}.

(** [!optional.has_value() || optional->isValid()] *)
Definition valid_if_any {A} (valid : A → bool) (x : option A) : bool :=
  match x with Some a => valid a | None => true end.

Definition has_value {A} (x : option A) : bool := match x with Some _ => true | None => false end.

Definition MissionStep_isValid (s : MissionStep) : bool :=
  if (step_id s =? 0) || (step_timeout s <? 0) || negb (RetryPolicy_isValid (retryPolicy s)) ||
     negb (LoopPolicy_isValid (loopPolicy s)) || negb (TimeoutPolicy_isValid (timeoutPolicy s))
  then false
  else if negb (valid_if_any WaitStep_isValid (wait s)) then false
  else if negb (valid_if_any DelayStep_isValid (delay s)) then false
  else if negb (forallb MissionCondition_isValid (conditions s)) then false
  else if skip s || abort s || has_value (wait s) || has_value (delay s) then true
  else isValid (step_command s).

Definition MissionStep_hasTimeout (s : MissionStep) : bool := 0 <? step_timeout s.

Record Mission := mkMission {
  mission_id : Z;
  mission_name : string;
  description : string;
  version : string;
  author : string;
  mission_timestamp : Z;
  steps : list MissionStep;
  mission_metadata : MissionMetadata;
}.

(** The member initializers. *)
Definition default_RetryPolicy : RetryPolicy := mkRetryPolicy 1 0 true true.
Definition default_LoopPolicy : LoopPolicy := mkLoopPolicy 1.
Definition default_TimeoutPolicy : TimeoutPolicy := mkTimeoutPolicy 0 true.

Definition default_MissionCondition : MissionCondition :=
  {| condition_id := 0; condition_name := ""; condition_type := ConditionConnection;
     comparison := Equal; numericValue := S754_zero false; boolValue := true;
     condition_faultCode := 0; commandType := TypeCustom; failureAction := ActionAbort;
     condition_metadata := ∅ |}.

Definition default_MissionStep : MissionStep :=
  {| step_id := 0; step_name := ""; step_command := default_Command; step_timeout := 0;
     retry := 0; retryPolicy := default_RetryPolicy; loopPolicy := default_LoopPolicy;
     timeoutPolicy := default_TimeoutPolicy; wait := None; delay := None; skip := false;
     abort := false; conditions := []; enabled := true; step_metadata := ∅ |}.

Definition default_Mission : Mission :=
  {| mission_id := 0; mission_name := ""; description := ""; version := ""; author := "";
     mission_timestamp := 0; steps := []; mission_metadata := ∅ |}.

#[export] Instance eta_RetryPolicy : EtaRecord RetryPolicy := λ p,
  mkRetryPolicy (maxAttempts p) (delayBetweenAttempts p) (retryOnFailure p) (retryOnTimeout p).

#[export] Instance eta_TimeoutPolicy : EtaRecord TimeoutPolicy := λ p,
  mkTimeoutPolicy (policy_timeout p) (abortOnTimeout p).

#[export] Instance eta_MissionCondition : EtaRecord MissionCondition := λ c,
  mkCondition (condition_id c) (condition_name c) (condition_type c) (comparison c)
    (numericValue c) (boolValue c) (condition_faultCode c) (commandType c) (failureAction c)
    (condition_metadata c).

#[export] Instance eta_MissionStep : EtaRecord MissionStep := λ s,
  mkStep (step_id s) (step_name s) (step_command s) (step_timeout s) (retry s) (retryPolicy s)
    (loopPolicy s) (timeoutPolicy s) (wait s) (delay s) (skip s) (abort s) (conditions s)
    (enabled s) (step_metadata s).

#[export] Instance eta_Mission : EtaRecord Mission := λ m,
  mkMission (mission_id m) (mission_name m) (description m) (version m) (author m)
    (mission_timestamp m) (steps m) (mission_metadata m).

(** The loop of [Mission::isValid] stops at the first enabled step that is
    not valid. *)
Definition Mission_isValid (m : Mission) : bool :=
  forallb (λ s, negb (enabled s) || MissionStep_isValid s) (steps m) &&
  negb (mission_id m =? 0) && existsb enabled (steps m).

(* ------------------------------------------------------------------ *)
(** ** The validator *)

Record MissionValidationResult := mkMissionValidation { valid : bool; validation_message : string }.

Definition Valid : MissionValidationResult := mkMissionValidation true "Mission schema is valid".

Definition Invalid (m : string) : MissionValidationResult := mkMissionValidation false m.

Definition IsKnownPriority (p : CommandPriority) : bool :=
  match p with
  | PriorityLow | PriorityNormal | PriorityHigh | PriorityCritical => true
  | PriorityRaw _ => false
  end.

Definition IsKnownConditionType (t : MissionConditionType) : bool :=
  match t with ConditionTypeRaw _ => false | _ => true end.

Definition IsKnownComparison (c : MissionConditionComparison) : bool :=
  match c with ComparisonRaw _ => false | _ => true end.

Definition IsKnownFailureAction (a : MissionConditionFailureAction) : bool :=
  match a with FailureActionRaw _ => false | _ => true end.

Definition IsBooleanComparison (c : MissionConditionComparison) : bool :=
  match c with Equal | NotEqual => true | _ => false end.

(** The types whose value is a boolean. *)
Definition boolean_condition (t : MissionConditionType) : bool :=
  match t with
  | ConditionConnection | ConditionRobotStanding | ConditionRobotWalking | ConditionRobotSitting
  | ConditionCapability | ConditionEmergencyStop => true
  | ConditionBatteryLevel | ConditionFaultCode | ConditionTypeRaw _ => false
  end.

Definition to_string (i : nat) : string := pretty (N.of_nat i).

Definition ValidateCondition (c : MissionCondition) (step_index condition_index : nat) :
    MissionValidationResult :=
  let prefix := ("Mission step " +:+ to_string step_index +:+ " condition " +:+
                 to_string condition_index +:+ ": ")%string in
  if condition_id c =? 0 then Invalid (prefix +:+ "id must be nonzero")
  else if bool_decide (condition_name c = EmptyString) then Invalid (prefix +:+ "name is required")
  else if negb (IsKnownConditionType (condition_type c)) then Invalid (prefix +:+ "type is unknown")
  else if negb (IsKnownComparison (comparison c)) then Invalid (prefix +:+ "comparison is unknown")
  else if negb (IsKnownFailureAction (failureAction c)) then
    Invalid (prefix +:+ "on_failure is unknown")
  else if boolean_condition (condition_type c) && negb (IsBooleanComparison (comparison c)) then
    Invalid (prefix +:+ "boolean condition requires Equal or NotEqual comparison")
  else if bool_decide (condition_type c = ConditionCapability) &&
          negb (IsKnownCommandType (commandType c)) then
    Invalid (prefix +:+ "capability command_type is unknown")
  else Valid.

(** A loop of checks that ends at the first that does not succeed. *)
Fixpoint first_invalid {A} (check : A → nat → MissionValidationResult) (index : nat) (l : list A) :
    option MissionValidationResult :=
  match l with
  | [] => None
  | a :: l =>
      let r := check a index in
      if negb (valid r) then Some r else first_invalid check (S index) l
  end.

Definition ValidateStep (s : MissionStep) (step_index : nat) : MissionValidationResult :=
  let prefix := ("Mission step " +:+ to_string step_index +:+ ": ")%string in
  if negb (enabled s) then Valid
  else if step_id s =? 0 then Invalid (prefix +:+ "id must be nonzero")
  else if bool_decide (step_name s = EmptyString) then Invalid (prefix +:+ "name is required")
  else if step_timeout s <? 0 then Invalid (prefix +:+ "timeout_ms must not be negative")
  else if negb (RetryPolicy_isValid (retryPolicy s)) then
    Invalid (prefix +:+ "retry_policy is not valid")
  else if negb (LoopPolicy_isValid (loopPolicy s)) then
    Invalid (prefix +:+ "loop_policy.iterations must be greater than zero")
  else if negb (TimeoutPolicy_isValid (timeoutPolicy s)) then
    Invalid (prefix +:+ "timeout_policy.timeout_ms must not be negative")
  else if negb (valid_if_any WaitStep_isValid (wait s)) then
    Invalid (prefix +:+ "wait.duration_ms must not be negative")
  else if negb (valid_if_any DelayStep_isValid (delay s)) then
    Invalid (prefix +:+ "delay.duration_ms must not be negative")
  else match first_invalid (λ c i, ValidateCondition c step_index i) 0 (conditions s) with
  | Some r => r
  | None =>
      if skip s || abort s || has_value (wait s) || has_value (delay s) then Valid
      else if id (step_command s) =? 0 then Invalid (prefix +:+ "command.id must be nonzero")
      else if negb (IsKnownCommandType (type (step_command s))) then
        Invalid (prefix +:+ "command.type is unknown")
      else if negb (IsKnownPriority (priority (step_command s))) then
        Invalid (prefix +:+ "command.priority is unknown")
      else if timeout (step_command s) <? 0 then
        Invalid (prefix +:+ "command.timeout_ms must not be negative")
      else if negb (isValid (step_command s)) then Invalid (prefix +:+ "command is not valid")
      else Valid
  end.

Definition ValidateMission (m : Mission) : MissionValidationResult :=
  if mission_id m =? 0 then Invalid "Mission id must be nonzero"
  else if bool_decide (mission_name m = EmptyString) then Invalid "Mission name is required"
  else if bool_decide (version m = EmptyString) then Invalid "Mission version is required"
  else if bool_decide (author m = EmptyString) then Invalid "Mission author is required"
  else if bool_decide (steps m = []) then Invalid "Mission requires at least one step"
  else match first_invalid ValidateStep 0 (steps m) with
  | Some r => r
  | None =>
      if negb (existsb enabled (steps m)) then Invalid "Mission requires at least one enabled step"
      else Valid
  end.
