(* ===== verification/MissionExecutor.v ===== *)
(** * The mission executor

    [MissionExecutor::Impl] of src/mission/MissionExecutor.cpp: a worker
    thread runs the steps of a mission, each with its conditions, its loop and
    its retries, while clients pause, resume, cancel and stop it, and may
    execute single steps on their own threads.

    Every critical section of the state mutex is one transition ([exec]).
    The control mutex is held across the sections of [Start] and [Stop]: its
    owner has a program point.  A thread that executes a step (the worker or
    a client of [ExecuteStep]) has one too, a [FlowPc]; the inputs of its
    transitions are what it meets outside of the executor: the views of the
    condition evaluator, the clock, and the answer of the dispatcher.

    Not modelled: spurious wakeups, which repeat the test of the predicate. *)

From S2P Require Import Prelude Command RobotState SafetyValidator Mission.

Open Scope Z_scope.

Definition mission_Result (s : MissionStatus) (m : string) : MissionResult := mkMissionResult s m.

Definition IsCommandStep (s : MissionStep) : bool :=
  negb (skip s) && negb (abort s) && negb (has_value (wait s)) && negb (has_value (delay s)).

Definition EffectiveTimeout (s : MissionStep) : option Z :=
  let t := if MissionStep_hasTimeout s then Some (step_timeout s) else None in
  if TimeoutPolicy_isEnabled (timeoutPolicy s) &&
     match t with None => true | Some t => policy_timeout (timeoutPolicy s) <? t end
  then Some (policy_timeout (timeoutPolicy s)) else t.

Definition PrepareCommand (s : MissionStep) (now : Z) : Command :=
  let c := (step_command s) <| timestamp := now |> in
  match EffectiveTimeout s with
  | Some t => if negb (hasTimeout c) || (t <? timeout c) then c <| timeout := t |> else c
  | None => c
  end.

Definition u32_max : Z := 2 ^ 32 - 1.

Definition EffectiveMaxAttempts (s : MissionStep) : Z :=
  let legacy_attempts := if retry s =? u32_max then retry s else retry s + 1 in
  if legacy_attempts <? maxAttempts (retryPolicy s) then maxAttempts (retryPolicy s)
  else legacy_attempts.

(** [message.find(pattern) != npos] *)
Definition contains (pattern s : string) : bool :=
  match String.index 0 pattern s with Some _ => true | None => false end.

Definition LooksLikeTimeout (r : MissionResult) : bool :=
  contains "timeout" (mr_message r) || contains "timed out" (mr_message r).

Definition FromCommandResult (r : CommandResult) : MissionResult :=
  match status r with
  | StatusCompleted => mission_Result MissionCompleted (message r)
  | StatusCancelled => mission_Result MissionCancelled (message r)
  | StatusPending | StatusQueued | StatusRunning | StatusFailed | StatusTimeout | StatusRejected =>
      mission_Result MissionFailed (message r)
  | StatusRaw _ => mission_Result MissionFailed "Command returned an unknown status"
  end.

(** What was thrown: the [what()] of a [std::exception], or something else. *)
Definition Exception : Type := option string.

Definition failure_message (e : Exception) (prefix unknown : string) : string :=
  match e with Some what => prefix +:+ ": " +:+ what | None => unknown end.

(* ------------------------------------------------------------------ *)
(** ** State *)

(** The program points of a thread that executes a step. *)
Inductive FlowPc :=
  | FlowStart
  | FlowIteration (iteration : Z) (result : MissionResult)   (** before an iteration of the loop *)
  | FlowIterationWait (iteration : Z)
  | FlowAttempt (iteration attempt : Z)                      (** before an attempt *)
  | FlowAttemptWait (iteration attempt : Z)
  | FlowExecute (iteration attempt : Z)                      (** about to call the dispatcher *)
  | FlowTimed (iteration attempt duration : Z) (elapsed : MissionResult)
  | FlowRetryWait (iteration attempt : Z)
  | FlowDone (result : MissionResult)
  | FlowThrew (e : Exception).

Inductive WorkerPc :=
  | WorkerLoop (index : nat)
  | WorkerEnter (index : nat) (step : MissionStep)
  | WorkerFlow (index : nat) (step : MissionStep) (pc : FlowPc)
  | WorkerCheck (index : nat) (result : MissionResult)
  | WorkerFinish (status : MissionStatus) (message : string)
  | WorkerDone.

(** The owner of the control mutex. *)
Inductive ControlPc :=
  | ControlFree
  | StartJoining (m : Mission)
  | StartResetting (m : Mission)
  | StartLaunching (m : Mission)
  | StopCancelling (command : option Z)
  | StopJoining
  | StopReporting.

Record ExecutorState := mkExecutor {
  ex_status : MissionStatus;
  last_result : MissionResult;
  current_step_index : option nat;
  current_step_id : option Z;
  current_command_id : option Z;
  pause_requested : bool;
  cancel_requested : bool;
  stop_requested : bool;
  worker : option (Mission * WorkerPc);         (** [None] when not joinable *)
  control : ControlPc;
  cancelling : list (option Z);                 (** threads in [Cancel], before the dispatcher *)
  clients : list (MissionStep * FlowPc);        (** threads in [ExecuteStep] *)
}.

#[export] Instance eta_ExecutorState : EtaRecord ExecutorState := fun s =>
  mkExecutor (ex_status s) (last_result s) (current_step_index s) (current_step_id s)
    (current_command_id s) (pause_requested s) (cancel_requested s) (stop_requested s)
    (worker s) (control s) (cancelling s) (clients s).

Definition new_executor : ExecutorState :=
  mkExecutor MissionPending (mission_Result MissionPending EmptyString) None None None
    false false false None ControlFree [] [].

Definition set_status (st : MissionStatus) (m : string) (s : ExecutorState) : ExecutorState :=
  s <| ex_status := st |> <| last_result := mission_Result st m |>.

Definition CancellationRequested (s : ExecutorState) : bool := cancel_requested s || stop_requested s.

Definition worker_done (s : ExecutorState) : bool :=
  match worker s with Some (_, WorkerDone) => true | _ => false end.

Section Executor.
(** The constructor's arguments: whether there is a dispatcher and a condition
    evaluator. *)
Context (has_dispatcher has_evaluator : bool).

(* ------------------------------------------------------------------ *)
(** ** Control operations *)

Definition Answer : Type := ExecutorState * option MissionResult.

Definition answer (r : MissionResult) (s : ExecutorState) : Answer :=
  (s <| control := ControlFree |>, Some r).

(** [Start] after [JoinCompletedWorker]. *)
Definition Start_check (m : Mission) (s : ExecutorState) : Answer :=
  if negb has_dispatcher then
    answer (mission_Result MissionFailed "Mission executor has no command dispatcher") s
  else if negb (Mission_isValid m) then
    answer (mission_Result MissionFailed "Mission is not valid for execution") s
  else match worker s with
  | Some _ => answer (mission_Result MissionFailed "Mission executor is already active") s
  | None => (s <| control := StartResetting m |>, None)
  end.

Definition Start (m : Mission) (s : ExecutorState) : option Answer :=
  match control s with
  | ControlFree =>
      if has_value (worker s) && isTerminal (ex_status s)
      then Some (s <| control := StartJoining m |>, None)
      else Some (Start_check m s)
  | _ => None
  end.

Definition Start_joined (s : ExecutorState) : option Answer :=
  match control s with
  | StartJoining m => if worker_done s then Some (Start_check m (s <| worker := None |>)) else None
  | _ => None
  end.

Definition Start_reset (s : ExecutorState) : option Answer :=
  match control s with
  | StartResetting m =>
      Some (set_status MissionRunning "Mission execution started"
              (s <| pause_requested := false |> <| cancel_requested := false |>
                 <| stop_requested := false |> <| current_step_index := None |>
                 <| current_step_id := None |> <| current_command_id := None |>
                 <| control := StartLaunching m |>), None)
  | _ => None
  end.

(** The thread is created, or that throws. *)
Definition Start_launch (threw : option Exception) (s : ExecutorState) : option Answer :=
  match control s with
  | StartLaunching m =>
      match threw with
      | None =>
          Some (answer (mission_Result MissionRunning "Mission execution started")
                  (s <| worker := Some (m, WorkerLoop 0) |>))
      | Some e =>
          let s := set_status MissionFailed
                     (failure_message e "Unable to start mission worker" "Unable to start mission worker") s in
          Some (answer (last_result s) s)
      end
  | _ => None
  end.

Definition Pause (s : ExecutorState) : ExecutorState * MissionResult :=
  if bool_decide (ex_status s = MissionPaused) then (s, last_result s)
  else if negb (bool_decide (ex_status s = MissionRunning)) then
    (s, mission_Result MissionFailed "Mission is not running")
  else
    let s := set_status MissionPaused "Mission pause requested" (s <| pause_requested := true |>) in
    (s, last_result s).

Definition Resume (s : ExecutorState) : ExecutorState * MissionResult :=
  if negb (bool_decide (ex_status s = MissionPaused)) then
    (s, mission_Result MissionFailed "Mission is not paused")
  else
    (set_status MissionRunning "Mission resumed" (s <| pause_requested := false |>),
     mission_Result MissionRunning "Mission resumed").

(** [Cancel]; the call of the dispatcher that follows is [Cancel_send]. *)
Definition Cancel (s : ExecutorState) : ExecutorState * MissionResult :=
  if bool_decide (ex_status s = MissionPending) || isTerminal (ex_status s) then
    (s, mission_Result MissionFailed "No active mission to cancel")
  else
    let s := set_status MissionCancelled "Mission cancellation requested"
               (s <| cancel_requested := true |> <| pause_requested := false |>) in
    (s <| cancelling ::= λ l, l ++ [current_command_id s] |>, last_result s).

Definition Cancel_send (s : ExecutorState) : option ExecutorState :=
  match cancelling s with
  | [] => None
  | _ :: l => Some (s <| cancelling := l |>)
  end.

Definition Stop (s : ExecutorState) : option Answer :=
  match control s with
  | ControlFree =>
      match worker s with
      | None =>
          let s := if isTerminal (ex_status s) then s
                   else s <| ex_status := MissionPending |>
                          <| last_result := mission_Result MissionCompleted "Mission executor stopped" |> in
          Some (s, Some (last_result s))
      | Some _ =>
          if isTerminal (ex_status s) then Some (s <| control := StopJoining |>, None)
          else
            Some (set_status MissionCancelled "Mission stop requested"
                    (s <| stop_requested := true |> <| cancel_requested := true |>
                       <| pause_requested := false |>
                       <| control := StopCancelling (current_command_id s) |>), None)
      end
  | _ => None
  end.

Definition Stop_send (s : ExecutorState) : option Answer :=
  match control s with
  | StopCancelling _ => Some (s <| control := StopJoining |>, None)
  | _ => None
  end.

Definition Stop_joined (s : ExecutorState) : option Answer :=
  match control s with
  | StopJoining =>
      if worker_done s then Some (s <| worker := None |> <| control := StopReporting |>, None) else None
  | _ => None
  end.

(** [GetLastResult] at the end of [Stop]. *)
Definition Stop_report (s : ExecutorState) : option Answer :=
  match control s with
  | StopReporting => Some (answer (last_result s) s)
  | _ => None
  end.

(* ------------------------------------------------------------------ *)
(** ** Executing a step *)

(** [WaitUntilRunnable]: [None] while it waits. *)
Definition WaitUntilRunnable (s : ExecutorState) : option (ExecutorState * bool) :=
  if pause_requested s && negb (CancellationRequested s) then None
  else if CancellationRequested s then Some (s, false)
  else Some (set_status MissionRunning "Mission execution running" s, true).

(** What the evaluator sees when it evaluates a condition. *)
Record View := mkView {
  view_context : ConditionEvaluatorContext;
  view_state : option RobotState;
  view_now : Z;
}.

(** The inputs of a transition of a thread that executes a step. *)
Inductive FlowInput :=
  | Proceed
  | Views (views : list View)
  | Executed (now : Z) (r : CommandResult + Exception)    (** the answer, or what was thrown *)
  | Elapsed.                                           (** the time of a wait has passed *)

Fixpoint evaluate_conditions (cs : list MissionCondition) (views : list View) : option MissionResult :=
  match cs, views with
  | [], _ => Some (mission_Result MissionCompleted "Mission step conditions satisfied")
  | _ :: _, [] => None
  | c :: cs, v :: views =>
      let e := Evaluate (view_context v) (view_state v) c (view_now v) in
      if Succeeded e then evaluate_conditions cs views
      else if bool_decide (failureAction c = ActionSkip) then
        Some (mission_Result MissionCompleted "Mission step skipped by condition")
      else if evaluated e then Some (mission_Result MissionFailed "Mission condition failed")
      else Some (mission_Result MissionFailed (event_message (event e)))
  end.

Definition EvaluateStepConditions (step : MissionStep) (views : list View) : option MissionResult :=
  if bool_decide (conditions step = []) then
    Some (mission_Result MissionCompleted "Mission step conditions satisfied")
  else if negb has_evaluator then
    Some (mission_Result MissionFailed "Mission condition evaluator is unavailable")
  else evaluate_conditions (conditions step) views.

(** [ExecuteFlowStep] up to its loop. *)
Definition Flow_start (step : MissionStep) (views : list View) : option FlowPc :=
  if negb has_dispatcher then
    Some (FlowDone (mission_Result MissionFailed "Mission executor has no command dispatcher"))
  else if negb (MissionStep_isValid step) then
    Some (FlowDone (mission_Result MissionFailed "Mission step is not valid for execution"))
  else if skip step then Some (FlowDone (mission_Result MissionCompleted "Mission step skipped"))
  else if abort step then Some (FlowDone (mission_Result MissionFailed "Mission step requested abort"))
  else
    r ← EvaluateStepConditions step views;
    Some (if negb (isSuccess r) then FlowDone r
          else if bool_decide (mr_message r = "Mission step skipped by condition"%string) then FlowDone r
          else FlowIteration 0 (mission_Result MissionCompleted "Mission step completed")).

(** The head of the loop over the iterations. *)
Definition next_iteration (step : MissionStep) (iteration : Z) (result : MissionResult) : FlowPc :=
  if iteration <? iterations (loopPolicy step) then FlowIteration iteration result
  else FlowDone result.

(** The result of all attempts of an iteration. *)
Definition iteration_result (step : MissionStep) (iteration : Z) (r : MissionResult) : FlowPc :=
  if negb (isSuccess r) then FlowDone r else next_iteration step (iteration + 1) r.

(** What follows an attempt that answered [r]. *)
Definition attempt_result (step : MissionStep) (iteration attempt : Z) (r : MissionResult) : FlowPc :=
  let max_attempts := EffectiveMaxAttempts step in
  if isSuccess r || bool_decide (mr_status r = MissionCancelled) || (max_attempts <=? attempt + 1) then
    iteration_result step iteration r
  else
    let timeout_failure := LooksLikeTimeout r in
    if (timeout_failure && negb (retryOnTimeout (retryPolicy step))) ||
       (negb timeout_failure && negb (retryOnFailure (retryPolicy step)))
    then iteration_result step iteration r
    else if 0 <? delayBetweenAttempts (retryPolicy step) then FlowRetryWait iteration attempt
    else FlowAttempt iteration (attempt + 1).

(** [ExecuteStepOnce] up to what it waits for. *)
Definition timed_wait (step : MissionStep) (duration : Z) : Z * MissionResult :=
  match EffectiveTimeout step with
  | Some t =>
      if t <? duration then
        (t, if abortOnTimeout (timeoutPolicy step)
            then mission_Result MissionFailed "Mission step timed out"
            else mission_Result MissionCompleted "Mission step timed out and was skipped")
      else (duration, mission_Result MissionCompleted "Mission timed wait completed")
  | None => (duration, mission_Result MissionCompleted "Mission timed wait completed")
  end.

Definition begin_attempt (step : MissionStep) (iteration attempt : Z) : FlowPc :=
  match wait step, delay step with
  | Some x, _ =>
      let '(d, r) := timed_wait step (wait_duration x) in FlowTimed iteration attempt d r
  | None, Some x =>
      let '(d, r) := timed_wait step (delay_duration x) in FlowTimed iteration attempt d r
  | None, None => FlowExecute iteration attempt
  end.

Definition command_result (r : CommandResult) : MissionResult :=
  let m := FromCommandResult r in
  if bool_decide (mr_message m = EmptyString) then
    mission_Result (mr_status m) (if isSuccess m then "Mission step completed" else "Mission step failed")
  else m.

(** [WaitForDuration]: whether the time has passed without a cancellation;
    [None] while it waits. *)
Definition WaitForDuration (duration : Z) (i : FlowInput) (s : ExecutorState) : option bool :=
  match i with
  | Proceed => if CancellationRequested s then Some false else if duration <=? 0 then Some true else None
  | Elapsed => Some (negb (CancellationRequested s))
  | Views _ | Executed _ _ => None
  end.

Definition cancelled (m : string) : FlowPc := FlowDone (mission_Result MissionCancelled m).

(** A critical section that needs nothing from outside. *)
Definition proceed {A} (i : FlowInput) (x : option A) : option A :=
  match i with Proceed => x | _ => None end.

(** A transition of a thread that executes [step]. *)
Definition Flow (step : MissionStep) (i : FlowInput) (pc : FlowPc) (s : ExecutorState) :
    option (ExecutorState * FlowPc) :=
  match pc with
  | FlowStart =>
      match i with
      | Views views => pc ← Flow_start step views; Some (s, pc)
      | _ => None
      end
  | FlowIteration it _ =>
      proceed i (Some (s, if CancellationRequested s
                          then cancelled "Mission step cancelled before loop iteration"
                          else FlowIterationWait it))
  | FlowIterationWait it =>
      proceed i ('(s, runnable) ← WaitUntilRunnable s;
                 Some (s, if (runnable : bool) then FlowAttempt it 0
                          else cancelled "Mission step cancelled while paused"))
  | FlowAttempt it a =>
      proceed i (Some (s, if CancellationRequested s
                          then cancelled "Mission step cancelled before execution"
                          else FlowAttemptWait it a))
  | FlowAttemptWait it a =>
      proceed i ('(s, runnable) ← WaitUntilRunnable s;
                 Some (s, if (runnable : bool) then begin_attempt step it a
                          else cancelled "Mission step cancelled while paused"))
  | FlowExecute it a =>
      match i with
      | Executed now (inl r) => Some (s, attempt_result step it a (command_result r))
      | Executed now (inr e) => Some (s, FlowThrew e)
      | _ => None
      end
  | FlowTimed it a d elapsed =>
      uninterrupted ← WaitForDuration d i s;
      Some (s, attempt_result step it a
                 (if (uninterrupted : bool) then elapsed
                  else mission_Result MissionCancelled "Mission step cancelled during timed wait"))
  | FlowRetryWait it a =>
      uninterrupted ← WaitForDuration (delayBetweenAttempts (retryPolicy step)) i s;
      Some (s, if (uninterrupted : bool) then FlowAttempt it (a + 1)
               else cancelled "Mission step cancelled before retry")
  | FlowDone _ | FlowThrew _ => None
  end.

(* ------------------------------------------------------------------ *)
(** ** The worker *)

(** The first enabled step from an index on. *)
Fixpoint next_enabled (index : nat) (ss : list MissionStep) : option (nat * MissionStep) :=
  match ss with
  | [] => None
  | step :: ss => if enabled step then Some (index, step) else next_enabled (S index) ss
  end.

Definition Finish (st : MissionStatus) (m : string) (s : ExecutorState) : ExecutorState :=
  (set_status st m s) <| current_command_id := None |>.

(** [RunMission], one critical section or one step of the flow. *)
Definition Run (m : Mission) (i : FlowInput) (pc : WorkerPc) (s : ExecutorState) :
    option (ExecutorState * WorkerPc) :=
  match pc with
  | WorkerLoop index =>
      proceed i match next_enabled index (drop index (steps m)) with
      | None => Some (Finish MissionCompleted "Mission completed" s, WorkerDone)
      | Some (index, step) =>
          '(s, runnable) ← WaitUntilRunnable s;
          Some (s, if (runnable : bool) then WorkerEnter index step
                   else WorkerFinish MissionCancelled "Mission cancelled before next step")
      end
  | WorkerEnter index step =>
      proceed i (Some (s <| current_step_index := Some index |> <| current_step_id := Some (step_id step) |>
              <| current_command_id :=
                   if IsCommandStep step then Some (id (step_command step)) else None |>,
            WorkerFlow index step FlowStart))
  | WorkerFlow index step (FlowDone r) =>
      proceed i (Some (s <| current_command_id := None |>, WorkerCheck index r))
  | WorkerFlow index step (FlowThrew e) =>
      proceed i (Some (s, WorkerFinish MissionFailed
        (failure_message e "Mission execution failed" "Mission execution failed with an unknown error")))
  | WorkerFlow index step pc =>
      '(s, pc) ← Flow step i pc s;
      Some (s, WorkerFlow index step pc)
  | WorkerCheck index r =>
      proceed i
        (Some (s, if CancellationRequested s then WorkerFinish MissionCancelled "Mission cancelled"
                  else if negb (isSuccess r) then WorkerFinish MissionFailed (mr_message r)
                  else WorkerLoop (S index)))
  | WorkerFinish st msg => proceed i (Some (Finish st msg s, WorkerDone))
  | WorkerDone => None
  end.

Definition Worker_run (i : FlowInput) (s : ExecutorState) : option ExecutorState :=
  '(m, pc) ← worker s;
  '(s, pc) ← Run m i pc s;
  Some (s <| worker := Some (m, pc) |>).

(* ------------------------------------------------------------------ *)
(** ** Clients of [ExecuteStep] *)

Definition ExecuteStep (step : MissionStep) (s : ExecutorState) : ExecutorState :=
  s <| clients ::= λ l, l ++ [(step, FlowStart)] |>.

Definition Client_run (k : nat) (i : FlowInput) (s : ExecutorState) : option ExecutorState :=
  '(step, pc) ← clients s !! k;
  '(s, pc) ← Flow step i pc s;
  Some (s <| clients ::= insert k (step, pc) |>).

(** What [ExecuteStep] returns. *)
Definition ExecuteStep_result (pc : FlowPc) : option MissionResult :=
  match pc with
  | FlowDone r => Some r
  | FlowThrew e =>
      Some (mission_Result MissionFailed
              (failure_message e "Mission step execution failed"
                 "Mission step execution failed with an unknown error"))
  | _ => None
  end.

(* ------------------------------------------------------------------ *)
(** ** Interleavings *)

Inductive Label :=
  | LStart (m : Mission)
  | LStartJoined
  | LStartReset
  | LStartLaunch (threw : option Exception)
  | LPause
  | LResume
  | LCancel
  | LCancelSend
  | LStop
  | LStopSend
  | LStopJoined
  | LStopReport
  | LWorker (i : FlowInput)
  | LExecuteStep (step : MissionStep)
  | LClient (k : nat) (i : FlowInput).

Definition exec (s : ExecutorState) (l : Label) : option ExecutorState :=
  match l with
  | LStart m => fst <$> Start m s
  | LStartJoined => fst <$> Start_joined s
  | LStartReset => fst <$> Start_reset s
  | LStartLaunch threw => fst <$> Start_launch threw s
  | LPause => Some (Pause s).1
  | LResume => Some (Resume s).1
  | LCancel => Some (Cancel s).1
  | LCancelSend => Cancel_send s
  | LStop => fst <$> Stop s
  | LStopSend => fst <$> Stop_send s
  | LStopJoined => fst <$> Stop_joined s
  | LStopReport => fst <$> Stop_report s
  | LWorker i => Worker_run i s
  | LExecuteStep step => Some (ExecuteStep step s)
  | LClient k i => Client_run k i s
  end.

Definition reachable (s : ExecutorState) : Prop := ∃ ls, run exec new_executor ls = Some s.
End Executor.
