(* ===== verification/MissionProofs.v ===== *)
(** * Properties of missions

    A schema that is accepted is a mission that can run; a worker ends after
    boundedly many transitions and commands; a cancelled mission hands no
    further command to the dispatcher; pausing does not change what a mission
    does: its outcome is the one of the loops of the code, read as functions
    of the answers it meets. *)

From Stdlib Require Import SpecFloat.
From S2P Require Import Prelude Command RobotState SafetyValidator Mission MissionExecutor.

Open Scope Z_scope.

(* ------------------------------------------------------------------ *)
(** ** The validator *)

Lemma first_invalid_None {A} (check : A → nat → MissionValidationResult) l : ∀ i,
  first_invalid check i l = None ↔ ∀ j a, l !! j = Some a → valid (check a (i + j)%nat) = true.
Proof.
  induction l as [|a l IH]; intros i; simpl; [done|]. destruct (valid (check a i)) eqn:E; simpl.
  - rewrite IH. split.
    + intros H [|j] b Hj; simplify_eq/=; [by rewrite Nat.add_0_r|].
      rewrite Nat.add_succ_r. by apply (H j).
    + intros H j b Hj. rewrite Nat.add_succ_comm. by apply (H (S j)).
  - split; [done|]. intros H. specialize (H 0%nat a eq_refl). rewrite Nat.add_0_r in H. congruence.
Qed.

Lemma first_invalid_Some {A} (check : A → nat → MissionValidationResult) l : ∀ i r,
  first_invalid check i l = Some r → valid r = false.
Proof.
  induction l as [|a l IH]; intros i r; simpl; [done|].
  destruct (valid (check a i)) eqn:E; simpl; [apply IH|]. by intros [= <-].
Qed.

(** What the schema asks of a condition and of a step. *)
Definition condition_schema (c : MissionCondition) : Prop :=
  condition_id c ≠ 0 ∧ condition_name c ≠ EmptyString ∧
  IsKnownConditionType (condition_type c) = true ∧ IsKnownComparison (comparison c) = true ∧
  IsKnownFailureAction (failureAction c) = true ∧
  (boolean_condition (condition_type c) = true → IsBooleanComparison (comparison c) = true) ∧
  (condition_type c = ConditionCapability → IsKnownCommandType (commandType c) = true).

Definition command_schema (c : Command) : Prop :=
  isValid c = true ∧ IsKnownCommandType (type c) = true ∧ IsKnownPriority (priority c) = true.

Definition step_schema (s : MissionStep) : Prop :=
  step_id s ≠ 0 ∧ step_name s ≠ EmptyString ∧ 0 <= step_timeout s ∧
  RetryPolicy_isValid (retryPolicy s) = true ∧ LoopPolicy_isValid (loopPolicy s) = true ∧
  TimeoutPolicy_isValid (timeoutPolicy s) = true ∧
  valid_if_any WaitStep_isValid (wait s) = true ∧ valid_if_any DelayStep_isValid (delay s) = true ∧
  Forall condition_schema (conditions s) ∧
  (skip s || abort s || has_value (wait s) || has_value (delay s) = false → command_schema (step_command s)).

Definition mission_schema (m : Mission) : Prop :=
  mission_id m ≠ 0 ∧ mission_name m ≠ EmptyString ∧ version m ≠ EmptyString ∧ author m ≠ EmptyString ∧
  Forall (λ s, enabled s = true → step_schema s) (steps m) ∧ Exists (λ s, enabled s = true) (steps m).

(** A check is a chain of guards. *)
Lemma valid_guard (b : bool) x r : valid (if b then Invalid x else r) = true ↔ b = false ∧ valid r = true.
Proof. destruct b; simpl; naive_solver. Qed.

Lemma valid_skip (b : bool) r : valid (if b then Valid else r) = true ↔ (b = false → valid r = true).
Proof. destruct b; simpl; naive_solver. Qed.

Lemma valid_first {A} (check : A → nat → MissionValidationResult) i l r :
  valid (match first_invalid check i l with Some r' => r' | None => r end) = true ↔
  first_invalid check i l = None ∧ valid r = true.
Proof.
  destruct (first_invalid check i l) as [r'|] eqn:E; [|by split; [|intros [_ ?]]].
  apply first_invalid_Some in E. rewrite E. by split; [|intros [? _]].
Qed.

Lemma eqb_0 x : (x =? 0) = false ↔ x ≠ 0.
Proof. apply Z.eqb_neq. Qed.

Ltac read_guards :=
  rewrite ?valid_guard, ?valid_first, ?valid_skip, ?valid_guard, ?negb_false_iff, ?eqb_0,
    ?bool_decide_eq_false, ?Z.ltb_ge, ?andb_false_iff, ?negb_false_iff, ?bool_decide_eq_false.

Lemma ValidateCondition_schema c i j : valid (ValidateCondition c i j) = true ↔ condition_schema c.
Proof.
  unfold ValidateCondition, condition_schema. read_guards.
  assert (valid Valid = true) by done.
  destruct (boolean_condition _), (IsKnownCommandType _);
    destruct (decide (condition_type c = ConditionCapability)); intuition congruence.
Qed.

Lemma Forall_lookup_index {A} (P : A → Prop) (check : A → nat → bool) l i :
  (∀ a j, check a j = true ↔ P a) →
  (∀ j a, l !! j = Some a → check a (i + j)%nat = true) ↔ Forall P l.
Proof.
  intros H. rewrite Forall_lookup. split; intros Hl j a Hj.
  - apply (H a (i + j)%nat). by apply Hl.
  - apply H. by eapply Hl.
Qed.

Lemma conditions_schema cs i :
  first_invalid (λ c j, ValidateCondition c i j) 0 cs = None ↔ Forall condition_schema cs.
Proof.
  rewrite first_invalid_None.
  apply (Forall_lookup_index _ (λ c j, valid (ValidateCondition c i j))).
  intros. apply ValidateCondition_schema.
Qed.

Lemma command_guards c p1 p2 p3 p4 p5 :
  valid (if id c =? 0 then Invalid p1
         else if negb (IsKnownCommandType (type c)) then Invalid p2
         else if negb (IsKnownPriority (priority c)) then Invalid p3
         else if timeout c <? 0 then Invalid p4
         else if negb (isValid c) then Invalid p5 else Valid) = true ↔ command_schema c.
Proof.
  read_guards. unfold command_schema, isValid. rewrite andb_true_iff, negb_true_iff, eqb_0, Z.leb_le.
  assert (valid Valid = true) by done. tauto.
Qed.

Lemma ValidateStep_schema s i : valid (ValidateStep s i) = true ↔ (enabled s = true → step_schema s).
Proof.
  unfold ValidateStep, step_schema. destruct (enabled s); simpl; [|naive_solver].
  rewrite !valid_guard, valid_first, valid_skip, command_guards, conditions_schema.
  rewrite !negb_false_iff, eqb_0, bool_decide_eq_false, Z.ltb_ge. tauto.
Qed.

Lemma ValidateMission_schema m : valid (ValidateMission m) = true ↔ mission_schema m.
Proof.
  unfold ValidateMission, mission_schema. rewrite !valid_guard, valid_first, valid_guard.
  rewrite eqb_0, !bool_decide_eq_false, negb_false_iff, first_invalid_None.
  rewrite (Forall_lookup_index (λ s, enabled s = true → step_schema s) (λ s i, valid (ValidateStep s i)))
    by (intros; apply ValidateStep_schema).
  assert (He : existsb enabled (steps m) = true ↔ Exists (λ s, enabled s = true) (steps m)).
  { by rewrite existsb_exists, List.Exists_exists. }
  rewrite He. assert (valid Valid = true) by done.
  assert (Exists (λ s, enabled s = true) (steps m) → steps m ≠ []) by (intros H' E; rewrite E in H'; inversion H').
  tauto.
Qed.

Lemma step_schema_valid s : step_schema s → MissionStep_isValid s = true.
Proof.
  intros (Hid & _ & Ht & Hr & Hl & Hp & Hw & Hd & Hc & Hcmd). unfold MissionStep_isValid.
  rewrite Hr, Hl, Hp, Hw, Hd.
  rewrite (proj2 (Z.eqb_neq _ _) Hid), (proj2 (Z.ltb_ge _ _) Ht). simpl.
  assert (forallb MissionCondition_isValid (conditions s) = true) as ->.
  { apply forallb_forall. intros c Hin%list_elem_of_In. rewrite Forall_forall in Hc.
    apply Hc in Hin as [Hcid _]. unfold MissionCondition_isValid.
    by rewrite (proj2 (Z.eqb_neq _ _) Hcid). }
  simpl. destruct (skip s || abort s || _ || _); [done|]. by apply Hcmd.
Qed.

Lemma mission_schema_steps m :
  mission_schema m → Forall (λ s, enabled s = true → MissionStep_isValid s = true) (steps m).
Proof.
  intros (_ & _ & _ & _ & Hs & _). eapply Forall_impl; [exact Hs|]. eauto using step_schema_valid.
Qed.

Lemma mission_schema_isValid m : mission_schema m → Mission_isValid m = true.
Proof.
  intros Hm. pose proof (mission_schema_steps m Hm) as Hv. destruct Hm as (Hid & _ & _ & _ & _ & He).
  unfold Mission_isValid. rewrite (proj2 (Z.eqb_neq _ _) Hid), !andb_true_iff. split_and!; [|done|].
  - apply forallb_forall. intros s Hin%list_elem_of_In. rewrite Forall_forall in Hv.
    specialize (Hv s Hin). destruct (enabled s); simpl; [|done]. by rewrite Hv.
  - by rewrite existsb_exists, <-List.Exists_exists.
Qed.

(** The validator accepts exactly the missions that satisfy the schema,
    and a mission that it accepts can be executed: the executor finds it and
    each of its steps valid, and no condition of it is refused as invalid or
    of unknown type. *)
Theorem ValidateMission_exact m :
  (valid (ValidateMission m) = true ↔ mission_schema m) ∧
  (valid (ValidateMission m) = true →
   Mission_isValid m = true ∧
   Forall (λ s, enabled s = true → MissionStep_isValid s = true) (steps m) ∧
   ∀ s c x st now, s ∈ steps m → enabled s = true → c ∈ conditions s →
     event_message (event (Evaluate x (Some st) c now)) ≠ "Mission condition is not valid"%string ∧
     event_message (event (Evaluate x (Some st) c now)) ≠ "Unknown mission condition type"%string).
Proof.
  split; [apply ValidateMission_schema|]. rewrite ValidateMission_schema.
  intros Hm. split_and!; [by apply mission_schema_isValid|by apply mission_schema_steps|].
  intros s c x st now Hin Hen Hc. destruct Hm as (_ & _ & _ & _ & Hs & _). rewrite Forall_forall in Hs.
  destruct (Hs s Hin Hen) as (_ & _ & _ & _ & _ & _ & _ & _ & Hcs & _).
  rewrite Forall_forall in Hcs. destruct (Hcs c Hc) as (Hcid & _ & Hknown & _).
  unfold Evaluate, MissionCondition_isValid. rewrite (proj2 (Z.eqb_neq _ _) Hcid). simpl.
  destruct (condition_type c) eqn:E; simpl; rewrite ?E; try done;
    repeat (case_match; simpl); rewrite ?E; done.
Qed.

(* ------------------------------------------------------------------ *)
(** ** Transitions of a thread that executes a step *)

Section Executor.
Context (has_dispatcher has_evaluator : bool).
Abbreviation Flow := (Flow has_dispatcher has_evaluator).
Abbreviation Run := (Run has_dispatcher has_evaluator).
Abbreviation Worker_run := (Worker_run has_dispatcher has_evaluator).
Abbreviation exec := (exec has_dispatcher has_evaluator).

Lemma proceed_Some {A} i (x : option A) y : proceed i x = Some y → i = Proceed ∧ x = Some y.
Proof. by destruct i. Qed.

Lemma WaitUntilRunnable_Some s s' b :
  WaitUntilRunnable s = Some (s', b) →
  b = negb (CancellationRequested s) ∧
  s' = if b then set_status MissionRunning "Mission execution running" s else s.
Proof. unfold WaitUntilRunnable. by destruct (pause_requested s), (CancellationRequested s); intros [= <- <-]. Qed.

(** What a flow may change of the executor. *)
Definition flow_frame (s s' : ExecutorState) : Prop :=
  s' = s ∨ s' = set_status MissionRunning "Mission execution running" s ∧ CancellationRequested s = false.

(** The successors of a program point. *)
Inductive flow_steps (step : MissionStep) (c : bool) : FlowPc → FlowInput → FlowPc → Prop :=
  | steps_start views pc :
      Flow_start has_dispatcher has_evaluator step views = Some pc →
      flow_steps step c FlowStart (Views views) pc
  | steps_iteration it r :
      flow_steps step c (FlowIteration it r) Proceed
        (if c then cancelled "Mission step cancelled before loop iteration" else FlowIterationWait it)
  | steps_iteration_wait it :
      flow_steps step c (FlowIterationWait it) Proceed
        (if c then cancelled "Mission step cancelled while paused" else FlowAttempt it 0)
  | steps_attempt it a :
      flow_steps step c (FlowAttempt it a) Proceed
        (if c then cancelled "Mission step cancelled before execution" else FlowAttemptWait it a)
  | steps_attempt_wait it a :
      flow_steps step c (FlowAttemptWait it a) Proceed
        (if c then cancelled "Mission step cancelled while paused" else begin_attempt step it a)
  | steps_execute it a now r :
      flow_steps step c (FlowExecute it a) (Executed now (inl r))
        (attempt_result step it a (command_result r))
  | steps_throw it a now e :
      flow_steps step c (FlowExecute it a) (Executed now (inr e)) (FlowThrew e)
  | steps_timed it a d r i :
      i = Proceed ∨ i = Elapsed →
      flow_steps step c (FlowTimed it a d r) i
        (attempt_result step it a
           (if c then mission_Result MissionCancelled "Mission step cancelled during timed wait" else r))
  | steps_retry it a i :
      i = Proceed ∨ i = Elapsed →
      flow_steps step c (FlowRetryWait it a) i
        (if c then cancelled "Mission step cancelled before retry" else FlowAttempt it (a + 1)).

Lemma WaitForDuration_Some d i s b :
  WaitForDuration d i s = Some b →
  b = negb (CancellationRequested s) ∧ (i = Proceed ∨ i = Elapsed).
Proof.
  unfold WaitForDuration. destruct i; try done; destruct (CancellationRequested s); simpl;
    repeat case_match; intros; simplify_eq; auto.
Qed.

Lemma Flow_steps step i pc s s' pc' :
  Flow step i pc s = Some (s', pc') →
  flow_steps step (CancellationRequested s) pc i pc' ∧ flow_frame s s'.
Proof.
  unfold flow_frame. intros E. destruct pc; simpl in E; try done.
  - destruct i; try done. destruct (Flow_start _ _ _ _) eqn:Ef; simplify_eq/=.
    split; [by constructor|by left].
  - apply proceed_Some in E as [-> [= <- <-]]. split; [constructor|by left].
  - apply proceed_Some in E as [-> E]. destruct (WaitUntilRunnable s) as [[s1 b]|] eqn:Ew; [|done].
    apply WaitUntilRunnable_Some in Ew as [-> ->]. simplify_eq/=.
    split; [|destruct (CancellationRequested s); auto].
    pose proof (steps_iteration_wait step (CancellationRequested s) iteration). by destruct (CancellationRequested s).
  - apply proceed_Some in E as [-> [= <- <-]]. split; [constructor|by left].
  - apply proceed_Some in E as [-> E]. destruct (WaitUntilRunnable s) as [[s1 b]|] eqn:Ew; [|done].
    apply WaitUntilRunnable_Some in Ew as [-> ->]. simplify_eq/=.
    split; [|destruct (CancellationRequested s); auto].
    pose proof (steps_attempt_wait step (CancellationRequested s) iteration attempt).
    by destruct (CancellationRequested s).
  - destruct i as [| |now [r|e]|]; simplify_eq; (split; [constructor|by left]).
  - destruct (WaitForDuration duration i s) as [b|] eqn:Ew; simplify_eq/=.
    apply WaitForDuration_Some in Ew as [-> Hi]. split; [|by left].
    pose proof (steps_timed step (CancellationRequested s') iteration attempt duration elapsed i Hi).
    by destruct (CancellationRequested s').
  - destruct (WaitForDuration _ i s) as [b|] eqn:Ew; simplify_eq/=.
    apply WaitForDuration_Some in Ew as [-> Hi]. split; [|by left].
    pose proof (steps_retry step (CancellationRequested s') iteration attempt i Hi).
    by destruct (CancellationRequested s').
Qed.

(* ------------------------------------------------------------------ *)
(** ** Bounds *)

(** The program points of a step that passed its checks are within its loop
    and its attempts. *)
Definition flow_ok (step : MissionStep) (pc : FlowPc) : Prop :=
  let A := EffectiveMaxAttempts step in
  let I := iterations (loopPolicy step) in
  match pc with
  | FlowIteration it _ | FlowIterationWait it => 1 <= A ∧ 0 <= it < I
  | FlowAttempt it a | FlowAttemptWait it a | FlowExecute it a | FlowTimed it a _ _ =>
      0 <= it < I ∧ 0 <= a < A
  | FlowRetryWait it a => 0 <= it < I ∧ 0 <= a ∧ a + 1 < A
  | FlowStart | FlowDone _ | FlowThrew _ => True
  end.

(** The commands a step may still hand to the dispatcher. *)
Definition step_commands (step : MissionStep) : Z :=
  Z.max 0 (iterations (loopPolicy step)) * Z.max 0 (EffectiveMaxAttempts step).

Definition flow_commands (step : MissionStep) (pc : FlowPc) : Z :=
  let A := EffectiveMaxAttempts step in
  let I := iterations (loopPolicy step) in
  match pc with
  | FlowStart => step_commands step
  | FlowIteration it _ | FlowIterationWait it => (I - it) * A
  | FlowAttempt it a | FlowAttemptWait it a | FlowExecute it a | FlowTimed it a _ _ =>
      (I - it - 1) * A + (A - a)
  | FlowRetryWait it a => (I - it - 1) * A + (A - a - 1)
  | FlowDone _ | FlowThrew _ => 0
  end.

(** The transitions that are left: at most four for each attempt and three
    for each iteration. *)
Definition flow_measure (step : MissionStep) (pc : FlowPc) : Z :=
  let I := iterations (loopPolicy step) in
  let rest it := 4 * flow_commands step pc + 3 * (I - it) in
  match pc with
  | FlowStart => 4 * step_commands step + 3 * Z.max 0 I + 1
  | FlowIteration it _ => rest it
  | FlowIterationWait it => rest it - 1
  | FlowAttempt it a => rest (it + 1) + 1
  | FlowAttemptWait it a => rest (it + 1)
  | FlowExecute it a | FlowTimed it a _ _ => rest (it + 1) - 1
  | FlowRetryWait it a => rest (it + 1) + 2
  | FlowDone _ | FlowThrew _ => 0
  end.

Definition executes (i : FlowInput) : Z := match i with Executed _ _ => 1 | _ => 0 end.

Lemma EffectiveMaxAttempts_pos step : MissionStep_isValid step = true → 1 <= EffectiveMaxAttempts step.
Proof.
  unfold MissionStep_isValid. destruct (_ || _ || _ || _ || _) eqn:E; [done|]. intros _.
  rewrite !orb_false_iff, !negb_false_iff in E. destruct E as [[[_ Hr] _] _].
  unfold RetryPolicy_isValid in Hr. apply andb_true_iff in Hr as [Hr%Z.ltb_lt _].
  unfold EffectiveMaxAttempts. case_match eqn:Hlt; [lia|]. apply Z.ltb_ge in Hlt. lia.
Qed.

(** What the checks lead to: the loop, or a result. *)
Lemma Flow_start_pc step views pc :
  Flow_start has_dispatcher has_evaluator step views = Some pc →
  (∃ r, pc = FlowDone r) ∨
  (∃ r, pc = FlowIteration 0 r ∧ 0 < iterations (loopPolicy step) ∧ 1 <= EffectiveMaxAttempts step).
Proof.
  unfold Flow_start. intros E. destruct has_dispatcher; simplify_eq/=; [|by left; eauto].
  destruct (MissionStep_isValid step) eqn:Hv; simplify_eq/=; [|by left; eauto].
  destruct (skip step); simplify_eq/=; [by left; eauto|].
  destruct (abort step); simplify_eq/=; [by left; eauto|].
  destruct (EvaluateStepConditions _ _ _) as [r|]; simplify_eq/=.
  destruct (isSuccess r); simplify_eq/=; [|by left; eauto].
  case_bool_decide; [by left; eauto|]. right. eexists. split; [done|].
  split; [|by apply EffectiveMaxAttempts_pos].
  unfold MissionStep_isValid in Hv. destruct (_ || _ || _ || _ || _) eqn:E; [done|].
  rewrite !orb_false_iff, !negb_false_iff in E. destruct E as [[_ Hl] _]. by apply Z.ltb_lt.
Qed.

(** The bounds of a program point, spelled out for [lia]. *)
Definition within (step : MissionStep) (commands measure : Z) (pc : FlowPc) : Prop :=
  flow_ok step pc ∧ 0 <= flow_commands step pc <= commands ∧ 0 <= flow_measure step pc < measure.

(** [bounds it] is [lia] with what it needs to know of the products. *)
Ltac bounds step it :=
  unfold within; simpl; rewrite ?Z.sub_0_r;
  pose proof (Z.mul_sub_distr_r (iterations (loopPolicy step) - it) 1 (EffectiveMaxAttempts step));
  assert (0 <= (iterations (loopPolicy step) - it - 1) * EffectiveMaxAttempts step)
    by (apply Z.mul_nonneg_nonneg; lia);
  lia.

Lemma within_Done step c m r : 0 <= c → 0 < m → within step c m (FlowDone r).
Proof. unfold within. simpl. lia. Qed.

Lemma within_next step it a r :
  0 <= it < iterations (loopPolicy step) → 0 <= a < EffectiveMaxAttempts step →
  within step ((iterations (loopPolicy step) - it - 1) * EffectiveMaxAttempts step)
    (4 * ((iterations (loopPolicy step) - it - 1) * EffectiveMaxAttempts step) +
     3 * (iterations (loopPolicy step) - it - 1) + 1)
    (next_iteration step (it + 1) r).
Proof.
  intros Hit Ha. unfold next_iteration. destruct (Z.ltb_spec (it + 1) (iterations (loopPolicy step))).
  - unfold within. simpl.
    replace (iterations (loopPolicy step) - (it + 1)) with (iterations (loopPolicy step) - it - 1) by lia.
    bounds step it.
  - apply within_Done; bounds step it.
Qed.

Lemma within_weaken step c c' m m' pc : within step c m pc → c <= c' → m <= m' → within step c' m' pc.
Proof. intros (H & Hc & Hm) ??. split; [done|lia]. Qed.

Lemma within_attempt_result step it a r :
  0 <= it < iterations (loopPolicy step) → 0 <= a < EffectiveMaxAttempts step →
  within step (flow_commands step (FlowExecute it a) - 1) (flow_measure step (FlowExecute it a))
    (attempt_result step it a r).
Proof.
  intros Hit Ha. pose proof (within_next step it a r Hit Ha) as Hnext.
  set (N := (iterations (loopPolicy step) - it - 1) * EffectiveMaxAttempts step) in *.
  assert (0 <= N) by (unfold N; apply Z.mul_nonneg_nonneg; lia).
  assert (Hr : within step (flow_commands step (FlowExecute it a) - 1)
    (flow_measure step (FlowExecute it a)) (iteration_result step it r)).
  { unfold iteration_result. destruct (isSuccess r); simpl.
    - eapply within_weaken; [exact Hnext|simpl; fold N; lia..].
    - apply within_Done; simpl; fold N; lia. }
  unfold attempt_result. destruct (_ || _ || _) eqn:E; [done|].
  rewrite !orb_false_iff in E. destruct E as [_ Hlt%Z.leb_gt].
  destruct (_ || _); [done|]. destruct (0 <? _); unfold within; simpl; fold N;
    replace (EffectiveMaxAttempts step - (a + 1)) with (EffectiveMaxAttempts step - a - 1) by lia; lia.
Qed.

Lemma begin_attempt_cases step it a :
  begin_attempt step it a = FlowExecute it a ∨ ∃ d r, begin_attempt step it a = FlowTimed it a d r.
Proof.
  unfold begin_attempt. destruct (wait step) as [x|].
  - destruct (timed_wait step (wait_duration x)) as [d r]. right. eauto.
  - destruct (delay step) as [x|]; [|by left]. destruct (timed_wait step (delay_duration x)) as [d r].
    right. eauto.
Qed.

Lemma flow_steps_within step c pc i pc' :
  flow_ok step pc → flow_steps step c pc i pc' →
  within step (flow_commands step pc - executes i) (flow_measure step pc) pc'.
Proof.
  intros Hok H. destruct H as [views pc Hs|it r|it|it a|it a|it a now r|it a now e|it a d r i Hi|it a i Hi];
    simpl in Hok.
  - apply Flow_start_pc in Hs as [[r ->]|(r & -> & HI & HA)].
    + apply within_Done; simpl; unfold step_commands; lia.
    + unfold within. simpl. unfold step_commands. rewrite !(Z.max_r 0) by lia. rewrite Z.sub_0_r. lia.
  - destruct c; [apply within_Done; bounds step it|bounds step it].
  - destruct c; [apply within_Done; bounds step it|bounds step it].
  - destruct c; [apply within_Done; bounds step it|bounds step it].
  - destruct c; [apply within_Done; bounds step it|].
    destruct (begin_attempt_cases step it a) as [->|(d & r & ->)]; bounds step it.
  - apply within_attempt_result; tauto.
  - bounds step it.
  - assert (executes i = 0) as -> by (destruct Hi; by subst).
    eapply within_weaken; [apply within_attempt_result; tauto|simpl; lia..].
  - assert (executes i = 0) as -> by (destruct Hi; by subst).
    destruct c; [apply within_Done; bounds step it|].
    unfold within. simpl.
    replace (EffectiveMaxAttempts step - (a + 1)) with (EffectiveMaxAttempts step - a - 1) by lia.
    bounds step it.
Qed.

(* ------------------------------------------------------------------ *)
(** ** The worker *)

(** The sum over the enabled steps. *)
Fixpoint sum_enabled (cost : MissionStep → Z) (l : list MissionStep) : Z :=
  match l with
  | [] => 0
  | step :: l => (if enabled step then cost step else 0) + sum_enabled cost l
  end.

Lemma sum_enabled_nonneg cost l : (∀ step, 0 <= cost step) → 0 <= sum_enabled cost l.
Proof.
  intros H. induction l as [|step l IH]; simpl; [lia|]. specialize (H step). destruct (enabled step); lia.
Qed.

Lemma next_enabled_sum cost ss : ∀ index j step,
  (∀ step, 0 <= cost step) →
  next_enabled index (drop index ss) = Some (j, step) →
  ss !! j = Some step ∧ enabled step = true ∧ (index ≤ j)%nat ∧
  cost step + sum_enabled cost (drop (S j) ss) <= sum_enabled cost (drop index ss).
Proof.
  intros index. remember (drop index ss) as l eqn:El. revert index El.
  induction l as [|step0 l IH]; intros index El j step Hcost; simpl; [done|].
  assert (Hhd : ss !! index = Some step0).
  { pose proof (lookup_drop ss index 0) as H. rewrite <-El, Nat.add_0_r in H. done. }
  assert (Htl : l = drop (S index) ss).
  { replace (drop (S index) ss) with (drop 1 (drop index ss)) by (rewrite drop_drop; f_equal; lia).
    by rewrite <-El. }
  destruct (enabled step0) eqn:Een.
  - intros [= <- <-]. rewrite <-Htl. split_and!; [done..|lia|lia].
  - intros E. destruct (IH (S index) Htl j step Hcost E) as (? & ? & ? & ?). split_and!; [done..|lia|lia].
Qed.

Definition step_cost (step : MissionStep) : Z := flow_measure step FlowStart + 7.

Definition worker_measure (m : Mission) (pc : WorkerPc) : Z :=
  let rest i := sum_enabled step_cost (drop i (steps m)) in
  match pc with
  | WorkerLoop i => rest i + 2
  | WorkerEnter i step => rest (S i) + step_cost step + 1
  | WorkerFlow i step pc => rest (S i) + flow_measure step pc + 5
  | WorkerCheck i _ => rest (S i) + 4
  | WorkerFinish _ _ => 1
  | WorkerDone => 0
  end.

Definition worker_commands (m : Mission) (pc : WorkerPc) : Z :=
  let rest i := sum_enabled step_commands (drop i (steps m)) in
  match pc with
  | WorkerLoop i => rest i
  | WorkerEnter i step => rest (S i) + step_commands step
  | WorkerFlow i step pc => rest (S i) + flow_commands step pc
  | WorkerCheck i _ => rest (S i)
  | WorkerFinish _ _ | WorkerDone => 0
  end.

Definition worker_ok (pc : WorkerPc) : Prop :=
  match pc with WorkerFlow _ step pc => flow_ok step pc | _ => True end.

Lemma step_commands_nonneg step : 0 <= step_commands step.
Proof. unfold step_commands. lia. Qed.

Lemma step_cost_nonneg step : 0 <= step_cost step.
Proof. unfold step_cost. simpl. pose proof (step_commands_nonneg step). lia. Qed.

Lemma rest_nonneg m i :
  0 <= sum_enabled step_cost (drop i (steps m)) ∧ 0 <= sum_enabled step_commands (drop i (steps m)).
Proof. split; apply sum_enabled_nonneg; auto using step_cost_nonneg, step_commands_nonneg. Qed.

(** The inside of a flow; its two ends are separate cases of [Run]. *)
Definition flow_end (pc : FlowPc) : bool :=
  match pc with FlowDone _ | FlowThrew _ => true | _ => false end.

Lemma Run_flow m i index step pc s :
  flow_end pc = false →
  Run m i (WorkerFlow index step pc) s =
  match Flow step i pc s with Some (s, pc) => Some (s, WorkerFlow index step pc) | None => None end.
Proof.
  intros H. destruct pc; try done; simpl; destruct i; simpl; try done;
    repeat (case_match; simplify_eq/=; try done).
Qed.

Lemma Run_within m i pc s s' pc' :
  worker_ok pc → Run m i pc s = Some (s', pc') →
  worker_ok pc' ∧ 0 <= worker_commands m pc' <= worker_commands m pc - executes i ∧
  0 <= worker_measure m pc' < worker_measure m pc.
Proof.
  intros Hok E. destruct pc as [index|index step|index step pc|index r|st msg|].
  - simpl in E. apply proceed_Some in E as [-> E]. pose proof (rest_nonneg m index).
    destruct (next_enabled _ _) as [[j step]|] eqn:En; [|simplify_eq/=; lia].
    pose proof (next_enabled_sum step_cost _ _ _ _ step_cost_nonneg En) as (_ & _ & _ & Hc).
    pose proof (next_enabled_sum step_commands _ _ _ _ step_commands_nonneg En) as (_ & _ & _ & Hk).
    pose proof (rest_nonneg m (S j)). pose proof (step_cost_nonneg step). pose proof (step_commands_nonneg step).
    destruct (WaitUntilRunnable s) as [[s1 []]|]; simplify_eq/=; lia.
  - simpl in E. apply proceed_Some in E as [-> E]. simplify_eq/=.
    pose proof (rest_nonneg m (S index)). pose proof (step_commands_nonneg step).
    assert (Hcost : step_cost step = flow_measure step FlowStart + 7) by done.
    simpl in Hcost. lia.
  - pose proof (rest_nonneg m (S index)). destruct (flow_end pc) eqn:Hend.
    + destruct pc; try done; simpl in E; apply proceed_Some in E as [-> E]; simplify_eq/=; lia.
    + rewrite Run_flow in E by done. destruct (Flow step i pc s) as [[s1 pc1]|] eqn:Ef; simplify_eq.
      apply Flow_steps in Ef as [Hs _]. apply flow_steps_within in Hs as (Hok' & Hc & Hm); [|exact Hok].
      simpl. split; [exact Hok'|]. lia.
  - simpl in E. apply proceed_Some in E as [-> E]. pose proof (rest_nonneg m (S index)).
    simplify_eq. destruct (CancellationRequested s'); [cbn; lia|]. destruct (isSuccess r); cbn; lia.
  - simpl in E. apply proceed_Some in E as [-> E]. simplify_eq/=. lia.
  - done.
Qed.

(* ------------------------------------------------------------------ *)
(** ** Runs of the executor *)

Definition worker_label (l : Label) : option FlowInput :=
  match l with LWorker i => Some i | _ => None end.

(** A new worker starts. *)
Definition relaunches (l : Label) : bool :=
  match l with LStartLaunch None => true | _ => false end.

(** Nothing but its own transitions moves the worker; a finished one is joined. *)
Lemma exec_worker s l s' :
  exec s l = Some s' → worker_label l = None → relaunches l = false →
  worker s' = worker s ∨ worker_done s = true ∧ worker s' = None.
Proof.
  intros E Hl Hn. destruct l; simpl in E, Hl, Hn; try done.
  - unfold Start, Start_check, answer in E. repeat case_match; simplify_eq/=; auto.
  - unfold Start_joined, Start_check, answer in E.
    repeat case_match; simplify_eq/=; auto.
  - unfold Start_reset in E. repeat case_match; simplify_eq/=; auto.
  - unfold Start_launch, answer in E. repeat case_match; simplify_eq/=; auto.
  - simplify_eq. unfold Pause. repeat case_match; simplify_eq/=; auto.
  - simplify_eq. unfold Resume. repeat case_match; simplify_eq/=; auto.
  - simplify_eq. unfold Cancel. repeat case_match; simplify_eq/=; auto.
  - unfold Cancel_send in E. repeat case_match; simplify_eq/=; auto.
  - unfold Stop in E. repeat case_match; simplify_eq/=; auto.
  - unfold Stop_send in E. repeat case_match; simplify_eq/=; auto.
  - unfold Stop_joined in E. repeat case_match; simplify_eq/=; auto.
  - unfold Stop_report, answer in E. repeat case_match; simplify_eq/=; auto.
  - simplify_eq/=. auto.
  - unfold Client_run in E. destruct (clients s !! k) as [[step pc]|]; simplify_eq/=.
    destruct (Flow step i pc s) as [[s1 pc1]|] eqn:Ef; simplify_eq/=.
    apply Flow_steps in Ef as [_ [-> | [-> _]]]; auto.
Qed.

Definition running_ok (s : ExecutorState) : Prop :=
  match worker s with Some (_, pc) => worker_ok pc | None => True end.

Lemma Worker_run_pc i s s' :
  Worker_run i s = Some s' →
  ∃ m pc s1 pc', worker s = Some (m, pc) ∧ Run m i pc s = Some (s1, pc') ∧ s' = s1 <| worker := Some (m, pc') |>.
Proof.
  unfold Worker_run. destruct (worker s) as [[m pc]|]; [|done]. simpl.
  destruct (Run m i pc s) as [[s1 pc']|] eqn:Er; [|done]. intros [= <-]. exists m, pc, s1, pc'.
  rewrite Er. by split_and!.
Qed.

Lemma exec_running_ok s l s' : running_ok s → exec s l = Some s' → running_ok s'.
Proof.
  unfold running_ok. intros Hok E. destruct (worker_label l) as [i|] eqn:Hl.
  - destruct l; simplify_eq/=. apply Worker_run_pc in E as (m & pc & s1 & pc' & Hw & Hr & ->).
    rewrite Hw in Hok. simpl. by eapply Run_within in Hr as [? _].
  - destruct (relaunches l) eqn:Hn.
    + destruct l as [| | |[|]| | | | | | | | | | |]; try done. simpl in E. unfold Start_launch in E.
      destruct (control s); simplify_eq/=; done.
    + apply exec_worker in E as [->|[_ ->]]; done.
Qed.

(** The transitions and the commands that are left to the worker. *)
Definition measure (s : ExecutorState) : Z :=
  match worker s with Some (m, pc) => worker_measure m pc | None => 0 end.

Definition commands_left (s : ExecutorState) : Z :=
  match worker s with Some (m, pc) => worker_commands m pc | None => 0 end.

(** The inputs of the worker along a run. *)
Fixpoint worker_labels (ls : list Label) : list FlowInput :=
  match ls with
  | [] => []
  | l :: ls => match worker_label l with Some i => i :: worker_labels ls | None => worker_labels ls end
  end.

Definition executed (ls : list Label) : Z := foldr (λ i n, executes i + n) 0 (worker_labels ls).

Lemma flow_bounds step pc : flow_ok step pc → 0 <= flow_commands step pc ∧ 0 <= flow_measure step pc.
Proof.
  pose proof (step_commands_nonneg step). destruct pc as [|it r|it|it a|it a|it a|it a d r|it a|r|e];
    intros Hok; simpl in Hok; try (bounds step it). all: simpl; lia.
Qed.

Lemma worker_bounds s : running_ok s → 0 <= measure s ∧ 0 <= commands_left s.
Proof.
  unfold running_ok, measure, commands_left. destruct (worker s) as [[m pc]|]; [|lia].
  destruct pc as [index|index step|index step pc|index r|st msg|]; cbn; intros Hok;
    try (pose proof (rest_nonneg m index)); try (pose proof (rest_nonneg m (S index))); try lia.
  - pose proof (step_commands_nonneg step). pose proof (step_cost_nonneg step). lia.
  - apply flow_bounds in Hok. lia.
Qed.

Lemma exec_bounded s l s' :
  running_ok s → exec s l = Some s' → relaunches l = false →
  match worker_label l with
  | Some i => measure s' < measure s ∧ commands_left s' <= commands_left s - executes i
  | None => measure s' <= measure s ∧ commands_left s' <= commands_left s
  end.
Proof.
  intros Hok E Hn. pose proof (worker_bounds s Hok) as Hb. destruct (worker_label l) as [i|] eqn:Hl.
  - destruct l; simplify_eq/=. apply Worker_run_pc in E as (m & pc & s1 & pc' & Hw & Hr & ->).
    unfold running_ok, measure, commands_left in *. rewrite Hw in Hok |- *. simpl.
    apply Run_within in Hr; [|exact Hok]. lia.
  - unfold measure, commands_left in *. apply exec_worker in E as [->|[_ ->]]; [lia..|done|done].
Qed.

Lemma run_bounded ls : ∀ s s',
  running_ok s → run exec s ls = Some s' → forallb (λ l, negb (relaunches l)) ls = true →
  Z.of_nat (length (worker_labels ls)) <= measure s ∧ executed ls <= commands_left s.
Proof.
  induction ls as [|l ls IH]; intros s s' Hok E Hn; simpl in E, Hn.
  { apply worker_bounds in Hok. exact Hok. }
  apply andb_true_iff in Hn as [Hl%negb_true_iff Hn].
  destruct (exec s l) as [s1|] eqn:E1; [|done].
  pose proof (exec_running_ok _ _ _ Hok E1) as Hok1. specialize (IH s1 s' Hok1 E Hn) as [H1 H2].
  pose proof (exec_bounded _ _ _ Hok E1 Hl) as Hb.
  unfold executed in *. simpl. destruct (worker_label l) as [i|]; simpl; lia.
Qed.

Lemma reachable_running_ok s : reachable has_dispatcher has_evaluator s → running_ok s.
Proof.
  intros [ls E]. refine (run_invariant exec running_ok _ ls new_executor s I E).
  intros s0 l s1. apply exec_running_ok.
Qed.

(* ------------------------------------------------------------------ *)
(** ** Missions end *)

Lemma evaluate_conditions_defined cs : ∀ views,
  (length cs ≤ length views)%nat → is_Some (evaluate_conditions cs views).
Proof.
  induction cs as [|c cs IH]; intros [|v views] Hlen; simpl in *; try lia; eauto.
  repeat case_match; eauto. apply IH. lia.
Qed.

Definition no_view : View :=
  mkView (mkEvaluatorContext LegacyAdapterDefaults false) None 0.

Lemma Flow_start_defined step :
  is_Some (Flow_start has_dispatcher has_evaluator step (replicate (length (conditions step)) no_view)).
Proof.
  unfold Flow_start, EvaluateStepConditions.
  destruct (evaluate_conditions_defined (conditions step) (replicate (length (conditions step)) no_view))
    as [r Hr]; [by rewrite length_replicate|].
  rewrite Hr. repeat case_match; simpl; eauto.
Qed.

Definition paused (s : ExecutorState) : Prop := pause_requested s = true ∧ CancellationRequested s = false.

Lemma WaitUntilRunnable_defined s : ¬ paused s → is_Some (WaitUntilRunnable s).
Proof.
  unfold paused, WaitUntilRunnable. destruct (pause_requested s), (CancellationRequested s); simpl; eauto.
  intros []. done.
Qed.

Lemma Flow_defined step pc s :
  flow_end pc = false → ¬ paused s → ∃ i, is_Some (Flow step i pc s).
Proof.
  intros Hend Hp. pose proof (WaitUntilRunnable_defined s Hp) as [[s1 b] Hw].
  destruct pc as [|it r|it|it a|it a|it a|it a d r|it a|r|e]; try done.
  - exists (Views (replicate (length (conditions step)) no_view)). simpl.
    destruct (Flow_start_defined step) as [pc ->]. simpl. eauto.
  - exists Proceed. simpl. eauto.
  - exists Proceed. simpl. rewrite Hw. simpl. eauto.
  - exists Proceed. simpl. eauto.
  - exists Proceed. simpl. rewrite Hw. simpl. eauto.
  - exists (Executed 0 (inr None)). simpl. eauto.
  - exists Elapsed. simpl. eauto.
  - exists Elapsed. simpl. eauto.
Qed.

Lemma Worker_run_defined m pc s :
  worker s = Some (m, pc) → pc ≠ WorkerDone → ¬ paused s → ∃ i s', Worker_run i s = Some s'.
Proof.
  intros Hw Hpc Hp. unfold Worker_run. rewrite Hw. simpl.
  cut (∃ i, is_Some (Run m i pc s)). { intros (i & [[s1 pc1] E]). exists i. rewrite E. simpl. eauto. }
  pose proof (WaitUntilRunnable_defined s Hp) as [[s1 b] Hwait].
  destruct pc as [index|index step|index step pc|index r|st msg|]; try (exists Proceed; simpl; by eauto).
  - exists Proceed. simpl. destruct (next_enabled _ _) as [[j step]|]; [|eauto]. rewrite Hwait. simpl. eauto.
  - destruct (flow_end pc) eqn:Hend.
    + exists Proceed. destruct pc; try done; simpl; eauto.
    + destruct (Flow_defined step pc s Hend Hp) as (i & [[s2 pc2] E]). exists i.
      rewrite Run_flow, E by done. eauto.
Qed.

(** A mission ends.  From any reachable state, whatever clients do in the
    meantime, the worker makes no more transitions than its measure says and
    hands no more commands to the dispatcher than the iterations and attempts
    of the steps that are left allow; and as long as it is not done and not
    held by a pause, it can make one. *)
Theorem mission_ends s m pc :
  reachable has_dispatcher has_evaluator s → worker s = Some (m, pc) →
  (∀ ls s', run exec s ls = Some s' → forallb (λ l, negb (relaunches l)) ls = true →
     Z.of_nat (length (worker_labels ls)) <= worker_measure m pc ∧
     executed ls <= worker_commands m pc) ∧
  (pc ≠ WorkerDone → ¬ paused s → ∃ i s', Worker_run i s = Some s').
Proof.
  intros Hr Hw. split; [|by apply (Worker_run_defined m)].
  intros ls s' E Hn. apply run_bounded in E; [|by apply reachable_running_ok|done].
  unfold measure, commands_left in E. by rewrite Hw in E.
Qed.

(* ------------------------------------------------------------------ *)
(** ** Cancelled missions *)

(** The worker is handing a command to the dispatcher. *)
Definition at_dispatcher (s : ExecutorState) : Z :=
  match worker s with Some (_, WorkerFlow _ _ (FlowExecute _ _)) => 1 | _ => 0 end.

Definition resets (l : Label) : bool := match l with LStartReset => true | _ => false end.

Lemma Run_cancelled m i pc s s' pc' :
  Run m i pc s = Some (s', pc') → CancellationRequested s' = CancellationRequested s.
Proof.
  intros E. destruct pc as [index|index step|index step pc|index r|st msg|]; try done.
  1, 2, 4, 5: simpl in E; apply proceed_Some in E as [_ E].
  - destruct (next_enabled _ _) as [[j step]|]; [|by simplify_eq].
    destruct (WaitUntilRunnable s) as [[s1 b]|] eqn:Ew; [|done].
    apply WaitUntilRunnable_Some in Ew as [_ ->]. simplify_eq/=. by case_match.
  - by simplify_eq.
  - by simplify_eq.
  - by simplify_eq.
  - destruct (flow_end pc) eqn:Hend.
    + destruct pc; try done; simpl in E; apply proceed_Some in E as [_ E]; by simplify_eq.
    + rewrite Run_flow in E by done. destruct (Flow step i pc s) as [[s1 pc1]|] eqn:Ef; simplify_eq.
      apply Flow_steps in Ef as [_ [-> | [-> _]]]; done.
Qed.

Lemma exec_cancelled s l s' :
  exec s l = Some s' → resets l = false → CancellationRequested s = true → CancellationRequested s' = true.
Proof.
  intros E Hl Hc. destruct l; simpl in E, Hl; try done.
  - unfold Start, Start_check, answer in E. repeat case_match; simplify_eq/=; done.
  - unfold Start_joined, Start_check, answer in E. repeat case_match; simplify_eq/=; done.
  - unfold Start_launch, answer in E. repeat case_match; simplify_eq/=; done.
  - simplify_eq. unfold Pause. repeat case_match; simplify_eq/=; done.
  - simplify_eq. unfold Resume. repeat case_match; simplify_eq/=; done.
  - simplify_eq. unfold Cancel. repeat case_match; simplify_eq/=; done.
  - unfold Cancel_send in E. repeat case_match; simplify_eq/=; done.
  - unfold Stop in E. repeat case_match; simplify_eq/=; done.
  - unfold Stop_send in E. repeat case_match; simplify_eq/=; done.
  - unfold Stop_joined in E. repeat case_match; simplify_eq/=; done.
  - unfold Stop_report, answer in E. repeat case_match; simplify_eq/=; done.
  - apply Worker_run_pc in E as (m & pc & s1 & pc' & _ & Hr & ->).
    apply Run_cancelled in Hr. unfold CancellationRequested in *. simpl. congruence.
  - by simplify_eq.
  - unfold Client_run in E. destruct (clients s !! k) as [[step pc]|]; simplify_eq/=.
    destruct (Flow step i pc s) as [[s1 pc1]|] eqn:Ef; simplify_eq/=.
    apply Flow_steps in Ef as [_ [-> | [-> _]]]; done.
Qed.

Lemma iteration_result_end step it r : ∀ it' a, iteration_result step it r ≠ FlowExecute it' a.
Proof. intros it' a. unfold iteration_result, next_iteration. by repeat case_match. Qed.

Lemma attempt_result_end step it a r : ∀ it' a', attempt_result step it a r ≠ FlowExecute it' a'.
Proof.
  intros it' a'. unfold attempt_result. pose proof (iteration_result_end step it r it' a').
  by repeat case_match.
Qed.

Lemma cancelled_flow step pc i pc' :
  flow_steps step true pc i pc' → ∀ it a, pc' ≠ FlowExecute it a.
Proof.
  destruct 1; intros; try done; try apply attempt_result_end.
  apply Flow_start_pc in H as [[r ->]|(r & -> & _)]; done.
Qed.

Lemma exec_at_dispatcher s l s' :
  exec s l = Some s' → CancellationRequested s = true →
  match worker_label l with Some i => executes i | None => 0 end + at_dispatcher s' <= at_dispatcher s.
Proof.
  intros E Hc. destruct (worker_label l) as [i|] eqn:Hl.
  - destruct l; simplify_eq/=. apply Worker_run_pc in E as (m & pc & s1 & pc' & Hw & Hr & ->).
    unfold at_dispatcher. rewrite Hw. simpl.
    destruct pc as [index|index step|index step pc|index r|st msg|]; try done.
    1, 2, 4, 5: simpl in Hr; apply proceed_Some in Hr as [-> Hr]; simpl.
    + destruct (next_enabled _ _) as [[j step]|]; [|by simplify_eq].
      destruct (WaitUntilRunnable s) as [[s2 []]|]; by simplify_eq/=.
    + by simplify_eq.
    + simplify_eq. by repeat case_match; simplify_eq.
    + by simplify_eq.
    + destruct (flow_end pc) eqn:Hend.
      * destruct pc; try done; simpl in Hr; apply proceed_Some in Hr as [-> Hr]; by simplify_eq.
      * rewrite Run_flow in Hr by done. destruct (Flow step i pc s) as [[s2 pc2]|] eqn:Ef; simplify_eq.
        apply Flow_steps in Ef as [Hs _]. rewrite Hc in Hs.
        pose proof (cancelled_flow _ _ _ _ Hs) as Hend'.
        assert (match pc2 with FlowExecute _ _ => 1 | _ => 0 end = 0) as ->.
        { destruct pc2; try done. by destruct (Hend' iteration attempt). }
        destruct Hs; simpl; try lia; destruct H as [-> | ->]; simpl; lia.
  - unfold at_dispatcher. destruct (relaunches l) eqn:Hn.
    + destruct l as [| | |[|]| | | | | | | | | | |]; try done. simpl in E. unfold Start_launch in E.
      destruct (control s); simplify_eq/=. by repeat case_match.
    + apply exec_worker in E as [->|[Hd ->]]; [lia| |done|done].
      repeat case_match; lia.
Qed.

(** Once a cancellation or a stop is requested, the worker hands no
    further command to the dispatcher, except the one it may be about to hand
    over at that moment, whatever clients do until another mission is started. *)
Theorem cancelled_executes_nothing s ls s' :
  CancellationRequested s = true →
  run exec s ls = Some s' → forallb (λ l, negb (resets l)) ls = true →
  executed ls <= at_dispatcher s.
Proof.
  revert s. induction ls as [|l ls IH]; intros s Hc E Hn; simpl in E, Hn.
  { unfold at_dispatcher, executed. simpl. repeat case_match; lia. }
  apply andb_true_iff in Hn as [Hl%negb_true_iff Hn]. destruct (exec s l) as [s1|] eqn:E1; [|done].
  specialize (IH s1 (exec_cancelled _ _ _ E1 Hl Hc) E Hn).
  pose proof (exec_at_dispatcher _ _ _ E1 Hc) as Hd.
  unfold executed in *. simpl. destruct (worker_label l); simpl; lia.
Qed.
End Executor.
