(* ===== verification/MissionProperties.v ===== *)
(** * What a mission does

    The loops of the executor as functions of the answers they meet, and the
    theorem that the worker computes them, paused and resumed or not; when
    [Start] is refused; examples. *)

From S2P Require Import Prelude Command RobotState SafetyValidator Mission MissionExecutor MissionProofs.

Open Scope Z_scope.

(* ------------------------------------------------------------------ *)
(** ** The loops of the executor *)

(** How a step ends. *)
Inductive StepOutcome := StepReturned (r : MissionResult) | StepThrew (e : Exception).

Section Reference.
Context (has_dispatcher has_evaluator : bool).

(** A step consumes inputs and ends, or runs out of them. *)
Definition Consumes (A : Type) : Type := list FlowInput → option (A * list FlowInput).

(** [ExecuteStepOnce] *)
Definition once_ref (step : MissionStep) : Consumes StepOutcome := λ ins,
  match begin_attempt step 0 0 with
  | FlowTimed _ _ _ elapsed => Some (StepReturned elapsed, ins)
  | _ =>
      match ins with
      | Executed _ (inl r) :: ins => Some (StepReturned (command_result r), ins)
      | Executed _ (inr e) :: ins => Some (StepThrew e, ins)
      | _ => None
      end
  end.

(** Whether the retry policy allows another attempt after [r]. *)
Definition retries (step : MissionStep) (r : MissionResult) : bool :=
  negb (isSuccess r) && negb (bool_decide (mr_status r = MissionCancelled)) &&
  (if LooksLikeTimeout r then retryOnTimeout (retryPolicy step) else retryOnFailure (retryPolicy step)).

(** [ExecuteStepWithRetryPolicy], [n] attempts being left after this one. *)
Fixpoint attempts_ref (step : MissionStep) (n : nat) : Consumes StepOutcome := λ ins,
  '(o, ins) ← once_ref step ins;
  match o, n with
  | StepReturned r, S n => if retries step r then attempts_ref step n ins else Some (o, ins)
  | _, _ => Some (o, ins)
  end.

Definition all_attempts (step : MissionStep) : Consumes StepOutcome :=
  attempts_ref step (Z.to_nat (EffectiveMaxAttempts step - 1)).

(** The loop of [ExecuteFlowStep], [n] iterations being left. *)
Fixpoint loop_ref (step : MissionStep) (n : nat) (result : MissionResult) : Consumes StepOutcome := λ ins,
  match n with
  | O => Some (StepReturned result, ins)
  | S n =>
      '(o, ins) ← all_attempts step ins;
      match o with
      | StepReturned r => if isSuccess r then loop_ref step n r ins else Some (o, ins)
      | StepThrew _ => Some (o, ins)
      end
  end.

(** [ExecuteFlowStep] *)
Definition step_ref (step : MissionStep) : Consumes StepOutcome := λ ins,
  match ins with
  | Views views :: ins =>
      pc ← Flow_start has_dispatcher has_evaluator step views;
      match pc with
      | FlowIteration _ r => loop_ref step (Z.to_nat (iterations (loopPolicy step))) r ins
      | FlowDone r => Some (StepReturned r, ins)
      | _ => None
      end
  | _ => None
  end.

(** [RunMission]: the result of the mission whose steps are left. *)
Fixpoint mission_ref (ss : list MissionStep) : list FlowInput → option MissionResult := λ ins,
  match ss with
  | [] => Some (mission_Result MissionCompleted "Mission completed")
  | step :: ss =>
      if negb (enabled step) then mission_ref ss ins
      else
        '(o, ins) ← step_ref step ins;
        match o with
        | StepReturned r =>
            if isSuccess r then mission_ref ss ins
            else Some (mission_Result MissionFailed (mr_message r))
        | StepThrew e =>
            Some (mission_Result MissionFailed
                    (failure_message e "Mission execution failed"
                       "Mission execution failed with an unknown error"))
        end
  end.

(** The inputs that are more than the passing of time. *)
Definition consumes (i : FlowInput) : bool :=
  match i with Views _ | Executed _ _ => true | Proceed | Elapsed => false end.

(* ------------------------------------------------------------------ *)
(** ** The worker computes them *)

(** What is left after the attempts of an iteration. *)
Definition continue_loop (step : MissionStep) (it : Z) (x : StepOutcome * list FlowInput) :
    option (StepOutcome * list FlowInput) :=
  match x.1 with
  | StepReturned r =>
      if isSuccess r then loop_ref step (Z.to_nat (iterations (loopPolicy step) - it - 1)) r x.2
      else Some x
  | StepThrew _ => Some x
  end.

(** What is left after an attempt, and at a program point. *)
Definition after_attempt (step : MissionStep) (it a : Z) (x : StepOutcome * list FlowInput) :
    option (StepOutcome * list FlowInput) :=
  match x.1 with
  | StepReturned r =>
      if retries step r && (a + 1 <? EffectiveMaxAttempts step) then
        attempts_ref step (Z.to_nat (EffectiveMaxAttempts step - a - 2)) x.2 ≫= continue_loop step it
      else continue_loop step it x
  | StepThrew _ => Some x
  end.

Definition flow_ref (step : MissionStep) (pc : FlowPc) : Consumes StepOutcome := λ ins,
  match pc with
  | FlowStart => step_ref step ins
  | FlowIteration it r => loop_ref step (Z.to_nat (iterations (loopPolicy step) - it)) r ins
  | FlowIterationWait it => once_ref step ins ≫= after_attempt step it 0
  | FlowAttempt it a | FlowAttemptWait it a => once_ref step ins ≫= after_attempt step it a
  | FlowExecute it a =>
      match ins with
      | Executed _ (inl r) :: ins => after_attempt step it a (StepReturned (command_result r), ins)
      | Executed _ (inr e) :: ins => Some (StepThrew e, ins)
      | _ => None
      end
  | FlowTimed it a _ r => after_attempt step it a (StepReturned r, ins)
  | FlowRetryWait it a => once_ref step ins ≫= after_attempt step it (a + 1)
  | FlowDone r => Some (StepReturned r, ins)
  | FlowThrew e => Some (StepThrew e, ins)
  end.

Lemma attempts_ref_after step it a ins :
  0 <= a < EffectiveMaxAttempts step →
  attempts_ref step (Z.to_nat (EffectiveMaxAttempts step - a - 1)) ins ≫= continue_loop step it =
  once_ref step ins ≫= after_attempt step it a.
Proof.
  intros Ha.
  destruct (Z.to_nat (EffectiveMaxAttempts step - a - 1)) as [|n] eqn:En; cbn [attempts_ref];
    (destruct (once_ref step ins) as [[[r|e] ins1]|]; [|done|done]); cbn; unfold after_attempt; simpl.
  - rewrite (proj2 (Z.ltb_ge (a + 1) _)) by lia. by rewrite andb_false_r.
  - rewrite (proj2 (Z.ltb_lt (a + 1) _)) by lia. rewrite andb_true_r.
    replace (Z.to_nat (EffectiveMaxAttempts step - a - 2)) with n by lia. by destruct (retries step r).
Qed.

Lemma once_ref_begin step it a ins :
  once_ref step ins ≫= after_attempt step it a = flow_ref step (begin_attempt step it a) ins.
Proof.
  unfold once_ref, begin_attempt, flow_ref.
  destruct (wait step) as [x|]; [by destruct (timed_wait _ _)|].
  destruct (delay step) as [x|]; [by destruct (timed_wait _ _)|].
  destruct ins as [|[| |now [r|e]|] ins]; done.
Qed.

Lemma attempt_result_ref step it a r ins :
  0 <= it < iterations (loopPolicy step) → 0 <= a < EffectiveMaxAttempts step →
  after_attempt step it a (StepReturned r, ins) = flow_ref step (attempt_result step it a r) ins.
Proof.
  intros Hit Ha.
  assert (Hdone : flow_ref step (iteration_result step it r) ins =
    continue_loop step it (StepReturned r, ins)).
  { unfold iteration_result, next_iteration, continue_loop. simpl. destruct (isSuccess r); simpl; [|done].
    destruct (Z.ltb_spec (it + 1) (iterations (loopPolicy step))); simpl.
    - f_equal. lia.
    - by replace (Z.to_nat (iterations (loopPolicy step) - it - 1)) with 0%nat by lia. }
  unfold after_attempt, attempt_result. simpl. unfold retries. destruct (isSuccess r) eqn:Hs; simpl; [by rewrite Hdone|].
  destruct (bool_decide (mr_status r = MissionCancelled)); simpl; [by rewrite Hdone|].
  destruct (Z.leb_spec (EffectiveMaxAttempts step) (a + 1)).
  { rewrite (proj2 (Z.ltb_ge (a + 1) _)) by lia. by rewrite andb_false_r, Hdone. }
  rewrite (proj2 (Z.ltb_lt (a + 1) _)) by lia. rewrite andb_true_r.
  assert (Hretry : flow_ref step
    (if 0 <? delayBetweenAttempts (retryPolicy step) then FlowRetryWait it a else FlowAttempt it (a + 1)) ins =
    once_ref step ins ≫= after_attempt step it (a + 1)) by (by destruct (0 <? _)).
  rewrite <-(attempts_ref_after step it (a + 1)) in Hretry by lia.
  replace (EffectiveMaxAttempts step - (a + 1) - 1) with (EffectiveMaxAttempts step - a - 2) in Hretry by lia.
  destruct (LooksLikeTimeout r), (retryOnTimeout _), (retryOnFailure _); simpl; rewrite ?Hretry, ?Hdone; done.
Qed.

Lemma Flow_ref step i pc s s' pc' ins :
  flow_ok step pc → CancellationRequested s = false →
  Flow has_dispatcher has_evaluator step i pc s = Some (s', pc') →
  flow_ref step pc ((if consumes i then [i] else []) ++ ins) = flow_ref step pc' ins.
Proof.
  intros Hok Hc E. apply Flow_steps in E as [H _]. rewrite Hc in H.
  destruct H as [views pc Hs|it r|it|it a|it a|it a now r|it a now e|it a d r i Hi|it a i Hi]; simpl in Hok.
  - simpl. rewrite Hs. simpl. apply Flow_start_pc in Hs as [[r ->]|(r & -> & HI & HA)]; simpl; [done|].
    by rewrite Z.sub_0_r.
  - cbn [consumes app flow_ref]. replace (Z.to_nat (iterations (loopPolicy step) - it))
      with (S (Z.to_nat (iterations (loopPolicy step) - it - 1))) by lia.
    rewrite <-(attempts_ref_after step it 0) by lia. rewrite Z.sub_0_r. cbn [loop_ref]. unfold all_attempts.
    by destruct (attempts_ref step _ ins) as [[[r'|e] ins']|].
  - done.
  - done.
  - simpl. apply once_ref_begin.
  - simpl. apply attempt_result_ref; tauto.
  - done.
  - assert (consumes i = false) as -> by (destruct Hi; by subst). simpl. apply attempt_result_ref; tauto.
  - assert (consumes i = false) as -> by (destruct Hi; by subst). done.
Qed.

Definition after_step (m : Mission) (index : nat) (x : StepOutcome * list FlowInput) : option MissionResult :=
  match x.1 with
  | StepReturned r =>
      if isSuccess r then mission_ref (drop (S index) (steps m)) x.2
      else Some (mission_Result MissionFailed (mr_message r))
  | StepThrew e =>
      Some (mission_Result MissionFailed
        (failure_message e "Mission execution failed" "Mission execution failed with an unknown error"))
  end.

Definition worker_ref (m : Mission) (pc : WorkerPc) (ins : list FlowInput) : option MissionResult :=
  match pc with
  | WorkerLoop index => mission_ref (drop index (steps m)) ins
  | WorkerEnter index step => step_ref step ins ≫= after_step m index
  | WorkerFlow index step pc => flow_ref step pc ins ≫= after_step m index
  | WorkerCheck index r => after_step m index (StepReturned r, ins)
  | WorkerFinish st msg => Some (mission_Result st msg)
  | WorkerDone => None
  end.

Lemma mission_ref_next ss : ∀ index ins,
  mission_ref (drop index ss) ins =
  match next_enabled index (drop index ss) with
  | None => Some (mission_Result MissionCompleted "Mission completed")
  | Some (j, step) => mission_ref (step :: drop (S j) ss) ins
  end.
Proof.
  intros index ins. remember (drop index ss) as l eqn:El. revert index El.
  induction l as [|step l IH]; intros index El; [done|]. cbn [next_enabled].
  assert (Htl : l = drop (S index) ss).
  { replace (drop (S index) ss) with (drop 1 (drop index ss)) by (rewrite drop_drop; f_equal; lia).
    by rewrite <-El. }
  destruct (enabled step) eqn:Een; [by rewrite <-Htl|].
  cbn [mission_ref]. rewrite Een. cbn [negb]. by apply IH.
Qed.

(** The worker finishes with a terminal status. *)
Definition finish_ok (pc : WorkerPc) : Prop :=
  match pc with WorkerFinish st _ => isTerminal st = true | _ => True end.

Lemma Run_finish_ok m i pc s s' pc' :
  finish_ok pc → Run has_dispatcher has_evaluator m i pc s = Some (s', pc') →
  finish_ok pc' ∧ (pc' = WorkerDone → isTerminal (ex_status s') = true).
Proof.
  intros Hok E. destruct pc as [index|index step|index step pc|index r|st msg|]; try done.
  1, 2, 4, 5: simpl in E; apply proceed_Some in E as [_ E].
  - destruct (next_enabled _ _) as [[j step]|]; [|by simplify_eq].
    destruct (WaitUntilRunnable s) as [[s1 []]|]; by simplify_eq/=.
  - by simplify_eq.
  - simplify_eq. destruct (CancellationRequested s'); [by split|]. by destruct (isSuccess r); split.
  - simplify_eq. by split.
  - destruct (flow_end pc) eqn:Hend.
    + destruct pc; try done; simpl in E; apply proceed_Some in E as [_ E]; by simplify_eq.
    + rewrite Run_flow in E by done. by case_match; [case_match; simplify_eq|].
Qed.

Lemma Run_ref m i pc s s' pc' ins :
  worker_ok pc → CancellationRequested s = false →
  Run has_dispatcher has_evaluator m i pc s = Some (s', pc') →
  worker_ref m pc ((if consumes i then [i] else []) ++ ins) =
    match pc' with WorkerDone => Some (last_result s') | _ => worker_ref m pc' ins end.
Proof.
  intros Hok Hc E. destruct pc as [index|index step|index step pc|index r|st msg|]; try done.
  1, 2, 4, 5: simpl in E; apply proceed_Some in E as [-> E]; cbn [consumes app].
  - cbn [worker_ref]. rewrite mission_ref_next.
    destruct (next_enabled _ _) as [[j step]|] eqn:En; [|by simplify_eq].
    destruct (WaitUntilRunnable s) as [[s1 b]|] eqn:Ew; [|done].
    apply WaitUntilRunnable_Some in Ew as [-> _]. rewrite Hc in E. simplify_eq/=.
    pose proof (next_enabled_sum step_cost _ _ _ _ step_cost_nonneg En) as (_ & Hen & _).
    rewrite Hen. simpl. by destruct (step_ref step ins) as [[[r|e] ins1]|].
  - by simplify_eq.
  - simplify_eq. rewrite Hc. cbn [worker_ref]. unfold after_step. cbn [fst snd].
    by destruct (isSuccess r).
  - by simplify_eq.
  - destruct (flow_end pc) eqn:Hend.
    + destruct pc; try done; simpl in E; apply proceed_Some in E as [-> E]; by simplify_eq.
    + rewrite Run_flow in E by done.
      destruct (Flow _ _ step i pc s) as [[s1 pc1]|] eqn:Ef; simplify_eq.
      cbn [worker_ref]. by rewrite (Flow_ref _ _ _ _ _ _ ins Hok Hc Ef).
Qed.

(* ------------------------------------------------------------------ *)
(** ** Pausing *)

Abbreviation exec := (exec has_dispatcher has_evaluator).

(** The worker and the clients that pause and resume it. *)
Definition undisturbed (l : Label) : bool :=
  match l with LWorker _ | LPause | LResume => true | _ => false end.

Definition consumed (ls : list Label) : list FlowInput := List.filter consumes (worker_labels ls).

Lemma pause_resume s l s' :
  exec s l = Some s' → l = LPause ∨ l = LResume →
  worker s' = worker s ∧ CancellationRequested s' = CancellationRequested s ∧
  (isTerminal (ex_status s) = true → s' = s).
Proof.
  intros E [-> | ->]; simpl in E; simplify_eq; unfold Pause, Resume.
  - case_bool_decide as H1; simpl; [done|]. case_bool_decide as H2; simpl; [|done].
    split_and!; [done..|]. by rewrite H2.
  - case_bool_decide as H1; simpl; [|done]. split_and!; [done..|]. by rewrite H1.
Qed.

Lemma finished_stays ls : ∀ s m s',
  worker s = Some (m, WorkerDone) → isTerminal (ex_status s) = true →
  forallb undisturbed ls = true → run exec s ls = Some s' → s' = s ∧ consumed ls = [].
Proof.
  unfold consumed. induction ls as [|l ls IH]; intros s m s' Hw Ht Hq E; simpl in Hq, E; [by simplify_eq|].
  apply andb_true_iff in Hq as [Hl Hq]. destruct (exec s l) as [s1|] eqn:E1; [|done].
  assert (Hl' : (l = LPause ∨ l = LResume) ∨ ∃ i, l = LWorker i) by (destruct l; eauto; done).
  destruct Hl' as [Hl'|[i ->]].
  - apply pause_resume in E1 as (_ & _ & Hs); [|done]. rewrite (Hs Ht) in E.
    destruct (IH s m s' Hw Ht Hq E) as [-> Hc]. split; [done|]. by destruct Hl' as [-> | ->].
  - simpl in E1. apply Worker_run_pc in E1 as (m' & pc & s2 & pc' & Hw' & Hr & _).
    rewrite Hw in Hw'. by simplify_eq.
Qed.

Lemma run_ref ls : ∀ s m pc s',
  worker s = Some (m, pc) → worker_ok pc → finish_ok pc → CancellationRequested s = false →
  pc ≠ WorkerDone → forallb undisturbed ls = true → run exec s ls = Some s' → worker_done s' = true →
  worker_ref m pc (consumed ls) = Some (last_result s').
Proof.
  induction ls as [|l ls IH]; intros s m pc s' Hw Hok Hf Hc Hpc Hq E Hd; simpl in Hq, E.
  { simplify_eq. unfold worker_done in Hd. rewrite Hw in Hd. by destruct pc. }
  apply andb_true_iff in Hq as [Hl Hq]. destruct (exec s l) as [s1|] eqn:E1; [|done].
  assert (Hl' : (l = LPause ∨ l = LResume) ∨ ∃ i, l = LWorker i) by (destruct l; eauto; done).
  destruct Hl' as [Hl'|[i ->]].
  - apply pause_resume in E1 as (Hw1 & Hc1 & _); [|done]. rewrite Hw in Hw1. rewrite Hc in Hc1.
    replace (consumed (l :: ls)) with (consumed ls) by (by destruct Hl' as [-> | ->]).
    by apply (IH s1 m pc s').
  - simpl in E1. apply Worker_run_pc in E1 as (m' & pc0 & s2 & pc' & Hw' & Hr & ->).
    rewrite Hw in Hw'. simplify_eq.
    replace (consumed (LWorker i :: ls)) with ((if consumes i then [i] else []) ++ consumed ls)
      by (unfold consumed; simpl; by destruct (consumes i)).
    rewrite (Run_ref _ _ _ _ _ _ (consumed ls) Hok Hc Hr).
    destruct (Run_finish_ok _ _ _ _ _ _ Hf Hr) as [Hf' Ht].
    pose proof (Run_cancelled _ _ _ _ _ _ _ _ Hr) as Hc2. rewrite Hc in Hc2.
    pose proof (Run_within _ _ _ _ _ _ _ _ Hok Hr) as (Hok' & _).
    destruct (decide (worker_done (s2 <| worker := Some (m', pc') |>) = true)) as [Hdone|Hdone].
    + assert (pc' = WorkerDone) as -> by (unfold worker_done in Hdone; simpl in Hdone; by destruct pc').
      apply (finished_stays _ _ m') in E as [-> _]; [done|done|by apply Ht|done].
    + assert (Hne : pc' ≠ WorkerDone) by (intros ->; done).
      assert (worker_ref m' pc' (consumed ls) = Some (last_result s')) as <-
        by (by apply (IH (s2 <| worker := Some (m', pc') |>) m' pc' s')).
      by destruct pc'.
Qed.

(** C5: Pausing and resuming a mission, at any moments, does not change what
    it does.  Once the worker is done the result is the one that the loops of
    the code compute from the views of the conditions and the answers of the
    dispatcher, in the order they came: every enabled step in turn, every
    iteration of it, attempts as the retry policy says, up to the first step
    that fails. *)
Theorem mission_result s m ls s' :
  worker s = Some (m, WorkerLoop 0) → CancellationRequested s = false →
  forallb undisturbed ls = true → run exec s ls = Some s' → worker_done s' = true →
  mission_ref (steps m) (consumed ls) = Some (last_result s').
Proof.
  intros Hw Hc Hq E Hd. apply (run_ref ls s m (WorkerLoop 0) s') in E; done.
Qed.

(* ------------------------------------------------------------------ *)
(** ** Starting again *)

Definition executes_step (l : Label) : bool := match l with LExecuteStep _ => true | _ => false end.

(** Without clients of [ExecuteStep] a mission that is over has a terminal
    status, and the owner of the control mutex has seen to the worker. *)
Definition orderly (s : ExecutorState) : Prop :=
  clients s = [] ∧
  match worker s with
  | Some (_, WorkerDone) => isTerminal (ex_status s) = true
  | Some (_, pc) => finish_ok pc
  | None => True
  end ∧
  match control s with
  | StartResetting _ | StartLaunching _ | StopReporting => worker s = None
  | _ => True
  end.

Lemma orderly_finish_ok s m pc : orderly s → worker s = Some (m, pc) → finish_ok pc.
Proof. intros (_ & H & _) Hw. rewrite Hw in H. by destruct pc. Qed.

Lemma Run_frame m i pc s s' pc' :
  Run has_dispatcher has_evaluator m i pc s = Some (s', pc') →
  clients s' = clients s ∧ control s' = control s.
Proof.
  intros E. destruct pc as [index|index step|index step pc|index r|st msg|]; try done.
  1, 2, 4, 5: simpl in E; apply proceed_Some in E as [_ E].
  - destruct (next_enabled _ _) as [[j step]|]; [|by simplify_eq].
    destruct (WaitUntilRunnable s) as [[s1 b]|] eqn:Ew; [|done].
    apply WaitUntilRunnable_Some in Ew as [_ ->]. simplify_eq/=. by case_match.
  - by simplify_eq.
  - by simplify_eq.
  - by simplify_eq.
  - destruct (flow_end pc) eqn:Hend.
    + destruct pc; try done; simpl in E; apply proceed_Some in E as [_ E]; by simplify_eq.
    + rewrite Run_flow in E by done. destruct (Flow _ _ step i pc s) as [[s1 pc1]|] eqn:Ef; simplify_eq.
      apply Flow_steps in Ef as [_ [-> | [-> _]]]; done.
Qed.

Definition worker_orderly (s : ExecutorState) : Prop :=
  match worker s with
  | Some (_, WorkerDone) => isTerminal (ex_status s) = true
  | Some (_, pc) => finish_ok pc
  | None => True
  end.

(** The control mutex is free, or its owner waits for nothing of the worker. *)
Lemma orderly_free s' :
  clients s' = [] → worker_orderly s' → control s' = ControlFree ∨ worker s' = None → orderly s'.
Proof.
  intros Hcl Hw Hco. unfold orderly. split_and!; [done|exact Hw|].
  destruct Hco as [-> | ->]; [done|by destruct (control s')].
Qed.

Lemma Start_check_orderly m s :
  clients s = [] → worker_orderly s → orderly (Start_check has_dispatcher m s).1.
Proof.
  intros Hcl Hw. unfold Start_check, answer.
  destruct has_dispatcher; simpl; [|apply orderly_free; [exact Hcl|exact Hw|by left]].
  destruct (Mission_isValid m); simpl; [|apply orderly_free; [exact Hcl|exact Hw|by left]].
  unfold worker_orderly in Hw. destruct (worker s) as [x|] eqn:Hws; simpl.
  - apply orderly_free; [exact Hcl|exact Hw|by left].
  - apply orderly_free; [exact Hcl|done|by right].
Qed.

(** A status that is set while no mission is over, or to a terminal one. *)
Lemma orderly_status s s' :
  orderly s → clients s' = clients s → worker s' = worker s → control s' = control s →
  isTerminal (ex_status s) = false ∨ isTerminal (ex_status s') = true → orderly s'.
Proof.
  unfold orderly. intros (Hcl & Hw & Hco) -> -> -> Hs. split_and!; [done| |done].
  destruct (worker s) as [[m []]|]; try done. destruct Hs as [Hs|Hs]; [by rewrite Hs in Hw|done].
Qed.

Lemma exec_orderly s l s' : orderly s → exec s l = Some s' → executes_step l = false → orderly s'.
Proof.
  intros Ho E Hl. pose proof Ho as (Hcl & Hw & Hco). destruct l; simpl in E, Hl; try done.
  - unfold Start in E. destruct (control s) eqn:Hc; try done.
    destruct (has_value (worker s) && _); simplify_eq/=; [|by apply Start_check_orderly].
    unfold orderly. by split_and!.
  - unfold Start_joined in E. destruct (control s); try done. destruct (worker_done s); simplify_eq/=.
    by apply Start_check_orderly.
  - unfold Start_reset in E. destruct (control s); simplify_eq/=. unfold orderly. simpl. by rewrite Hco.
  - unfold Start_launch, answer in E. destruct (control s); try done.
    destruct threw as [e|]; simplify_eq/=; unfold orderly; simpl; [by rewrite Hco|done].
  - simplify_eq. unfold Pause. case_bool_decide; simpl; [done|]. case_bool_decide as Hs; simpl; [|done].
    eapply orderly_status; [exact Ho|done..|left; by rewrite Hs].
  - simplify_eq. unfold Resume. case_bool_decide as Hs; simpl; [|done].
    eapply orderly_status; [exact Ho|done..|left; by rewrite Hs].
  - simplify_eq. unfold Cancel. destruct (_ || _); simpl; [done|].
    eapply orderly_status; [exact Ho|done..|by right].
  - unfold Cancel_send in E. destruct (cancelling s); simplify_eq/=. exact Ho.
  - unfold Stop in E. destruct (control s) eqn:Hc; try done.
    destruct (worker s) as [[m pc]|] eqn:Hws.
    + destruct (isTerminal (ex_status s)) eqn:Ht; simplify_eq/=; unfold orderly; simpl; rewrite Hws;
        (split_and!; [done| |done]); by destruct pc.
    + destruct (isTerminal (ex_status s)); simplify_eq/=; unfold orderly; simpl; by rewrite Hws, Hc.
  - unfold Stop_send in E. destruct (control s); simplify_eq/=. unfold orderly. by split_and!.
  - unfold Stop_joined in E. destruct (control s); try done. destruct (worker_done s); simplify_eq/=.
    unfold orderly. by split_and!.
  - unfold Stop_report, answer in E. destruct (control s); simplify_eq/=. unfold orderly. by split_and!.
  - apply Worker_run_pc in E as (m & pc & s1 & pc' & Hws & Hr & ->).
    pose proof (orderly_finish_ok _ _ _ Ho Hws) as Hf.
    destruct (Run_finish_ok _ _ _ _ _ _ Hf Hr) as [Hf' Ht]. apply Run_frame in Hr as [Hcl' Hco'].
    unfold orderly. simpl. rewrite Hcl', Hco'. split_and!; [done| |].
    + destruct pc'; try done. by apply Ht.
    + rewrite Hws in Hco. by destruct (control s).
  - unfold Client_run in E. by rewrite Hcl in E.
Qed.

(** As long as nobody executes single steps, [Start] finds the executor
    active only while a mission really runs: its worker is not done and its
    status is not terminal.  Otherwise it goes on to start the mission, after
    it has joined the worker of a mission that is over. *)
Theorem Start_admits ls s m :
  run exec new_executor ls = Some s → forallb (λ l, negb (executes_step l)) ls = true →
  control s = ControlFree → has_dispatcher = true → Mission_isValid m = true →
  match Start has_dispatcher m s with
  | Some (s', None) => control s' = StartResetting m ∧ worker s = None ∨
                       control s' = StartJoining m ∧ isTerminal (ex_status s) = true
  | Some (s', Some r) =>
      r = mission_Result MissionFailed "Mission executor is already active" ∧
      isTerminal (ex_status s) = false ∧ ∃ m' pc, worker s = Some (m', pc) ∧ pc ≠ WorkerDone
  | None => False
  end.
Proof.
  intros E Hn Hco Hd Hv.
  assert (Ho : orderly s).
  { assert (H0 : orderly new_executor) by done. revert H0 E. generalize new_executor as s0. revert Hn.
    induction ls as [|l ls IH]; intros Hn s0 H0 E; simpl in E, Hn; [by simplify_eq|].
    apply andb_true_iff in Hn as [Hl%negb_true_iff Hn]. destruct (exec s0 l) as [s1|] eqn:E1; [|done].
    eapply IH; [done|by eapply exec_orderly|done]. }
  destruct Ho as (_ & Hw & _). unfold Start, Start_check. rewrite Hco, Hd, Hv. simpl.
  destruct (worker s) as [[m' pc]|]; simpl; [|by left].
  destruct (isTerminal (ex_status s)) eqn:Ht; simpl; [by right|].
  split_and!; [done..|]. exists m', pc. split; [done|]. by intros ->.
Qed.
End Reference.

(* ------------------------------------------------------------------ *)
(** ** Examples *)

Definition example_step (i : Z) (w : option WaitStep) (attempts : Z) : MissionStep :=
  mkStep i "step" (default_Command <| id := i |>) 0 0 (mkRetryPolicy attempts 0 true true) (mkLoopPolicy 1)
    (mkTimeoutPolicy 0 true) w None false false [] true ∅.

Definition example_mission (ss : list MissionStep) : Mission :=
  mkMission 1 "mission" EmptyString "1" "author" 0 ss ∅.

(** A step that only waits, for no time at all. *)
Definition pass : MissionStep := example_step 1 (Some (mkWaitStep 0)) 1.

Definition launch (m : Mission) : list Label := [LStart m; LStartReset; LStartLaunch None].

(** The worker (or a client) on a step that only waits. *)
Definition pass_inputs : list FlowInput := [Views []; Proceed; Proceed; Proceed; Proceed; Proceed].

(** A finished mission, then a client that executes a step: the status it
    leaves is not terminal, the next [Start] is refused as if a mission ran. *)
Definition stuck_run : list Label :=
  launch (example_mission [pass]) ++
  map LWorker ([Proceed; Proceed] ++ pass_inputs ++ [Proceed; Proceed; Proceed]) ++
  LExecuteStep pass :: map (LClient 0) pass_inputs.

Lemma executor_stuck :
  match run (exec true false) new_executor stuck_run with
  | Some s =>
      worker_done s = true ∧ ex_status s = MissionRunning ∧
      (snd <$> Start true (example_mission [pass]) s) =
        Some (Some (mission_Result MissionFailed "Mission executor is already active"))
  | None => False
  end.
Proof. vm_compute. auto. Qed.

(** A cancellation that is accepted when the last step has been checked: the
    mission ends as completed all the same. *)
Lemma cancel_overtaken :
  match run (exec true false) new_executor
    (launch (example_mission [pass]) ++
     map LWorker ([Proceed; Proceed] ++ pass_inputs ++ [Proceed; Proceed])) with
  | Some s =>
      mr_status (Cancel s).2 = MissionCancelled ∧
      (ex_status <$> run (exec true false) s [LCancel; LWorker Proceed]) = Some MissionCompleted
  | None => False
  end.
Proof. vm_compute. auto. Qed.

Lemma ValidateMission_exact_witness :
  let m := example_mission [pass; example_step 2 None 3] in
  valid (ValidateMission m) = true ∧ Mission_isValid m = true.
Proof.
  intros m. assert (H : valid (ValidateMission m) = true) by by vm_compute.
  split; [exact H|]. exact (proj1 (proj2 (ValidateMission_exact m) H)).
Defined.

(** A command that fails once and is tried again, then a pause. *)
Definition retried : MissionStep := example_step 2 None 3.
Definition answer_of (st : CommandStatus) : FlowInput := Executed 0 (inl (mkResult st EmptyString)).

Definition retried_run : list Label :=
  map LWorker [Proceed; Proceed; Views []; Proceed; Proceed; Proceed; Proceed] ++
  [LPause; LWorker (answer_of StatusFailed); LWorker Proceed; LResume] ++
  map LWorker [Proceed; answer_of StatusCompleted; Proceed; Proceed; Proceed].

Definition launched (m : Mission) : ExecutorState :=
  default new_executor (run (exec true false) new_executor (launch m)).

Lemma mission_result_witness :
  match run (exec true false) (launched (example_mission [retried])) retried_run with
  | Some s =>
      mission_ref true false [retried] [Views []; answer_of StatusFailed; answer_of StatusCompleted] =
        Some (last_result s) ∧ last_result s = mission_Result MissionCompleted "Mission completed"
  | None => False
  end.
Proof.
  destruct (run (exec true false) (launched (example_mission [retried])) retried_run) as [s|] eqn:E.
  - assert (Hd : worker_done s = true) by (vm_compute in E; by injection E as <-).
    pose proof (mission_result true false (launched (example_mission [retried])) (example_mission [retried]) retried_run s
      ltac:(by vm_compute) ltac:(by vm_compute) ltac:(by vm_compute) E Hd) as H.
    split; [exact H|]. vm_compute in E. by injection E as <-.
  - vm_compute in E. discriminate E.
Defined.

Lemma mission_ends_witness :
  let s := launched (example_mission [retried]) in
  worker_measure (example_mission [retried]) (WorkerLoop 0) = 25 ∧
  worker_commands (example_mission [retried]) (WorkerLoop 0) = 3 ∧
  Z.of_nat (length (worker_labels retried_run)) <= 25 ∧ executed retried_run <= 3 ∧
  ∃ i s', Worker_run true false i s = Some s'.
Proof.
  intros s.
  assert (Hr : reachable true false s) by (exists (launch (example_mission [retried])); by vm_compute).
  assert (Hm : worker_measure (example_mission [retried]) (WorkerLoop 0) = 25) by by vm_compute.
  assert (Hc : worker_commands (example_mission [retried]) (WorkerLoop 0) = 3) by by vm_compute.
  assert (Hp : ¬ paused s) by (intros [H _]; vm_compute in H; discriminate H).
  destruct (mission_ends true false s (example_mission [retried]) (WorkerLoop 0) Hr ltac:(by vm_compute))
    as [Hb Hd].
  split; [exact Hm|]. split; [exact Hc|]. rewrite Hm, Hc in Hb.
  destruct (run (exec true false) s retried_run) as [s'|] eqn:E; [|vm_compute in E; discriminate E].
  destruct (Hb retried_run s' E ltac:(by vm_compute)) as [H1 H2].
  split; [exact H1|]. split; [exact H2|]. apply Hd; [discriminate|exact Hp].
Defined.

(** Cancelled while the first attempt is at the dispatcher. *)
Lemma cancelled_executes_nothing_witness :
  let ls := [LWorker (answer_of StatusFailed); LCancelSend; LWorker Proceed; LWorker Proceed;
             LWorker Proceed; LWorker Proceed] in
  match run (exec true false) (launched (example_mission [retried]))
    (map LWorker [Proceed; Proceed; Views []; Proceed; Proceed; Proceed; Proceed] ++ [LCancel]) with
  | Some s => executed ls <= at_dispatcher s ∧ at_dispatcher s = 1 ∧
              (worker_done <$> run (exec true false) s ls) = Some true
  | None => False
  end.
Proof.
  intros ls. destruct (run (exec true false) (launched (example_mission [retried])) _) as [s|] eqn:E.
  - assert (Hc : CancellationRequested s = true) by (vm_compute in E; by injection E as <-).
    destruct (run (exec true false) s ls) as [s'|] eqn:E'.
    + split; [exact (cancelled_executes_nothing true false s ls s' Hc E' ltac:(by vm_compute))|].
      vm_compute in E. injection E as <-. vm_compute in E'. injection E' as <-. by vm_compute.
    + exfalso. vm_compute in E. injection E as <-. vm_compute in E'. discriminate E'.
  - vm_compute in E. discriminate E.
Defined.

Lemma Start_admits_witness :
  let s := launched (example_mission [retried]) in
  (snd <$> Start true (example_mission [pass]) s) =
    Some (Some (mission_Result MissionFailed "Mission executor is already active")) ∧
  ∃ m' pc, worker s = Some (m', pc) ∧ pc ≠ WorkerDone.
Proof.
  intros s. assert (E : run (exec true false) new_executor (launch (example_mission [retried])) = Some s)
    by by vm_compute.
  pose proof (Start_admits true false (launch (example_mission [retried])) s (example_mission [pass]) E ltac:(by vm_compute)
    ltac:(by vm_compute) eq_refl ltac:(by vm_compute)) as H.
  destruct (Start true (example_mission [pass]) s) as [[s' [r|]]|] eqn:Es;
    vm_compute in Es; [|discriminate Es|discriminate Es].
  destruct H as (-> & _ & Hw). split; [reflexivity|exact Hw].
Defined.
