(* ===== verification/Text.v ===== *)
(** * Characters, numbers and results of the parsers

    What MissionParser.cpp and TreeParser.cpp share below their JSON and YAML
    parsers: a [std::string_view] is a list of characters, a parse ends with a
    value, a [ParseError] or undefined behaviour, and the numbers of the
    standard library's [std::from_chars], decimal integers and doubles. *)

From Stdlib Require Import Ascii String SpecFloat.
From S2P Require Import Prelude Command RobotState SafetyValidator CommandValidation.

Open Scope Z_scope.

Create HintDb outcome.

Abbreviation chars := (list ascii).

Definition chars_of : string → chars := list_ascii_of_string.
Definition string_of : chars → string := string_of_list_ascii.

Lemma string_of_chars_of s : string_of (chars_of s) = s.
Proof. apply string_of_list_ascii_of_string. Qed.

Lemma chars_of_string_of l : chars_of (string_of l) = l.
Proof. apply list_ascii_of_string_of_list_ascii. Qed.

(* ------------------------------------------------------------------ *)
(** ** Results *)

(** [Undefined] is undefined behaviour of the code, [Exhausted] a recursion
    that was given too little fuel. *)
Inductive Parse (A : Type) :=
  | Parsed (a : A)
  | ParseError (message : string)
  | Undefined
  | Exhausted.

Arguments Parsed {A} a.
Arguments ParseError {A} message.
Arguments Undefined {A}.
Arguments Exhausted {A}.

#[export] Instance Parse_ret : MRet Parse := @Parsed.
#[export] Instance Parse_bind : MBind Parse := λ A B f x,
  match x with
  | Parsed a => f a
  | ParseError m => ParseError m
  | Undefined => Undefined
  | Exhausted => Exhausted
  end.

#[export] Instance Parse_fmap : FMap Parse := λ A B f x, x ≫= λ a, Parsed (f a).

Lemma Parse_bind_Parsed {A B} (x : Parse A) (f : A → Parse B) b :
  x ≫= f = Parsed b ↔ ∃ a, x = Parsed a ∧ f a = Parsed b.
Proof. destruct x; simpl; naive_solver. Qed.

(** A value or an error: no undefined behaviour, and enough fuel. *)
Definition answers {A} (x : Parse A) : Prop :=
  match x with Parsed _ | ParseError _ => True | Undefined | Exhausted => False end.

Lemma answers_bind {A B} (x : Parse A) (f : A → Parse B) :
  answers x → (∀ a, x = Parsed a → answers (f a)) → answers (x ≫= f).
Proof. destruct x; simpl; auto. Qed.

(** An error, a value that satisfies [P], or undefined behaviour if [U]. *)
Definition outcome {A} (U : Prop) (P : A → Prop) (x : Parse A) : Prop :=
  match x with Parsed a => P a | ParseError _ => True | Undefined => U | Exhausted => False end.

Lemma outcome_bind {A B} (Q : B → Prop) U (P : A → Prop) (x : Parse B) (f : B → Parse A) :
  outcome U Q x → (∀ b, Q b → outcome U P (f b)) → outcome U P (x ≫= f).
Proof. destruct x; simpl; auto. Qed.

Lemma outcome_fmap {A B} (Q : B → Prop) U (P : A → Prop) (x : Parse B) (f : B → A) :
  outcome U Q x → (∀ b, Q b → P (f b)) → outcome U P (f <$> x).
Proof. destruct x; simpl; auto. Qed.

Lemma outcome_impl {A} (U U' : Prop) (P P' : A → Prop) x :
  outcome U P x → (U → U') → (∀ a, P a → P' a) → outcome U' P' x.
Proof. destruct x; simpl; auto. Qed.

Lemma answers_outcome {A} (x : Parse A) : answers x ↔ outcome False (λ _, True) x.
Proof. by destruct x. Qed.

(** [std::optional] and a message for its absence. *)
Definition or_error {A} (x : option A) (message : string) : Parse A :=
  match x with Some a => Parsed a | None => ParseError message end.

(** [std::map::emplace]: a key that is present keeps its value. *)
Definition map_emplace {A} (key : string) (a : A) (m : gmap string A) : gmap string A :=
  match m !! key with Some _ => m | None => <[key := a]> m end.

(** A loop over a list that may end with an error. *)
Fixpoint foldM {A B} (f : A → B → Parse B) (l : list A) (b : B) : Parse B :=
  match l with
  | [] => Parsed b
  | a :: l => b ← f a b; foldM f l b
  end.

Lemma outcome_foldM {A B} U (P : B → Prop) (f : A → B → Parse B) l b :
  (∀ a b, a ∈ l → P b → outcome U P (f a b)) → P b → outcome U P (foldM f l b).
Proof.
  revert b. induction l as [|a l IH]; intros b Hf Hb; simpl; [done|].
  apply (outcome_bind P); [apply Hf; [left|done]|]. intros b' Hb'. apply IH; [|done].
  intros a' b'' Ha'. apply Hf. by right.
Qed.

Lemma outcome_or_error {A} U (P : A → Prop) x m :
  (∀ a, x = Some a → P a) → outcome U P (or_error x m).
Proof. destruct x; simpl; auto. Qed.

(* ------------------------------------------------------------------ *)
(** ** Characters *)

Definition code (c : ascii) : Z := Z.of_N (N_of_ascii c).

(** The quotation mark and the line feed. *)
Definition quote : ascii := "034".
Definition line_feed : ascii := "010".
Definition carriage_return : ascii := "013".
Definition tab : ascii := "009".

Definition IsSpace (c : ascii) : bool :=
  bool_decide (c = " "%char) || bool_decide (c = line_feed) || bool_decide (c = carriage_return) ||
  bool_decide (c = tab).

Fixpoint drop_while (P : ascii → bool) (s : chars) : chars :=
  match s with
  | [] => []
  | c :: s' => if P c then drop_while P s' else s
  end.

Fixpoint take_while (P : ascii → bool) (s : chars) : chars :=
  match s with
  | [] => []
  | c :: s' => if P c then c :: take_while P s' else []
  end.

Definition Trim (s : chars) : chars :=
  reverse (drop_while IsSpace (reverse (drop_while IsSpace s))).

(** [text.substr(0, prefix.size()) == prefix], and what follows. *)
Fixpoint after_prefix (prefix s : chars) : option chars :=
  match prefix, s with
  | [], _ => Some s
  | c :: prefix', c' :: s' => if bool_decide (c = c') then after_prefix prefix' s' else None
  | _ :: _, [] => None
  end.

Lemma take_drop_while P s : take_while P s ++ drop_while P s = s.
Proof. induction s as [|c s IH]; simpl; [done|]. destruct (P c); simpl; congruence. Qed.

(** Every character of [s] satisfies the test. *)
Abbreviation all_chars P s := (Forall (λ c : ascii, P c = true) s).

Lemma take_while_Forall P s : all_chars P (take_while P s).
Proof.
  induction s as [|c s IH]; simpl; [constructor|]. destruct (P c) eqn:E; constructor; auto.
Qed.

Definition heads (P : ascii → bool) (s : chars) : bool :=
  match s with [] => false | c :: _ => P c end.

Lemma drop_while_heads P s : heads P (drop_while P s) = false.
Proof. induction s as [|c s IH]; simpl; [done|]. destruct (P c) eqn:E; simpl; auto. Qed.

Lemma drop_while_app (P : ascii → bool) w s : all_chars P w → heads P s = false → drop_while P (w ++ s) = s.
Proof.
  intros Hw Hs. induction Hw as [|c w Hc _ IH]; simpl.
  - destruct s as [|c s]; simpl in *; [done|]. by rewrite Hs.
  - by rewrite Hc.
Qed.

Lemma take_while_app (P : ascii → bool) w s : all_chars P w → heads P s = false → take_while P (w ++ s) = w.
Proof.
  intros Hw Hs. induction Hw as [|c w Hc _ IH]; simpl.
  - destruct s as [|c s]; simpl in *; [done|]. by rewrite Hs.
  - rewrite Hc. by f_equal.
Qed.

Lemma length_drop_while P s : (length (drop_while P s) <= length s)%nat.
Proof. induction s as [|c s IH]; simpl; [done|]. destruct (P c); simpl; lia. Qed.

Lemma after_prefix_Some prefix s r : after_prefix prefix s = Some r ↔ s = prefix ++ r.
Proof.
  revert s. induction prefix as [|c prefix IH]; intros s; simpl; [naive_solver|].
  destruct s as [|c' s]; [naive_solver|]. case_bool_decide as Hc.
  - rewrite IH. naive_solver.
  - naive_solver.
Qed.

(* ------------------------------------------------------------------ *)
(** ** Lines and scalars *)

(** The text before the first line feed, and the text after it if there is
    one. *)
Fixpoint split_line (document : chars) : chars * option chars :=
  match document with
  | [] => ([], None)
  | c :: document' =>
      if bool_decide (c = line_feed) then ([], Some document')
      else let '(line, rest) := split_line document' in (c :: line, rest)
  end.

Definition is_blank (c : ascii) : bool := bool_decide (c = " "%char).

Definition single_quote : ascii := "039".

Definition encloses (c : ascii) (s : chars) : bool :=
  bool_decide (head s = Some c) && bool_decide (last s = Some c).

(** [value.substr(1U, value.size() - 2U)] of a value in quotation marks. *)
Definition unquote (value : chars) : chars :=
  if (2 <=? length value)%nat && (encloses quote value || encloses single_quote value)
  then take (length value - 2) (drop 1 value) else value.

Lemma split_line_shorter document line rest :
  split_line document = (line, Some rest) → (length rest < length document)%nat.
Proof.
  revert line. induction document as [|c document IH]; intros line; simpl; [done|].
  case_bool_decide; [intros [= <- <-]; lia|].
  destruct (split_line document) as [line' rest'] eqn:E. intros [= <- ->].
  specialize (IH _ eq_refl). lia.
Qed.

Lemma split_line_print s rest : line_feed ∉ s → split_line (s ++ line_feed :: rest) = (s, Some rest).
Proof.
  induction s as [|c s IH]; simpl; [done|]. rewrite not_elem_of_cons. intros [Hc Hs].
  rewrite bool_decide_eq_false_2 by done. by rewrite IH.
Qed.

(* ------------------------------------------------------------------ *)
(** ** Integers *)

Definition is_digit (c : ascii) : bool := (48 <=? code c) && (code c <=? 57).

Definition digit_value (c : ascii) : Z := code c - 48.

Definition decimal (ds : chars) : Z := foldl (λ n c, 10 * n + digit_value c) 0 ds.

(** [std::from_chars] of an unsigned integer: the value and what is left of
    the text, unless no digit starts it or the value is out of range. *)
Definition from_chars_uint64 (s : chars) : option (Z * chars) :=
  let ds := take_while is_digit s in
  if bool_decide (ds = []) then None
  else if u64_modulus <=? decimal ds then None
  else Some (decimal ds, drop_while is_digit s).

(** A minus sign, and what follows it. *)
Definition minus_sign (s : chars) : bool * chars :=
  match s with
  | c :: s' => if bool_decide (c = "-"%char) then (true, s') else (false, s)
  | [] => (false, s)
  end.

Definition from_chars_int64 (s : chars) : option (Z * chars) :=
  let '(negative, s) := minus_sign s in
  let ds := take_while is_digit s in
  let value := if negative then - decimal ds else decimal ds in
  if bool_decide (ds = []) then None
  else if (value <? - 2 ^ 63) || (2 ^ 63 <=? value) then None
  else Some (value, drop_while is_digit s).

Definition ParseUint64 (text : chars) (field_name : string) : Parse Z :=
  match from_chars_uint64 (Trim text) with
  | Some (value, []) => Parsed value
  | _ => ParseError (field_name +:+ " must be an unsigned integer")
  end.

Definition ParseInt64 (text : chars) (field_name : string) : Parse Z :=
  match from_chars_int64 (Trim text) with
  | Some (value, []) => Parsed value
  | _ => ParseError (field_name +:+ " must be an integer")
  end.

Definition ParseUint32 (text : chars) (field_name : string) : Parse Z :=
  value ← ParseUint64 text field_name;
  if 2 ^ 32 - 1 <? value then ParseError (field_name +:+ " exceeds uint32 range")
  else Parsed value.

(* ------------------------------------------------------------------ *)
(** ** Doubles *)

(** The double nearest to [m * 10 ^ e], negated if [negative]; [None] when it
    is out of range: infinite, or zero although [m] is not. *)
Definition from_decimal (negative : bool) (m e : Z) : option spec_float :=
  if m =? 0 then Some (S754_zero negative)
  else
    let x := if 0 <=? e then binary_normalize 53 1024 (m * 10 ^ e) 0 false
             else SFdiv 53 1024 (S754_finite false (Z.to_pos m) 0)
                    (S754_finite false (Z.to_pos (10 ^ (- e))) 0) in
    match x with
    | S754_finite _ m' e' => Some (S754_finite negative m' e')
    | _ => None
    end.

Definition exponent_sign (s : chars) : bool * chars :=
  match s with
  | c :: s' =>
      if bool_decide (c = "-"%char) then (true, s')
      else if bool_decide (c = "+"%char) then (false, s')
      else (false, s)
  | [] => (false, s)
  end.

(** An exponent, when a well-formed one starts the text. *)
Definition exponent (s : chars) : option (Z * chars) :=
  match s with
  | e :: s1 =>
      if bool_decide (e = "e"%char) || bool_decide (e = "E"%char) then
        let '(negative, s2) := exponent_sign s1 in
        let ds := take_while is_digit s2 in
        if bool_decide (ds = []) then None
        else Some (if negative then - decimal ds else decimal ds, drop_while is_digit s2)
      else None
  | [] => None
  end.

(** The digits after a decimal point, and what follows them. *)
Definition fraction_digits (s : chars) : chars * chars :=
  match s with
  | c :: s' =>
      if bool_decide (c = "."%char) then (take_while is_digit s', drop_while is_digit s')
      else ([], s)
  | [] => ([], s)
  end.

(** [std::from_chars] of a double in general format.  The texts of infinities
    and of what is not a number are left out: [ParseDouble] refuses them. *)
Definition from_chars_double (s : chars) : option (spec_float * chars) :=
  let '(negative, s) := minus_sign s in
  let integral := take_while is_digit s in
  let s := drop_while is_digit s in
  let '(fraction, s) := fraction_digits s in
  if bool_decide (integral ++ fraction = []) then None
  else
    let '(e, s) := match exponent s with Some (e, s') => (e, s') | None => (0, s) end in
    value ← from_decimal negative (decimal (integral ++ fraction))
              (e - Z.of_nat (length fraction));
    Some (value, s).

Definition ParseDouble (text : chars) (field_name : string) : Parse spec_float :=
  match from_chars_double (Trim text) with
  | Some (value, []) =>
      if isfinite value then Parsed value
      else ParseError (field_name +:+ " must be a finite number")
  | _ => ParseError (field_name +:+ " must be a finite number")
  end.

(** The integer part of a double. *)
Definition truncate (d : spec_float) : Z :=
  match d with
  | S754_finite negative m e =>
      let a := if 0 <=? e then Z.pos m * 2 ^ e else Z.pos m / 2 ^ (- e) in
      if negative then - a else a
  | _ => 0
  end.

(** [std::modf(value, &integer_part) == 0.0] *)
Definition has_no_fraction (d : spec_float) : bool :=
  match d with
  | S754_finite _ m e => (0 <=? e) || (Z.pos m mod 2 ^ (- e) =? 0)
  | _ => true
  end.

(** The bounds are converted to [double]: the upper one becomes [2 ^ 63]. *)
Definition IsInteger (d : spec_float) : bool :=
  isfinite d && has_no_fraction d && SFleb (double_of_int64 (- 2 ^ 63)) d &&
  SFleb d (double_of_int64 (2 ^ 63 - 1)).

(** [static_cast<std::int64_t>] of a double is undefined out of range. *)
Definition cast_int64 (d : spec_float) : Parse Z :=
  let z := truncate d in
  if (- 2 ^ 63 <=? z) && (z <? 2 ^ 63) then Parsed z else Undefined.

(** [static_cast<std::uint64_t>] *)
Definition cast_uint64 (d : spec_float) : Parse Z :=
  let z := truncate d in
  if (0 <=? z) && (z <? u64_modulus) then Parsed z else Undefined.

(** [static_cast<float>] rounds to nearest. *)
Definition cast_float (d : spec_float) : float32 :=
  match d with
  | S754_finite negative m e =>
      binary_normalize 24 128 (if negative then Z.neg m else Z.pos m) e negative
  | _ => d
  end.

(** [static_cast<std::int32_t>] of an integer keeps the low 32 bits. *)
Definition cast_int32 (z : Z) : Z := (z + 2 ^ 31) mod 2 ^ 32 - 2 ^ 31.

(* ------------------------------------------------------------------ *)
(** ** The ranges of the numbers *)

Definition is_i64 (z : Z) : Prop := - 2 ^ 63 <= z < 2 ^ 63.
Definition is_u32 (z : Z) : Prop := 0 <= z < 2 ^ 32.
Definition is_i32 (z : Z) : Prop := - 2 ^ 31 <= z < 2 ^ 31.

Lemma decimal_nonnegative ds : all_chars is_digit ds → 0 <= decimal ds.
Proof.
  unfold decimal. cut (∀ n, 0 <= n → all_chars is_digit ds → 0 <= foldl (λ n c, 10 * n + digit_value c) n ds).
  { intros H. by apply H. }
  induction ds as [|c ds IH]; intros n Hn Hds; simpl; [done|].
  inversion Hds as [|? ? Hc ?]; subst. apply IH; [|done].
  unfold is_digit, digit_value in *. lia.
Qed.

Lemma from_chars_uint64_range s v r : from_chars_uint64 s = Some (v, r) → is_u64 v.
Proof.
  unfold from_chars_uint64, is_u64. intros H. case_bool_decide; [done|].
  destruct (Z.leb_spec u64_modulus (decimal (take_while is_digit s))); simplify_eq.
  split; [apply decimal_nonnegative, take_while_Forall|done].
Qed.

Lemma from_chars_int64_range s v r : from_chars_int64 s = Some (v, r) → is_i64 v.
Proof.
  unfold from_chars_int64, is_i64. destruct (minus_sign s) as [negative s']. intros H.
  case_bool_decide; [done|]. destruct (_ || _) eqn:E; [done|]. simplify_eq. lia.
Qed.

Lemma ParseUint64_outcome U text name : outcome U is_u64 (ParseUint64 text name).
Proof.
  unfold ParseUint64. destruct (from_chars_uint64 _) as [[v [|]]|] eqn:E; simpl; try done.
  by eapply from_chars_uint64_range.
Qed.

Lemma ParseInt64_outcome U text name : outcome U is_i64 (ParseInt64 text name).
Proof.
  unfold ParseInt64. destruct (from_chars_int64 _) as [[v [|]]|] eqn:E; simpl; try done.
  by eapply from_chars_int64_range.
Qed.

Lemma ParseUint32_outcome U text name : outcome U is_u32 (ParseUint32 text name).
Proof.
  apply (outcome_bind is_u64); [apply ParseUint64_outcome|]. unfold is_u64, is_u32. intros v Hv.
  destruct (Z.ltb_spec (2 ^ 32 - 1) v); simpl; lia.
Qed.

Lemma ParseDouble_outcome U text name : outcome U (λ d, isfinite d = true) (ParseDouble text name).
Proof.
  unfold ParseDouble. destruct (from_chars_double _) as [[d [|]]|]; simpl; try done.
  by destruct (isfinite d) eqn:E.
Qed.

Lemma cast_int32_range z : is_i32 (cast_int32 z).
Proof.
  unfold is_i32, cast_int32. pose proof (Z.mod_pos_bound (z + 2 ^ 31) (2 ^ 32)). lia.
Qed.

#[export] Hint Resolve ParseUint64_outcome ParseInt64_outcome ParseUint32_outcome
  ParseDouble_outcome cast_int32_range : outcome.
