(* ===== verification/JsonGrammar.v ===== *)
(** * The grammar of JSON documents

    [json_text v t]: the text [t] denotes the value [v].  The parser of
    Json.v accepts exactly the texts of the grammar, surrounded by white
    space, with their values ([Parse_json_exact]): it is sound, complete,
    deterministic, and never runs out of fuel. *)

From Stdlib Require Import Ascii String SpecFloat.
From S2P Require Import Prelude RobotState Text Json.

Open Scope Z_scope.

(* ------------------------------------------------------------------ *)
(** ** Grammar *)

Definition white (w : chars) : Prop := all_chars IsSpace w.

Definition digits (ds : chars) : Prop := ds ≠ [] ∧ all_chars is_digit ds.

(** The content of a string and its text between the quotation marks. *)
Inductive string_text : chars → chars → Prop :=
  | string_empty : string_text [] []
  | string_plain c s t :
      c ≠ quote → c ≠ "\"%char → 32 <= code c → string_text s t → string_text (c :: s) (c :: t)
  | string_escape e c s t :
      unescape e = Some c → string_text s t → string_text (c :: s) ("\"%char :: e :: t).

(** Fraction and exponent of a number, with their parts. *)
Inductive fraction_text : chars → chars → Prop :=
  | no_fraction : fraction_text [] []
  | some_fraction ds : digits ds → fraction_text ds ("."%char :: ds).

Inductive exponent_text : Z → chars → Prop :=
  | no_exponent : exponent_text 0 []
  | positive_exponent e sign ds :
      e ∈ ["e"; "E"]%char → sign ∈ [[]; ["+"%char]] → digits ds →
      exponent_text (decimal ds) (e :: sign ++ ds)
  | negative_exponent e ds :
      e ∈ ["e"; "E"]%char → digits ds → exponent_text (- decimal ds) (e :: "-"%char :: ds).

Inductive number_text : spec_float → chars → Prop :=
  | number negative integral fraction ft e et d :
      digits integral → fraction_text fraction ft → exponent_text e et →
      from_decimal negative (decimal (integral ++ fraction)) (e - Z.of_nat (length fraction)) =
        Some d →
      number_text d ((if negative : bool then ["-"%char] else []) ++ integral ++ ft ++ et).

Definition quoted_text (s : string) (t : chars) : Prop :=
  ∃ t', string_text (chars_of s) t' ∧ t = quote :: t' ++ [quote].

Inductive json_text : JsonValue → chars → Prop :=
  | text_null : json_text JsonNull (chars_of "null")
  | text_true : json_text (JsonBool true) (chars_of "true")
  | text_false : json_text (JsonBool false) (chars_of "false")
  | text_number d t : number_text d t → json_text (JsonNumber d) t
  | text_string s t : quoted_text s t → json_text (JsonText s) t
  | text_empty_object w : white w → json_text (JsonObject []) ("{"%char :: w ++ ["}"%char])
  | text_object fields t :
      members_text fields t → NoDup fields.*1 → json_text (JsonObject fields) ("{"%char :: t)
  | text_empty_array w : white w → json_text (JsonArray []) ("["%char :: w ++ ["]"%char])
  | text_array values t : elements_text values t → json_text (JsonArray values) ("["%char :: t)

(** The members of an object with the closing brace. *)
with members_text : list (string * JsonValue) → chars → Prop :=
  | last_member w1 key kt w2 w3 v t w4 :
      white w1 → quoted_text key kt → white w2 → white w3 → json_text v t → white w4 →
      members_text [(key, v)] (w1 ++ kt ++ w2 ++ ":"%char :: w3 ++ t ++ w4 ++ ["}"%char])
  | more_members w1 key kt w2 w3 v t w4 fields rest :
      white w1 → quoted_text key kt → white w2 → white w3 → json_text v t → white w4 →
      members_text fields rest →
      members_text ((key, v) :: fields)
        (w1 ++ kt ++ w2 ++ ":"%char :: w3 ++ t ++ w4 ++ ","%char :: rest)

(** The elements of an array with the closing bracket. *)
with elements_text : list JsonValue → chars → Prop :=
  | last_element w1 v t w2 :
      white w1 → json_text v t → white w2 → elements_text [v] (w1 ++ t ++ w2 ++ ["]"%char])
  | more_elements w1 v t w2 values rest :
      white w1 → json_text v t → white w2 → elements_text values rest →
      elements_text (v :: values) (w1 ++ t ++ w2 ++ ","%char :: rest).

Scheme json_text_mut := Minimality for json_text Sort Prop
  with members_text_mut := Minimality for members_text Sort Prop
  with elements_text_mut := Minimality for elements_text Sort Prop.
Combined Scheme json_text_induction from json_text_mut, members_text_mut, elements_text_mut.

Definition document_text (v : JsonValue) (document : chars) : Prop :=
  ∃ w1 t w2, document = w1 ++ t ++ w2 ∧ white w1 ∧ white w2 ∧ json_text v t.

(* ------------------------------------------------------------------ *)
(** ** White space and single characters *)

Section Proofs.
Context (dialect : Dialect).

Lemma SkipWhitespace_split s : ∃ w, white w ∧ s = w ++ SkipWhitespace s.
Proof.
  exists (take_while IsSpace s). split; [apply take_while_Forall|].
  symmetry. apply take_drop_while.
Qed.

Lemma SkipWhitespace_app w s : white w → heads IsSpace s = false → SkipWhitespace (w ++ s) = s.
Proof. apply drop_while_app. Qed.

Lemma SkipWhitespace_idem s : SkipWhitespace (SkipWhitespace s) = SkipWhitespace s.
Proof. apply (drop_while_app IsSpace []); [constructor|apply drop_while_heads]. Qed.

Lemma Expect_sound c s r : Expect dialect c s = Parsed r → ∃ w, white w ∧ s = w ++ c :: r.
Proof.
  unfold Expect. destruct (SkipWhitespace_split s) as (w & Hw & Hs). intros H.
  exists w. split; [done|]. rewrite Hs at 1. destruct (SkipWhitespace s) as [|c' s']; [done|].
  by case_bool_decide; simplify_eq.
Qed.

Lemma Expect_complete c w r :
  white w → IsSpace c = false → Expect dialect c (w ++ c :: r) = Parsed r.
Proof.
  intros Hw Hc. unfold Expect. rewrite SkipWhitespace_app by done. by rewrite bool_decide_eq_true_2.
Qed.

Lemma TryConsume_sound c s r : TryConsume c s = Some r → ∃ w, white w ∧ s = w ++ c :: r.
Proof.
  unfold TryConsume. destruct (SkipWhitespace_split s) as (w & Hw & Hs). intros H.
  exists w. split; [done|]. rewrite Hs at 1. destruct (SkipWhitespace s) as [|c' s']; [done|].
  by case_bool_decide; simplify_eq.
Qed.

Lemma TryConsume_complete c w r :
  white w → IsSpace c = false → TryConsume c (w ++ c :: r) = Some r.
Proof.
  intros Hw Hc. unfold TryConsume. rewrite SkipWhitespace_app by done.
  by rewrite bool_decide_eq_true_2.
Qed.

Lemma TryConsume_None c w c' r :
  white w → IsSpace c' = false → c' ≠ c → TryConsume c (w ++ c' :: r) = None.
Proof.
  intros Hw Hc Hne. unfold TryConsume. rewrite SkipWhitespace_app by done.
  by rewrite bool_decide_eq_false_2.
Qed.

Lemma Expect_here c r : IsSpace c = false → Expect dialect c (c :: r) = Parsed r.
Proof. apply (Expect_complete c []). constructor. Qed.

Lemma TryConsume_here c r : IsSpace c = false → TryConsume c (c :: r) = Some r.
Proof. apply (TryConsume_complete c []). constructor. Qed.

Lemma TryConsume_other c c' r : IsSpace c' = false → c' ≠ c → TryConsume c (c' :: r) = None.
Proof. apply (TryConsume_None c []). constructor. Qed.

(* ------------------------------------------------------------------ *)
(** ** Strings *)

Lemma string_loop_sound s : ∀ result r,
  string_loop dialect s = Parsed (result, r) → ∃ t, string_text result t ∧ s = t ++ quote :: r.
Proof.
  induction s as [s IH] using (induction_ltof1 _ length). unfold ltof in IH.
  intros result r H. destruct s as [|c s1]; [done|]. simpl in H.
  case_bool_decide as Hq; simplify_eq.
  { exists []. split; [constructor|done]. }
  destruct (code c <? 32) eqn:Hctrl; [done|]. case_bool_decide as Hb; simpl in H.
  - destruct s1 as [|e s2]; [done|]. destruct (unescape e) as [c'|] eqn:He; [|by case_bool_decide].
    apply Parse_bind_Parsed in H as ([result' r'] & H & ?). simplify_eq/=.
    apply IH in H as (t & Ht & ->); [|simpl; lia].
    exists ("\"%char :: e :: t). split; [by constructor|done].
  - apply Parse_bind_Parsed in H as ([result' r'] & H & ?). simplify_eq/=.
    apply IH in H as (t & Ht & ->); [|simpl; lia].
    exists (c :: t). split; [constructor; [done|done|lia|done]|done].
Qed.

Lemma string_loop_complete result t r :
  string_text result t → string_loop dialect (t ++ quote :: r) = Parsed (result, r).
Proof.
  induction 1 as [|c s t Hq Hb Hc _ IH|e c s t He _ IH]; simpl.
  - done.
  - rewrite bool_decide_eq_false_2, (bool_decide_eq_false_2 (c = "\"%char)) by done.
    destruct (Z.ltb_spec (code c) 32); [lia|]. simpl. by rewrite IH.
  - by rewrite He, IH.
Qed.

Lemma ParseString_sound s key r :
  ParseString dialect s = Parsed (key, r) →
  ∃ w t, white w ∧ quoted_text key t ∧ s = w ++ t ++ r.
Proof.
  unfold ParseString. intros (s1 & H1 & H)%Parse_bind_Parsed.
  apply Parse_bind_Parsed in H as ([result r'] & H & ?). simplify_eq/=.
  apply Expect_sound in H1 as (w & Hw & ->). apply string_loop_sound in H as (t & Ht & ->).
  exists w, (quote :: t ++ [quote]). split; [done|]. split.
  - exists t. by rewrite chars_of_string_of.
  - simpl. by rewrite <-app_assoc.
Qed.

Lemma ParseString_complete key t r :
  quoted_text key t → ParseString dialect (t ++ r) = Parsed (key, r).
Proof.
  intros (t' & Ht & ->). unfold ParseString.
  replace ((quote :: t' ++ [quote]) ++ r) with ([] ++ quote :: t' ++ quote :: r)
    by (simpl; by rewrite <-app_assoc).
  rewrite Expect_complete by (done || constructor). simpl.
  rewrite (string_loop_complete _ _ _ Ht). simpl. by rewrite string_of_chars_of.
Qed.

(* ------------------------------------------------------------------ *)
(** ** Numbers *)

(** A character that could continue a number. *)
Definition in_number (c : ascii) : bool :=
  is_digit c || bool_decide (c = "."%char) || bool_decide (c = "e"%char) ||
  bool_decide (c = "E"%char).

(** No number goes on into [r]. *)
Definition stops (r : chars) : Prop := heads in_number r = false.

Lemma stops_cases c r :
  stops (c :: r) → is_digit c = false ∧ c ≠ "."%char ∧ c ≠ "e"%char ∧ c ≠ "E"%char.
Proof.
  unfold stops. simpl. unfold in_number. rewrite !orb_false_iff, !bool_decide_eq_false. tauto.
Qed.

Lemma stops_no_digit r : stops r → heads is_digit r = false.
Proof. destruct r; [done|]. by intros [? _]%stops_cases. Qed.

Lemma digits_take ds r :
  digits ds → heads is_digit r = false →
  take_while is_digit (ds ++ r) = ds ∧ drop_while is_digit (ds ++ r) = r ∧ ds ≠ [].
Proof. intros [? ?] Hr. by rewrite take_while_app, drop_while_app. Qed.

Lemma ConsumeDigits_sound s ds r :
  ConsumeDigits s = Parsed (ds, r) → digits ds ∧ s = ds ++ r.
Proof.
  unfold ConsumeDigits. case_bool_decide as Hds; [done|]. intros [= <- <-].
  split; [split; [done|apply take_while_Forall]|]. by rewrite take_drop_while.
Qed.

Lemma ConsumeDigits_complete ds r :
  digits ds → heads is_digit r = false → ConsumeDigits (ds ++ r) = Parsed (ds, r).
Proof.
  intros Hds Hr. destruct (digits_take ds r Hds Hr) as (Et & Ed & Hne). unfold ConsumeDigits.
  by rewrite Et, Ed, bool_decide_eq_false_2.
Qed.

Lemma digits_head ds : digits ds → ∃ c ds', ds = c :: ds' ∧ is_digit c = true.
Proof. intros [Hne Hall]. destruct Hall; [done|]. eauto. Qed.

Lemma digit_not c : is_digit c = true → c ≠ "-"%char ∧ c ≠ "+"%char ∧ c ≠ "."%char.
Proof. intros Hc. split_and!; by intros ->. Qed.

Lemma scan_sign_spec s sign r :
  scan_sign s = (sign, r) →
  s = sign ++ r ∧ ∃ negative : bool, sign = if negative then ["-"%char] else [].
Proof.
  unfold scan_sign. destruct s as [|c s]; [intros [= <- <-]|case_bool_decide; intros [= <- <-]];
    simplify_eq; split; try done; (by exists true) || by exists false.
Qed.

Lemma scan_fraction_sound s ft r :
  scan_fraction s = Parsed (ft, r) → s = ft ++ r ∧ ∃ fraction, fraction_text fraction ft.
Proof.
  unfold scan_fraction. destruct s as [|c s].
  { intros [= <- <-]. split; [done|]. exists []. constructor. }
  case_bool_decide as Hc.
  - intros ([ds r'] & H & ?)%Parse_bind_Parsed. simplify_eq/=.
    apply ConsumeDigits_sound in H as [Hds ->]. split; [done|]. exists ds. by constructor.
  - intros [= <- <-]. split; [done|]. exists []. constructor.
Qed.

Lemma scan_fraction_complete fraction ft r :
  fraction_text fraction ft → heads is_digit r = false → heads (λ c, bool_decide (c = "."%char)) r = false →
  scan_fraction (ft ++ r) = Parsed (ft, r).
Proof.
  intros [|ds Hds] Hr Hdot; simpl.
  - destruct r as [|c r]; [done|]. simpl in *. by rewrite Hdot.
  - by rewrite ConsumeDigits_complete.
Qed.

Lemma exponent_mark e : e ∈ ["e"; "E"]%char → bool_decide (e = "e"%char) || bool_decide (e = "E"%char) = true.
Proof. intros [->|[->|[]%elem_of_nil]%elem_of_cons]%elem_of_cons; done. Qed.

Lemma scan_exponent_sound s et r :
  scan_exponent s = Parsed (et, r) → s = et ++ r ∧ ∃ e, exponent_text e et.
Proof.
  unfold scan_exponent. destruct s as [|c s].
  { intros [= <- <-]. split; [done|]. exists 0. constructor. }
  case_match eqn:Hc.
  2: { intros [= <- <-]. split; [done|]. exists 0. constructor. }
  assert (Hmark : c ∈ ["e"; "E"]%char).
  { apply orb_true_iff in Hc as [->%bool_decide_eq_true| ->%bool_decide_eq_true]; set_solver. }
  destruct s as [|c' s']; [done|].
  destruct (decide (c' = "-"%char)) as [->|Hminus]; [|destruct (decide (c' = "+"%char)) as [->|Hplus]].
  - intros ([ds r'] & H & ?)%Parse_bind_Parsed. simplify_eq/=.
    apply ConsumeDigits_sound in H as [Hds ->]. split; [done|]. eexists. by constructor.
  - intros ([ds r'] & H & ?)%Parse_bind_Parsed. simplify_eq/=.
    apply ConsumeDigits_sound in H as [Hds ->]. split; [done|]. eexists.
    apply (positive_exponent c ["+"%char]); [done|set_solver|done].
  - rewrite !bool_decide_eq_false_2 by done. simpl.
    intros ([ds r'] & H & ?)%Parse_bind_Parsed. simplify_eq/=.
    apply ConsumeDigits_sound in H as [Hds H']. rewrite H'. split; [done|]. eexists.
    apply (positive_exponent c []); [done|set_solver|done].
Qed.

Lemma scan_exponent_complete e et r :
  exponent_text e et → stops r → scan_exponent (et ++ r) = Parsed (et, r).
Proof.
  intros H Hr. pose proof (stops_no_digit _ Hr) as Hd. destruct H as [|e sign ds He Hs Hds|e ds He Hds].
  - destruct r as [|c r]; [done|]. apply stops_cases in Hr as (_ & _ & ? & ?). simpl.
    by rewrite !bool_decide_eq_false_2.
  - simpl. rewrite exponent_mark by done.
    apply elem_of_cons in Hs as [->|[->|[]%elem_of_nil]%elem_of_cons].
    + destruct (digits_head ds Hds) as (c & ds' & -> & Hc).
      pose proof (digit_not _ Hc) as (? & ? & _). simpl.
      rewrite !bool_decide_eq_false_2 by done. simpl.
      change (c :: ds' ++ r) with ((c :: ds') ++ r). by rewrite ConsumeDigits_complete.
    + simpl. by rewrite ConsumeDigits_complete.
  - simpl. rewrite exponent_mark by done. simpl. by rewrite ConsumeDigits_complete.
Qed.

Lemma exponent_value e et : exponent_text e et → et ≠ [] → exponent et = Some (e, []).
Proof.
  intros H Hne. destruct H as [|e sign ds He Hs Hds|e ds He Hds]; [done|..]; simpl;
    rewrite exponent_mark by done.
  - apply elem_of_cons in Hs as [->|[->|[]%elem_of_nil]%elem_of_cons]; simpl.
    + destruct (digits_head ds Hds) as (c & ds' & -> & Hc).
      pose proof (digit_not _ Hc) as (? & ? & _).
      unfold exponent_sign. rewrite !bool_decide_eq_false_2 by done.
      destruct (digits_take (c :: ds') [] Hds eq_refl) as (Et & Ed & Hne').
      rewrite app_nil_r in *. by rewrite Et, Ed, bool_decide_eq_false_2.
    + destruct (digits_take ds [] Hds eq_refl) as (Et & Ed & Hne').
      rewrite app_nil_r in *. by rewrite Et, Ed, bool_decide_eq_false_2.
  - destruct (digits_take ds [] Hds eq_refl) as (Et & Ed & Hne').
    rewrite app_nil_r in *. by rewrite Et, Ed, bool_decide_eq_false_2.
Qed.

Lemma exponent_heads e et :
  exponent_text e et → heads is_digit et = false ∧ heads (λ c, bool_decide (c = "."%char)) et = false.
Proof.
  intros [|e' sign ds He _ _|e' ds He _]; [done|..]; simpl;
    by apply elem_of_cons in He as [->|[->|[]%elem_of_nil]%elem_of_cons].
Qed.

Lemma fraction_heads fraction ft r :
  fraction_text fraction ft → heads is_digit r = false → heads is_digit (ft ++ r) = false.
Proof. by intros []. Qed.

(** [from_chars] on a text of the grammar. *)
Lemma from_chars_number (negative : bool) integral fraction ft e et :
  digits integral → fraction_text fraction ft → exponent_text e et →
  from_chars_double ((if negative then ["-"%char] else []) ++ integral ++ ft ++ et) =
  match from_decimal negative (decimal (integral ++ fraction)) (e - Z.of_nat (length fraction)) with
  | Some d => Some (d, [])
  | None => None
  end.
Proof.
  intros Hint Hft Het. destruct (exponent_heads _ _ Het) as [Hed Hedot].
  unfold from_chars_double.
  assert (Hsign : minus_sign ((if negative then ["-"%char] else []) ++ integral ++ ft ++ et) =
                  (negative, integral ++ ft ++ et)).
  { destruct negative; [done|]. destruct (digits_head _ Hint) as (c & ds & -> & Hc). simpl.
    by destruct (digit_not _ Hc) as (? & _); rewrite bool_decide_eq_false_2. }
  rewrite Hsign. clear Hsign.
  destruct (digits_take integral (ft ++ et) Hint (fraction_heads _ _ _ Hft Hed)) as (-> & -> & Hne).
  assert (Hfrac : fraction_digits (ft ++ et) = (fraction, et)).
  { destruct Hft as [|ds Hds]; simpl.
    - destruct et as [|c et]; [done|]. simpl in *. by rewrite Hedot.
    - by destruct (digits_take ds et Hds Hed) as (-> & -> & _). }
  rewrite Hfrac. clear Hfrac.
  rewrite bool_decide_eq_false_2 by (by destruct integral).
  destruct (decide (et = [])) as [->|Het'].
  - inversion Het; subst. simpl. by destruct (from_decimal _ _ _).
  - rewrite (exponent_value _ _ Het Het'). simpl. by destruct (from_decimal _ _ _).
Qed.

Lemma from_decimal_finite negative m e d : from_decimal negative m e = Some d → isfinite d = true.
Proof. unfold from_decimal. intros H. by repeat case_match; simplify_eq. Qed.

Lemma ParseNumber_sound s d r :
  ParseNumber dialect s = Parsed (d, r) → ∃ t, number_text d t ∧ s = t ++ r.
Proof.
  unfold ParseNumber. destruct (scan_sign s) as [sign s1] eqn:Hsign.
  apply scan_sign_spec in Hsign as [-> [negative ->]].
  intros ([integral s2] & [Hint ->]%ConsumeDigits_sound & H)%Parse_bind_Parsed.
  apply Parse_bind_Parsed in H as ([ft s3] & [-> [fraction Hft]]%scan_fraction_sound & H).
  apply Parse_bind_Parsed in H as ([et s4] & [-> [e Het]]%scan_exponent_sound & H).
  rewrite (from_chars_number negative integral fraction ft e et) in H by done.
  destruct (from_decimal _ _ _) as [d'|] eqn:Hd; [|done].
  rewrite (from_decimal_finite _ _ _ _ Hd) in H. simplify_eq.
  eexists. split; [by eapply number|]. by rewrite !app_assoc.
Qed.

Lemma ParseNumber_complete d t r :
  number_text d t → stops r → ParseNumber dialect (t ++ r) = Parsed (d, r).
Proof.
  intros [negative integral fraction ft e et d' Hint Hft Het Hd] Hr. unfold ParseNumber.
  destruct (exponent_heads _ _ Het) as [Hed Hedot]. pose proof (stops_no_digit _ Hr) as Hrd.
  assert (Her : heads is_digit (et ++ r) = false) by by destruct et.
  assert (Hdot : heads (λ c, bool_decide (c = "."%char)) (et ++ r) = false).
  { destruct et; [|done]. destruct r as [|c r]; [done|]. apply stops_cases in Hr as (_ & ? & _).
    simpl. by apply bool_decide_eq_false_2. }
  assert (Hsign : scan_sign (((if negative : bool then ["-"%char] else []) ++ integral ++ ft ++ et) ++ r) =
            ((if negative : bool then ["-"%char] else []), integral ++ ft ++ et ++ r)).
  { rewrite <-!app_assoc. destruct negative; [done|].
    destruct (digits_head _ Hint) as (c & ds & -> & Hc). simpl.
    rewrite bool_decide_eq_false_2; [done|by intros ->]. }
  rewrite Hsign. rewrite ConsumeDigits_complete by (done || by eapply fraction_heads). simpl.
  rewrite (scan_fraction_complete fraction) by done. simpl.
  rewrite (scan_exponent_complete e) by done. simpl.
  rewrite (from_chars_number _ _ fraction _ e) by done. rewrite Hd.
  by rewrite (from_decimal_finite _ _ _ _ Hd).
Qed.

(* ------------------------------------------------------------------ *)
(** ** Soundness *)

Definition value_sound (fuel : nat) : Prop := ∀ s v r,
  ParseValue dialect fuel s = Parsed (v, r) →
  ∃ w t, white w ∧ json_text v t ∧ s = w ++ t ++ r.

Definition members_sound (fuel : nat) : Prop := ∀ fields s v r,
  ParseMembers dialect fuel fields s = Parsed (v, r) → NoDup fields.*1 →
  ∃ new t, v = JsonObject (fields ++ new) ∧ members_text new t ∧ s = t ++ r ∧
           NoDup (fields ++ new).*1.

Definition elements_sound (fuel : nat) : Prop := ∀ values s v r,
  ParseElements dialect fuel values s = Parsed (v, r) →
  ∃ new t, v = JsonArray (values ++ new) ∧ elements_text new t ∧ s = t ++ r.

Lemma white_app w1 w2 : white w1 → white w2 → white (w1 ++ w2).
Proof. apply Forall_app_2. Qed.

Lemma ConsumeLiteral_sound literal s r :
  ConsumeLiteral literal s = Some r → s = chars_of literal ++ r.
Proof. apply after_prefix_Some. Qed.

Lemma ParseValue_sound fuel :
  members_sound fuel → elements_sound fuel → value_sound (S fuel).
Proof.
  intros IHm IHe s v r H. simpl in H. destruct (SkipWhitespace_split s) as (w & Hw & Hs).
  destruct (SkipWhitespace s) as [|c s']; [done|]. exists w. rewrite Hs.
  cut (∃ t, json_text v t ∧ c :: s' = t ++ r).
  { intros (t & Ht & E). exists t. by rewrite E. }
  case_bool_decide as Hbrace; [subst c|case_bool_decide as Hbracket; [subst c|]].
  - destruct (TryConsume "}" s') as [r'|] eqn:Hempty; simplify_eq.
    + apply TryConsume_sound in Hempty as (w' & Hw' & ->).
      exists ("{"%char :: w' ++ ["}"%char]). split; [by constructor|]. simpl. by rewrite <-app_assoc.
    + destruct (IHm [] _ _ _ H) as (new & t & -> & Ht & -> & Hnd); [apply NoDup_nil_2|].
      exists ("{"%char :: t). split; [by constructor|done].
  - destruct (TryConsume "]" s') as [r'|] eqn:Hempty; simplify_eq.
    + apply TryConsume_sound in Hempty as (w' & Hw' & ->).
      exists ("["%char :: w' ++ ["]"%char]). split; [by constructor|]. simpl. by rewrite <-app_assoc.
    + apply IHe in H as (new & t & -> & Ht & ->).
      exists ("["%char :: t). split; [by constructor|done].
  - case_bool_decide as Hq; [subst c|].
    { apply Parse_bind_Parsed in H as ([k r'] & H & ?). simplify_eq/=.
      apply ParseString_sound in H as (w' & t & Hw' & Ht & E).
      assert (w' = []) as ->.
      { by destruct Hw' as [|c w' Hc]; simplify_eq/=. }
      exists t. split; [by constructor|done]. }
    destruct (bool_decide (c = "-"%char) || is_digit c).
    { apply Parse_bind_Parsed in H as ([d r'] & H & ?). simplify_eq/=.
      apply ParseNumber_sound in H as (t & Ht & E). exists t. split; [by constructor|done]. }
    destruct (ConsumeLiteral "true" _) as [r'|] eqn:Et.
    { simplify_eq. apply ConsumeLiteral_sound in Et. eexists. split; [apply text_true|done]. }
    destruct (ConsumeLiteral "false" _) as [r'|] eqn:Ef.
    { simplify_eq. apply ConsumeLiteral_sound in Ef. eexists. split; [apply text_false|done]. }
    destruct (ConsumeLiteral "null" _) as [r'|] eqn:En; [|done].
    simplify_eq. apply ConsumeLiteral_sound in En. eexists. split; [apply text_null|done].
Qed.

Lemma ParseMembers_sound fuel :
  value_sound fuel → members_sound fuel → members_sound (S fuel).
Proof.
  intros IHv IHm fields s v r H Hnd. simpl in H.
  destruct (SkipWhitespace_split s) as (w1 & Hw1 & Hs). rewrite Hs. clear Hs.
  destruct (negb _); [done|].
  apply Parse_bind_Parsed in H as ([key s1] & Hkey & H).
  apply Parse_bind_Parsed in H as (s2 & Hcolon & H).
  apply Parse_bind_Parsed in H as ([value s3] & Hvalue & H).
  apply ParseString_sound in Hkey as (w1' & kt & Hw1' & Hkt & ->).
  destruct (SkipWhitespace_split s1) as (w2 & Hw2 & ->).
  apply Expect_sound in Hcolon as (w2' & Hw2' & ->).
  apply IHv in Hvalue as (w3 & t & Hw3 & Ht & ->).
  destruct (has_key key fields) eqn:Hhas; [done|].
  unfold has_key in Hhas. apply bool_decide_eq_false in Hhas.
  assert (Hnd' : NoDup (fields ++ [(key, value)]).*1).
  { rewrite fmap_app. apply NoDup_app. split; [done|]. split; [|apply NoDup_singleton].
    by intros k Hk ->%list_elem_of_singleton. }
  destruct (SkipWhitespace_split s3) as (w4 & Hw4 & Hs3).
  destruct (TryConsume "}" _) as [r'|] eqn:Hend.
  - simplify_eq. apply TryConsume_sound in Hend as (w4' & Hw4' & E). rewrite E in Hs3. subst s3.
    eexists [(key, value)], _. split; [done|]. split; [|split; [|done]].
    + apply (last_member (w1 ++ w1') key kt (w2 ++ w2') w3 value t (w4 ++ w4'));
        by try apply white_app.
    + by rewrite <-!app_assoc, <-!app_comm_cons, <-!app_assoc.
  - apply Parse_bind_Parsed in H as (s4 & Hcomma & H).
    apply Expect_sound in Hcomma as (w4' & Hw4' & E). rewrite E in Hs3. subst s3.
    destruct (IHm _ _ _ _ H) as (new & t' & -> & Ht' & -> & Hnd''); [done|].
    eexists ((key, value) :: new), _. split; [by rewrite <-app_assoc|]. split; [|split].
    + apply (more_members (w1 ++ w1') key kt (w2 ++ w2') w3 value t (w4 ++ w4'));
        by try apply white_app.
    + by rewrite <-!app_assoc, <-!app_comm_cons, <-!app_assoc.
    + by rewrite <-app_assoc in Hnd''.
Qed.

Lemma ParseElements_sound fuel :
  value_sound fuel → elements_sound fuel → elements_sound (S fuel).
Proof.
  intros IHv IHe values s v r H. simpl in H.
  apply Parse_bind_Parsed in H as ([value s1] & Hvalue & H).
  apply IHv in Hvalue as (w1 & t & Hw1 & Ht & ->).
  destruct (SkipWhitespace_split s1) as (w2 & Hw2 & Hs1).
  destruct (TryConsume "]" _) as [r'|] eqn:Hend.
  - simplify_eq. apply TryConsume_sound in Hend as (w2' & Hw2' & E). rewrite E in Hs1. subst s1.
    eexists [value], _. split; [done|]. split.
    + apply (last_element w1 value t (w2 ++ w2')); by try apply white_app.
    + by rewrite <-!app_assoc.
  - apply Parse_bind_Parsed in H as (s2 & Hcomma & H).
    apply Expect_sound in Hcomma as (w2' & Hw2' & E). rewrite E in Hs1. subst s1.
    apply IHe in H as (new & t' & -> & Ht' & ->).
    eexists (value :: new), _. split; [by rewrite <-app_assoc|]. split.
    + apply (more_elements w1 value t (w2 ++ w2')); by try apply white_app.
    + by rewrite <-!app_assoc, <-!app_comm_cons.
Qed.

Lemma parser_sound fuel : value_sound fuel ∧ members_sound fuel ∧ elements_sound fuel.
Proof.
  induction fuel as [|fuel (IHv & IHm & IHe)]; [by split_and!; intros ?|].
  split_and!; auto using ParseValue_sound, ParseMembers_sound, ParseElements_sound.
Qed.

(* ------------------------------------------------------------------ *)
(** ** Completeness *)

(** The first character of a value is not white space, nor a closing bracket. *)
Lemma json_text_head v t :
  json_text v t → ∃ c t', t = c :: t' ∧ IsSpace c = false ∧ c ≠ "]"%char.
Proof.
  intros [| | |d t' Hn|s t' (t'' & _ & ->)|w _|fields t' _ _|w _|values t' _]; simpl; eauto 10.
  destruct Hn as [negative integral fraction ft e et d' Hint _ _ _].
  destruct negative; simpl; [eauto 10|].
  destruct (digits_head _ Hint) as (c & ds & -> & Hc). exists c. eexists. split; [done|].
  split; [|by intros ->]. destruct (IsSpace c) eqn:E; [|done]. unfold IsSpace in E.
  by apply orb_true_iff in E as [[[E|E]%orb_true_iff|E]%orb_true_iff|E];
    apply bool_decide_eq_true in E as ->.
Qed.

Lemma json_text_not_space v t r : json_text v t → heads IsSpace (t ++ r) = false.
Proof. by intros (c & t' & -> & Hc & _)%json_text_head. Qed.

Lemma quoted_text_head key kt : quoted_text key kt → ∃ kt', kt = quote :: kt'.
Proof. intros (t & _ & ->). eauto. Qed.

(** What follows a value in an object or array does not continue a number. *)
Lemma space_not_in_number c : IsSpace c = true → in_number c = false.
Proof.
  unfold IsSpace. by intros [[[E|E]%orb_true_iff|E]%orb_true_iff|E]%orb_true_iff;
    apply bool_decide_eq_true in E as ->.
Qed.

Lemma stops_white w r : white w → stops r → stops (w ++ r).
Proof. intros [|c w' Hc _] Hr; [done|]. by apply space_not_in_number. Qed.

Lemma stops_white_nil w : white w → stops w.
Proof. intros Hw. rewrite <-(app_nil_r w). by apply stops_white. Qed.

Definition value_complete (v : JsonValue) (t : chars) : Prop := ∀ fuel w r,
  (length t < fuel)%nat → white w → stops r → ParseValue dialect fuel (w ++ t ++ r) = Parsed (v, r).

Definition members_complete (new : list (string * JsonValue)) (t : chars) : Prop :=
  ∀ fuel fields r, (length t < fuel)%nat → NoDup (fields ++ new).*1 →
  ParseMembers dialect fuel fields (t ++ r) = Parsed (JsonObject (fields ++ new), r).

Definition elements_complete (new : list JsonValue) (t : chars) : Prop :=
  ∀ fuel values r, (length t < fuel)%nat →
  ParseElements dialect fuel values (t ++ r) = Parsed (JsonArray (values ++ new), r).

(** The dispatch of [ParseValue] on the first character of the value. *)
Lemma ParseValue_string s t : quoted_text s t → value_complete (JsonText s) t.
Proof.
  intros Ht [|fuel] w r Hf Hw Hr; [lia|]. simpl.
  destruct (quoted_text_head _ _ Ht) as [kt ->].
  rewrite SkipWhitespace_app by done. simpl.
  change (quote :: kt ++ r) with ((quote :: kt) ++ r). by rewrite (ParseString_complete s).
Qed.

Lemma ParseValue_number d t : number_text d t → value_complete (JsonNumber d) t.
Proof.
  intros Ht [|fuel] w r Hf Hw Hr; [lia|]. simpl.
  rewrite SkipWhitespace_app by (done || by eapply json_text_not_space, text_number).
  assert (∃ c t', t = c :: t' ∧ (c = "-"%char ∨ is_digit c = true)) as (c & t' & -> & Hc).
  { destruct Ht as [negative integral fraction ft e et d' Hint _ _ _].
    destruct negative; simpl; [eauto|].
    destruct (digits_head _ Hint) as (c & ds & -> & Hc). simpl. eauto. }
  simpl. rewrite !bool_decide_eq_false_2 by (intros ->; by destruct Hc).
  replace (bool_decide (c = "-"%char) || is_digit c) with true.
  2: { destruct Hc as [->|Hc]; [done|]. by rewrite Hc, orb_true_r. }
  change (c :: t' ++ r) with ((c :: t') ++ r). by rewrite (ParseNumber_complete d).
Qed.

Lemma ParseMembers_round fuel fields w1 key kt w2 w3 v t rest :
  white w1 → quoted_text key kt → white w2 → white w3 → value_complete v t →
  (length t < fuel)%nat → stops rest → NoDup (fields ++ [(key, v)]).*1 →
  ParseMembers dialect (S fuel) fields (w1 ++ kt ++ w2 ++ ":"%char :: w3 ++ t ++ rest) =
  match TryConsume "}" (SkipWhitespace rest) with
  | Some r => Parsed (JsonObject (fields ++ [(key, v)]), r)
  | None => s ← Expect dialect "," (SkipWhitespace rest);
            ParseMembers dialect fuel (fields ++ [(key, v)]) s
  end.
Proof.
  intros Hw1 Hkt Hw2 Hw3 IH Hf Hr Hnd. simpl.
  destruct (quoted_text_head _ _ Hkt) as [kt' Ekt].
  rewrite (SkipWhitespace_app w1) by (done || by rewrite Ekt).
  rewrite Ekt at 1. simpl. rewrite (ParseString_complete key) by done. simpl.
  rewrite (SkipWhitespace_app w2) by done.
  rewrite Expect_here by done. simpl.
  rewrite IH by done. simpl.
  replace (has_key key fields) with false; [done|]. symmetry. apply bool_decide_eq_false_2.
  rewrite fmap_app in Hnd. apply NoDup_app in Hnd as (_ & Hnd & _).
  intros Hin. apply (Hnd _ Hin). simpl. set_solver.
Qed.

Lemma ParseElements_round fuel values w1 v t rest :
  white w1 → value_complete v t → (length t < fuel)%nat → stops rest →
  ParseElements dialect (S fuel) values (w1 ++ t ++ rest) =
  match TryConsume "]" (SkipWhitespace rest) with
  | Some r => Parsed (JsonArray (values ++ [v]), r)
  | None => s ← Expect dialect "," (SkipWhitespace rest);
            ParseElements dialect fuel (values ++ [v]) s
  end.
Proof. intros Hw1 IH Hf Hr. simpl. by rewrite IH. Qed.

Lemma parser_complete :
  (∀ v t, json_text v t → value_complete v t) ∧
  (∀ new t, members_text new t → members_complete new t) ∧
  (∀ new t, elements_text new t → elements_complete new t).
Proof.
  apply json_text_induction.
  1-3: intros [|fuel] w r Hf Hw Hr; [lia|]; simpl; by rewrite SkipWhitespace_app.
  - apply ParseValue_number.
  - apply ParseValue_string.
  - intros w' Hw' [|fuel] w r Hf Hw Hr; [lia|]. simpl. rewrite SkipWhitespace_app by done.
    simpl. rewrite <-app_assoc. simpl. by rewrite TryConsume_complete.
  - intros fields t Ht IH Hnd [|fuel] w r Hf Hw Hr; [lia|]. simpl in *.
    rewrite SkipWhitespace_app by done. simpl.
    assert (TryConsume "}" (t ++ r) = None) as ->.
    { destruct Ht as [w1 key kt w2 w3 v t w4 Hw1 Hkt _ _ _ _|w1 key kt w2 w3 v t w4 fields' rest Hw1 Hkt _ _ _ _ _];
        destruct (quoted_text_head _ _ Hkt) as [kt' ->]; rewrite <-!app_assoc; simpl;
        by apply TryConsume_None. }
    apply (IH fuel [] r); [lia|done].
  - intros w' Hw' [|fuel] w r Hf Hw Hr; [lia|]. simpl. rewrite SkipWhitespace_app by done.
    simpl. rewrite <-app_assoc. simpl. by rewrite TryConsume_complete.
  - intros values t Ht IH [|fuel] w r Hf Hw Hr; [lia|]. simpl in *.
    rewrite SkipWhitespace_app by done. simpl.
    assert (TryConsume "]" (t ++ r) = None) as ->.
    { destruct Ht as [w1 v t w2 Hw1 Hv _|w1 v t w2 values' rest Hw1 Hv _ _];
        destruct (json_text_head _ _ Hv) as (c & t' & -> & Hc & Hne); rewrite <-!app_assoc; simpl;
        by apply TryConsume_None. }
    apply (IH fuel [] r). lia.
  - intros w1 key kt w2 w3 v t w4 Hw1 Hkt Hw2 Hw3 _ IH Hw4 [|fuel] fields r Hf Hnd; [lia|].
    rewrite !length_app in Hf. simpl in Hf. rewrite !length_app in Hf.
    rewrite <-!app_assoc, <-app_comm_cons, <-!app_assoc. cbn [app].
    rewrite (ParseMembers_round _ _ _ key _ _ _ v) by (done || lia || by apply stops_white).
    rewrite (SkipWhitespace_app w4) by done. done.
  - intros w1 key kt w2 w3 v t w4 new rest Hw1 Hkt Hw2 Hw3 _ IH Hw4 _ IHm [|fuel] fields r Hf Hnd; [lia|].
    rewrite !length_app in Hf. simpl in Hf. rewrite !length_app in Hf. simpl in Hf.
    rewrite <-!app_assoc, <-app_comm_cons, <-!app_assoc, <-app_comm_cons. cbn [app].
    change ((key, v) :: new) with ([(key, v)] ++ new) in *. rewrite (app_assoc fields) in Hnd |- *.
    rewrite (ParseMembers_round _ _ _ key _ _ _ v); [|done..|lia|by apply stops_white|].
    2: { rewrite fmap_app in Hnd. by apply NoDup_app in Hnd as (? & _). }
    rewrite (SkipWhitespace_app w4) by done.
    rewrite TryConsume_other by done.
    rewrite Expect_here by done. simpl. apply IHm; [lia|done].
  - intros w1 v t w2 Hw1 _ IH Hw2 [|fuel] values r Hf; [lia|].
    rewrite !length_app in Hf. simpl in Hf.
    rewrite <-!app_assoc. cbn [app].
    rewrite (ParseElements_round _ _ _ v) by (done || lia || by apply stops_white).
    by rewrite (SkipWhitespace_app w2).
  - intros w1 v t w2 new rest Hw1 _ IH Hw2 _ IHe [|fuel] values r Hf; [lia|].
    rewrite !length_app in Hf. simpl in Hf.
    rewrite <-!app_assoc, <-app_comm_cons. cbn [app].
    change (v :: new) with ([v] ++ new). rewrite (app_assoc values).
    rewrite (ParseElements_round _ _ _ v) by (done || lia || by apply stops_white).
    rewrite (SkipWhitespace_app w2) by done.
    rewrite TryConsume_other by done.
    rewrite Expect_here by done. simpl. apply IHe. lia.
Qed.

(* ------------------------------------------------------------------ *)
(** ** The parser always answers *)

Lemma Expect_answers c s : answers (Expect dialect c s).
Proof. unfold Expect. destruct (SkipWhitespace s); [done|]. by case_bool_decide. Qed.

Lemma string_loop_answers s : answers (string_loop dialect s).
Proof.
  induction s as [s IH] using (induction_ltof1 _ length). unfold ltof in IH.
  destruct s as [|c s1]; [done|]. simpl. case_bool_decide; [done|].
  destruct (code c <? 32); [done|]. case_bool_decide; simpl.
  - destruct s1 as [|e s2]; [done|]. destruct (unescape e); [|by case_bool_decide].
    apply answers_bind; [apply IH; simpl; lia|by intros []].
  - apply answers_bind; [apply IH; simpl; lia|by intros []].
Qed.

Lemma ParseString_answers s : answers (ParseString dialect s).
Proof.
  apply answers_bind; [apply Expect_answers|]. intros s1 _.
  apply answers_bind; [apply string_loop_answers|by intros []].
Qed.

Lemma ConsumeDigits_answers s : answers (ConsumeDigits s).
Proof. unfold ConsumeDigits. by case_bool_decide. Qed.

Lemma scan_fraction_answers s : answers (scan_fraction s).
Proof.
  destruct s; [done|]. simpl. case_bool_decide; [|done].
  apply answers_bind; [apply ConsumeDigits_answers|by intros []].
Qed.

Lemma scan_exponent_answers s : answers (scan_exponent s).
Proof.
  destruct s as [|c s]; [done|]. simpl. destruct (_ || _); [|done].
  destruct (match s with [] => _ | _ => _ end) as [sign s'].
  apply answers_bind; [apply ConsumeDigits_answers|by intros []].
Qed.

Lemma ParseNumber_answers s : answers (ParseNumber dialect s).
Proof.
  unfold ParseNumber. destruct (scan_sign s) as [sign s1].
  apply answers_bind; [apply ConsumeDigits_answers|intros [ds s2] _].
  apply answers_bind; [apply scan_fraction_answers|intros [ft s3] _].
  apply answers_bind; [apply scan_exponent_answers|intros [et s4] _].
  destruct (from_chars_double _) as [[d [|]]|]; [by destruct (isfinite d)|done..].
Qed.

(** A value consumes some text. *)
Lemma ParseValue_shorter fuel s v r :
  ParseValue dialect fuel s = Parsed (v, r) → (length r < length s)%nat.
Proof.
  intros H. apply parser_sound in H as (w & t & _ & Ht & ->).
  destruct (json_text_head _ _ Ht) as (c & t' & -> & _). rewrite !length_app. simpl. lia.
Qed.

Lemma Expect_shorter c s r : Expect dialect c s = Parsed r → (length r < length s)%nat.
Proof. intros (w & _ & ->)%Expect_sound. rewrite length_app. simpl. lia. Qed.

Lemma ParseString_shorter s key r :
  ParseString dialect s = Parsed (key, r) → (length r < length s)%nat.
Proof.
  intros (w & t & _ & Ht & ->)%ParseString_sound. destruct (quoted_text_head _ _ Ht) as [t' ->].
  rewrite !length_app. simpl. lia.
Qed.

Lemma SkipWhitespace_length s : (length (SkipWhitespace s) <= length s)%nat.
Proof. apply length_drop_while. Qed.

Lemma parser_answers fuel :
  (∀ s, (2 * length s < fuel)%nat → answers (ParseValue dialect fuel s)) ∧
  (∀ fields s, (2 * length s < fuel)%nat → answers (ParseMembers dialect fuel fields s)) ∧
  (∀ values s, (2 * length s + 1 < fuel)%nat → answers (ParseElements dialect fuel values s)).
Proof.
  induction fuel as [|fuel (IHv & IHm & IHe)]; [split_and!; lia|]. split_and!.
  - intros s Hs. simpl. pose proof (SkipWhitespace_length s) as Hlen.
    destruct (SkipWhitespace s) as [|c s']; [done|]. simpl in Hlen.
    case_bool_decide; [destruct (TryConsume "}" s'); [done|apply IHm; lia]|].
    case_bool_decide; [destruct (TryConsume "]" s'); [done|apply IHe; lia]|].
    case_bool_decide; [apply answers_bind; [apply ParseString_answers|by intros []]|].
    destruct (_ || _); [apply answers_bind; [apply ParseNumber_answers|by intros []]|].
    by repeat case_match.
  - intros fields s Hs. simpl. pose proof (SkipWhitespace_length s) as H0.
    destruct (negb _); [done|].
    apply answers_bind; [apply ParseString_answers|intros [key s1] H1%ParseString_shorter].
    apply answers_bind; [apply Expect_answers|intros s2 H2%Expect_shorter].
    pose proof (SkipWhitespace_length s1).
    apply answers_bind; [apply IHv; lia|intros [value s3] H3%ParseValue_shorter].
    destruct (has_key key fields); [done|]. destruct (TryConsume "}" _); [done|].
    apply answers_bind; [apply Expect_answers|intros s4 H4%Expect_shorter].
    pose proof (SkipWhitespace_length s3). apply IHm. lia.
  - intros values s Hs. simpl.
    apply answers_bind; [apply IHv; lia|intros [value s1] H1%ParseValue_shorter].
    destruct (TryConsume "]" _); [done|].
    apply answers_bind; [apply Expect_answers|intros s2 H2%Expect_shorter].
    pose proof (SkipWhitespace_length s1). apply IHe. lia.
Qed.

(* ------------------------------------------------------------------ *)
(** ** Documents *)

Lemma Parse_json_sound document v :
  Parse_json dialect document = Parsed v → document_text v document.
Proof.
  unfold Parse_json. intros ([v' s] & H & Hend)%Parse_bind_Parsed.
  case_bool_decide as Hs; simplify_eq.
  apply parser_sound in H as (w & t & Hw & Ht & ->).
  destruct (SkipWhitespace_split s) as (w2 & Hw2 & E). rewrite Hs, app_nil_r in E. subst s.
  by exists w, t, w2.
Qed.

Lemma Parse_json_complete document v :
  document_text v document → Parse_json dialect document = Parsed v.
Proof.
  intros (w1 & t & w2 & -> & Hw1 & Hw2 & Ht). unfold Parse_json.
  destruct parser_complete as (Hv & _). rewrite (Hv v t Ht); [|..|done|by apply stops_white_nil].
  - simpl. rewrite <-(app_nil_r w2), SkipWhitespace_app by done. done.
  - rewrite !length_app. lia.
Qed.

Lemma Parse_json_answers document : answers (Parse_json dialect document).
Proof.
  apply answers_bind; [apply parser_answers; lia|]. intros [v s] _. by case_bool_decide.
Qed.

(** C17: the JSON parser of MissionParser.cpp and TreeParser.cpp decides the
    grammar.  It answers a value exactly when the document is white space, a
    text of that value and white space; otherwise it throws a parse error. It
    always ends: neither the recursion nor a loop runs out of fuel. *)
Theorem Parse_json_exact document :
  match Parse_json dialect document with
  | Parsed v => ∀ v', document_text v' document ↔ v' = v
  | ParseError _ => ∀ v', ¬ document_text v' document
  | Undefined | Exhausted => False
  end.
Proof.
  pose proof (Parse_json_answers document) as Ha.
  destruct (Parse_json dialect document) as [v| | |] eqn:E; try done.
  - intros v'. split; [|intros ->; by apply Parse_json_sound].
    intros Hv. apply Parse_json_complete in Hv. congruence.
  - intros v' Hv%Parse_json_complete. congruence.
Qed.
End Proofs.
