(* ===== verification/JsonPrinter.v ===== *)
(** * Printing JSON documents

    [print v] is a text of the grammar of JsonGrammar.v that denotes [v], for
    the values whose strings and numbers have one ([printable]).  The code has
    no printer: this one states what a document of a given value is, for the
    round trips of missions and behavior trees. *)

From Stdlib Require Import Ascii String SpecFloat.
From S2P Require Import Prelude RobotState CommandValidation Text Json JsonGrammar.

Open Scope Z_scope.

(** An induction for the values, under lists. *)
Section Induction.
Context (P : JsonValue → Prop).
Context (HNull : P JsonNull) (HBool : ∀ b, P (JsonBool b)) (HNumber : ∀ d, P (JsonNumber d))
  (HText : ∀ s, P (JsonText s))
  (HObject : ∀ fields, Forall (λ f, P f.2) fields → P (JsonObject fields))
  (HArray : ∀ values, Forall P values → P (JsonArray values)).

Fixpoint JsonValue_nested_ind (v : JsonValue) : P v :=
  match v with
  | JsonNull => HNull
  | JsonBool b => HBool b
  | JsonNumber d => HNumber d
  | JsonText s => HText s
  | JsonObject fields => HObject fields
      ((fix go fs := match fs return Forall (λ f, P f.2) fs with
                     | [] => Forall_nil_2 _
                     | f :: fs => Forall_cons_2 _ f fs (JsonValue_nested_ind f.2) (go fs)
                     end) fields)
  | JsonArray values => HArray values
      ((fix go vs := match vs return Forall P vs with
                     | [] => Forall_nil_2 _
                     | v :: vs => Forall_cons_2 _ v vs (JsonValue_nested_ind v) (go vs)
                     end) values)
  end.
End Induction.

(* ------------------------------------------------------------------ *)
(** ** Decimal numbers *)

Definition digit_char (n : Z) : ascii := ascii_of_N (Z.to_N (48 + n)).

(** The digits of [n], in at most [fuel] divisions by ten. *)
Fixpoint digits_of (fuel : nat) (n : Z) : chars :=
  match fuel with
  | O => [digit_char (n mod 10)]
  | S fuel => if n <? 10 then [digit_char n] else digits_of fuel (n / 10) ++ [digit_char (n mod 10)]
  end.

Definition print_decimal (n : Z) : chars := digits_of (Z.to_nat (Z.log2 n)) n.

Lemma digit_char_spec n : 0 <= n < 10 → is_digit (digit_char n) = true ∧ digit_value (digit_char n) = n.
Proof.
  intros Hn. assert (n ∈ seqZ 0 10) as Hin by (apply elem_of_seqZ; lia).
  unfold seqZ in Hin. simpl in Hin. rewrite !elem_of_cons, elem_of_nil in Hin.
  by destruct_or! Hin; subst.
Qed.

Lemma decimal_snoc ds c : decimal (ds ++ [c]) = 10 * decimal ds + digit_value c.
Proof. unfold decimal. by rewrite foldl_app. Qed.

Lemma digits_of_spec fuel n :
  0 <= n → n < 2 ^ (Z.of_nat fuel + 1) →
  digits (digits_of fuel n) ∧ decimal (digits_of fuel n) = n.
Proof.
  revert n. induction fuel as [|fuel IH]; intros n Hn Hf.
  - simpl in Hf. rewrite Z.pow_1_r in Hf. simpl. rewrite Z.mod_small by lia.
    destruct (digit_char_spec n) as [Hd Hv]; [lia|]. split; [by repeat constructor|].
    unfold decimal. simpl. lia.
  - simpl. destruct (Z.ltb_spec n 10).
    + destruct (digit_char_spec n) as [Hd Hv]; [lia|]. split; [by repeat constructor|].
      unfold decimal. simpl. lia.
    + destruct (digit_char_spec (n mod 10)) as [Hd Hv]; [by apply Z.mod_pos_bound|].
      destruct (IH (n / 10)) as [[Hne Hall] Hdec].
      * apply Z.div_pos; lia.
      * apply Z.div_lt_upper_bound; [lia|].
        rewrite Nat2Z.inj_succ, Z.add_succ_l, Z.pow_succ_r in Hf by lia. lia.
      * split; [split; [by destruct (digits_of fuel (n / 10))|]|].
        -- apply Forall_app. split; [done|by repeat constructor].
        -- rewrite decimal_snoc, Hdec, Hv. pose proof (Z_div_mod_eq_full n 10). lia.
Qed.

Lemma print_decimal_spec n : 0 <= n → digits (print_decimal n) ∧ decimal (print_decimal n) = n.
Proof.
  intros Hn. apply digits_of_spec; [done|]. destruct (Z.eq_dec n 0) as [->|].
  - done.
  - rewrite Z2Nat.id by apply Z.log2_nonneg. apply Z.log2_spec. lia.
Qed.

Lemma print_decimal_digits n : 0 <= n → digits (print_decimal n).
Proof. apply print_decimal_spec. Qed.

Definition print_sign (negative : bool) : chars := if negative then ["-"%char] else [].

(** An integer, and a decimal number with an exponent. *)
Definition print_integer (n : Z) : chars := print_sign (n <? 0) ++ print_decimal (Z.abs n).

Definition print_exponent (e : Z) : chars := "e"%char :: print_sign (e <? 0) ++ print_decimal (Z.abs e).

(** A finite double is [m * 2 ^ e], which is [m * 5 ^ (- e) * 10 ^ e] if [e] is
    negative. *)
Definition decimal_parts (d : spec_float) : bool * Z * Z :=
  match d with
  | S754_zero negative => (negative, 0, 0)
  | S754_finite negative m e =>
      if has_no_fraction d then (negative, Z.abs (truncate d), 0)
      else (negative, Z.pos m * 5 ^ (- e), e)
  | _ => (false, 0, 0)
  end.

Definition print_number (d : spec_float) : chars :=
  let '(negative, m, e) := decimal_parts d in
  print_sign negative ++ print_decimal m ++ (if e =? 0 then [] else print_exponent e).

(** The decimal number reads back as the double. *)
Definition number_printable (d : spec_float) : Prop :=
  let '(negative, m, e) := decimal_parts d in 0 <= m ∧ from_decimal negative m e = Some d.

Lemma exponent_text_print e : exponent_text e (print_exponent e).
Proof.
  unfold print_exponent. destruct (Z.ltb_spec e 0).
  - destruct (print_decimal_spec (Z.abs e)) as [Hd Hv]; [lia|].
    replace e with (- decimal (print_decimal (Z.abs e))) at 1 by lia. apply negative_exponent; [set_solver|done].
  - destruct (print_decimal_spec (Z.abs e)) as [Hd Hv]; [lia|].
    replace e with (decimal (print_decimal (Z.abs e))) at 1 by lia.
    apply (positive_exponent _ []); [set_solver..|done].
Qed.

Lemma print_number_text d : number_printable d → number_text d (print_number d).
Proof.
  unfold number_printable, print_number. destruct (decimal_parts d) as [[negative m] e].
  intros [Hm Hd]. destruct (print_decimal_spec m Hm) as [Hds Hv].
  assert (Het : exponent_text e (if e =? 0 then [] else print_exponent e)).
  { destruct (Z.eqb_spec e 0) as [->|]; [constructor|apply exponent_text_print]. }
  apply (number negative (print_decimal m) [] [] e); [done|constructor|done|].
  rewrite app_nil_r, Hv. simpl. by rewrite Z.sub_0_r.
Qed.

(* ------------------------------------------------------------------ *)
(** ** Strings *)

(** The escape of a character that needs one. *)
Definition escape (c : ascii) : option ascii :=
  if bool_decide (c = quote) then Some quote
  else if bool_decide (c = "\"%char) then Some "\"%char
  else if bool_decide (c = "008"%char) then Some "b"%char
  else if bool_decide (c = "012"%char) then Some "f"%char
  else if bool_decide (c = line_feed) then Some "n"%char
  else if bool_decide (c = carriage_return) then Some "r"%char
  else if bool_decide (c = tab) then Some "t"%char
  else None.

Definition print_char (c : ascii) : chars :=
  match escape c with Some e => ["\"%char; e] | None => [c] end.

Definition print_quoted (s : string) : chars :=
  quote :: concat (print_char <$> chars_of s) ++ [quote].

(** A character with an escape or without need of one. *)
Definition char_printable (c : ascii) : bool :=
  match escape c with Some _ => true | None => 32 <=? code c end.

Definition string_printable (s : string) : Prop := all_chars char_printable (chars_of s).

Lemma escape_Some c e : escape c = Some e → unescape e = Some c.
Proof. unfold escape. intros H. repeat case_bool_decide; by simplify_eq. Qed.

Lemma escape_None c : escape c = None → c ≠ quote ∧ c ≠ "\"%char.
Proof. unfold escape. intros H. by repeat case_bool_decide. Qed.

Lemma print_quoted_text s : string_printable s → quoted_text s (print_quoted s).
Proof.
  intros Hs. eexists. split; [|done]. unfold string_printable in Hs.
  induction Hs as [|c s' Hc _ IH]; simpl; [constructor|].
  unfold char_printable, print_char in *. destruct (escape c) as [e|] eqn:E.
  - simpl. apply string_escape; [by apply escape_Some|done].
  - apply escape_None in E as []. simpl. apply string_plain; [done|done|lia|done].
Qed.

(* ------------------------------------------------------------------ *)
(** ** Values *)

Fixpoint print (v : JsonValue) : chars :=
  match v with
  | JsonNull => chars_of "null"
  | JsonBool true => chars_of "true"
  | JsonBool false => chars_of "false"
  | JsonNumber d => print_number d
  | JsonText s => print_quoted s
  | JsonObject fields =>
      "{"%char ::
      (fix members fs := match fs with
        | [] => ["}"%char]
        | [f] => print_quoted f.1 ++ ":"%char :: print f.2 ++ ["}"%char]
        | f :: fs => print_quoted f.1 ++ ":"%char :: print f.2 ++ ","%char :: members fs
        end) fields
  | JsonArray values =>
      "["%char ::
      (fix elements vs := match vs with
        | [] => ["]"%char]
        | [v] => print v ++ ["]"%char]
        | v :: vs => print v ++ ","%char :: elements vs
        end) values
  end.

Inductive printable : JsonValue → Prop :=
  | printable_null : printable JsonNull
  | printable_bool b : printable (JsonBool b)
  | printable_number d : number_printable d → printable (JsonNumber d)
  | printable_text s : string_printable s → printable (JsonText s)
  | printable_object fields :
      Forall (λ f, string_printable f.1 ∧ printable f.2) fields → NoDup fields.*1 →
      printable (JsonObject fields)
  | printable_array values : Forall printable values → printable (JsonArray values).

Lemma print_text v : printable v → json_text v (print v).
Proof.
  induction v as [|b|d|s|fields IH|values IH] using JsonValue_nested_ind; intros Hv;
    inversion Hv as [| |? Hd|? Hs|? Hfs Hnd|? Hvs]; subst.
  - constructor.
  - destruct b; constructor.
  - constructor. by apply print_number_text.
  - constructor. by apply print_quoted_text.
  - destruct fields as [|f fields]; [by apply (text_empty_object []); constructor|].
    apply text_object; [|done]. clear Hv. revert f IH Hfs Hnd.
    induction fields as [|g fields IHf]; intros f [IH1 IH2]%Forall_cons [[Hf1 Hf2] Hfs]%Forall_cons [_ Hnd]%NoDup_cons.
    + destruct f as [key v]. apply (last_member [] _ _ [] [] _ _ []); try constructor;
        [by apply print_quoted_text|by apply IH1].
    + destruct f as [key v]. apply (more_members [] _ _ [] [] _ _ []); try constructor;
        [by apply print_quoted_text|by apply IH1|by apply IHf].
  - destruct values as [|f values]; [by apply (text_empty_array []); constructor|].
    apply text_array. clear Hv. revert f IH Hvs.
    induction values as [|g values IHf]; intros f [IH1 IH2]%Forall_cons [Hf Hfs]%Forall_cons.
    + apply (last_element [] _ _ []); [constructor|by apply IH1|constructor].
    + apply (more_elements [] _ _ []); [constructor|by apply IH1|constructor|by apply IHf].
Qed.

Lemma print_document v : printable v → document_text v (print v).
Proof.
  intros Hv. exists [], (print v), []. rewrite app_nil_r.
  split_and!; [done|constructor|constructor|by apply print_text].
Qed.

Lemma Parse_print dialect v : printable v → Parse_json dialect (print v) = Parsed v.
Proof. intros Hv. by apply Parse_json_complete, print_document. Qed.

(* ------------------------------------------------------------------ *)
(** ** Documents with known fields *)

Lemma Optional_here key v fields : Optional ((key, v) :: fields) key = Some v.
Proof. unfold Optional. simpl. by rewrite decide_True. Qed.

Lemma Optional_next key key' v fields :
  key' ≠ key → Optional ((key', v) :: fields) key = Optional fields key.
Proof.
  intros Hne. unfold Optional. simpl. rewrite decide_False by done.
  by destruct (list_find _ _) as [[i f]|].
Qed.

Lemma Required_Some fields key v : Optional fields key = Some v → Required fields key = Parsed v.
Proof. unfold Required. by intros ->. Qed.

Lemma foldM_elements {A} (encode : A → JsonValue) (read : JsonValue → Parse A) l acc :
  Forall (λ a, read (encode a) = Parsed a) l →
  foldM (λ v l, a ← read v; Parsed (l ++ [a])) (encode <$> l) acc = Parsed (acc ++ l).
Proof.
  intros Hl. revert acc. induction Hl as [|a l Ha _ IH]; intros acc; simpl.
  - by rewrite app_nil_r.
  - rewrite Ha. simpl. by rewrite IH, <-app_assoc.
Qed.

Lemma string_printable_literal s : bool_decide (string_printable s) = true → string_printable s.
Proof. apply bool_decide_eq_true. Qed.

(** A literal is printable. *)
Ltac literal := apply string_printable_literal; vm_compute; reflexivity.

(** The keys of an object are literals. *)
Ltac object := apply printable_object;
  [repeat apply Forall_cons_2; try apply Forall_nil_2; (split; [literal|cbn [snd]])
  |apply (bool_decide_unpack _); vm_compute; exact I].

