(* ===== verification/MissionJson.v ===== *)
(** * Missions from JSON

    The first half of src/mission/MissionParser.cpp: the names of the
    enumerations and the conversion of a JSON value to a mission.  The time
    stamp of a mission is a parameter, the time of the call. *)

From Stdlib Require Import Ascii String SpecFloat.
From S2P Require Import Prelude Command RobotState SafetyValidator CommandValidation.
From S2P Require Import Mission Text Json.

Open Scope Z_scope.

(* ------------------------------------------------------------------ *)
(** ** Names *)

(** A chain of comparisons with the names of the constants. *)
Definition named {A} (names : list (string * A)) (value : string) : option A :=
  snd <$> find (λ entry, bool_decide (entry.1 = value)) names.

Definition CommandTypeFromString : string → option CommandType :=
  named [("Stand", TypeStand); ("Sit", TypeSit); ("Walk", TypeWalk); ("Stop", TypeStop);
         ("Move", TypeMove); ("Rotate", TypeRotate); ("Velocity", TypeVelocity);
         ("EmergencyStop", TypeEmergencyStop); ("HandOpen", TypeHandOpen);
         ("HandClose", TypeHandClose); ("Gesture", TypeGesture); ("PlayAudio", TypePlayAudio);
         ("StopAudio", TypeStopAudio); ("SetVolume", TypeSetVolume);
         ("MuteAudio", TypeMuteAudio); ("Custom", TypeCustom)].

Definition PriorityFromString : string → option CommandPriority :=
  named [("Low", PriorityLow); ("Normal", PriorityNormal); ("High", PriorityHigh);
         ("Critical", PriorityCritical)].

Definition ConditionTypeFromString : string → option MissionConditionType :=
  named [("BatteryLevel", ConditionBatteryLevel); ("Connection", ConditionConnection);
         ("RobotStanding", ConditionRobotStanding); ("RobotWalking", ConditionRobotWalking);
         ("RobotSitting", ConditionRobotSitting); ("Capability", ConditionCapability);
         ("FaultCode", ConditionFaultCode); ("EmergencyStop", ConditionEmergencyStop)].

Definition ConditionComparisonFromString : string → option MissionConditionComparison :=
  named [("Equal", Equal); ("NotEqual", NotEqual); ("LessThan", LessThan);
         ("LessThanOrEqual", LessThanOrEqual); ("GreaterThan", GreaterThan);
         ("GreaterThanOrEqual", GreaterThanOrEqual)].

Definition FailureActionFromString : string → option MissionConditionFailureAction :=
  named [("Skip", ActionSkip); ("Abort", ActionAbort)].

(* ------------------------------------------------------------------ *)
(** ** Scalars *)

Definition PayloadValueFromNumber (value : spec_float) : Parse CommandPayloadValue :=
  if IsInteger value then PayloadInt <$> cast_int64 value else Parsed (PayloadDouble value).

Definition JsonUint64 (value : JsonValue) (key : string) : Parse Z :=
  match value with
  | JsonNumber number =>
      if negb (IsInteger number) || SFltb number (S754_zero false) ||
         SFltb (binary_normalize 53 1024 (u64_modulus - 1) 0 false) number
      then ParseError (key +:+ " must be an unsigned integer")
      else cast_uint64 number
  | _ => ParseError (key +:+ " must be an unsigned integer")
  end.

Definition JsonUint32 (value : JsonValue) (key : string) : Parse Z :=
  number ← JsonUint64 value key;
  if 2 ^ 32 - 1 <? number then ParseError (key +:+ " exceeds uint32 range") else Parsed number.

Definition JsonInt64 (value : JsonValue) (key : string) : Parse Z :=
  match value with
  | JsonNumber number =>
      if IsInteger number then cast_int64 number
      else ParseError (key +:+ " must be an integer")
  | _ => ParseError (key +:+ " must be an integer")
  end.

Definition JsonBoolean (value : JsonValue) (key : string) : Parse bool :=
  match value with
  | JsonBool b => Parsed b
  | _ => ParseError (key +:+ " must be a boolean")
  end.

(** A member that keeps its value when the field is absent. *)
Definition optionally {A} (object : list (string * JsonValue)) (key : string) (member : A)
    (read : JsonValue → Parse A) : Parse A :=
  match Optional object key with Some value => read value | None => Parsed member end.

Definition MetadataFromJson (value : JsonValue) (key : string) : Parse MissionMetadata :=
  object ← AsObject value key;
  foldM (λ entry metadata, s ← JsonString entry.2 key; Parsed (map_emplace entry.1 s metadata))
    (entries object) ∅.

Definition PayloadFromJson (value : JsonValue) (key : string) :
    Parse (gmap string CommandPayloadValue) :=
  object ← AsObject value key;
  foldM (λ entry payload,
    v ← match entry.2 with
        | JsonBool b => Parsed (PayloadBool b)
        | JsonNumber d => PayloadValueFromNumber d
        | JsonText s => Parsed (PayloadString s)
        | _ => ParseError "Command payload values must be scalar"
        end;
    Parsed (map_emplace entry.1 v payload)) (entries object) ∅.

(** A string that must name a constant. *)
Definition JsonNamed {A} (from : string → option A) (value : JsonValue) (key unknown : string) :
    Parse A :=
  name ← JsonString value key; or_error (from name) (unknown +:+ name).

(* ------------------------------------------------------------------ *)
(** ** The parts of a mission *)

Definition CommandFromJson (value : JsonValue) : Parse Command :=
  object ← AsObject value "command";
  id ← (field ← Required object "id"; JsonUint64 field "command.id");
  type ← (field ← Required object "type";
          JsonNamed CommandTypeFromString field "command.type" "Unknown command type: ");
  priority ← optionally object "priority" (priority default_Command) (λ field,
    JsonNamed PriorityFromString field "command.priority" "Unknown command priority: ");
  timeout ← optionally object "timeout_ms" (timeout default_Command) (λ field,
    JsonInt64 field "command.timeout_ms");
  payload ← optionally object "payload" (payload default_Command) (λ field,
    PayloadFromJson field "command.payload");
  metadata ← optionally object "metadata" (metadata default_Command) (λ field,
    MetadataFromJson field "command.metadata");
  Parsed (mkCommand id (timestamp default_Command) type priority timeout payload metadata).

Definition RetryPolicyFromJson (value : JsonValue) : Parse RetryPolicy :=
  let policy := default_RetryPolicy in
  object ← AsObject value "retry_policy";
  attempts ← optionally object "max_attempts" (maxAttempts policy) (λ field,
    JsonUint32 field "retry_policy.max_attempts");
  delay ← optionally object "delay_ms" (delayBetweenAttempts policy) (λ field,
    JsonInt64 field "retry_policy.delay_ms");
  on_failure ← optionally object "retry_on_failure" (retryOnFailure policy) (λ field,
    JsonBoolean field "retry_policy.retry_on_failure");
  on_timeout ← optionally object "retry_on_timeout" (retryOnTimeout policy) (λ field,
    JsonBoolean field "retry_policy.retry_on_timeout");
  Parsed (mkRetryPolicy attempts delay on_failure on_timeout).

Definition LoopPolicyFromJson (value : JsonValue) : Parse LoopPolicy :=
  object ← AsObject value "loop_policy";
  iterations ← optionally object "iterations" (iterations default_LoopPolicy) (λ field,
    JsonUint32 field "loop_policy.iterations");
  Parsed (mkLoopPolicy iterations).

Definition TimeoutPolicyFromJson (value : JsonValue) : Parse TimeoutPolicy :=
  let policy := default_TimeoutPolicy in
  object ← AsObject value "timeout_policy";
  timeout ← optionally object "timeout_ms" (policy_timeout policy) (λ field,
    JsonInt64 field "timeout_policy.timeout_ms");
  abort ← optionally object "abort_on_timeout" (abortOnTimeout policy) (λ field,
    JsonBoolean field "timeout_policy.abort_on_timeout");
  Parsed (mkTimeoutPolicy timeout abort).

(** The field [value]: the numeric and the boolean operand of a condition. *)
Definition OperandsFromJson (object : list (string * JsonValue)) : Parse (float32 * bool) :=
  let condition := default_MissionCondition in
  optionally object "value" (numericValue condition, boolValue condition) (λ field,
    match field with
    | JsonNumber d => Parsed (cast_float d, boolValue condition)
    | JsonBool b => Parsed (numericValue condition, b)
    | _ => ParseError "condition.value must be numeric or boolean"
    end).

Definition ConditionFromJson (value : JsonValue) : Parse MissionCondition :=
  let condition := default_MissionCondition in
  object ← AsObject value "condition";
  id ← (field ← Required object "id"; JsonUint64 field "condition.id");
  name ← (field ← Required object "name"; JsonString field "condition.name");
  type ← (field ← Required object "type";
          JsonNamed ConditionTypeFromString field "condition.type" "Unknown condition type: ");
  comparison ← optionally object "comparison" (comparison condition) (λ field,
    JsonNamed ConditionComparisonFromString field "condition.comparison"
      "Unknown condition comparison: ");
  '(numeric, boolean) ← OperandsFromJson object;
  fault ← optionally object "fault_code" (condition_faultCode condition) (λ field,
    cast_int32 <$> JsonInt64 field "condition.fault_code");
  command_type ← optionally object "command_type" (commandType condition) (λ field,
    JsonNamed CommandTypeFromString field "condition.command_type"
      "Unknown condition command_type: ");
  action ← optionally object "on_failure" (failureAction condition) (λ field,
    JsonNamed FailureActionFromString field "condition.on_failure"
      "Unknown condition on_failure action: ");
  metadata ← optionally object "metadata" (condition_metadata condition) (λ field,
    MetadataFromJson field "condition.metadata");
  Parsed (mkCondition id name type comparison numeric boolean fault command_type action metadata).

(** [{duration_ms: n}] of [wait] and [delay]. *)
Definition DurationFromJson (value : JsonValue) (key : string) : Parse Z :=
  object ← AsObject value key;
  field ← Required object "duration_ms";
  JsonInt64 field (key +:+ ".duration_ms").

Definition StepFromJson (value : JsonValue) : Parse MissionStep :=
  let step := default_MissionStep in
  object ← AsObject value "step";
  id ← (field ← Required object "id"; JsonUint64 field "step.id");
  name ← (field ← Required object "name"; JsonString field "step.name");
  command ← optionally object "command" (step_command step) CommandFromJson;
  timeout ← optionally object "timeout_ms" (step_timeout step) (λ field,
    JsonInt64 field "step.timeout_ms");
  retry ← optionally object "retry" (retry step) (λ field, JsonUint32 field "step.retry");
  retry_policy ← optionally object "retry_policy" (retryPolicy step) RetryPolicyFromJson;
  loop_policy ← optionally object "loop_policy" (loopPolicy step) LoopPolicyFromJson;
  timeout_policy ← optionally object "timeout_policy" (timeoutPolicy step) TimeoutPolicyFromJson;
  wait ← optionally object "wait" (wait step) (λ field,
    Some ∘ mkWaitStep <$> DurationFromJson field "step.wait");
  delay ← optionally object "delay" (delay step) (λ field,
    Some ∘ mkDelayStep <$> DurationFromJson field "step.delay");
  skip ← optionally object "skip" (skip step) (λ field, JsonBoolean field "step.skip");
  abort ← optionally object "abort" (abort step) (λ field, JsonBoolean field "step.abort");
  conditions ← optionally object "conditions" (conditions step) (λ field,
    values ← AsArray field "step.conditions";
    foldM (λ v cs, c ← ConditionFromJson v; Parsed (cs ++ [c])) values []);
  enabled ← optionally object "enabled" (enabled step) (λ field, JsonBoolean field "step.enabled");
  metadata ← optionally object "metadata" (step_metadata step) (λ field,
    MetadataFromJson field "step.metadata");
  Parsed (mkStep id name command timeout retry retry_policy loop_policy timeout_policy wait delay
            skip abort conditions enabled metadata).

Definition MissionFromJson (root : JsonValue) (now : Z) : Parse Mission :=
  object ← AsObject root "mission";
  object ← optionally object "mission" object (λ field, AsObject field "mission");
  id ← (field ← Required object "id"; JsonUint64 field "id");
  name ← (field ← Required object "name"; JsonString field "name");
  description ← (field ← Required object "description"; JsonString field "description");
  version ← (field ← Required object "version"; JsonString field "version");
  author ← (field ← Required object "author"; JsonString field "author");
  metadata ← optionally object "metadata" (mission_metadata default_Mission) (λ field,
    MetadataFromJson field "metadata");
  values ← (field ← Required object "steps"; AsArray field "steps");
  steps ← foldM (λ v ss, s ← StepFromJson v; Parsed (ss ++ [s])) values [];
  Parsed (mkMission id name description version author now steps metadata).

(* ------------------------------------------------------------------ *)
(** ** The parser *)

Record MissionParseResult := mkParseResult {
  parsed_mission : Mission;
  parse_success : bool;
  parse_message : string;
}.

Definition Success (m : Mission) : MissionParseResult :=
  mkParseResult m true "Mission parsed successfully".

Definition Failure (message : string) : MissionParseResult :=
  mkParseResult default_Mission false message.

(** The handler of [ParseError] around the two parsers. *)
Definition catch_parse_error (prefix : string) (p : Parse Mission) : Parse MissionParseResult :=
  match p with
  | Parsed m => Parsed (Success m)
  | ParseError what => Parsed (Failure (prefix +:+ what))
  | Undefined => Undefined
  | Exhausted => Exhausted
  end.

Definition ParseJson (document : chars) (now : Z) : Parse MissionParseResult :=
  catch_parse_error "JSON mission parse failed: "
    (value ← Parse_json mission_dialect document; MissionFromJson value now).
