(* ===== verification/Doubles.v ===== *)
(** * Integers that are doubles

    An integer of at most 53 bits is a double, and comes back unchanged from
    the conversions of the parsers. *)

From Stdlib Require Import Ascii String SpecFloat.
From S2P Require Import Prelude RobotState CommandValidation Text MissionJson Json JsonPrinter.

Open Scope Z_scope.

(** An integer with at most 53 bits. *)
Definition small (n : Z) : Prop := Z.abs n < 2 ^ 53.

Lemma iter_xO d m : Pos.iter xO m d = (m * 2 ^ d)%positive.
Proof.
  induction d as [|d IH] using Pos.peano_ind.
  - rewrite Pos.pow_1_r. simpl. lia.
  - rewrite Pos.iter_succ, IH, Pos.pow_succ_r. lia.
Qed.

Lemma digits2_pos_xO d m : Z.pos (digits2_pos (Pos.iter xO m d)) = Z.pos (digits2_pos m) + Z.pos d.
Proof.
  induction d as [|d IH] using Pos.peano_ind; [simpl; lia|]. rewrite Pos.iter_succ. simpl. lia.
Qed.

Lemma digits2_pos_bounds m :
  2 ^ (Z.pos (digits2_pos m) - 1) <= Z.pos m < 2 ^ Z.pos (digits2_pos m).
Proof.
  assert (Hstep : ∀ d, Z.pos (Pos.succ d) = Z.pos d + 1) by lia.
  induction m as [m IH|m IH|]; simpl; [..|done]; rewrite Hstep;
    replace (Z.pos (digits2_pos m) + 1 - 1) with (Z.succ (Z.pos (digits2_pos m) - 1)) by lia;
    rewrite Z.pow_succ_r by lia; rewrite Z.pow_add_r, Z.pow_1_r by lia; lia.
Qed.

Lemma digits2_pos_small m : Z.pos m < 2 ^ 53 → Z.pos (digits2_pos m) <= 53.
Proof.
  intros Hm. destruct (digits2_pos_bounds m) as [Hl _].
  destruct (Z.le_gt_cases (Z.pos (digits2_pos m)) 53); [done|].
  assert (2 ^ 53 <= 2 ^ (Z.pos (digits2_pos m) - 1)) by (apply Z.pow_le_mono_r; lia). lia.
Qed.

(** A mantissa of exactly 53 bits is not rounded. *)
Lemma binary_round_aux_exact s m e :
  Z.pos (digits2_pos m) = 53 → -1074 <= e <= 971 →
  binary_round_aux 53 1024 s (Z.pos m) e loc_Exact = S754_finite s m e.
Proof.
  intros Hd He.
  assert (Hshr : shr_fexp 53 1024 (Z.pos m) e loc_Exact = (shr_record_of_loc (Z.pos m) loc_Exact, e)).
  { unfold shr_fexp. replace (fexp 53 1024 _ - e) with 0; [done|].
    unfold fexp, emin. simpl Zdigits2. lia. }
  unfold binary_round_aux. rewrite Hshr. simpl. rewrite Hshr. simpl.
  destruct (Z.leb_spec e (1024 - 53)); [done|lia].
Qed.

Lemma binary_round_small m :
  Z.pos m < 2 ^ 53 →
  ∃ m' e, (∀ s, binary_round 53 1024 s m 0 = S754_finite s m' e) ∧ -52 <= e <= 0 ∧
          Z.pos m' = Z.pos m * 2 ^ (- e).
Proof.
  intros Hm. pose proof (digits2_pos_small m Hm) as Hd. unfold binary_round, shl_align.
  replace (fexp 53 1024 (Z.pos (digits2_pos m) + 0)) with (Z.pos (digits2_pos m) - 53)
    by (unfold fexp, emin; lia).
  rewrite Z.sub_0_r. destruct (Z.pos (digits2_pos m) - 53) as [|p|p] eqn:E; [|lia|].
  - exists m, 0. split; [|split; [lia|by rewrite Z.mul_1_r]].
    intros s. apply binary_round_aux_exact; lia.
  - exists (Pos.iter xO m p), (Z.neg p). split; [|split; [lia|]].
    + intros s. apply binary_round_aux_exact; [rewrite digits2_pos_xO|]; lia.
    + by rewrite iter_xO, Pos2Z.inj_mul, Pos2Z.inj_pow.
Qed.

Lemma double_of_int64_small n :
  small n → n ≠ 0 →
  ∃ m e, double_of_int64 n = S754_finite (n <? 0) m e ∧ -52 <= e <= 0 ∧
         Z.pos m = Z.abs n * 2 ^ (- e) ∧ double_of_int64 (Z.abs n) = S754_finite false m e.
Proof.
  unfold small, double_of_int64. intros Hn Hz. destruct n as [|p|p]; [done|..];
    destruct (binary_round_small p Hn) as (m & e & E & He & Hm); exists m, e; simpl;
    rewrite !E; destruct He; by split_and!.
Qed.

(** [truncate] and [has_no_fraction] of such a double. *)
Lemma small_parts n :
  small n → truncate (double_of_int64 n) = n ∧ has_no_fraction (double_of_int64 n) = true ∧
            isfinite (double_of_int64 n) = true.
Proof.
  intros Hn. destruct (decide (n = 0)) as [->|Hz]; [done|].
  destruct (double_of_int64_small n Hn Hz) as (m & e & -> & He & Hm & _). simpl.
  destruct (Z.leb_spec 0 e) as [He'|He'].
  - assert (e = 0) as -> by lia. simpl in Hm. rewrite Z.mul_1_r in *. split; [|done].
    destruct (Z.ltb_spec n 0); simpl; lia.
  - assert (0 < 2 ^ (- e)) by (apply Z.pow_pos_nonneg; lia).
    rewrite Hm, Z.div_mul, Z.mod_mul by lia. split; [|done].
    destruct (Z.ltb_spec n 0); lia.
Qed.

(** Doubles with a smaller exponent are between those of a greater one. *)
Lemma SFcompare_exponent s m e m' e' :
  e < e' → SFleb (S754_finite true m' e') (S754_finite s m e) = true ∧
           SFleb (S754_finite s m e) (S754_finite false m' e') = true.
Proof.
  intros He. unfold SFleb, SFcompare.
  destruct s, (Z.compare_spec e' e), (Z.compare_spec e e'); (lia || done).
Qed.

Lemma int64_min_double : double_of_int64 (- 2 ^ 63) = S754_finite true 4503599627370496 11.
Proof. by vm_compute. Qed.
Lemma int64_max_double : double_of_int64 (2 ^ 63 - 1) = S754_finite false 4503599627370496 11.
Proof. by vm_compute. Qed.
Lemma uint64_max_double :
  binary_normalize 53 1024 (u64_modulus - 1) 0 false = S754_finite false 4503599627370496 12.
Proof. by vm_compute. Qed.

Lemma IsInteger_small n : small n → IsInteger (double_of_int64 n) = true.
Proof.
  intros Hn. unfold IsInteger. destruct (small_parts n Hn) as (_ & -> & ->).
  destruct (decide (n = 0)) as [->|Hz]; [done|].
  destruct (double_of_int64_small n Hn Hz) as (m & e & -> & He & _).
  rewrite int64_min_double, int64_max_double.
  destruct (SFcompare_exponent (n <? 0) m e 4503599627370496 11) as [-> ->]; [lia|done].
Qed.

Lemma cast_int64_small n : small n → cast_int64 (double_of_int64 n) = Parsed n.
Proof.
  intros Hn. unfold cast_int64. destruct (small_parts n Hn) as (-> & _). unfold small in Hn.
  destruct (Z.leb_spec (- 2 ^ 63) n), (Z.ltb_spec n (2 ^ 63)); lia || done.
Qed.

Lemma JsonInt64_small n key : small n → JsonInt64 (JsonNumber (double_of_int64 n)) key = Parsed n.
Proof. intros Hn. simpl. by rewrite IsInteger_small, cast_int64_small. Qed.

Lemma JsonUint64_small n key :
  small n → 0 <= n → JsonUint64 (JsonNumber (double_of_int64 n)) key = Parsed n.
Proof.
  intros Hn H0. unfold JsonUint64. rewrite IsInteger_small by done.
  assert (Hcast : cast_uint64 (double_of_int64 n) = Parsed n).
  { unfold cast_uint64, u64_modulus. destruct (small_parts n Hn) as (-> & _). unfold small in Hn.
    destruct (Z.leb_spec 0 n), (Z.ltb_spec n (2 ^ 64)); lia || done. }
  rewrite Hcast. destruct (decide (n = 0)) as [->|Hz]; [done|].
  destruct (double_of_int64_small n Hn Hz) as (m & e & -> & He & _).
  replace (n <? 0) with false by lia.
  rewrite uint64_max_double. unfold SFltb at 2.
  by replace (SFcompare _ _) with (Some Gt) by (unfold SFcompare; destruct (Z.compare_spec 12 e); lia || done).
Qed.

Lemma JsonUint32_small n key :
  is_u32 n → JsonUint32 (JsonNumber (double_of_int64 n)) key = Parsed n.
Proof.
  unfold is_u32. intros Hn. unfold JsonUint32. rewrite JsonUint64_small by (unfold small; lia).
  simpl. destruct (Z.ltb_spec (2 ^ 32 - 1) n); [lia|done].
Qed.

(** Its decimal text reads back. *)
Lemma number_printable_small n : small n → number_printable (double_of_int64 n).
Proof.
  intros Hn. unfold number_printable, decimal_parts.
  destruct (small_parts n Hn) as (Ht & Hf & _).
  destruct (decide (n = 0)) as [->|Hz]; [done|].
  destruct (double_of_int64_small n Hn Hz) as (m & e & E & He & Hm & Habs).
  rewrite E in *. rewrite Hf, Ht. split; [lia|]. unfold from_decimal.
  destruct (Z.eqb_spec (Z.abs n) 0); [lia|]. simpl. rewrite Z.mul_1_r.
  unfold double_of_int64 in Habs. by rewrite Habs.
Qed.
