(* ===== verification/Yaml.v ===== *)
(** * Lines and loops of the mission YAML parser

    A YAML mission is a list of lines with their indentation.  The functions
    of src/mission/MissionParser.cpp that take the vector of lines and a
    reference to an index take and answer here the lines from that index on.
    Their loops have one shape, [yaml_loop]; each round consumes a line, and
    fuel as much as the lines is enough. *)

From Stdlib Require Import Ascii String SpecFloat.
From S2P Require Import Prelude Command RobotState SafetyValidator CommandValidation Mission Text.

Open Scope Z_scope.

Record YamlLine := mkYamlLine { indent : nat; content : chars; number : nat }.

(* ------------------------------------------------------------------ *)
(** ** Lines *)

(** The loop of [StripYamlComment], with its two flags. *)
Fixpoint strip_comment (in_single_quote in_double_quote : bool) (line : chars) : chars :=
  match line with
  | [] => []
  | current :: line' =>
      if bool_decide (current = single_quote) && negb in_double_quote then
        current :: strip_comment (negb in_single_quote) in_double_quote line'
      else if bool_decide (current = quote) && negb in_single_quote then
        current :: strip_comment in_single_quote (negb in_double_quote) line'
      else if bool_decide (current = "#"%char) && negb in_single_quote && negb in_double_quote
      then []
      else current :: strip_comment in_single_quote in_double_quote line'
  end.

Definition StripYamlComment (line : chars) : chars := strip_comment false false line.

Definition remove_carriage_return (line : chars) : chars :=
  match last line with
  | Some c => if bool_decide (c = carriage_return) then take (length line - 1) line else line
  | None => line
  end.

(** A round of the loop of [YamlLines]: the line that the text [raw_line]
    gives, if it is not empty. *)
Definition yaml_line (raw_line : chars) (line_number : nat) : Parse (option YamlLine) :=
  let raw_line := remove_carriage_return raw_line in
  if bool_decide (tab ∈ raw_line) then
    ParseError ("YAML tabs are not supported at line " +:+ to_string line_number)
  else
    let without_comment := StripYamlComment raw_line in
    let indent := length (take_while is_blank without_comment) in
    let content := Trim (drop indent without_comment) in
    if bool_decide (content = []) then Parsed None
    else if negb (indent mod 2 =? 0)%nat then
      ParseError ("YAML indentation must use multiples of two spaces at line " +:+
                  to_string line_number)
    else Parsed (Some (mkYamlLine indent content line_number)).

Fixpoint yaml_lines (fuel : nat) (document : chars) (line_number : nat) : Parse (list YamlLine) :=
  match fuel with
  | O => Exhausted
  | S fuel =>
      let '(raw_line, rest) := split_line document in
      line ← yaml_line raw_line line_number;
      lines ← match rest with
              | None => Parsed []
              | Some document => yaml_lines fuel document (S line_number)
              end;
      Parsed (option_list line ++ lines)
  end.

Definition YamlLines (document : chars) : Parse (list YamlLine) :=
  yaml_lines (S (length document)) document 1.

(* ------------------------------------------------------------------ *)
(** ** Fields and scalars *)

(** [content.find(':')] *)
Fixpoint split_at_colon (s : chars) : option (chars * chars) :=
  match s with
  | [] => None
  | c :: s' =>
      if bool_decide (c = ":"%char) then Some ([], s')
      else '(key, value) ← split_at_colon s'; Some (c :: key, value)
  end.

Definition SplitYamlKeyValue (line : YamlLine) : Parse (string * chars) :=
  match split_at_colon (content line) with
  | None => ParseError ("Expected key/value mapping at YAML line " +:+ to_string (number line))
  | Some (key, value) => Parsed (string_of (Trim key), Trim value)
  end.

Definition YamlScalar (value : chars) : chars := unquote (Trim value).

Definition YamlString (value : chars) : string := string_of (YamlScalar value).

Definition YamlBool (value : chars) (field_name : string) : Parse bool :=
  let scalar := YamlString value in
  if bool_decide (scalar = "true"%string) then Parsed true
  else if bool_decide (scalar = "false"%string) then Parsed false
  else ParseError (field_name +:+ " must be true or false").

(** The two [try] blocks. *)
Definition YamlPayloadValue (value : chars) : CommandPayloadValue :=
  let scalar := YamlScalar value in
  if bool_decide (string_of scalar = "true"%string) then PayloadBool true
  else if bool_decide (string_of scalar = "false"%string) then PayloadBool false
  else match ParseInt64 scalar "payload value" with
  | Parsed integer => PayloadInt integer
  | _ =>
      match ParseDouble scalar "payload value" with
      | Parsed d => PayloadDouble d
      | _ => PayloadString (string_of scalar)
      end
  end.

(** [line.content.rfind(prefix, 0) == 0] with the prefix of a sequence entry. *)
Definition is_entry (line : YamlLine) : bool :=
  match content line with
  | c :: c' :: _ => bool_decide (c = "-"%char) && bool_decide (c' = " "%char)
  | _ => false
  end.

(* ------------------------------------------------------------------ *)
(** ** Loops *)

(** [std::to_string(line.number)] after a message. *)
Definition at_line (message : string) (line : YamlLine) : string :=
  message +:+ to_string (number line).

(** What the checks at the start of a round say of the line: the loop ends,
    the line is consumed, or the error. *)
Inductive Position := Leave | Enter | Refuse (message : string).

Definition LogicalIndent (line : YamlLine) (base_indent : nat) : Parse nat :=
  if (indent line <? base_indent)%nat then
    ParseError (at_line "YAML content escaped mission root at line " line)
  else Parsed (indent line - base_indent)%nat.

Section Loop.
Context {A : Type} (base_indent : nat) (position : nat → YamlLine → Position).
Context (round : YamlLine → list YamlLine → A → Parse (A * list YamlLine)).

(** [while (index < lines.size())]; a round is given the line and the lines
    after it, and answers the lines it leaves. *)
Fixpoint yaml_loop (fuel : nat) (lines : list YamlLine) (a : A) : Parse (A * list YamlLine) :=
  match lines with
  | [] => Parsed (a, [])
  | line :: rest =>
      match fuel with
      | O => Exhausted
      | S fuel =>
          indent ← LogicalIndent line base_indent;
          match position indent line with
          | Leave => Parsed (a, lines)
          | Refuse message => ParseError message
          | Enter => '(a, rest) ← round line rest a; yaml_loop fuel rest a
          end
      end
  end.
End Loop.

(** The checks of the loops over the fields of a mapping. *)
Definition fields_at (expected_indent : nat) (unexpected : string) (indent : nat) (line : YamlLine) :
    Position :=
  if (indent <? expected_indent)%nat then Leave
  else if negb (indent =? expected_indent)%nat then Refuse (at_line unexpected line)
  else Enter.

(** A loop whose rounds consume a line [key: value] each. *)
Definition yaml_fields {A} (base_indent expected_indent : nat) (unexpected : string)
    (field : YamlLine → string → chars → A → Parse A) (lines : list YamlLine) (a : A) :
    Parse (A * list YamlLine) :=
  yaml_loop base_indent (fields_at expected_indent unexpected)
    (λ line rest a,
      '(key, value) ← SplitYamlKeyValue line;
      a ← field line key value a;
      Parsed (a, rest))
    (length lines) lines a.

(* ------------------------------------------------------------------ *)
(** ** The loops of the YAML parser

    The lemmas on [yaml_loop] that the theorems on missions share: the fuel is
    enough, what each round keeps holds at the end, and how a loop runs on
    lines that are known. *)

(** A value that satisfies [P] and at most [n] lines left, or an error. *)
Definition reads {A} (P : A → Prop) (n : nat) : Parse (A * list YamlLine) → Prop :=
  outcome False (λ r, P r.1 ∧ (length r.2 <= n)%nat).

Lemma LogicalIndent_outcome line base : outcome False (λ _, True) (LogicalIndent line base).
Proof. unfold LogicalIndent. by destruct (_ <? _)%nat. Qed.

Lemma SplitYamlKeyValue_outcome line : outcome False (λ _, True) (SplitYamlKeyValue line).
Proof. unfold SplitYamlKeyValue. by destruct (split_at_colon _) as [[]|]. Qed.

(** A loop whose rounds answer and keep [P] answers, with [P] at its end:
    each round consumes a line, so the fuel lasts. *)
Lemma yaml_loop_reads {A} (P : A → Prop) base position (round : YamlLine → list YamlLine → A → _) fuel lines a :
  (∀ line rest a, P a → reads P (length rest) (round line rest a)) →
  (length lines <= fuel)%nat → P a →
  reads P (length lines) (yaml_loop base position round fuel lines a).
Proof.
  intros Hround. revert lines a. induction fuel as [|fuel IH]; intros lines a Hf Ha;
    destruct lines as [|line rest]; simpl in *; [done|lia|done|].
  pose proof (LogicalIndent_outcome line base) as Hi.
  destruct (LogicalIndent line base) as [i| | |]; try done. simpl.
  destruct (position i line) as [| |m]; simpl; [done| |done].
  pose proof (Hround line rest a Ha) as Hr.
  destruct (round line rest a) as [[a' rest']| | |]; try done. simpl. destruct Hr as [Ha' Hlen]. simpl in *.
  pose proof (IH rest' a' ltac:(lia) Ha') as Hloop.
  destruct (yaml_loop _ _ _ _ _ _) as [[]| | |]; simpl in *; [|done..]. destruct Hloop. split; [done|lia].
Qed.

Lemma yaml_fields_reads {A} (P : A → Prop) base expected unexpected field lines a :
  (∀ line key value a, P a → outcome False P (field line key value a)) → P a →
  reads P (length lines) (yaml_fields base expected unexpected field lines a).
Proof.
  intros Hfield Ha. apply yaml_loop_reads; [|done|done]. clear lines a Ha. intros line rest a Ha.
  apply (outcome_bind (λ _, True)); [apply SplitYamlKeyValue_outcome|]. intros [key value] _.
  apply (outcome_bind P); [auto|]. intros a' Ha'. by split.
Qed.

(* ------------------------------------------------------------------ *)
(** ** Lines *)

Lemma yaml_line_outcome raw n : outcome False (λ _, True) (yaml_line raw n).
Proof. unfold yaml_line. repeat case_bool_decide; [done..|]. by destruct (negb _). Qed.

Lemma yaml_lines_outcome fuel document n :
  (length document < fuel)%nat → outcome False (λ _, True) (yaml_lines fuel document n).
Proof.
  revert document n. induction fuel as [|fuel IH]; intros document n Hf; [lia|]. simpl.
  destruct (split_line document) as [raw rest] eqn:E.
  apply (outcome_bind (λ _, True)); [apply yaml_line_outcome|]. intros line _.
  apply (outcome_bind (λ _, True)); [|done]. destruct rest as [rest|]; [|done].
  apply IH. apply split_line_shorter in E. lia.
Qed.

Lemma YamlLines_outcome document : outcome False (λ _, True) (YamlLines document).
Proof. apply yaml_lines_outcome. lia. Qed.

(* ------------------------------------------------------------------ *)
(** ** Loops on known lines *)

Section Runs.
Context {A : Type} (base : nat) (position : nat → YamlLine → Position).
Context (round : YamlLine → list YamlLine → A → Parse (A * list YamlLine)).

(** The loop goes from [lines] with [a] to the [rest] with [a'], given any
    fuel that is enough. *)
Definition runs (lines : list YamlLine) (a a' : A) (rest : list YamlLine) : Prop :=
  ∀ fuel, (length lines <= fuel)%nat → yaml_loop base position round fuel lines a = Parsed (a', rest).

Lemma runs_loop lines a a' rest :
  runs lines a a' rest → yaml_loop base position round (length lines) lines a = Parsed (a', rest).
Proof. intros H. by apply H. Qed.

Lemma runs_nil a : runs [] a a [].
Proof. by intros []. Qed.

Lemma LogicalIndent_ok i c n : LogicalIndent (mkYamlLine (base + i) c n) base = Parsed i.
Proof.
  unfold LogicalIndent. simpl. destruct (Nat.ltb_spec (base + i) base); [lia|]. f_equal. lia.
Qed.

Lemma runs_leave i c n lines a :
  position i (mkYamlLine (base + i) c n) = Leave →
  runs (mkYamlLine (base + i) c n :: lines) a a (mkYamlLine (base + i) c n :: lines).
Proof.
  intros Hp [|fuel] Hf; simpl in Hf; [lia|]. simpl. rewrite LogicalIndent_ok. simpl. by rewrite Hp.
Qed.

Lemma runs_enter i c n lines a a1 lines1 a' rest :
  position i (mkYamlLine (base + i) c n) = Enter →
  round (mkYamlLine (base + i) c n) lines a = Parsed (a1, lines1) →
  (length lines1 <= length lines)%nat →
  runs lines1 a1 a' rest → runs (mkYamlLine (base + i) c n :: lines) a a' rest.
Proof.
  intros Hp Hr Hl H [|fuel] Hf; simpl in Hf; [lia|]. simpl. rewrite LogicalIndent_ok. simpl.
  rewrite Hp, Hr. simpl. apply H. lia.
Qed.
End Runs.

(** No line of the tail, or first a line at an indentation below [i]. *)
Definition below (base i : nat) (tail : list YamlLine) : Prop :=
  match tail with
  | [] => True
  | line :: _ => ∃ j, indent line = (base + j)%nat ∧ (j < i)%nat
  end.

Lemma below_le base i i' tail : (i <= i')%nat → below base i tail → below base i' tail.
Proof. intros Hi. destruct tail as [|line tail]; [done|]. intros (j & E & Hj). exists j. split; [done|lia]. Qed.

(** Every loop stops at such a line. *)
Lemma runs_below {A} base position round i tail (a : A) :
  (∀ j line, (j < i)%nat → position j line = Leave) → below base i tail →
  runs base position round tail a a tail.
Proof.
  intros Hp Hb. destruct tail as [|[ind c n] tail]; [apply runs_nil|].
  destruct Hb as (j & E & Hj). simpl in E. subst ind. apply runs_leave. by apply Hp.
Qed.

Lemma fields_at_below i m j line : (j < i)%nat → fields_at i m j line = Leave.
Proof. intros Hj. unfold fields_at. destruct (Nat.ltb_spec j i); [done|lia]. Qed.

Lemma fields_at_enter i m line : fields_at i m i line = Enter.
Proof. unfold fields_at. rewrite Nat.ltb_irrefl, Nat.eqb_refl. done. Qed.
