(* ===== verification/YamlPrinter.v ===== *)
(** * Printing YAML lines

    The text of a list of lines, and the fields and scalars of the YAML that
    missions use, with what the functions of Yaml.v read of them.  As for
    JSON, the code has no printer: this one states what a document of given
    lines is. *)

From Stdlib Require Import Ascii String SpecFloat.
From S2P Require Import Prelude Command RobotState SafetyValidator CommandValidation.
From S2P Require Import Mission Text Json JsonGrammar JsonPrinter Yaml.

Open Scope Z_scope.

(** Indentation and content. *)
Definition Line : Type := nat * chars.

Fixpoint print_lines (ls : list Line) : chars :=
  match ls with
  | [] => []
  | (i, c) :: ls => replicate i " "%char ++ c ++ line_feed :: print_lines ls
  end.

(** The lines as the parser has them: indented by [b] more, and numbered. *)
Fixpoint number_lines (b n : nat) (ls : list Line) : list YamlLine :=
  match ls with
  | [] => []
  | (i, c) :: ls => mkYamlLine (b + i) c n :: number_lines b (S n) ls
  end.

Lemma number_lines_app b n ls ls' :
  number_lines b n (ls ++ ls') = number_lines b n ls ++ number_lines b (n + length ls) ls'.
Proof.
  revert n. induction ls as [|[i c] ls IH]; intros n; simpl.
  - by rewrite Nat.add_0_r.
  - by rewrite IH, Nat.add_succ_comm.
Qed.

Lemma length_number_lines b n ls : length (number_lines b n ls) = length ls.
Proof. revert n. induction ls as [|[i c] ls IH]; intros n; simpl; auto. Qed.

(* ------------------------------------------------------------------ *)
(** ** Contents *)

(** The text neither starts nor ends with white space. *)
Definition tight (s : chars) : Prop :=
  (∃ c s', s = c :: s' ∧ IsSpace c = false) ∧ (∃ c s', s = s' ++ [c] ∧ IsSpace c = false).

Lemma drop_while_none P s : heads P s = false → drop_while P s = s.
Proof. apply (drop_while_app P []). constructor. Qed.

Lemma Trim_tight s : tight s → Trim s = s.
Proof.
  intros [(c & s' & E & Hc) (d & s'' & E' & Hd)]. unfold Trim.
  rewrite (drop_while_none IsSpace s) by (by rewrite E).
  rewrite E', reverse_app, (drop_while_none IsSpace) by done.
  by rewrite <-reverse_app, reverse_involutive.
Qed.

Lemma Trim_white w s : all_chars IsSpace w → tight s → Trim (w ++ s) = s.
Proof.
  intros Hw Hs. rewrite <-(Trim_tight s) at 2 by done. unfold Trim.
  destruct Hs as [(c & s' & -> & Hc) _].
  rewrite (drop_while_app IsSpace w); [|done|done].
  by rewrite (drop_while_none IsSpace (c :: s')).
Qed.

(** A character without a meaning of its own in a line. *)
Definition calm (c : ascii) : bool :=
  negb (bool_decide (c ∈ [quote; single_quote; "#"%char; tab; line_feed; carriage_return])).

(** A text between quotation marks. *)
Definition quoted_char (c : ascii) : bool := negb (bool_decide (c ∈ [quote; tab; line_feed])).

Inductive clean : chars → Prop :=
  | clean_nil : clean []
  | clean_calm c s : calm c = true → clean s → clean (c :: s)
  | clean_quoted s s' : all_chars quoted_char s → clean s' → clean (quote :: s ++ quote :: s').

Lemma calm_spec c :
  calm c = true → c ≠ quote ∧ c ≠ single_quote ∧ c ≠ "#"%char ∧ c ≠ tab ∧ c ≠ line_feed.
Proof.
  unfold calm. intros H%negb_true_iff%bool_decide_eq_false.
  rewrite !not_elem_of_cons in H. tauto.
Qed.

Lemma strip_quoted s s' :
  all_chars quoted_char s →
  strip_comment false true (s ++ quote :: s') = s ++ quote :: strip_comment false false s'.
Proof.
  induction 1 as [|c s Hc _ IH]; [done|]. simpl.
  apply negb_true_iff, bool_decide_eq_false in Hc. rewrite !not_elem_of_cons in Hc.
  destruct Hc as (Hq & _). rewrite (bool_decide_eq_false_2 (c = quote)) by done.
  rewrite !andb_false_r. simpl. by rewrite IH.
Qed.

Lemma strip_clean s : clean s → strip_comment false false s = s.
Proof.
  induction 1 as [|c s Hc _ IH|s s' Hs _ IH]; [done|..]; simpl.
  - apply calm_spec in Hc as (? & ? & ? & _). rewrite !bool_decide_eq_false_2 by done. simpl.
    by rewrite IH.
  - by rewrite strip_quoted, IH.
Qed.

Lemma clean_without c s : clean s → c ∈ [tab; line_feed] → c ∉ s.
Proof.
  intros Hs Hc.
  assert (c ≠ quote) by (rewrite !elem_of_cons, elem_of_nil in Hc; by destruct_or! Hc; subst).
  induction Hs as [|d s Hd _ IH|s s' Hs _ IH].
  - apply not_elem_of_nil.
  - apply not_elem_of_cons. split; [|done]. apply calm_spec in Hd.
    rewrite !elem_of_cons, elem_of_nil in Hc. destruct_or! Hc; subst; naive_solver.
  - rewrite not_elem_of_cons, not_elem_of_app, not_elem_of_cons. split_and!; [done| |done..].
    intros Hin. rewrite Forall_forall in Hs. apply Hs in Hin.
    apply negb_true_iff, bool_decide_eq_false in Hin. rewrite !not_elem_of_cons in Hin.
    rewrite !elem_of_cons, elem_of_nil in Hc. naive_solver.
Qed.

Lemma clean_app s s' : clean s → clean s' → clean (s ++ s').
Proof.
  intros Hs Hs'. induction Hs as [|c s Hc _ IH|s t Hs _ IH]; simpl.
  - done.
  - by apply clean_calm.
  - rewrite <-app_assoc. by apply clean_quoted.
Qed.

Lemma clean_calm_text s : all_chars calm s → clean s.
Proof. induction 1; by constructor. Qed.

(* ------------------------------------------------------------------ *)
(** ** Lines *)

(** A line that the parser reads back. *)
Definition line_ok (l : Line) : Prop := (l.1 mod 2 = 0)%nat ∧ tight l.2 ∧ clean l.2.

Lemma remove_carriage_return_tight i s :
  tight s → remove_carriage_return (replicate i " "%char ++ s) = replicate i " "%char ++ s.
Proof.
  intros [_ (c & s' & -> & Hc)]. unfold remove_carriage_return.
  rewrite app_assoc, last_snoc. rewrite bool_decide_eq_false_2; [done|by intros ->].
Qed.

Lemma take_blanks i s : tight s → take_while is_blank (replicate i " "%char ++ s) = replicate i " "%char.
Proof.
  intros [(c & s' & -> & Hc) _]. apply take_while_app; [by apply Forall_replicate|].
  simpl. apply bool_decide_eq_false_2. by intros ->.
Qed.

Lemma yaml_line_print i s n :
  line_ok (i, s) → yaml_line (replicate i " "%char ++ s) n = Parsed (Some (mkYamlLine i s n)).
Proof.
  intros (Hi & Hs & Hc). cbn [fst snd] in *. unfold yaml_line. rewrite remove_carriage_return_tight by done.
  assert (clean (replicate i " "%char ++ s)) as Hc'.
  { apply clean_app; [|done]. by apply clean_calm_text, Forall_replicate. }
  rewrite bool_decide_eq_false_2 by (apply clean_without; [done|by left]).
  unfold StripYamlComment. rewrite strip_clean, take_blanks by done.
  rewrite length_replicate, drop_app_length' by by rewrite length_replicate.
  rewrite Trim_tight by done. rewrite bool_decide_eq_false_2; [|by destruct Hs as [(?&?&->&_) _]].
  rewrite Hi. done.
Qed.

Lemma yaml_lines_print ls fuel n :
  Forall line_ok ls → (length (print_lines ls) < fuel)%nat →
  yaml_lines fuel (print_lines ls) n = Parsed (number_lines 0 n ls).
Proof.
  intros Hls. revert fuel n. induction Hls as [|[i s] ls Hl _ IH]; intros [|fuel] n Hf; simpl; [lia|done|simpl in Hf; lia|].
  rewrite app_assoc, split_line_print.
  - rewrite yaml_line_print by done. simpl in *. rewrite !length_app in Hf. simpl in Hf.
    rewrite IH by lia. done.
  - apply clean_without; [|right; by left]. apply clean_app; [|apply Hl].
    by apply clean_calm_text, Forall_replicate.
Qed.

(** The text of lines gives these lines. *)
Lemma YamlLines_print ls : Forall line_ok ls → YamlLines (print_lines ls) = Parsed (number_lines 0 1 ls).
Proof. intros Hls. apply yaml_lines_print; [done|lia]. Qed.

(* ------------------------------------------------------------------ *)
(** ** Fields *)

(** [key: value], and [key:] before nested lines. *)
Definition field (key : string) (value : chars) : chars := chars_of key ++ ":"%char :: " "%char :: value.

Definition nested (key : string) : chars := chars_of key ++ [":"%char].

(** The first line of a sequence entry. *)
Definition entry (s : chars) : chars := "-"%char :: " "%char :: s.

Definition key_ok (key : string) : Prop :=
  tight (chars_of key) ∧ all_chars calm (chars_of key) ∧ ":"%char ∉ chars_of key ∧
  is_entry (mkYamlLine 0 (chars_of key ++ [":"%char]) 0) = false.

Lemma split_at_colon_print key value :
  ":"%char ∉ key → split_at_colon (key ++ ":"%char :: value) = Some (key, value).
Proof.
  induction key as [|c key IH]; simpl; [done|]. rewrite not_elem_of_cons. intros [Hc Hk].
  rewrite bool_decide_eq_false_2 by done. by rewrite IH.
Qed.

Lemma SplitYamlKeyValue_field key value i n :
  key_ok key → tight value →
  SplitYamlKeyValue (mkYamlLine i (field key value) n) = Parsed (key, value).
Proof.
  intros (Ht & _ & Hc & _) Hv. unfold SplitYamlKeyValue, field. cbn [content].
  rewrite split_at_colon_print by done. rewrite Trim_tight by done.
  change (" "%char :: value) with ([" "%char] ++ value).
  rewrite Trim_white by (done || by repeat constructor). by rewrite string_of_chars_of.
Qed.

Lemma SplitYamlKeyValue_nested key i n :
  key_ok key → SplitYamlKeyValue (mkYamlLine i (nested key) n) = Parsed (key, []).
Proof.
  intros (Ht & _ & Hc & _). unfold SplitYamlKeyValue, nested. cbn [content].
  rewrite split_at_colon_print by done. rewrite Trim_tight by done. by rewrite string_of_chars_of.
Qed.

Lemma is_entry_field key value i n :
  key_ok key → is_entry (mkYamlLine i (field key value) n) = false.
Proof.
  intros (_ & _ & _ & H). unfold is_entry, field in *. cbn [content] in *.
  destruct (chars_of key) as [|a [|b s]]; simpl in *; [done|by rewrite andb_false_r|done].
Qed.

Lemma tight_cons_app c s d : IsSpace c = false → IsSpace d = false → tight (c :: s ++ [d]).
Proof. intros Hc Hd. split; [by eauto|]. exists d, (c :: s). done. Qed.

Lemma tight_app s t : tight s → tight t → ∀ m, tight (s ++ m ++ t).
Proof.
  intros [(c & s' & -> & Hc) _] [_ (d & t' & -> & Hd)] m. split.
  - simpl. eauto.
  - exists d, ((c :: s') ++ m ++ t'). by rewrite !app_assoc.
Qed.

Lemma tight_single c : IsSpace c = false → tight [c].
Proof. intros Hc. split; [by eauto|]. by exists c, []. Qed.

Lemma field_ok i key value :
  (i mod 2 = 0)%nat → key_ok key → tight value → clean value → line_ok (i, field key value).
Proof.
  intros Hi (Ht & Hk & _) Hv Hc. split_and!; cbn [fst snd]; [done|..].
  - by apply (tight_app _ _ Ht Hv [":"%char; " "%char]).
  - apply clean_app; [by apply clean_calm_text|]. by do 2 (apply clean_calm; [done|]).
Qed.

Lemma nested_ok i key : (i mod 2 = 0)%nat → key_ok key → line_ok (i, nested key).
Proof.
  intros Hi (Ht & Hk & _). split_and!; cbn [fst snd]; [done|..].
  - by apply (tight_app _ _ Ht (tight_single ":" eq_refl) []).
  - apply clean_app; [by apply clean_calm_text|]. apply clean_calm; [done|constructor].
Qed.

Lemma entry_ok i s : line_ok (i, s) → line_ok (i, entry s).
Proof.
  intros (Hi & [_ (d & t & E & Hd)] & Hc). split_and!; cbn [fst snd] in *; [done|..].
  - split; [by exists "-"%char, (" "%char :: s)|]. exists d, ("-"%char :: " "%char :: t).
    by rewrite E.
  - by do 2 (apply clean_calm; [done|]).
Qed.

(* ------------------------------------------------------------------ *)
(** ** Scalars *)

Definition print_string (s : string) : chars := quote :: chars_of s ++ [quote].

Definition yaml_string (s : string) : Prop := all_chars quoted_char (chars_of s).

(** A scalar without quotation marks. *)
Definition plain (s : chars) : Prop := tight s ∧ all_chars calm s.

Lemma print_string_tight s : tight (print_string s).
Proof. by apply tight_cons_app. Qed.

Lemma print_string_clean s : yaml_string s → clean (print_string s).
Proof. intros Hs. apply clean_quoted; [done|constructor]. Qed.

Lemma plain_clean s : plain s → clean s.
Proof. intros [_ Hs]. by apply clean_calm_text. Qed.

Lemma unquote_quoted s : unquote (quote :: s ++ [quote]) = s.
Proof.
  assert (E : encloses quote (quote :: s ++ [quote]) = true).
  { apply andb_true_iff. split; [done|]. apply bool_decide_eq_true.
    change (quote :: s ++ [quote]) with ((quote :: s) ++ [quote]). apply last_snoc. }
  unfold unquote. rewrite E. simpl. rewrite length_app. simpl.
  replace (length s + 1 - 1)%nat with (length s) by lia.
  rewrite Nat.add_1_r. simpl. by rewrite drop_0, take_app_length.
Qed.

Lemma YamlScalar_string s : YamlScalar (print_string s) = chars_of s.
Proof. unfold YamlScalar. rewrite Trim_tight by apply print_string_tight. apply unquote_quoted. Qed.

Lemma YamlScalar_plain s : plain s → YamlScalar s = s.
Proof.
  intros [Ht Hs]. unfold YamlScalar, unquote. rewrite Trim_tight by done.
  destruct Ht as [(c & s' & -> & Hc) _].
  assert (Hcalm : calm c = true) by by inversion Hs. apply calm_spec in Hcalm as (Hq & Hsq & _).
  assert (E : ∀ d, c ≠ d → encloses d (c :: s') = false).
  { intros d Hd. apply andb_false_iff. left. apply bool_decide_eq_false. simpl. congruence. }
  rewrite !E by done. by rewrite andb_false_r.
Qed.

Lemma YamlString_string s : YamlString (print_string s) = s.
Proof. unfold YamlString. by rewrite YamlScalar_string, string_of_chars_of. Qed.

Lemma YamlString_plain s : plain (chars_of s) → YamlString (chars_of s) = s.
Proof. intros Hs. unfold YamlString. by rewrite YamlScalar_plain, string_of_chars_of. Qed.

(** Characters of numbers. *)
Lemma digit_calm c : is_digit c = true → calm c = true ∧ IsSpace c = false.
Proof.
  intros Hc. split.
  - unfold calm. apply negb_true_iff, bool_decide_eq_false.
    rewrite !not_elem_of_cons. split_and!; try apply not_elem_of_nil; by intros ->.
  - destruct (IsSpace c) eqn:E; [|done]. unfold IsSpace in E.
    by apply orb_true_iff in E as [[[E|E]%orb_true_iff|E]%orb_true_iff|E];
      apply bool_decide_eq_true in E as ->.
Qed.

Lemma digits_plain ds : digits ds → plain ds.
Proof.
  intros [Hne Hds]. split.
  - split.
    + destruct Hds as [|c ds Hc _]; [done|]. apply digit_calm in Hc as []. eauto.
    + destruct ds as [|c ds _] using rev_ind; [done|]. apply Forall_app in Hds as [_ Hc].
      inversion Hc as [|? ? Hc' _]; subst. apply digit_calm in Hc' as []. eauto.
  - eapply Forall_impl; [exact Hds|]. intros c Hc. by apply digit_calm.
Qed.

Lemma sign_plain negative s : plain s → plain (print_sign negative ++ s).
Proof.
  intros [[(c & s' & -> & Hc) (d & t & E & Hd)] Hs]. destruct negative; simpl; [|split; [split; eauto|done]].
  split; [split|]; [by eauto| |by constructor]. exists d, ("-"%char :: t). by rewrite E.
Qed.

Lemma print_decimal_plain n : 0 <= n → plain (print_decimal n).
Proof. intros Hn. by apply digits_plain, print_decimal_digits. Qed.

Lemma print_integer_plain n : plain (print_integer n).
Proof. apply sign_plain, print_decimal_plain. lia. Qed.

Lemma take_digits ds : digits ds → take_while is_digit ds = ds ∧ drop_while is_digit ds = [].
Proof.
  intros Hds. destruct (digits_take ds [] Hds eq_refl) as (Ht & Hd & _). by rewrite app_nil_r in *.
Qed.

Lemma ParseUint64_print n name : is_u64 n → ParseUint64 (print_decimal n) name = Parsed n.
Proof.
  intros [H0 Hn]. destruct (print_decimal_spec n H0) as [Hds Hv]. unfold ParseUint64.
  rewrite Trim_tight by apply digits_plain, Hds. unfold from_chars_uint64.
  destruct (take_digits _ Hds) as [-> ->]. rewrite bool_decide_eq_false_2 by apply Hds. rewrite Hv.
  destruct (Z.leb_spec u64_modulus n); [lia|done].
Qed.

Lemma ParseUint32_print n name : is_u32 n → ParseUint32 (print_decimal n) name = Parsed n.
Proof.
  unfold is_u32. intros Hn. unfold ParseUint32.
  rewrite ParseUint64_print by (unfold is_u64, u64_modulus; lia). simpl.
  destruct (Z.ltb_spec (2 ^ 32 - 1) n); [lia|done].
Qed.

Lemma minus_sign_print negative ds r :
  digits ds → minus_sign (print_sign negative ++ ds ++ r) = (negative, ds ++ r).
Proof.
  intros Hds. destruct negative; [done|]. destruct (digits_head _ Hds) as (c & ds' & -> & Hc). simpl.
  by destruct (digit_not _ Hc) as (? & _); rewrite bool_decide_eq_false_2.
Qed.

Lemma ParseInt64_print n name : is_i64 n → ParseInt64 (print_integer n) name = Parsed n.
Proof.
  unfold is_i64. intros Hn. destruct (print_decimal_spec (Z.abs n)) as [Hds Hv]; [lia|].
  unfold ParseInt64. rewrite Trim_tight by apply print_integer_plain.
  unfold from_chars_int64, print_integer. rewrite <-(app_nil_r (print_decimal _)), minus_sign_print by done.
  rewrite app_nil_r. destruct (take_digits _ Hds) as [-> ->].
  rewrite bool_decide_eq_false_2 by apply Hds. rewrite Hv.
  replace (if n <? 0 then - Z.abs n else Z.abs n) with n by (destruct (Z.ltb_spec n 0); lia).
  destruct (Z.ltb_spec n (- 2 ^ 63)), (Z.leb_spec (2 ^ 63) n); lia || done.
Qed.

(** A double, always with an exponent: the text is not an integer. *)
Definition print_double (d : spec_float) : chars :=
  let '(negative, m, e) := decimal_parts d in
  print_sign negative ++ print_decimal m ++ print_exponent e.

Lemma print_exponent_plain e : plain (print_exponent e).
Proof.
  unfold print_exponent.
  destruct (sign_plain (e <? 0) (print_decimal (Z.abs e))) as [[_ (d & t & E & Hd)] Hc];
    [apply print_decimal_plain; lia|].
  split; [split|]; [by eauto| |by constructor]. exists d, ("e"%char :: t). by rewrite E.
Qed.

Lemma plain_app s t : plain s → plain t → plain (s ++ t).
Proof. intros [Hs Hs'] [Ht Ht']. split; [by apply (tight_app _ _ Hs Ht [])|by apply Forall_app]. Qed.

Lemma print_double_plain d : number_printable d → plain (print_double d).
Proof.
  unfold number_printable, print_double. destruct (decimal_parts d) as [[negative m] e]. intros [Hm _].
  apply sign_plain, plain_app; [by apply print_decimal_plain|apply print_exponent_plain].
Qed.

Lemma ParseDouble_print d name : number_printable d → ParseDouble (print_double d) name = Parsed d.
Proof.
  intros Hd. pose proof (print_double_plain d Hd) as [Ht _].
  unfold ParseDouble. rewrite Trim_tight by done. clear Ht.
  unfold number_printable, print_double in *. destruct (decimal_parts d) as [[negative m] e].
  destruct Hd as [Hm Hd]. destruct (print_decimal_spec m Hm) as [Hds Hv].
  pose proof (from_chars_number negative (print_decimal m) [] [] e (print_exponent e) Hds
                (no_fraction) (exponent_text_print e)) as E.
  rewrite app_nil_r, Hv in E. simpl in E. rewrite Z.sub_0_r, Hd in E.
  unfold print_sign. rewrite E. by rewrite (from_decimal_finite _ _ _ _ Hd).
Qed.

Lemma ParseInt64_double d name i : number_printable d → ParseInt64 (print_double d) name ≠ Parsed i.
Proof.
  intros Hd. pose proof (print_double_plain d Hd) as [Ht _].
  unfold ParseInt64. rewrite Trim_tight by done. clear Ht.
  unfold number_printable, print_double in *. destruct (decimal_parts d) as [[negative m] e].
  destruct Hd as [Hm Hd]. destruct (print_decimal_spec m Hm) as [Hds Hv].
  unfold from_chars_int64. rewrite minus_sign_print by done.
  destruct (digits_take (print_decimal m) (print_exponent e) Hds eq_refl) as (-> & -> & Hne).
  rewrite bool_decide_eq_false_2 by done. by destruct (_ || _).
Qed.

(* ------------------------------------------------------------------ *)
(** ** Literals *)

Lemma plain_literal s :
  bool_decide (Forall (λ c, calm c = true) s) && negb (heads IsSpace s) &&
  negb (heads IsSpace (reverse s)) && negb (bool_decide (s = [])) = true → plain s.
Proof.
  rewrite !andb_true_iff, !negb_true_iff, bool_decide_eq_true, bool_decide_eq_false.
  intros (((Hc & Hh) & Hl) & Hne). split; [split|done].
  - destruct s as [|c s]; [done|]. eauto.
  - destruct s as [|c s _] using rev_ind; [done|]. rewrite reverse_snoc in Hl. eauto.
Qed.

Lemma key_ok_literal key :
  bool_decide (Forall (λ c, calm c = true) (chars_of key)) && negb (heads IsSpace (chars_of key)) &&
  negb (heads IsSpace (reverse (chars_of key))) && negb (bool_decide (chars_of key = [])) &&
  negb (bool_decide (":"%char ∈ chars_of key)) &&
  negb (is_entry (mkYamlLine 0 (chars_of key ++ [":"%char]) 0)) = true → key_ok key.
Proof.
  rewrite (andb_true_iff _ (negb (is_entry _))), (andb_true_iff _ (negb (bool_decide (_ ∈ _)))).
  rewrite !(negb_true_iff), bool_decide_eq_false. intros [[Hp Hc] He].
  destruct (plain_literal _ Hp) as [Ht Hs]. by split_and!.
Qed.
