(* ===== verification/MissionYaml.v ===== *)
(** * Missions from YAML

    The second half of src/mission/MissionParser.cpp, and
    src/mission/MissionLoader.cpp: the fields of a mission read from lines,
    and the mission that a document gives when the validator accepts it. *)

From Stdlib Require Import Ascii String SpecFloat.
From S2P Require Import Prelude Command RobotState SafetyValidator CommandValidation.
From S2P Require Import Mission Text Json MissionJson Yaml.

Open Scope Z_scope.

Definition key_is (key name : string) : bool := bool_decide (key = name).

(** An error that names the line and the text. *)
Definition unknown_at {A} (what : string) (line : YamlLine) (text : string) : Parse A :=
  ParseError (at_line (what +:+ " at YAML line ") line +:+ ": " +:+ text).

Definition yaml_named {A} (from : string → option A) (value : chars) (what : string)
    (line : YamlLine) : Parse A :=
  match from (YamlString value) with
  | Some a => Parsed a
  | None => unknown_at what line (YamlString value)
  end.

(** [if (value.empty()) throw] *)
Definition require_scalar (value : chars) (message : string) (line : YamlLine) : Parse () :=
  if bool_decide (value = []) then ParseError (at_line message line) else Parsed ().

(** [if (!value.empty()) throw] *)
Definition require_nested (value : chars) (message : string) : Parse () :=
  if bool_decide (value = []) then Parsed () else ParseError message.

Section Yaml.
Context (base_indent : nat).

(* ------------------------------------------------------------------ *)
(** ** Maps *)

(** [ParseYamlStringMap] also stops at an entry of a sequence. *)
Definition ParseYamlStringMap (expected_indent : nat) (lines : list YamlLine)
    (output : MissionMetadata) : Parse (MissionMetadata * list YamlLine) :=
  yaml_loop base_indent
    (λ indent line,
      match fields_at expected_indent "Unexpected YAML indentation at line " indent line with
      | Enter => if is_entry line then Leave else Enter
      | p => p
      end)
    (λ line rest output,
      '(key, value) ← SplitYamlKeyValue line;
      _ ← require_scalar value "Metadata value must be scalar at YAML line " line;
      Parsed (map_emplace key (YamlString value) output, rest))
    (length lines) lines output.

Definition ParseYamlPayload (expected_indent : nat) :=
  yaml_fields base_indent expected_indent "Unexpected YAML indentation at line "
    (λ line key value (output : gmap string CommandPayloadValue),
      _ ← require_scalar value "Payload value must be scalar at YAML line " line;
      Parsed (map_emplace key (YamlPayloadValue value) output)).

(* ------------------------------------------------------------------ *)
(** ** Commands *)

Definition ApplyYamlCommandField (command : Command) (key : string) (value : chars)
    (line : YamlLine) : Parse Command :=
  if key_is key "id" then
    v ← ParseUint64 value "command.id"; Parsed (command <| id := v |>)
  else if key_is key "type" then
    v ← yaml_named CommandTypeFromString value "Unknown command type" line;
    Parsed (command <| type := v |>)
  else if key_is key "priority" then
    v ← yaml_named PriorityFromString value "Unknown command priority" line;
    Parsed (command <| priority := v |>)
  else if key_is key "timeout_ms" then
    v ← ParseInt64 value "command.timeout_ms"; Parsed (command <| timeout := v |>)
  else unknown_at "Unknown command field" line key.

Definition ParseYamlCommand (expected_indent : nat) (lines : list YamlLine) (command : Command) :
    Parse (Command * list YamlLine) :=
  yaml_loop base_indent
    (fields_at expected_indent "Unexpected YAML command indentation at line ")
    (λ line rest command,
      '(key, value) ← SplitYamlKeyValue line;
      if key_is key "payload" then
        _ ← require_nested value "command.payload must be a nested mapping";
        '(v, rest) ← ParseYamlPayload (expected_indent + 2) rest (payload command);
        Parsed (command <| payload := v |>, rest)
      else if key_is key "metadata" then
        _ ← require_nested value "command.metadata must be a nested mapping";
        '(v, rest) ← ParseYamlStringMap (expected_indent + 2) rest (metadata command);
        Parsed (command <| metadata := v |>, rest)
      else
        _ ← require_scalar value "Command field requires a scalar value at YAML line " line;
        command ← ApplyYamlCommandField command key value line;
        Parsed (command, rest))
    (length lines) lines command.

(* ------------------------------------------------------------------ *)
(** ** Policies *)

Definition ParseYamlRetryPolicy (expected_indent : nat) :=
  yaml_fields base_indent expected_indent "Unexpected YAML retry_policy indentation at line "
    (λ line key value policy,
      _ ← require_scalar value "retry_policy field requires a scalar value at YAML line " line;
      if key_is key "max_attempts" then
        v ← ParseUint32 value "retry_policy.max_attempts"; Parsed (policy <| maxAttempts := v |>)
      else if key_is key "delay_ms" then
        v ← ParseInt64 value "retry_policy.delay_ms";
        Parsed (policy <| delayBetweenAttempts := v |>)
      else if key_is key "retry_on_failure" then
        v ← YamlBool value "retry_policy.retry_on_failure";
        Parsed (policy <| retryOnFailure := v |>)
      else if key_is key "retry_on_timeout" then
        v ← YamlBool value "retry_policy.retry_on_timeout";
        Parsed (policy <| retryOnTimeout := v |>)
      else unknown_at "Unknown retry_policy field" line key).

(** A mapping with a single field, of loops, waits and delays. *)
Definition only_field {A} (name message : string) (read : chars → Parse A)
    (line : YamlLine) (key : string) (value : chars) (_ : A) : Parse A :=
  if negb (key_is key name) || bool_decide (value = []) then ParseError (at_line message line)
  else read value.

Definition ParseYamlLoopPolicy (expected_indent : nat) :=
  yaml_fields base_indent expected_indent "Unexpected YAML loop_policy indentation at line "
    (only_field "iterations" "loop_policy.iterations requires a scalar value at YAML line "
       (λ value, mkLoopPolicy <$> ParseUint32 value "loop_policy.iterations")).

Definition ParseYamlTimeoutPolicy (expected_indent : nat) :=
  yaml_fields base_indent expected_indent "Unexpected YAML timeout_policy indentation at line "
    (λ line key value policy,
      _ ← require_scalar value "timeout_policy field requires a scalar value at YAML line " line;
      if key_is key "timeout_ms" then
        v ← ParseInt64 value "timeout_policy.timeout_ms";
        Parsed (policy <| policy_timeout := v |>)
      else if key_is key "abort_on_timeout" then
        v ← YamlBool value "timeout_policy.abort_on_timeout";
        Parsed (policy <| abortOnTimeout := v |>)
      else unknown_at "Unknown timeout_policy field" line key).

Definition ParseYamlWaitStep (expected_indent : nat) :=
  yaml_fields base_indent expected_indent "Unexpected YAML wait indentation at line "
    (only_field "duration_ms" "wait.duration_ms requires a scalar value at YAML line "
       (λ value, mkWaitStep <$> ParseInt64 value "wait.duration_ms")).

Definition ParseYamlDelayStep (expected_indent : nat) :=
  yaml_fields base_indent expected_indent "Unexpected YAML delay indentation at line "
    (only_field "duration_ms" "delay.duration_ms requires a scalar value at YAML line "
       (λ value, mkDelayStep <$> ParseInt64 value "delay.duration_ms")).

(* ------------------------------------------------------------------ *)
(** ** Conditions *)

Definition ApplyYamlConditionField (condition : MissionCondition) (key : string) (value : chars)
    (line : YamlLine) : Parse MissionCondition :=
  if key_is key "id" then
    v ← ParseUint64 value "condition.id"; Parsed (condition <| condition_id := v |>)
  else if key_is key "name" then
    Parsed (condition <| condition_name := YamlString value |>)
  else if key_is key "type" then
    v ← yaml_named ConditionTypeFromString value "Unknown condition type" line;
    Parsed (condition <| condition_type := v |>)
  else if key_is key "comparison" then
    v ← yaml_named ConditionComparisonFromString value "Unknown condition comparison" line;
    Parsed (condition <| comparison := v |>)
  else if key_is key "value" then
    if key_is (YamlString value) "true" || key_is (YamlString value) "false" then
      v ← YamlBool value "condition.value"; Parsed (condition <| boolValue := v |>)
    else
      v ← ParseDouble value "condition.value"; Parsed (condition <| numericValue := cast_float v |>)
  else if key_is key "fault_code" then
    v ← ParseInt64 value "condition.fault_code";
    Parsed (condition <| condition_faultCode := cast_int32 v |>)
  else if key_is key "command_type" then
    v ← yaml_named CommandTypeFromString value "Unknown condition command_type" line;
    Parsed (condition <| commandType := v |>)
  else if key_is key "on_failure" then
    v ← yaml_named FailureActionFromString value "Unknown condition on_failure action" line;
    Parsed (condition <| failureAction := v |>)
  else unknown_at "Unknown condition field" line key.

(** The first line of a sequence entry without its dash.  [apply] is given
    the first field of the entry, if that line has one. *)
Definition first_field {A} (message : string) (apply : A → string → chars → YamlLine → Parse A)
    (first_line : YamlLine) (a : A) : Parse A :=
  let first_content := Trim (drop 2 (content first_line)) in
  if bool_decide (first_content = []) then Parsed a
  else
    '(key, value) ← SplitYamlKeyValue
                      (mkYamlLine (indent first_line) first_content (number first_line));
    if bool_decide (value = []) then ParseError message
    else apply a key value first_line.

Definition ParseYamlCondition (expected_indent : nat) (first_line : YamlLine)
    (lines : list YamlLine) : Parse (MissionCondition * list YamlLine) :=
  condition ← first_field "YAML condition sequence entry requires a scalar first field"
                ApplyYamlConditionField first_line default_MissionCondition;
  yaml_loop base_indent
    (λ indent line,
      if (indent <? expected_indent)%nat || (indent =? expected_indent)%nat && is_entry line
      then Leave
      else if negb (indent =? expected_indent + 2)%nat then
        Refuse (at_line "Unexpected YAML condition indentation at line " line)
      else Enter)
    (λ line rest condition,
      '(key, value) ← SplitYamlKeyValue line;
      if key_is key "metadata" then
        _ ← require_nested value "condition.metadata must be a nested mapping";
        '(v, rest) ← ParseYamlStringMap (expected_indent + 4) rest (condition_metadata condition);
        Parsed (condition <| condition_metadata := v |>, rest)
      else
        _ ← require_scalar value "Condition field requires a scalar value at YAML line " line;
        condition ← ApplyYamlConditionField condition key value line;
        Parsed (condition, rest))
    (length lines) lines condition.

(** The checks of the loops over the entries of a sequence. *)
Definition entries_at (expected_indent : nat) (expected : string) (indent : nat) (line : YamlLine) :
    Position :=
  if (indent <? expected_indent)%nat then Leave
  else if negb (indent =? expected_indent)%nat || negb (is_entry line) then
    Refuse (at_line expected line)
  else Enter.

Definition ParseYamlConditions (expected_indent : nat) (lines : list YamlLine)
    (conditions : list MissionCondition) : Parse (list MissionCondition * list YamlLine) :=
  yaml_loop base_indent
    (entries_at expected_indent "Expected YAML condition sequence entry at line ")
    (λ line rest conditions,
      '(condition, rest) ← ParseYamlCondition expected_indent line rest;
      Parsed (conditions ++ [condition], rest))
    (length lines) lines conditions.

(* ------------------------------------------------------------------ *)
(** ** Steps *)

Definition ApplyYamlStepField (step : MissionStep) (key : string) (value : chars)
    (line : YamlLine) : Parse MissionStep :=
  if key_is key "id" then
    v ← ParseUint64 value "step.id"; Parsed (step <| step_id := v |>)
  else if key_is key "name" then
    Parsed (step <| step_name := YamlString value |>)
  else if key_is key "timeout_ms" then
    v ← ParseInt64 value "step.timeout_ms"; Parsed (step <| step_timeout := v |>)
  else if key_is key "retry" then
    v ← ParseUint32 value "step.retry"; Parsed (step <| retry := v |>)
  else if key_is key "enabled" then
    v ← YamlBool value "step.enabled"; Parsed (step <| enabled := v |>)
  else if key_is key "skip" then
    v ← YamlBool value "step.skip"; Parsed (step <| skip := v |>)
  else if key_is key "abort" then
    v ← YamlBool value "step.abort"; Parsed (step <| abort := v |>)
  else unknown_at "Unknown step field" line key.

(** A round of the loop of [ParseYamlStep]. *)
Definition step_round (line : YamlLine) (rest : list YamlLine) (step : MissionStep) :
    Parse (MissionStep * list YamlLine) :=
  '(key, value) ← SplitYamlKeyValue line;
  if key_is key "command" then
    _ ← require_nested value "step.command must be a nested mapping";
    '(v, rest) ← ParseYamlCommand 6 rest (step_command step);
    Parsed (step <| step_command := v |>, rest)
  else if key_is key "retry_policy" then
    _ ← require_nested value "step.retry_policy must be a nested mapping";
    '(v, rest) ← ParseYamlRetryPolicy 6 rest (retryPolicy step);
    Parsed (step <| retryPolicy := v |>, rest)
  else if key_is key "loop_policy" then
    _ ← require_nested value "step.loop_policy must be a nested mapping";
    '(v, rest) ← ParseYamlLoopPolicy 6 rest (loopPolicy step);
    Parsed (step <| loopPolicy := v |>, rest)
  else if key_is key "timeout_policy" then
    _ ← require_nested value "step.timeout_policy must be a nested mapping";
    '(v, rest) ← ParseYamlTimeoutPolicy 6 rest (timeoutPolicy step);
    Parsed (step <| timeoutPolicy := v |>, rest)
  else if key_is key "wait" then
    _ ← require_nested value "step.wait must be a nested mapping";
    '(v, rest) ← ParseYamlWaitStep 6 rest (mkWaitStep 0);
    Parsed (step <| wait := Some v |>, rest)
  else if key_is key "delay" then
    _ ← require_nested value "step.delay must be a nested mapping";
    '(v, rest) ← ParseYamlDelayStep 6 rest (mkDelayStep 0);
    Parsed (step <| delay := Some v |>, rest)
  else if key_is key "conditions" then
    _ ← require_nested value "step.conditions must be a nested sequence";
    '(v, rest) ← ParseYamlConditions 6 rest (conditions step);
    Parsed (step <| conditions := v |>, rest)
  else if key_is key "metadata" then
    _ ← require_nested value "step.metadata must be a nested mapping";
    '(v, rest) ← ParseYamlStringMap 6 rest (step_metadata step);
    Parsed (step <| step_metadata := v |>, rest)
  else
    _ ← require_scalar value "Step field requires a scalar value at YAML line " line;
    step ← ApplyYamlStepField step key value line;
    Parsed (step, rest).

(** The checks of that loop. *)
Definition step_position (indent : nat) (line : YamlLine) : Position :=
  if (indent <? 4)%nat || (indent =? 2)%nat && is_entry line then Leave
  else if negb (indent =? 4)%nat then
    Refuse (at_line "Unexpected YAML step indentation at line " line)
  else Enter.

Definition ParseYamlStep (first_line : YamlLine) (lines : list YamlLine) :
    Parse (MissionStep * list YamlLine) :=
  step ← first_field "YAML step sequence entry requires a scalar first field"
           ApplyYamlStepField first_line default_MissionStep;
  yaml_loop base_indent step_position step_round (length lines) lines step.

Definition ParseYamlSteps (lines : list YamlLine) (steps : list MissionStep) :
    Parse (list MissionStep * list YamlLine) :=
  yaml_loop base_indent
    (entries_at 2 "Expected YAML step sequence entry at line ")
    (λ line rest steps,
      '(step, rest) ← ParseYamlStep line rest;
      Parsed (steps ++ [step], rest))
    (length lines) lines steps.

(* ------------------------------------------------------------------ *)
(** ** Missions *)

Definition ApplyYamlMissionField (mission : Mission) (key : string) (value : chars)
    (line : YamlLine) : Parse Mission :=
  if key_is key "id" then
    v ← ParseUint64 value "id"; Parsed (mission <| mission_id := v |>)
  else if key_is key "name" then Parsed (mission <| mission_name := YamlString value |>)
  else if key_is key "description" then Parsed (mission <| description := YamlString value |>)
  else if key_is key "version" then Parsed (mission <| version := YamlString value |>)
  else if key_is key "author" then Parsed (mission <| author := YamlString value |>)
  else unknown_at "Unknown mission field" line key.

Definition mission_round (line : YamlLine) (rest : list YamlLine) (mission : Mission) :
    Parse (Mission * list YamlLine) :=
  '(key, value) ← SplitYamlKeyValue line;
  if key_is key "metadata" then
    _ ← require_nested value "mission.metadata must be a nested mapping";
    '(v, rest) ← ParseYamlStringMap 2 rest (mission_metadata mission);
    Parsed (mission <| mission_metadata := v |>, rest)
  else if key_is key "steps" then
    _ ← require_nested value "mission.steps must be a nested sequence";
    '(v, rest) ← ParseYamlSteps rest (steps mission);
    Parsed (mission <| steps := v |>, rest)
  else
    _ ← require_scalar value "Mission field requires a scalar value at YAML line " line;
    mission ← ApplyYamlMissionField mission key value line;
    Parsed (mission, rest).

(** The loop of [MissionFromYaml]. *)
Definition mission_loop (lines : list YamlLine) (mission : Mission) :
    Parse (Mission * list YamlLine) :=
  yaml_loop base_indent
    (λ indent line,
      if negb (indent =? 0)%nat then
        Refuse (at_line "Expected top-level mission field at YAML line " line)
      else Enter)
    mission_round (length lines) lines mission.
End Yaml.

Definition MissionFromLines (lines : list YamlLine) (now : Z) : Parse Mission :=
  match lines with
  | [] => ParseError "YAML mission document is empty"
  | first :: rest =>
      '(mission, _) ←
        (if (indent first =? 0)%nat && bool_decide (content first = chars_of "mission:")
         then mission_loop 2 rest default_Mission
         else mission_loop 0 lines default_Mission);
      Parsed (mission <| mission_timestamp := now |>)
  end.

Definition MissionFromYaml (document : chars) (now : Z) : Parse Mission :=
  lines ← YamlLines document; MissionFromLines lines now.

Definition ParseYaml (document : chars) (now : Z) : Parse MissionParseResult :=
  catch_parse_error "YAML mission parse failed: " (MissionFromYaml document now).

(* ------------------------------------------------------------------ *)
(** ** The loader *)

Record MissionLoadResult := mkLoadResult {
  loaded_mission : Mission;
  load_success : bool;
  load_message : string;
}.

Definition LoadFailure (message : string) : MissionLoadResult :=
  mkLoadResult default_Mission false message.

Definition ValidateParsedMission (parse_result : MissionParseResult) : MissionLoadResult :=
  if negb (parse_success parse_result) then LoadFailure (parse_message parse_result)
  else
    let validation := ValidateMission (parsed_mission parse_result) in
    if negb (valid validation) then
      mkLoadResult (parsed_mission parse_result) false (validation_message validation)
    else mkLoadResult (parsed_mission parse_result) true "Mission loaded successfully".

Definition LoadJson (document : chars) (now : Z) : Parse MissionLoadResult :=
  ValidateParsedMission <$> ParseJson document now.

Definition LoadYaml (document : chars) (now : Z) : Parse MissionLoadResult :=
  ValidateParsedMission <$> ParseYaml document now.

(** [LoadFile] on what the file system answers: whether the file opens, its
    content unless reading it fails, and its extension in lower case. *)
Definition LoadFile (path : string) (opens : bool) (content : option chars) (extension : string)
    (now : Z) : Parse MissionLoadResult :=
  if negb opens then Parsed (LoadFailure ("Unable to open mission file: " +:+ path))
  else match content with
  | None => Parsed (LoadFailure ("Unable to read mission file: " +:+ path))
  | Some content =>
      if key_is extension ".json" then LoadJson content now
      else if key_is extension ".yaml" || key_is extension ".yml" then LoadYaml content now
      else Parsed (LoadFailure ("Unsupported mission file extension: " +:+ extension))
  end.
