(* ===== verification/MissionTyping.v ===== *)
(** * What the mission parsers answer

    [mission_typed]: the members of a mission are in the ranges of their C++
    types and its enumerations are constants.  Both parsers answer a typed
    mission or an error on every document; only the conversion of a JSON
    number that does not fit in 64 bits is undefined. *)

From Stdlib Require Import Ascii String SpecFloat.
From stdpp Require Import sorting.
From S2P Require Import Prelude Command RobotState SafetyValidator CommandValidation.
From S2P Require Import Mission MissionProofs Text Json JsonGrammar MissionJson Yaml MissionYaml.

Open Scope Z_scope.

(* ------------------------------------------------------------------ *)
(** ** Typed missions *)

Definition payload_value_typed (v : CommandPayloadValue) : Prop :=
  match v with PayloadInt i => is_i64 i | PayloadDouble d => isfinite d = true | _ => True end.

Definition command_typed (c : Command) : Prop :=
  is_u64 (id c) ∧ IsKnownCommandType (type c) = true ∧ IsKnownPriority (priority c) = true ∧
  is_i64 (timeout c) ∧ map_Forall (λ _, payload_value_typed) (payload c).

Definition retry_typed (p : RetryPolicy) : Prop :=
  is_u32 (maxAttempts p) ∧ is_i64 (delayBetweenAttempts p).

Definition loop_typed (p : LoopPolicy) : Prop := is_u32 (iterations p).

Definition timeout_typed (p : TimeoutPolicy) : Prop := is_i64 (policy_timeout p).

Definition condition_typed (c : MissionCondition) : Prop :=
  is_u64 (condition_id c) ∧ IsKnownConditionType (condition_type c) = true ∧
  IsKnownComparison (comparison c) = true ∧ is_i32 (condition_faultCode c) ∧
  IsKnownCommandType (commandType c) = true ∧ IsKnownFailureAction (failureAction c) = true.

Definition option_typed {A} (typed : A → Prop) (x : option A) : Prop :=
  match x with Some a => typed a | None => True end.

Definition wait_typed (w : WaitStep) : Prop := is_i64 (wait_duration w).
Definition delay_typed (d : DelayStep) : Prop := is_i64 (delay_duration d).

Definition step_typed (s : MissionStep) : Prop :=
  is_u64 (step_id s) ∧ command_typed (step_command s) ∧ is_i64 (step_timeout s) ∧
  is_u32 (retry s) ∧ retry_typed (retryPolicy s) ∧ loop_typed (loopPolicy s) ∧
  timeout_typed (timeoutPolicy s) ∧ option_typed wait_typed (wait s) ∧
  option_typed delay_typed (delay s) ∧ Forall condition_typed (conditions s).

Definition mission_typed (m : Mission) : Prop :=
  is_u64 (mission_id m) ∧ Forall step_typed (steps m).

Ltac typed := unfold is_u64, is_i64, is_u32, is_i32, u64_modulus in *; split_and!; (done || lia || auto).

Lemma default_Command_typed : command_typed default_Command.
Proof. unfold command_typed. simpl. typed. Qed.

Lemma default_MissionCondition_typed : condition_typed default_MissionCondition.
Proof. unfold condition_typed. simpl. typed. Qed.

Lemma default_MissionStep_typed : step_typed default_MissionStep.
Proof.
  unfold step_typed, retry_typed, loop_typed, timeout_typed. simpl.
  split_and!; try apply default_Command_typed; try done; typed.
Qed.

Lemma default_Mission_typed : mission_typed default_Mission.
Proof. split; [typed|constructor]. Qed.

Lemma named_In {A} (names : list (string * A)) value a : named names value = Some a → a ∈ names.*2.
Proof.
  unfold named. induction names as [|[n b] names IH]; simpl; [done|].
  case_bool_decide; simpl; [intros [= ->]; left|intros Hin; right; auto].
Qed.

(** Every constant of a table passes the test. *)
Ltac known_by := let H := fresh in intros H; apply named_In in H; simpl in H;
  rewrite !elem_of_cons, elem_of_nil in H; by destruct_or! H; subst.

Lemma CommandTypeFromString_known s t : CommandTypeFromString s = Some t → IsKnownCommandType t = true.
Proof. known_by. Qed.
Lemma PriorityFromString_known s p : PriorityFromString s = Some p → IsKnownPriority p = true.
Proof. known_by. Qed.
Lemma ConditionTypeFromString_known s t :
  ConditionTypeFromString s = Some t → IsKnownConditionType t = true.
Proof. known_by. Qed.
Lemma ConditionComparisonFromString_known s c :
  ConditionComparisonFromString s = Some c → IsKnownComparison c = true.
Proof. known_by. Qed.
Lemma FailureActionFromString_known s a :
  FailureActionFromString s = Some a → IsKnownFailureAction a = true.
Proof. known_by. Qed.

Lemma map_emplace_Forall {A} (P : A → Prop) k a (m : gmap string A) :
  P a → map_Forall (λ _, P) m → map_Forall (λ _, P) (map_emplace k a m).
Proof.
  intros Ha Hm. unfold map_emplace. destruct (m !! k); [done|]. by apply map_Forall_insert_2.
Qed.

#[export] Hint Resolve default_Command_typed default_MissionCondition_typed
  default_MissionStep_typed default_Mission_typed CommandTypeFromString_known
  PriorityFromString_known ConditionTypeFromString_known ConditionComparisonFromString_known
  FailureActionFromString_known : outcome.

(* ------------------------------------------------------------------ *)
(** ** YAML *)

Lemma yaml_named_outcome {A} U (P : A → Prop) from value what line :
  (∀ s a, from s = Some a → P a) → outcome U P (yaml_named from value what line).
Proof. intros H. unfold yaml_named. destruct (from _) eqn:E; simpl; eauto. Qed.

Lemma YamlBool_outcome U value name : outcome U (λ _, True) (YamlBool value name).
Proof. unfold YamlBool. by repeat case_bool_decide. Qed.

Lemma require_scalar_outcome U value m line : outcome U (λ _, True) (require_scalar value m line).
Proof. unfold require_scalar. by case_bool_decide. Qed.

Lemma require_nested_outcome U value m : outcome U (λ _, True) (require_nested value m).
Proof. unfold require_nested. by case_bool_decide. Qed.

Lemma unknown_at_outcome {A} U (P : A → Prop) what line text :
  outcome U P (unknown_at what line text).
Proof. done. Qed.

#[export] Hint Resolve yaml_named_outcome YamlBool_outcome require_scalar_outcome
  require_nested_outcome unknown_at_outcome SplitYamlKeyValue_outcome : outcome.

Lemma YamlPayloadValue_typed value : payload_value_typed (YamlPayloadValue value).
Proof.
  unfold YamlPayloadValue. repeat (case_bool_decide; [done|]).
  pose proof (ParseInt64_outcome False (YamlScalar value) "payload value") as Hi.
  destruct (ParseInt64 _ _); simpl in *; try done;
    pose proof (ParseDouble_outcome False (YamlScalar value) "payload value") as Hd;
    by destruct (ParseDouble _ _).
Qed.

Ltac from_known := first
  [exact CommandTypeFromString_known|exact PriorityFromString_known|exact ConditionTypeFromString_known
  |exact ConditionComparisonFromString_known|exact FailureActionFromString_known].

(** One step of a computation in the [Parse] monad; the values that are read
    satisfy what the database says of them. *)
Ltac outcome_step :=
  cbv beta; try unfold reads;
  match goal with
  | |- outcome _ _ (if ?b then _ else _) => destruct b
  | |- outcome _ _ (mbind _ (YamlBool _ _)) => apply (outcome_bind (λ _, True)); [auto with outcome|intros ? _]
  | |- outcome _ _ (mbind _ (yaml_named _ _ _ _)) => eapply outcome_bind; [apply yaml_named_outcome; from_known|cbv beta; intros ? ?]
  | |- outcome _ _ (mbind _ (SplitYamlKeyValue _)) => apply (outcome_bind (λ _, True)); [auto with outcome|intros [? ?] _]
  | |- outcome _ _ (mbind _ _) => eapply outcome_bind; [solve [eauto with outcome]|cbv beta; intros ? ?]
  end.

Ltac typed_members :=
  simpl; try exact I; unfold command_typed, condition_typed, step_typed, mission_typed;
  simpl; split_and!.

Lemma ApplyYamlCommandField_outcome c key value line :
  command_typed c → outcome False command_typed (ApplyYamlCommandField c key value line).
Proof.
  intros (Hid & Hty & Hpr & Hto & Hpl). unfold ApplyYamlCommandField.
  repeat outcome_step; typed_members; auto.
Qed.

Lemma ApplyYamlConditionField_outcome c key value line :
  condition_typed c → outcome False condition_typed (ApplyYamlConditionField c key value line).
Proof.
  intros (Hid & Hty & Hcmp & Hf & Hc & Ha). unfold ApplyYamlConditionField.
  repeat outcome_step; typed_members; auto with outcome.
Qed.

Lemma ApplyYamlStepField_outcome s key value line :
  step_typed s → outcome False step_typed (ApplyYamlStepField s key value line).
Proof.
  intros (Hid & Hc & Hto & Hr & Hrp & Hlp & Htp & Hw & Hd & Hcs). unfold ApplyYamlStepField.
  repeat outcome_step; typed_members; auto.
Qed.

Lemma ApplyYamlMissionField_outcome m key value line :
  mission_typed m → outcome False mission_typed (ApplyYamlMissionField m key value line).
Proof.
  intros (Hid & Hs). unfold ApplyYamlMissionField. repeat outcome_step; typed_members; auto.
Qed.

Lemma first_field_outcome {A} (P : A → Prop) m apply line a :
  (∀ a key value line, P a → outcome False P (apply a key value line)) → P a →
  outcome False P (first_field m apply line a).
Proof.
  intros Happly Ha. unfold first_field. case_bool_decide; [done|].
  apply (outcome_bind (λ _, True)); [auto with outcome|]. intros [key value] _.
  case_bool_decide; [done|]. auto.
Qed.

Section Reads.
Context (base_indent : nat).

Lemma ParseYamlStringMap_reads expected lines m :
  reads (λ _, True) (length lines) (ParseYamlStringMap base_indent expected lines m).
Proof.
  apply yaml_loop_reads; [|done|done]. intros line rest a _.
  outcome_step. outcome_step. by split.
Qed.

Lemma ParseYamlPayload_reads expected lines m :
  map_Forall (λ _, payload_value_typed) m →
  reads (map_Forall (λ _, payload_value_typed)) (length lines)
    (ParseYamlPayload base_indent expected lines m).
Proof.
  apply yaml_fields_reads. intros line key value a Ha. outcome_step.
  by apply map_emplace_Forall; [apply YamlPayloadValue_typed|].
Qed.

Lemma ParseYamlCommand_reads expected lines c :
  command_typed c → reads command_typed (length lines) (ParseYamlCommand base_indent expected lines c).
Proof.
  apply yaml_loop_reads; [|done]. intros line rest a Ha.
  outcome_step. outcome_step; [|outcome_step].
  - outcome_step. eapply outcome_bind; [apply ParseYamlPayload_reads; apply Ha|].
    intros [v rest'] [Hv Hlen]. split; [|done]. destruct Ha as (?&?&?&?&?). typed_members; auto.
  - outcome_step. eapply outcome_bind; [apply ParseYamlStringMap_reads|].
    intros [v rest'] [_ Hlen]. split; [|done]. destruct Ha as (?&?&?&?&?). typed_members; auto.
  - outcome_step. eapply outcome_bind; [by apply ApplyYamlCommandField_outcome|].
    intros c' Hc'. by split.
Qed.

Lemma ParseYamlRetryPolicy_reads expected lines p :
  retry_typed p → reads retry_typed (length lines) (ParseYamlRetryPolicy base_indent expected lines p).
Proof.
  apply yaml_fields_reads. intros line key value a [Ha Hd]. repeat outcome_step; try done; by split.
Qed.

Lemma only_field_outcome {A} (P : A → Prop) name m read line key value a :
  (∀ value, outcome False P (read value)) → outcome False P (only_field name m read line key value a).
Proof. intros Hread. unfold only_field. by destruct (_ || _). Qed.

Lemma ParseYamlLoopPolicy_reads expected lines p :
  loop_typed p → reads loop_typed (length lines) (ParseYamlLoopPolicy base_indent expected lines p).
Proof.
  apply yaml_fields_reads. intros line key value a _. apply only_field_outcome. intros v.
  apply (outcome_fmap is_u32); auto with outcome.
Qed.

Lemma ParseYamlTimeoutPolicy_reads expected lines p :
  timeout_typed p →
  reads timeout_typed (length lines) (ParseYamlTimeoutPolicy base_indent expected lines p).
Proof. apply yaml_fields_reads. intros line key value a Ha. repeat outcome_step; done. Qed.

Lemma ParseYamlWaitStep_reads expected lines w :
  wait_typed w → reads wait_typed (length lines) (ParseYamlWaitStep base_indent expected lines w).
Proof.
  apply yaml_fields_reads. intros line key value a _. apply only_field_outcome. intros v.
  apply (outcome_fmap is_i64); auto with outcome.
Qed.

Lemma ParseYamlDelayStep_reads expected lines d :
  delay_typed d → reads delay_typed (length lines) (ParseYamlDelayStep base_indent expected lines d).
Proof.
  apply yaml_fields_reads. intros line key value a _. apply only_field_outcome. intros v.
  apply (outcome_fmap is_i64); auto with outcome.
Qed.

Lemma ParseYamlCondition_reads expected line lines :
  reads condition_typed (length lines) (ParseYamlCondition base_indent expected line lines).
Proof.
  eapply outcome_bind.
  { apply (first_field_outcome condition_typed); [apply ApplyYamlConditionField_outcome|].
    apply default_MissionCondition_typed. }
  intros c Hc. apply yaml_loop_reads; [|done|done]. clear c Hc. intros line' rest a Ha.
  outcome_step. outcome_step.
  - outcome_step. eapply outcome_bind; [apply ParseYamlStringMap_reads|].
    intros [v rest'] [_ Hlen]. split; [|done]. destruct Ha as (?&?&?&?&?&?). typed_members; auto.
  - outcome_step. eapply outcome_bind; [by apply ApplyYamlConditionField_outcome|].
    intros c' Hc'. by split.
Qed.

Lemma ParseYamlConditions_reads expected lines cs :
  Forall condition_typed cs →
  reads (Forall condition_typed) (length lines) (ParseYamlConditions base_indent expected lines cs).
Proof.
  apply yaml_loop_reads; [|done]. intros line rest a Ha.
  eapply outcome_bind; [apply ParseYamlCondition_reads|]. intros [c rest'] [Hc Hlen].
  split; [|done]. apply Forall_app. auto.
Qed.

Lemma step_round_reads line rest s :
  step_typed s → reads step_typed (length rest) (step_round base_indent line rest s).
Proof.
  intros Hs. pose proof Hs as (Hid&Hc&Hto&Hr&Hrp&Hlp&Htp&Hw&Hd&Hcs). unfold step_round.
  outcome_step.
  outcome_step; [outcome_step; eapply outcome_bind; [by apply ParseYamlCommand_reads|]|].
  { intros [v rest'] [Hv Hlen]. split; [|done]. typed_members; auto. }
  outcome_step; [outcome_step; eapply outcome_bind; [by apply ParseYamlRetryPolicy_reads|]|].
  { intros [v rest'] [Hv Hlen]. split; [|done]. typed_members; auto. }
  outcome_step; [outcome_step; eapply outcome_bind; [by apply ParseYamlLoopPolicy_reads|]|].
  { intros [v rest'] [Hv Hlen]. split; [|done]. typed_members; auto. }
  outcome_step; [outcome_step; eapply outcome_bind; [by apply ParseYamlTimeoutPolicy_reads|]|].
  { intros [v rest'] [Hv Hlen]. split; [|done]. typed_members; auto. }
  outcome_step; [outcome_step; eapply outcome_bind; [by apply ParseYamlWaitStep_reads; typed|]|].
  { intros [v rest'] [Hv Hlen]. split; [|done]. typed_members; auto. }
  outcome_step; [outcome_step; eapply outcome_bind; [by apply ParseYamlDelayStep_reads; typed|]|].
  { intros [v rest'] [Hv Hlen]. split; [|done]. typed_members; auto. }
  outcome_step; [outcome_step; eapply outcome_bind; [by apply ParseYamlConditions_reads|]|].
  { intros [v rest'] [Hv Hlen]. split; [|done]. typed_members; auto. }
  outcome_step; [outcome_step; eapply outcome_bind; [by apply ParseYamlStringMap_reads|]|].
  { intros [v rest'] [_ Hlen]. split; [|done]. typed_members; auto. }
  outcome_step. eapply outcome_bind; [by apply ApplyYamlStepField_outcome|].
  intros s' Hs'. by split.
Qed.

Lemma ParseYamlStep_reads line lines :
  reads step_typed (length lines) (ParseYamlStep base_indent line lines).
Proof.
  eapply outcome_bind.
  { apply (first_field_outcome step_typed); [apply ApplyYamlStepField_outcome|].
    apply default_MissionStep_typed. }
  intros s Hs. apply yaml_loop_reads; [|done|done]. intros. by apply step_round_reads.
Qed.

Lemma ParseYamlSteps_reads lines ss :
  Forall step_typed ss → reads (Forall step_typed) (length lines) (ParseYamlSteps base_indent lines ss).
Proof.
  apply yaml_loop_reads; [|done]. intros line rest a Ha.
  eapply outcome_bind; [apply ParseYamlStep_reads|]. intros [s rest'] [Hs Hlen].
  split; [|done]. apply Forall_app. auto.
Qed.

Lemma mission_loop_reads lines m :
  mission_typed m → reads mission_typed (length lines) (mission_loop base_indent lines m).
Proof.
  apply yaml_loop_reads; [|done]. intros line rest a Ha. unfold mission_round.
  outcome_step. outcome_step; [|outcome_step].
  - outcome_step. eapply outcome_bind; [apply ParseYamlStringMap_reads|].
    intros [v rest'] [_ Hlen]. split; [|done]. destruct Ha. typed_members; auto.
  - outcome_step. eapply outcome_bind; [apply ParseYamlSteps_reads; apply Ha|].
    intros [v rest'] [Hv Hlen]. split; [|done]. destruct Ha. typed_members; auto.
  - outcome_step. eapply outcome_bind; [by apply ApplyYamlMissionField_outcome|].
    intros m' Hm'. by split.
Qed.
End Reads.

Lemma MissionFromYaml_outcome document now :
  outcome False (λ m, mission_typed m ∧ mission_timestamp m = now) (MissionFromYaml document now).
Proof.
  eapply outcome_bind; [apply YamlLines_outcome|]. intros [|first rest] _; [done|]. simpl.
  eapply (outcome_bind (λ r, mission_typed r.1)).
  - destruct (_ && _); (eapply outcome_impl; [apply mission_loop_reads; auto with outcome|done|]);
      intros r Hr; apply Hr.
  - intros [m r] Hm. split; [exact Hm|done].
Qed.

(* ------------------------------------------------------------------ *)
(** ** JSON *)

(** The numbers of a value. *)
Fixpoint numbers (v : JsonValue) : list spec_float :=
  match v with
  | JsonNumber d => [d]
  | JsonObject fields => flat_map (λ field, numbers field.2) fields
  | JsonArray values => flat_map numbers values
  | _ => []
  end.

(** The conversion of the number to [std::int64_t] is undefined. *)
Definition unfit (d : spec_float) : bool :=
  IsInteger d && negb ((- 2 ^ 63 <=? truncate d) && (truncate d <? 2 ^ 63)).

Section Json.
Context (N : spec_float → Prop) (U : Prop).
Context (N_finite : ∀ d, N d → isfinite d = true) (N_unfit : ∀ d, N d → unfit d = true → U).

Definition numbers_in (v : JsonValue) : Prop := Forall N (numbers v).

Definition fields_in (fields : list (string * JsonValue)) : Prop :=
  Forall (λ field, numbers_in field.2) fields.

Lemma fields_in_object fields : numbers_in (JsonObject fields) → fields_in fields.
Proof. unfold numbers_in, fields_in. simpl. rewrite flat_map_concat_map, Forall_concat, Forall_fmap. done. Qed.

Lemma AsObject_outcome v name : numbers_in v → outcome U fields_in (AsObject v name).
Proof. destruct v; simpl; try done. apply fields_in_object. Qed.

Lemma AsArray_outcome v name : numbers_in v → outcome U (Forall numbers_in) (AsArray v name).
Proof.
  destruct v; simpl; try done. unfold numbers_in. simpl.
  by rewrite flat_map_concat_map, Forall_concat, Forall_fmap.
Qed.

Lemma Optional_in fields key v : fields_in fields → Optional fields key = Some v → numbers_in v.
Proof.
  unfold Optional. intros Hin H. destruct (list_find _ _) as [[i f]|] eqn:E; simplify_eq.
  apply list_find_Some in E as (E & _). by apply (Forall_lookup_1 _ _ _ _ Hin) in E.
Qed.

Lemma Required_outcome fields key : fields_in fields → outcome U numbers_in (Required fields key).
Proof. intros Hin. apply outcome_or_error. intros v. by apply Optional_in. Qed.

Lemma optionally_outcome {A} (P : A → Prop) fields key member read :
  fields_in fields → P member → (∀ v, numbers_in v → outcome U P (read v)) →
  outcome U P (optionally fields key member read).
Proof.
  intros Hin Hm Hread. unfold optionally. destruct (Optional fields key) eqn:E; [|done].
  by apply Hread, (Optional_in fields key).
Qed.

Lemma entries_in fields : fields_in fields → Forall (λ e, numbers_in e.2) (entries fields).
Proof. unfold entries. by rewrite (merge_sort_Permutation key_before fields). Qed.

Lemma JsonString_outcome v key : outcome U (λ _, True) (JsonString v key).
Proof. by destruct v. Qed.

Lemma JsonBoolean_outcome v key : outcome U (λ _, True) (JsonBoolean v key).
Proof. by destruct v. Qed.

Lemma cast_int64_outcome d : N d → IsInteger d = true → outcome U is_i64 (cast_int64 d).
Proof.
  intros Hd Hi. unfold cast_int64. destruct (_ && _) eqn:E; simpl.
  - unfold is_i64. lia.
  - apply (N_unfit d Hd). unfold unfit. by rewrite Hi, E.
Qed.

Lemma JsonInt64_outcome v key : numbers_in v → outcome U is_i64 (JsonInt64 v key).
Proof.
  destruct v as [| |d| | |]; try done. intros Hd. simpl. destruct (IsInteger d) eqn:E; [|done].
  apply cast_int64_outcome; [|done]. by inversion Hd.
Qed.

Lemma truncate_sign d : isfinite d = true → SFltb d (S754_zero false) = false → 0 <= truncate d.
Proof.
  destruct d as [| | |s m e]; try done. intros _ H. destruct s; [done|]. simpl.
  destruct (Z.leb_spec 0 e).
  - pose proof (Z.pow_nonneg 2 e). lia.
  - apply Z.div_pos; [done|]. apply Z.pow_pos_nonneg; lia.
Qed.

Lemma JsonUint64_outcome v key : numbers_in v → outcome U is_u64 (JsonUint64 v key).
Proof.
  destruct v as [| |d| | |]; try done. intros Hd. simpl.
  destruct (IsInteger d) eqn:Hi; [|done]. destruct (SFltb d _) eqn:Hneg; [done|].
  destruct (SFltb _ d); [done|]. simpl.
  assert (HN : N d) by by inversion Hd.
  pose proof (truncate_sign d (N_finite d HN) Hneg) as Hpos. unfold cast_uint64.
  destruct (_ && _) eqn:E; simpl.
  - unfold is_u64. lia.
  - apply (N_unfit d HN). unfold unfit, u64_modulus in *. rewrite Hi. lia.
Qed.

Lemma JsonUint32_outcome v key : numbers_in v → outcome U is_u32 (JsonUint32 v key).
Proof.
  intros Hv. apply (outcome_bind is_u64); [by apply JsonUint64_outcome|].
  unfold is_u64, is_u32. intros z Hz. destruct (Z.ltb_spec (2 ^ 32 - 1) z); simpl; lia.
Qed.

Lemma JsonNamed_outcome {A} (P : A → Prop) (from : string → option A) v key unknown :
  (∀ s a, from s = Some a → P a) → outcome U P (JsonNamed from v key unknown).
Proof.
  intros H. apply (outcome_bind (λ _, True)); [apply JsonString_outcome|].
  intros s _. apply outcome_or_error. eauto.
Qed.

Lemma MetadataFromJson_outcome v key :
  numbers_in v → outcome U (λ _, True) (MetadataFromJson v key).
Proof.
  intros Hv. apply (outcome_bind fields_in); [by apply AsObject_outcome|]. intros fields _.
  apply outcome_foldM; [|done]. intros [k e] m _ _.
  by apply (outcome_bind (λ _, True)); [apply JsonString_outcome|].
Qed.

Lemma PayloadFromJson_outcome v key :
  numbers_in v → outcome U (map_Forall (λ _, payload_value_typed)) (PayloadFromJson v key).
Proof.
  intros Hv. apply (outcome_bind fields_in); [by apply AsObject_outcome|]. intros fields Hf.
  apply entries_in in Hf. rewrite Forall_forall in Hf.
  apply outcome_foldM; [|apply map_Forall_empty]. intros [k e] m He Hm. apply Hf in He. simpl in *.
  apply (outcome_bind payload_value_typed).
  - destruct e as [| |d| | |]; try done. assert (HN : N d) by by inversion He.
    unfold PayloadValueFromNumber. destruct (IsInteger d) eqn:E; [|by apply N_finite].
    apply (outcome_fmap is_i64); [by apply cast_int64_outcome|done].
  - intros p Hp. by apply map_emplace_Forall.
Qed.

Hint Resolve AsObject_outcome AsArray_outcome Required_outcome JsonString_outcome
  JsonBoolean_outcome JsonInt64_outcome JsonUint64_outcome JsonUint32_outcome
  MetadataFromJson_outcome PayloadFromJson_outcome : outcome.

(** One member: the bind of a required or an optional field. *)
Ltac member := cbv beta;
  match goal with
  | |- outcome _ _ (mbind _ (optionally _ _ _ (λ v, JsonNamed _ v _ _))) =>
      eapply outcome_bind; [eapply optionally_outcome;
        [eassumption| |intros ? _; apply JsonNamed_outcome; from_known]; reflexivity
        |cbv beta; intros ? ?]
  | |- outcome _ _ (mbind _ (mbind _ (Required _ _))) =>
      eapply outcome_bind; [eapply outcome_bind;
        [by apply Required_outcome|intros ? ?;
         first [apply JsonNamed_outcome; from_known|solve [eauto with outcome]]]
        |cbv beta; intros ? ?]
  | |- outcome _ _ (mbind _ _) => eapply outcome_bind; [solve [eauto with outcome]|cbv beta; intros ? ?]
  end.

(** An optional member with its property. *)
Ltac optional P := apply (outcome_bind P);
  [apply optionally_outcome; [assumption|try done; try typed|intros; eauto with outcome]
  |cbv beta; intros ? ?].

Lemma CommandFromJson_outcome v : numbers_in v → outcome U command_typed (CommandFromJson v).
Proof.
  intros Hv. unfold CommandFromJson. member. member. member. member.
  optional is_i64. optional (λ p : gmap string CommandPayloadValue, map_Forall (λ _, payload_value_typed) p).
  optional (λ _ : MissionMetadata, True). typed_members; auto.
Qed.

Lemma RetryPolicyFromJson_outcome v : numbers_in v → outcome U retry_typed (RetryPolicyFromJson v).
Proof.
  intros Hv. unfold RetryPolicyFromJson. member. optional is_u32. optional is_i64.
  optional (λ _ : bool, True). optional (λ _ : bool, True). by split.
Qed.

Lemma LoopPolicyFromJson_outcome v : numbers_in v → outcome U loop_typed (LoopPolicyFromJson v).
Proof. intros Hv. unfold LoopPolicyFromJson. member. by optional is_u32. Qed.

Lemma TimeoutPolicyFromJson_outcome v :
  numbers_in v → outcome U timeout_typed (TimeoutPolicyFromJson v).
Proof.
  intros Hv. unfold TimeoutPolicyFromJson. member. optional is_i64. by optional (λ _ : bool, True).
Qed.

Lemma OperandsFromJson_outcome fields :
  fields_in fields → outcome U (λ _, True) (OperandsFromJson fields).
Proof. intros Hf. apply optionally_outcome; [done..|]. by intros []. Qed.

Lemma ConditionFromJson_outcome v : numbers_in v → outcome U condition_typed (ConditionFromJson v).
Proof.
  intros Hv. unfold ConditionFromJson. member. member. member. member. member.
  apply (outcome_bind (λ _, True)); [by apply OperandsFromJson_outcome|]. intros [numeric boolean] _.
  apply (outcome_bind is_i32).
  { apply optionally_outcome; [done|typed|]. intros field Hfield.
    apply (outcome_fmap is_i64); auto with outcome. }
  intros fault Hfault. member. member. optional (λ _ : MissionMetadata, True).
  typed_members; auto.
Qed.

Lemma DurationFromJson_outcome v key : numbers_in v → outcome U is_i64 (DurationFromJson v key).
Proof.
  intros Hv. apply (outcome_bind fields_in); [by apply AsObject_outcome|]. intros fields Hf.
  apply (outcome_bind numbers_in); [by apply Required_outcome|]. intros. by apply JsonInt64_outcome.
Qed.

Lemma elements_outcome {A} (P : A → Prop) (read : JsonValue → Parse A) values :
  (∀ v, numbers_in v → outcome U P (read v)) → Forall numbers_in values →
  outcome U (Forall P) (foldM (λ v l, a ← read v; Parsed (l ++ [a])) values []).
Proof.
  intros Hread Hvs. rewrite Forall_forall in Hvs. apply outcome_foldM; [|constructor].
  intros v l Hv Hl. apply (outcome_bind P); [auto|]. intros a Ha. apply Forall_app. auto.
Qed.

Hint Resolve CommandFromJson_outcome RetryPolicyFromJson_outcome LoopPolicyFromJson_outcome
  TimeoutPolicyFromJson_outcome : outcome.

Lemma StepFromJson_outcome v : numbers_in v → outcome U step_typed (StepFromJson v).
Proof.
  intros Hv. unfold StepFromJson. member. member. member.
  optional command_typed.
  optional is_i64. optional is_u32. optional retry_typed. optional loop_typed. optional timeout_typed.
  apply (outcome_bind (option_typed wait_typed)).
  { apply optionally_outcome; [done..|]. intros w Hw.
    apply (outcome_fmap is_i64); [by apply DurationFromJson_outcome|done]. }
  intros wait Hwait. apply (outcome_bind (option_typed delay_typed)).
  { apply optionally_outcome; [done..|]. intros w Hw.
    apply (outcome_fmap is_i64); [by apply DurationFromJson_outcome|done]. }
  intros delay Hdelay. optional (λ _ : bool, True). optional (λ _ : bool, True).
  apply (outcome_bind (Forall condition_typed)).
  { apply optionally_outcome; [done|constructor|]. intros cs Hcs.
    apply (outcome_bind (Forall numbers_in)); [by apply AsArray_outcome|]. intros values Hvalues.
    by apply elements_outcome; [apply ConditionFromJson_outcome|]. }
  intros cs Hcs. optional (λ _ : bool, True). optional (λ _ : MissionMetadata, True).
  typed_members; auto.
Qed.

Lemma MissionFromJson_outcome v now :
  numbers_in v →
  outcome U (λ m, mission_typed m ∧ mission_timestamp m = now) (MissionFromJson v now).
Proof.
  intros Hv. unfold MissionFromJson. member.
  apply (outcome_bind fields_in).
  { apply optionally_outcome; [done..|]. intros. by apply AsObject_outcome. }
  intros object Hobject. member. member. member. member. member.
  optional (λ _ : MissionMetadata, True). member.
  apply (outcome_bind (Forall step_typed)).
  { by apply elements_outcome; [apply StepFromJson_outcome|]. }
  intros ss Hss. split; [by split|done].
Qed.
End Json.
