(* ===== verification/MissionDocument.v ===== *)
(** * JSON documents of missions

    [json_of_mission m] is the JSON value of a mission, with every member
    written out.  A mission whose members JSON can carry
    ([mission_representable]) is read back unchanged from the text of its
    document. *)

From Stdlib Require Import Ascii String SpecFloat.
From stdpp Require Import sorting.
From S2P Require Import Prelude Command RobotState SafetyValidator CommandValidation.
From S2P Require Import Mission Text Json JsonGrammar JsonPrinter MissionJson Doubles.

Open Scope Z_scope.

(* ------------------------------------------------------------------ *)
(** ** The document of a mission *)

Abbreviation json_number n := (JsonNumber (double_of_int64 n)).

(** The double of a float. *)
Definition double_of_float (x : float32) : spec_float :=
  match x with
  | S754_finite negative m e => binary_normalize 53 1024 (if negative then Z.neg m else Z.pos m) e negative
  | _ => x
  end.

Definition json_of_map {A} (encode : A → JsonValue) (m : gmap string A) : JsonValue :=
  JsonObject ((λ e, (e.1, encode e.2)) <$> map_to_list m).

Definition json_of_payload_value (v : CommandPayloadValue) : JsonValue :=
  match v with
  | PayloadBool b => JsonBool b
  | PayloadInt i => json_number i
  | PayloadDouble d => JsonNumber d
  | PayloadString s => JsonText s
  end.

Definition json_of_command (c : Command) : JsonValue := JsonObject
  [("id", json_number (id c)); ("type", JsonText (CommandType_toString (type c)));
   ("priority", JsonText (CommandPriority_toString (priority c)));
   ("timeout_ms", json_number (timeout c));
   ("payload", json_of_map json_of_payload_value (payload c));
   ("metadata", json_of_map JsonText (metadata c))].

Definition json_of_retry (p : RetryPolicy) : JsonValue := JsonObject
  [("max_attempts", json_number (maxAttempts p)); ("delay_ms", json_number (delayBetweenAttempts p));
   ("retry_on_failure", JsonBool (retryOnFailure p));
   ("retry_on_timeout", JsonBool (retryOnTimeout p))].

Definition json_of_loop (p : LoopPolicy) : JsonValue :=
  JsonObject [("iterations", json_number (iterations p))].

Definition json_of_timeout (p : TimeoutPolicy) : JsonValue := JsonObject
  [("timeout_ms", json_number (policy_timeout p)); ("abort_on_timeout", JsonBool (abortOnTimeout p))].

Definition json_of_duration (n : Z) : JsonValue := JsonObject [("duration_ms", json_number n)].

Definition comparison_name (c : MissionConditionComparison) : string :=
  match c with
  | Equal => "Equal" | NotEqual => "NotEqual" | LessThan => "LessThan"
  | LessThanOrEqual => "LessThanOrEqual" | GreaterThan => "GreaterThan"
  | GreaterThanOrEqual => "GreaterThanOrEqual" | ComparisonRaw _ => "Unknown"
  end.

Definition action_name (a : MissionConditionFailureAction) : string :=
  match a with ActionSkip => "Skip" | ActionAbort => "Abort" | FailureActionRaw _ => "Unknown" end.

(** The operand that the type of the condition uses. *)
Definition json_of_operand (c : MissionCondition) : JsonValue :=
  if boolean_condition (condition_type c) then JsonBool (boolValue c)
  else JsonNumber (double_of_float (numericValue c)).

Definition json_of_condition (c : MissionCondition) : JsonValue := JsonObject
  [("id", json_number (condition_id c)); ("name", JsonText (condition_name c));
   ("type", JsonText (MissionConditionType_toString (condition_type c)));
   ("comparison", JsonText (comparison_name (comparison c))); ("value", json_of_operand c);
   ("fault_code", json_number (condition_faultCode c));
   ("command_type", JsonText (CommandType_toString (commandType c)));
   ("on_failure", JsonText (action_name (failureAction c)));
   ("metadata", json_of_map JsonText (condition_metadata c))].

Definition step_fields (s : MissionStep) : list (string * JsonValue) :=
  [("id", json_number (step_id s)); ("name", JsonText (step_name s));
    ("command", json_of_command (step_command s)); ("timeout_ms", json_number (step_timeout s));
    ("retry", json_number (retry s)); ("retry_policy", json_of_retry (retryPolicy s));
    ("loop_policy", json_of_loop (loopPolicy s));
    ("timeout_policy", json_of_timeout (timeoutPolicy s));
    ("skip", JsonBool (skip s)); ("abort", JsonBool (abort s));
    ("conditions", JsonArray (json_of_condition <$> conditions s));
    ("enabled", JsonBool (enabled s)); ("metadata", json_of_map JsonText (step_metadata s))] ++
  match wait s with Some w => [("wait", json_of_duration (wait_duration w))] | None => [] end ++
  match delay s with Some d => [("delay", json_of_duration (delay_duration d))] | None => [] end.

Definition json_of_step (s : MissionStep) : JsonValue := JsonObject (step_fields s).

Definition json_of_mission (m : Mission) : JsonValue := JsonObject
  [("id", json_number (mission_id m)); ("name", JsonText (mission_name m));
   ("description", JsonText (description m)); ("version", JsonText (version m));
   ("author", JsonText (author m)); ("metadata", json_of_map JsonText (mission_metadata m));
   ("steps", JsonArray (json_of_step <$> steps m))].

(* ------------------------------------------------------------------ *)
(** ** Representable missions *)

(** Identifiers and durations of at most 53 bits. *)
Definition natural (n : Z) : Prop := 0 <= n ∧ small n.

Definition metadata_representable (m : gmap string string) : Prop :=
  map_Forall (λ k s, string_printable k ∧ string_printable s) m.

Definition payload_representable (v : CommandPayloadValue) : Prop :=
  match v with
  | PayloadBool _ => True
  | PayloadInt i => small i
  | PayloadDouble d => IsInteger d = false ∧ number_printable d
  | PayloadString s => string_printable s
  end.

Definition command_representable (c : Command) : Prop :=
  natural (id c) ∧ timestamp c = 0 ∧ IsKnownCommandType (type c) = true ∧
  IsKnownPriority (priority c) = true ∧ small (timeout c) ∧
  map_Forall (λ k v, string_printable k ∧ payload_representable v) (payload c) ∧
  metadata_representable (metadata c).

Definition policy_representable (s : MissionStep) : Prop :=
  Text.is_u32 (maxAttempts (retryPolicy s)) ∧ small (delayBetweenAttempts (retryPolicy s)) ∧
  Text.is_u32 (iterations (loopPolicy s)) ∧ small (policy_timeout (timeoutPolicy s)).

(** Only the operand that the document carries may differ from the default. *)
Definition operand_representable (c : MissionCondition) : Prop :=
  if boolean_condition (condition_type c) then numericValue c = S754_zero false
  else boolValue c = true ∧ cast_float (double_of_float (numericValue c)) = numericValue c ∧
       number_printable (double_of_float (numericValue c)).

Definition condition_representable (c : MissionCondition) : Prop :=
  natural (condition_id c) ∧ string_printable (condition_name c) ∧
  IsKnownConditionType (condition_type c) = true ∧ IsKnownComparison (comparison c) = true ∧
  operand_representable c ∧ is_i32 (condition_faultCode c) ∧
  IsKnownCommandType (commandType c) = true ∧ IsKnownFailureAction (failureAction c) = true ∧
  metadata_representable (condition_metadata c).

Definition step_representable (s : MissionStep) : Prop :=
  natural (step_id s) ∧ string_printable (step_name s) ∧ command_representable (step_command s) ∧
  small (step_timeout s) ∧ is_u32 (retry s) ∧ policy_representable s ∧
  valid_if_any (λ w, bool_decide (small (wait_duration w))) (wait s) = true ∧
  valid_if_any (λ d, bool_decide (small (delay_duration d))) (delay s) = true ∧
  Forall condition_representable (conditions s) ∧ metadata_representable (step_metadata s).

Definition mission_representable (m : Mission) : Prop :=
  natural (mission_id m) ∧ string_printable (mission_name m) ∧ string_printable (description m) ∧
  string_printable (version m) ∧ string_printable (author m) ∧
  metadata_representable (mission_metadata m) ∧ Forall step_representable (steps m).

(* ------------------------------------------------------------------ *)
(** ** Fields *)

Lemma optionally_Some {A} fields key (member : A) read v :
  Optional fields key = Some v → optionally fields key member read = read v.
Proof. unfold optionally. by intros ->. Qed.

Lemma optionally_None {A} fields key (member : A) read :
  Optional fields key = None → optionally fields key member read = Parsed member.
Proof. unfold optionally. by intros ->. Qed.

Ltac find_field := simpl; repeat (rewrite Optional_next by done); first [apply Optional_here|done].

Lemma foldM_entries {A} (encode : A → JsonValue) (read : JsonValue → Parse A) l m :
  (∀ e, e ∈ l → read (encode e.2) = Parsed e.2) → NoDup l.*1 → (∀ k, k ∈ l.*1 → m !! k = None) →
  foldM (λ e m, v ← read e.2; Parsed (map_emplace e.1 v m)) ((λ e, (e.1, encode e.2)) <$> l) m =
  Parsed (list_to_map l ∪ m).
Proof.
  revert m. induction l as [|[k a] l IH]; intros m Hread Hnd Hm; simpl.
  - by rewrite map_empty_union.
  - pose proof (Hread (k, a) ltac:(left)) as E. simpl in *. rewrite E. simpl. apply NoDup_cons in Hnd as [Hk Hnd].
    unfold map_emplace. rewrite Hm by left. rewrite IH; [|intros; apply Hread; by right|done|].
    + f_equal. rewrite <-insert_union_l, <-insert_union_r; [done|].
      by apply not_elem_of_list_to_map_1.
    + intros k' Hk'. rewrite lookup_insert_ne by (by intros <-). apply Hm. by right.
Qed.

(** The map of a document is read back, in whatever order it is visited. *)
Lemma json_of_map_read {A} (encode : A → JsonValue) (read : JsonValue → Parse A) (m : gmap string A) key :
  (∀ k a, m !! k = Some a → read (encode a) = Parsed a) →
  (object ← AsObject (json_of_map encode m) key;
   foldM (λ e m, v ← read e.2; Parsed (map_emplace e.1 v m)) (entries object) ∅) = Parsed m.
Proof.
  intros Hread. simpl.
  destruct (Permutation_map_inv (λ e, (e.1, encode e.2)) (map_to_list m)
              (l1 := entries ((λ e, (e.1, encode e.2)) <$> map_to_list m))) as (l & E & Hl).
  { apply merge_sort_Permutation. }
  change (map ?f l) with (f <$> l) in E. rewrite E.
  rewrite (foldM_entries encode read); [| |rewrite <-Hl; apply NoDup_fst_map_to_list|done].
  - f_equal. rewrite map_union_empty. rewrite <-(list_to_map_to_list m). symmetry.
    apply list_to_map_proper; [apply NoDup_fst_map_to_list|done].
  - intros [k a] He. rewrite <-Hl in He. apply elem_of_map_to_list in He. simpl. eauto.
Qed.

Lemma MetadataFromJson_read m key : MetadataFromJson (json_of_map JsonText m) key = Parsed m.
Proof. by apply (json_of_map_read JsonText (λ v, JsonString v key)). Qed.

Lemma PayloadFromJson_read m key :
  map_Forall (λ k v, string_printable k ∧ payload_representable v) m →
  PayloadFromJson (json_of_map json_of_payload_value m) key = Parsed m.
Proof.
  intros Hm. apply (json_of_map_read json_of_payload_value (λ v,
    match v with
    | JsonBool b => Parsed (PayloadBool b)
    | JsonNumber d => PayloadValueFromNumber d
    | JsonText s => Parsed (PayloadString s)
    | _ => ParseError "Command payload values must be scalar"
    end)).
  intros k v Hv. destruct (Hm k v Hv) as [_ Hr]. destruct v as [b|i|d|s]; simpl in *; [done| | |done].
  - unfold PayloadValueFromNumber. by rewrite IsInteger_small, cast_int64_small.
  - destruct Hr as [Hr _]. unfold PayloadValueFromNumber. by rewrite Hr.
Qed.

(** The names of the constants are read back. *)
Lemma CommandTypeFromString_read t :
  IsKnownCommandType t = true → CommandTypeFromString (CommandType_toString t) = Some t.
Proof. by destruct t. Qed.
Lemma PriorityFromString_read p :
  Mission.IsKnownPriority p = true → PriorityFromString (CommandPriority_toString p) = Some p.
Proof. by destruct p. Qed.
Lemma ConditionTypeFromString_read t :
  IsKnownConditionType t = true → ConditionTypeFromString (MissionConditionType_toString t) = Some t.
Proof. by destruct t. Qed.
Lemma ConditionComparisonFromString_read c :
  IsKnownComparison c = true → ConditionComparisonFromString (comparison_name c) = Some c.
Proof. by destruct c. Qed.
Lemma FailureActionFromString_read a :
  IsKnownFailureAction a = true → FailureActionFromString (action_name a) = Some a.
Proof. by destruct a. Qed.

Lemma JsonNamed_read {A} (from : string → option A) (name : A → string) a key unknown :
  from (name a) = Some a → JsonNamed from (JsonText (name a)) key unknown = Parsed a.
Proof. intros H. unfold JsonNamed. simpl. by rewrite H. Qed.

(* ------------------------------------------------------------------ *)
(** ** Reading the parts of a mission *)

#[local] Hint Rewrite JsonUint64_small JsonUint32_small JsonInt64_small MetadataFromJson_read
  PayloadFromJson_read using done : json.
#[local] Hint Rewrite @JsonNamed_read using (by auto using CommandTypeFromString_read,
  PriorityFromString_read, ConditionTypeFromString_read, ConditionComparisonFromString_read,
  FailureActionFromString_read) : json.

(** The next field of the document, and its value. *)
Ltac read_field key value :=
  first [rewrite (Required_Some _ key value) by find_field
        |rewrite (optionally_Some _ key _ _ value) by find_field];
  cbn [JsonString JsonBoolean mbind Parse_bind]; autorewrite with json;
  cbn [mbind Parse_bind fmap Parse_fmap].

Lemma CommandFromJson_read c : command_representable c → CommandFromJson (json_of_command c) = Parsed c.
Proof.
  intros ([Hid0 Hid] & Hts & Hty & Hpr & Hto & Hpl & _). unfold CommandFromJson.
  cbn [json_of_command AsObject mbind Parse_bind].
  read_field "id" (json_number (id c)).
  read_field "type" (JsonText (CommandType_toString (type c))).
  read_field "priority" (JsonText (CommandPriority_toString (priority c))).
  read_field "timeout_ms" (json_number (timeout c)).
  read_field "payload" (json_of_map json_of_payload_value (payload c)).
  read_field "metadata" (json_of_map JsonText (metadata c)).
  destruct c. simpl in *. by rewrite Hts.
Qed.

Lemma RetryPolicyFromJson_read p :
  is_u32 (maxAttempts p) → small (delayBetweenAttempts p) →
  RetryPolicyFromJson (json_of_retry p) = Parsed p.
Proof.
  intros Ha Hd. unfold RetryPolicyFromJson. cbn [json_of_retry AsObject mbind Parse_bind].
  read_field "max_attempts" (json_number (maxAttempts p)).
  read_field "delay_ms" (json_number (delayBetweenAttempts p)).
  read_field "retry_on_failure" (JsonBool (retryOnFailure p)).
  read_field "retry_on_timeout" (JsonBool (retryOnTimeout p)). by destruct p.
Qed.

Lemma LoopPolicyFromJson_read p : is_u32 (iterations p) → LoopPolicyFromJson (json_of_loop p) = Parsed p.
Proof.
  intros Hi. unfold LoopPolicyFromJson. cbn [json_of_loop AsObject mbind Parse_bind].
  read_field "iterations" (json_number (iterations p)). by destruct p.
Qed.

Lemma TimeoutPolicyFromJson_read p :
  small (policy_timeout p) → TimeoutPolicyFromJson (json_of_timeout p) = Parsed p.
Proof.
  intros Ht. unfold TimeoutPolicyFromJson. cbn [json_of_timeout AsObject mbind Parse_bind].
  read_field "timeout_ms" (json_number (policy_timeout p)).
  read_field "abort_on_timeout" (JsonBool (abortOnTimeout p)). by destruct p.
Qed.

Lemma DurationFromJson_read n key : small n → DurationFromJson (json_of_duration n) key = Parsed n.
Proof.
  intros Hn. unfold DurationFromJson. cbn [json_of_duration AsObject mbind Parse_bind].
  by read_field "duration_ms" (json_number n).
Qed.

Lemma cast_int32_small n : is_i32 n → cast_int32 n = n.
Proof. unfold is_i32, cast_int32. intros Hn. rewrite Z.mod_small; lia. Qed.

Lemma i32_small n : is_i32 n → small n.
Proof. unfold is_i32, small. lia. Qed.

(** The operand of a condition that is represented. *)
Lemma OperandsFromJson_read c fields :
  operand_representable c → Optional fields "value" = Some (json_of_operand c) →
  OperandsFromJson fields = Parsed (numericValue c, boolValue c).
Proof.
  intros Hop Hfield. unfold OperandsFromJson. rewrite (optionally_Some _ _ _ _ _ Hfield).
  unfold operand_representable, json_of_operand in *. destruct (boolean_condition _).
  - by rewrite Hop.
  - destruct Hop as (Hb & Hn & _). by rewrite Hn, Hb.
Qed.

Lemma ConditionFromJson_read c :
  condition_representable c → ConditionFromJson (json_of_condition c) = Parsed c.
Proof.
  intros ([Hid0 Hid] & Hname & Hty & Hcmp & Hop & Hf & Hct & Ha & _). unfold ConditionFromJson.
  pose proof (i32_small _ Hf) as Hfs. cbn [json_of_condition AsObject mbind Parse_bind].
  read_field "id" (json_number (condition_id c)).
  read_field "name" (JsonText (condition_name c)).
  read_field "type" (JsonText (MissionConditionType_toString (condition_type c))).
  read_field "comparison" (JsonText (comparison_name (comparison c))).
  rewrite (OperandsFromJson_read c) by (done || find_field). cbn [mbind Parse_bind].
  read_field "fault_code" (json_number (condition_faultCode c)). rewrite cast_int32_small by done.
  read_field "command_type" (JsonText (CommandType_toString (commandType c))).
  read_field "on_failure" (JsonText (action_name (failureAction c))).
  read_field "metadata" (json_of_map JsonText (condition_metadata c)). by destruct c.
Qed.

(** The fields of a step that are not always present. *)
Lemma step_wait_read s :
  valid_if_any (λ w, bool_decide (small (wait_duration w))) (wait s) = true →
  optionally (step_fields s) "wait" (wait default_MissionStep)
    (λ field, Some ∘ mkWaitStep <$> DurationFromJson field "step.wait") = Parsed (wait s).
Proof.
  intros Hw. unfold step_fields. destruct (wait s) as [[n]|]; simpl in Hw.
  - apply bool_decide_eq_true in Hw.
    rewrite (optionally_Some _ _ _ _ (json_of_duration n)) by find_field.
    by rewrite DurationFromJson_read.
  - apply optionally_None. destruct (delay s); find_field.
Qed.

Lemma step_delay_read s :
  valid_if_any (λ d, bool_decide (small (delay_duration d))) (delay s) = true →
  optionally (step_fields s) "delay" (delay default_MissionStep)
    (λ field, Some ∘ mkDelayStep <$> DurationFromJson field "step.delay") = Parsed (delay s).
Proof.
  intros Hd. unfold step_fields. destruct (delay s) as [[n]|]; simpl in Hd.
  - apply bool_decide_eq_true in Hd.
    rewrite (optionally_Some _ _ _ _ (json_of_duration n)) by (destruct (wait s); find_field).
    by rewrite DurationFromJson_read.
  - apply optionally_None. destruct (wait s); find_field.
Qed.

#[local] Hint Rewrite CommandFromJson_read RetryPolicyFromJson_read LoopPolicyFromJson_read
  TimeoutPolicyFromJson_read using done : json.

Lemma conditions_read cs :
  Forall condition_representable cs →
  (values ← AsArray (JsonArray (json_of_condition <$> cs)) "step.conditions";
   foldM (λ v cs, c ← ConditionFromJson v; Parsed (cs ++ [c])) values []) = Parsed cs.
Proof.
  intros Hcs. simpl. rewrite (foldM_elements json_of_condition); [done|].
  eapply Forall_impl; [exact Hcs|apply ConditionFromJson_read].
Qed.

Lemma StepFromJson_read s : step_representable s → StepFromJson (json_of_step s) = Parsed s.
Proof.
  intros ([Hid0 Hid] & Hname & Hc & Hto & Hr & (Ha & Hd & Hi & Ht) & Hwait & Hdelay & Hcs & _).
  unfold StepFromJson. cbn [json_of_step AsObject mbind Parse_bind].
  read_field "id" (json_number (step_id s)).
  read_field "name" (JsonText (step_name s)).
  read_field "command" (json_of_command (step_command s)).
  read_field "timeout_ms" (json_number (step_timeout s)).
  read_field "retry" (json_number (retry s)).
  read_field "retry_policy" (json_of_retry (retryPolicy s)).
  read_field "loop_policy" (json_of_loop (loopPolicy s)).
  read_field "timeout_policy" (json_of_timeout (timeoutPolicy s)).
  rewrite step_wait_read by done. cbn [mbind Parse_bind].
  rewrite step_delay_read by done. cbn [mbind Parse_bind].
  read_field "skip" (JsonBool (skip s)).
  read_field "abort" (JsonBool (abort s)).
  rewrite (optionally_Some _ "conditions" _ _ (JsonArray (json_of_condition <$> conditions s))) by find_field.
  rewrite conditions_read by done. cbn [mbind Parse_bind].
  read_field "enabled" (JsonBool (enabled s)).
  read_field "metadata" (json_of_map JsonText (step_metadata s)). by destruct s.
Qed.

Lemma MissionFromJson_read m now :
  mission_representable m →
  MissionFromJson (json_of_mission m) now =
  Parsed (mkMission (mission_id m) (mission_name m) (description m) (version m) (author m) now
            (steps m) (mission_metadata m)).
Proof.
  intros ([Hid0 Hid] & _ & _ & _ & _ & _ & Hss). unfold MissionFromJson.
  cbn [json_of_mission AsObject mbind Parse_bind].
  rewrite (optionally_None _ "mission") by find_field. cbn [mbind Parse_bind].
  read_field "id" (json_number (mission_id m)).
  read_field "name" (JsonText (mission_name m)).
  read_field "description" (JsonText (description m)).
  read_field "version" (JsonText (version m)).
  read_field "author" (JsonText (author m)).
  read_field "metadata" (json_of_map JsonText (mission_metadata m)).
  read_field "steps" (JsonArray (json_of_step <$> steps m)). cbn [AsArray mbind Parse_bind].
  rewrite (foldM_elements json_of_step); [done|].
  eapply Forall_impl; [exact Hss|apply StepFromJson_read].
Qed.

(* ------------------------------------------------------------------ *)
(** ** The document can be printed *)

Lemma printable_small n : small n → printable (json_number n).
Proof. intros Hn. by apply printable_number, number_printable_small. Qed.

Lemma printable_u32 n : is_u32 n → printable (json_number n).
Proof. unfold is_u32. intros Hn. apply printable_small. unfold small. lia. Qed.

Lemma printable_natural n : natural n → printable (json_number n).
Proof. intros [_ Hn]. by apply printable_small. Qed.

Lemma printable_map {A} (encode : A → JsonValue) m :
  map_Forall (λ k a, string_printable k ∧ printable (encode a)) m → printable (json_of_map encode m).
Proof.
  intros Hm. apply printable_object.
  - rewrite Forall_fmap, Forall_forall. intros [k a] He%elem_of_map_to_list. by apply (Hm k a).
  - rewrite <-list_fmap_compose. apply NoDup_fst_map_to_list.
Qed.

Lemma printable_metadata m : metadata_representable m → printable (json_of_map JsonText m).
Proof.
  intros Hm. apply printable_map. intros k s Hs. destruct (Hm k s Hs). split; [done|by constructor].
Qed.

Lemma printable_payload m :
  map_Forall (λ k v, string_printable k ∧ payload_representable v) m →
  printable (json_of_map json_of_payload_value m).
Proof.
  intros Hm. apply printable_map. intros k v Hv. destruct (Hm k v Hv) as [Hk Hr]. split; [done|].
  destruct v; simpl in *; [constructor|by apply printable_small|constructor; apply Hr|by constructor].
Qed.

Lemma printable_name {A} (name : A → string) a :
  bool_decide (string_printable (name a)) = true → printable (JsonText (name a)).
Proof. intros H%string_printable_literal. by constructor. Qed.

#[local] Hint Resolve printable_small printable_u32 printable_natural printable_metadata
  printable_payload printable_bool printable_text : json.
#[local] Hint Extern 1 (printable (JsonText (CommandType_toString ?t))) =>
  (apply printable_name; by destruct t) : json.
#[local] Hint Extern 1 (printable (JsonText (CommandPriority_toString ?t))) =>
  (apply printable_name; by destruct t) : json.
#[local] Hint Extern 1 (printable (JsonText (MissionConditionType_toString ?t))) =>
  (apply printable_name; by destruct t) : json.
#[local] Hint Extern 1 (printable (JsonText (comparison_name ?t))) =>
  (apply printable_name; by destruct t) : json.
#[local] Hint Extern 1 (printable (JsonText (action_name ?t))) =>
  (apply printable_name; by destruct t) : json.

Lemma printable_command c : command_representable c → printable (json_of_command c).
Proof. intros (Hid & _ & Hty & Hpr & Hto & Hpl & Hmd). object; auto with json. Qed.

Lemma printable_condition c : condition_representable c → printable (json_of_condition c).
Proof.
  intros (Hid & Hname & Hty & Hcmp & Hop & Hf%i32_small & Hct & Ha & Hmd). object; auto with json.
  unfold operand_representable, json_of_operand in *. destruct (boolean_condition _).
  - constructor.
  - constructor. apply Hop.
Qed.

Lemma printable_list {A} (encode : A → JsonValue) (R : A → Prop) l :
  (∀ a, R a → printable (encode a)) → Forall R l → printable (JsonArray (encode <$> l)).
Proof. intros HR Hl. constructor. rewrite Forall_fmap. by eapply Forall_impl. Qed.

Lemma printable_duration n : bool_decide (small n) = true → printable (json_of_duration n).
Proof. intros Hn%bool_decide_eq_true. object; auto with json. Qed.

Lemma printable_step s : step_representable s → printable (json_of_step s).
Proof.
  intros (Hid & Hname & Hc & Hto & Hr & (Ha & Hd & Hi & Ht) & Hwait & Hdelay & Hcs & Hmd).
  assert (Hretry : printable (json_of_retry (retryPolicy s))) by (object; auto with json).
  assert (Hloop : printable (json_of_loop (loopPolicy s))) by (object; auto with json).
  assert (Htimeout : printable (json_of_timeout (timeoutPolicy s))) by (object; auto with json).
  pose proof (printable_command _ Hc). pose proof (printable_list _ _ _ printable_condition Hcs).
  unfold json_of_step, step_fields.
  destruct (wait s) as [[w]|], (delay s) as [[d]|]; simpl in Hwait, Hdelay;
    cbn [app wait_duration delay_duration]; object; auto using printable_duration with json.
Qed.

Lemma printable_mission m : mission_representable m → printable (json_of_mission m).
Proof.
  intros (Hid & Hname & Hde & Hve & Hau & Hmd & Hss).
  pose proof (printable_list _ _ _ printable_step Hss). object; auto with json.
Qed.

(** C20: a mission that its JSON document can carry ([mission_representable])
    survives the round trip: [ParseJson] reads the text of its document and answers
    that mission with the time of the call as its time stamp; every member of the
    mission, of its steps, commands, policies and conditions is kept. The document
    can carry known enumerations, identifiers, durations and integer parameters
    below 2^53 (above they are rounded, see [JsonUint64_rounds] in MissionLoading.v),
    strings of characters that JSON can escape or need not, numbers whose decimal
    text is read back to them and that are not integers where a parameter is a
    double, and of the operands of a condition the one its type uses, the other
    having its default; it cannot carry the time stamps of commands, which must
    be 0. *)
Theorem ParseJson_print m now :
  mission_representable m →
  ParseJson (print (json_of_mission m)) now =
  Parsed (Success (mkMission (mission_id m) (mission_name m) (description m) (version m) (author m)
                     now (steps m) (mission_metadata m))).
Proof.
  intros Hm. unfold ParseJson. rewrite Parse_print by by apply printable_mission. simpl.
  by rewrite MissionFromJson_read.
Qed.
