(* ===== verification/MissionLines.v ===== *)
(** * YAML documents of missions

    [lines_of_mission m] are the lines of a YAML document of a mission, with
    every member written out.  A mission whose members YAML can carry
    ([mission_writable]) is read back unchanged from their text, whether or
    not it is nested under the key [mission]. *)

From Stdlib Require Import Ascii String SpecFloat.
From S2P Require Import Prelude Command RobotState SafetyValidator CommandValidation Mission Text Json JsonGrammar JsonPrinter MissionJson Yaml YamlPrinter MissionYaml MissionDocument.

Open Scope Z_scope.

(* ------------------------------------------------------------------ *)
(** ** The lines of a mission *)

Definition print_bool (b : bool) : chars := chars_of (if b then "true" else "false").

Definition map_lines {A} (i : nat) (print : A → chars) (m : gmap string A) : list Line :=
  (λ e, (i, field e.1 (print e.2))) <$> map_to_list m.

Definition metadata_lines (i : nat) : gmap string string → list Line := map_lines i print_string.

Definition print_payload (v : CommandPayloadValue) : chars :=
  match v with
  | PayloadBool b => print_bool b
  | PayloadInt n => print_integer n
  | PayloadDouble d => print_double d
  | PayloadString s => print_string s
  end.

Definition command_lines (i : nat) (c : Command) : list Line :=
  [(i, field "id" (print_decimal (id c)));
   (i, field "type" (chars_of (CommandType_toString (type c))));
   (i, field "priority" (chars_of (CommandPriority_toString (priority c))));
   (i, field "timeout_ms" (print_integer (timeout c)));
   (i, nested "payload")] ++ map_lines (i + 2) print_payload (payload c) ++
  (i, nested "metadata") :: metadata_lines (i + 2) (metadata c).

Definition retry_lines (i : nat) (p : RetryPolicy) : list Line :=
  [(i, field "max_attempts" (print_decimal (maxAttempts p)));
   (i, field "delay_ms" (print_integer (delayBetweenAttempts p)));
   (i, field "retry_on_failure" (print_bool (retryOnFailure p)));
   (i, field "retry_on_timeout" (print_bool (retryOnTimeout p)))].

Definition loop_lines (i : nat) (p : LoopPolicy) : list Line :=
  [(i, field "iterations" (print_decimal (iterations p)))].

Definition timeout_lines (i : nat) (p : TimeoutPolicy) : list Line :=
  [(i, field "timeout_ms" (print_integer (policy_timeout p)));
   (i, field "abort_on_timeout" (print_bool (abortOnTimeout p)))].

Definition duration_lines (i : nat) (n : Z) : list Line := [(i, field "duration_ms" (print_integer n))].

(** The lines after the first; both operands are there, each in a field
    [value]. *)
Definition condition_rest (i : nat) (c : MissionCondition) : list Line :=
  [(i + 2, field "name" (print_string (condition_name c)));
   (i + 2, field "type" (chars_of (MissionConditionType_toString (condition_type c))));
   (i + 2, field "comparison" (chars_of (comparison_name (comparison c))));
   (i + 2, field "value" (print_bool (boolValue c)));
   (i + 2, field "value" (print_double (double_of_float (numericValue c))));
   (i + 2, field "fault_code" (print_integer (condition_faultCode c)));
   (i + 2, field "command_type" (chars_of (CommandType_toString (commandType c))));
   (i + 2, field "on_failure" (chars_of (action_name (failureAction c))));
   (i + 2, nested "metadata")]%nat ++ metadata_lines (i + 4) (condition_metadata c).

Definition condition_lines (i : nat) (c : MissionCondition) : list Line :=
  (i, entry (field "id" (print_decimal (condition_id c)))) :: condition_rest i c.

Definition wait_lines (wait : option WaitStep) : list Line :=
  match wait with
  | Some w => (4%nat, nested "wait") :: duration_lines 6 (wait_duration w) | None => [] end.

Definition delay_lines (delay : option DelayStep) : list Line :=
  match delay with
  | Some d => (4%nat, nested "delay") :: duration_lines 6 (delay_duration d) | None => [] end.

Definition step_rest (s : MissionStep) : list Line :=
  [(4, field "name" (print_string (step_name s)));
   (4, field "timeout_ms" (print_integer (step_timeout s)));
   (4, field "retry" (print_decimal (retry s)));
   (4, field "enabled" (print_bool (enabled s)));
   (4, field "skip" (print_bool (skip s)));
   (4, field "abort" (print_bool (abort s)));
   (4, nested "command")]%nat ++ command_lines 6 (step_command s) ++
  (4%nat, nested "retry_policy") :: retry_lines 6 (retryPolicy s) ++
  (4%nat, nested "loop_policy") :: loop_lines 6 (loopPolicy s) ++
  (4%nat, nested "timeout_policy") :: timeout_lines 6 (timeoutPolicy s) ++
  wait_lines (wait s) ++ delay_lines (delay s) ++
  (4%nat, nested "conditions") :: concat (condition_lines 6 <$> conditions s) ++
  (4%nat, nested "metadata") :: metadata_lines 6 (step_metadata s).

Definition step_lines (s : MissionStep) : list Line :=
  (2%nat, entry (field "id" (print_decimal (step_id s)))) :: step_rest s.

Definition mission_lines (m : Mission) : list Line :=
  [(0, field "id" (print_decimal (mission_id m)));
   (0, field "name" (print_string (mission_name m)));
   (0, field "description" (print_string (description m)));
   (0, field "version" (print_string (version m)));
   (0, field "author" (print_string (author m)));
   (0, nested "metadata")]%nat ++ metadata_lines 2 (mission_metadata m) ++
  (0%nat, nested "steps") :: concat (step_lines <$> steps m).

(* ------------------------------------------------------------------ *)
(** ** Writable missions *)

Definition metadata_writable (m : gmap string string) : Prop :=
  map_Forall (λ k s, key_ok k ∧ yaml_string s) m.

(** A string that the parser does not take for a boolean or a number: the
    quotation marks do not keep it from that. *)
Definition payload_writable (v : CommandPayloadValue) : Prop :=
  match v with
  | PayloadBool _ => True
  | PayloadInt n => is_i64 n
  | PayloadDouble d => number_printable d
  | PayloadString s =>
      yaml_string s ∧ s ≠ "true"%string ∧ s ≠ "false"%string ∧
      (∀ n, ParseInt64 (chars_of s) "payload value" ≠ Parsed n) ∧
      (∀ d, ParseDouble (chars_of s) "payload value" ≠ Parsed d)
  end.

Definition command_writable (c : Command) : Prop :=
  is_u64 (id c) ∧ timestamp c = 0 ∧ IsKnownCommandType (type c) = true ∧
  Mission.IsKnownPriority (priority c) = true ∧ is_i64 (timeout c) ∧
  map_Forall (λ k v, key_ok k ∧ payload_writable v) (payload c) ∧ metadata_writable (metadata c).

Definition condition_writable (c : MissionCondition) : Prop :=
  is_u64 (condition_id c) ∧ yaml_string (condition_name c) ∧
  IsKnownConditionType (condition_type c) = true ∧ IsKnownComparison (comparison c) = true ∧
  cast_float (double_of_float (numericValue c)) = numericValue c ∧
  number_printable (double_of_float (numericValue c)) ∧ is_i32 (condition_faultCode c) ∧
  IsKnownCommandType (commandType c) = true ∧ IsKnownFailureAction (failureAction c) = true ∧
  metadata_writable (condition_metadata c).

Definition step_writable (s : MissionStep) : Prop :=
  is_u64 (step_id s) ∧ yaml_string (step_name s) ∧ command_writable (step_command s) ∧
  is_i64 (step_timeout s) ∧ is_u32 (retry s) ∧ is_u32 (maxAttempts (retryPolicy s)) ∧
  is_i64 (delayBetweenAttempts (retryPolicy s)) ∧ is_u32 (iterations (loopPolicy s)) ∧
  is_i64 (policy_timeout (timeoutPolicy s)) ∧
  (∀ w, wait s = Some w → is_i64 (wait_duration w)) ∧
  (∀ d, delay s = Some d → is_i64 (delay_duration d)) ∧
  Forall condition_writable (conditions s) ∧ metadata_writable (step_metadata s).

Definition mission_writable (m : Mission) : Prop :=
  is_u64 (mission_id m) ∧ yaml_string (mission_name m) ∧ yaml_string (description m) ∧
  yaml_string (version m) ∧ yaml_string (author m) ∧ metadata_writable (mission_metadata m) ∧
  Forall step_writable (steps m).

(* ------------------------------------------------------------------ *)
(** ** Scalars that are read back *)

Lemma yaml_named_read {A} (from : string → option A) (name : A → string) a what line :
  plain (chars_of (name a)) → from (name a) = Some a →
  yaml_named from (chars_of (name a)) what line = Parsed a.
Proof. intros Hp Hf. unfold yaml_named. by rewrite YamlString_plain, Hf. Qed.

Lemma CommandType_plain t : plain (chars_of (CommandType_toString t)).
Proof. apply plain_literal. by destruct t. Qed.
Lemma CommandPriority_plain p : plain (chars_of (CommandPriority_toString p)).
Proof. apply plain_literal. by destruct p. Qed.
Lemma ConditionType_plain t : plain (chars_of (MissionConditionType_toString t)).
Proof. apply plain_literal. by destruct t. Qed.
Lemma comparison_plain c : plain (chars_of (comparison_name c)).
Proof. apply plain_literal. by destruct c. Qed.
Lemma action_plain a : plain (chars_of (action_name a)).
Proof. apply plain_literal. by destruct a. Qed.
Lemma print_bool_plain b : plain (print_bool b).
Proof. apply plain_literal. by destruct b. Qed.

Lemma YamlBool_print b name : YamlBool (print_bool b) name = Parsed b.
Proof. unfold YamlBool, print_bool. rewrite YamlString_plain by apply print_bool_plain. by destruct b. Qed.

(** The text of a number is not that of a boolean. *)
Lemma number_not_bool negative ds r :
  digits ds → string_of (print_sign negative ++ ds ++ r) ≠ "true"%string ∧
              string_of (print_sign negative ++ ds ++ r) ≠ "false"%string.
Proof.
  intros Hds. destruct (digits_head _ Hds) as (c & ds' & -> & Hc).
  destruct negative; simpl; split; intros [= ->]; done.
Qed.

Lemma print_double_not_bool d :
  number_printable d → string_of (print_double d) ≠ "true"%string ∧
                       string_of (print_double d) ≠ "false"%string.
Proof.
  unfold number_printable, print_double. destruct (decimal_parts d) as [[negative m] e].
  intros [Hm _]. by apply number_not_bool, print_decimal_digits.
Qed.

Lemma YamlPayloadValue_print v : payload_writable v → YamlPayloadValue (print_payload v) = v.
Proof.
  unfold YamlPayloadValue. destruct v as [b|n|d|s]; simpl.
  - intros _. rewrite YamlScalar_plain by apply print_bool_plain. by destruct b.
  - intros Hn. rewrite YamlScalar_plain by apply print_integer_plain.
    destruct (number_not_bool (n <? 0) (print_decimal (Z.abs n)) []) as [Ht Hf];
      [apply print_decimal_digits; lia|]. rewrite app_nil_r in Ht, Hf.
    unfold print_integer. rewrite !bool_decide_eq_false_2 by done.
    change (print_sign (n <? 0) ++ print_decimal (Z.abs n)) with (print_integer n).
    by rewrite ParseInt64_print.
  - intros Hd. rewrite YamlScalar_plain by by apply print_double_plain.
    destruct (print_double_not_bool d Hd) as [Ht Hf]. rewrite !bool_decide_eq_false_2 by done.
    pose proof (ParseInt64_double d "payload value") as Hi.
    rewrite ParseDouble_print by done.
    destruct (ParseInt64 _ _) as [i| | |]; [by destruct (Hi i)|done..].
  - intros (Hs & Ht & Hf & Hi & Hd). rewrite YamlScalar_string, string_of_chars_of.
    rewrite !bool_decide_eq_false_2 by done.
    destruct (ParseInt64 _ _) as [i| | |]; [by destruct (Hi i)|..];
      (destruct (ParseDouble _ _) as [d| | |]; [by destruct (Hd d)|done..]).
Qed.

(* ------------------------------------------------------------------ *)
(** ** Evaluation of the parser on a line *)

Lemma key_is_same key : key_is key key = true.
Proof. by apply bool_decide_eq_true_2. Qed.

Lemma key_is_other key key' : key ≠ key' → key_is key key' = false.
Proof. apply bool_decide_eq_false_2. Qed.

Lemma require_scalar_tight value m line : tight value → require_scalar value m line = Parsed ().
Proof. intros [(c & s & -> & _) _]. done. Qed.

Lemma require_nested_nil m : require_nested [] m = Parsed ().
Proof. done. Qed.

Lemma tight_nonempty value : tight value → bool_decide (value = []) = false.
Proof. by intros [(c & s & -> & _) _]. Qed.

Lemma plain_tight s : plain s → tight s.
Proof. by intros []. Qed.

Lemma print_decimal_u64 n : is_u64 n → plain (print_decimal n).
Proof. intros [H _]. by apply print_decimal_plain. Qed.

Lemma print_decimal_u32 n : is_u32 n → plain (print_decimal n).
Proof. intros [H _]. by apply print_decimal_plain. Qed.

Create HintDb yaml.
#[export] Hint Resolve plain_tight print_string_tight print_decimal_u64 print_decimal_u32
  print_integer_plain print_bool_plain print_double_plain CommandType_plain CommandPriority_plain
  ConditionType_plain comparison_plain action_plain CommandTypeFromString_read
  PriorityFromString_read ConditionTypeFromString_read ConditionComparisonFromString_read
  FailureActionFromString_read : yaml.
#[export] Hint Extern 1 (key_ok _) => (apply key_ok_literal; vm_compute; reflexivity) : yaml.
#[export] Hint Rewrite SplitYamlKeyValue_field SplitYamlKeyValue_nested require_scalar_tight
  tight_nonempty @yaml_named_read using (solve [auto 3 with yaml]) : yaml.
#[export] Hint Rewrite key_is_same require_nested_nil YamlString_string YamlBool_print : yaml.
#[export] Hint Rewrite key_is_other using discriminate : yaml.
#[export] Hint Rewrite ParseUint64_print ParseUint32_print ParseInt64_print ParseDouble_print
  using done : yaml.

Ltac evaluate := cbv beta;
  repeat (progress (autorewrite with yaml; cbn [mbind Parse_bind fmap Parse_fmap negb orb])).

(** The next line is consumed by the loop. *)
Ltac enter := eapply runs_enter;
  [first [apply fields_at_enter|reflexivity]|evaluate; reflexivity|done|].

(* ------------------------------------------------------------------ *)
(** ** Maps *)

Section MapLines.
Context {A : Type} (base i : nat) (position : nat → YamlLine → Position) (print : A → chars).
Context (round : YamlLine → list YamlLine → gmap string A → Parse (gmap string A * list YamlLine)).

Lemma entry_lines_runs l acc tail n :
  Forall (λ e, ∀ n rest acc,
    position i (mkYamlLine (base + i) (field e.1 (print e.2)) n) = Enter ∧
    round (mkYamlLine (base + i) (field e.1 (print e.2)) n) rest acc =
      Parsed (map_emplace e.1 e.2 acc, rest)) l →
  NoDup l.*1 → (∀ k, k ∈ l.*1 → acc !! k = None) →
  (∀ acc, runs base position round tail acc acc tail) →
  runs base position round
    (number_lines base n ((λ e, (i, field e.1 (print e.2))) <$> l) ++ tail) acc
    (list_to_map l ∪ acc) tail.
Proof.
  intros Hl. revert n acc. induction Hl as [|[k a] l He _ IH]; intros n acc Hnd Hacc Ht; simpl.
  - rewrite map_empty_union. apply Ht.
  - simpl in *. apply NoDup_cons in Hnd as [Hk Hnd].
    eapply runs_enter; [apply (He n [] ∅)|apply He|done|].
    unfold map_emplace. rewrite Hacc by left.
    rewrite <-insert_union_l, (insert_union_r _ acc) by by apply not_elem_of_list_to_map_1.
    apply IH; [done| |done]. intros k' Hk'. rewrite lookup_insert_ne by (by intros <-). apply Hacc. by right.
Qed.

Lemma map_lines_runs m tail n :
  map_Forall (λ k a, ∀ n rest acc,
    position i (mkYamlLine (base + i) (field k (print a)) n) = Enter ∧
    round (mkYamlLine (base + i) (field k (print a)) n) rest acc =
      Parsed (map_emplace k a acc, rest)) m →
  (∀ acc, runs base position round tail acc acc tail) →
  runs base position round (number_lines base n (map_lines i print m) ++ tail) ∅ m tail.
Proof.
  intros Hm Ht. unfold map_lines.
  replace m with (list_to_map (map_to_list m) ∪ ∅ : gmap string A) at 2.
  2: { by rewrite map_union_empty, list_to_map_to_list. }
  apply entry_lines_runs; [|apply NoDup_fst_map_to_list|done|done].
  apply Forall_forall. intros [k a] He%elem_of_map_to_list. by apply (Hm k a).
Qed.
End MapLines.

(** The two fields [value] of a condition. *)
Lemma value_bool b :
  key_is (YamlString (print_bool b)) "true" || key_is (YamlString (print_bool b)) "false" = true.
Proof. unfold print_bool. rewrite YamlString_plain by apply print_bool_plain. by destruct b. Qed.

Lemma value_double d :
  number_printable d →
  key_is (YamlString (print_double d)) "true" || key_is (YamlString (print_double d)) "false" = false.
Proof.
  intros Hd. unfold YamlString. rewrite YamlScalar_plain by by apply print_double_plain.
  destruct (print_double_not_bool d Hd) as [Ht Hf]. by rewrite !key_is_other.
Qed.

#[export] Hint Rewrite value_bool : yaml.
#[export] Hint Rewrite value_double using done : yaml.

Lemma first_field_read {A} m (apply : A → string → chars → YamlLine → Parse A) i key value n a :
  key_ok key → tight value →
  first_field m apply (mkYamlLine i (entry (field key value)) n) a =
  apply a key value (mkYamlLine i (entry (field key value)) n).
Proof.
  intros Hk Hv. unfold first_field, entry. cbn [content drop]. rewrite drop_0.
  assert (Ht : tight (field key value)) by by apply (tight_app _ _ (proj1 Hk) Hv [":"%char; " "%char]).
  rewrite Trim_tight, tight_nonempty, SplitYamlKeyValue_field by done. cbn [mbind Parse_bind].
  by rewrite tight_nonempty.
Qed.

Lemma bind_Parsed {A B} (x : Parse A) (f : A → Parse B) a y :
  x = Parsed a → f a = y → x ≫= f = y.
Proof. by intros ->. Qed.

Lemma below_line base i j c n ls tail :
  (j < i)%nat → below base i (number_lines base n ((j, c) :: ls) ++ tail).
Proof. intros Hj. by exists j. Qed.

Lemma below_cons base i j c n tail : (j < i)%nat → below base i (mkYamlLine (base + j) c n :: tail).
Proof. intros Hj. by exists j. Qed.

Lemma below_optional base i n ls tail :
  Forall (λ l, (l.1 < i)%nat) (take 1 ls) → below base i tail → below base i (number_lines base n ls ++ tail).
Proof.
  intros Hl Ht. destruct ls as [|[j c] ls]; [done|]. apply Forall_inv in Hl. by apply below_line.
Qed.

Lemma below_wait base n o tail :
  below base 6 tail → below base 6 (number_lines base n (wait_lines o) ++ tail).
Proof. intros Ht. apply below_optional; [|done]. destruct o; by repeat constructor. Qed.

Lemma below_delay base n o tail :
  below base 6 tail → below base 6 (number_lines base n (delay_lines o) ++ tail).
Proof. intros Ht. apply below_optional; [|done]. destruct o; by repeat constructor. Qed.

(** Solves [below]: the tail starts with a known line, or is that of the
    statement. *)
Ltac is_below :=
  first [eassumption|exact I|apply below_cons; lia|apply below_line; lia|eapply below_le; [|eassumption]; lia].

Ltac is_below_wait := repeat first [apply below_wait|apply below_delay]; is_below.

(** A line before nested lines, which the function of the lemma [read] reads. *)
Ltac enter_nested read := eapply runs_enter;
  [first [apply fields_at_enter|reflexivity]
  |evaluate; eapply bind_Parsed; [apply read; first [assumption|is_below_wait]|evaluate; reflexivity]
  |rewrite ?length_app, ?length_number_lines; simpl; lia|].

(** The same for the loop over the fields of a step. *)
Ltac enter_step := eapply runs_enter;
  [reflexivity|unfold step_round at 1, ApplyYamlStepField; evaluate; reflexivity|done|].

Ltac enter_nested_step read := eapply runs_enter;
  [reflexivity
  |unfold step_round at 1; evaluate; eapply bind_Parsed; [apply read; first [assumption|is_below_wait]|evaluate; reflexivity]
  |rewrite ?length_app, ?length_number_lines; simpl; lia|].

(** The end of the lines of a mapping. *)
Ltac finish := match goal with
  | |- runs ?base ?p ?r ?tail ?a ?a' ?tail => replace a' with a;
      [eapply runs_below; [|eassumption]; intros; try (by apply fields_at_below)|]
  end.

Section Read.
Context (base : nat).

Lemma ParseYamlStringMap_read i m tail n :
  metadata_writable m → below base i tail →
  ParseYamlStringMap base i (number_lines base n (metadata_lines i m) ++ tail) ∅ = Parsed (m, tail).
Proof.
  intros Hm Ht. apply (runs_loop base), map_lines_runs.
  - intros k s Hs n' rest acc. destruct (Hm k s Hs) as [Hk Hsok]. split.
    + cbv beta. rewrite fields_at_enter. by rewrite is_entry_field.
    + evaluate. reflexivity.
  - intros acc. apply (runs_below _ _ _ i); [|done]. intros j line Hj. by rewrite fields_at_below.
Qed.

Lemma print_payload_tight v : payload_writable v → tight (print_payload v).
Proof. destruct v; simpl; auto with yaml. Qed.

Lemma ParseYamlPayload_read i m tail n :
  map_Forall (λ k v, key_ok k ∧ payload_writable v) m → below base i tail →
  ParseYamlPayload base i (number_lines base n (map_lines i print_payload m) ++ tail) ∅ = Parsed (m, tail).
Proof.
  intros Hm Ht. apply (runs_loop base), map_lines_runs.
  - intros k v Hv n' rest acc. destruct (Hm k v Hv) as [Hk Hvw]. split; [apply fields_at_enter|].
    cbv beta. rewrite SplitYamlKeyValue_field by auto using print_payload_tight. cbn [mbind Parse_bind].
    rewrite require_scalar_tight by auto using print_payload_tight. cbn [mbind Parse_bind].
    by rewrite YamlPayloadValue_print.
  - intros acc. apply (runs_below _ _ _ i); [|done]. intros j line Hj. by apply fields_at_below.
Qed.

Lemma ParseYamlCommand_read i c tail n :
  command_writable c → below base i tail →
  ParseYamlCommand base i (number_lines base n (command_lines i c) ++ tail) default_Command =
  Parsed (c, tail).
Proof.
  intros (Hid & Hts & Hty & Hpr & Hto & Hpl & Hmd) Ht. apply (runs_loop base).
  unfold command_lines. cbn [number_lines app]. unfold ApplyYamlCommandField.
  do 4 enter. rewrite number_lines_app, <-app_assoc.
  enter_nested ParseYamlPayload_read. cbn [number_lines app].
  enter_nested ParseYamlStringMap_read. finish. destruct c. simpl in *. by subst.
Qed.

Lemma ParseYamlRetryPolicy_read i p tail n :
  is_u32 (maxAttempts p) → is_i64 (delayBetweenAttempts p) → below base i tail →
  ParseYamlRetryPolicy base i (number_lines base n (retry_lines i p) ++ tail) default_RetryPolicy =
  Parsed (p, tail).
Proof.
  intros Ha Hd Ht. apply (runs_loop base). unfold retry_lines. cbn [number_lines app].
  do 4 enter. finish. by destruct p.
Qed.

Lemma ParseYamlLoopPolicy_read i p tail n :
  is_u32 (iterations p) → below base i tail →
  ParseYamlLoopPolicy base i
    (number_lines base n (loop_lines i p) ++ tail)
    default_LoopPolicy = Parsed (p, tail).
Proof.
  intros Hi Ht. apply (runs_loop base). unfold loop_lines, only_field. cbn [number_lines app].
  enter. finish. by destruct p.
Qed.

Lemma ParseYamlTimeoutPolicy_read i p tail n :
  is_i64 (policy_timeout p) → below base i tail →
  ParseYamlTimeoutPolicy base i (number_lines base n (timeout_lines i p) ++ tail)
    default_TimeoutPolicy = Parsed (p, tail).
Proof.
  intros Hi Ht. apply (runs_loop base). unfold timeout_lines. cbn [number_lines app].
  do 2 enter. finish. by destruct p.
Qed.

Lemma ParseYamlWaitStep_read i w tail n :
  is_i64 (wait_duration w) → below base i tail →
  ParseYamlWaitStep base i (number_lines base n (duration_lines i (wait_duration w)) ++ tail)
    (mkWaitStep 0) = Parsed (w, tail).
Proof.
  intros Hi Ht. apply (runs_loop base). unfold duration_lines, only_field. cbn [number_lines app].
  enter. finish. by destruct w.
Qed.

Lemma ParseYamlDelayStep_read i d tail n :
  is_i64 (delay_duration d) → below base i tail →
  ParseYamlDelayStep base i (number_lines base n (duration_lines i (delay_duration d)) ++ tail)
    (mkDelayStep 0) = Parsed (d, tail).
Proof.
  intros Hi Ht. apply (runs_loop base). unfold duration_lines, only_field. cbn [number_lines app].
  enter. finish. by destruct d.
Qed.
End Read.

(* ------------------------------------------------------------------ *)
(** ** Reading the YAML documents of missions

    The conditions, the steps and the whole of the document of MissionLines.v
    are read back. *)

Section Read.
Context (base : nat).

(** The tail of a condition: another entry, or the end of the sequence. *)
Definition after_entry (i : nat) (tail : list YamlLine) : Prop :=
  below base i tail ∨
  ∃ s n rest, tail = mkYamlLine (base + i) (entry s) n :: rest.

Lemma after_entry_below i tail : after_entry i tail → below base (S i) tail.
Proof.
  intros [Ht|(s & n & rest & ->)]; [by eapply below_le; [|exact Ht]; lia|]. exists i. simpl. split; [done|lia].
Qed.

Lemma after_entry_runs {A} i position round tail (a : A) :
  (∀ j line, (j < i)%nat → position j line = Leave) →
  (∀ s n, position i (mkYamlLine (base + i) (entry s) n) = Leave) →
  after_entry i tail → runs base position round tail a a tail.
Proof.
  intros Hb He [Ht|(s & n & rest & ->)]; [by eapply runs_below|]. by apply runs_leave.
Qed.

Lemma ParseYamlCondition_read c tail n n' :
  condition_writable c → after_entry 6 tail →
  ParseYamlCondition base 6
    (mkYamlLine (base + 6) (entry (field "id" (print_decimal (condition_id c)))) n)
    (number_lines base n' (condition_rest 6 c) ++ tail) = Parsed (c, tail).
Proof.
  intros (Hid & Hname & Hty & Hcmp & Hn & Hnp & Hf & Hct & Ha & Hmd) Ht.
  assert (Hf' : is_i64 (condition_faultCode c)) by (unfold is_i32, is_i64 in *; lia).
  pose proof (after_entry_below _ _ Ht) as Hb.
  unfold ParseYamlCondition. rewrite first_field_read by auto with yaml.
  unfold ApplyYamlConditionField. evaluate. apply (runs_loop base).
  unfold condition_rest. cbn [number_lines app].
  do 8 enter. enter_nested ParseYamlStringMap_read. rewrite Hn, cast_int32_small by done.
  match goal with |- runs _ _ _ _ ?a ?c _ => replace a with c by by destruct c end.
  apply (after_entry_runs 6); [|done..].
  intros j line Hj. destruct (Nat.ltb_spec j 6); [done|lia].
Qed.

Lemma entries_at_below i m j line : (j < i)%nat → entries_at i m j line = Leave.
Proof. intros Hj. unfold entries_at. destruct (Nat.ltb_spec j i); [done|lia]. Qed.

Lemma entries_at_enter i m s n : entries_at i m i (mkYamlLine (base + i) (entry s) n) = Enter.
Proof. unfold entries_at. by rewrite Nat.ltb_irrefl, Nat.eqb_refl. Qed.

(** A sequence of entries, each of a first line and its rest. *)
Lemma entries_runs {A} i m (first : A → chars) (more : A → list Line)
    (parse : YamlLine → list YamlLine → Parse (A * list YamlLine)) (R : A → Prop) l tail n acc :
  (∀ a tail n n', R a → after_entry i tail →
    parse (mkYamlLine (base + i) (entry (first a)) n) (number_lines base n' (more a) ++ tail) =
    Parsed (a, tail)) →
  Forall R l → below base i tail →
  runs base (entries_at i m)
    (λ line rest l, '(a, rest) ← parse line rest; Parsed (l ++ [a], rest))
    (number_lines base n (concat ((λ a, (i, entry (first a)) :: more a) <$> l)) ++ tail)
    acc (acc ++ l) tail.
Proof.
  intros Hparse Hl Ht. revert n acc. induction Hl as [|a l Ha Hl IH]; intros n acc.
  - rewrite app_nil_r. apply (runs_below _ _ _ i); [|done]. intros. by apply entries_at_below.
  - simpl. rewrite number_lines_app, <-app_assoc. eapply runs_enter.
    + apply entries_at_enter.
    + rewrite Hparse; [reflexivity|done|]. destruct l as [|b l]; [by left|].
      right. simpl. by do 3 eexists.
    + rewrite (length_app (number_lines _ _ (more a))). lia.
    + change (a :: l) with ([a] ++ l). rewrite (app_assoc acc). apply IH.
Qed.

Lemma ParseYamlConditions_read cs tail n :
  Forall condition_writable cs → below base 6 tail →
  ParseYamlConditions base 6 (number_lines base n (concat (condition_lines 6 <$> cs)) ++ tail) [] =
  Parsed (cs, tail).
Proof.
  intros Hcs Ht. apply (runs_loop base).
  apply (entries_runs 6 _ (λ c, field "id" (print_decimal (condition_id c))) (condition_rest 6)
           (ParseYamlCondition base 6) condition_writable cs tail n []); [|done..].
  intros. by apply ParseYamlCondition_read.
Qed.

(** The lines that a step may lack. *)
Lemma wait_runs o s tail n s' rest :
  wait s = None → (∀ w, o = Some w → is_i64 (wait_duration w)) → below base 6 tail →
  runs base step_position (step_round base) tail (s <| wait := o |>) s' rest →
  runs base step_position (step_round base) (number_lines base n (wait_lines o) ++ tail) s s' rest.
Proof.
  intros Hs Ho Ht H. destruct o as [w|].
  - pose proof (Ho w eq_refl). cbn [wait_lines number_lines app]. unfold step_round at 1.
    by enter_nested ParseYamlWaitStep_read.
  - replace (s <| wait := None |>) with s in H; [done|]. destruct s. simpl in *. by subst.
Qed.

Lemma delay_runs o s tail n s' rest :
  delay s = None → (∀ d, o = Some d → is_i64 (delay_duration d)) → below base 6 tail →
  runs base step_position (step_round base) tail (s <| delay := o |>) s' rest →
  runs base step_position (step_round base) (number_lines base n (delay_lines o) ++ tail) s s' rest.
Proof.
  intros Hs Ho Ht H. destruct o as [d|].
  - pose proof (Ho d eq_refl). cbn [delay_lines number_lines app]. unfold step_round at 1.
    by enter_nested ParseYamlDelayStep_read.
  - replace (s <| delay := None |>) with s in H; [done|]. destruct s. simpl in *. by subst.
Qed.

Lemma ParseYamlStep_read s tail n n' :
  step_writable s → after_entry 2 tail →
  ParseYamlStep base (mkYamlLine (base + 2) (entry (field "id" (print_decimal (step_id s)))) n)
    (number_lines base n' (step_rest s) ++ tail) = Parsed (s, tail).
Proof.
  intros (Hid & Hname & Hc & Hto & Hr & Ha & Hd & Hi & Ht & Hw & Hde & Hcs & Hmd) Htail.
  pose proof (after_entry_below _ _ Htail) as Hb.
  unfold ParseYamlStep. rewrite first_field_read by auto with yaml.
  unfold ApplyYamlStepField. evaluate. apply (runs_loop base).
  unfold step_rest. repeat (progress (cbn [number_lines app]; rewrite ?number_lines_app, <-?app_assoc)).
  do 6 enter_step.
  enter_nested_step ParseYamlCommand_read. enter_nested_step ParseYamlRetryPolicy_read.
  enter_nested_step ParseYamlLoopPolicy_read. enter_nested_step ParseYamlTimeoutPolicy_read.
  apply wait_runs; [done|done|is_below_wait|].
  apply delay_runs; [done|done|is_below_wait|].
  enter_nested_step ParseYamlConditions_read. enter_nested_step ParseYamlStringMap_read.
  match goal with |- runs _ _ _ _ ?a ?c _ => replace a with c by by destruct c end.
  apply (after_entry_runs 2); [|done..].
  intros j line Hj. unfold step_position. destruct (Nat.ltb_spec j 4); [done|lia].
Qed.

Lemma ParseYamlSteps_read ss tail n :
  Forall step_writable ss → below base 2 tail →
  ParseYamlSteps base (number_lines base n (concat (step_lines <$> ss)) ++ tail) [] = Parsed (ss, tail).
Proof.
  intros Hss Ht. apply (runs_loop base).
  apply (entries_runs 2 _ (λ s, field "id" (print_decimal (step_id s))) step_rest
           (ParseYamlStep base) step_writable ss tail n []); [|done..].
  intros. by apply ParseYamlStep_read.
Qed.

Lemma mission_loop_read m n :
  mission_writable m →
  mission_loop base (number_lines base n (mission_lines m)) default_Mission =
  Parsed (m <| mission_timestamp := 0 |>, []).
Proof.
  intros (Hid & Hname & Hde & Hve & Hau & Hmd & Hss).
  rewrite <-(app_nil_r (number_lines base n (mission_lines m))).
  apply (runs_loop base). unfold mission_lines, mission_round, ApplyYamlMissionField.
  repeat (progress (cbn [number_lines app]; rewrite ?number_lines_app, <-?app_assoc)).
  do 5 enter. enter_nested ParseYamlStringMap_read. enter_nested ParseYamlSteps_read.
  match goal with |- runs _ _ _ _ ?a ?c _ => replace a with c by by destruct m end.
  apply runs_nil.
Qed.
End Read.
