(* ===== verification/MissionRoundtrip.v ===== *)
(** * The round trip of missions through YAML

    The lines of a document are read back from their text, with the mission
    they describe. *)

From Stdlib Require Import Ascii String SpecFloat.
From S2P Require Import Prelude Command RobotState SafetyValidator CommandValidation.
From S2P Require Import Mission Text Json JsonGrammar JsonPrinter MissionJson Yaml YamlPrinter.
From S2P Require Import MissionYaml MissionDocument MissionLines.

Open Scope Z_scope.

(* ------------------------------------------------------------------ *)
(** ** The text of the document *)

Section LineOk.
Context (i : nat) (Hi : (i mod 2 = 0)%nat).

Lemma field_plain_ok key value : key_ok key → plain value → line_ok (i, field key value).
Proof. intros Hk Hv. apply field_ok; [done..| |by apply plain_clean]. apply Hv. Qed.

Lemma field_string_ok key s : key_ok key → yaml_string s → line_ok (i, field key (print_string s)).
Proof.
  intros Hk Hs. apply field_ok; [done..| |by apply print_string_clean]. apply print_string_tight.
Qed.
End LineOk.

#[local] Hint Resolve field_plain_ok field_string_ok nested_ok entry_ok : yaml.
#[local] Hint Extern 1 (_ mod _ = _)%nat => reflexivity : yaml.

Ltac lines_ok :=
  repeat match goal with
  | |- Forall _ (_ :: _) => apply Forall_cons_2
  | |- Forall _ (_ ++ _) => apply Forall_app; split
  | |- Forall _ [] => apply Forall_nil_2
  end; auto 6 with yaml.

Lemma map_lines_ok {A} i (print : A → chars) m :
  (i mod 2 = 0)%nat → map_Forall (λ k a, key_ok k ∧ tight (print a) ∧ clean (print a)) m →
  Forall line_ok (map_lines i print m).
Proof.
  intros Hi Hm. unfold map_lines. rewrite Forall_fmap, Forall_forall.
  intros [k a] He%elem_of_map_to_list. destruct (Hm k a He) as (Hk & Ht & Hc). by apply field_ok.
Qed.

Lemma metadata_lines_ok i m : (i mod 2 = 0)%nat → metadata_writable m → Forall line_ok (metadata_lines i m).
Proof.
  intros Hi Hm. apply map_lines_ok; [done|]. intros k s Hs. destruct (Hm k s Hs) as [Hk Hy].
  split_and!; [done|apply print_string_tight|by apply print_string_clean].
Qed.

Lemma payload_lines_ok i m :
  (i mod 2 = 0)%nat → map_Forall (λ k v, key_ok k ∧ payload_writable v) m →
  Forall line_ok (map_lines i print_payload m).
Proof.
  intros Hi Hm. apply map_lines_ok; [done|]. intros k v Hv. destruct (Hm k v Hv) as [Hk Hy].
  split; [done|]. destruct v as [b|z|d|s]; simpl in *.
  - split; [apply plain_tight|apply plain_clean]; apply print_bool_plain.
  - split; [apply plain_tight|apply plain_clean]; apply print_integer_plain.
  - split; [apply plain_tight|apply plain_clean]; by apply print_double_plain.
  - split; [apply print_string_tight|by apply print_string_clean, Hy].
Qed.

#[local] Hint Resolve metadata_lines_ok payload_lines_ok : yaml.

Lemma command_lines_ok c : command_writable c → Forall line_ok (command_lines 6 c).
Proof.
  intros (Hid & Hts & Hty & Hpr & Hto & Hpl & Hmd). unfold command_lines.
  lines_ok.
Qed.

Lemma condition_lines_ok c : condition_writable c → Forall line_ok (condition_lines 6 c).
Proof.
  intros (Hid & Hname & Hty & Hcmp & Hn & Hnp & Hf & Hct & Ha & Hmd). unfold condition_lines, condition_rest.
  cbn [app]. lines_ok.
Qed.

Lemma step_lines_ok s : step_writable s → Forall line_ok (step_lines s).
Proof.
  intros (Hid & Hname & Hc & Hto & Hr & Ha & Hd & Hi & Ht & Hw & Hde & Hcs & Hmd).
  pose proof (command_lines_ok _ Hc) as Hcl.
  assert (Forall line_ok (concat (condition_lines 6 <$> conditions s))) as Hcsl.
  { apply Forall_concat, Forall_fmap. eapply Forall_impl; [exact Hcs|apply condition_lines_ok]. }
  assert (Forall line_ok (wait_lines (wait s))) by (destruct (wait s); unfold wait_lines, duration_lines; lines_ok).
  assert (Forall line_ok (delay_lines (delay s))) by (destruct (delay s); unfold delay_lines, duration_lines; lines_ok).
  unfold step_lines, step_rest, retry_lines, loop_lines, timeout_lines. cbn [app].
  lines_ok.
Qed.

Lemma mission_lines_ok m : mission_writable m → Forall line_ok (mission_lines m).
Proof.
  intros (Hid & Hname & Hde & Hve & Hau & Hmd & Hss). unfold mission_lines. cbn [app].
  assert (Forall line_ok (concat (step_lines <$> steps m))).
  { apply Forall_concat, Forall_fmap. eapply Forall_impl; [exact Hss|apply step_lines_ok]. }
  lines_ok.
Qed.

(** The lines under the key [mission]. *)
Definition under_mission (ls : list Line) : list Line :=
  (0%nat, nested "mission") :: ((λ l, ((2 + l.1)%nat, l.2)) <$> ls).

Lemma number_under n ls : number_lines 0 n ((λ l, ((2 + l.1)%nat, l.2)) <$> ls) = number_lines 2 n ls.
Proof. revert n. induction ls as [|[i c] ls IH]; intros n; simpl; [done|]. by rewrite IH. Qed.

Lemma under_mission_ok ls : Forall line_ok ls → Forall line_ok (under_mission ls).
Proof.
  intros Hls. apply Forall_cons_2; [by auto with yaml|]. rewrite Forall_fmap.
  eapply Forall_impl; [exact Hls|]. intros [i c] (Hi & Ht & Hc). split_and!; cbn [fst snd] in *; [|done..].
  rewrite Nat.Div0.add_mod, Hi. done.
Qed.

(** The two places of the document. *)
Lemma MissionFromLines_margin m now :
  mission_writable m →
  MissionFromLines (number_lines 0 1 (mission_lines m)) now = Parsed (m <| mission_timestamp := now |>).
Proof.
  intros Hm. pose proof (mission_loop_read 0 m 1 Hm) as H.
  destruct (number_lines 0 1 (mission_lines m)) as [|first rest] eqn:E; [done|].
  assert (Hc : content first ≠ chars_of "mission:") by by injection E as <- _.
  unfold MissionFromLines. rewrite (bool_decide_eq_false_2 _ Hc), andb_false_r, H. done.
Qed.

Lemma MissionFromLines_under m now :
  mission_writable m →
  MissionFromLines (number_lines 0 1 (under_mission (mission_lines m))) now =
  Parsed (m <| mission_timestamp := now |>).
Proof.
  intros Hm. unfold under_mission, MissionFromLines. cbn [number_lines]. rewrite number_under.
  replace (_ && _) with true by done. by rewrite mission_loop_read.
Qed.

(** C9: a mission that its YAML document can carry ([mission_writable]) survives
    the round trip: [ParseYaml] reads the text of its lines, at the left margin or
    under the key [mission], and answers that mission with the time of the call as
    its time stamp. The document can carry known enumerations, integers over the
    whole range of their types, numbers whose decimal text is read back to them,
    strings without quotation marks, tabs and line feeds, and keys of metadata and
    parameters without these, comments, colons and blanks at their ends; it cannot
    carry the time stamps of commands, which must be 0, nor string parameters that
    read as a boolean or a number: quotation marks do not keep them from that (see
    [YamlPayloadValue_quoted] in MissionLoading.v). *)
Theorem ParseYaml_print m now :
  mission_writable m →
  let answer := Parsed (Success (m <| mission_timestamp := now |>)) in
  ParseYaml (print_lines (mission_lines m)) now = answer ∧
  ParseYaml (print_lines (under_mission (mission_lines m))) now = answer.
Proof.
  intros Hm answer. pose proof (mission_lines_ok m Hm) as Hok. unfold ParseYaml, MissionFromYaml.
  rewrite !YamlLines_print by auto using under_mission_ok. cbn [mbind Parse_bind].
  by rewrite MissionFromLines_margin, MissionFromLines_under.
Qed.
