(* ===== verification/MissionLoading.v ===== *)
(** * Loading missions

    The theorems on MissionParser.cpp and MissionLoader.cpp with their
    witnesses: what the parsers answer on any document, what a mission that
    was loaded satisfies, and the round trips on a mission. *)

From Stdlib Require Import Ascii String SpecFloat.
From S2P Require Import Prelude Command RobotState SafetyValidator CommandValidation.
From S2P Require Import Mission MissionProofs Text Json JsonGrammar JsonPrinter MissionJson Doubles.
From S2P Require Import Yaml YamlPrinter MissionYaml MissionTyping MissionDocument MissionLines MissionRoundtrip.

Open Scope Z_scope.

(** The numbers of a document are finite. *)
Lemma json_text_finite :
  (∀ v t, json_text v t → Forall (λ d, isfinite d = true) (numbers v)) ∧
  (∀ fields t, members_text fields t → Forall (λ d, isfinite d = true) (numbers (JsonObject fields))) ∧
  (∀ values t, elements_text values t → Forall (λ d, isfinite d = true) (numbers (JsonArray values))).
Proof.
  apply json_text_induction; simpl; intros; rewrite ?app_nil_r; try done; try by apply Forall_app.
  repeat constructor. destruct H. by eapply from_decimal_finite.
Qed.

(** What a parser promises of its result. *)
Definition result_typed (now : Z) (r : MissionParseResult) : Prop :=
  parse_success r = true →
  mission_typed (parsed_mission r) ∧ mission_timestamp (parsed_mission r) = now.

Lemma ParseYaml_typed document now : ∃ r, ParseYaml document now = Parsed r ∧ result_typed now r.
Proof.
  pose proof (MissionFromYaml_outcome document now) as H. unfold ParseYaml.
  destruct (MissionFromYaml document now) as [m|e| |]; try done; simpl in *; eexists; (split; [done|]);
    intros Hs; done.
Qed.

Lemma ParseJson_typed document now :
  outcome (∃ v d, document_text v document ∧ d ∈ numbers v ∧ unfit d = true) (result_typed now)
    (ParseJson document now).
Proof.
  unfold ParseJson. pose proof (Parse_json_answers mission_dialect document) as Ha.
  destruct (Parse_json mission_dialect document) as [v|e| |] eqn:E; try done. simpl.
  apply Parse_json_sound in E as (w1 & t & w2 & -> & Hw1 & Hw2 & Ht).
  pose proof (proj1 json_text_finite v t Ht) as Hfin.
  assert (Hm : outcome (∃ d, d ∈ numbers v ∧ unfit d = true)
                 (λ m, mission_typed m ∧ mission_timestamp m = now) (MissionFromJson v now)).
  { apply (MissionFromJson_outcome (λ d, d ∈ numbers v ∧ isfinite d = true)).
    - by intros d [].
    - intros d [Hd _] Hu. by exists d.
    - apply Forall_forall. intros d Hd. rewrite Forall_forall in Hfin. auto. }
  destruct (MissionFromJson v now) as [m|e| |]; simpl in *; [by intros _|done| |done].
  destruct Hm as (d & Hd & Hu). exists v, d. split; [by exists w1, t, w2|done].
Qed.

(** C18: [ParseYaml] answers on every document, and [ParseJson] unless the
    document holds a number that passes [IsInteger] and does not fit in 64
    bits. Neither ever runs out of fuel. A mission that is answered is typed:
    identifiers, counts, durations and codes are in the ranges of their C++
    types, enumerations are constants, payload numbers are finite, and the
    time stamp is the time of the call. *)
Theorem MissionParser_typed document now :
  (∃ r, ParseYaml document now = Parsed r ∧ result_typed now r) ∧
  match ParseJson document now with
  | Parsed r => result_typed now r
  | Undefined => ∃ v d, document_text v document ∧ d ∈ numbers v ∧ unfit d = true
  | ParseError _ | Exhausted => False
  end.
Proof.
  split; [apply ParseYaml_typed|]. pose proof (ParseJson_typed document now) as H.
  unfold ParseJson, catch_parse_error in *. by destruct (_ ≫= _).
Qed.

(** C6: what the loader accepts may be executed. A mission that [LoadJson] or
    [LoadYaml] answers with success is typed, satisfies the schema of the
    validator, is valid for the executor, and was read at the time of the
    call; when loading fails, no mission but that of an invalid document is
    answered, with the diagnostic of the validator. *)
Theorem MissionLoader_sound document now r :
  LoadJson document now = Parsed r ∨ LoadYaml document now = Parsed r →
  if load_success r then
    mission_typed (loaded_mission r) ∧ mission_schema (loaded_mission r) ∧
    Mission_isValid (loaded_mission r) = true ∧ mission_timestamp (loaded_mission r) = now
  else
    loaded_mission r = default_Mission ∨
    valid (ValidateMission (loaded_mission r)) = false ∧
    load_message r = validation_message (ValidateMission (loaded_mission r)).
Proof.
  destruct (ParseYaml_typed document now) as (ry & Ey & Hy).
  pose proof (ParseJson_typed document now) as Hj. intros H.
  cut (∃ p, r = ValidateParsedMission p ∧ result_typed now p).
  { intros (p & -> & Hp). unfold ValidateParsedMission. destruct (parse_success p) eqn:Es; simpl; [|by left].
    destruct (valid (ValidateMission (parsed_mission p))) eqn:Ev; simpl; [|by right].
    destruct (Hp Es) as [Ht Hn]. apply ValidateMission_schema in Ev.
    split_and!; auto using mission_schema_isValid. }
  destruct H as [H|H].
  - unfold LoadJson in H. destruct (ParseJson document now) as [p| | |]; simplify_eq/=. eauto.
  - unfold LoadYaml in H. rewrite Ey in H. simplify_eq/=. eauto.
Qed.

(* ------------------------------------------------------------------ *)
(** ** Witnesses *)

(** 0.5 and 20.0f *)
Definition half : spec_float := S754_finite false 4503599627370496 (-53).
Definition twenty : float32 := S754_finite false 10485760 (-19).

Definition sample_command : Command :=
  {| id := 1001; timestamp := 0; type := TypeVelocity; priority := PriorityHigh; timeout := 250;
     payload := {[ "linear_x" := PayloadDouble half ]}; metadata := {[ "origin" := "unit-test" ]} |}.

Definition sample_condition : MissionCondition :=
  default_MissionCondition <| condition_id := 7 |> <| condition_name := "Battery available" |>
    <| condition_type := ConditionBatteryLevel |> <| comparison := GreaterThanOrEqual |>
    <| numericValue := twenty |>.

Definition sample_step : MissionStep :=
  default_MissionStep <| step_id := 1 |> <| step_name := "Walk" |> <| step_command := sample_command |>
    <| step_timeout := 500 |> <| retry := 1 |> <| wait := Some (mkWaitStep 5) |>
    <| conditions := [sample_condition] |> <| step_metadata := {[ "phase" := "safety" ]} |>.

Definition sample_mission : Mission :=
  default_Mission <| mission_id := 101 |> <| mission_name := "Sample mission" |>
    <| description := "Loaded" |> <| version := "1.0.0" |> <| author := "humanoid-core" |>
    <| steps := [sample_step] |> <| mission_metadata := {[ "source" := "unit-test" ]} |>.

Ltac decided := apply (bool_decide_unpack _); vm_compute; exact I.
Ltac ranges := unfold natural, small, is_u64, is_i64, Text.is_u32, is_u32, is_i32, u64_modulus; simpl; lia.

Lemma sample_representable : mission_representable sample_mission.
Proof.
  assert (Hc : command_representable sample_command).
  { split_and!; try ranges; try done; [|decided]. apply map_Forall_singleton.
    split; [decided|]. split; [by vm_compute|]. split; [vm_compute; discriminate|by vm_compute]. }
  assert (Hcond : condition_representable sample_condition).
  { split_and!; try ranges; try done. decided. }
  split_and!; try ranges; try decided. constructor; [|constructor].
  split_and!; try ranges; try decided; try done. by repeat constructor.
Qed.

Lemma ParseJson_print_witness :
  mission_representable sample_mission ∧
  ParseJson (print (json_of_mission sample_mission)) 5 =
  Parsed (Success (mkMission 101 "Sample mission" "Loaded" "1.0.0" "humanoid-core" 5 [sample_step]
                     {[ "source" := "unit-test" ]})).
Proof. split; [exact sample_representable|]. exact (ParseJson_print sample_mission 5 sample_representable). Defined.

Lemma sample_writable : mission_writable sample_mission.
Proof.
  assert (Hs : ∀ s, bool_decide (yaml_string s) = true → yaml_string s) by (intros s; apply bool_decide_eq_true).
  assert (Hmd : ∀ k s, key_ok k → yaml_string s → metadata_writable {[ k := s ]}).
  { intros k s Hk Hs'. by apply map_Forall_singleton. }
  assert (Hempty : metadata_writable ∅) by apply map_Forall_empty.
  assert (Hc : command_writable sample_command).
  { split_and!; try ranges; try done; [|by apply Hmd; [apply key_ok_literal; vm_compute|apply Hs; vm_compute]].
    apply map_Forall_singleton. split; [by apply key_ok_literal; vm_compute|].
    split; [vm_compute; discriminate|by vm_compute]. }
  assert (Hcond : condition_writable sample_condition).
  { split_and!; try ranges; try done. apply Hs; by vm_compute. }
  split_and!; try ranges; try (apply Hs; by vm_compute);
    [by apply Hmd; [apply key_ok_literal; vm_compute|apply Hs; vm_compute]|].
  constructor; [|constructor].
  split_and!; try ranges; try (apply Hs; by vm_compute); try done.
  - intros w [= <-]. ranges.
  - by repeat constructor.
  - by apply Hmd; [apply key_ok_literal; vm_compute|apply Hs; vm_compute].
Qed.

Lemma ParseYaml_print_witness :
  mission_writable sample_mission ∧
  ParseYaml (print_lines (under_mission (mission_lines sample_mission))) 5 =
  Parsed (Success (sample_mission <| mission_timestamp := 5 |>)).
Proof. split; [exact sample_writable|]. exact (proj2 (ParseYaml_print sample_mission 5 sample_writable)). Defined.

(** The loader on the text of a mission. *)
Lemma MissionLoader_sound_witness :
  LoadYaml (print_lines (mission_lines sample_mission)) 5 =
    Parsed (mkLoadResult (sample_mission <| mission_timestamp := 5 |>) true "Mission loaded successfully") ∧
  mission_typed (sample_mission <| mission_timestamp := 5 |>) ∧
  mission_schema (sample_mission <| mission_timestamp := 5 |>).
Proof.
  assert (H : LoadYaml (print_lines (mission_lines sample_mission)) 5 =
    Parsed (mkLoadResult (sample_mission <| mission_timestamp := 5 |>) true "Mission loaded successfully")).
  { vm_compute. reflexivity. }
  split; [exact H|].
  destruct (MissionLoader_sound _ _ _ (or_intror H)) as (Ht & Hs & _). exact (conj Ht Hs).
Defined.

(* ------------------------------------------------------------------ *)
(** ** Documents of the unit tests, and what they do not try *)

Definition yaml_document (ls : list string) : chars := concat ((λ l, chars_of l ++ [line_feed]) <$> ls).

(** tests/mission_loader_unit_test.cpp: a mission under the key [mission],
    one with a wait, a skipped step and a condition, tabs, an unknown type. *)
Example LoadYaml_unit_test :
  load_success <$> LoadYaml (yaml_document
    [""; "mission:"; "  id: 102"; "  name: YAML mission"; "  description: Loaded from YAML";
     "  version: 1.0.0"; "  author: humanoid-core"; "  metadata:"; "    source: unit-test";
     "  steps:"; "    - id: 1"; "      name: Stop"; "      timeout_ms: 500"; "      retry: 0";
     "      enabled: true"; "      metadata:"; "        phase: safety"; "      command:";
     "        id: 2001"; "        type: Stop"; "        priority: Critical";
     "        timeout_ms: 250"; "        metadata:"; "          origin: yaml"]) 0 = Parsed true.
Proof. vm_compute. reflexivity. Qed.

Example LoadYaml_unit_test_flow :
  load_success <$> LoadYaml (yaml_document
    ["id: 106"; "name: YAML flow mission"; "description: Loaded from YAML"; "version: 1.0.0";
     "author: humanoid-core"; "steps:"; "  - id: 1"; "    name: Delay"; "    delay:";
     "      duration_ms: 5"; "  - id: 2"; "    name: Skip"; "    skip: true"; "    conditions:";
     "      - id: 1"; "        name: Connected"; "        type: Connection"; "        value: true";
     "        on_failure: Skip"; "  - id: 3"; "    name: Abort"; "    abort: true"]) 0 = Parsed true.
Proof. vm_compute. reflexivity. Qed.

Example LoadYaml_unit_test_unknown_command :
  load_message <$> LoadYaml (yaml_document
    ["id: 104"; "name: Unknown command"; "description: Invalid command type"; "version: 1.0.0";
     "author: humanoid-core"; "steps:"; "  - id: 1"; "    name: Unknown"; "    command:";
     "      id: 4001"; "      type: Fly"]) 0 =
  Parsed "YAML mission parse failed: Unknown command type at YAML line 11: Fly"%string.
Proof. vm_compute. reflexivity. Qed.

(** [IsInteger] accepts 2 ^ 63, whose conversion to [std::int64_t] is
    undefined: here the duration of a policy. *)
Example JsonInt64_undefined :
  (value ← Parse_json mission_dialect (chars_of "9223372036854775808");
   JsonInt64 value "retry_policy.delay_ms") = Undefined.
Proof. vm_compute. reflexivity. Qed.

(** A JSON identifier above 2 ^ 53 is silently rounded. *)
Example JsonUint64_rounds :
  (value ← Parse_json mission_dialect (chars_of "9007199254740993"); JsonUint64 value "id") =
  Parsed 9007199254740992.
Proof. vm_compute. reflexivity. Qed.

(** Quotation marks do not make a payload value a string. *)
Example YamlPayloadValue_quoted : YamlPayloadValue (print_string "12") = PayloadInt 12.
Proof. vm_compute. reflexivity. Qed.

(** A fault code is cut to 32 bits. *)
Example cast_int32_wraps : cast_int32 (2 ^ 32 + 3) = 3.
Proof. vm_compute. reflexivity. Qed.
