(* ===== verification/BTNode.v ===== *)
(** * Behavior tree nodes

    The nodes of src/bt: composites, decorators and leaves with the state they
    keep from tick to tick, and their four operations [Initialize], [Tick],
    [Reset] and [Shutdown].

    A tree runs inside a world it shares with the application and with other
    threads.  [BTEnvironment] is what the nodes use of it: the cancellation
    flag of the [BTContext], the steady clock, command dispatchers and mission
    executors.  Every use may find, and leave, a changed world.  The callbacks
    of actions and conditions are functions on the world; a [Foreign] node is
    an implementation of the [BTNode] interface by the application.

    An operation answers a value or throws; either way it leaves a node and a
    world.  [ParallelNode] ticks its children on threads of their own; here
    they are ticked one after the other.  The node status counts the answers,
    in any order.  Not modelled: the names of the nodes, their destructors
    (those of [CommandNode] and [MissionNode] cancel what is active) and
    failures of mutexes and of [std::async]. *)

From S2P Require Import Prelude Mission Command.

Open Scope Z_scope.

Inductive BTStatus := Idle | Running | Success | Failure | Aborted.

#[export] Instance BTStatus_eq_dec : EqDecision BTStatus.
Proof. solve_decision. Defined.

Definition BTStatus_toString (s : BTStatus) : string :=
  match s with
  | Idle => "Idle"
  | Running => "Running"
  | Success => "Success"
  | Failure => "Failure"
  | Aborted => "Aborted"
  end.

Definition isTerminal (s : BTStatus) : bool :=
  match s with Success | Failure | Aborted => true | Idle | Running => false end.

(** The outcome of a call. *)
Inductive Throws (A : Type) := Returned (a : A) | Threw.
Arguments Returned {A} a.
Arguments Threw {A}.

(** What the nodes use of the application. *)
Class BTEnvironment := {
  World : Type;
  CancellationRequested : World → bool * World;
  steady_clock_now : World → Z * World;
  CommandDispatcher : Type;
  Future : Type;
  ExecuteAsync : CommandDispatcher → Command → World → Throws Future * World;
  Dispatcher_Cancel : CommandDispatcher → Z → World → World;
  future_ready : Future → World → Throws bool * World;
  future_get : Future → World → Throws CommandResult * World;
  MissionExecutor : Type;
  Executor_Start : MissionExecutor → Mission → World → Throws MissionStatus * World;
  Executor_GetStatus : MissionExecutor → World → Throws MissionStatus * World;
  Executor_Cancel : MissionExecutor → World → World;
  Executor_Stop : MissionExecutor → World → World;
}.

Inductive MemoryPolicy := Stateless | Memory.

#[export] Instance MemoryPolicy_eq_dec : EqDecision MemoryPolicy.
Proof. solve_decision. Defined.

Section Nodes.
Context {E : BTEnvironment}.

(** A node the application implements; its state is in the world. *)
Record ForeignNode := mkForeign {
  foreign_Initialize : World → Throws BTStatus * World;
  foreign_Tick : World → Throws BTStatus * World;
  foreign_Reset : World → Throws unit * World;
  foreign_Shutdown : World → Throws unit * World;
}.

(** The nodes, with their parameters and their state; an empty
    [std::function] or pointer is [None]. *)
Inductive Node :=
  | ActionNode (callback : option (World → Throws BTStatus * World))
  | ConditionNode (predicate : option (World → Throws bool * World))
  | WaitNode (predicate : option (World → Throws bool * World)) (satisfied : bool)
  | DelayNode (duration : Z) (start_time : option Z) (completed : bool)
  | CommandNode (dispatcher : option CommandDispatcher) (command : Command)
      (future : option Future) (terminal_status : option BTStatus)
  | MissionNode (executor : option MissionExecutor) (mission : Mission) (started : bool)
      (terminal_status : option BTStatus)
  | Foreign (f : ForeignNode)
  | SequenceNode (policy : MemoryPolicy) (current_index : nat) (children : list Node)
  | SelectorNode (policy : MemoryPolicy) (current_index : nat) (children : list Node)
  | ParallelNode (success_threshold failure_threshold : Z) (children : list Node)
  | InverterNode (child : option Node)
  | SucceederNode (child : option Node)
  | FailerNode (child : option Node)
  | RetryNode (max_attempts failed_attempts : Z) (child : option Node)
  | RepeatNode (repeat_count completed_count : Z) (child : option Node)
  | LimiterNode (max_ticks tick_count : Z) (child : option Node)
  | TimeoutNode (timeout : Z) (start_time : option Z) (child : option Node).

(** A step of a node: what it answers, the node and the world it leaves. *)
Definition Step (A : Type) : Type := Throws A * Node * World.

(* ------------------------------------------------------------------ *)
(** ** Constructors with defaults *)

Definition new_Retry (max_attempts : Z) (child : option Node) : Node :=
  RetryNode (Z.max 1 max_attempts) 0 child.

Definition new_Parallel (success_threshold failure_threshold : Z) (children : list Node) : Node :=
  ParallelNode success_threshold (Z.max 1 failure_threshold) children.

(* ------------------------------------------------------------------ *)
(** ** Ticks of the leaves *)

(** [catch (...) { return BTStatus::Failure; }] *)
Definition or_failure (r : Throws BTStatus * World) : Throws BTStatus * World :=
  match r with (Threw, w) => (Returned Failure, w) | _ => r end.

Definition ActionNode_Tick (callback : option (World → Throws BTStatus * World)) (w : World) :
    Throws BTStatus * World :=
  let '(cancelled, w) := CancellationRequested w in
  if cancelled then (Returned Aborted, w)
  else match callback with
  | None => (Returned Failure, w)
  | Some f => or_failure (f w)
  end.

Definition ConditionNode_Tick (predicate : option (World → Throws bool * World)) (w : World) :
    Throws BTStatus * World :=
  let '(cancelled, w) := CancellationRequested w in
  if cancelled then (Returned Aborted, w)
  else match predicate with
  | None => (Returned Failure, w)
  | Some f =>
      match f w with
      | (Returned b, w) => (Returned (if b then Success else Failure), w)
      | (Threw, w) => (Returned Failure, w)
      end
  end.

Definition WaitNode_Tick (predicate : option (World → Throws bool * World)) (satisfied : bool)
    (w : World) : Step BTStatus :=
  let '(cancelled, w) := CancellationRequested w in
  if cancelled then (Returned Aborted, WaitNode predicate false, w)
  else match predicate with
  | None => (Returned Failure, WaitNode predicate satisfied, w)
  | Some f =>
      if satisfied then (Returned Success, WaitNode predicate satisfied, w)
      else match f w with
      | (Returned b, w) =>
          (Returned (if b then Success else Running), WaitNode predicate b, w)
      | (Threw, w) => (Returned Failure, WaitNode predicate false, w)
      end
  end.

Definition DelayNode_Tick (duration : Z) (start_time : option Z) (completed : bool) (w : World) :
    Step BTStatus :=
  let '(cancelled, w) := CancellationRequested w in
  if cancelled then (Returned Aborted, DelayNode duration None false, w)
  else if completed then (Returned Success, DelayNode duration start_time completed, w)
  else if duration <=? 0 then (Returned Success, DelayNode duration start_time true, w)
  else
    let '(now, w) := steady_clock_now w in
    match start_time with
    | None => (Returned Running, DelayNode duration (Some now) completed, w)
    | Some start =>
        (* [ClearTimer] also clears the flag set just before it *)
        if duration <=? now - start then (Returned Success, DelayNode duration None false, w)
        else (Returned Running, DelayNode duration start_time completed, w)
    end.

Definition FromCommandStatus (s : CommandStatus) : BTStatus :=
  match s with
  | StatusCompleted => Success
  | StatusCancelled => Aborted
  | StatusPending | StatusQueued | StatusRunning => Running
  | StatusFailed | StatusTimeout | StatusRejected => Failure
  | StatusRaw _ => Failure
  end.

(** [CommandNode::CancelActiveLocked] *)
Definition CancelActiveLocked (dispatcher : option CommandDispatcher) (c : Command)
    (future : option Future) (w : World) : World :=
  match future, dispatcher with
  | Some _, Some d => Dispatcher_Cancel d (id c) w
  | _, _ => w
  end.

Definition CommandNode_Tick (dispatcher : option CommandDispatcher) (c : Command)
    (future : option Future) (terminal_status : option BTStatus) (w : World) : Step BTStatus :=
  let finish s w := (Returned s, CommandNode dispatcher c None (Some s), w) in
  match terminal_status with
  | Some s => (Returned s, CommandNode dispatcher c future terminal_status, w)
  | None =>
      let '(cancelled, w) := CancellationRequested w in
      if cancelled then finish Aborted (CancelActiveLocked dispatcher c future w)
      else match dispatcher with
      | None => (Returned Failure, CommandNode dispatcher c future (Some Failure), w)
      | Some d =>
          let '(submitted, w) :=
            match future with
            | Some f => (Returned f, w)
            | None => ExecuteAsync d c w
            end in
          match submitted with
          | Threw => finish Failure w
          | Returned f =>
              match future_ready f w with
              | (Threw, w) => finish Failure w
              | (Returned false, w) => (Returned Running, CommandNode dispatcher c (Some f) None, w)
              | (Returned true, w) =>
                  match future_get f w with
                  | (Threw, w) => finish Failure w
                  | (Returned result, w) => finish (FromCommandStatus (status result)) w
                  end
              end
          end
      end
  end.

Definition FromMissionStatus (s : MissionStatus) : BTStatus :=
  match s with
  | MissionCompleted => Success
  | MissionCancelled => Aborted
  | MissionFailed => Failure
  | MissionPending | MissionRunning | MissionPaused => Running
  end.

(** [MissionNode::StopActiveLocked] *)
Definition StopActiveLocked (executor : option MissionExecutor) (started : bool) (w : World) :
    World :=
  match executor with Some x => if started then Executor_Stop x w else w | None => w end.

Definition MissionNode_Tick (executor : option MissionExecutor) (m : Mission) (started : bool)
    (terminal_status : option BTStatus) (w : World) : Step BTStatus :=
  let finish st s w := (Returned s, MissionNode executor m st (Some s), w) in
  match terminal_status with
  | Some s => (Returned s, MissionNode executor m started terminal_status, w)
  | None =>
      let '(cancelled, w) := CancellationRequested w in
      if cancelled then
        finish false Aborted
          (match executor with Some x => if started then Executor_Cancel x w else w | None => w end)
      else match executor with
      | None => finish started Failure w
      | Some x =>
          if negb started then
            match Executor_Start x m w with
            | (Threw, w) => finish false Failure w
            | (Returned ms, w) =>
                let s := FromMissionStatus ms in
                if bool_decide (s = Running) then (Returned Running, MissionNode executor m true None, w)
                else finish started s w
            end
          else
            match Executor_GetStatus x w with
            | (Threw, w) => finish false Failure w
            | (Returned ms, w) =>
                let s := FromMissionStatus ms in
                if isTerminal s then finish false s w
                else (Returned Running, MissionNode executor m started None, w)
            end
      end
  end.

(* ------------------------------------------------------------------ *)
(** ** Ticks of the composites *)

(** How the loop of a sequence or of a selector ends. *)
Inductive LoopResult :=
  | Exhausted                                (** no child is left *)
  | Stopped (index : nat) (s : BTStatus)     (** the child at [index] answered [s] *)
  | LoopThrew.

Section Composite.
Context (tick : Node → World → Step BTStatus).

(** The loop over the children from [skip] on: it goes on while they answer
    [go]; [position] is the index of the first element of [cs]. *)
Fixpoint tick_from (go : BTStatus) (skip position : nat) (cs : list Node) (w : World) :
    LoopResult * list Node * World :=
  match cs with
  | [] => (Exhausted, [], w)
  | c :: cs =>
      match skip with
      | S skip =>
          let '(r, cs, w) := tick_from go skip (S position) cs w in (r, c :: cs, w)
      | O =>
          let '(r, c, w) := tick c w in
          match r with
          | Threw => (LoopThrew, c :: cs, w)
          | Returned s =>
              if bool_decide (s = go) then
                let '(r, cs, w) := tick_from go 0 (S position) cs w in (r, c :: cs, w)
              else (Stopped position s, c :: cs, w)
          end
      end
  end.

(** [SequenceNode::Tick] and [SelectorNode::Tick] differ in the status [go]
    on which they go on to the next child. *)
Definition loop_Tick (make : nat → list Node → Node) (go : BTStatus) (policy : MemoryPolicy)
    (current_index : nat) (cs : list Node) (w : World) : Step BTStatus :=
  let '(cancelled, w) := CancellationRequested w in
  if cancelled then (Returned Aborted, make 0%nat cs, w)
  else if bool_decide (cs = []) then (Returned go, make 0%nat cs, w)
  else
    let index := match policy with Memory => current_index | Stateless => 0%nat end in
    let '(r, cs, w) := tick_from go index 0 cs w in
    let kept i := match policy with Memory => i | Stateless => 0%nat end in
    match r with
    | LoopThrew => (Threw, make current_index cs, w)
    | Exhausted => (Returned go, make 0%nat cs, w)
    | Stopped i Running | Stopped i Idle => (Returned Running, make (kept i) cs, w)
    | Stopped _ s => (Returned s, make 0%nat cs, w)
    end.

(** The futures of the children: a child that throws answers [Failure]. *)
Fixpoint tick_all (cs : list Node) (w : World) : list BTStatus * list Node * World :=
  match cs with
  | [] => ([], [], w)
  | c :: cs =>
      let '(r, c, w) := tick c w in
      let '(ss, cs, w) := tick_all cs w in
      (match r with Returned s => s | Threw => Failure end :: ss, c :: cs, w)
  end.
End Composite.

Definition count_status (P : BTStatus → bool) (ss : list BTStatus) : Z :=
  Z.of_nat (length (filter P ss)).

(** The status of a parallel node from those of its children; the
    cancellation flag is read only if no child was aborted. *)
Definition ParallelStatus (success_threshold failure_threshold : Z) (ss : list BTStatus)
    (w : World) : BTStatus * World :=
  let success_count := count_status (λ s, bool_decide (s = Success)) ss in
  let failure_count := count_status (λ s, bool_decide (s = Failure)) ss in
  let running_count := count_status (λ s, bool_decide (s = Running) || bool_decide (s = Idle)) ss in
  let aborted_count := count_status (λ s, bool_decide (s = Aborted)) ss in
  let '(aborted, w) := if 0 <? aborted_count then (true, w) else CancellationRequested w in
  let size := Z.of_nat (length ss) in
  let required_successes :=
    if success_threshold =? 0 then size else Z.min success_threshold size in
  (if aborted then Aborted
   else if failure_threshold <=? failure_count then Failure
   else if required_successes <=? success_count then Success
   else if 0 <? running_count then Running
   else Failure, w).

Definition ParallelNode_Tick (tick : Node → World → Step BTStatus)
    (success_threshold failure_threshold : Z) (cs : list Node) (w : World) : Step BTStatus :=
  let make cs := ParallelNode success_threshold failure_threshold cs in
  let '(cancelled, w) := CancellationRequested w in
  if cancelled then (Returned Aborted, make cs, w)
  else if bool_decide (cs = []) then (Returned Success, make cs, w)
  else
    let '(ss, cs, w) := tick_all tick cs w in
    let '(s, w) := ParallelStatus success_threshold failure_threshold ss w in
    (Returned s, make cs, w).

(* ------------------------------------------------------------------ *)
(** ** Reset *)

(** The world after the children, in order; an exception ends the loop. *)
Fixpoint for_children (op : Node → World → Step unit) (cs : list Node) (w : World) :
    Throws unit * list Node * World :=
  match cs with
  | [] => (Returned tt, [], w)
  | c :: cs =>
      let '(r, c, w) := op c w in
      match r with
      | Threw => (Threw, c :: cs, w)
      | Returned _ => let '(r, cs, w) := for_children op cs w in (r, c :: cs, w)
      end
  end.

Definition for_child (op : Node → World → Step unit) (child : option Node) (w : World) :
    Throws unit * option Node * World :=
  match child with
  | None => (Returned tt, None, w)
  | Some c => let '(r, c, w) := op c w in (r, Some c, w)
  end.

(** [OnResetLocked] of a node with children, applied before theirs. *)
Definition with_children (make : list Node → Node) (r : Throws unit * list Node * World) : Step unit :=
  let '(r, cs, w) := r in (r, make cs, w).

Definition with_child (make : option Node → Node) (r : Throws unit * option Node * World) : Step unit :=
  let '(r, c, w) := r in (r, make c, w).

Fixpoint Reset (n : Node) (w : World) : Step unit :=
  match n with
  | ActionNode _ | ConditionNode _ => (Returned tt, n, w)
  | WaitNode p _ => (Returned tt, WaitNode p false, w)
  | DelayNode d _ _ => (Returned tt, DelayNode d None false, w)
  | CommandNode d c f _ => (Returned tt, CommandNode d c None None, CancelActiveLocked d c f w)
  | MissionNode x m st _ => (Returned tt, MissionNode x m false None, StopActiveLocked x st w)
  | Foreign f => let '(r, w) := foreign_Reset f w in (r, Foreign f, w)
  | SequenceNode p _ cs => with_children (SequenceNode p 0) (for_children Reset cs w)
  | SelectorNode p _ cs => with_children (SelectorNode p 0) (for_children Reset cs w)
  | ParallelNode st ft cs => with_children (ParallelNode st ft) (for_children Reset cs w)
  | InverterNode c => with_child InverterNode (for_child Reset c w)
  | SucceederNode c => with_child SucceederNode (for_child Reset c w)
  | FailerNode c => with_child FailerNode (for_child Reset c w)
  | RetryNode m _ c => with_child (RetryNode m 0) (for_child Reset c w)
  | RepeatNode m _ c => with_child (RepeatNode m 0) (for_child Reset c w)
  | LimiterNode m _ c => with_child (LimiterNode m 0) (for_child Reset c w)
  | TimeoutNode t _ c => with_child (TimeoutNode t None) (for_child Reset c w)
  end.

(* ------------------------------------------------------------------ *)
(** ** Shutdown *)

(** Composites and decorators swallow the exceptions of their children. *)
Definition swallow (op : Node → World → Step unit) (n : Node) (w : World) : Step unit :=
  let '(_, n, w) := op n w in (Returned tt, n, w).

Fixpoint Shutdown (n : Node) (w : World) : Step unit :=
  match n with
  | ActionNode _ | ConditionNode _ => (Returned tt, n, w)
  | WaitNode p _ => (Returned tt, WaitNode p false, w)
  | DelayNode d _ _ => (Returned tt, DelayNode d None false, w)
  | CommandNode d c f t => (Returned tt, CommandNode d c None t, CancelActiveLocked d c f w)
  | MissionNode x m st t => (Returned tt, MissionNode x m false t, StopActiveLocked x st w)
  | Foreign f => let '(r, w) := foreign_Shutdown f w in (r, Foreign f, w)
  | SequenceNode p _ cs => with_children (SequenceNode p 0) (for_children (swallow Shutdown) cs w)
  | SelectorNode p _ cs => with_children (SelectorNode p 0) (for_children (swallow Shutdown) cs w)
  | ParallelNode st ft cs => with_children (ParallelNode st ft) (for_children (swallow Shutdown) cs w)
  | InverterNode c => with_child InverterNode (for_child (swallow Shutdown) c w)
  | SucceederNode c => with_child SucceederNode (for_child (swallow Shutdown) c w)
  | FailerNode c => with_child FailerNode (for_child (swallow Shutdown) c w)
  | RetryNode m _ c => with_child (RetryNode m 0) (for_child (swallow Shutdown) c w)
  | RepeatNode m _ c => with_child (RepeatNode m 0) (for_child (swallow Shutdown) c w)
  | LimiterNode m _ c => with_child (LimiterNode m 0) (for_child (swallow Shutdown) c w)
  | TimeoutNode t _ c => with_child (TimeoutNode t None) (for_child (swallow Shutdown) c w)
  end.

(* ------------------------------------------------------------------ *)
(** ** Initialize *)

Section Initializing.
Context (initialize : Node → World → Step BTStatus).

Fixpoint initialize_children (cs : list Node) (w : World) : Throws BTStatus * list Node * World :=
  match cs with
  | [] => (Returned Idle, [], w)
  | c :: cs =>
      let '(r, c, w) := initialize c w in
      match r with
      | Returned Aborted | Returned Failure | Threw => (r, c :: cs, w)
      | Returned _ => let '(r, cs, w) := initialize_children cs w in (r, c :: cs, w)
      end
  end.

Definition CompositeNode_Initialize (make : list Node → Node) (cs : list Node) (w : World) :
    Step BTStatus :=
  let '(r, cs, w) := initialize_children cs w in (r, make cs, w).

Definition DecoratorNode_Initialize (make : option Node → Node) (child : option Node) (w : World) :
    Step BTStatus :=
  match child with
  | None => (Returned Failure, make None, w)
  | Some c => let '(r, c, w) := initialize c w in (r, make (Some c), w)
  end.
End Initializing.

(** A leaf answers whether it has what it needs. *)
Definition Leaf_Initialize {A} (dependency : option A) : BTStatus :=
  match dependency with Some _ => Idle | None => Failure end.

Fixpoint Initialize (n : Node) (w : World) : Step BTStatus :=
  match n with
  | ActionNode f => (Returned (Leaf_Initialize f), n, w)
  | ConditionNode p => (Returned (Leaf_Initialize p), n, w)
  | WaitNode p _ => (Returned (Leaf_Initialize p), WaitNode p false, w)
  | DelayNode d _ _ => (Returned Idle, DelayNode d None false, w)
  | CommandNode d c f _ => (Returned (Leaf_Initialize d), CommandNode d c f None, w)
  | MissionNode x m _ _ => (Returned (Leaf_Initialize x), MissionNode x m false None, w)
  | Foreign f => let '(r, w) := foreign_Initialize f w in (r, Foreign f, w)
  | SequenceNode p _ cs => CompositeNode_Initialize Initialize (SequenceNode p 0) cs w
  | SelectorNode p _ cs => CompositeNode_Initialize Initialize (SelectorNode p 0) cs w
  | ParallelNode st ft cs => CompositeNode_Initialize Initialize (ParallelNode st ft) cs w
  | InverterNode c => DecoratorNode_Initialize Initialize InverterNode c w
  | SucceederNode c => DecoratorNode_Initialize Initialize SucceederNode c w
  | FailerNode c => DecoratorNode_Initialize Initialize FailerNode c w
  | RetryNode m _ c => DecoratorNode_Initialize Initialize (RetryNode m 0) c w
  | RepeatNode m _ c => DecoratorNode_Initialize Initialize (RepeatNode m 0) c w
  | LimiterNode m _ c => DecoratorNode_Initialize Initialize (LimiterNode m 0) c w
  | TimeoutNode t _ c => DecoratorNode_Initialize Initialize (TimeoutNode t None) c w
  end.

(* ------------------------------------------------------------------ *)
(** ** Ticks of the decorators *)

Section Decorators.
Context (tick : Node → World → Step BTStatus).

(** The three decorators that only map the status of their child. *)
Definition map_Tick (make : option Node → Node) (f : BTStatus → BTStatus) (child : option Node)
    (w : World) : Step BTStatus :=
  let '(cancelled, w) := CancellationRequested w in
  if cancelled then (Returned Aborted, make child, w)
  else match child with
  | None => (Returned Failure, make None, w)
  | Some c =>
      let '(r, c, w) := tick c w in
      (match r with Returned s => Returned (f s) | Threw => Threw end, make (Some c), w)
  end.

Definition invert (s : BTStatus) : BTStatus :=
  match s with
  | Success => Failure
  | Failure => Success
  | Idle => Idle
  | Running => Running
  | Aborted => Aborted
  end.

Definition succeed (s : BTStatus) : BTStatus :=
  match s with
  | Success | Failure | Idle => Success
  | Running => Running
  | Aborted => Aborted
  end.

Definition fail (s : BTStatus) : BTStatus :=
  match s with
  | Success | Failure | Idle => Failure
  | Running => Running
  | Aborted => Aborted
  end.

(** The child is reset; the answer is [s] unless that throws. *)
Definition reset_then (s : BTStatus) (make : option Node → Node) (c : Node) (w : World) :
    Step BTStatus :=
  let '(r, c, w) := Reset c w in
  (match r with Returned _ => Returned s | Threw => Threw end, make (Some c), w).

Definition RetryNode_Tick (max_attempts failed_attempts : Z) (child : option Node) (w : World) :
    Step BTStatus :=
  let make n c := RetryNode max_attempts n c in
  let '(cancelled, w) := CancellationRequested w in
  if cancelled then (Returned Aborted, make 0 child, w)
  else match child with
  | None => (Returned Failure, make failed_attempts None, w)
  | Some c =>
      let '(r, c, w) := tick c w in
      match r with
      | Threw => (Threw, make failed_attempts (Some c), w)
      | Returned Success => (Returned Success, make 0 (Some c), w)
      | Returned Failure =>
          let failed := u64_incr failed_attempts in
          if max_attempts <=? failed then (Returned Failure, make 0 (Some c), w)
          else reset_then Running (make failed) c w
      | Returned Aborted => (Returned Aborted, make 0 (Some c), w)
      | Returned Idle | Returned Running => (Returned Running, make failed_attempts (Some c), w)
      end
  end.

Definition RepeatNode_Tick (repeat_count completed_count : Z) (child : option Node) (w : World) :
    Step BTStatus :=
  let make n c := RepeatNode repeat_count n c in
  let '(cancelled, w) := CancellationRequested w in
  if cancelled then (Returned Aborted, make 0 child, w)
  else match child with
  | None => (Returned Failure, make completed_count None, w)
  | Some c =>
      let '(r, c, w) := tick c w in
      match r with
      | Threw => (Threw, make completed_count (Some c), w)
      | Returned Success =>
          let completed := u64_incr completed_count in
          match Reset c w with
          | (Threw, c, w) => (Threw, make completed (Some c), w)
          | (Returned _, c, w) =>
              if negb (repeat_count =? 0) && (repeat_count <=? completed) then
                (Returned Success, make 0 (Some c), w)
              else (Returned Running, make completed (Some c), w)
          end
      | Returned Failure => (Returned Failure, make 0 (Some c), w)
      | Returned Aborted => (Returned Aborted, make 0 (Some c), w)
      | Returned Idle | Returned Running => (Returned Running, make completed_count (Some c), w)
      end
  end.

Definition LimiterNode_Tick (max_ticks tick_count : Z) (child : option Node) (w : World) :
    Step BTStatus :=
  let '(cancelled, w) := CancellationRequested w in
  if cancelled then (Returned Aborted, LimiterNode max_ticks tick_count child, w)
  else match child with
  | None => (Returned Failure, LimiterNode max_ticks tick_count None, w)
  | Some c =>
      if max_ticks <=? tick_count then (Returned Failure, LimiterNode max_ticks tick_count child, w)
      else
        let '(r, c, w) := tick c w in
        (r, LimiterNode max_ticks (u64_incr tick_count) (Some c), w)
  end.

Definition TimedOut (timeout : Z) (start_time : option Z) (now : Z) : bool :=
  match start_time with
  | None => false
  | Some start => (timeout <=? 0) || (timeout <=? now - start)
  end.

(** A timeout resets the child before it forgets its start. *)
Definition time_out (timeout : Z) (start_time : option Z) (c : Node) (w : World) : Step BTStatus :=
  match Reset c w with
  | (Threw, c, w) => (Threw, TimeoutNode timeout start_time (Some c), w)
  | (Returned _, c, w) => (Returned Failure, TimeoutNode timeout None (Some c), w)
  end.

Definition TimeoutNode_Tick (timeout : Z) (start_time : option Z) (child : option Node)
    (w : World) : Step BTStatus :=
  let make st c := TimeoutNode timeout st c in
  let '(cancelled, w) := CancellationRequested w in
  if cancelled then (Returned Aborted, make None child, w)
  else match child with
  | None => (Returned Failure, make start_time None, w)
  | Some c =>
      let '(now, w) := steady_clock_now w in
      let start_time := Some (default now start_time) in
      if TimedOut timeout start_time now then time_out timeout start_time c w
      else
        let '(r, c, w) := tick c w in
        match r with
        | Threw => (Threw, make start_time (Some c), w)
        | Returned s =>
            let '(after_tick, w) := steady_clock_now w in
            if negb (isTerminal s) && TimedOut timeout start_time after_tick then
              time_out timeout start_time c w
            else if isTerminal s then (Returned s, make None (Some c), w)
            else (Returned Running, make start_time (Some c), w)
        end
  end.
End Decorators.

(* ------------------------------------------------------------------ *)
(** ** Tick *)

Definition leaf (n : Node) (r : Throws BTStatus * World) : Step BTStatus := (r.1, n, r.2).

Fixpoint Tick (n : Node) (w : World) : Step BTStatus :=
  match n with
  | ActionNode f => leaf n (ActionNode_Tick f w)
  | ConditionNode p => leaf n (ConditionNode_Tick p w)
  | WaitNode p sat => WaitNode_Tick p sat w
  | DelayNode d st done => DelayNode_Tick d st done w
  | CommandNode d c f t => CommandNode_Tick d c f t w
  | MissionNode x m st t => MissionNode_Tick x m st t w
  | Foreign f => leaf n (foreign_Tick f w)
  | SequenceNode p i cs => loop_Tick Tick (SequenceNode p) Success p i cs w
  | SelectorNode p i cs => loop_Tick Tick (SelectorNode p) Failure p i cs w
  | ParallelNode st ft cs => ParallelNode_Tick Tick st ft cs w
  | InverterNode c => map_Tick Tick InverterNode invert c w
  | SucceederNode c => map_Tick Tick SucceederNode succeed c w
  | FailerNode c => map_Tick Tick FailerNode fail c w
  | RetryNode m k c => RetryNode_Tick Tick m k c w
  | RepeatNode m k c => RepeatNode_Tick Tick m k c w
  | LimiterNode m k c => LimiterNode_Tick Tick m k c w
  | TimeoutNode t st c => TimeoutNode_Tick Tick t st c w
  end.
End Nodes.

Arguments Node : clear implicits.
Arguments Node {E}.
