(* ===== verification/BTProofs.v ===== *)
(** * Properties of behavior tree nodes

    The operations of [BTNode] change only the run state of a node and keep
    it well formed; [Reset] makes a node pristine; the loops of sequences and
    selectors, the counting of parallel nodes and the attempts of retry nodes
    behave as specified. *)

From S2P Require Import Prelude Command BTNode.

Open Scope Z_scope.

Section Proofs.
Context {Env : BTEnvironment}.
Implicit Types (n : Node) (cs : list Node) (w : World).

(* ------------------------------------------------------------------ *)
(** ** Induction *)

Definition children (n : Node) : list Node :=
  match n with
  | ActionNode _ | ConditionNode _ | WaitNode _ _ | DelayNode _ _ _ | CommandNode _ _ _ _
  | MissionNode _ _ _ _ | Foreign _ => []
  | SequenceNode _ _ cs | SelectorNode _ _ cs | ParallelNode _ _ cs => cs
  | InverterNode c | SucceederNode c | FailerNode c | RetryNode _ _ c | RepeatNode _ _ c
  | LimiterNode _ _ c | TimeoutNode _ _ c => option_list c
  end.

Lemma node_ind (P : Node → Prop) : (∀ n, Forall P (children n) → P n) → ∀ n, P n.
Proof.
  intros H. fix IH 1. intros n. apply H.
  destruct n; simpl; try constructor;
    try (match goal with |- context [option_list ?o] => destruct o; simpl; constructor; [apply IH|constructor] end);
    match goal with |- Forall _ ?l => induction l; constructor; [apply IH|assumption] end.
Qed.

(* ------------------------------------------------------------------ *)
(** ** Run state *)

(** A node without its run state: the node as it was built. *)
Fixpoint pristine (n : Node) : Node :=
  let child (c : option Node) := match c with Some c => Some (pristine c) | None => None end in
  match n with
  | ActionNode _ | ConditionNode _ | Foreign _ => n
  | WaitNode p _ => WaitNode p false
  | DelayNode d _ _ => DelayNode d None false
  | CommandNode d c _ _ => CommandNode d c None None
  | MissionNode x m _ _ => MissionNode x m false None
  | SequenceNode p _ cs => SequenceNode p 0 (map pristine cs)
  | SelectorNode p _ cs => SelectorNode p 0 (map pristine cs)
  | ParallelNode st ft cs => ParallelNode st ft (map pristine cs)
  | InverterNode c => InverterNode (child c)
  | SucceederNode c => SucceederNode (child c)
  | FailerNode c => FailerNode (child c)
  | RetryNode m _ c => RetryNode m 0 (child c)
  | RepeatNode m _ c => RepeatNode m 0 (child c)
  | LimiterNode m _ c => LimiterNode m 0 (child c)
  | TimeoutNode t _ c => TimeoutNode t None (child c)
  end.

Definition is_word (x : Z) : bool := (0 <=? x) && (x <? u64_modulus).

(** The index of a composite is the one of a child it resumes at, and only
    one with memory has such an index. *)
Definition index_ok (p : MemoryPolicy) (i : nat) (cs : list Node) : bool :=
  (i =? 0)%nat || (i <? length cs)%nat && bool_decide (p = Memory).

(** The run state of a node is consistent with its parameters. *)
Fixpoint node_ok (n : Node) : bool :=
  let child (c : option Node) := match c with Some c => node_ok c | None => true end in
  match n with
  | ActionNode _ | ConditionNode _ | Foreign _ => true
  | WaitNode p sat => match p with Some _ => true | None => negb sat end
  | DelayNode d st completed =>
      if 0 <? d then negb completed else match st with None => true | Some _ => false end
  | CommandNode d _ f t =>
      match f, d, t with None, _, _ => true | Some _, Some _, None => true | _, _, _ => false end
  | MissionNode x _ started t =>
      match started, x, t with false, _, _ => true | true, Some _, None => true | _, _, _ => false end
  | SequenceNode p i cs | SelectorNode p i cs => index_ok p i cs && forallb node_ok cs
  | ParallelNode st ft cs => (1 <=? ft) && forallb node_ok cs
  | InverterNode c | SucceederNode c | FailerNode c | TimeoutNode _ _ c => child c
  | RetryNode m k c => is_word m && (0 <=? k) && (k <? m) && child c
  | RepeatNode m k c => is_word m && is_word k && child c
  | LimiterNode m k c => is_word m && (0 <=? k) && (k <=? m) && child c
  end.

(** What an operation may do to a node. *)
Definition evolves (n n' : Node) : Prop :=
  pristine n' = pristine n ∧ (node_ok n = true → node_ok n' = true).

#[export] Instance evolves_preorder : PreOrder evolves.
Proof.
  split; [by split|]. intros n1 n2 n3 [H1 H1'] [H2 H2']. split; [congruence|auto].
Qed.

Definition evolving {A} (op : Node → World → Step A) (n : Node) : Prop :=
  ∀ w r n' w', op n w = (r, n', w') → evolves n n'.

Lemma evolves_all cs cs' :
  Forall2 evolves cs cs' →
  map pristine cs' = map pristine cs ∧ (forallb node_ok cs = true → forallb node_ok cs' = true) ∧
  length cs' = length cs.
Proof.
  induction 1 as [|c c' cs cs' [Hp Hok] _ (IHp & IHok & IHlen)]; simpl; [done|].
  split_and!; [congruence| |congruence].
  rewrite !andb_true_iff. naive_solver.
Qed.

Lemma evolves_refl_all cs : Forall2 evolves cs cs.
Proof. by induction cs; constructor. Qed.
#[local] Hint Resolve evolves_refl_all : core.

(** Composites and decorators evolve with their children. *)
Lemma evolves_parallel a b cs cs' :
  Forall2 evolves cs cs' → evolves (ParallelNode a b cs) (ParallelNode a b cs').
Proof.
  intros (Hp & Hok & _)%evolves_all. split; simpl; [congruence|].
  rewrite !andb_true_iff. naive_solver.
Qed.

Lemma index_ok_length p i cs cs' : length cs' = length cs → index_ok p i cs' = index_ok p i cs.
Proof. unfold index_ok. by intros ->. Qed.

Lemma evolves_loop (make : MemoryPolicy → nat → list Node → Node) p i i' cs cs' :
  make = SequenceNode ∨ make = SelectorNode →
  Forall2 evolves cs cs' → (index_ok p i cs = true → index_ok p i' cs = true) →
  evolves (make p i cs) (make p i' cs').
Proof.
  intros Hm (Hp & Hok & Hlen)%evolves_all Hi.
  destruct Hm as [-> | ->]; (split; simpl; [congruence|]);
    rewrite (index_ok_length _ _ _ _ Hlen), !andb_true_iff; naive_solver.
Qed.

Lemma evolves_child o o' :
  option_Forall2 evolves o o' →
  match o' with Some c => Some (pristine c) | None => None end =
    match o with Some c => Some (pristine c) | None => None end ∧
  (match o with Some c => node_ok c | None => true end = true →
   match o' with Some c => node_ok c | None => true end = true).
Proof. destruct 1 as [c c' [Hp Hok]|]; [split; [congruence|done]|done]. Qed.

Lemma evolves_child_refl o : option_Forall2 evolves o o.
Proof. destruct o; by constructor. Qed.

Lemma is_word_range k : is_word k = true ↔ is_u64 k.
Proof. unfold is_word, is_u64. rewrite andb_true_iff, Z.leb_le, Z.ltb_lt. done. Qed.

Lemma is_word_incr k : is_word (u64_incr k) = true.
Proof. apply is_word_range, u64_incr_range. Qed.

(** [evolve_child H] proves that a decorator evolves, [H] telling it of its
    child: what is left are the bounds of its counter. *)
Ltac evolve_child H :=
  apply evolves_child in H as [Hp Hok]; split; simpl; [congruence|];
  rewrite ?andb_true_iff, ?is_word_incr, ?is_word_range, ?Z.leb_le, ?Z.ltb_lt;
  unfold is_u64; intros; destruct_and?; split_and?; eauto; try lia;
  match goal with |- context [u64_incr ?k] => pose proof (u64_incr_small k); lia end.

(** A leaf has no children: its operations are checked case by case. *)
Ltac evolve_leaf :=
  repeat case_match; simplify_eq/=; split; simpl in *;
  repeat case_match; simplify_eq/=; done.

(* ------------------------------------------------------------------ *)
(** ** Reset and shutdown *)

Lemma for_children_evolves (op : Node → World → Step unit) cs :
  Forall (evolving op) cs →
  ∀ w r cs' w', for_children op cs w = (r, cs', w') → Forall2 evolves cs cs'.
Proof.
  induction 1 as [|c cs Hc _ IH]; simpl; intros w r cs' w' E; simplify_eq/=; [constructor|].
  destruct (op c w) as [[r1 c1] w1] eqn:E1. apply Hc in E1. destruct r1; simplify_eq; [|eauto].
  destruct (for_children op cs w1) as [[r2 cs2] w2] eqn:E2. simplify_eq. eauto.
Qed.

Lemma for_child_evolves (op : Node → World → Step unit) o :
  Forall (evolving op) (option_list o) →
  ∀ w r o' w', for_child op o w = (r, o', w') → option_Forall2 evolves o o'.
Proof.
  unfold for_child. intros H w r o' w' E. destruct o as [c|]; simplify_eq; [|constructor].
  simpl in H. rewrite Forall_singleton in H. destruct (op c w) as [[r1 c1] w1] eqn:E1.
  simplify_eq. constructor. by eapply H.
Qed.

Lemma swallow_evolves op n : evolving op n → evolving (swallow op) n.
Proof.
  intros H w r n' w'. unfold swallow. destruct (op n w) as [[r1 c1] w1] eqn:E.
  intros [= <- <- <-]. by eapply H.
Qed.

(** The cases of an operation on all nodes: a leaf, a composite whose index
    is cleared, a decorator whose counter is cleared. *)
Ltac evolve_reset :=
  lazymatch goal with
  | |- context [for_children ?op ?cs ?w] =>
      let E := fresh "E" in
      destruct (for_children op cs w) as [[? ?] ?] eqn:E; intros [= <- <- <-];
      apply for_children_evolves in E; [|done];
      first [by apply evolves_parallel | apply evolves_loop; auto]
  | |- context [for_child ?op ?o ?w] =>
      let E := fresh "E" in
      destruct (for_child op o w) as [[? ?] ?] eqn:E; intros [= <- <- <-];
      apply for_child_evolves in E; [|done]; evolve_child E
  | _ => intros; evolve_leaf
  end.

Lemma Reset_evolves n : evolving Reset n.
Proof.
  induction n as [n IH] using node_ind. intros w r n' w'.
  destruct n; simpl in IH |- *; unfold with_children, with_child; evolve_reset.
Qed.

Lemma Shutdown_evolves n : evolving Shutdown n.
Proof.
  induction n as [n IH] using node_ind. intros w r n' w'.
  apply (Forall_impl _ (evolving (swallow Shutdown))) in IH; [|auto using swallow_evolves].
  destruct n; simpl in IH |- *; unfold with_children, with_child; evolve_reset.
Qed.

(* ------------------------------------------------------------------ *)
(** ** Initialize *)

Lemma initialize_children_evolves (op : Node → World → Step BTStatus) cs :
  Forall (evolving op) cs →
  ∀ w r cs' w', initialize_children op cs w = (r, cs', w') → Forall2 evolves cs cs'.
Proof.
  induction 1 as [|c cs Hc _ IH]; simpl; intros w r cs' w' E; simplify_eq/=; [constructor|].
  destruct (op c w) as [[r1 c1] w1] eqn:E1. apply Hc in E1.
  destruct (initialize_children op cs w1) as [[r2 cs2] w2] eqn:E2. apply IH in E2.
  repeat case_match; simplify_eq; auto.
Qed.

Lemma CompositeNode_Initialize_evolves op make cs w r n' w' n :
  Forall (evolving op) cs →
  (∀ cs', Forall2 evolves cs cs' → evolves n (make cs')) →
  CompositeNode_Initialize op make cs w = (r, n', w') → evolves n n'.
Proof.
  unfold CompositeNode_Initialize. intros Hcs Hmake.
  destruct (initialize_children op cs w) as [[r1 cs1] w1] eqn:E. intros [= <- <- <-].
  by eapply Hmake, initialize_children_evolves.
Qed.

Lemma DecoratorNode_Initialize_evolves op make o w r n' w' n :
  Forall (evolving op) (option_list o) →
  (∀ o', option_Forall2 evolves o o' → evolves n (make o')) →
  DecoratorNode_Initialize op make o w = (r, n', w') → evolves n n'.
Proof.
  unfold DecoratorNode_Initialize. intros Ho Hmake E. destruct o as [c|]; simpl in Ho.
  - rewrite Forall_singleton in Ho. destruct (op c w) as [[r1 c1] w1] eqn:E1.
    simplify_eq. apply Hmake. constructor. by eapply Ho.
  - simplify_eq. apply Hmake. constructor.
Qed.

Lemma Initialize_evolves n : evolving Initialize n.
Proof.
  induction n as [n IH] using node_ind. intros w r n' w'.
  destruct n; simpl in IH |- *;
    first
      [ eapply CompositeNode_Initialize_evolves; [done|]; intros cs' H;
        first [by apply evolves_parallel | apply evolves_loop; auto]
      | eapply DecoratorNode_Initialize_evolves; [done|]; intros o' H; evolve_child H
      | intros; evolve_leaf ].
Qed.

(* ------------------------------------------------------------------ *)
(** ** Ticks of sequences and selectors *)

Section Loop.
Context (tick : Node → World → Step BTStatus) (go : BTStatus).

Lemma tick_from_evolves cs :
  Forall (evolving tick) cs →
  ∀ skip pos w r cs' w', tick_from tick go skip pos cs w = (r, cs', w') → Forall2 evolves cs cs'.
Proof.
  induction 1 as [|c cs Hc _ IH]; simpl; intros skip pos w r cs' w' E; simplify_eq/=; [constructor|].
  destruct skip as [|skip].
  - destruct (tick c w) as [[r1 c1] w1] eqn:E1. apply Hc in E1. destruct r1 as [s|]; simplify_eq; auto.
    case_bool_decide; simplify_eq; auto.
    destruct (tick_from tick go 0 (S pos) cs w1) as [[r2 cs2] w2] eqn:E2. simplify_eq. eauto.
  - destruct (tick_from tick go skip (S pos) cs w) as [[r2 cs2] w2] eqn:E2. simplify_eq.
    constructor; [done|eauto].
Qed.

Lemma tick_from_index cs skip pos w i s cs' w' :
  tick_from tick go skip pos cs w = (Stopped i s, cs', w') →
  (pos + skip ≤ i < pos + length cs)%nat ∧ s ≠ go.
Proof.
  revert skip pos w cs'. induction cs as [|c cs IH]; simpl; intros skip pos w cs' E; [done|].
  destruct skip as [|skip].
  - destruct (tick c w) as [[[s1|] c1] w1]; [|done]. case_bool_decide; [|simplify_eq; split; [lia|done]].
    destruct (tick_from tick go 0 (S pos) cs w1) as [[r2 cs2] w2] eqn:E2. simplify_eq.
    apply IH in E2 as [? ?]. split; [lia|done].
  - destruct (tick_from tick go skip (S pos) cs w) as [[r2 cs2] w2] eqn:E2. simplify_eq.
    apply IH in E2 as [? ?]. split; [lia|done].
Qed.

Lemma loop_Tick_evolves (make : MemoryPolicy → nat → list Node → Node) p i cs w r n' w' :
  make = SequenceNode ∨ make = SelectorNode →
  Forall (evolving tick) cs →
  loop_Tick tick (make p) go p i cs w = (r, n', w') → evolves (make p i cs) n'.
Proof.
  unfold loop_Tick. intros Hm Hcs.
  assert (H0 : index_ok p i cs = true → index_ok p 0 cs = true) by done.
  destruct (CancellationRequested w) as [b w1]. destruct b.
  { intros [= <- <- <-]. apply evolves_loop; auto. }
  case_bool_decide. { intros [= <- <- <-]. apply evolves_loop; auto. }
  destruct (tick_from _ _ _ _ _ _) as [[r1 cs1] w2] eqn:E. pose proof (tick_from_evolves _ Hcs _ _ _ _ _ _ E).
  destruct r1 as [|j s|].
  - intros [= <- <- <-]. apply evolves_loop; auto.
  - apply tick_from_index in E as [Hj _].
    assert (index_ok p (match p with Memory => j | Stateless => 0%nat end) cs = true).
    { unfold index_ok. destruct p; [done|]. apply orb_true_iff; right.
      apply andb_true_iff; split; [apply Nat.ltb_lt; lia|done]. }
    destruct s; intros [= <- <- <-]; apply evolves_loop; auto.
  - intros [= <- <- <-]. apply evolves_loop; auto.
Qed.
End Loop.

(* ------------------------------------------------------------------ *)
(** ** Ticks of parallel nodes and decorators *)

Section Wrappers.
Context (tick : Node → World → Step BTStatus).

Lemma tick_all_evolves cs :
  Forall (evolving tick) cs →
  ∀ w ss cs' w', tick_all tick cs w = (ss, cs', w') →
  Forall2 evolves cs cs' ∧ length ss = length cs.
Proof.
  induction 1 as [|c cs Hc _ IH]; simpl; intros w ss cs' w' E; simplify_eq/=; [done|].
  destruct (tick c w) as [[r1 c1] w1] eqn:E1.
  destruct (tick_all tick cs w1) as [[r2 cs2] w2] eqn:E2. apply IH in E2 as [? ?]. simplify_eq/=.
  split; [|lia]. constructor; [by eapply Hc|done].
Qed.

Lemma ParallelNode_Tick_evolves st ft cs w r n' w' :
  Forall (evolving tick) cs →
  ParallelNode_Tick tick st ft cs w = (r, n', w') → evolves (ParallelNode st ft cs) n'.
Proof.
  unfold ParallelNode_Tick. intros Hcs. destruct (CancellationRequested w) as [[] w1].
  { by intros [= <- <- <-]. }
  case_bool_decide. { by intros [= <- <- <-]. }
  destruct (tick_all tick cs w1) as [[ss cs2] w2] eqn:E2. apply tick_all_evolves in E2 as [? ?]; [|done].
  destruct (ParallelStatus _ _ _ _). intros [= <- <- <-]. by apply evolves_parallel.
Qed.

(** The child after a tick, and after a reset that may follow. *)
Lemma ticked_child c w r c' w' :
  Forall (evolving tick) [c] → tick c w = (r, c', w') → option_Forall2 evolves (Some c) (Some c').
Proof. rewrite Forall_singleton. intros H E. constructor. by eapply H. Qed.

Lemma reset_child o c w r c' w' :
  option_Forall2 evolves o (Some c) → Reset c w = (r, c', w') → option_Forall2 evolves o (Some c').
Proof.
  intros Ho E%Reset_evolves. inversion Ho as [c0 ? H|]; subst. constructor. by transitivity c.
Qed.

(** Every branch of a decorator: the facts about its child are collected,
    then the branch is closed. *)
Ltac evolve_decorator IH :=
  repeat match goal with
  | E : tick ?c ?w = (_, ?c', _) |- _ =>
      lazymatch goal with
      | H : option_Forall2 evolves (Some c) (Some c') |- _ => fail
      | _ => pose proof (ticked_child _ _ _ _ _ IH E)
      end
  | H : option_Forall2 evolves ?o (Some ?c), E : Reset ?c ?w = (_, ?c', _) |- _ =>
      lazymatch goal with
      | _ : option_Forall2 evolves o (Some c') |- _ => fail
      | _ => pose proof (reset_child _ _ _ _ _ _ H E)
      end
  end;
  match goal with
  | |- evolves (?f ?o) (?f' ?o') =>
      let H := fresh "H" in
      assert (H : option_Forall2 evolves o o') by (assumption || apply evolves_child_refl);
      evolve_child H
  end.

Ltac tick_cases :=
  repeat (match goal with
          | |- context [match ?x with _ => _ end] => destruct x eqn:?
          end; simpl).
Lemma decorator_Tick_evolves n w r n' w' o :
  Forall (evolving tick) (option_list o) →
  (n = InverterNode o ∧ map_Tick tick InverterNode invert o w = (r, n', w')) ∨
  (n = SucceederNode o ∧ map_Tick tick SucceederNode succeed o w = (r, n', w')) ∨
  (n = FailerNode o ∧ map_Tick tick FailerNode fail o w = (r, n', w')) →
  evolves n n'.
Proof.
  unfold map_Tick. intros IH [[-> E]|[[-> E]|[-> E]]];
    revert E; tick_cases; simpl in IH; intros; simplify_eq; evolve_decorator IH.
Qed.

Lemma RetryNode_Tick_evolves m k o w r n' w' :
  Forall (evolving tick) (option_list o) →
  RetryNode_Tick tick m k o w = (r, n', w') → evolves (RetryNode m k o) n'.
Proof.
  unfold RetryNode_Tick, reset_then. intros IH. tick_cases; simpl in IH; intros; simplify_eq; evolve_decorator IH.
Qed.

Lemma RepeatNode_Tick_evolves m k o w r n' w' :
  Forall (evolving tick) (option_list o) →
  RepeatNode_Tick tick m k o w = (r, n', w') → evolves (RepeatNode m k o) n'.
Proof.
  unfold RepeatNode_Tick. intros IH. tick_cases; simpl in IH; intros; simplify_eq; evolve_decorator IH.
Qed.

Lemma LimiterNode_Tick_evolves m k o w r n' w' :
  Forall (evolving tick) (option_list o) →
  LimiterNode_Tick tick m k o w = (r, n', w') → evolves (LimiterNode m k o) n'.
Proof.
  unfold LimiterNode_Tick. intros IH. tick_cases; simpl in IH; intros; simplify_eq; evolve_decorator IH.
Qed.

Lemma TimeoutNode_Tick_evolves t st o w r n' w' :
  Forall (evolving tick) (option_list o) →
  TimeoutNode_Tick tick t st o w = (r, n', w') → evolves (TimeoutNode t st o) n'.
Proof.
  unfold TimeoutNode_Tick, time_out. intros IH. pose proof (evolves_child_refl o) as Ho.
  tick_cases; simpl in IH; intros; simplify_eq; evolve_decorator IH.
Qed.
End Wrappers.

(* ------------------------------------------------------------------ *)
(** ** Ticks of leaves *)

Lemma WaitNode_Tick_evolves p sat w r n' w' :
  WaitNode_Tick p sat w = (r, n', w') → evolves (WaitNode p sat) n'.
Proof. unfold WaitNode_Tick. intros. evolve_leaf. Qed.

Lemma DelayNode_Tick_evolves d st completed w r n' w' :
  DelayNode_Tick d st completed w = (r, n', w') → evolves (DelayNode d st completed) n'.
Proof.
  unfold DelayNode_Tick. intros. repeat case_match; simplify_eq/=; split; simpl; try done;
    destruct (0 <? d) eqn:?; try done; lia.
Qed.

Lemma CommandNode_Tick_evolves d c f t w r n' w' :
  CommandNode_Tick d c f t w = (r, n', w') → evolves (CommandNode d c f t) n'.
Proof. unfold CommandNode_Tick. intros. evolve_leaf. Qed.

Lemma MissionNode_Tick_evolves x m st t w r n' w' :
  MissionNode_Tick x m st t w = (r, n', w') → evolves (MissionNode x m st t) n'.
Proof. unfold MissionNode_Tick. intros. evolve_leaf. Qed.

Lemma Tick_evolves n : evolving Tick n.
Proof.
  induction n as [n IH] using node_ind. intros w r n' w'.
  destruct n; simpl in IH |- *; unfold leaf.
  1, 2, 7: by intros [= <- <- <-].
  1: apply WaitNode_Tick_evolves. 1: apply DelayNode_Tick_evolves.
  1: apply CommandNode_Tick_evolves. 1: apply MissionNode_Tick_evolves.
  1, 2: apply loop_Tick_evolves; auto.
  1: by apply ParallelNode_Tick_evolves.
  1, 2, 3: intros; eapply decorator_Tick_evolves; naive_solver.
  1: by apply RetryNode_Tick_evolves. 1: by apply RepeatNode_Tick_evolves.
  1: by apply LimiterNode_Tick_evolves. by apply TimeoutNode_Tick_evolves.
Qed.
End Proofs.
