(* ===== verification/BehaviorTree.v ===== *)
(** * Behavior trees and their execution

    [BehaviorTree] of src/bt/BehaviorTree.cpp: the root node, the status of
    the tree and its life cycle, published to the [ExecutionContext] of the
    tree; and [ExecuteTree] of src/bt/BehaviorTreeRuntime.cpp, the job that
    initialises and ticks a tree until it ends or is cancelled.

    The execution context is the one of ExecutionContext.v, kept in the world
    the nodes run in.  What the job uses of the scheduler and of the resource
    manager is the interface [JobEnvironment].  The loop of the job takes
    fuel, one unit per round. *)

From S2P Require Import Prelude Command BTNode.
From S2P Require ExecutionContext ResourceManager Scheduler.

Open Scope Z_scope.

(** The world holds the execution context that a tree is bound to. *)
Class TreeEnvironment := {
  tree_nodes :: BTEnvironment;
  execution : World → ExecutionContext.ExecutionContext;
  update_execution :
    (ExecutionContext.ExecutionContext → ExecutionContext.ExecutionContext) → World → World;
  execution_update f w : execution (update_execution f w) = f (execution w);
}.

Module BehaviorTree.
Section Tree.
Context {Env : TreeEnvironment}.

Record BehaviorTree := mkTree {
  root : option Node;
  status : BTStatus;
  initialized : bool;
  shutdown : bool;
}.

#[export] Instance eta_BehaviorTree : EtaRecord BehaviorTree := fun t =>
  mkTree (root t) (status t) (initialized t) (shutdown t).

Definition new_BehaviorTree (root : option Node) : BehaviorTree := mkTree root Idle false false.

Definition HasRoot (t : BehaviorTree) : bool := match root t with Some _ => true | None => false end.

Definition ToExecutionState (s : BTStatus) : ExecutionContext.ExecutionState :=
  match s with
  | Idle => ExecutionContext.StateCreated
  | Running => ExecutionContext.StateRunning
  | Success => ExecutionContext.StateCompleted
  | Failure => ExecutionContext.StateFailed
  | Aborted => ExecutionContext.StateAborted
  end.

Definition publish (s : ExecutionContext.ExecutionState) : World → World :=
  update_execution (ExecutionContext.SetState s).

Definition ApplyRuntimeStateLocked (s : BTStatus) (w : World) : World :=
  publish (ToExecutionState s) w.

(** [status_ = s] and its publication. *)
Definition settle (s : BTStatus) (t : BehaviorTree) (w : World) : BTStatus * BehaviorTree * World :=
  (s, t <| status := s |>, ApplyRuntimeStateLocked s w).

Definition AbortLocked (t : BehaviorTree) (w : World) : BTStatus * BehaviorTree * World :=
  settle Aborted t w.

(** The start timestamp is set once. *)
Definition stamp (w : World) : World :=
  match ExecutionContext.start_timestamp (execution w) with
  | Some _ => w
  | None =>
      let '(now, w) := steady_clock_now w in
      update_execution (ExecutionContext.SetStartTimestamp now) w
  end.

Definition InitializeLocked (t : BehaviorTree) (w : World) : BTStatus * BehaviorTree * World :=
  match root t with
  | None => AbortLocked t w
  | Some n =>
      if shutdown t then AbortLocked t w
      else if initialized t then (status t, t, w)
      else
        let w := stamp (publish ExecutionContext.StateStarting w) in
        match Initialize n w with
        | (Returned s, n, w) => settle s (t <| root := Some n |> <| initialized := true |>) w
        | (Threw, n, w) => settle Failure (t <| root := Some n |>) w
        end
  end.

Definition Tick (t : BehaviorTree) (w : World) : BTStatus * BehaviorTree * World :=
  if shutdown t || negb (HasRoot t) then AbortLocked t w
  else if isTerminal (status t) then (status t, t, w)
  else
    let '(early, t, w) :=
      if initialized t then (None, t, w)
      else
        let '(s, t, w) := InitializeLocked t w in
        (if bool_decide (s = Idle) then None else Some s, t, w) in
    match early with
    | Some s => (s, t, w)
    | None =>
        let '(cancelled, w) := CancellationRequested w in
        if cancelled then AbortLocked t w
        else match root t with
        | None => AbortLocked t w
        | Some n =>
            let w := publish ExecutionContext.StateRunning w in
            match BTNode.Tick n w with
            | (Returned s, n, w) => settle s (t <| root := Some n |>) w
            | (Threw, n, w) => settle Failure (t <| root := Some n |>) w
            end
        end
    end.

Definition Reset (t : BehaviorTree) (w : World) : bool * BehaviorTree * World :=
  match root t with
  | None => (false, t, w)
  | Some n =>
      if shutdown t then (false, t, w)
      else
        let '(r, n, w) := BTNode.Reset n w in
        let t := t <| root := Some n |> in
        let '(s, t) :=
          match r with Returned _ => (Idle, t <| initialized := false |>) | Threw => (Failure, t) end in
        let '(_, t, w) := settle s t w in
        (match r with Returned _ => true | Threw => false end, t, w)
  end.

Definition Shutdown (t : BehaviorTree) (w : World) : bool * BehaviorTree * World :=
  if shutdown t then (false, t, w)
  else
    let '(t, w) :=
      match root t with
      | None => (t, w)
      | Some n =>
          match BTNode.Shutdown n w with
          | (Returned _, n, w) => (t <| root := Some n |>, w)
          | (Threw, n, w) => (t <| root := Some n |> <| status := Aborted |>, w)
          end
      end in
    let s := if bool_decide (status t = Running) then Aborted else status t in
    let '(_, t, w) := settle s (t <| initialized := false |> <| shutdown := true |>) w in
    (true, t, w).

End Tree.
End BehaviorTree.

(* ------------------------------------------------------------------ *)
(** ** Executing a tree as a job *)

(** The [RuntimeJobContext] of the job, and what the job uses of the resource
    manager; [bind] is the effect of binding the context of the tree. *)
Class JobEnvironment {Env : TreeEnvironment} := {
  Job_IsCancellationRequested : World → bool * World;
  Job_WaitIfPaused : World → bool * World;
  Job_RequestCancellation : World → World;
  SharedExecution : World → option ExecutionContext.ExecutionContext;
  bind_execution : ExecutionContext.ExecutionContext → World → World;
  Manager_TryAcquire : string → ResourceManager.ResourceLockMode → World →
    option ResourceManager.ResourceLock * World;
  Manager_Acquire : string → ResourceManager.ResourceLockMode → Z → World →
    option ResourceManager.ResourceLock * World;
  Manager_Release : ResourceManager.ResourceLock → World → World;
  wait_for : Z → World → World;
}.

Module BehaviorTreeRuntime.
Import BehaviorTree.

Record BehaviorTreeJobOptions := mkOptions {
  executionId : Z;
  priority : Scheduler.RuntimeJobPriority;
  executionMode : Scheduler.RuntimeExecutionMode;
  resourceId : string;
  resourceMode : ResourceManager.ResourceLockMode;
  resourceTimeout : Z;
  tickInterval : Z;
  metadata : ExecutionContext.ExecutionMetadata;
}.

Definition default_BehaviorTreeJobOptions : BehaviorTreeJobOptions :=
  mkOptions 0 Scheduler.JobNormal Scheduler.Parallel EmptyString ResourceManager.Exclusive 0 10 ∅.

Definition MakeRuntimeJob (o : BehaviorTreeJobOptions) (callback : bool) : Scheduler.RuntimeJob :=
  Scheduler.mkJob (executionId o) (priority o) (executionMode o) ExecutionContext.ScopeBehaviorTree
    (metadata o) callback.

Section Runtime.
Context {Env : TreeEnvironment} {Job : JobEnvironment}.

Definition TerminalResult (s : BTStatus) : Scheduler.RuntimeJobResult :=
  match s with
  | Success => Scheduler.mkJobResult ExecutionContext.StateCompleted "Behavior tree completed"
  | Failure => Scheduler.mkJobResult ExecutionContext.StateFailed "Behavior tree failed"
  | Aborted => Scheduler.mkJobResult ExecutionContext.StateAborted "Behavior tree aborted"
  | Idle | Running =>
      Scheduler.mkJobResult ExecutionContext.StateFailed
        "Behavior tree returned a nonterminal status"
  end.

Definition AcquireResource (o : BehaviorTreeJobOptions) (w : World) :
    option ResourceManager.ResourceLock * World :=
  if bool_decide (resourceId o = EmptyString) then (Some ResourceManager.no_lock, w)
  else if resourceTimeout o =? 0 then Manager_TryAcquire (resourceId o) (resourceMode o) w
  else Manager_Acquire (resourceId o) (resourceMode o) (resourceTimeout o) w.

(** What a cancelled job does to its tree. *)
Definition cancel_tree (message : string) (t : BehaviorTree) (w : World) :
    Scheduler.RuntimeJobResult * BehaviorTree * World :=
  let '(_, t, w) := Shutdown t (Job_RequestCancellation w) in
  (Scheduler.mkJobResult ExecutionContext.StateCancelled message, t, w).

Fixpoint run_tree (fuel : nat) (interval : Z) (s : BTStatus) (t : BehaviorTree) (w : World) :
    option (Scheduler.RuntimeJobResult * BehaviorTree * World) :=
  if isTerminal s then Some (TerminalResult s, t, w)
  else match fuel with
  | O => None
  | S fuel =>
      let '(cancelled, w) := Job_IsCancellationRequested w in
      if cancelled then Some (cancel_tree "Behavior tree cancelled" t w)
      else
        let '(resumed, w) := Job_WaitIfPaused w in
        if negb resumed then Some (cancel_tree "Behavior tree cancelled while paused" t w)
        else
          let '(s, t, w) := Tick t w in
          run_tree fuel interval s t (if isTerminal s then w else wait_for interval w)
  end.

(** The result, the tree if there is one, and the world. *)
Definition ExecuteTree (fuel : nat) (tree : option BehaviorTree) (o : BehaviorTreeJobOptions)
    (w : World) : option (Scheduler.RuntimeJobResult * option BehaviorTree * World) :=
  let failed message := Scheduler.mkJobResult ExecutionContext.StateFailed message in
  match tree with
  | None => Some (failed "Behavior tree is required", None, w)
  | Some t =>
      if (tickInterval o <=? 0) || (resourceTimeout o <? 0) then
        Some (failed "Behavior tree tick interval must be positive and resource timeout nonnegative",
              tree, w)
      else match AcquireResource o w with
      | (None, w) => Some (failed "Behavior tree resource is unavailable", tree, w)
      | (Some lock, w) =>
          match SharedExecution w with
          | None => Some (failed "Behavior tree runtime binding failed", tree, Manager_Release lock w)
          | Some e =>
              let '(s, t, w) := InitializeLocked t (bind_execution e w) in
              '(result, t, w) ← run_tree fuel (tickInterval o) s t w;
              Some (result, Some t, Manager_Release lock w)
          end
      end
  end.
End Runtime.
End BehaviorTreeRuntime.
