(* ===== verification/BTExample.v ===== *)
(** * A world to run behavior trees in

    A small concrete world for the interfaces of BTNode.v and BehaviorTree.v:
    a clock that ticks when it is read, an execution context, and the rounds
    until the job is cancelled.  The theorems on nodes, trees and jobs are
    tried on it. *)

From S2P Require Import Prelude Command BTNode BehaviorTree.
From S2P Require Mission ExecutionContext Cancellation ResourceManager Scheduler.

Open Scope Z_scope.

Record ExampleWorld := mkWorld {
  clock : Z;
  context : ExecutionContext.ExecutionContext;
  rounds : nat;
}.

#[export] Instance eta_ExampleWorld : EtaRecord ExampleWorld := fun w =>
  mkWorld (clock w) (context w) (rounds w).

Definition example_nodes : BTEnvironment := {|
  World := ExampleWorld;
  CancellationRequested w := (ExecutionContext.cancellation_source (context w), w);
  steady_clock_now w := (clock w, w <| clock ::= Z.add 1 |>);
  CommandDispatcher := unit;
  Future := unit;
  ExecuteAsync _ _ w := (Returned tt, w);
  Dispatcher_Cancel _ _ w := w;
  future_ready _ w := (Returned false, w);
  future_get _ w := (Threw, w);
  MissionExecutor := unit;
  Executor_Start _ _ w := (Returned Mission.MissionRunning, w);
  Executor_GetStatus _ w := (Returned Mission.MissionCompleted, w);
  Executor_Cancel _ w := w;
  Executor_Stop _ w := w;
|}.

#[local] Instance example_environment : TreeEnvironment := {|
  tree_nodes := example_nodes;
  execution := context;
  update_execution f w := w <| context ::= f |>;
  execution_update f w := eq_refl;
|}.

#[local] Instance example_job : JobEnvironment := {|
  Job_IsCancellationRequested w := (bool_decide (rounds w = 0%nat), w);
  Job_WaitIfPaused w := (true, w);
  Job_RequestCancellation w := w;
  SharedExecution w := Some (context w);
  bind_execution e w := w <| context := e |>;
  Manager_TryAcquire _ _ w := (Some ResourceManager.no_lock, w);
  Manager_Acquire _ _ _ w := (None, w);
  Manager_Release _ w := w;
  wait_for _ w := w <| rounds ::= pred |>;
|}.

Definition example_context : ExecutionContext.ExecutionContext :=
  ExecutionContext.mkExecutionContext 1 ExecutionContext.ScopeBehaviorTree 0
    ExecutionContext.StateCreated None None false (Cancellation.mkSource 0 Cancellation.no_registration) ∅.

Definition example_world : ExampleWorld := mkWorld 0 example_context 3.

Definition succeeds : Node := ActionNode (Some (λ w, (Returned Success, w))).
Definition fails : Node := ActionNode (Some (λ w, (Returned Failure, w))).
Definition runs : Node := ActionNode (Some (λ w, (Returned Running, w))).
Definition throws : Node := ActionNode (Some (λ w, (Threw, w))).

(** An action, then two attempts at one that fails, next to a delay. *)
Definition example_node : Node :=
  SequenceNode Memory 0
    [succeeds;
     ParallelNode 1 2 [new_Retry 2 (Some fails); DelayNode 100 None false];
     RepeatNode 0 0 (Some succeeds)].
