(* ===== verification/BTProperties.v ===== *)
(** * Properties of behavior tree nodes

    What a node does over its life: any operations, from any states of the
    world, keep it well formed and the same tree; a reset brings back the
    tree that was built; sequences and selectors resume where they stopped;
    a parallel node counts its children; a retry node gives up in time. *)

From S2P Require Import Prelude Command BTNode BTProofs BehaviorTree BTExample.
From S2P Require ExecutionContext.

Open Scope Z_scope.

Section Properties.
Context {Env : BTEnvironment}.
Implicit Types (n : Node) (cs : list Node) (w : World).

(* ------------------------------------------------------------------ *)
(** ** The life of a node *)

Inductive Operation := DoInitialize | DoTick | DoReset | DoShutdown.

(** One operation, called in any world: between two calls other threads may
    have changed it. *)
Definition operate (n : Node) (call : Operation * World) : Node :=
  match call.1 with
  | DoInitialize => (Initialize n call.2).1.2
  | DoTick => (Tick n call.2).1.2
  | DoReset => (Reset n call.2).1.2
  | DoShutdown => (Shutdown n call.2).1.2
  end.

Definition operates (n : Node) (calls : list (Operation * World)) : Node := foldl operate n calls.

Lemma evolving_node {A} (op : Node → World → Step A) n w : evolving op n → evolves n (op n w).1.2.
Proof. intros H. destruct (op n w) as [[r n'] w'] eqn:E. by eapply H. Qed.

Lemma operates_evolves calls n : evolves n (operates n calls).
Proof.
  revert n. induction calls as [|[o w] calls IH]; intros n; [done|]. simpl.
  transitivity (operate n (o, w)); [|apply IH].
  destruct o; apply evolving_node;
    eauto using Initialize_evolves, Tick_evolves, Reset_evolves, Shutdown_evolves.
Qed.

(** Whatever operations are called on a node, however they end and
    whatever happens in between, it remains the same tree with the same
    parameters, and its run state remains consistent with them: a counter
    keeps below its limit, an index points to a child, an active command or
    mission has a dispatcher or executor and no terminal status. *)
Theorem operations_well_formed n calls :
  node_ok n = true →
  node_ok (operates n calls) = true ∧ pristine (operates n calls) = pristine n.
Proof. destruct (operates_evolves calls n) as [Hp Hok]. auto. Qed.

Lemma for_children_returns (op : Node → World → Step unit) (f : Node → Node) cs :
  Forall (λ c, ∀ w c' w', op c w = (Returned tt, c', w') → c' = f c) cs →
  ∀ w cs' w', for_children op cs w = (Returned tt, cs', w') → cs' = map f cs.
Proof.
  induction 1 as [|c cs Hc _ IH]; simpl; intros w cs' w' E; simplify_eq/=; [done|].
  destruct (op c w) as [[[[]|] c1] w1] eqn:E1; [|done].
  destruct (for_children op cs w1) as [[r2 cs2] w2] eqn:E2. simplify_eq/=. f_equal; eauto.
Qed.

Lemma Reset_pristine n : ∀ w n' w', Reset n w = (Returned tt, n', w') → n' = pristine n.
Proof.
  induction n as [n IH] using node_ind. intros w n' w'.
  destruct n; simpl in IH |- *; unfold with_children, with_child, for_child;
    try (intros; repeat case_match; simplify_eq; done);
    try (destruct (for_children _ _ _) as [[r1 cs1] w1] eqn:E; intros [= -> <- <-];
         apply (for_children_returns _ _ _ IH) in E; by subst);
    (match goal with |- context [match ?o with _ => _ end] => destruct o as [c|] end;
     [simpl in IH; rewrite Forall_singleton in IH; destruct (Reset c w) as [[r1 c1] w1] eqn:E1;
      intros [= -> <- <-]; apply IH in E1; by subst
     |by intros [= <- <-]]).
Qed.

Lemma Reset_restores n calls w n' w' :
  Reset (operates n calls) w = (Returned tt, n', w') → pristine n = n → n' = n.
Proof.
  intros E Hn. apply Reset_pristine in E as ->. rewrite <-Hn at 2. apply operates_evolves.
Qed.

(* ------------------------------------------------------------------ *)
(** ** Sequences and selectors *)

(** The children [cs], ticked one after the other, all answer [go]. *)
Inductive passes (go : BTStatus) : list Node → World → list Node → World → Prop :=
  | passes_nil w : passes go [] w [] w
  | passes_cons c cs w c' w1 cs' w2 :
      Tick c w = (Returned go, c', w1) → passes go cs w1 cs' w2 →
      passes go (c :: cs) w (c' :: cs') w2.

(** What a loop over [cs] from [skip] on answers, and where it stopped. *)
Definition loop_spec (go : BTStatus) (skip : nat) cs w (r : LoopResult) cs' w' (pos : nat) : Prop :=
  ∃ skipped ran ran' w1,
    length skipped = skip ∧ passes go ran w ran' w1 ∧
    ((cs = skipped ++ ran ∧ r = Exhausted ∧ cs' = skipped ++ ran' ∧ w' = w1) ∨
     (∃ c c' rest s, cs = skipped ++ ran ++ c :: rest ∧ Tick c w1 = (s, c', w') ∧
        s ≠ Returned go ∧ cs' = skipped ++ ran' ++ c' :: rest ∧
        r = match s with
            | Threw => LoopThrew
            | Returned s => Stopped (pos + skip + length ran) s
            end)).

Lemma tick_from_spec go cs : ∀ skip pos w r cs' w',
  (skip ≤ length cs)%nat →
  tick_from Tick go skip pos cs w = (r, cs', w') → loop_spec go skip cs w r cs' w' pos.
Proof.
  induction cs as [|c cs IH]; intros skip pos w r cs' w' Hskip E; simpl in *.
  { simplify_eq. exists [], [], [], w'. destruct skip; [|lia].
    split_and!; [done|constructor|]. by left. }
  destruct skip as [|skip].
  - destruct (Tick c w) as [[s1 c1] w1] eqn:E1. destruct s1 as [s|].
    + case_bool_decide as Hs.
      * subst s. destruct (tick_from _ _ _ _ _ _) as [[r2 cs2] w2] eqn:E2. simplify_eq.
        apply IH in E2 as (sk & ran & ran' & w3 & Hlen & Hp & H); [|lia].
        destruct sk; [|done]. exists [], (c :: ran), (c1 :: ran'), w3.
        split_and!; [done|by econstructor|].
        destruct H as [(-> & -> & -> & ->)|(d & d' & rest & s & -> & Ed & Hs & -> & ->)]; [by left|right].
        exists d, d', rest, s. split_and!; try done. destruct s; [|done]. f_equal; simpl; lia.
      * simplify_eq. exists [], [], [], w. split_and!; [done|constructor|]. right.
        exists c, c1, cs, (Returned s). split_and!; try done; [congruence|]. f_equal; simpl; lia.
    + simplify_eq. exists [], [], [], w. split_and!; [done|constructor|]. right.
      by exists c, c1, cs, Threw.
  - destruct (tick_from _ _ _ _ _ _) as [[r2 cs2] w2] eqn:E2. simplify_eq.
    apply IH in E2 as (sk & ran & ran' & w3 & Hlen & Hp & H); [|lia].
    exists (c :: sk), ran, ran', w3. split_and!; [simpl; lia|done|].
    destruct H as [(-> & -> & -> & ->)|(d & d' & rest & s & -> & Ed & Hs & -> & ->)]; [by left|right].
    exists d, d', rest, s. split_and!; try done. destruct s; [|done]. f_equal; lia.
Qed.

(** A tick of a sequence that is not cancelled ticks its children from
    the current index on, as long as they succeed.  It succeeds when none is
    left; otherwise it answers what the last one ticked answers, [Idle] as
    [Running], the later children are not touched, and it is that child a
    node with memory resumes at if it runs, the first one in any other case.
    A selector is the same with [Failure] for [Success]. *)
Theorem loop_Tick_spec (make : MemoryPolicy → nat → list Node → Node) go p i cs w w0 r n' w' :
  (make = SequenceNode ∧ go = Success ∨ make = SelectorNode ∧ go = Failure) →
  index_ok p i cs = true →
  CancellationRequested w = (false, w0) →
  Tick (make p i cs) w = (r, n', w') →
  ∃ skipped ran ran' w1, length skipped = i ∧ passes go ran w0 ran' w1 ∧
    ((cs = skipped ++ ran ∧ r = Returned go ∧ n' = make p 0%nat (skipped ++ ran') ∧ w' = w1) ∨
     ∃ c c' rest s j, cs = skipped ++ ran ++ c :: rest ∧ Tick c w1 = (s, c', w') ∧
       s ≠ Returned go ∧ n' = make p j (skipped ++ ran' ++ c' :: rest) ∧
       match s with
       | Threw => r = Threw ∧ j = i
       | Returned (Running | Idle) =>
           r = Returned Running ∧ j = if p is Memory then (i + length ran)%nat else 0%nat
       | Returned s => r = Returned s ∧ j = 0%nat
       end).
Proof.
  intros Hmake Hi Hw E.
  assert (E' : loop_Tick Tick (make p) go p i cs w = (r, n', w')).
  { by destruct Hmake as [[-> ->]|[-> ->]]. }
  clear E. unfold loop_Tick in E'. rewrite Hw in E'.
  assert (Hidx : match p with Memory => i | Stateless => 0%nat end = i ∧ (i ≤ length cs)%nat).
  { unfold index_ok in Hi. apply orb_true_iff in Hi as [->%Nat.eqb_eq|[?%Nat.ltb_lt Hp]%andb_true_iff].
    - split; [by destruct p|lia].
    - apply bool_decide_eq_true in Hp as ->. split; [done|lia]. }
  destruct Hidx as [Hidx Hle]. rewrite Hidx in E'. case_bool_decide as Hcs.
  { simplify_eq/=. destruct i; [|simpl in Hle; lia]. exists [], [], [], w'.
    split_and!; [done|constructor|by left]. }
  destruct (tick_from _ _ _ _ _ _) as [[r2 cs2] w2] eqn:E2.
  apply tick_from_spec in E2 as (sk & ran & ran' & w1 & Hlen & Hp & H); [|done].
  exists sk, ran, ran', w1. split_and!; [done..|].
  destruct H as [(-> & -> & -> & ->)|(c & c' & rest & s & -> & Ec & Hs & -> & ->)].
  { left. by simplify_eq. }
  right. destruct s as [s|]; [destruct s|]; simplify_eq; eexists c, c', rest, _, _;
    split_and!; try done; by destruct p.
Qed.

(* ------------------------------------------------------------------ *)
(** ** Delays *)

(** A delay of a positive duration never remembers that it has completed:
    ticked again after its success it starts anew. *)
Lemma delay_starts_anew d st w n' w' :
  0 < d → DelayNode_Tick d st false w = (Returned Success, n', w') → n' = DelayNode d None false.
Proof.
  unfold DelayNode_Tick. intros Hd E. rewrite (proj2 (Z.leb_gt d 0)) in E by lia.
  by repeat case_match; simplify_eq.
Qed.

(* ------------------------------------------------------------------ *)
(** ** Parallel nodes *)

Definition required_successes (success_threshold : Z) (ss : list BTStatus) : Z :=
  if success_threshold =? 0 then Z.of_nat (length ss)
  else Z.min success_threshold (Z.of_nat (length ss)).

Definition answered (s : BTStatus) (ss : list BTStatus) : Z :=
  count_status (λ s', bool_decide (s' = s)) ss.

Lemma count_status_Permutation P ss ss' : ss ≡ₚ ss' → count_status P ss = count_status P ss'.
Proof. unfold count_status. by intros ->. Qed.

Lemma count_status_pos P ss : (0 <? count_status P ss) = true ↔ ∃ s, s ∈ ss ∧ P s = true.
Proof.
  unfold count_status. rewrite Z.ltb_lt. split.
  - intros H. destruct (filter _ ss) as [|s l] eqn:E; [done|].
    assert (Hs : s ∈ filter P ss) by (rewrite E; apply elem_of_cons; by left).
    apply list_elem_of_filter in Hs as [H1 H2]. exists s. split; [done|by apply Is_true_true].
  - intros (s & Hs & HP). assert (Hf : s ∈ filter P ss) by (apply list_elem_of_filter; split; [by apply Is_true_true|done]).
    destruct (filter P ss); [by apply not_elem_of_nil in Hf|done].
Qed.

Lemma ParallelStatus_Permutation st ft ss ss' w :
  ss ≡ₚ ss' → ParallelStatus st ft ss w = ParallelStatus st ft ss' w.
Proof.
  intros H. unfold ParallelStatus. by rewrite !(count_status_Permutation _ _ _ H), (Permutation_length H).
Qed.

Lemma answered_pos s ss : (0 <? answered s ss) = true ↔ s ∈ ss.
Proof.
  unfold answered. rewrite count_status_pos. split.
  - by intros (s' & Hs & ->%bool_decide_eq_true).
  - intros. exists s. by rewrite bool_decide_eq_true.
Qed.

Lemma running_pos ss :
  (0 <? count_status (λ s, bool_decide (s = Running) || bool_decide (s = Idle)) ss) = true ↔
  Running ∈ ss ∨ Idle ∈ ss.
Proof.
  rewrite count_status_pos. split.
  - intros (s & Hs & [->%bool_decide_eq_true | ->%bool_decide_eq_true]%orb_true_iff); auto.
  - intros [H|H]; eexists; eauto.
Qed.

(** C25: The answer of a parallel node does not depend on the order in which
    its children answer.  It is aborted if a child is, or if a cancellation
    is requested meanwhile; otherwise it succeeds exactly when fewer children
    fail than the failure threshold and enough succeed, and it runs exactly
    when neither threshold is reached and a child runs. *)
Theorem Parallel_Tick_spec st ft cs w w0 r n' w' :
  CancellationRequested w = (false, w0) → cs ≠ [] →
  Tick (ParallelNode st ft cs) w = (r, n', w') →
  ∃ ss cs' w1 s, tick_all Tick cs w0 = (ss, cs', w1) ∧ n' = ParallelNode st ft cs' ∧
    r = Returned s ∧ (∀ ss', ss' ≡ₚ ss → ParallelStatus st ft ss' w1 = (s, w')) ∧
    (s = Aborted ↔ Aborted ∈ ss ∨ (CancellationRequested w1).1 = true) ∧
    (s ≠ Aborted →
     (s = Success ↔ answered Failure ss < ft ∧ required_successes st ss ≤ answered Success ss) ∧
     (s = Running ↔ answered Failure ss < ft ∧ answered Success ss < required_successes st ss ∧
                    (Running ∈ ss ∨ Idle ∈ ss)) ∧ s ≠ Idle).
Proof.
  intros Hw Hcs E. simpl in E. unfold ParallelNode_Tick in E. rewrite Hw, bool_decide_false in E by done.
  destruct (tick_all Tick cs w0) as [[ss cs'] w1] eqn:Eall.
  destruct (ParallelStatus st ft ss w1) as [s w2] eqn:Es. simplify_eq.
  exists ss, cs', w1, s. split_and!; try done.
  { intros ss' H. by rewrite (ParallelStatus_Permutation _ _ _ _ _ H). }
  all: unfold ParallelStatus in Es; pose proof (answered_pos Aborted ss) as Ha;
    pose proof (running_pos ss) as Hr; revert Es;
    change (if st =? 0 then Z.of_nat (length ss) else Z.min st (Z.of_nat (length ss)))
      with (required_successes st ss);
    change (count_status (λ s, bool_decide (s = Aborted)) ss) with (answered Aborted ss);
    change (count_status (λ s, bool_decide (s = Failure)) ss) with (answered Failure ss);
    change (count_status (λ s, bool_decide (s = Success)) ss) with (answered Success ss).
  - destruct (0 <? answered Aborted ss); [|destruct (CancellationRequested w1) as [[] w3]]; simpl;
      intros [= <- <-]; repeat case_match; naive_solver.
  - destruct (0 <? answered Aborted ss); [|destruct (CancellationRequested w1) as [[] w3]]; simpl;
      intros [= <- <-]; try done; intros _;
      destruct (Z.leb_spec ft (answered Failure ss));
      destruct (Z.leb_spec (required_successes st ss) (answered Success ss));
      destruct (0 <? count_status _ ss); split_and!; try done; naive_solver lia.
Qed.

(* ------------------------------------------------------------------ *)
(** ** Retries *)

(** The answers of [k] ticks in a row. *)
Fixpoint ticks (k : nat) (n : Node) (w : World) : list (Throws BTStatus) * Node * World :=
  match k with
  | O => ([], n, w)
  | S k =>
      let '(r, n, w) := Tick n w in
      let '(rs, n, w) := ticks k n w in (r :: rs, n, w)
  end.

Lemma ticks_S k n w :
  ticks (S k) n w =
  let '(r, n, w) := Tick n w in let '(rs, n, w) := ticks k n w in (r :: rs, n, w).
Proof. done. Qed.

Section Retry.
(** In the worlds [calm] nothing is cancelled, and the child fails. *)
Context (c : Node) (calm : World → Prop).
Hypothesis never_cancelled : ∀ w, calm w → ∃ w', CancellationRequested w = (false, w') ∧ calm w'.
Hypothesis child_fails : ∀ w, calm w → ∃ c1 w1 w2,
  Tick c w = (Returned Failure, c1, w1) ∧ Reset c1 w1 = (Returned tt, c, w2) ∧ calm w2.

Lemma retry_from m d : ∀ k w,
  calm w → 0 ≤ k → m < u64_modulus → m = k + Z.of_nat (S d) →
  ∃ c' w', ticks (S d) (RetryNode m k (Some c)) w =
    (replicate d (Returned Running) ++ [Returned Failure], RetryNode m 0 (Some c'), w').
Proof.
  induction d as [|d IH]; intros k w Hcalm Hk Hm Hd.
  all: destruct (never_cancelled w Hcalm) as (w0 & Hw & Hcalm0);
    destruct (child_fails w0 Hcalm0) as (c1 & w1 & w2 & Hc & Hr & Hcalm2);
    rewrite ticks_S; cbn [Tick]; unfold RetryNode_Tick; rewrite Hw, Hc, u64_incr_small by lia.
  - rewrite (proj2 (Z.leb_le _ _)) by lia. by eexists c1, w1.
  - rewrite (proj2 (Z.leb_gt _ _)) by lia. unfold reset_then. rewrite Hr.
    destruct (IH (k + 1) w2) as (c' & w' & ->); [done|lia..|]. by exists c', w'.
Qed.

(** A retry node whose child fails every time runs until the child has
    been tried [max_attempts] times, then it fails, ready to start over: it
    neither gives up early nor retries for ever. *)
Theorem Retry_gives_up m w :
  calm w → 1 ≤ m < u64_modulus →
  ∃ c' w', ticks (Z.to_nat m) (new_Retry m (Some c)) w =
    (replicate (Z.to_nat m - 1) (Returned Running) ++ [Returned Failure],
     RetryNode m 0 (Some c'), w').
Proof.
  intros Hcalm Hm. unfold new_Retry. rewrite Z.max_r by lia.
  destruct (retry_from m (Z.to_nat m - 1) 0 w) as (c' & w' & E); [done|lia..|].
  replace (S (Z.to_nat m - 1)) with (Z.to_nat m) in E by lia. eauto.
Qed.
End Retry.
End Properties.

(* ------------------------------------------------------------------ *)
(** ** Examples *)

#[local] Existing Instances example_environment.

Lemma operations_well_formed_witness :
  let calls := [(DoInitialize, example_world); (DoTick, example_world); (DoTick, example_world);
                (DoShutdown, example_world)] in
  node_ok example_node = true ∧
  (Tick example_node example_world).1.1 = Returned Running ∧
  node_ok (operates example_node calls) = true ∧ pristine (operates example_node calls) = pristine example_node.
Proof.
  intros calls. assert (H : node_ok example_node = true) by by vm_compute.
  split; [exact H|]. split; [by vm_compute|]. exact (operations_well_formed example_node calls H).
Defined.

Lemma loop_Tick_spec_witness :
  Tick (SequenceNode Memory 0 [succeeds; runs; fails]) example_world =
    (Returned Running, SequenceNode Memory 1 [succeeds; runs; fails], example_world) ∧
  ∃ skipped ran ran' w1, length skipped = 0%nat ∧ passes Success ran example_world ran' w1 ∧
    (ran = [succeeds; runs; fails] ∨ ∃ c rest, [succeeds; runs; fails] = skipped ++ ran ++ c :: rest).
Proof.
  assert (E : Tick (SequenceNode Memory 0 [succeeds; runs; fails]) example_world =
    (Returned Running, SequenceNode Memory 1 [succeeds; runs; fails], example_world)) by by vm_compute.
  split; [exact E|].
  destruct (loop_Tick_spec SequenceNode Success Memory 0 [succeeds; runs; fails] example_world
    example_world _ _ _ (or_introl (conj eq_refl eq_refl)) eq_refl eq_refl E)
    as (sk & ran & ran' & w1 & Hlen & Hp & [(Hcs & _)|(c & c' & rest & s & j & Hcs & _)]);
    exists sk, ran, ran', w1; (split; [exact Hlen|]); (split; [exact Hp|]).
  - left. destruct sk; [exact (eq_sym Hcs)|discriminate Hlen].
  - right. exists c, rest. exact Hcs.
Defined.

Lemma Parallel_Tick_spec_witness :
  ∃ ss cs' w1, tick_all Tick [succeeds; runs; throws] example_world = (ss, cs', w1) ∧
    ss = [Success; Running; Failure] ∧
    ∀ ss', ss' ≡ₚ ss → (ParallelStatus 0 2 ss' w1).1 = Running.
Proof.
  assert (E : Tick (ParallelNode 0 2 [succeeds; runs; throws]) example_world =
    (Returned Running, ParallelNode 0 2 [succeeds; runs; throws], example_world)) by by vm_compute.
  destruct (Parallel_Tick_spec 0 2 [succeeds; runs; throws] example_world example_world _ _ _ eq_refl
    ltac:(discriminate) E) as (ss & cs' & w1 & s & Hall & _ & Hs & Hperm & _).
  exists ss, cs', w1. split; [exact Hall|]. vm_compute in Hall. injection Hall as <- <- <-.
  split; [reflexivity|]. intros ss' H. rewrite (Hperm ss' H). injection Hs as <-. reflexivity.
Defined.

Lemma Retry_gives_up_witness :
  ∃ c' w', ticks 3 (new_Retry 3 (Some fails)) example_world =
    ([Returned Running; Returned Running; Returned Failure], RetryNode 3 0 (Some c'), w').
Proof.
  assert (Hcalm : ∀ w : ExampleWorld, ExecutionContext.cancellation_source (context w) = false →
    CancellationRequested w = (false, w)) by (intros w Hw; simpl; by rewrite Hw).
  assert (Hm : 1 ≤ 3 < u64_modulus) by (unfold u64_modulus; lia).
  assert (Hfails : ∀ w : ExampleWorld, ExecutionContext.cancellation_source (context w) = false →
    ∃ c1 w1 w2, Tick fails w = (Returned Failure, c1, w1) ∧ Reset c1 w1 = (Returned tt, fails, w2) ∧
      ExecutionContext.cancellation_source (context w2) = false).
  { intros w Hw. exists fails, w, w. split; [|by split].
    simpl. unfold ActionNode_Tick. simpl. by rewrite Hw. }
  pose proof (Retry_gives_up fails (λ w, ExecutionContext.cancellation_source (context w) = false)
    (λ w Hw, ex_intro _ w (conj (Hcalm w Hw) Hw)) Hfails 3 example_world eq_refl Hm) as H.
  exact H.
Defined.
