(* ===== verification/TreeProperties.v ===== *)
(** * Properties of behavior trees and of the jobs that run them

    A tree publishes its status and keeps its root well formed, whatever is
    called on it; a reset brings back the tree that was built; a tree that is
    shut down stays so; a job ends, with a terminal result, by the deadline
    of its cancellation at the latest. *)

From S2P Require Import Prelude Command BTNode BTProofs BTProperties BehaviorTree BTExample.
From S2P Require ExecutionContext ResourceManager Scheduler.
Import BehaviorTree.BehaviorTree BehaviorTreeRuntime.

Open Scope Z_scope.

Section Tree.
Context {Env : TreeEnvironment}.
Implicit Types (t : BehaviorTree) (w : World).

(** The execution context shows the status of the tree. *)
Definition published t w : Prop :=
  ExecutionContext.state (execution w) = ToExecutionState (status t).

Definition root_evolves t t' : Prop := option_Forall2 evolves (root t) (root t').

#[local] Instance root_evolves_preorder : PreOrder root_evolves.
Proof.
  split.
  - intros t. apply evolves_child_refl.
  - intros t1 t2 t3 H1 H2. unfold root_evolves in *.
    destruct H1; inversion H2; subst; constructor. by etransitivity.
Qed.

Lemma publish_state s w : ExecutionContext.state (execution (publish s w)) = s.
Proof. unfold publish. by rewrite execution_update. Qed.

Lemma settle_published s t w : published (settle s t w).1.2 (settle s t w).2.
Proof. unfold published, settle, ApplyRuntimeStateLocked. simpl. apply publish_state. Qed.

(** What every operation guarantees of the tree it leaves. *)
Definition keeps t w t' w' : Prop :=
  root_evolves t t' ∧ (published t w → published t' w') ∧
  (shutdown t = true → shutdown t' = true ∧ root t' = root t).

Lemma keeps_trans t1 w1 t2 w2 t3 w3 : keeps t1 w1 t2 w2 → keeps t2 w2 t3 w3 → keeps t1 w1 t3 w3.
Proof.
  intros (Hr & Hp & Hs) (Hr' & Hp' & Hs'). split_and!; [by etransitivity|auto|].
  intros [H1 H2]%Hs. apply Hs' in H1 as [??]. split; congruence.
Qed.

Lemma settle_keeps s t0 t w0 w r t' w' :
  root_evolves t0 t → (shutdown t0 = true → shutdown t = true ∧ root t = root t0) →
  settle s t w = (r, t', w') → keeps t0 w0 t' w' ∧ r = status t'.
Proof.
  intros Hr Hs E. pose proof (settle_published s t w) as H. rewrite E in H.
  unfold settle in E. simplify_eq. by split.
Qed.

Lemma settle_keeps_same s t w0 w r t' w' :
  settle s t w = (r, t', w') → keeps t w0 t' w' ∧ r = status t'.
Proof. by apply settle_keeps. Qed.

(** The root was called: the tree is not shut down. *)
Lemma settle_keeps_root s t0 t w0 w r t' w' n n' :
  root t0 = Some n → shutdown t0 = false → evolves n n' → root t = Some n' →
  settle s t w = (r, t', w') → keeps t0 w0 t' w' ∧ r = status t'.
Proof.
  intros Hn Hs He Hn'. apply settle_keeps; [|congruence].
  unfold root_evolves. rewrite Hn, Hn'. by constructor.
Qed.

Lemma InitializeLocked_keeps t w s t' w' :
  InitializeLocked t w = (s, t', w') → keeps t w t' w' ∧ s = status t'.
Proof.
  unfold InitializeLocked, AbortLocked.
  destruct (root t) as [n|] eqn:Hn; [|by apply settle_keeps_same].
  destruct (shutdown t) eqn:Hs; [by apply settle_keeps_same|].
  destruct (initialized t). { intros [= <- <- <-]. by split. }
  destruct (Initialize n _) as [[r n1] w1] eqn:Ei. apply Initialize_evolves in Ei.
  by destruct r; eapply settle_keeps_root.
Qed.

Definition initialize_first t w : option BTStatus * BehaviorTree * World :=
  if initialized t then (None, t, w)
  else let '(s, t, w) := InitializeLocked t w in
       (if bool_decide (s = Idle) then None else Some s, t, w).

Lemma initialize_first_keeps t w early t' w' :
  initialize_first t w = (early, t', w') →
  keeps t w t' w' ∧ (∀ s, early = Some s → s = status t').
Proof.
  unfold initialize_first. destruct (initialized t); [by intros [= <- <- <-]|].
  destruct (InitializeLocked t w) as [[s2 t2] w2] eqn:E2. apply InitializeLocked_keeps in E2 as [? ->].
  intros [= <- <- <-]. split; [done|]. intros s0. case_bool_decide; congruence.
Qed.

Lemma Tick_keeps t w s t' w' : Tick t w = (s, t', w') → keeps t w t' w' ∧ s = status t'.
Proof.
  unfold Tick, AbortLocked. fold (initialize_first t w).
  destruct (shutdown t || negb (HasRoot t)) eqn:Hu; [by apply settle_keeps_same|].
  apply orb_false_iff in Hu as [Hs Hh].
  destruct (isTerminal (status t)). { intros [= <- <- <-]. by split. }
  destruct (initialize_first t w) as [[early t1] w1] eqn:E1.
  apply initialize_first_keeps in E1 as [H1 He].
  destruct early as [s1|]. { intros [= <- <- <-]. auto. }
  destruct H1 as [Hr _].
  destruct (CancellationRequested w1) as [[] w2]; [by apply settle_keeps; [|congruence]|].
  destruct (root t1) as [n|] eqn:Hn; [|by apply settle_keeps; [|congruence]].
  destruct (BTNode.Tick n _) as [[r n1] w3] eqn:Et. apply Tick_evolves in Et.
  assert (root_evolves t (t1 <| root := Some n1 |>)).
  { etransitivity; [exact Hr|]. unfold root_evolves. rewrite Hn. by constructor. }
  destruct r; (apply settle_keeps; [done|congruence]).
Qed.

Lemma Reset_keeps t w b t' w' : Reset t w = (b, t', w') → keeps t w t' w'.
Proof.
  unfold Reset. destruct (root t) as [n|] eqn:Hn; [|by intros [= <- <- <-]].
  destruct (shutdown t) eqn:Hs; [by intros [= <- <- <-]|].
  destruct (BTNode.Reset n w) as [[r n1] w1] eqn:E1. apply Reset_evolves in E1.
  destruct r.
  - destruct (settle Idle _ w1) as [[? t2] w2] eqn:E. intros [= <- <- <-].
    by eapply settle_keeps_root in E as [? _].
  - destruct (settle Failure _ w1) as [[? t2] w2] eqn:E. intros [= <- <- <-].
    by eapply settle_keeps_root in E as [? _].
Qed.

Lemma Shutdown_keeps t w b t' w' : Shutdown t w = (b, t', w') → keeps t w t' w' ∧ shutdown t' = true.
Proof.
  unfold Shutdown. destruct (shutdown t) eqn:Hs; [by intros [= <- <- <-]|].
  assert (∃ t1 w1, match root t with
      | None => (t, w)
      | Some n => match BTNode.Shutdown n w with
                  | (Returned _, n, w) => (t <| root := Some n |>, w)
                  | (Threw, n, w) => (t <| root := Some n |> <| status := Aborted |>, w)
                  end end = (t1, w1) ∧ root_evolves t t1) as (t1 & w1 & -> & Hr).
  { destruct (root t) as [n|] eqn:Hn; [|by eexists _, _].
    destruct (BTNode.Shutdown n w) as [[r n1] w1] eqn:E1. apply Shutdown_evolves in E1.
    destruct r; eexists _, _; (split; [done|]); unfold root_evolves; rewrite Hn; by constructor. }
  destruct (settle _ _ w1) as [[r t2] w2] eqn:E. intros [= <- <- <-].
  pose proof E as E'. eapply (settle_keeps _ t) in E as [HK _]; [|done|congruence].
  split; [exact HK|]. unfold settle in E'. by simplify_eq.
Qed.

(* ------------------------------------------------------------------ *)
(** ** The life of a tree *)

Definition tree_operate (s : BehaviorTree * World) (o : Operation) : BehaviorTree * World :=
  match o with
  | DoInitialize => let '(_, t, w) := InitializeLocked s.1 s.2 in (t, w)
  | DoTick => let '(_, t, w) := Tick s.1 s.2 in (t, w)
  | DoReset => let '(_, t, w) := Reset s.1 s.2 in (t, w)
  | DoShutdown => let '(_, t, w) := Shutdown s.1 s.2 in (t, w)
  end.

Definition tree_operates (t : BehaviorTree) (w : World) (os : list Operation) :
    BehaviorTree * World := foldl tree_operate (t, w) os.

Lemma tree_operate_keeps t w o : keeps t w (tree_operate (t, w) o).1 (tree_operate (t, w) o).2.
Proof.
  destruct o; unfold tree_operate; cbn [fst snd];
    [destruct (InitializeLocked t w) as [[r t'] w'] eqn:E|destruct (Tick t w) as [[r t'] w'] eqn:E
    |destruct (Reset t w) as [[r t'] w'] eqn:E|destruct (Shutdown t w) as [[r t'] w'] eqn:E].
  - by apply InitializeLocked_keeps in E as [? _].
  - by apply Tick_keeps in E as [? _].
  - by apply Reset_keeps in E.
  - by apply Shutdown_keeps in E as [? _].
Qed.

Lemma tree_operates_keeps os t w : keeps t w (tree_operates t w os).1 (tree_operates t w os).2.
Proof.
  unfold tree_operates. revert t w. induction os as [|o os IH]; intros t w; [by split|]. simpl.
  pose proof (tree_operate_keeps t w o) as H.
  destruct (tree_operate (t, w) o) as [t1 w1]. by eapply keeps_trans.
Qed.

(** C14: A tree, whatever is called on it, shows its status in its execution
    context, answers a call of Initialize or Tick with that status, and
    keeps its root the same tree in a consistent state. *)
Theorem tree_publishes n w os t' w' s t1 w1 :
  node_ok n = true →
  ExecutionContext.state (execution w) = ExecutionContext.StateCreated →
  tree_operates (new_BehaviorTree (Some n)) w os = (t', w') →
  published t' w' ∧
  (∃ n', root t' = Some n' ∧ node_ok n' = true ∧ pristine n' = pristine n) ∧
  (InitializeLocked t' w' = (s, t1, w1) ∨ Tick t' w' = (s, t1, w1) → s = status t1).
Proof.
  intros Hn Hw E. pose proof (tree_operates_keeps os (new_BehaviorTree (Some n)) w) as (Hr & Hp & _).
  rewrite E in Hr, Hp. split_and!.
  - by apply Hp.
  - unfold root_evolves in Hr. inversion Hr as [? n' [? ?]|]; subst. eauto.
  - intros [H|H]; [apply InitializeLocked_keeps in H|apply Tick_keeps in H]; apply H.
Qed.

(** Once a tree is shut down its root is never called again: whatever is
    called on the tree, an initialisation or a tick answers [Aborted], a
    reset and another shutdown are refused. *)
Theorem tree_stays_shut_down t w os t' w' :
  shutdown t = true →
  tree_operates t w os = (t', w') →
  root t' = root t ∧ shutdown t' = true ∧
  (InitializeLocked t' w').1.1 = Aborted ∧ (Tick t' w').1.1 = Aborted ∧
  (Reset t' w').1.1 = false ∧ (Shutdown t' w').1.1 = false.
Proof.
  intros Hs E. pose proof (tree_operates_keeps os t w) as (_ & _ & H). rewrite E in H.
  destruct (H Hs) as [Hs' Hroot]. simpl in *.
  unfold InitializeLocked, Tick, Reset, Shutdown. rewrite Hs'. by destruct (root t').
Qed.

(** A tree that was reset is the tree that was built: no index, counter,
    timer, future or status of the runs before is left in it, whatever they
    were, and its next tick starts with an initialisation. *)
Theorem tree_Reset_restores n w os t' w' t1 w1 :
  pristine n = n →
  tree_operates (new_BehaviorTree (Some n)) w os = (t', w') →
  Reset t' w' = (true, t1, w1) →
  t1 = new_BehaviorTree (Some n).
Proof.
  intros Hn E HR. pose proof (tree_operates_keeps os (new_BehaviorTree (Some n)) w) as (Hr & _).
  rewrite E in Hr. unfold root_evolves in Hr. inversion Hr as [x n' Hev Hx Hn'|]; subst x. destruct Hev as [Hp _].
  unfold Reset in HR. rewrite <-Hn' in HR. destruct (shutdown t') eqn:Hs; [done|].
  destruct (BTNode.Reset n' w') as [[[[]|] n2] w2] eqn:E2; [|by simplify_eq/=].
  apply Reset_pristine in E2. unfold settle in HR. simplify_eq/=.
  unfold new_BehaviorTree. simpl in Hp. rewrite Hp, Hn, Hs. done.
Qed.
End Tree.

(* ------------------------------------------------------------------ *)
(** ** Jobs *)

Section Job.
Context {Env : TreeEnvironment} {Job : JobEnvironment}.
Implicit Types (t : BehaviorTree) (w : World).

(** The cancellation of the job is requested by a deadline at the latest:
    [remaining] rounds are left until then. *)
Context (remaining : World → nat).
Hypothesis remaining_check : ∀ w, (remaining (Job_IsCancellationRequested w).2 ≤ remaining w)%nat.
Hypothesis remaining_deadline : ∀ w, remaining w = 0%nat → (Job_IsCancellationRequested w).1 = true.
Hypothesis remaining_pause : ∀ w, (remaining (Job_WaitIfPaused w).2 ≤ remaining w)%nat.
Hypothesis remaining_wait : ∀ d w, (remaining (wait_for d w) ≤ pred (remaining w))%nat.

(** The nodes of the tree do not put it off. *)
Context (tame : BehaviorTree → Prop).
Hypothesis tame_initialize : ∀ t w, tame t → tame (InitializeLocked t w).1.2.
Hypothesis tame_tick : ∀ t w, tame t →
  tame (Tick t w).1.2 ∧ (remaining (Tick t w).2 ≤ remaining w)%nat.

(** What the result of a job says of its tree. *)
Definition result_of (result : Scheduler.RuntimeJobResult) t : Prop :=
  match Scheduler.result_state result with
  | ExecutionContext.StateCompleted => status t = Success
  | ExecutionContext.StateFailed => status t = Failure
  | ExecutionContext.StateAborted => status t = Aborted
  | ExecutionContext.StateCancelled => shutdown t = true
  | _ => False
  end.

Lemma cancel_tree_result m t w : result_of (cancel_tree m t w).1.1 (cancel_tree m t w).1.2.
Proof.
  unfold cancel_tree. destruct (Shutdown t _) as [[b t'] w'] eqn:E.
  apply Shutdown_keeps in E as [_ Hs]. exact Hs.
Qed.

Lemma TerminalResult_of s t : isTerminal s = true → s = status t → result_of (TerminalResult s) t.
Proof. by destruct s. Qed.

Lemma run_tree_ends fuel interval : ∀ s t w,
  s = status t → tame t → (remaining w < fuel)%nat →
  ∃ result t' w', run_tree fuel interval s t w = Some (result, t', w') ∧ result_of result t'.
Proof.
  induction fuel as [|fuel IH]; intros s t w Hs Htame Hf; [lia|]. simpl.
  destruct (isTerminal s) eqn:Ht. { eexists _, _, _. split; [done|]. by apply TerminalResult_of. }
  pose proof (remaining_check w) as H1. pose proof (remaining_deadline w) as Hd.
  destruct (Job_IsCancellationRequested w) as [[] w1]; simpl in *.
  { pose proof (cancel_tree_result "Behavior tree cancelled" t w1).
    destruct (cancel_tree _ _ _) as [[result t'] w']. eauto 10. }
  assert (remaining w ≠ 0%nat) by (intros H; apply Hd in H; done).
  pose proof (remaining_pause w1) as H2. destruct (Job_WaitIfPaused w1) as [[] w2]; simpl in *.
  2: { pose proof (cancel_tree_result "Behavior tree cancelled while paused" t w2).
       destruct (cancel_tree _ _ _) as [[result t'] w']. eauto 10. }
  destruct (tame_tick t w2 Htame) as [Ht1 H3]. destruct (Tick t w2) as [[s1 t1] w3] eqn:E.
  apply Tick_keeps in E as [_ Hs1]. simpl in Ht1, H3.
  destruct (isTerminal s1) eqn:Hs1t.
  - exists (TerminalResult s1), t1, w3. split; [destruct fuel; simpl; by rewrite Hs1t|].
    by apply TerminalResult_of.
  - apply IH; [done..|]. pose proof (remaining_wait interval w3). lia.
Qed.

(** A job that executes a tree ends, by the deadline of its cancellation
    at the latest, and always with a terminal result: cancelled, its tree
    shut down; or completed, failed or aborted as the status of the tree
    says.  What refuses the job fails it and leaves the tree alone.  The
    resource acquired for the tree is released last. *)
Theorem ExecuteTree_ends tree o w :
  match tree with Some t => tame t | None => True end →
  ∃ fuel0, ∀ fuel, (fuel0 ≤ fuel)%nat →
  ∃ result tree' w', ExecuteTree fuel tree o w = Some (result, tree', w') ∧
    ((Scheduler.result_state result = ExecutionContext.StateFailed ∧ tree' = tree ∧
      (tree = None ∨ tickInterval o <= 0 ∨ resourceTimeout o < 0 ∨ (AcquireResource o w).1 = None ∨
       SharedExecution (AcquireResource o w).2 = None)) ∨
     (∃ t t' lock w1 w2, tree = Some t ∧ tree' = Some t' ∧ result_of result t' ∧
      AcquireResource o w = (Some lock, w1) ∧ w' = Manager_Release lock w2)).
Proof.
  intros Htame. destruct tree as [t|]; [|exists 0%nat; intros; eexists _, _, _; split; [done|]; by auto].
  destruct ((tickInterval o <=? 0) || (resourceTimeout o <? 0)) eqn:Hv.
  { exists 0%nat. intros. eexists _, _, _. simpl. rewrite Hv. split; [done|]. left.
    apply orb_true_iff in Hv as [?%Z.leb_le|?%Z.ltb_lt]; split_and!; auto. }
  destruct (AcquireResource o w) as [[lock|] w1] eqn:Ha; cycle 1.
  { exists 0%nat. intros. eexists _, _, _. simpl. rewrite Hv, Ha. split; [done|]. left. simpl. tauto. }
  destruct (SharedExecution w1) as [e|] eqn:He; cycle 1.
  { exists 0%nat. intros. eexists _, _, _. simpl. rewrite Hv, Ha, He. split; [done|]. left. simpl. tauto. }
  destruct (InitializeLocked t (bind_execution e w1)) as [[s t2] w2] eqn:Ei.
  pose proof (InitializeLocked_keeps _ _ _ _ _ Ei) as [_ Hs].
  assert (Htame2 : tame t2) by (pose proof (tame_initialize t (bind_execution e w1) Htame) as H; by rewrite Ei in H).
  exists (S (remaining w2)). intros fuel Hf.
  destruct (run_tree_ends fuel (tickInterval o) s t2 w2 Hs Htame2) as (result & t' & w3 & Er & Hres); [lia|].
  eexists result, (Some t'), _. unfold ExecuteTree. rewrite Hv, Ha, He, Ei. cbn [mbind option_bind].
  rewrite Er. cbn. split; [done|]. right. exists t, t', lock, w1, w3. split_and!; done.
Qed.
End Job.

(* ------------------------------------------------------------------ *)
(** ** Examples *)

#[local] Existing Instances example_environment example_job.

Definition example_life : list Operation := [DoInitialize; DoTick; DoTick; DoShutdown].

Lemma tree_publishes_witness :
  let '(t, w) := tree_operates (new_BehaviorTree (Some example_node)) example_world example_life in
  published t w ∧ status t = Aborted ∧
  (∃ n', root t = Some n' ∧ node_ok n' = true ∧ pristine n' = pristine example_node).
Proof.
  destruct (tree_operates (new_BehaviorTree (Some example_node)) example_world example_life)
    as [t w] eqn:E.
  destruct (InitializeLocked t w) as [[s t1] w1] eqn:Ei.
  assert (H0 : node_ok example_node = true) by by vm_compute.
  destruct (tree_publishes example_node example_world example_life t w s t1 w1 H0 eq_refl E)
    as (Hp & Hr & _).
  split; [exact Hp|]. split; [|exact Hr]. vm_compute in E. by injection E as <- <-.
Defined.

Lemma tree_stays_shut_down_witness :
  let t := (tree_operates (new_BehaviorTree (Some example_node)) example_world example_life).1 in
  let '(t', w') := tree_operates t example_world [DoTick; DoReset] in
  shutdown t = true ∧ root t' = root t ∧ (Tick t' w').1.1 = Aborted.
Proof.
  intros t. destruct (tree_operates t example_world [DoTick; DoReset]) as [t' w'] eqn:E.
  assert (Hs : shutdown t = true) by by vm_compute.
  destruct (tree_stays_shut_down t example_world [DoTick; DoReset] t' w' Hs E) as (H1 & _ & _ & H2 & _).
  split; [exact Hs|]. split; [exact H1|exact H2].
Defined.

Lemma tree_Reset_restores_witness :
  let '(t, w) :=
    tree_operates (new_BehaviorTree (Some example_node)) example_world [DoTick; DoTick] in
  let '(ok, t1, w1) := Reset t w in
  t ≠ new_BehaviorTree (Some example_node) ∧ ok = true ∧ t1 = new_BehaviorTree (Some example_node).
Proof.
  destruct (tree_operates _ _ [DoTick; DoTick]) as [t w] eqn:E.
  destruct (Reset t w) as [[ok t1] w1] eqn:ER.
  assert (Hok : ok = true).
  { vm_compute in E. injection E as <- <-. vm_compute in ER. by injection ER. }
  split; [vm_compute in E; injection E as <- <-; discriminate|]. split; [exact Hok|].
  rewrite Hok in ER. apply (tree_Reset_restores example_node _ _ _ _ _ _ eq_refl E ER).
Defined.

(** Only waiting uses up the rounds of the example world. *)
Lemma runs_tame t (w : ExampleWorld) :
  root t = Some runs →
  (root (InitializeLocked t w).1.2 = Some runs ∧ rounds (InitializeLocked t w).2 = rounds w) ∧
  (root (Tick t w).1.2 = Some runs ∧ rounds (Tick t w).2 = rounds w).
Proof.
  intros Ht.
  assert (Hi : root (InitializeLocked t w).1.2 = Some runs ∧ rounds (InitializeLocked t w).2 = rounds w).
  { unfold InitializeLocked. rewrite Ht. destruct (shutdown t); [by split|].
    destruct (initialized t); [by split|]. unfold stamp. simpl. by case_match. }
  split; [exact Hi|]. unfold Tick, HasRoot. fold (initialize_first t w). rewrite Ht.
  destruct (shutdown t); [by split|]. cbn [orb negb].
  destruct (isTerminal (status t)); [by split|].
  assert (Hearly : ∃ early t1 w1, initialize_first t w = (early, t1, w1) ∧
     root t1 = Some runs ∧ rounds w1 = rounds w).
  { unfold initialize_first. destruct (initialized t); [by eexists _, _, _|].
    destruct (InitializeLocked t w) as [[s t1] w1]. by eexists _, _, _. }
  destruct Hearly as (early & t1 & w1 & -> & Ht1 & Hw1). destruct early; [by split|].
  simpl. destruct (ExecutionContext.cancellation_source (context w1)) eqn:Hc; [by split|].
  rewrite Ht1. simpl. unfold ActionNode_Tick. simpl. by rewrite Hc.
Qed.

(** A tree that runs for ever is cancelled after three rounds. *)
Lemma ExecuteTree_ends_witness :
  ∃ fuel0, ∀ fuel, (fuel0 ≤ fuel)%nat →
  ∃ result t' w', ExecuteTree fuel (Some (new_BehaviorTree (Some runs)))
    default_BehaviorTreeJobOptions example_world = Some (result, Some t', w') ∧ result_of result t'.
Proof.
  destruct (ExecuteTree_ends (Job := example_job) rounds (λ w, le_n _)
    ltac:(intros w H; simpl; by rewrite H) (λ w, le_n _) (λ d w, le_n _)
    (λ t, root t = Some runs)
    (λ t w Ht, proj1 (proj1 (runs_tame t w Ht)))
    (λ t w Ht, conj (proj1 (proj2 (runs_tame t w Ht))) (Nat.eq_le_incl _ _ (proj2 (proj2 (runs_tame t w Ht)))))
    (Some (new_BehaviorTree (Some runs))) default_BehaviorTreeJobOptions example_world
    eq_refl) as [fuel0 H].
  exists fuel0. intros fuel Hf.
  destruct (H fuel Hf) as (result & tree' & w' & E & [(_ & _ & Hno)|(t & t' & lock & w1 & w2 & _ & -> & Hr & _)]).
  - exfalso. vm_compute in Hno. destruct Hno as [?|[?|[?|[?|?]]]]; congruence.
  - exists result, t', w'. split; [exact E|exact Hr].
Defined.
