(* ===== verification/TreeLoading.v ===== *)
(** * Loading behavior trees

    [BehaviorTreeFactory], [TreeValidator] and the construction of a tree by
    [TreeLoader] of src/bt: a document names a registered type for each of
    its nodes, and the loader creates the nodes and links them.

    A creator is called when its node is needed; it may change the world, and
    it answers no node if it is null, answers null or throws.  The text of a
    document is parsed by [TreeParser], in TreeParser.v: [Build] starts from
    what it answers.  A foreign node is taken to be neither a
    [CompositeNode] nor a [DecoratorNode]. *)

From S2P Require Import Prelude Command BTNode BehaviorTree BTExample.
From stdpp Require Import pretty.

Open Scope Z_scope.

Inductive TreeNodeDefinition := mkDefinition { type : string; children : list TreeNodeDefinition }.

Record TreeDocument := mkDocument { document_root : TreeNodeDefinition }.

Record TreeValidationResult := mkValidation { validation_success : bool; validation_message : string }.

Record TreeParseResult := mkParse { document : TreeDocument; parse_success : bool; parse_message : string }.

Section Loading.
Context {Env : TreeEnvironment}.

(* ------------------------------------------------------------------ *)
(** ** The factory *)

Definition BTNodeCreator : Type := World → option Node * World.

Definition BehaviorTreeFactory : Type := gmap string BTNodeCreator.

Definition RegisterNode (node_type : string) (creator : option BTNodeCreator)
    (f : BehaviorTreeFactory) : BehaviorTreeFactory * bool :=
  match creator with
  | None => (f, false)
  | Some c =>
      if bool_decide (node_type = EmptyString) then (f, false)
      else match f !! node_type with
      | Some _ => (f, false)
      | None => (<[node_type := c]> f, true)
      end
  end.

Definition UnregisterNode (node_type : string) (f : BehaviorTreeFactory) : BehaviorTreeFactory * bool :=
  match f !! node_type with None => (f, false) | Some _ => (delete node_type f, true) end.

Definition Contains (f : BehaviorTreeFactory) (node_type : string) : bool :=
  match f !! node_type with Some _ => true | None => false end.

Definition CreateNode (f : BehaviorTreeFactory) (node_type : string) (w : World) : option Node * World :=
  match f !! node_type with None => (None, w) | Some c => c w end.

Definition CreateTree (f : BehaviorTreeFactory) (root_node_type : string) (w : World) :
    option BehaviorTree.BehaviorTree * World :=
  match CreateNode f root_node_type w with
  | (None, w) => (None, w)
  | (Some n, w) => (Some (BehaviorTree.new_BehaviorTree (Some n)), w)
  end.

(* ------------------------------------------------------------------ *)
(** ** Validation *)

Section Validate.
Context (f : BehaviorTreeFactory).

Fixpoint ValidateNode (d : TreeNodeDefinition) (path : string) : TreeValidationResult :=
  let fix validate_children (index : nat) (ds : list TreeNodeDefinition) : TreeValidationResult :=
    match ds with
    | [] => mkValidation true "Behavior tree node is valid"
    | d :: ds =>
        let r := ValidateNode d (path +:+ ".children[" +:+ pretty (N.of_nat index) +:+ "]") in
        if negb (validation_success r) then r else validate_children (S index) ds
    end in
  if bool_decide (type d = EmptyString) then
    mkValidation false ("Missing behavior tree node type at " +:+ path)
  else if negb (Contains f (type d)) then
    mkValidation false ("Unknown behavior tree node type at " +:+ path +:+ ": " +:+ type d)
  else validate_children 0%nat (children d).

Definition Validate (doc : TreeDocument) : TreeValidationResult := ValidateNode (document_root doc) "root".
End Validate.

(* ------------------------------------------------------------------ *)
(** ** Construction *)

(** [CompositeNode::AddChild] on a node that is one. *)
Definition AddChild (n c : Node) : option Node :=
  match n with
  | SequenceNode p i cs => Some (SequenceNode p i (cs ++ [c]))
  | SelectorNode p i cs => Some (SelectorNode p i (cs ++ [c]))
  | ParallelNode st ft cs => Some (ParallelNode st ft (cs ++ [c]))
  | _ => None
  end.

(** [DecoratorNode::SetChild] on a node that is one; its run state is reset. *)
Definition SetChild (n c : Node) : option Node :=
  match n with
  | InverterNode _ => Some (InverterNode (Some c))
  | SucceederNode _ => Some (SucceederNode (Some c))
  | FailerNode _ => Some (FailerNode (Some c))
  | RetryNode m _ _ => Some (RetryNode m 0 (Some c))
  | RepeatNode m _ _ => Some (RepeatNode m 0 (Some c))
  | LimiterNode m _ _ => Some (LimiterNode m 0 (Some c))
  | TimeoutNode t _ _ => Some (TimeoutNode t None (Some c))
  | _ => None
  end.

Inductive NodeClass := Composite | Decorator | Leaf.

(** The answers of [dynamic_cast]. *)
Definition class_of (n : Node) : NodeClass :=
  match n with
  | SequenceNode _ _ _ | SelectorNode _ _ _ | ParallelNode _ _ _ => Composite
  | InverterNode _ | SucceederNode _ | FailerNode _ | RetryNode _ _ _ | RepeatNode _ _ _
  | LimiterNode _ _ _ | TimeoutNode _ _ _ => Decorator
  | ActionNode _ | ConditionNode _ | WaitNode _ _ | DelayNode _ _ _ | CommandNode _ _ _ _
  | MissionNode _ _ _ _ | Foreign _ => Leaf
  end.

(** A node, or the error. *)
Definition Built : Type := (Node + string) * World.

Section Build.
Context (f : BehaviorTreeFactory).

Section Children.
Context (build : TreeNodeDefinition → World → Built).

(** The loop over the children of a composite node. *)
Fixpoint add_children (ty : string) (n : Node) (ds : list TreeNodeDefinition) (w : World) : Built :=
  match ds with
  | [] => (inl n, w)
  | d :: ds =>
      match build d w with
      | (inr e, w) => (inr e, w)
      | (inl c, w) =>
          match AddChild n c with
          | None => (inr ("Unable to add child to composite node: " +:+ ty)%string, w)
          | Some n => add_children ty n ds w
          end
      end
  end.

Definition set_child (ty : string) (n : Node) (ds : list TreeNodeDefinition) (w : World) : Built :=
  match ds with
  | [d] =>
      match build d w with
      | (inr e, w) => (inr e, w)
      | (inl c, w) =>
          match SetChild n c with
          | None => (inr ("Unable to set child on decorator node: " +:+ ty)%string, w)
          | Some n => (inl n, w)
          end
      end
  | _ => (inr ("Decorator node requires exactly one child: " +:+ ty)%string, w)
  end.
End Children.

Fixpoint BuildNode (d : TreeNodeDefinition) (w : World) : Built :=
  match CreateNode f (type d) w with
  | (None, w) => (inr ("Unable to create behavior tree node: " +:+ type d)%string, w)
  | (Some n, w) =>
      match children d with
      | [] => (inl n, w)
      | _ =>
          match class_of n with
          | Composite => add_children BuildNode (type d) n (children d) w
          | Decorator => set_child BuildNode (type d) n (children d) w
          | Leaf => (inr ("Behavior tree leaf node cannot have children: " +:+ type d)%string, w)
          end
      end
  end.
End Build.

(** The tree, or the message of the failure. *)
Definition Build (factory : option BehaviorTreeFactory) (r : TreeParseResult) (w : World) :
    (BehaviorTree.BehaviorTree + string) * World :=
  if negb (parse_success r) then (inr (parse_message r), w)
  else match factory with
  | None => (inr "Behavior tree factory dependency is unavailable"%string, w)
  | Some f =>
      let v := Validate f (document r) in
      if negb (validation_success v) then (inr (validation_message v), w)
      else match BuildNode f (document_root (document r)) w with
      | (inr e, w) =>
          (inr (if bool_decide (e = EmptyString) then "Unable to construct behavior tree"%string else e), w)
      | (inl n, w) => (inl (BehaviorTree.new_BehaviorTree (Some n)), w)
      end
  end.
End Loading.

(* ------------------------------------------------------------------ *)
(** ** What a document describes *)

Lemma definition_ind (P : TreeNodeDefinition → Prop) :
  (∀ d, Forall P (children d) → P d) → ∀ d, P d.
Proof.
  intros H. fix IH 1. intros [ty ds]. apply H. simpl.
  induction ds; constructor; [apply IH|assumption].
Qed.

Section Exact.
Context {Env : TreeEnvironment} (f : BehaviorTreeFactory).

(** The creators always answer the same: [prototype] is the node of a type. *)
Context (prototype : string → option Node).
Hypothesis creates : ∀ ty w, (CreateNode f ty w).1 = prototype ty.
Hypothesis named : f !! EmptyString = None.

Fixpoint add_all (n : Node) (cs : list Node) : option Node :=
  match cs with
  | [] => Some n
  | c :: cs => n ← AddChild n c; add_all n cs
  end.

(** A node with its children, if it can have them. *)
Definition link (n : Node) (cs : list Node) : option Node :=
  match cs, class_of n with
  | [], _ => Some n
  | _, Composite => add_all n cs
  | [c], Decorator => SetChild n c
  | _, _ => None
  end.

(** The node that a definition describes. *)
Inductive realises : TreeNodeDefinition → Node → Prop :=
  | realises_intro d n cs n' :
      prototype (type d) = Some n → Forall2 realises (children d) cs → link n cs = Some n' →
      realises d n'.

Definition build_exact (d : TreeNodeDefinition) (r : Node + string) : Prop :=
  match r with inl n => realises d n | inr _ => ∀ n, ¬ realises d n end.

Lemma add_children_exact (build : TreeNodeDefinition → World → Built) ty ds :
  Forall (λ d, ∀ w, build_exact d (build d w).1) ds →
  ∀ n w, class_of n = Composite →
  match (add_children build ty n ds w).1 with
  | inl n' => ∃ cs, Forall2 realises ds cs ∧ add_all n cs = Some n'
  | inr _ => ∀ cs, ¬ Forall2 realises ds cs
  end.
Proof.
  induction 1 as [|d ds Hd _ IH]; intros n w Hc; simpl. { by exists []. }
  specialize (Hd w). destruct (build d w) as [[c|e] w1]; simpl in Hd |- *.
  - assert (∃ n1, AddChild n c = Some n1 ∧ class_of n1 = Composite) as (n1 & Ha & Hc1).
    { destruct n; try done; simpl; eauto. }
    rewrite Ha. specialize (IH n1 w1 Hc1). destruct (add_children build ty n1 ds w1) as [[n2|e] w2]; simpl in *.
    + destruct IH as (cs & Hcs & E). exists (c :: cs). split; [by constructor|]. simpl. by rewrite Ha.
    + intros cs. inversion 1; subst. by eapply IH.
  - intros cs. inversion 1; subst. by eapply Hd.
Qed.

Lemma set_child_exact (build : TreeNodeDefinition → World → Built) ty n ds w :
  Forall (λ d, ∀ w, build_exact d (build d w).1) ds → class_of n = Decorator →
  match (set_child build ty n ds w).1 with
  | inl n' => ∃ c, Forall2 realises ds [c] ∧ SetChild n c = Some n'
  | inr _ => ∀ c, ¬ Forall2 realises ds [c]
  end.
Proof.
  intros Hds Hc. destruct ds as [|d [|d' ds]]; simpl.
  - intros c. by inversion 1.
  - rewrite Forall_singleton in Hds. specialize (Hds w). destruct (build d w) as [[c|e] w1]; simpl in *.
    + assert (∃ n1, SetChild n c = Some n1) as [n1 Hs] by (destruct n; try done; simpl; eauto).
      rewrite Hs. exists c. by repeat constructor.
    + intros c. inversion 1; subst. by eapply Hds.
  - intros c H. apply Forall2_length in H. done.
Qed.

Lemma BuildNode_exact d : ∀ w, build_exact d (BuildNode f d w).1.
Proof.
  induction d as [d IH] using definition_ind. intros w. pose proof (eq_sym (creates (type d) w)) as Hp.
  destruct d as [ty ds]; simpl in *.
  destruct (CreateNode f ty w) as [[n|] w1]; simpl in Hp; cycle 1.
  { simpl. intros n Hr. inversion Hr; subst. simpl in *. congruence. }
  destruct ds as [|d ds]. { simpl. by apply (realises_intro _ n []). }
  assert (Hlen : ∀ cs, Forall2 realises (d :: ds) cs → ∃ c cs', cs = c :: cs').
  { intros cs. inversion 1; eauto. }
  destruct (class_of n) eqn:Hc.
  - pose proof (add_children_exact _ ty _ IH n w1 Hc) as H.
    destruct (add_children _ _ _ _ _) as [[n'|e] w2]; simpl in *.
    + destruct H as (cs & Hcs & E). apply (realises_intro _ n cs); [done..|].
      destruct (Hlen _ Hcs) as (c & cs' & ->). unfold link. rewrite Hc. by destruct cs'.
    + intros n' Hr. inversion Hr; subst. by eapply H.
  - pose proof (set_child_exact _ ty n _ w1 IH Hc) as H.
    destruct (set_child _ _ _ _ _) as [[n'|e] w2]; simpl in *.
    + destruct H as (c & Hcs & E). apply (realises_intro _ n [c]); [done..|]. unfold link. by rewrite Hc.
    + intros n' Hr. inversion Hr as [d0 n0 cs ? Hp0 Hcs Hl]; subst. simpl in *. simplify_eq.
      destruct (Hlen _ Hcs) as (c & [|c' cs'] & ->); [by eapply H|].
      unfold link in Hl. by rewrite Hc in Hl.
  - simpl. intros n' Hr. inversion Hr as [d0 n0 cs ? Hp0 Hcs Hl]; subst. simpl in *. simplify_eq.
    destruct (Hlen _ Hcs) as (c & cs' & ->). unfold link in Hl. rewrite Hc in Hl. by destruct cs'.
Qed.

Lemma realises_valid (w : World) d : ∀ n path, realises d n → validation_success (ValidateNode f d path) = true.
Proof.
  induction d as [d IH] using definition_ind. intros n path Hr.
  inversion Hr as [d0 n0 cs ? Hp Hcs _]; subst. clear Hr. destruct d as [ty ds]; simpl in *.
  rewrite <-(creates ty w) in Hp. unfold CreateNode in Hp. unfold Contains.
  destruct (f !! ty) as [c|] eqn:Hf; [|done].
  rewrite bool_decide_false by (intros ->; by pose proof (eq_trans (eq_sym named) Hf)). simpl. clear Hp Hf.
  generalize 0%nat. revert cs Hcs. induction ds as [|d ds IHds]; intros cs Hcs i; [done|].
  apply Forall_cons in IH as [Hd Hds]. inversion Hcs; subst.
  rewrite (Hd _ _ ltac:(eassumption)). simpl. eapply IHds; eauto.
Qed.

(** From a document that parses, the loader builds a tree exactly when
    the document describes one: every type is registered, a composite node
    has the children listed, in their order, a decorator has one child or
    none, a leaf none.  The tree is the one described, not yet started;
    whatever else the document says is refused with a message. *)
Theorem Build_exact doc m w :
  match (Build (Some f) (mkParse doc true m) w).1 with
  | inl t => ∃ n, realises (document_root doc) n ∧ t = BehaviorTree.new_BehaviorTree (Some n)
  | inr _ => ∀ n, ¬ realises (document_root doc) n
  end.
Proof.
  unfold Build. simpl. destruct (validation_success (Validate f doc)) eqn:Hv; simpl.
  - pose proof (BuildNode_exact (document_root doc) w) as H.
    destruct (BuildNode f (document_root doc) w) as [[n|e] w1]; simpl in *; eauto.
  - intros n Hr. apply (realises_valid w _ _ "root"%string) in Hr. unfold Validate in Hv. congruence.
Qed.
End Exact.

(* ------------------------------------------------------------------ *)
(** ** Example *)

#[local] Existing Instance example_environment.

Definition creator_of (n : Node) : BTNodeCreator := λ w, (Some n, w).

Definition example_prototypes : gmap string Node :=
  {["Sequence"%string := SequenceNode Memory 0 []; "Retry"%string := new_Retry 3 None;
    "Check"%string := succeeds]}.

Definition example_factory : BehaviorTreeFactory := creator_of <$> example_prototypes.

Definition example_document (leaf_children : list TreeNodeDefinition) : TreeDocument :=
  mkDocument (mkDefinition "Sequence"
    [mkDefinition "Check" leaf_children; mkDefinition "Retry" [mkDefinition "Check" []]]).

Lemma Build_exact_witness :
  (Build (Some example_factory) (mkParse (example_document []) true EmptyString) example_world).1 =
    inl (BehaviorTree.new_BehaviorTree
      (Some (SequenceNode Memory 0 [succeeds; new_Retry 3 (Some succeeds)]))) ∧
  ∀ n, ¬ realises (λ ty, example_prototypes !! ty)
           (document_root (example_document [mkDefinition "Check" []])) n.
Proof.
  split; [by vm_compute|].
  assert (Hc : ∀ ty (w : World), (CreateNode example_factory ty w).1 = example_prototypes !! ty).
  { intros ty w. unfold CreateNode.
    rewrite (lookup_fmap creator_of example_prototypes ty : example_factory !! ty = _).
    by destruct (example_prototypes !! ty). }
  pose proof (Build_exact example_factory (λ ty, example_prototypes !! ty) Hc eq_refl
    (example_document [mkDefinition "Check" []]) EmptyString example_world) as H.
  exact H.
Defined.
