(* ===== verification/TreeParser.v ===== *)
(** * The text of behavior trees

    src/bt/TreeParser.cpp and the rest of src/bt/TreeLoader.cpp: a JSON or a
    YAML document is parsed to the tree of node types from which TreeLoading.v
    builds the tree.  The lines that a function leaves replace the index that
    it moves; a line is consumed before each recursive call, so the number of
    lines is fuel enough. *)

From Stdlib Require Import Ascii String SpecFloat.
From S2P Require Import Prelude Command RobotState SafetyValidator CommandValidation.
From S2P Require Import BTNode BehaviorTree TreeLoading Text Json.

Open Scope Z_scope.

Definition default_definition : TreeNodeDefinition := mkDefinition "" [].

(* ------------------------------------------------------------------ *)
(** ** JSON *)

(** The class [JsonParser] of this file differs in its messages from that of
    MissionParser.cpp. *)
Definition JsonParser_Parse (document : chars) : Parse JsonValue := Parse_json tree_dialect document.

(** The depth of a value, that the recursion of [NodeFromJson] descends. *)
Fixpoint height (v : JsonValue) : nat :=
  match v with
  | JsonObject fields => S (foldr (λ f n, max (height f.2) n) O fields)
  | JsonArray values => S (foldr (λ v n, max (height v) n) O values)
  | _ => O
  end.

Fixpoint NodeFromJson (fuel : nat) (value : JsonValue) (name : string) : Parse TreeNodeDefinition :=
  match fuel with
  | O => Exhausted
  | S fuel =>
      object ← AsObject value name;
      type ← (field ← Required object "type"; JsonString field "type");
      if bool_decide (type = EmptyString) then
        ParseError "Behavior tree node type must not be empty"
      else match Optional object "child", Optional object "children" with
      | Some _, Some _ => ParseError "Behavior tree node cannot contain both child and children"
      | Some child, None =>
          c ← NodeFromJson fuel child "child"; Parsed (mkDefinition type [c])
      | None, Some children =>
          values ← AsArray children "children";
          cs ← foldM (λ v cs, c ← NodeFromJson fuel v "children[]"; Parsed (cs ++ [c])) values [];
          Parsed (mkDefinition type cs)
      | None, None => Parsed (mkDefinition type [])
      end
  end.

Definition DocumentFromJson (value : JsonValue) : Parse TreeDocument :=
  object ← AsObject value "tree document";
  root ← (field ← Required object "root"; NodeFromJson (S (height field)) field "root");
  Parsed (mkDocument root).

(* ------------------------------------------------------------------ *)
(** ** YAML lines *)

Record TreeLine := mkTreeLine { line_indent : nat; text : chars }.

(** The text before the first [#]. *)
Definition before_comment (s : chars) : chars := take_while (λ c, negb (bool_decide (c = "#"%char))) s.

(** A round of the loop of [LinesFromYaml]. *)
Definition tree_line (raw : chars) : Parse (option TreeLine) :=
  let indent := length (take_while is_blank raw) in
  let rest := drop indent raw in
  if heads (λ c, bool_decide (c = tab)) rest then
    ParseError "YAML behavior tree indentation must use spaces"
  else
    let content := Trim rest in
    let content := if bool_decide ("#"%char ∈ content) then Trim (before_comment content)
                   else content in
    Parsed (if bool_decide (content = []) then None else Some (mkTreeLine indent content)).

Fixpoint lines_from_yaml (fuel : nat) (document : chars) : Parse (list TreeLine) :=
  match fuel with
  | O => Exhausted
  | S fuel =>
      let '(raw, rest) := split_line document in
      line ← tree_line raw;
      lines ← match rest with None => Parsed [] | Some document => lines_from_yaml fuel document end;
      Parsed (option_list line ++ lines)
  end.

Definition LinesFromYaml (document : chars) : Parse (list TreeLine) :=
  lines_from_yaml (S (length document)) document.

(* ------------------------------------------------------------------ *)
(** ** YAML nodes *)

Definition StartsWith (s : chars) (prefix : string) : bool :=
  match after_prefix (chars_of prefix) s with Some _ => true | None => false end.

(** [FieldValue(text, field_name)] with the name [field] and its colon. *)
Definition FieldValue (s : chars) (field : string) : Parse string :=
  let value := unquote (Trim (drop (String.length field + 1) s)) in
  if bool_decide (value = []) then ParseError (field +:+ " must not be empty")
  else Parsed (string_of value).

(** The loops of [ParseYamlNodeFields] and [ParseYamlNodeList]. *)
Fixpoint node_fields (fuel indent : nat) (parsed_any : bool) (node : TreeNodeDefinition)
    (lines : list TreeLine) : Parse (TreeNodeDefinition * list TreeLine) :=
  let finish := if parsed_any then Parsed (node, lines)
                else ParseError "Expected YAML behavior tree node fields" in
  match lines with
  | [] => finish
  | line :: rest =>
      match fuel with
      | O => Exhausted
      | S fuel =>
          if (line_indent line <? indent)%nat then finish
          else if (indent <? line_indent line)%nat then
            ParseError "Unexpected YAML behavior tree indentation"
          else if StartsWith (text line) "-" then
            ParseError "Unexpected YAML behavior tree list item"
          else if StartsWith (text line) "type:" then
            if negb (bool_decide (type node = EmptyString)) then
              ParseError "Duplicate YAML behavior tree node type"
            else
              type ← FieldValue (text line) "type";
              node_fields fuel indent true (mkDefinition type (children node)) rest
          else if bool_decide (text line = chars_of "child:") then
            '(child, rest) ← node_fields fuel (indent + 2) false default_definition rest;
            node_fields fuel indent true (mkDefinition (type node) (children node ++ [child])) rest
          else if bool_decide (text line = chars_of "children:") then
            '(children, rest) ← node_list fuel (indent + 2) false (children node) rest;
            node_fields fuel indent true (mkDefinition (type node) children) rest
          else ParseError ("Unsupported YAML behavior tree field: " +:+ string_of (text line))
      end
  end

with node_list (fuel indent : nat) (parsed_any : bool) (children : list TreeNodeDefinition)
    (lines : list TreeLine) : Parse (list TreeNodeDefinition * list TreeLine) :=
  let finish :=
    if parsed_any then Parsed (children, lines)
    else ParseError "YAML behavior tree children list must contain at least one node" in
  match lines with
  | [] => finish
  | line :: rest =>
      match fuel with
      | O => Exhausted
      | S fuel =>
          if (line_indent line <? indent)%nat then finish
          else if (indent <? line_indent line)%nat then
            ParseError "Unexpected YAML behavior tree indentation"
          else if negb (StartsWith (text line) "-") then finish
          else
            let item := Trim (drop 1 (text line)) in
            type ← (if bool_decide (item = []) then Parsed EmptyString
                    else if negb (StartsWith item "type:") then
                      ParseError "YAML behavior tree list items must start with type"
                    else FieldValue item "type");
            '(child, rest) ←
              (if bool_decide (item = []) ||
                  match rest with next :: _ => (indent <? line_indent next)%nat | [] => false end
               then node_fields fuel (indent + 2) false (mkDefinition type []) rest
               else Parsed (mkDefinition type [], rest));
            node_list fuel indent true (children ++ [child]) rest
      end
  end.

Definition ParseYamlNodeFields (lines : list TreeLine) (indent : nat) (node : TreeNodeDefinition) :=
  node_fields (length lines) indent false node lines.

Definition ParseYamlNodeBlock (lines : list TreeLine) (indent : nat) :=
  ParseYamlNodeFields lines indent default_definition.

Definition DocumentFromYaml (document_text : chars) : Parse TreeDocument :=
  lines ← LinesFromYaml document_text;
  match lines with
  | [] => ParseError "YAML behavior tree document is empty"
  | front :: rest =>
      if negb (line_indent front =? 0)%nat || negb (bool_decide (text front = chars_of "root:")) then
        ParseError "YAML behavior tree document requires top-level root field"
      else
        '(root, rest) ← ParseYamlNodeBlock rest 2;
        if negb (bool_decide (rest = [])) then
          ParseError "Unexpected trailing YAML behavior tree content"
        else Parsed (mkDocument root)
  end.

(* ------------------------------------------------------------------ *)
(** ** The parser and the loader *)

Definition Success (d : TreeDocument) : TreeParseResult :=
  mkParse d true "Behavior tree parsed successfully".

Definition Failure (message : string) : TreeParseResult :=
  mkParse (mkDocument default_definition) false message.

Definition catch_parse_error (prefix : string) (p : Parse TreeDocument) : Parse TreeParseResult :=
  match p with
  | Parsed d => Parsed (Success d)
  | ParseError what => Parsed (Failure (prefix +:+ what))
  | Undefined => Undefined
  | Exhausted => Exhausted
  end.

Definition ParseJson (document : chars) : Parse TreeParseResult :=
  catch_parse_error "JSON behavior tree parse failed: "
    (value ← JsonParser_Parse document; DocumentFromJson value).

Definition ParseYaml (document : chars) : Parse TreeParseResult :=
  catch_parse_error "YAML behavior tree parse failed: " (DocumentFromYaml document).

Section Load.
Context {Env : TreeEnvironment}.

Definition Loaded : Type := (BehaviorTree.BehaviorTree + string) * World.

Definition LoadJson (factory : option BehaviorTreeFactory) (document : chars) (w : World) : Parse Loaded :=
  r ← ParseJson document; Parsed (Build factory r w).

Definition LoadYaml (factory : option BehaviorTreeFactory) (document : chars) (w : World) : Parse Loaded :=
  r ← ParseYaml document; Parsed (Build factory r w).

(** [LoadFile] on what the file system answers: whether the file opens, its
    content unless reading it fails, and its extension in lower case. *)
Definition LoadFile (factory : option BehaviorTreeFactory) (path : string) (opens : bool)
    (content : option chars) (extension : string) (w : World) : Parse Loaded :=
  let failure m := Parsed (inr m, w) in
  if negb opens then failure ("Unable to open behavior tree file: " +:+ path)
  else match content with
  | None => failure ("Unable to read behavior tree file: " +:+ path)
  | Some content =>
      if bool_decide (extension = ".json"%string) then LoadJson factory content w
      else if bool_decide (extension = ".yaml"%string) || bool_decide (extension = ".yml"%string)
      then LoadYaml factory content w
      else if bool_decide (extension = ".xml"%string) then
        failure "XML behavior tree loading is not enabled"%string
      else failure ("Unsupported behavior tree file extension: " +:+ extension)
  end.
End Load.
