(* ===== verification/TreeRoundtrip.v ===== *)
(** * The round trips of behavior trees

    A tree of node types is read back from the text of its JSON document and
    of its YAML document, and both parsers answer on every document. *)

From Stdlib Require Import Ascii String SpecFloat.
From S2P Require Import Prelude Command RobotState SafetyValidator CommandValidation.
From S2P Require Import BTNode BehaviorTree BTExample TreeLoading Text Json JsonGrammar JsonPrinter.
From S2P Require Import Yaml YamlPrinter TreeParser.

Open Scope Z_scope.

(** The types of all nodes satisfy [P]. *)
Inductive every (P : string → Prop) : TreeNodeDefinition → Prop :=
  | every_node type ds : P type → Forall (every P) ds → every P (mkDefinition type ds).

(* ------------------------------------------------------------------ *)
(** ** JSON *)

Fixpoint json_of_node (d : TreeNodeDefinition) : JsonValue :=
  let 'mkDefinition type children := d in
  JsonObject (("type"%string, JsonText type) ::
    match children with
    | [] => []
    | [child] => [("child"%string, json_of_node child)]
    | _ => [("children"%string, JsonArray (map json_of_node children))]
    end).

Definition json_of_tree (d : TreeDocument) : JsonValue :=
  JsonObject [("root"%string, json_of_node (document_root d))].

Definition type_representable (type : string) : Prop := type ≠ EmptyString ∧ string_printable type.

Lemma height_field fields key v :
  Optional fields key = Some v → (height v < height (JsonObject fields))%nat.
Proof.
  unfold Optional. intros H. destruct (list_find _ _) as [[i f]|] eqn:E; simplify_eq.
  apply list_find_Some in E as (E & _). apply list_elem_of_lookup_2 in E.
  change (height f.2 < S (foldr (λ f n, max (height f.2) n) O fields))%nat.
  induction E as [|f' g fields _ IH]; simpl; lia.
Qed.

Lemma height_element values v : v ∈ values → (height v < height (JsonArray values))%nat.
Proof.
  intros E. change (height v < S (foldr (λ v n, max (height v) n) O values))%nat.
  induction E as [|v' w values _ IH]; simpl; lia.
Qed.

(** The depth of the value is fuel enough. *)
Lemma NodeFromJson_outcome fuel value name :
  (height value < fuel)%nat → outcome False (λ _, True) (NodeFromJson fuel value name).
Proof.
  revert value name. induction fuel as [|fuel IH]; intros value name Hf; [lia|]. simpl.
  destruct value as [| | | |fields|]; try done. cbn [AsObject mbind Parse_bind].
  apply (outcome_bind (λ _, True)).
  { apply (outcome_bind (λ _, True)); [by apply outcome_or_error|]. by intros []. }
  intros type _. case_bool_decide; [done|].
  destruct (Optional fields "child") as [child|] eqn:Hc, (Optional fields "children") as [cs|] eqn:Hcs;
    [done|..|done].
  - apply height_field in Hc. apply (outcome_bind (λ _, True)); [apply IH; lia|done].
  - apply height_field in Hcs. destruct cs as [| | | | |values]; try done. cbn [AsArray mbind Parse_bind].
    apply (outcome_bind (λ _, True)); [|done]. apply outcome_foldM; [|done]. intros v ds Hv _.
    apply height_element in Hv. apply (outcome_bind (λ _, True)); [apply IH; lia|done].
Qed.

Lemma DocumentFromJson_outcome value : outcome False (λ _, True) (DocumentFromJson value).
Proof.
  destruct value as [| | | |fields|]; try done. unfold DocumentFromJson. cbn [AsObject mbind Parse_bind].
  apply (outcome_bind (λ _, True)); [|done]. apply (outcome_bind (λ _, True)); [by apply outcome_or_error|].
  intros field _. apply NodeFromJson_outcome. lia.
Qed.

Lemma NodeFromJson_read d fuel name :
  every type_representable d → (height (json_of_node d) < fuel)%nat →
  NodeFromJson fuel (json_of_node d) name = Parsed d.
Proof.
  revert fuel name. induction d as [d IH] using definition_ind. intros fuel name Hd Hf.
  inversion Hd as [type ds [Hne Hty] Hds]; subst. destruct fuel as [|fuel]; [lia|].
  cbn [NodeFromJson json_of_node AsObject mbind Parse_bind].
  rewrite (Required_Some _ "type" (JsonText type)) by apply Optional_here.
  cbn [JsonString mbind Parse_bind]. rewrite bool_decide_eq_false_2 by done. simpl in IH.
  rewrite !(Optional_next _ "type") by done.
  destruct ds as [|d1 [|d2 ds]]; [done|..].
  - rewrite Optional_here, Optional_next by done. cbn [Optional list_find mbind].
    apply Forall_inv in IH, Hds. cbv beta in IH. rewrite IH; [done..|]. simpl in *. lia.
  - rewrite Optional_next, Optional_here by done. cbn [Optional list_find AsArray mbind Parse_bind].
    change (map json_of_node (d1 :: d2 :: ds)) with (json_of_node <$> d1 :: d2 :: ds).
    rewrite (foldM_elements json_of_node (λ v, NodeFromJson fuel v "children[]")); [done|].
    apply Forall_forall. intros d Hin. rewrite Forall_forall in IH, Hds. apply IH; [done|by apply Hds|].
    assert (height (json_of_node d) < height (JsonArray (map json_of_node (d1 :: d2 :: ds))))%nat.
    { apply height_element, list_elem_of_In, in_map, list_elem_of_In, Hin. }
    change (S (max 0 (max (height (JsonArray (map json_of_node (d1 :: d2 :: ds)))) 0)) < S fuel)%nat in Hf. lia.
Qed.

Lemma printable_node d : every type_representable d → printable (json_of_node d).
Proof.
  induction d as [d IH] using definition_ind. intros Hd. inversion Hd as [type ds [_ Hty] Hds]; subst.
  simpl in IH. assert (Hall : Forall printable (map json_of_node ds)).
  { apply Forall_fmap, Forall_forall. intros d Hin. rewrite Forall_forall in IH, Hds. auto. }
  cbn [json_of_node]. destruct ds as [|d1 [|d2 ds]]; object; try by constructor.
  by apply Forall_inv in Hall.
Qed.

(* ------------------------------------------------------------------ *)
(** ** YAML *)

(** The lines of a node after that of its type, at the indentation [i]. *)
Fixpoint child_lines (i : nat) (d : TreeNodeDefinition) : list Line :=
  match children d with
  | [] => []
  | [child] =>
      (i, nested "child") :: ((i + 2)%nat, field "type" (print_string (type child))) ::
      child_lines (i + 2) child
  | cs =>
      (i, nested "children") ::
      concat (map (λ c, ((i + 2)%nat, entry (field "type" (print_string (type c)))) ::
                        child_lines (i + 4) c) cs)
  end.

Definition node_lines (i : nat) (d : TreeNodeDefinition) : list Line :=
  (i, field "type" (print_string (type d))) :: child_lines i d.

Definition tree_lines (d : TreeDocument) : list Line :=
  (0%nat, nested "root") :: node_lines 2 (document_root d).

(** A type without quotation marks, comments and line feeds. *)
Definition type_char (c : ascii) : bool := negb (bool_decide (c ∈ [quote; "#"%char; line_feed])).

Definition type_writable (type : string) : Prop :=
  type ≠ EmptyString ∧ all_chars type_char (chars_of type).

Definition as_lines (ls : list Line) : list TreeLine := (λ l, mkTreeLine l.1 l.2) <$> ls.

Lemma tight_text key value : key_ok key → tight value → tight (field key value).
Proof. intros (Hk & _) Hv. by apply (tight_app _ _ Hk Hv [":"%char; " "%char]). Qed.

Lemma type_key : key_ok "type".
Proof. apply key_ok_literal. by vm_compute. Qed.

Lemma field_type_tight type : tight (field "type" (print_string type)).
Proof. apply tight_text; [apply type_key|apply print_string_tight]. Qed.

Lemma StartsWith_app prefix s : StartsWith (chars_of prefix ++ s) prefix = true.
Proof. unfold StartsWith. by rewrite (proj2 (after_prefix_Some _ _ _) eq_refl). Qed.

Lemma StartsWith_type type : StartsWith (field "type" (print_string type)) "type:" = true.
Proof. by apply (StartsWith_app "type:" (" "%char :: print_string type)). Qed.

Lemma FieldValue_type type :
  type ≠ EmptyString → FieldValue (field "type" (print_string type)) "type" = Parsed type.
Proof.
  intros Hne. unfold FieldValue. change (drop _ _) with ([" "%char] ++ print_string type).
  rewrite Trim_white by (by repeat constructor || apply print_string_tight).
  unfold print_string. rewrite unquote_quoted, string_of_chars_of.
  rewrite bool_decide_eq_false_2; [done|]. by destruct type.
Qed.

(** The lines after those of a block. *)
Definition ends (i : nat) (tail : list TreeLine) : Prop :=
  match tail with [] => True | line :: _ => (line_indent line < i)%nat end.

Lemma ends_le i i' tail : (i <= i')%nat → ends i tail → ends i' tail.
Proof. destruct tail; simpl; [done|lia]. Qed.

Lemma node_fields_end fuel i node tail :
  (length tail <= fuel)%nat → ends i tail → node_fields fuel i true node tail = Parsed (node, tail).
Proof.
  destruct tail as [|line tail], fuel as [|fuel]; simpl; try done; [lia|]. intros _ Hi.
  by destruct (Nat.ltb_spec (line_indent line) i); [|lia].
Qed.

Lemma node_list_end fuel i ds tail :
  (length tail <= fuel)%nat → ends i tail → node_list fuel i true ds tail = Parsed (ds, tail).
Proof.
  destruct tail as [|line tail], fuel as [|fuel]; simpl; try done; [lia|]. intros _ Hi.
  by destruct (Nat.ltb_spec (line_indent line) i); [|lia].
Qed.

(** One round on the lines of the document. *)
Lemma node_fields_type fuel i parsed ds type rest :
  type ≠ EmptyString →
  node_fields (S fuel) i parsed (mkDefinition "" ds)
    (mkTreeLine i (field "type" (print_string type)) :: rest) =
  node_fields fuel i true (mkDefinition type ds) rest.
Proof.
  intros Hne. cbn [node_fields line_indent text TreeLoading.type children].
  rewrite Nat.ltb_irrefl, StartsWith_type, FieldValue_type by done. done.
Qed.

Lemma node_fields_child fuel i parsed node rest :
  node_fields (S fuel) i parsed node (mkTreeLine i (nested "child") :: rest) =
  ('(child, rest) ← node_fields fuel (i + 2) false default_definition rest;
   node_fields fuel i true (mkDefinition (type node) (children node ++ [child])) rest).
Proof. cbn [node_fields line_indent text]. by rewrite Nat.ltb_irrefl. Qed.

Lemma node_fields_children fuel i parsed node rest :
  node_fields (S fuel) i parsed node (mkTreeLine i (nested "children") :: rest) =
  ('(ds, rest) ← node_list fuel (i + 2) false (children node) rest;
   node_fields fuel i true (mkDefinition (type node) ds) rest).
Proof. cbn [node_fields line_indent text]. by rewrite Nat.ltb_irrefl. Qed.

Lemma node_list_item fuel i parsed ds type rest :
  type ≠ EmptyString →
  node_list (S fuel) i parsed ds (mkTreeLine i (entry (field "type" (print_string type))) :: rest) =
  ('(child, rest) ←
     (if match rest with next :: _ => (i <? line_indent next)%nat | [] => false end
      then node_fields fuel (i + 2) false (mkDefinition type []) rest
      else Parsed (mkDefinition type [], rest));
   node_list fuel i true (ds ++ [child]) rest).
Proof.
  intros Hne. cbn [node_list line_indent text]. rewrite Nat.ltb_irrefl.
  replace (StartsWith (entry _) "-") with true by done. cbn [negb].
  change (drop 1 _) with ([" "%char] ++ field "type" (print_string type)).
  rewrite Trim_white by (by repeat constructor || apply field_type_tight).
  rewrite bool_decide_eq_false_2 by done. rewrite StartsWith_type. cbn [negb].
  by rewrite FieldValue_type.
Qed.

Lemma as_lines_cons i c ls : as_lines ((i, c) :: ls) = mkTreeLine i c :: as_lines ls.
Proof. done. Qed.

(** The loop over the fields of a node reads the lines of its children. *)
Definition children_read (d : TreeNodeDefinition) : Prop := ∀ fuel i parsed tail,
  (length (as_lines (child_lines i d) ++ tail) <= fuel)%nat → ends i tail →
  children d ≠ [] ∨ parsed = true → every type_writable d →
  node_fields fuel i parsed (mkDefinition (type d) []) (as_lines (child_lines i d) ++ tail) =
  Parsed (d, tail).

Definition item_lines (i : nat) (c : TreeNodeDefinition) : list Line :=
  (i, entry (field "type" (print_string (type c)))) :: child_lines (i + 2) c.

Lemma child_lines_indent i d : children d ≠ [] → ∃ c ls, child_lines i d = (i, c) :: ls.
Proof. destruct d as [ty [|d1 [|d2 ds]]]; simpl; [done|eauto..]. Qed.

Lemma child_lines_leaf i d : children d = [] → child_lines i d = [].
Proof. destruct d as [ty [|d1 [|d2 ds]]]; by simpl. Qed.

Lemma every_type d : every type_writable d → type d ≠ EmptyString.
Proof. by intros [ty ds [Hne _] _]. Qed.

Lemma as_lines_item i c cs tail :
  as_lines (concat (item_lines i <$> c :: cs)) ++ tail =
  mkTreeLine i (entry (field "type" (print_string (type c)))) ::
  as_lines (child_lines (i + 2) c) ++ as_lines (concat (item_lines i <$> cs)) ++ tail.
Proof. unfold as_lines. simpl. by rewrite fmap_app, <-app_assoc. Qed.

(** The lines after an item are not deeper than the item. *)
Lemma items_end i cs tail :
  ends i tail →
  let rest := as_lines (concat (item_lines i <$> cs)) ++ tail in
  ends (i + 2) rest ∧ match rest with next :: _ => (i <? line_indent next)%nat | [] => false end = false.
Proof.
  intros He. destruct cs as [|c cs]; simpl.
  - destruct tail as [|line tail]; [done|]. simpl in He |- *.
    destruct (Nat.ltb_spec i (line_indent line)); split; lia || done.
  - rewrite Nat.ltb_irrefl. split; [lia|done].
Qed.

Lemma node_list_child fuel i c rest :
  children_read c → every type_writable c → ends (i + 2) rest →
  match rest with next :: _ => (i <? line_indent next)%nat | [] => false end = false →
  (length (as_lines (child_lines (i + 2) c) ++ rest) <= fuel)%nat →
  (if match as_lines (child_lines (i + 2) c) ++ rest with
      | next :: _ => (i <? line_indent next)%nat | [] => false end
   then node_fields fuel (i + 2) false (mkDefinition (type c) []) (as_lines (child_lines (i + 2) c) ++ rest)
   else Parsed (mkDefinition (type c) [], as_lines (child_lines (i + 2) c) ++ rest)) = Parsed (c, rest).
Proof.
  intros Hc Hev Hends Hnext Hf. destruct (decide (children c = [])) as [Hleaf|Hne].
  - rewrite child_lines_leaf by done. simpl. rewrite Hnext. by destruct c; simpl in *; subst.
  - destruct (child_lines_indent (i + 2) c Hne) as (t & ls & E).
    replace (match as_lines _ ++ rest with [] => _ | _ => _ end) with true.
    + apply Hc; [done|done|by left|done].
    + rewrite E. simpl. destruct (Nat.ltb_spec i (i + 2)); [done|lia].
Qed.

Lemma node_list_read cs :
  Forall children_read cs → Forall (every type_writable) cs →
  ∀ fuel i parsed acc tail,
  (length (as_lines (concat (item_lines i <$> cs)) ++ tail) <= fuel)%nat → ends i tail →
  cs ≠ [] ∨ parsed = true →
  node_list fuel i parsed acc (as_lines (concat (item_lines i <$> cs)) ++ tail) =
  Parsed (acc ++ cs, tail).
Proof.
  intros Hread Hev. induction Hread as [|c cs Hc _ IH]; intros fuel i parsed acc tail Hf He Hp.
  { destruct Hp as [?| ->]; [done|]. rewrite app_nil_r. by apply node_list_end. }
  apply Forall_cons in Hev as [Hevc Hev]. rewrite as_lines_item in Hf |- *.
  destruct (items_end i cs tail He) as [Hends Hnext]. cbn [length] in Hf.
  destruct fuel as [|fuel]; [lia|]. rewrite node_list_item by by apply every_type.
  rewrite node_list_child by (done || lia). cbn [mbind Parse_bind].
  change (c :: cs) with ([c] ++ cs). rewrite (app_assoc acc).
  rewrite length_app in Hf. apply IH; [done|lia|done|by right].
Qed.

Lemma node_block_read d fuel i tail :
  children_read d → every type_writable d →
  (length (as_lines (node_lines i d) ++ tail) <= fuel)%nat → ends i tail →
  node_fields fuel i false default_definition (as_lines (node_lines i d) ++ tail) = Parsed (d, tail).
Proof.
  intros Hd Hev Hf He. unfold node_lines, default_definition in *. rewrite as_lines_cons in *.
  cbn [length app] in *. destruct fuel as [|fuel]; [lia|].
  rewrite node_fields_type by by apply every_type. apply Hd; [lia|done|by right|done].
Qed.

Lemma children_read_all d : children_read d.
Proof.
  induction d as [d IH] using definition_ind. intros fuel i parsed tail Hf He Hp Hev.
  destruct d as [ty ds]. simpl in IH, Hp. inversion Hev as [? ? Hty Hds]; subst.
  destruct ds as [|d1 [|d2 ds]].
  - simpl in *. destruct Hp as [?| ->]; [done|]. by apply node_fields_end.
  - apply Forall_inv in IH, Hds.
    assert (E : child_lines i (mkDefinition ty [d1]) = (i, nested "child") :: node_lines (i + 2) d1) by done.
    rewrite E, as_lines_cons in Hf |- *. clear E. cbn [length app] in Hf |- *.
    destruct fuel as [|fuel]; [lia|]. rewrite node_fields_child, (node_block_read d1); [|done|done|lia|by eapply ends_le; [|exact He]; lia].
    cbn [mbind Parse_bind]. apply node_fields_end; [|done]. rewrite length_app in Hf. lia.
  - assert (E : child_lines i (mkDefinition ty (d1 :: d2 :: ds)) =
                (i, nested "children") :: concat (item_lines (i + 2) <$> d1 :: d2 :: ds)).
    { unfold item_lines. simpl. by rewrite <-!Nat.add_assoc. }
    rewrite E, as_lines_cons in Hf |- *. clear E. cbn [length app] in Hf |- *. destruct fuel as [|fuel]; [lia|].
    rewrite node_fields_children, (node_list_read (d1 :: d2 :: ds));
      [|done|done|by apply le_S_n|by eapply ends_le; [|exact He]; lia|by left].
    cbn [mbind Parse_bind]. apply node_fields_end; [|done]. rewrite length_app in Hf. lia.
Qed.

(* ------------------------------------------------------------------ *)
(** ** The text of the lines *)

(** A line that the parser of trees reads back. *)
Definition tree_line_ok (l : Line) : Prop := tight l.2 ∧ "#"%char ∉ l.2 ∧ line_feed ∉ l.2.

Lemma tree_line_print i s :
  tree_line_ok (i, s) → tree_line (replicate i " "%char ++ s) = Parsed (Some (mkTreeLine i s)).
Proof.
  intros (Ht & Hh & _). cbn [fst snd] in *. unfold tree_line. rewrite take_blanks by done.
  rewrite length_replicate, drop_app_length' by by rewrite length_replicate.
  rewrite Trim_tight by done. rewrite (bool_decide_eq_false_2 _ Hh).
  destruct Ht as [(c & s' & -> & Hc) _]. cbn [heads]. rewrite bool_decide_eq_false_2 by by intros ->.
  done.
Qed.

Lemma lines_from_yaml_print ls fuel :
  Forall tree_line_ok ls → (length (print_lines ls) < fuel)%nat →
  lines_from_yaml fuel (print_lines ls) = Parsed (as_lines ls).
Proof.
  intros Hls. revert fuel. induction Hls as [|[i s] ls Hl _ IH]; intros [|fuel] Hf; simpl;
    [lia|done|simpl in Hf; lia|].
  rewrite app_assoc, split_line_print.
  - rewrite tree_line_print by done. simpl in *. rewrite !length_app in Hf. simpl in Hf.
    by rewrite IH by lia.
  - rewrite not_elem_of_app. split; [|apply Hl]. intros [Hc _]%elem_of_replicate. done.
Qed.

Lemma LinesFromYaml_print ls : Forall tree_line_ok ls → LinesFromYaml (print_lines ls) = Parsed (as_lines ls).
Proof. intros Hls. apply lines_from_yaml_print; [done|lia]. Qed.

Lemma plain_line_ok i s : plain s → tree_line_ok (i, s).
Proof.
  intros [Ht Hs]. split_and!; [done|..]; intros Hin; rewrite Forall_forall in Hs;
    by apply Hs, calm_spec in Hin as (_ & _ & ? & _ & ?).
Qed.

Lemma type_line_ok i type : type_writable type → tree_line_ok (i, field "type" (print_string type)).
Proof.
  intros [_ Hty]. split; [apply field_type_tight|]. cbn [snd].
  assert (H : ∀ c, c ∈ ["#"%char; line_feed] → c ∉ field "type" (print_string type)).
  { intros c Hc Hin. unfold field, print_string in Hin.
    rewrite !elem_of_app, !elem_of_cons, !elem_of_app, elem_of_cons, elem_of_nil in Hin.
    rewrite !elem_of_cons, elem_of_nil in Hc. rewrite Forall_forall in Hty.
    destruct Hin as [Hin|[->|[->|[->|[Hin|[->|[]]]]]]]; try (by destruct_or! Hc).
    - assert (c ∉ chars_of "type"); [|done].
      destruct_or! Hc; subst; apply (bool_decide_unpack _); by vm_compute.
    - apply Hty in Hin. apply negb_true_iff, bool_decide_eq_false in Hin. set_solver. }
  split; apply H; set_solver.
Qed.

Lemma entry_line_ok i s : tree_line_ok (i, s) → tree_line_ok (i, entry s).
Proof.
  intros ([_ (d & t & E & Hd)] & Hh & Hf). cbn [fst snd] in *. split_and!; cbn [snd].
  - split; [by exists "-"%char, (" "%char :: s)|]. exists d, ("-"%char :: " "%char :: t). by rewrite E.
  - unfold entry. rewrite !not_elem_of_cons. done.
  - unfold entry. rewrite !not_elem_of_cons. done.
Qed.

Lemma child_lines_ok d : every type_writable d → ∀ i, Forall tree_line_ok (child_lines i d).
Proof.
  induction d as [d IH] using definition_ind. intros Hd i. inversion Hd as [ty ds Hty Hds]; subst.
  simpl in IH. assert (Hall : Forall (λ d, type_writable (type d) ∧ ∀ i, Forall tree_line_ok (child_lines i d)) ds).
  { apply Forall_forall. intros d Hin. rewrite Forall_forall in IH, Hds. split; [|auto].
    by destruct (Hds d Hin). }
  clear IH Hds Hd. destruct ds as [|d1 [|d2 ds]]; [constructor|..].
  - apply Forall_inv in Hall as [Hty1 Hl]. simpl.
    apply Forall_cons_2; [by apply plain_line_ok, plain_literal|]. apply Forall_cons_2; [by apply type_line_ok|done].
  - cbn [child_lines children]. apply Forall_cons_2; [by apply plain_line_ok, plain_literal|].
    apply Forall_concat, Forall_map. eapply Forall_impl; [exact Hall|].
    intros d [Htyd Hl]. apply Forall_cons_2; [by apply entry_line_ok, type_line_ok|apply Hl].
Qed.

Lemma tree_lines_ok d : every type_writable (document_root d) → Forall tree_line_ok (tree_lines d).
Proof.
  intros Hd. apply Forall_cons_2; [by apply plain_line_ok, plain_literal|].
  apply Forall_cons_2; [|by apply child_lines_ok]. apply type_line_ok. by destruct Hd.
Qed.

(* ------------------------------------------------------------------ *)
(** ** The parsers always answer *)

Lemma tree_line_outcome raw : outcome False (λ _, True) (tree_line raw).
Proof. unfold tree_line. by destruct (heads _ _). Qed.

Lemma lines_from_yaml_outcome fuel document :
  (length document < fuel)%nat → outcome False (λ _, True) (lines_from_yaml fuel document).
Proof.
  revert document. induction fuel as [|fuel IH]; intros document Hf; [lia|]. simpl.
  destruct (split_line document) as [raw rest] eqn:E.
  apply (outcome_bind (λ _, True)); [apply tree_line_outcome|]. intros line _.
  apply (outcome_bind (λ _, True)); [|done]. destruct rest as [rest|]; [|done].
  apply IH. apply split_line_shorter in E. lia.
Qed.

Lemma FieldValue_outcome s field : outcome False (λ _, True) (FieldValue s field).
Proof. unfold FieldValue. by case_bool_decide. Qed.

(** Both loops leave no more lines than they are given. *)
Lemma node_loops_outcome fuel :
  (∀ indent parsed node lines, (length lines <= fuel)%nat →
    outcome False (λ r, (length r.2 <= length lines)%nat) (node_fields fuel indent parsed node lines)) ∧
  (∀ indent parsed ds lines, (length lines <= fuel)%nat →
    outcome False (λ r, (length r.2 <= length lines)%nat) (node_list fuel indent parsed ds lines)).
Proof.
  induction fuel as [|fuel [IHf IHl]].
  { split; intros indent [] x [|line lines] Hf; simpl in *; (done || lia). }
  assert (Hfin : ∀ A (a : A) (parsed : bool) m lines,
            outcome False (λ r, (length r.2 <= length (lines : list TreeLine))%nat)
              (if parsed then Parsed (a, lines) else ParseError m)) by (intros ? ? [] ? ?; [apply le_n|exact I]).
  split; intros indent parsed x [|line rest] Hf; try apply Hfin; simpl in Hf.
  - cbn [node_fields]. destruct (_ <? indent)%nat; [apply Hfin|]. destruct (indent <? _)%nat; [done|].
    destruct (StartsWith _ "-"); [done|]. destruct (StartsWith _ "type:").
    { destruct (negb _); [done|]. apply (outcome_bind (λ _, True)); [apply FieldValue_outcome|]. intros ty _.
      eapply outcome_impl; [apply IHf; lia|done|intros ? ?; simpl in *; lia]. }
    case_bool_decide; [|case_bool_decide; [|done]].
    + eapply outcome_bind; [apply IHf; lia|]. intros [c r] Hr. simpl in Hr.
      eapply outcome_impl; [apply IHf; lia|done|intros ? ?; simpl in *; lia].
    + eapply outcome_bind; [apply IHl; lia|]. intros [c r] Hr. simpl in Hr.
      eapply outcome_impl; [apply IHf; lia|done|intros ? ?; simpl in *; lia].
  - cbn [node_list]. destruct (_ <? indent)%nat; [apply Hfin|]. destruct (indent <? _)%nat; [done|].
    destruct (negb _); [apply Hfin|]. apply (outcome_bind (λ _, True)).
    { case_bool_decide; [done|]. destruct (negb _); [done|apply FieldValue_outcome]. }
    intros ty _. apply (outcome_bind (λ r, (length r.2 <= length rest)%nat)).
    { destruct (_ || _); [apply IHf; lia|simpl; lia]. }
    intros [c r] Hr. simpl in Hr. eapply outcome_impl; [apply IHl; lia|done|intros ? ?; simpl in *; lia].
Qed.

Lemma DocumentFromYaml_outcome document : outcome False (λ _, True) (DocumentFromYaml document).
Proof.
  apply (outcome_bind (λ _, True)); [apply lines_from_yaml_outcome; lia|]. intros [|front rest] _; [done|].
  destruct (_ || _); [done|]. eapply outcome_bind; [by apply node_loops_outcome|]. intros [root r] _.
  by destruct (negb _).
Qed.

(** C19: a behavior tree whose types its document can carry survives the round
    trip, and the parsers answer on every document. The text of the JSON document of
    a tree is parsed to that tree if the types of its nodes are not empty and consist
    of characters that JSON can escape or need not; that of its YAML document, with
    [child] for a single child and [children] for several at every level, if they are
    not empty and without quotation marks, [#] and line feeds (see
    [comment_in_quotes]). On any text at all both parsers answer a document or a
    failure: no recursion and no loop runs out of fuel. *)
Theorem TreeParser_roundtrip d text :
  (every type_representable (document_root d) → ParseJson (print (json_of_tree d)) = Parsed (Success d)) ∧
  (every type_writable (document_root d) → ParseYaml (print_lines (tree_lines d)) = Parsed (Success d)) ∧
  (∃ r, ParseJson text = Parsed r) ∧ (∃ r, ParseYaml text = Parsed r).
Proof.
  split_and!.
  - intros Hd. assert (Hp : printable (json_of_tree d)) by (object; by apply printable_node).
    unfold ParseJson, JsonParser_Parse. rewrite Parse_print by done.
    unfold DocumentFromJson, json_of_tree. cbn [AsObject mbind Parse_bind].
    rewrite (Required_Some _ "root" (json_of_node (document_root d))) by apply Optional_here.
    cbn [mbind Parse_bind]. rewrite NodeFromJson_read by (done || lia). by destruct d.
  - intros Hd. unfold ParseYaml, DocumentFromYaml. rewrite LinesFromYaml_print by by apply tree_lines_ok.
    cbn [mbind Parse_bind]. unfold tree_lines. rewrite as_lines_cons.
    replace (_ || _) with false by done. unfold ParseYamlNodeBlock, ParseYamlNodeFields.
    rewrite <-(app_nil_r (as_lines _)), node_block_read; [by destruct d|apply children_read_all|done..].
  - unfold ParseJson, JsonParser_Parse. pose proof (Parse_json_answers tree_dialect text) as Ha.
    destruct (Parse_json tree_dialect text) as [v| | |]; simpl; eauto; [|done..].
    pose proof (DocumentFromJson_outcome v) as H. destruct (DocumentFromJson v); simpl; eauto; done.
  - unfold ParseYaml. pose proof (DocumentFromYaml_outcome text) as H.
    destruct (DocumentFromYaml text); simpl; eauto; done.
Qed.

(** A [#] begins a comment also between quotation marks: such a type is cut. *)
Example comment_in_quotes :
  let d := mkDocument (mkDefinition "a#b" []) in
  ParseYaml (print_lines (tree_lines d)) ≠ Parsed (Success d) ∧
  ParseJson (print (json_of_tree d)) = Parsed (Success d).
Proof. split; by vm_compute. Qed.

(** A sequence of two nodes under a retry node. *)
Definition sample_tree : TreeNodeDefinition :=
  mkDefinition "retry" [mkDefinition "sequence" [mkDefinition "wait" []; mkDefinition "stand up" []]].

Lemma sample_tree_every P : P "retry" → P "sequence" → P "wait" → P "stand up" → every P sample_tree.
Proof. intros. repeat constructor; done. Qed.

Lemma TreeParser_roundtrip_witness :
  every type_representable sample_tree ∧ every type_writable sample_tree ∧
  ParseJson (print (json_of_tree (mkDocument sample_tree))) = Parsed (Success (mkDocument sample_tree)) ∧
  ParseYaml (print_lines (tree_lines (mkDocument sample_tree))) = Parsed (Success (mkDocument sample_tree)).
Proof.
  assert (Hr : every type_representable sample_tree).
  { apply sample_tree_every; (split; [done|literal]). }
  assert (Hw : every type_writable sample_tree).
  { apply sample_tree_every; (split; [done|by repeat constructor]). }
  destruct (TreeParser_roundtrip (mkDocument sample_tree) []) as (Hj & Hy & _).
  exact (conj Hr (conj Hw (conj (Hj Hr) (Hy Hw)))).
Defined.
