(* ===== verification/Status.v ===== *)
(** * Statuses

    [humanoid::common::Status] of common/src/Status.cpp, the result of the
    operations of the planners, the sensors and the plugins, and the outcome
    of a call that may throw. *)

From stdpp Require Import pretty.
From S2P Require Import Prelude.

Open Scope Z_scope.

Inductive StatusCode :=
  | kOk | kCancelled | kInvalidArgument | kUnavailable | kFailedPrecondition | kInternalError.

#[export] Instance StatusCode_eq_dec : EqDecision StatusCode.
Proof. solve_decision. Defined.

Definition StatusCode_toString (c : StatusCode) : string :=
  match c with
  | kOk => "ok"
  | kCancelled => "cancelled"
  | kInvalidArgument => "invalid_argument"
  | kUnavailable => "unavailable"
  | kFailedPrecondition => "failed_precondition"
  | kInternalError => "internal_error"
  end.

Record Status := mkStatus { status_code : StatusCode; status_message : string }.

(** [Status(code, message)]: a success has no message. *)
Definition new_Status (c : StatusCode) (message : string) : Status :=
  mkStatus c (if bool_decide (c = kOk) then EmptyString else message).

Definition Ok : Status := mkStatus kOk EmptyString.

Definition error (c : StatusCode) (message : string) : Status :=
  if bool_decide (c = kOk) then Ok else new_Status c message.

Definition isOk (s : Status) : bool := bool_decide (status_code s = kOk).

Definition InvalidArgument (message : string) : Status := error kInvalidArgument message.
Definition FailedPrecondition (message : string) : Status := error kFailedPrecondition message.
Definition InternalError (message : string) : Status := error kInternalError message.

(** What a call does: it returns, or throws a [std::exception] with its
    [what()], or something else. *)
Inductive Outcome (A : Type) :=
  | Value (a : A)
  | Exception (what : string)
  | UnknownException.
Arguments Value {A} a.
Arguments Exception {A} what.
Arguments UnknownException {A}.

(** [std::to_string] of an unsigned integer. *)
Definition string_of_uint (n : Z) : string := pretty (Z.to_N n).
