(* ===== verification/Planner.v ===== *)
(** * Goals and the rule-based planner

    The goals, requests and results of include/humanoid/planner, and
    src/planner/RuleBasedPlanner.cpp: a goal selects a rule, from which a
    mission and a behavior tree are made.

    The rules of a planner never change; its only state that does is the flag
    of a cancellation, which [Plan] exchanges when it begins and after it has
    selected a rule.  [Plan_begin] and [Plan_end] are what it does between.
    Readings of the steady clock are arguments. *)

From S2P Require Import Prelude Status Command RobotState SafetyValidator Mission.
From S2P Require Import BTNode BehaviorTree.
From S2P Require ExecutionContext.

Open Scope Z_scope.

(* ------------------------------------------------------------------ *)
(** ** Goals *)

Inductive GoalPriority :=
  | GoalLow | GoalNormal | GoalHigh | GoalCritical | GoalPriorityRaw (value : Z).

Inductive GoalStatus :=
  | GoalPending | GoalAccepted | GoalPlanning | GoalPlanned | GoalRejected | GoalFailed
  | GoalCancelled.

Inductive GoalType :=
  | GoalMission | GoalBehaviorTree | GoalCommand | GoalInspection | GoalInteraction | GoalCustom
  | GoalTypeRaw (value : Z).

#[export] Instance GoalStatus_eq_dec : EqDecision GoalStatus.
Proof. solve_decision. Defined.
#[export] Instance GoalType_eq_dec : EqDecision GoalType.
Proof. solve_decision. Defined.

Definition GoalPriority_toString (p : GoalPriority) : string :=
  match p with
  | GoalLow => "Low"
  | GoalNormal => "Normal"
  | GoalHigh => "High"
  | GoalCritical => "Critical"
  | GoalPriorityRaw _ => "Unknown"
  end.

Definition GoalStatus_toString (s : GoalStatus) : string :=
  match s with
  | GoalPending => "Pending"
  | GoalAccepted => "Accepted"
  | GoalPlanning => "Planning"
  | GoalPlanned => "Planned"
  | GoalRejected => "Rejected"
  | GoalFailed => "Failed"
  | GoalCancelled => "Cancelled"
  end.

Definition GoalType_toString (t : GoalType) : string :=
  match t with
  | GoalMission => "Mission"
  | GoalBehaviorTree => "BehaviorTree"
  | GoalCommand => "Command"
  | GoalInspection => "Inspection"
  | GoalInteraction => "Interaction"
  | GoalCustom => "Custom"
  | GoalTypeRaw _ => "Unknown"
  end.

Definition isTerminal (s : GoalStatus) : bool :=
  bool_decide (s = GoalPlanned) || bool_decide (s = GoalRejected) ||
  bool_decide (s = GoalFailed) || bool_decide (s = GoalCancelled).

(** The same variant as the values of a payload. *)
Definition GoalValue : Type := CommandPayloadValue.

Record Goal := mkGoal {
  goal_id : Z;
  goal_type : GoalType;
  goal_description : string;
  goal_priority : GoalPriority;
  goal_status : GoalStatus;
  goal_constraints : gmap string GoalValue;
  goal_context : gmap string GoalValue;
  goal_metadata : gmap string string;
  goal_timestamp : Z;
}.

Definition default_Goal : Goal :=
  mkGoal 0 GoalCustom "" GoalNormal GoalPending ∅ ∅ ∅ 0.

Definition Goal_isValid (g : Goal) : bool :=
  negb (goal_id g =? 0) && negb (bool_decide (goal_description g = EmptyString)).

(* ------------------------------------------------------------------ *)
(** ** Requests, results and capabilities *)

Record RobotCapabilities := mkRobotCapabilities {
  supportsLifecycle : bool;
  supportsConnectionManagement : bool;
  supportsStateFeedback : bool;
  supportsRobotInformation : bool;
  supportsPeriodicUpdate : bool;
  supportsPowerState : bool;
  supportsPoseEstimation : bool;
  supportsHealthState : bool;
  supportsCommandExecution : bool;
}.

Record PlanningRequest := mkRequest {
  goal : Goal;
  runtimeContext : ExecutionContext.ExecutionContextSnapshot;
  robotCapabilities : RobotCapabilities;
}.

Definition Request_isValid (r : PlanningRequest) : bool := Goal_isValid (goal r).

Inductive PlanningDiagnosticSeverity := Info | Warning | Error.

Record PlanningDiagnostic := mkDiagnostic {
  severity : PlanningDiagnosticSeverity;
  diagnostic_code : string;
  diagnostic_message : string;
}.

Inductive PlannerKind := KindRule | KindLlm | KindSymbolic | KindCustom.

Record PlannerCapabilities := mkCapabilities {
  plannerId : string;
  planner_name : string;
  planner_description : string;
  kind : PlannerKind;
  supportedGoalTypes : list GoalType;
  supportsMissionOutput : bool;
  supportsBehaviorTreeOutput : bool;
  supportsPlanValidation : bool;
  supportsCancellation : bool;
}.

Definition Capabilities_isValid (c : PlannerCapabilities) : bool :=
  negb (bool_decide (plannerId c = EmptyString)) && negb (bool_decide (planner_name c = EmptyString)) &&
  (supportsMissionOutput c || supportsBehaviorTreeOutput c).

Section Result.
Context {Env : TreeEnvironment}.

Record PlanningResult := mkPlanningResult {
  result_status : GoalStatus;
  result_mission : option Mission;
  behaviorTree : option BehaviorTree.BehaviorTree;
  diagnostics : list PlanningDiagnostic;
}.

Definition default_PlanningResult : PlanningResult := mkPlanningResult GoalPending None None [].

Definition hasMission (r : PlanningResult) : bool :=
  match result_mission r with Some _ => true | None => false end.

Definition hasBehaviorTree (r : PlanningResult) : bool :=
  match behaviorTree r with Some _ => true | None => false end.

Definition PlanningResult_isSuccess (r : PlanningResult) : bool :=
  bool_decide (result_status r = GoalPlanned) && (hasMission r || hasBehaviorTree r).
End Result.

#[export] Instance eta_PlanningResult {Env : TreeEnvironment} : EtaRecord PlanningResult := fun r =>
  mkPlanningResult (result_status r) (result_mission r) (behaviorTree r) (diagnostics r).

Definition AddDiagnostic {Env : TreeEnvironment} (r : PlanningResult) (s : PlanningDiagnosticSeverity)
    (code message : string) : PlanningResult :=
  r <| diagnostics ::= λ ds, ds ++ [mkDiagnostic s code message] |>.

(* ------------------------------------------------------------------ *)
(** ** Rules *)

Record RuleBasedPlannerRule := mkRule {
  ruleId : string;
  goalType : GoalType;
  minimumPriority : GoalPriority;
  commandSequence : list CommandType;
  missionName : string;
  fallback : bool;
}.

Definition Rule_isValid (r : RuleBasedPlannerRule) : bool :=
  negb (bool_decide (ruleId r = EmptyString)) && negb (bool_decide (commandSequence r = [])).

Definition PriorityRank (p : GoalPriority) : Z :=
  match p with
  | GoalLow => 0
  | GoalNormal => 1
  | GoalHigh => 2
  | GoalCritical => 3
  | GoalPriorityRaw _ => -1
  end.

Definition ToCommandPriority (p : GoalPriority) : CommandPriority :=
  match p with
  | GoalLow => PriorityLow
  | GoalNormal => PriorityNormal
  | GoalHigh => PriorityHigh
  | GoalCritical => PriorityCritical
  | GoalPriorityRaw _ => PriorityNormal
  end.

(** The loop of [SelectRule], with its variables. *)
Fixpoint select_rule (rules : list RuleBasedPlannerRule) (g : Goal)
    (first_fallback selected : option RuleBasedPlannerRule) (selected_priority : Z) :
    option RuleBasedPlannerRule :=
  match rules with
  | [] => match selected with Some _ => selected | None => first_fallback end
  | rule :: rules =>
      if negb (Rule_isValid rule) then select_rule rules g first_fallback selected selected_priority
      else if fallback rule then
        select_rule rules g
          (match first_fallback with Some _ => first_fallback | None => Some rule end)
          selected selected_priority
      else if negb (bool_decide (goalType rule = goal_type g)) then
        select_rule rules g first_fallback selected selected_priority
      else
        let rule_priority := PriorityRank (minimumPriority rule) in
        if PriorityRank (goal_priority g) <? rule_priority then
          select_rule rules g first_fallback selected selected_priority
        else if match selected with None => true | Some _ => selected_priority <? rule_priority end
        then select_rule rules g first_fallback (Some rule) rule_priority
        else select_rule rules g first_fallback selected selected_priority
  end.

Definition SelectRule (rules : list RuleBasedPlannerRule) (g : Goal) : option RuleBasedPlannerRule :=
  select_rule rules g None None (-1).

(* ------------------------------------------------------------------ *)
(** ** Missions and trees from a rule *)

Definition DerivedId (seed offset : Z) : Z :=
  if negb (seed =? 0) && (seed <=? u64_modulus - 1 - offset) then seed + offset
  else if offset =? 0 then 1 else offset.

Definition kCommandIdScale : Z := 1000.

Definition CommandSeed (goal_id : Z) : Z :=
  if negb (goal_id =? 0) && (goal_id <=? (u64_modulus - 1) / kCommandIdScale)
  then goal_id * kCommandIdScale else goal_id.

Definition MakeCommand (g : Goal) (rule : RuleBasedPlannerRule) (command_type : CommandType)
    (step_index now : Z) : Command :=
  {| id := DerivedId (CommandSeed (goal_id g)) step_index;
     timestamp := now;
     type := command_type;
     priority := ToCommandPriority (goal_priority g);
     timeout := 0;
     payload := <["rule_id" := PayloadString (ruleId rule)]>
                (<["goal_description" := PayloadString (goal_description g)]>
                 {["goal_type" := PayloadString (GoalType_toString (goal_type g))]});
     metadata := <["rule_id" := ruleId rule]>
                 (<["goal_id" := string_of_uint (goal_id g)]> {["planner" := "RuleBasedPlanner"]}) |}.

Definition MakeStep (g : Goal) (rule : RuleBasedPlannerRule) (command_type : CommandType)
    (step_index now : Z) : MissionStep :=
  default_MissionStep
    <| step_id := step_index |>
    <| step_name := "Rule step " +:+ string_of_uint step_index +:+ " " +:+
                    CommandType_toString command_type |>
    <| step_command := MakeCommand g rule command_type step_index now |>
    <| step_metadata := <["rule_id" := ruleId rule]> {["planner" := "RuleBasedPlanner"]} |>.

(** The loop of [MakeMission]; the clock is read once a step. *)
Fixpoint make_steps (g : Goal) (rule : RuleBasedPlannerRule) (commands : list CommandType)
    (step_index : Z) (clock : nat → Z) : list MissionStep :=
  match commands with
  | [] => []
  | command_type :: commands =>
      MakeStep g rule command_type step_index (clock 0%nat) ::
      make_steps g rule commands (u64_incr step_index) (clock ∘ S)
  end.

Definition MakeMission (r : PlanningRequest) (rule : RuleBasedPlannerRule) (clock : nat → Z) : Mission :=
  {| mission_id := goal_id (goal r);
     mission_name := missionName rule +:+ ": " +:+ goal_description (goal r);
     description := "Deterministic rule-based plan generated from goal " +:+
                    string_of_uint (goal_id (goal r));
     version := "1";
     author := "RuleBasedPlanner";
     mission_timestamp := clock 0%nat;
     steps := make_steps (goal r) rule (commandSequence rule) 1 (clock ∘ S);
     mission_metadata := <["goal_type" := GoalType_toString (goal_type (goal r))]>
                         (<["rule_id" := ruleId rule]> {["planner" := "RuleBasedPlanner"]}) |}.

Section Planner.
Context {Env : TreeEnvironment}.

(** A leaf that reports success for each command. *)
Definition MakeBehaviorTree (rule : RuleBasedPlannerRule) : BehaviorTree.BehaviorTree :=
  let leaf (_ : CommandType) := ActionNode (Some (λ w, (Returned Success, w))) in
  BehaviorTree.new_BehaviorTree (Some (SequenceNode Stateless 0 (map leaf (commandSequence rule)))).

(* ------------------------------------------------------------------ *)
(** ** The planner *)

Record RuleBasedPlanner := mkPlanner {
  rules_ : list RuleBasedPlannerRule;
  capabilities_ : PlannerCapabilities;
  cancellationRequested_ : bool;
}.

Definition DefaultFallbackRule : RuleBasedPlannerRule :=
  mkRule "rule.fallback.default" GoalCustom GoalLow [TypeCustom] "Fallback Plan" true.

Definition DefaultCapabilities : PlannerCapabilities :=
  mkCapabilities "humanoid.planner.rule_based" "Rule-Based Planner"
    "Deterministic static planner for framework-owned goals" KindRule
    [GoalMission; GoalBehaviorTree; GoalCommand; GoalInspection; GoalInteraction; GoalCustom]
    true true true true.

Definition new_RuleBasedPlanner (rules : list RuleBasedPlannerRule) : RuleBasedPlanner :=
  let kept := List.filter Rule_isValid rules in
  mkPlanner (if existsb fallback kept then kept else kept ++ [DefaultFallbackRule])
    DefaultCapabilities false.

Definition DefaultRules : list RuleBasedPlannerRule :=
  [mkRule "rule.command.critical-stop" GoalCommand GoalCritical [TypeStop] "Critical Command Plan" false;
   mkRule "rule.mission.default" GoalMission GoalLow [TypeCustom] "Mission Plan" false;
   mkRule "rule.behavior-tree.default" GoalBehaviorTree GoalLow [TypeCustom] "Behavior Tree Plan" false;
   mkRule "rule.command.default" GoalCommand GoalLow [TypeCustom] "Command Plan" false;
   mkRule "rule.inspection.default" GoalInspection GoalLow [TypeCustom] "Inspection Plan" false;
   mkRule "rule.interaction.default" GoalInteraction GoalLow [TypeCustom] "Interaction Plan" false;
   DefaultFallbackRule].

(** [cancellationRequested_.exchange(false)] *)
Definition exchange_cancellation (p : RuleBasedPlanner) : bool * RuleBasedPlanner :=
  (cancellationRequested_ p, mkPlanner (rules_ p) (capabilities_ p) false).

Definition Cancelled (message : string) : PlanningResult :=
  AddDiagnostic (default_PlanningResult <| result_status := GoalCancelled |>) Warning
    "planner.cancelled" message.

(** [Plan] up to the selection of a rule. *)
Definition Plan_begin (r : PlanningRequest) (p : RuleBasedPlanner) :
    (PlanningResult + RuleBasedPlannerRule) * RuleBasedPlanner :=
  let '(cancelled, p) := exchange_cancellation p in
  if cancelled then (inl (Cancelled "planning was cancelled before rule evaluation"), p)
  else if negb (Request_isValid r) then
    (inl (AddDiagnostic (default_PlanningResult <| result_status := GoalRejected |>) Error
            "planner.invalid_request" "planning request does not contain a valid goal"), p)
  else match SelectRule (rules_ p) (goal r) with
  | None =>
      (inl (AddDiagnostic (default_PlanningResult <| result_status := GoalFailed |>) Error
              "planner.no_rule" "no valid rule or fallback rule is available"), p)
  | Some rule => (inr rule, p)
  end.

(** [Plan] from the second look at the flag on. *)
Definition Plan_end (r : PlanningRequest) (rule : RuleBasedPlannerRule) (clock : nat → Z)
    (p : RuleBasedPlanner) : PlanningResult * RuleBasedPlanner :=
  let '(cancelled, p) := exchange_cancellation p in
  if cancelled then (Cancelled "planning was cancelled after rule selection", p)
  else
    let result :=
      default_PlanningResult
        <| result_mission := Some (MakeMission r rule clock) |>
        <| behaviorTree := Some (MakeBehaviorTree rule) |>
        <| result_status := GoalPlanned |> in
    (AddDiagnostic result (if fallback rule then Warning else Info)
       (if fallback rule then "planner.fallback_rule" else "planner.rule_matched")
       ("selected rule " +:+ ruleId rule), p).

(** [Plan] when no other thread runs. *)
Definition Plan (r : PlanningRequest) (clock : nat → Z) (p : RuleBasedPlanner) :
    PlanningResult * RuleBasedPlanner :=
  match Plan_begin r p with
  | (inl result, p) => (result, p)
  | (inr rule, p) => Plan_end r rule clock p
  end.

Definition ValidatePlan (result : PlanningResult) : Status :=
  if negb (bool_decide (result_status result = GoalPlanned)) then
    InvalidArgument "planning result is not in Planned status"
  else match result_mission result with
  | None => InvalidArgument "planning result does not contain a mission"
  | Some m =>
      if negb (Mission_isValid m) then InvalidArgument "planning result mission is invalid"
      else if negb (hasBehaviorTree result) then
        InvalidArgument "planning result does not contain a behavior tree"
      else Ok
  end.

Definition CancelPlan (p : RuleBasedPlanner) : Status * RuleBasedPlanner :=
  (Ok, mkPlanner (rules_ p) (capabilities_ p) true).

Definition GetCapabilities (p : RuleBasedPlanner) : PlannerCapabilities := capabilities_ p.

Definition RuleCount (p : RuleBasedPlanner) : Z := Z.of_nat (length (rules_ p)).
End Planner.
