(* ===== verification/PlannerProofs.v ===== *)
(** * What the rule-based planner answers

    The rule it selects, the mission and the tree it makes of a rule, what the
    dispatcher says of the commands of that mission, the identifiers of these
    commands, and cancellations that arrive while plans are made. *)

From Stdlib Require Import SpecFloat.
From S2P Require Import Prelude Status Command RobotState SafetyValidator CommandValidation.
From S2P Require Import Mission MissionProofs BTNode BehaviorTree Planner.

Open Scope Z_scope.

(* ------------------------------------------------------------------ *)
(** ** The selected rule *)

Definition rank (r : RuleBasedPlannerRule) : Z := PriorityRank (minimumPriority r).

(** A rule that matches a goal, and a fallback rule. *)
Definition applies (g : Goal) (r : RuleBasedPlannerRule) : Prop :=
  Rule_isValid r = true ∧ fallback r = false ∧ goalType r = goal_type g ∧
  rank r <= PriorityRank (goal_priority g).

Definition falls_back (r : RuleBasedPlannerRule) : Prop := Rule_isValid r = true ∧ fallback r = true.

(** The first of the rules of the highest minimum priority that match. *)
Definition best_rule (g : Goal) (rules : list RuleBasedPlannerRule) (r : RuleBasedPlannerRule) : Prop :=
  ∃ pre post, rules = pre ++ r :: post ∧ applies g r ∧
    (∀ r', r' ∈ pre → applies g r' → rank r' < rank r) ∧
    (∀ r', r' ∈ post → applies g r' → rank r' <= rank r).

Definition first_fallback_rule (rules : list RuleBasedPlannerRule) (r : RuleBasedPlannerRule) : Prop :=
  ∃ pre post, rules = pre ++ r :: post ∧ falls_back r ∧ ∀ r', r' ∈ pre → ¬ falls_back r'.

Definition selects (g : Goal) (rules : list RuleBasedPlannerRule) (r : option RuleBasedPlannerRule) : Prop :=
  match r with
  | Some r => best_rule g rules r ∨ Forall (λ r', ¬ applies g r') rules ∧ first_fallback_rule rules r
  | None => Forall (λ r', ¬ applies g r' ∧ ¬ falls_back r') rules
  end.

Lemma best_rule_snoc g rules r r' :
  best_rule g rules r → (applies g r' → rank r' <= rank r) → best_rule g (rules ++ [r']) r.
Proof.
  intros (pre & post & -> & Ha & Hpre & Hpost) Hr. exists pre, (post ++ [r']).
  rewrite <-app_assoc. split_and!; [done..|].
  intros x [Hx|Hx%list_elem_of_singleton]%elem_of_app; [by apply Hpost|by subst].
Qed.

Lemma best_rule_new g rules r :
  applies g r → (∀ r', r' ∈ rules → applies g r' → rank r' < rank r) → best_rule g (rules ++ [r]) r.
Proof.
  intros Ha Hr. exists rules, []. split_and!; [done..|]. by intros r' Hr'%not_elem_of_nil.
Qed.

Lemma best_rule_bound g rules r r' : best_rule g rules r → r' ∈ rules → applies g r' → rank r' <= rank r.
Proof.
  intros (pre & post & -> & Ha & Hpre & Hpost) [Hr|[->|Hr]%elem_of_cons]%elem_of_app H; [|lia|by apply Hpost].
  specialize (Hpre _ Hr H). lia.
Qed.

Lemma first_fallback_snoc rules r r' : first_fallback_rule rules r → first_fallback_rule (rules ++ [r']) r.
Proof.
  intros (pre & post & -> & H). exists pre, (post ++ [r']). by rewrite <-app_assoc.
Qed.

(** The variables of the loop after the rules [pre]. *)
Definition selected_of (g : Goal) (pre : list RuleBasedPlannerRule)
    (selected : option RuleBasedPlannerRule) (selected_priority : Z) : Prop :=
  match selected with
  | Some r => best_rule g pre r ∧ selected_priority = rank r
  | None => Forall (λ r', ¬ applies g r') pre
  end.

Definition fallback_of (pre : list RuleBasedPlannerRule) (f : option RuleBasedPlannerRule) : Prop :=
  match f with
  | Some r => first_fallback_rule pre r
  | None => Forall (λ r', ¬ falls_back r') pre
  end.

Lemma Forall_snoc {A} (P : A → Prop) l x : Forall P l → P x → Forall P (l ++ [x]).
Proof. intros. apply Forall_app. auto. Qed.

Lemma selected_skip g pre s sp r : selected_of g pre s sp → ¬ applies g r → selected_of g (pre ++ [r]) s sp.
Proof.
  destruct s; simpl; [intros [H ->] Hr|intros]; [|by apply Forall_snoc].
  split; [|done]. by apply best_rule_snoc.
Qed.

Lemma fallback_skip pre f r : fallback_of pre f → ¬ falls_back r → fallback_of (pre ++ [r]) f.
Proof. destruct f; simpl; intros; [by apply first_fallback_snoc|by apply Forall_snoc]. Qed.

Lemma fallback_found pre f r :
  fallback_of pre f → falls_back r →
  fallback_of (pre ++ [r]) (match f with Some _ => f | None => Some r end).
Proof.
  destruct f; simpl; intros Hf Hr; [by apply first_fallback_snoc|].
  exists pre, []. rewrite Forall_forall in Hf. auto.
Qed.

Lemma selected_found g pre s sp r :
  selected_of g pre s sp → applies g r →
  let found := match s with None => true | Some _ => sp <? rank r end in
  selected_of g (pre ++ [r]) (if found then Some r else s) (if found then rank r else sp).
Proof.
  intros Hs Ha. destruct s as [best|]; simpl in *.
  - destruct Hs as [Hb ->]. destruct (Z.ltb_spec (rank best) (rank r)); (split; [|done]).
    + apply best_rule_new; [done|]. intros r' Hr' Ha'. pose proof (best_rule_bound _ _ _ _ Hb Hr' Ha'). lia.
    + by apply best_rule_snoc.
  - split; [|done]. rewrite Forall_forall in Hs. apply best_rule_new; [done|]. intros r' Hr' Ha'.
    by destruct (Hs _ Hr').
Qed.

Lemma select_rule_selects g rules : ∀ pre f s sp,
  fallback_of pre f → selected_of g pre s sp → selects g (pre ++ rules) (select_rule rules g f s sp).
Proof.
  induction rules as [|r rules IH]; intros pre f s sp Hf Hs; simpl.
  { rewrite app_nil_r. destruct s as [best|]; simpl in *; [left; by destruct Hs|].
    destruct f as [r|]; simpl in *; [by right|]. by apply Forall_and. }
  replace (pre ++ r :: rules) with ((pre ++ [r]) ++ rules) by by rewrite <-app_assoc.
  assert (Hskip : ¬ applies g r → ¬ falls_back r → fallback_of (pre ++ [r]) f ∧ selected_of g (pre ++ [r]) s sp).
  { intros. split; [by apply fallback_skip|by apply selected_skip]. }
  unfold applies, falls_back in Hskip. destruct (Rule_isValid r) eqn:Hv; simpl.
  2:{ destruct Hskip; [by intros (? & _)|by intros (? & _)|]. by apply IH. }
  destruct (fallback r) eqn:Hfb.
  { apply IH; [by apply fallback_found|]. apply selected_skip; [done|].
    intros (_ & ? & _). congruence. }
  assert (Hnf : ¬ falls_back r) by (intros [_ ?]; congruence).
  case_bool_decide as Ht; simpl;
    [|destruct Hskip; [by intros (_ & _ & ? & _)|by intros [_ ?]|by apply IH]].
  destruct (Z.ltb_spec (PriorityRank (goal_priority g)) (PriorityRank (minimumPriority r))) as [Hp|Hp].
  { destruct Hskip; [|by intros [_ ?]|by apply IH]. intros (_ & _ & _ & ?). unfold rank in *. lia. }
  pose proof (selected_found g pre s sp r Hs) as Hfound. simpl in Hfound.
  fold (rank r). destruct (match s with None => true | Some _ => sp <? rank r end);
    (apply IH; [by apply fallback_skip|apply Hfound; by repeat split]).
Qed.

Lemma SelectRule_selects g rules : selects g rules (SelectRule rules g).
Proof. apply (select_rule_selects g rules []); constructor. Qed.

(** A planner always has a fallback rule. *)
Lemma new_planner_falls_back rules : Exists falls_back (rules_ (new_RuleBasedPlanner rules)).
Proof.
  unfold new_RuleBasedPlanner. simpl. apply Exists_exists.
  destruct (existsb fallback _) eqn:E.
  2:{ exists DefaultFallbackRule. rewrite elem_of_app, list_elem_of_singleton. split; [by right|done]. }
  apply existsb_exists in E as (r & Hr & Hf). exists r. split; [by apply list_elem_of_In|].
  by apply filter_In in Hr as [_ Hr].
Qed.

Lemma new_planner_selects rules g : is_Some (SelectRule (rules_ (new_RuleBasedPlanner rules)) g).
Proof.
  pose proof (SelectRule_selects g (rules_ (new_RuleBasedPlanner rules))) as H.
  destruct (SelectRule _ g) as [r|]; [by exists r|]. simpl in H.
  pose proof (new_planner_falls_back rules) as (r & Hr & Hf)%Exists_exists.
  rewrite Forall_forall in H. by destruct (H r Hr).
Qed.

(* ------------------------------------------------------------------ *)
(** ** The mission *)

Lemma DerivedId_nonzero seed offset : 0 <= seed → 0 <= offset → DerivedId seed offset ≠ 0.
Proof.
  unfold DerivedId. intros. destruct (Z.eqb_spec seed 0), (Z.leb_spec seed (u64_modulus - 1 - offset)),
    (Z.eqb_spec offset 0); simpl; lia.
Qed.

Lemma CommandSeed_nonneg g : 0 <= g → 0 <= CommandSeed g.
Proof. unfold CommandSeed, kCommandIdScale. intros. destruct (_ && _); lia. Qed.

Lemma ToCommandPriority_known p : IsKnownPriority (ToCommandPriority p) = true.
Proof. by destruct p. Qed.

Lemma planned_command_schema g rule t i now :
  0 <= goal_id g → 0 < i → IsKnownCommandType t = true → command_schema (MakeCommand g rule t i now).
Proof.
  intros Hg Hi Ht. unfold command_schema, isValid. simpl. split_and!; [|done|apply ToCommandPriority_known].
  rewrite (proj2 (Z.eqb_neq _ _)); [done|]. apply DerivedId_nonzero; [by apply CommandSeed_nonneg|lia].
Qed.

Lemma planned_step_schema g rule t i now :
  0 <= goal_id g → 0 < i → IsKnownCommandType t = true → step_schema (MakeStep g rule t i now).
Proof.
  intros. unfold step_schema. simpl. split_and!; try done; [lia|].
  intros _. by apply planned_command_schema.
Qed.

(** The steps are numbered from [i] on, as long as the numbers fit. *)
Lemma make_steps_lookup g rule ts : ∀ i clock n,
  0 <= i → i + Z.of_nat (length ts) <= u64_modulus →
  make_steps g rule ts i clock !! n =
  (λ t, MakeStep g rule t (i + Z.of_nat n) (clock n)) <$> ts !! n.
Proof.
  induction ts as [|t ts IH]; intros i clock n Hi Hl; [done|].
  assert (ts = [] ∨ 0 < Z.of_nat (length ts)) as [->|Hts] by (destruct ts; simpl; [by left|right; lia]).
  { destruct n; simpl; [|done]. by rewrite Z.add_0_r. }
  cbn [length] in Hl. destruct n as [|n]; cbn [make_steps lookup list_lookup]; simpl; [by rewrite Z.add_0_r|].
  rewrite u64_incr_small by lia. rewrite IH by lia. unfold compose.
  by replace (i + 1 + Z.of_nat n) with (i + Z.of_nat (S n)) by lia.
Qed.

Lemma make_steps_length g rule ts : ∀ i clock, length (make_steps g rule ts i clock) = length ts.
Proof. induction ts as [|t ts IH]; intros; simpl; [done|]. by rewrite IH. Qed.

Lemma planned_mission_schema r rule clock :
  Request_isValid r = true → is_u64 (goal_id (goal r)) → Rule_isValid rule = true →
  Forall (λ t, IsKnownCommandType t = true) (commandSequence rule) →
  Z.of_nat (length (commandSequence rule)) < u64_modulus →
  mission_schema (MakeMission r rule clock).
Proof.
  unfold Request_isValid, Goal_isValid, Rule_isValid, is_u64. rewrite !andb_true_iff, !negb_true_iff.
  intros [Hid%Z.eqb_neq _] Hu [_ Hne%bool_decide_eq_false] Hts Hl.
  unfold mission_schema. cbn [MakeMission mission_id mission_name version author steps].
  assert (Hall : ∀ s, s ∈ make_steps (goal r) rule (commandSequence rule) 1 (clock ∘ S) →
            enabled s = true ∧ step_schema s).
  { intros s (n & Hn)%list_elem_of_lookup_1. rewrite make_steps_lookup in Hn by lia.
    apply fmap_Some in Hn as (t & Ht & ->). split; [done|]. rewrite Forall_forall in Hts.
    apply planned_step_schema; [lia..|]. by eapply Hts, list_elem_of_lookup_2. }
  split_and!; try done.
  - by destruct (missionName rule).
  - apply Forall_forall. intros s Hs _. by apply Hall.
  - destruct (commandSequence rule) as [|t ts]; [done|]. by left.
Qed.

(* ------------------------------------------------------------------ *)
(** ** The tree *)

Section Tree.
Context {Env : TreeEnvironment}.

(** Nothing is cancelled. *)
Context (alive : ∀ w, CancellationRequested w = (false, w)).

Definition planned_leaves {A} (ts : list A) : list Node :=
  map (λ _, ActionNode (Some (λ w, (Returned Success, w)))) ts.

Lemma planned_leaf_tick (w : World) :
  ActionNode_Tick (Some (λ w, (Returned Success, w))) w = (Returned Success, w).
Proof. unfold ActionNode_Tick. by rewrite alive. Qed.

Lemma planned_leaves_tick {A} (ts : list A) k (w : World) :
  tick_from Tick Success 0 k (planned_leaves ts) w = (Exhausted, planned_leaves ts, w).
Proof.
  revert k. induction ts as [|t ts IH]; intros k; [done|]. simpl.
  rewrite !planned_leaf_tick. simpl. fold (planned_leaves ts). by rewrite IH.
Qed.

Lemma planned_leaves_initialize {A} (ts : list A) (w : World) :
  initialize_children Initialize (planned_leaves ts) w = (Returned Idle, planned_leaves ts, w).
Proof. induction ts as [|t ts IH]; simpl; [done|]. fold (planned_leaves ts). by rewrite IH. Qed.

(** The first tick of a planned tree succeeds, and does nothing but publish
    the states of the tree. *)
Lemma planned_tree_Tick rule (w : World) :
  ∃ t,
    BehaviorTree.Tick (MakeBehaviorTree rule) w =
      (Success, t,
       BehaviorTree.publish ExecutionContext.StateCompleted
         (BehaviorTree.publish ExecutionContext.StateRunning
            (BehaviorTree.publish ExecutionContext.StateCreated
               (BehaviorTree.stamp (BehaviorTree.publish ExecutionContext.StateStarting w))))) ∧
    BehaviorTree.status t = Success ∧ BehaviorTree.root t = BehaviorTree.root (MakeBehaviorTree rule).
Proof.
  unfold MakeBehaviorTree. fold (planned_leaves (commandSequence rule)).
  unfold BehaviorTree.Tick, BehaviorTree.InitializeLocked. simpl.
  unfold CompositeNode_Initialize. rewrite planned_leaves_initialize. simpl. rewrite alive.
  unfold loop_Tick. rewrite alive. case_bool_decide; [|rewrite planned_leaves_tick]; simpl; eauto.
Qed.
End Tree.

(* ------------------------------------------------------------------ *)
(** ** The commands *)

Lemma planned_payload_size g rule t i now : size (payload (MakeCommand g rule t i now)) = 3%nat.
Proof.
  cbn [MakeCommand payload]. generalize (PayloadString (ruleId rule)) (PayloadString (goal_description g)).
  intros. rewrite !map_size_insert_None, map_size_singleton; [done|..]; by simplify_map_eq.
Qed.

Lemma planned_payload_lookup g rule t i now key :
  key ∉ ["goal_type"; "goal_description"; "rule_id"]%string →
  payload (MakeCommand g rule t i now) !! key = None.
Proof.
  cbn [MakeCommand payload]. intros H. rewrite !not_elem_of_cons in H. destruct H as (? & ? & ? & _).
  by rewrite !lookup_insert_ne, lookup_singleton_ne.
Qed.

(** The parameters of a planned command describe the goal, not the command:
    only commands without a schema are admitted. *)
Lemma planned_payload_admitted g rule t i now :
  ValidatePayload (MakeCommand g rule t i now) = None ↔ t = TypeCustom.
Proof.
  split; [|by intros ->]. unfold ValidatePayload. rewrite planned_payload_size.
  unfold HasValidNumber, NumericPayloadValue, HasString.
  rewrite !planned_payload_lookup by (by apply (bool_decide_unpack _)).
  by destruct t.
Qed.

(* ------------------------------------------------------------------ *)
(** ** Identifiers of commands *)

(** Goals below this bound get a block of identifiers of their own. *)
Definition scaled_goals : Z := (u64_modulus - 1) / kCommandIdScale.

Lemma planned_id_block g i :
  1 <= g <= scaled_goals → 1 <= i < kCommandIdScale →
  DerivedId (CommandSeed g) i = g * kCommandIdScale + i ∨
  g = scaled_goals ∧ DerivedId (CommandSeed g) i = i.
Proof.
  assert (Hs : scaled_goals = 18446744073709551) by done.
  unfold CommandSeed, DerivedId. fold scaled_goals. unfold kCommandIdScale, u64_modulus in *. intros Hg Hi.
  rewrite (proj2 (Z.eqb_neq g 0)), (proj2 (Z.leb_le g scaled_goals)) by lia. simpl negb. cbn [andb].
  rewrite (proj2 (Z.eqb_neq (g * 1000) 0)), (proj2 (Z.eqb_neq i 0)) by lia.
  destruct (Z.leb_spec (g * 1000) (2 ^ 64 - 1 - i)); simpl; [by left|right]. lia.
Qed.

(** Before that, two goals never name a command alike; from the thousandth
    step of a mission on they do. *)
Lemma planned_ids_injective g1 g2 i1 i2 :
  1 <= g1 <= scaled_goals → 1 <= g2 <= scaled_goals →
  1 <= i1 < kCommandIdScale → 1 <= i2 < kCommandIdScale →
  DerivedId (CommandSeed g1) i1 = DerivedId (CommandSeed g2) i2 → g1 = g2 ∧ i1 = i2.
Proof.
  intros Hg1 Hg2 Hi1 Hi2 E. unfold kCommandIdScale in *.
  destruct (planned_id_block g1 i1) as [E1|[-> E1]], (planned_id_block g2 i2) as [E2|[-> E2]];
    unfold kCommandIdScale in *; lia.
Qed.

Example planned_ids_overlap : DerivedId (CommandSeed 1) 1001 = DerivedId (CommandSeed 2) 1.
Proof. reflexivity. Qed.
