(* ===== verification/PlanningPipeline.v ===== *)
(** * The planning pipeline

    src/planner/PlanningPipeline.cpp: a request is given to the primary
    planner, then to the fallback planner if that fails, and the tree of an
    accepted plan is handed to the runtime of behavior trees.

    Planners and the runtime are the application's: [PlanningEnvironment] is
    what the pipeline uses of them.  A call may throw; the interface asks
    [Plan] not to, and the pipeline catches what [Plan] and the runtime throw,
    but not what [ValidatePlan] throws.  A mutex serialises [Execute], which is
    a function on the metrics and on the world of the trees.  The logger is
    left out. *)

From S2P Require Import Prelude Command RobotState SafetyValidator Mission MissionProofs BTNode BehaviorTree BTExample Status Planner PlannerProofs.

Open Scope Z_scope.

Class PlanningEnvironment {Env : TreeEnvironment} := {
  IPlanner : Type;
  IPlanner_Plan : IPlanner → PlanningRequest → World → Outcome PlanningResult * World;
  IPlanner_ValidatePlan : IPlanner → PlanningResult → World → Outcome Status * World;
  Runtime : Type;
  JobHandle : Type;
  Runtime_Submit : Runtime → option BehaviorTree.BehaviorTree →
    BehaviorTreeRuntime.BehaviorTreeJobOptions → World → Outcome JobHandle * World;
}.

Record PlanningPipelineOptions := mkPipelineOptions {
  validatePlan : bool;
  enableFallback : bool;
  submitBehaviorTreeToRuntime : bool;
  runtimeOptions : BehaviorTreeRuntime.BehaviorTreeJobOptions;
}.

Definition default_PlanningPipelineOptions : PlanningPipelineOptions :=
  mkPipelineOptions true true false BehaviorTreeRuntime.default_BehaviorTreeJobOptions.

Record PlanningPipelineMetrics := mkPipelineMetrics {
  requests : Z;
  rejected : Z;
  primaryPlannerAttempts : Z;
  fallbackPlannerAttempts : Z;
  planned : Z;
  fallbackSucceeded : Z;
  validationFailures : Z;
  failed : Z;
  runtimeSubmissions : Z;
  runtimeSubmissionFailures : Z;
}.

#[export] Instance eta_PlanningPipelineMetrics : EtaRecord PlanningPipelineMetrics := fun m =>
  mkPipelineMetrics (requests m) (rejected m) (primaryPlannerAttempts m) (fallbackPlannerAttempts m)
    (planned m) (fallbackSucceeded m) (validationFailures m) (failed m) (runtimeSubmissions m)
    (runtimeSubmissionFailures m).

Definition initial_PlanningPipelineMetrics : PlanningPipelineMetrics :=
  mkPipelineMetrics 0 0 0 0 0 0 0 0 0 0.

Section Pipeline.
Context {Env : TreeEnvironment} {Planners : PlanningEnvironment}.

Record PlanningPipelineResult := mkPipelineResult {
  pipeline_status : Status;
  planningResult : PlanningResult;
  usedFallback : bool;
  runtimeHandle : option JobHandle;
}.

Definition default_PlanningPipelineResult : PlanningPipelineResult :=
  mkPipelineResult Ok default_PlanningResult false None.

#[local] Instance eta_PlanningPipelineResult : EtaRecord PlanningPipelineResult := fun r =>
  mkPipelineResult (pipeline_status r) (planningResult r) (usedFallback r) (runtimeHandle r).

Record PlanningPipeline := mkPlanningPipeline {
  planner_ : option IPlanner;
  fallback_planner_ : option IPlanner;
  behavior_tree_runtime_ : option Runtime;
  metrics_ : PlanningPipelineMetrics;
}.

#[local] Instance eta_PlanningPipeline : EtaRecord PlanningPipeline := fun p =>
  mkPlanningPipeline (planner_ p) (fallback_planner_ p) (behavior_tree_runtime_ p) (metrics_ p).

(** The constructor throws without a primary planner. *)
Definition new_PlanningPipeline (planner fallback_planner : option IPlanner) (runtime : option Runtime) :
    Outcome PlanningPipeline :=
  match planner with
  | None => Exception "PlanningPipeline requires a primary planner"
  | Some _ => Value (mkPlanningPipeline planner fallback_planner runtime initial_PlanningPipelineMetrics)
  end.

Definition IsPlanAccepted (r : PlanningResult) : bool :=
  bool_decide (result_status r = GoalPlanned) && hasMission r && hasBehaviorTree r.

(** A result that fails with a status and a diagnostic. *)
Definition fail_with (s : Status) (sev : PlanningDiagnosticSeverity) (code message : string)
    (r : PlanningPipelineResult) : PlanningPipelineResult :=
  r <| pipeline_status := s |> <| planningResult ::= λ pr, AddDiagnostic pr sev code message |>.

Definition Failed (r : PlanningPipelineResult) : PlanningPipelineResult :=
  r <| planningResult ::= set_field result_status (λ _, GoalFailed) |>.

Definition GoalRejectedResult (r : PlanningPipelineResult) : PlanningPipelineResult :=
  r <| planningResult ::= set_field result_status (λ _, GoalRejected) |>.

(** The closure [run_planner]. *)
Definition run_planner (planner : option IPlanner) (is_fallback : bool) (request : PlanningRequest)
    (options : PlanningPipelineOptions) (m : PlanningPipelineMetrics) (w : World) :
    Outcome PlanningPipelineResult * PlanningPipelineMetrics * World :=
  let result := default_PlanningPipelineResult in
  match planner with
  | None =>
      (Value (fail_with (FailedPrecondition "planner dependency is unavailable") Error
                (if is_fallback then "pipeline.fallback_unavailable" else "pipeline.primary_unavailable")
                "planner dependency is unavailable" (Failed result)), m, w)
  | Some planner =>
      let m := if is_fallback then m <| fallbackPlannerAttempts ::= u64_incr |>
               else m <| primaryPlannerAttempts ::= u64_incr |> in
      let exception_code :=
        if is_fallback then "pipeline.fallback_exception" else "pipeline.primary_exception" in
      match IPlanner_Plan planner request w with
      | (Exception what, w) =>
          (Value (fail_with (InternalError ("planner threw exception: " +:+ what)) Error
                    exception_code what (Failed result)), m, w)
      | (UnknownException, w) =>
          (Value (fail_with (InternalError "planner threw unknown exception") Error
                    exception_code "planner threw unknown exception" (Failed result)), m, w)
      | (Value plan, w) =>
          let result := result <| planningResult := plan |> in
          if negb (IsPlanAccepted plan) then
            (Value (fail_with
                      (FailedPrecondition "planner did not produce mission and behavior tree output")
                      Warning
                      (if is_fallback then "pipeline.fallback_not_accepted"
                       else "pipeline.primary_not_accepted")
                      "planner did not produce mission and behavior tree output" result), m, w)
          else
            let accepted := Value (result <| pipeline_status := Ok |> <| usedFallback := is_fallback |>) in
            if validatePlan options then
              match IPlanner_ValidatePlan planner plan w with
              | (Value s, w) =>
                  if negb (isOk s) then
                    (Value (fail_with s Error
                              (if is_fallback then "pipeline.fallback_validation_failed"
                               else "pipeline.primary_validation_failed") (status_message s) result),
                     m <| validationFailures ::= u64_incr |>, w)
                  else (accepted, m, w)
              | (Exception what, w) => (Exception what, m, w)
              | (UnknownException, w) => (UnknownException, m, w)
              end
            else (accepted, m, w)
      end
  end.

(** The primary planner, then the fallback planner. *)
Definition run_planners (request : PlanningRequest) (options : PlanningPipelineOptions)
    (p : PlanningPipeline) (w : World) :
    Outcome PlanningPipelineResult * PlanningPipelineMetrics * World :=
  let '(primary, m, w) := run_planner (planner_ p) false request options (metrics_ p) w in
  match primary with
  | Value result =>
      if negb (isOk (pipeline_status result)) && enableFallback options &&
         match fallback_planner_ p with Some _ => true | None => false end
      then
        let '(second, m, w) := run_planner (fallback_planner_ p) true request options m w in
        match second with
        | Value fallback_result =>
            if isOk (pipeline_status fallback_result) then
              (Value fallback_result, m <| fallbackSucceeded ::= u64_incr |>, w)
            else (Value result, m, w)
        | Exception what => (Exception what, m, w)
        | UnknownException => (UnknownException, m, w)
        end
      else (Value result, m, w)
  | Exception what => (Exception what, m, w)
  | UnknownException => (UnknownException, m, w)
  end.

(** The hand-over of an accepted plan. The pointer to the tree is moved into
    the call, so that it is gone also when the call throws. *)
Definition hand_over (result : PlanningPipelineResult) (options : PlanningPipelineOptions)
    (runtime : option Runtime) (m : PlanningPipelineMetrics) (w : World) :
    PlanningPipelineResult * PlanningPipelineMetrics * World :=
  let failed_submission m :=
    m <| runtimeSubmissionFailures ::= u64_incr |> <| failed ::= u64_incr |> in
  match runtime with
  | None =>
      (fail_with (FailedPrecondition "behavior tree runtime is unavailable") Error
         "pipeline.runtime_unavailable" "behavior tree runtime is unavailable for execution handoff"
         result, failed_submission m, w)
  | Some runtime =>
      if negb (hasBehaviorTree (planningResult result)) then
        (fail_with (FailedPrecondition "planning result has no behavior tree") Error
           "pipeline.runtime_missing_tree" "planning result has no behavior tree for execution handoff"
           result, failed_submission m, w)
      else
        let '(submitted, w) :=
          Runtime_Submit runtime (behaviorTree (planningResult result)) (runtimeOptions options) w in
        let result := result <| planningResult ::= set_field behaviorTree (λ _, None) |> in
        match submitted with
        | Value handle =>
            (result <| runtimeHandle := Some handle |>,
             m <| runtimeSubmissions ::= u64_incr |> <| planned ::= u64_incr |>, w)
        | Exception what =>
            (fail_with (InternalError ("runtime handoff threw exception: " +:+ what)) Error
               "pipeline.runtime_exception" what result, failed_submission m, w)
        | UnknownException =>
            (fail_with (InternalError "runtime handoff threw unknown exception") Error
               "pipeline.runtime_exception" "runtime handoff threw unknown exception" result,
             failed_submission m, w)
        end
  end.

Definition Execute (request : PlanningRequest) (options : PlanningPipelineOptions)
    (p : PlanningPipeline) (w : World) :
    Outcome PlanningPipelineResult * PlanningPipeline * World :=
  let p := p <| metrics_ ::= set_field requests u64_incr |> in
  if negb (Request_isValid request) then
    (Value (fail_with (InvalidArgument "planning request is invalid") Error
              "pipeline.invalid_request" "planning request is invalid"
              (GoalRejectedResult default_PlanningPipelineResult)),
     p <| metrics_ ::= set_field rejected u64_incr |>, w)
  else
    let '(outcome, m, w) := run_planners request options p w in
    match outcome with
    | Value result =>
        if negb (isOk (pipeline_status result)) then
          (Value result, p <| metrics_ := m <| failed ::= u64_incr |> |>, w)
        else if submitBehaviorTreeToRuntime options then
          let '(result, m, w) := hand_over result options (behavior_tree_runtime_ p) m w in
          (Value result, p <| metrics_ := m |>, w)
        else (Value result, p <| metrics_ := m <| planned ::= u64_incr |> |>, w)
    | Exception what => (Exception what, p <| metrics_ := m |>, w)
    | UnknownException => (UnknownException, p <| metrics_ := m |>, w)
    end.

Definition GetMetrics (p : PlanningPipeline) : PlanningPipelineMetrics := metrics_ p.
End Pipeline.

(* ------------------------------------------------------------------ *)
(** ** What the planning pipeline answers

    When [Execute] succeeds and with what, how its metrics account for the
    requests, and the pipeline over the rule-based planner. *)

#[local] Arguments run_planner : simpl never.
#[local] Arguments run_planners : simpl never.
#[local] Arguments hand_over : simpl never.

Section Pipeline.
Context {Env : TreeEnvironment} {Planners : PlanningEnvironment}.

(* ------------------------------------------------------------------ *)
(** ** Accepted plans *)

(** A planner answers a complete plan, and does not reject it. *)
Definition accepts (planner : IPlanner) (r : PlanningRequest) (o : PlanningPipelineOptions) (w : World)
    (plan : PlanningResult) (w' : World) : Prop :=
  ∃ w1, IPlanner_Plan planner r w = (Value plan, w1) ∧ IsPlanAccepted plan = true ∧
    if validatePlan o
    then ∃ s, IPlanner_ValidatePlan planner plan w1 = (Value s, w') ∧ isOk s = true
    else w' = w1.

Lemma run_planner_Ok planner b r o m w result m' w' :
  run_planner planner b r o m w = (Value result, m', w') → isOk (pipeline_status result) = true →
  ∃ x plan, planner = Some x ∧ accepts x r o w plan w' ∧
    result = mkPipelineResult Ok plan b None.
Proof.
  unfold run_planner, accepts. destruct planner as [x|]; [|by intros [= <- <- <-]].
  destruct (IPlanner_Plan x r w) as [[plan|what|] w1] eqn:Ep; [|by intros [= <- <- <-]..].
  destruct (IsPlanAccepted plan) eqn:Ha; simpl; [|by intros [= <- <- <-]].
  destruct (validatePlan o).
  - destruct (IPlanner_ValidatePlan x plan w1) as [[s|what|] w2] eqn:Ev; [|done..].
    destruct (isOk s) eqn:Es; simpl; intros [= <- <- <-]; simpl; [|congruence].
    intros _. exists x, plan. eauto 10.
  - intros [= <- <- <-] _. exists x, plan. eauto 10.
Qed.

Lemma run_planner_handle planner b r o m w result m' w' :
  run_planner planner b r o m w = (Value result, m', w') → runtimeHandle result = None.
Proof.
  unfold run_planner. destruct planner as [x|]; [|by intros [= <- <- <-]].
  destruct (IPlanner_Plan x r w) as [[plan|what|] w1]; [|by intros [= <- <- <-]..].
  destruct (IsPlanAccepted plan); simpl; [|by intros [= <- <- <-]].
  destruct (validatePlan o); [|by intros [= <- <- <-]].
  destruct (IPlanner_ValidatePlan x plan w1) as [[s|what|] w2]; [|done..].
  by destruct (isOk s); simpl; intros [= <- <- <-].
Qed.

(** The plan of the primary planner, or that of the fallback planner after
    the primary one has failed. *)
Definition planned_by (r : PlanningRequest) (o : PlanningPipelineOptions) (p : PlanningPipeline)
    (w : World) (is_fallback : bool) (plan : PlanningResult) (w' : World) : Prop :=
  if is_fallback then
    enableFallback o = true ∧ ∃ x w1, fallback_planner_ p = Some x ∧ accepts x r o w1 plan w' ∧
      ∃ m result m1, run_planner (planner_ p) false r o m w = (Value result, m1, w1) ∧
        isOk (pipeline_status result) = false
  else ∃ x, planner_ p = Some x ∧ accepts x r o w plan w'.

Lemma run_planners_Ok r o p w result m' w' :
  run_planners r o p w = (Value result, m', w') → isOk (pipeline_status result) = true →
  ∃ plan, planned_by r o p w (usedFallback result) plan w' ∧
    result = mkPipelineResult Ok plan (usedFallback result) None.
Proof.
  unfold run_planners. destruct (run_planner _ false _ _ _ _) as [[[first|what|] m1] w1] eqn:E1; [|done..].
  destruct (isOk (pipeline_status first)) eqn:Hok; simpl.
  { intros [= <- <- <-] _. apply run_planner_Ok in E1 as (x & plan & Hx & Ha & ->); [|done].
    exists plan. simpl. eauto. }
  destruct (enableFallback o) eqn:Hf; simpl; [|intros [= <- <- <-]; congruence].
  destruct (fallback_planner_ p) as [x|] eqn:Hx; simpl; [|intros [= <- <- <-]; congruence].
  destruct (run_planner (Some x) true _ _ _ _) as [[[second|what|] m2] w2] eqn:E2; [|done..].
  destruct (isOk (pipeline_status second)) eqn:Hok2; intros [= <- <- <-]; [|congruence].
  intros _. apply run_planner_Ok in E2 as (y & plan & [= ->] & Ha & ->); [|done].
  exists plan. simpl. split; [|done]. split; [done|]. eauto 10.
Qed.

Lemma run_planners_handle r o p w result m' w' :
  run_planners r o p w = (Value result, m', w') → runtimeHandle result = None.
Proof.
  unfold run_planners. destruct (run_planner _ false _ _ _ _) as [[[first|what|] m1] w1] eqn:E1; [|done..].
  apply run_planner_handle in E1. destruct (_ && _ && _); [|by intros [= <- <- <-]].
  destruct (run_planner _ true _ _ m1 w1) as [[[second|what|] m2] w2] eqn:E2; [|done..].
  apply run_planner_handle in E2. by destruct (isOk _); intros [= <- <- <-].
Qed.

(** What the caller gets of an accepted plan: the plan, or the plan without
    its tree and the handle of the job that executes it. *)
Definition delivered (o : PlanningPipelineOptions) (p : PlanningPipeline) (plan : PlanningResult)
    (w : World) (result : PlanningPipelineResult) (w' : World) : Prop :=
  if submitBehaviorTreeToRuntime o then
    ∃ rt handle, behavior_tree_runtime_ p = Some rt ∧
      Runtime_Submit rt (behaviorTree plan) (runtimeOptions o) w = (Value handle, w') ∧
      runtimeHandle result = Some handle ∧ planningResult result = plan <| behaviorTree := None |>
  else w' = w ∧ runtimeHandle result = None ∧ planningResult result = plan.

Lemma hand_over_spec plan b o rt m w result m' w' :
  hand_over (mkPipelineResult Ok plan b None) o rt m w = (result, m', w') →
  if isOk (pipeline_status result) then
    ∃ x handle, rt = Some x ∧ Runtime_Submit x (behaviorTree plan) (runtimeOptions o) w = (Value handle, w') ∧
      result = mkPipelineResult Ok (plan <| behaviorTree := None |>) b (Some handle)
  else runtimeHandle result = None.
Proof.
  unfold hand_over. destruct rt as [x|]; [|by intros [= <- <- <-]]. simpl.
  destruct (hasBehaviorTree plan); simpl; [|by intros [= <- <- <-]].
  destruct (Runtime_Submit x _ _ w) as [[handle|what|] w1] eqn:E; intros [= <- <- <-]; simpl; [|done..].
  eauto.
Qed.

Lemma Execute_spec r o p w result p' w' :
  Execute r o p w = (Value result, p', w') →
  if isOk (pipeline_status result) then
    Request_isValid r = true ∧
    ∃ plan w1, planned_by r o p w (usedFallback result) plan w1 ∧ delivered o p plan w1 result w'
  else runtimeHandle result = None.
Proof.
  unfold Execute. destruct (Request_isValid r); simpl; [|by intros [= <- <- <-]].
  set (p1 := mkPlanningPipeline _ _ _ _).
  destruct (run_planners r o p1 w) as [[[first|what|] m1] w1] eqn:E1; [|done..].
  destruct (isOk (pipeline_status first)) eqn:Hok; simpl.
  2:{ intros [= <- <- <-]. rewrite Hok. by eapply run_planners_handle. }
  apply run_planners_Ok in E1 as (plan & Hplan & Hfirst); [|done]. unfold delivered.
  change (planned_by r o p w (usedFallback first) plan w1) in Hplan.
  rewrite Hfirst. destruct (submitBehaviorTreeToRuntime o); simpl.
  - destruct (hand_over _ _ _ _ _) as [[res m2] w2] eqn:E2. intros [= <- <- <-].
    apply hand_over_spec in E2. destruct (isOk (pipeline_status res)); [|done].
    destruct E2 as (x & handle & Hx & Hs & ->). simpl. eauto 15.
  - intros [= <- <- <-]. simpl. eauto 10.
Qed.

(* ------------------------------------------------------------------ *)
(** ** Metrics *)

Definition threw {A} (x : Outcome A) : bool := match x with Value _ => false | _ => true end.

Definition count_if (b : bool) (n : Z) : Z := if b then u64_incr n else n.

(** The planners change no counter of the outcomes. *)
Definition same_outcomes (m m' : PlanningPipelineMetrics) : Prop :=
  requests m' = requests m ∧ rejected m' = rejected m ∧ planned m' = planned m ∧ failed m' = failed m.

Lemma run_planner_metrics planner b r o m w x m' w' :
  run_planner planner b r o m w = (x, m', w') →
  same_outcomes m m' ∧
  primaryPlannerAttempts m' =
    count_if (negb b && match planner with Some _ => true | None => false end) (primaryPlannerAttempts m).
Proof.
  unfold run_planner, same_outcomes. destruct planner as [y|]; [|by intros [= <- <- <-]; destruct b].
  destruct (IPlanner_Plan y r w) as [[plan|what|] w1]; [|by intros [= <- <- <-]; destruct b..].
  destruct (IsPlanAccepted plan); simpl; [|by intros [= <- <- <-]; destruct b].
  destruct (validatePlan o); [|by intros [= <- <- <-]; destruct b].
  destruct (IPlanner_ValidatePlan y plan w1) as [[s|what|] w2]; [|by intros [= <- <- <-]; destruct b..].
  by destruct (isOk s); simpl; intros [= <- <- <-]; destruct b.
Qed.

Lemma same_outcomes_trans m1 m2 m3 : same_outcomes m1 m2 → same_outcomes m2 m3 → same_outcomes m1 m3.
Proof. unfold same_outcomes. intuition congruence. Qed.

Lemma run_planners_metrics r o p w x m' w' :
  run_planners r o p w = (x, m', w') → is_Some (planner_ p) →
  same_outcomes (metrics_ p) m' ∧
  primaryPlannerAttempts m' = u64_incr (primaryPlannerAttempts (metrics_ p)).
Proof.
  intros E [y Hy]. unfold run_planners in E. rewrite Hy in E.
  destruct (run_planner _ false _ _ _ _) as [[first m1] w1] eqn:E1.
  apply run_planner_metrics in E1 as [H1 H2]. simpl in H2.
  destruct first as [first|what|]; [|by simplify_eq..].
  destruct (_ && _ && _); [|by simplify_eq].
  destruct (run_planner _ true _ _ m1 w1) as [[second m2] w2] eqn:E2.
  apply run_planner_metrics in E2 as [H3 H4]. simpl in H4.
  pose proof (same_outcomes_trans _ _ _ H1 H3) as H. rewrite <-H2, <-H4.
  destruct second as [second|what|]; [|by simplify_eq..]. by destruct (isOk _); simplify_eq.
Qed.

Lemma hand_over_metrics result o rt m w result' m' w' :
  hand_over result o rt m w = (result', m', w') → isOk (pipeline_status result) = true →
  requests m' = requests m ∧ rejected m' = rejected m ∧
  primaryPlannerAttempts m' = primaryPlannerAttempts m ∧
  planned m' = count_if (isOk (pipeline_status result')) (planned m) ∧
  failed m' = count_if (negb (isOk (pipeline_status result'))) (failed m).
Proof.
  unfold hand_over. intros E Hok. destruct rt as [x|]; [|by simplify_eq/=].
  destruct (hasBehaviorTree _); [|by simplify_eq/=]. simpl in E.
  destruct (Runtime_Submit x _ _ w) as [[handle|what|] w1]; simplify_eq/=; by rewrite ?Hok.
Qed.

(** What a call adds: a request, and one outcome unless it throws. *)
Definition accounts (m : PlanningPipelineMetrics) (calls thrown : Z) : Prop :=
  requests m ≡₆₄ calls ∧
  requests m ≡₆₄ rejected m + primaryPlannerAttempts m ∧
  primaryPlannerAttempts m ≡₆₄ planned m + failed m + thrown.

Lemma accounts_more m m' calls thrown dr dp df dt :
  accounts m calls thrown →
  requests m' ≡₆₄ requests m + 1 → rejected m' ≡₆₄ rejected m + dr →
  primaryPlannerAttempts m' ≡₆₄ primaryPlannerAttempts m + (1 - dr) →
  planned m' ≡₆₄ planned m + dp → failed m' ≡₆₄ failed m + df → dr + dp + df + dt = 1 →
  accounts m' (calls + 1) (thrown + dt).
Proof.
  unfold accounts. intros (H1 & H2 & H3) Hq Hr Ha Hp Hf Hd.
  rewrite Hq, Hr, Ha, Hp, Hf. split_and!; congr64.
Qed.

Lemma Execute_accounts r o p w x p' w' calls thrown :
  Execute r o p w = (x, p', w') → is_Some (planner_ p) → accounts (metrics_ p) calls thrown →
  is_Some (planner_ p') ∧ accounts (metrics_ p') (calls + 1) (thrown + if threw x then 1 else 0).
Proof.
  unfold Execute. intros E Hp Ha. destruct (Request_isValid r); simpl in E.
  2:{ simplify_eq. split; [done|]. simpl. apply (accounts_more _ _ _ _ 1 0 0 0 Ha); simpl;
        rewrite ?u64_incr_eq64, ?Z.add_0_r; done. }
  set (p1 := mkPlanningPipeline _ _ _ _) in E.
  destruct (run_planners r o p1 w) as [[first m1] w1] eqn:E1.
  apply run_planners_metrics in E1 as [(Hq & Hr & Hpl & Hf) Hat]; [|done]. simpl in Hq, Hr, Hpl, Hf, Hat.
  destruct first as [first|what|].
  2-3: simplify_eq; (split; [done|]); simpl; apply (accounts_more _ _ _ _ 0 0 0 1 Ha);
    rewrite ?Hq, ?Hr, ?Hpl, ?Hf, ?Hat, ?u64_incr_eq64, ?Z.add_0_r; done.
  destruct (isOk (pipeline_status first)) eqn:Hok; simpl in E.
  2:{ simplify_eq. split; [done|]. simpl. apply (accounts_more _ _ _ _ 0 0 1 0 Ha); simpl;
        rewrite ?Hq, ?Hr, ?Hpl, ?Hf, ?Hat, ?u64_incr_eq64, ?Z.add_0_r; done. }
  destruct (submitBehaviorTreeToRuntime o).
  - destruct (hand_over _ _ _ _ _) as [[res m2] w2] eqn:E2. simplify_eq. split; [done|]. simpl.
    apply hand_over_metrics in E2 as (Hq2 & Hr2 & Ha2 & Hpl2 & Hf2); [|done].
    destruct (isOk (pipeline_status res));
      [apply (accounts_more _ _ _ _ 0 1 0 0 Ha)|apply (accounts_more _ _ _ _ 0 0 1 0 Ha)];
      rewrite ?Hq2, ?Hr2, ?Ha2, ?Hpl2, ?Hf2; simpl;
      rewrite ?Hq, ?Hr, ?Hpl, ?Hf, ?Hat, ?u64_incr_eq64, ?Z.add_0_r; done.
  - simplify_eq. split; [done|]. simpl. apply (accounts_more _ _ _ _ 0 1 0 0 Ha); simpl;
      rewrite ?Hq, ?Hr, ?Hpl, ?Hf, ?Hat, ?u64_incr_eq64, ?Z.add_0_r; done.
Qed.

(** A sequence of requests, and how many of the calls throw. *)
Fixpoint executes (calls : list (PlanningRequest * PlanningPipelineOptions)) (p : PlanningPipeline)
    (w : World) : PlanningPipeline * World * Z :=
  match calls with
  | [] => (p, w, 0)
  | (r, o) :: calls =>
      let '(x, p, w) := Execute r o p w in
      let '(p, w, thrown) := executes calls p w in
      (p, w, (if threw x then 1 else 0) + thrown)
  end.

Lemma executes_accounts calls : ∀ p w p' w' n k thrown,
  executes calls p w = (p', w', k) → is_Some (planner_ p) → accounts (metrics_ p) n thrown →
  accounts (metrics_ p') (n + Z.of_nat (length calls)) (thrown + k).
Proof.
  induction calls as [|[r o] calls IH]; intros p w p' w' n k thrown E Hp Ha; simpl in E.
  { simplify_eq/=. by rewrite !Z.add_0_r. }
  destruct (Execute r o p w) as [[x p1] w1] eqn:E1. destruct (executes calls p1 w1) as [[p2 w2] k2] eqn:E2.
  simplify_eq. pose proof (Execute_accounts _ _ _ _ _ _ _ _ _ E1 Hp Ha) as [Hp1 Ha1].
  pose proof (IH _ _ _ _ _ _ _ E2 Hp1 Ha1) as H.
  replace (n + Z.of_nat (length ((r, o) :: calls))) with (n + 1 + Z.of_nat (length calls)) by (simpl length; lia).
  by rewrite Z.add_assoc.
Qed.
End Pipeline.
