(* ===== verification/PlanningProperties.v ===== *)
(** * Planning

    The theorems on the rule-based planner and on the planning pipeline, with
    their witnesses, and cancellations of plans under way on other threads. *)

From Stdlib Require Import SpecFloat.
From S2P Require Import Prelude Status Command RobotState SafetyValidator CommandValidation.
From S2P Require Import Mission MissionProofs MissionExecutor BTNode BehaviorTree BTExample.
From S2P Require Import Planner PlannerProofs PlanningPipeline.
From S2P Require ExecutionContext.

Open Scope Z_scope.

(** The commands of a rule are constants and a vector can hold them. *)
Definition rule_ok (rule : RuleBasedPlannerRule) : Prop :=
  Forall (λ t, IsKnownCommandType t = true) (commandSequence rule) ∧
  Z.of_nat (length (commandSequence rule)) < u64_modulus.

Definition request_ok (r : PlanningRequest) : Prop :=
  Request_isValid r = true ∧ is_u64 (goal_id (goal r)).

Lemma new_planner_rules rules rule :
  rule ∈ rules_ (new_RuleBasedPlanner rules) → Rule_isValid rule = true ∧ (rule ∈ rules ∨ rule = DefaultFallbackRule).
Proof.
  unfold new_RuleBasedPlanner. simpl.
  assert (Hk : rule ∈ List.filter Rule_isValid rules → Rule_isValid rule = true ∧ rule ∈ rules).
  { by intros [? ?]%list_elem_of_In%filter_In; rewrite list_elem_of_In. }
  destruct (existsb _ _); [naive_solver|].
  intros [?| ->%list_elem_of_singleton]%elem_of_app; [naive_solver|]. split; [done|by right].
Qed.

Lemma selects_elem g rules r : selects g rules (Some r) → r ∈ rules.
Proof.
  intros [(pre & post & -> & _)|[_ (pre & post & -> & _)]]; apply elem_of_app; right; by left.
Qed.

Section Planner.
Context {Env : TreeEnvironment}.

(** The rule of a plan, and the plan it gives. *)
Definition planned_result (r : PlanningRequest) (rule : RuleBasedPlannerRule) (clock : nat → Z) : PlanningResult :=
  mkPlanningResult GoalPlanned (Some (MakeMission r rule clock)) (Some (MakeBehaviorTree rule))
    [mkDiagnostic (if fallback rule then Warning else Info)
       (if fallback rule then "planner.fallback_rule" else "planner.rule_matched")
       ("selected rule " +:+ ruleId rule)].

Lemma Plan_planned rules r clock :
  request_ok r → Forall rule_ok rules →
  let p := new_RuleBasedPlanner rules in
  ∃ rule, selects (goal r) (rules_ p) (Some rule) ∧ Plan r clock p = (planned_result r rule clock, p) ∧
    mission_schema (MakeMission r rule clock) ∧ ValidatePlan (planned_result r rule clock) = Ok.
Proof.
  intros [Hr Hu] Hrules p. destruct (new_planner_selects rules (goal r)) as [rule Hrule].
  pose proof (SelectRule_selects (goal r) (rules_ p)) as Hs. fold p in Hrule. rewrite Hrule in Hs.
  assert (Rule_isValid rule = true ∧ rule_ok rule) as (Hv & Hts & Hl).
  { pose proof (new_planner_rules rules rule (selects_elem _ _ _ Hs)) as [Hv [Hin| ->]]; (split; [done|]).
    - rewrite Forall_forall in Hrules. auto.
    - split; [by repeat constructor|done]. }
  pose proof (planned_mission_schema r rule clock Hr Hu Hv Hts Hl) as Hm. exists rule.
  split; [done|]. split; [|split; [done|]].
  - assert (Hx : exchange_cancellation p = (false, p)) by done.
    unfold Plan, Plan_begin. rewrite Hx, Hr. cbn [negb]. rewrite Hrule. unfold Plan_end. by rewrite Hx.
  - unfold ValidatePlan. simpl. by rewrite mission_schema_isValid.
Qed.

(** C7: The planner plans every valid request. It selects the first of the
    matching rules with the highest minimum priority, or the first fallback
    rule when none matches, and there always is one. The mission it makes of
    the rule satisfies the schema of the mission validator, the plan passes
    [ValidatePlan], and the first tick of the tree succeeds unless it is
    cancelled, touching nothing but the execution context of the tree. *)
Theorem planner_plans rules r clock :
  request_ok r → Forall rule_ok rules →
  let p := new_RuleBasedPlanner rules in
  ∃ rule result, selects (goal r) (rules_ p) (Some rule) ∧ Plan r clock p = (result, p) ∧
    result_status result = GoalPlanned ∧ ValidatePlan result = Ok ∧
    result_mission result = Some (MakeMission r rule clock) ∧
    mission_schema (MakeMission r rule clock) ∧
    ∃ tree, behaviorTree result = Some tree ∧
      ((∀ w, CancellationRequested w = (false, w)) →
       ∀ w, ∃ tree' w', BehaviorTree.Tick tree w = (Success, tree', w') ∧
         w' = BehaviorTree.publish ExecutionContext.StateCompleted
                (BehaviorTree.publish ExecutionContext.StateRunning
                   (BehaviorTree.publish ExecutionContext.StateCreated
                      (BehaviorTree.stamp (BehaviorTree.publish ExecutionContext.StateStarting w))))).
Proof.
  intros Hr Hrules p. destruct (Plan_planned rules r clock Hr Hrules) as (rule & Hs & Hp & Hm & Hv).
  exists rule, (planned_result r rule clock). split_and!; [done..|].
  exists (MakeBehaviorTree rule). split; [done|]. intros alive w.
  destruct (planned_tree_Tick alive rule w) as (t & Ht & _). eauto.
Qed.
End Planner.

(* ------------------------------------------------------------------ *)
(** ** The commands of a plan *)

Lemma planned_step_lookup r rule clock n s :
  rule_ok rule → steps (MakeMission r rule clock) !! n = Some s →
  ∃ t, commandSequence rule !! n = Some t ∧ s = MakeStep (goal r) rule t (1 + Z.of_nat n) (clock (S n)).
Proof.
  intros [_ Hl] H. cbn [MakeMission steps] in H. rewrite make_steps_lookup in H by lia.
  apply fmap_Some in H as (t & Ht & ->). eauto.
Qed.

(** C16: The dispatcher refuses every planned command but those of type
    [Custom]: the planner gives each command the type and the description of
    the goal and the rule as its payload, and the other types take no payload
    or one of their own. In particular it refuses the stop command of the
    built-in rule for critical goals. *)
Theorem planned_command_admitted r rule clock n s now later :
  request_ok r → rule_ok rule → steps (MakeMission r rule clock) !! n = Some s →
  (ValidateCommand (PrepareCommand s now) later = None ↔ type (step_command s) = TypeCustom).
Proof.
  intros [_ Hu] Hrule Hs. pose proof Hrule as [Hknown _].
  apply planned_step_lookup in Hs as (t & Ht & ->); [|done].
  rewrite Forall_forall in Hknown. specialize (Hknown t (list_elem_of_lookup_2 _ _ _ Ht)).
  pose proof (planned_payload_admitted (goal r) rule t (1 + Z.of_nat n) (clock (S n))) as Hp.
  destruct (planned_command_schema (goal r) rule t (1 + Z.of_nat n) (clock (S n))) as (Hv & _ & _);
    [unfold is_u64 in Hu; lia|lia|done|].
  unfold isValid in Hv. apply andb_true_iff in Hv as [Hid%negb_true_iff _].
  assert (Hpr : Command.IsKnownPriority (ToCommandPriority (goal_priority (goal r))) = true)
    by by destruct (goal_priority (goal r)).
  unfold PrepareCommand, EffectiveTimeout, MissionStep_hasTimeout, TimeoutPolicy_isEnabled. simpl.
  unfold ValidateCommand. cbn [id timeout type priority hasTimeout MakeCommand] in *. rewrite Hid, Hknown, Hpr.
  exact Hp.
Qed.

(** Commands of different plans and steps have different identifiers, for
    goals below [2 ^ 64 / 1000] and the first 999 steps: the dispatcher, which
    refuses an identifier that is in flight, never mistakes one for another. *)
Theorem planned_ids_distinct r1 r2 rule1 rule2 clock1 clock2 n1 n2 s1 s2 :
  1 <= goal_id (goal r1) <= scaled_goals → 1 <= goal_id (goal r2) <= scaled_goals →
  rule_ok rule1 → rule_ok rule2 → (n1 < 999)%nat → (n2 < 999)%nat →
  steps (MakeMission r1 rule1 clock1) !! n1 = Some s1 →
  steps (MakeMission r2 rule2 clock2) !! n2 = Some s2 →
  id (step_command s1) = id (step_command s2) → goal_id (goal r1) = goal_id (goal r2) ∧ n1 = n2.
Proof.
  intros Hg1 Hg2 Hr1 Hr2 Hn1 Hn2 H1 H2 E.
  apply planned_step_lookup in H1 as (t1 & _ & ->); [|done].
  apply planned_step_lookup in H2 as (t2 & _ & ->); [|done].
  apply planned_ids_injective in E; unfold kCommandIdScale; lia.
Qed.

(* ------------------------------------------------------------------ *)
(** ** Cancellation while plans are made *)

Section Cancellation.
Context {Env : TreeEnvironment}.

(** A planner, the plans that threads are making, the answers given, the
    last first, and the calls of [CancelPlan]. *)
Record PlannerState := mkPlannerState {
  planner : RuleBasedPlanner;
  planning : gmap nat (PlanningRequest * RuleBasedPlannerRule);
  answers : list PlanningResult;
  cancellations : Z;
}.

Inductive PlannerLabel :=
  | PlanBegins (thread : nat) (r : PlanningRequest)
  | PlanEnds (thread : nat) (clock : nat → Z)
  | PlanCancelled.

Definition planner_exec (l : PlannerLabel) (s : PlannerState) : option PlannerState :=
  match l with
  | PlanBegins thread r =>
      match planning s !! thread with
      | Some _ => None
      | None =>
          match Plan_begin r (planner s) with
          | (inl result, p) => Some (mkPlannerState p (planning s) (result :: answers s) (cancellations s))
          | (inr rule, p) =>
              Some (mkPlannerState p (<[thread := (r, rule)]> (planning s)) (answers s) (cancellations s))
          end
      end
  | PlanEnds thread clock =>
      '(r, rule) ← planning s !! thread;
      let '(result, p) := Plan_end r rule clock (planner s) in
      Some (mkPlannerState p (delete thread (planning s)) (result :: answers s) (cancellations s))
  | PlanCancelled =>
      Some (mkPlannerState (CancelPlan (planner s)).2 (planning s) (answers s) (cancellations s + 1))
  end.

Fixpoint planner_run (ls : list PlannerLabel) (s : PlannerState) : option PlannerState :=
  match ls with
  | [] => Some s
  | l :: ls => s ← planner_exec l s; planner_run ls s
  end.

Definition initial_planner (rules : list RuleBasedPlannerRule) : PlannerState :=
  mkPlannerState (new_RuleBasedPlanner rules) ∅ [] 0.

Definition is_cancelled (result : PlanningResult) : bool :=
  bool_decide (result_status result = GoalCancelled).

Definition cancelled_answers (s : PlannerState) : Z :=
  Z.of_nat (length (List.filter is_cancelled (answers s))).

Definition pending (s : PlannerState) : bool := cancellationRequested_ (planner s).

Lemma Plan_begin_flag r p :
  let '(x, p') := Plan_begin r p in
  cancellationRequested_ p' = false ∧
  match x with inl result => is_cancelled result = cancellationRequested_ p | inr _ => cancellationRequested_ p = false end.
Proof.
  unfold Plan_begin, exchange_cancellation. destruct (cancellationRequested_ p); [done|].
  destruct (negb _); [done|]. by destruct (SelectRule _ _).
Qed.

Lemma Plan_end_flag r rule clock p :
  let '(result, p') := Plan_end r rule clock p in
  cancellationRequested_ p' = false ∧ is_cancelled result = cancellationRequested_ p.
Proof. unfold Plan_end, exchange_cancellation. by destruct (cancellationRequested_ p). Qed.

(** What a transition does to the flag and to the answers. *)
Lemma planner_exec_spec l s s' :
  planner_exec l s = Some s' →
  match l with
  | PlanCancelled => pending s' = true ∧ answers s' = answers s ∧ cancellations s' = cancellations s + 1
  | _ => pending s' = false ∧ cancellations s' = cancellations s ∧
      if pending s then ∃ result, answers s' = result :: answers s ∧ is_cancelled result = true
      else answers s' = answers s ∨ ∃ result, answers s' = result :: answers s ∧ is_cancelled result = false
  end.
Proof.
  unfold pending. destruct l as [thread r|thread clock|]; simpl; [| |by intros [= <-]].
  - destruct (planning s !! thread); [done|]. pose proof (Plan_begin_flag r (planner s)) as H.
    destruct (Plan_begin r (planner s)) as [[result|rule] p]; destruct H as [Hp Hx]; intros [= <-]; simpl.
    + destruct (cancellationRequested_ (planner s)); eauto 10.
    + rewrite Hx. eauto.
  - destruct (planning s !! thread) as [[r rule]|]; [|done]. simpl.
    pose proof (Plan_end_flag r rule clock (planner s)) as H.
    destruct (Plan_end r rule clock (planner s)) as [result p]; destruct H as [Hp Hx]; intros [= <-]; simpl.
    destruct (cancellationRequested_ (planner s)); eauto 10.
Qed.

Definition owed (s : PlannerState) : Z := cancelled_answers s + if pending s then 1 else 0.

Lemma planner_exec_owed l s s' :
  planner_exec l s = Some s' → owed s <= cancellations s → owed s' <= cancellations s'.
Proof.
  unfold owed, cancelled_answers. intros E%planner_exec_spec. destruct l.
  3:{ destruct E as (-> & -> & ->). destruct (pending s); lia. }
  all: destruct E as (-> & -> & E); destruct (pending s);
    [destruct E as (x & -> & Hx)|destruct E as [-> |(x & -> & Hx)]]; simpl; rewrite ?Hx; simpl length; lia.
Qed.

Lemma planner_run_owed ls : ∀ s s', planner_run ls s = Some s' → owed s <= cancellations s → owed s' <= cancellations s'.
Proof.
  induction ls as [|l ls IH]; intros s s' H Ho; simpl in H; [by simplify_eq|].
  destruct (planner_exec l s) as [s1|] eqn:E; [|done]. eapply IH; [done|]. by eapply planner_exec_owed.
Qed.

(** Under any interleaving of threads that plan and cancel, no more plans
    are cancelled than cancellations were requested; a request stays pending
    until the next thread that begins or ends a plan, which answers
    [Cancelled]; and without a pending request no plan is cancelled. *)
Theorem planner_cancellation rules ls s l s' :
  planner_run ls (initial_planner rules) = Some s →
  cancelled_answers s + (if pending s then 1 else 0) <= cancellations s ∧
  (planner_exec l s = Some s' → l ≠ PlanCancelled →
   pending s' = false ∧ cancelled_answers s' = cancelled_answers s + if pending s then 1 else 0).
Proof.
  intros H. split; [by apply (planner_run_owed ls) in H|]. intros E%planner_exec_spec Hl.
  unfold cancelled_answers. destruct l; [..|done];
    (destruct E as (-> & _ & E); split; [done|]; destruct (pending s);
     [destruct E as (x & -> & Hx)|destruct E as [-> |(x & -> & Hx)]]; simpl; rewrite ?Hx; simpl length; lia).
Qed.
End Cancellation.

(* ------------------------------------------------------------------ *)
(** ** The pipeline *)

Section Pipeline.
Context {Env : TreeEnvironment} {Planners : PlanningEnvironment}.

(** C8: When [Execute] answers success, the request was valid and the plan
    is one that the primary planner made and accepted, or the fallback planner
    after the primary one had failed, as [usedFallback] tells; the caller gets
    that plan, or, when trees are submitted, the plan without its tree and
    the handle of the job that the runtime made of it. When it fails there is
    no job. *)
Theorem Execute_delivers r o p w result p' w' :
  Execute r o p w = (Value result, p', w') →
  if isOk (pipeline_status result) then
    Request_isValid r = true ∧
    ∃ plan w1, planned_by r o p w (usedFallback result) plan w1 ∧ delivered o p plan w1 result w'
  else runtimeHandle result = None.
Proof. apply Execute_spec. Qed.

(** The metrics account for every request, modulo [2 ^ 64]: each is
    rejected or goes to the primary planner, and then is planned or failed,
    but for the calls that threw because [ValidatePlan] did, which are counted
    nowhere. *)
Theorem pipeline_accounts planner fallback_planner runtime p calls w p' w' thrown :
  new_PlanningPipeline planner fallback_planner runtime = Value p →
  executes calls p w = (p', w', thrown) →
  let m := GetMetrics p' in
  requests m ≡₆₄ Z.of_nat (length calls) ∧
  requests m ≡₆₄ rejected m + planned m + failed m + thrown ∧
  primaryPlannerAttempts m ≡₆₄ requests m - rejected m.
Proof.
  intros Hp E. destruct planner as [x|]; [|done]. injection Hp as <-.
  destruct (executes_accounts calls _ w p' w' 0 thrown 0 E) as (H1 & H2 & H3); [by eexists|done|].
  split_and!; [done|clear H1; unfold GetMetrics; congr64..].
Qed.

(** A planner that behaves as the rule-based one with some rules. *)
Definition rule_based (x : IPlanner) (rules : list RuleBasedPlannerRule) : Prop :=
  ∀ r w, ∃ clock w1, IPlanner_Plan x r w = (Value (Plan r clock (new_RuleBasedPlanner rules)).1, w1) ∧
    ∀ plan, ∃ w2, IPlanner_ValidatePlan x plan w1 = (Value (ValidatePlan plan), w2).

(** With the rule-based planner as its primary planner the pipeline plans
    every valid request, without the fallback planner, with a mission that
    satisfies the schema of the validator; the other planner, the runtime and
    the options do not matter as long as the tree is not submitted. *)
Theorem pipeline_plans x rules r o p w :
  rule_based x rules → Forall rule_ok rules → planner_ p = Some x →
  request_ok r → submitBehaviorTreeToRuntime o = false →
  ∃ result p' w', Execute r o p w = (Value result, p', w') ∧
    isOk (pipeline_status result) = true ∧ usedFallback result = false ∧
    ∃ rule clock, selects (goal r) (rules_ (new_RuleBasedPlanner rules)) (Some rule) ∧
      planningResult result = planned_result r rule clock ∧ mission_schema (MakeMission r rule clock).
Proof.
  intros Hx Hrules Hp Hr Ho. destruct (Hx r w) as (clock & w1 & Hplan & Hvalidate).
  destruct (Plan_planned rules r clock Hr Hrules) as (rule & Hs & HP & Hm & Hv).
  rewrite HP in Hplan. cbn [fst] in Hplan. destruct (Hvalidate (planned_result r rule clock)) as [w2 Hv2].
  rewrite Hv in Hv2. destruct Hr as [Hr _].
  unfold Execute. rewrite Hr. cbn [negb]. set (p1 := set_field metrics_ _ p).
  assert (∃ m w3, run_planners r o p1 w =
            (Value (mkPipelineResult Ok (planned_result r rule clock) false None), m, w3)) as (m & w3 & ->).
  { unfold run_planners. simpl. rewrite Hp. unfold run_planner. rewrite Hplan.
    simpl. destruct (validatePlan o); [rewrite Hv2|]; simpl; eauto. }
  simpl. rewrite Ho.
  eexists _, _, _. split_and!; [done..|]. eauto 10.
Qed.
End Pipeline.

(* ------------------------------------------------------------------ *)
(** ** Witnesses *)

#[local] Existing Instance example_environment.

Definition sample_snapshot : ExecutionContext.ExecutionContextSnapshot :=
  ExecutionContext.mkExecutionContextSnapshot 1 0 ExecutionContext.StateCreated None None
    ExecutionContext.ScopeBehaviorTree false ∅.

Definition sample_capabilities : RobotCapabilities :=
  mkRobotCapabilities true true true false false false false false false.

(** The goals of tests/rule_based_planner_unit_test.cpp. *)
Definition sample_request (t : GoalType) (p : GoalPriority) : PlanningRequest :=
  mkRequest (mkGoal 101 t "deterministic planner test goal" p GoalPending ∅ ∅ ∅ 0) sample_snapshot
    sample_capabilities.

Definition critical : PlanningRequest := sample_request GoalCommand GoalCritical.

Definition stop_rule : RuleBasedPlannerRule :=
  mkRule "rule.command.critical-stop" GoalCommand GoalCritical [TypeStop] "Critical Command Plan" false.

Lemma critical_ok : request_ok critical.
Proof. split; [by vm_compute|]. unfold is_u64, u64_modulus. simpl. lia. Qed.

Lemma DefaultRules_ok : Forall rule_ok DefaultRules.
Proof. repeat constructor. Qed.

Lemma planner_plans_witness :
  request_ok critical ∧ Forall rule_ok DefaultRules ∧
  ∃ rule result, selects (goal critical) (rules_ (new_RuleBasedPlanner DefaultRules)) (Some rule) ∧
    Plan critical (λ n, Z.of_nat n) (new_RuleBasedPlanner DefaultRules) =
      (result, new_RuleBasedPlanner DefaultRules) ∧ result_status result = GoalPlanned.
Proof.
  split; [exact critical_ok|]. split; [exact DefaultRules_ok|].
  destruct (planner_plans DefaultRules critical (λ n, Z.of_nat n) critical_ok DefaultRules_ok)
    as (rule & result & Hs & Hp & Hst & _).
  exists rule, result. exact (conj Hs (conj Hp Hst)).
Defined.

(** The built-in planner answers a critical command goal with the stop rule,
    whose command the dispatcher refuses. *)
Example critical_goal_stops :
  SelectRule (rules_ (new_RuleBasedPlanner DefaultRules)) (goal critical) = Some stop_rule.
Proof. reflexivity. Qed.

Lemma stop_rule_ok : rule_ok stop_rule.
Proof. repeat constructor. Qed.

Lemma planned_command_admitted_witness :
  ∃ s, steps (MakeMission critical stop_rule Z.of_nat) !! 0%nat = Some s ∧
    type (step_command s) = TypeStop ∧ ValidateCommand (PrepareCommand s 5) 6 ≠ None.
Proof.
  exists (MakeStep (goal critical) stop_rule TypeStop 1 1). split; [reflexivity|]. split; [reflexivity|].
  intros H.
  apply (planned_command_admitted critical stop_rule Z.of_nat 0
           (MakeStep (goal critical) stop_rule TypeStop 1 1) 5 6 critical_ok stop_rule_ok eq_refl) in H.
  discriminate H.
Defined.

Lemma planned_ids_distinct_witness :
  let s := MakeStep (goal critical) stop_rule TypeStop 1 1 in
  id (step_command s) = 101001 ∧ goal_id (goal critical) = goal_id (goal critical) ∧ 0%nat = 0%nat.
Proof.
  split; [reflexivity|].
  apply (planned_ids_distinct critical critical stop_rule stop_rule Z.of_nat Z.of_nat 0 0
           (MakeStep (goal critical) stop_rule TypeStop 1 1) (MakeStep (goal critical) stop_rule TypeStop 1 1));
    [split; vm_compute; discriminate|split; vm_compute; discriminate|exact stop_rule_ok|exact stop_rule_ok
    |lia|lia|reflexivity|reflexivity|reflexivity].
Defined.

Definition planner_trace : list PlannerLabel :=
  [PlanBegins 0 critical; PlanCancelled; PlanBegins 1 critical; PlanEnds 0 Z.of_nat].

Lemma planner_cancellation_witness :
  ∃ s, planner_run planner_trace (initial_planner DefaultRules) = Some s ∧
    cancelled_answers s = 1 ∧ cancelled_answers s + (if pending s then 1 else 0) <= cancellations s.
Proof.
  destruct (planner_run planner_trace (initial_planner DefaultRules)) as [s|] eqn:E; [|discriminate E].
  exists s. split; [reflexivity|]. split; [injection E as <-; reflexivity|].
  exact (proj1 (planner_cancellation DefaultRules planner_trace s PlanCancelled s E)).
Defined.

(** Planners that are rule-based, and a runtime that takes every tree. *)
Definition sample_planners : PlanningEnvironment := {|
  IPlanner := list RuleBasedPlannerRule;
  IPlanner_Plan rules r w := (Value (Plan r (λ n, clock w + Z.of_nat n) (new_RuleBasedPlanner rules)).1, w);
  IPlanner_ValidatePlan _ plan w := (Value (ValidatePlan plan), w);
  Runtime := unit;
  JobHandle := Z;
  Runtime_Submit _ _ o w := (Value (BehaviorTreeRuntime.executionId o), w);
|}.
#[local] Existing Instance sample_planners.

Definition sample_pipeline : PlanningPipeline :=
  mkPlanningPipeline (Some DefaultRules) None (Some tt) initial_PlanningPipelineMetrics.

Definition submitting : PlanningPipelineOptions :=
  mkPipelineOptions true true true BehaviorTreeRuntime.default_BehaviorTreeJobOptions.

(** What is seen of the outcome of a call. *)
Definition seen (x : Outcome PlanningPipelineResult) : option (option Z * bool * bool) :=
  match x with
  | Value r => Some (runtimeHandle r, isOk (pipeline_status r), usedFallback r)
  | _ => None
  end.

Lemma seen_Some x h ok f :
  seen x = Some (h, ok, f) →
  ∃ r, x = Value r ∧ runtimeHandle r = h ∧ isOk (pipeline_status r) = ok ∧ usedFallback r = f.
Proof. destruct x as [r| |]; simpl; intros H; [injection H; eauto|discriminate H..]. Defined.

Lemma Execute_delivers_witness :
  ∃ result p' w', Execute critical submitting sample_pipeline example_world = (Value result, p', w') ∧
    runtimeHandle result = Some 0 ∧
    ∃ plan w1, planned_by critical submitting sample_pipeline example_world false plan w1.
Proof.
  assert (Hs : seen (Execute critical submitting sample_pipeline example_world).1.1 = Some (Some 0, true, false))
    by (vm_compute; reflexivity).
  destruct (Execute critical submitting sample_pipeline example_world) as [[x p'] w'] eqn:E.
  destruct (seen_Some _ _ _ _ Hs) as (result & Hx & Hh & Hok & Hf). cbn [fst] in Hx. subst x.
  exists result, p', w'. split; [reflexivity|]. split; [exact Hh|].
  pose proof (Execute_delivers critical submitting sample_pipeline example_world result p' w' E) as H.
  rewrite Hok, Hf in H. destruct H as (_ & plan & w1 & Hplan & _). exists plan, w1. exact Hplan.
Defined.

Definition sample_calls : list (PlanningRequest * PlanningPipelineOptions) :=
  [(critical, submitting); (mkRequest default_Goal sample_snapshot sample_capabilities, submitting)].

Lemma pipeline_accounts_witness :
  let m := GetMetrics (executes sample_calls sample_pipeline example_world).1.1 in
  requests m ≡₆₄ 2 ∧ planned m = 1 ∧ rejected m = 1.
Proof.
  assert (Hs : (planned (GetMetrics (executes sample_calls sample_pipeline example_world).1.1),
                rejected (GetMetrics (executes sample_calls sample_pipeline example_world).1.1)) = (1, 1))
    by (vm_compute; reflexivity).
  destruct (executes sample_calls sample_pipeline example_world) as [[p' w'] thrown] eqn:E.
  pose proof (pipeline_accounts (Some DefaultRules) None (Some tt) sample_pipeline sample_calls example_world
                p' w' thrown eq_refl E) as (H & _).
  split; [exact H|]. injection Hs. intros Hr Hp. exact (conj Hp Hr).
Defined.

Lemma sample_planners_rule_based : rule_based (Planners := sample_planners) DefaultRules DefaultRules.
Proof.
  intros r w. exists (λ n, clock w + Z.of_nat n), w. split; [done|]. intros plan. by exists w.
Qed.

Lemma pipeline_plans_witness :
  rule_based (Planners := sample_planners) DefaultRules DefaultRules ∧
  ∃ result p' w',
    Execute critical default_PlanningPipelineOptions sample_pipeline example_world = (Value result, p', w') ∧
    isOk (pipeline_status result) = true.
Proof.
  split; [exact sample_planners_rule_based|].
  destruct (pipeline_plans (Planners := sample_planners) DefaultRules DefaultRules critical
              default_PlanningPipelineOptions sample_pipeline example_world sample_planners_rule_based
              DefaultRules_ok eq_refl critical_ok eq_refl) as (result & p' & w' & E & Hok & _).
  exists result, p', w'. exact (conj E Hok).
Defined.
