(* ===== verification/InstanceLedger.v ===== *)
(** * Counting instances

    The factories of planners and of plugins count, for each identifier, the
    instances that are being created and those handed out.  Who holds an
    instance is a finite map from holders to identifiers; the lemmas say how
    the number of holders of an identifier changes with the map. *)

From S2P Require Import Prelude.

(** The holders of [key]. *)
Definition holders (key : string) (m : gmap nat string) : nat :=
  size (filter (λ entry : nat * string, entry.2 = key) m).

(** One instance of [key], if [key'] is it. *)
Definition one (key key' : string) : nat := if decide (key' = key) then 1 else 0.

Lemma one_same key : one key key = 1.
Proof. unfold one. by rewrite decide_True. Qed.

Lemma one_other key key' : key' ≠ key → one key key' = 0.
Proof. unfold one. intros. by rewrite decide_False. Qed.

Lemma holders_empty key : holders key ∅ = 0.
Proof. unfold holders. by rewrite map_filter_empty. Qed.

Lemma holders_insert key i key' m :
  m !! i = None → holders key (<[i := key']> m) = holders key m + one key key'.
Proof.
  intros Hi. unfold holders, one. destruct (decide (key' = key)) as [->|Hne].
  - rewrite map_filter_insert_True by done. rewrite map_size_insert_None; [lia|].
    apply map_lookup_filter_None. by left.
  - rewrite map_filter_insert_False by done. rewrite delete_id by done. lia.
Qed.

Lemma holders_delete key i key' m :
  m !! i = Some key' → holders key m = holders key (delete i m) + one key key'.
Proof.
  intros Hi. rewrite <-(insert_delete_id m i key') at 1 by done.
  apply holders_insert, lookup_delete_eq.
Qed.

Lemma holders_0 key m : holders key m = 0 → ∀ i, m !! i ≠ Some key.
Proof.
  unfold holders. intros H%map_size_empty_iff i Hi.
  assert (filter (λ entry : nat * string, entry.2 = key) m !! i = Some key) as E
    by by apply map_lookup_filter_Some.
  by rewrite H, lookup_empty in E.
Qed.

(** An instance changes hands: from the creating threads to the clients. *)
Lemma holders_move key i key' m j m' :
  m !! i = Some key' → m' !! j = None →
  holders key m + holders key m' = holders key (delete i m) + holders key (<[j := key']> m').
Proof. intros Hi Hj. rewrite (holders_delete key i key' m), (holders_insert key j key' m') by done. lia. Qed.

(* ------------------------------------------------------------------ *)
(** ** Instances in the hands of threads *)

Section Tracked.
Context {A : Type} (counts : A → option string).

(** The instances of [key] that a program point stands for. *)
Definition weight (key : string) (pc : A) : nat :=
  match counts pc with Some key' => one key key' | None => 0 end.

Definition weight_at (key : string) (thread : nat) (m : gmap nat A) : nat :=
  match m !! thread with Some pc => weight key pc | None => 0 end.

Definition tracked (key : string) (m : gmap nat A) : nat := holders key (omap counts m).

Lemma tracked_empty key : tracked key ∅ = 0.
Proof. unfold tracked. rewrite omap_empty. apply holders_empty. Qed.

Lemma tracked_delete key thread m :
  tracked key (delete thread m) + weight_at key thread m = tracked key m.
Proof.
  unfold tracked, weight_at, weight. rewrite omap_delete.
  destruct (m !! thread) as [pc|] eqn:E; [destruct (counts pc) as [key'|] eqn:Ec|].
  - symmetry. apply holders_delete. by rewrite lookup_omap, E.
  - rewrite delete_id; [lia|]. by rewrite lookup_omap, E.
  - rewrite delete_id; [lia|]. by rewrite lookup_omap, E.
Qed.

Lemma tracked_insert key thread pc m :
  tracked key (<[thread := pc]> m) + weight_at key thread m = tracked key m + weight key pc.
Proof.
  rewrite <-(tracked_delete key thread m).
  assert (H : tracked key (<[thread := pc]> m) = tracked key (delete thread m) + weight key pc); [|lia].
  rewrite <-insert_delete_eq. unfold tracked, weight. destruct (counts pc) as [key'|] eqn:Ec.
  - rewrite (omap_insert_Some _ _ _ _ key') by done. apply holders_insert.
    by rewrite lookup_omap, lookup_delete_eq.
  - rewrite omap_insert_None by done. rewrite delete_id; [lia|].
    by rewrite lookup_omap, lookup_delete_eq.
Qed.

Lemma tracked_0 key m : tracked key m = 0 → ∀ thread pc, m !! thread = Some pc → counts pc ≠ Some key.
Proof.
  intros H thread pc Hpc Hc. apply (holders_0 _ _ H thread). by rewrite lookup_omap, Hpc.
Qed.
End Tracked.

(* ------------------------------------------------------------------ *)
(** ** Factories that count *)

(** What a factory promises of its counts: [recount] changes one of them,
    where there is one to change. *)
Class InstanceCounter (F : Type) := {
  knows : string → F → Prop;
  active : string → F → nat;
  recount : (nat → nat) → string → F → F;
  active_recount g key key' f :
    g 0 = 0 ∨ knows key f →
    active key' (recount g key f) = if decide (key' = key) then g (active key f) else active key' f;
}.

Section Counter.
Context {F : Type} `{InstanceCounter F}.

Lemma active_acquire key key' f :
  knows key f → active key' (recount S key f) = active key' f + one key' key.
Proof.
  intros Hk. rewrite active_recount by by right. unfold one. destruct (decide (key' = key)) as [->|Hne].
  - rewrite decide_True by done. lia.
  - rewrite decide_False by done. lia.
Qed.

Lemma active_release key key' f :
  0 < active key f → active key' f = active key' (recount pred key f) + one key' key.
Proof.
  intros Ha. rewrite active_recount by by left. unfold one. destruct (decide (key' = key)) as [->|Hne].
  - rewrite decide_True by done. lia.
  - rewrite decide_False by done. lia.
Qed.
End Counter.
