(* ===== verification/PlannerFactory.v ===== *)
(** * The registry and the factory of planners

    src/planner/PlannerRegistry.cpp and src/planner/PlannerFactory.cpp.  The
    factory registers creators, with their capabilities in a registry that it
    may share with others, and counts the planners of each identifier that are
    being created or handed out: it refuses to forget a creator while there
    are any.

    Each critical section is a transition; the creator and the query of the
    capabilities of its planner run without the lock, and what they do is part
    of the label.  [CreatePlanner] is two transitions.  The hash maps are
    finite maps, and a planner a client holds is a name for it.  A planner
    answers the same identifier as long as it lives, and is given back to the
    factory that made it.  Failures of allocation are left out. *)

From S2P Require Import Prelude Status Planner InstanceLedger.

Open Scope Z_scope.

(* ------------------------------------------------------------------ *)
(** ** The registry *)

Notation PlannerRegistry := (gmap string PlannerCapabilities).

Definition RegisterPlanner (c : PlannerCapabilities) (r : PlannerRegistry) : Status * PlannerRegistry :=
  if negb (Capabilities_isValid c) then
    (InvalidArgument "planner capabilities are incomplete or invalid", r)
  else match r !! plannerId c with
  | Some _ => (FailedPrecondition "planner is already registered", r)
  | None => (Ok, <[plannerId c := c]> r)
  end.

Definition UnregisterPlanner (planner_id : string) (r : PlannerRegistry) : Status * PlannerRegistry :=
  if bool_decide (planner_id = EmptyString) then (InvalidArgument "planner identifier is empty", r)
  else match r !! planner_id with
  | None => (FailedPrecondition "planner is not registered", r)
  | Some _ => (Ok, delete planner_id r)
  end.

Definition Contains (planner_id : string) (r : PlannerRegistry) : bool :=
  negb (bool_decide (planner_id = EmptyString)) && bool_decide (is_Some (r !! planner_id)).

Definition Capabilities (planner_id : string) (r : PlannerRegistry) : option PlannerCapabilities :=
  if bool_decide (planner_id = EmptyString) then None else r !! planner_id.

(** In the order of the hash map, which is not specified. *)
Definition EnumeratePlanners (r : PlannerRegistry) : list PlannerCapabilities := (map_to_list r).*2.

Definition PlannerCount (r : PlannerRegistry) : Z := Z.of_nat (size r).

(* ------------------------------------------------------------------ *)
(** ** The factory *)

Section Factory.
Context {PlannerCreator : Type}.

Record FactoryEntry := mkEntry {
  entry_capabilities : PlannerCapabilities;
  creator : PlannerCreator;
  activeInstances : nat;
}.

Record PlannerFactory := mkFactory {
  registry_ : option PlannerRegistry;
  factories_ : gmap string FactoryEntry;
}.

Definition no_registry : Status := FailedPrecondition "planner registry is not available".

Definition Factory_RegisterPlanner (c : PlannerCapabilities) (creator : option PlannerCreator)
    (f : PlannerFactory) : Status * PlannerFactory :=
  match registry_ f, creator with
  | None, _ => (no_registry, f)
  | Some _, None => (InvalidArgument "planner creator is empty", f)
  | Some r, Some creator =>
      if negb (Capabilities_isValid c) then
        (InvalidArgument "planner capabilities are incomplete or invalid", f)
      else match factories_ f !! plannerId c with
      | Some _ => (FailedPrecondition "planner creator is already registered", f)
      | None =>
          let '(registry_status, r) := RegisterPlanner c r in
          if negb (isOk registry_status) then (registry_status, mkFactory (Some r) (factories_ f))
          else (Ok, mkFactory (Some r) (<[plannerId c := mkEntry c creator 0]> (factories_ f)))
      end
  end.

Definition Factory_UnregisterPlanner (planner_id : string) (f : PlannerFactory) :
    Status * PlannerFactory :=
  match registry_ f with
  | None => (no_registry, f)
  | Some r =>
      if bool_decide (planner_id = EmptyString) then (InvalidArgument "planner identifier is empty", f)
      else match factories_ f !! planner_id with
      | None => (FailedPrecondition "planner creator is not registered", f)
      | Some e =>
          if (0 <? activeInstances e)%nat then (FailedPrecondition "planner instances are still active", f)
          else
            let '(registry_status, r) := UnregisterPlanner planner_id r in
            if negb (isOk registry_status) then (registry_status, mkFactory (Some r) (factories_ f))
            else (Ok, mkFactory (Some r) (delete planner_id (factories_ f)))
      end
  end.

(** [activeInstances] of an entry, changed. *)
Definition count_instances (g : nat → nat) (key : string) (f : PlannerFactory) : PlannerFactory :=
  mkFactory (registry_ f)
    (alter (λ e, mkEntry (entry_capabilities e) (creator e) (g (activeInstances e))) key (factories_ f)).

(** [CreatePlanner] up to the call of the creator. *)
Definition CreatePlanner_begin (planner_id : string) (f : PlannerFactory) :
    (Status + PlannerCreator) * PlannerFactory :=
  match registry_ f with
  | None => (inl no_registry, f)
  | Some _ =>
      if bool_decide (planner_id = EmptyString) then
        (inl (InvalidArgument "planner identifier is empty"), f)
      else match factories_ f !! planner_id with
      | None => (inl (FailedPrecondition "planner creator is not registered"), f)
      | Some e => (inr (creator e), count_instances S planner_id f)
      end
  end.

(** The lambda [release_active_instance]: nothing is counted below zero. *)
Definition release_active_instance (key : string) (f : PlannerFactory) : PlannerFactory :=
  count_instances pred key f.

(** What the creator and the query of the capabilities do. *)
Inductive Creation :=
  | CreatorThrew
  | CreatorNull
  | QueryThrew
  | Created (created_capabilities : PlannerCapabilities).

(** [CreatePlanner] after the call; a success hands the planner out. *)
Definition CreatePlanner_end (key : string) (c : Creation) (f : PlannerFactory) : Status * PlannerFactory :=
  let refused message := (InternalError message, release_active_instance key f) in
  match c with
  | CreatorThrew => refused "planner creator threw an exception"
  | CreatorNull => refused "planner creator returned null"
  | QueryThrew => refused "planner capability query threw an exception"
  | Created c =>
      if negb (Capabilities_isValid c) || negb (bool_decide (plannerId c = key)) then
        refused "created planner capabilities do not match requested identifier"
      else (Ok, f)
  end.

(** [DestroyPlanner] of a planner, or of a null pointer, and what its
    capabilities are, unless asking throws. The planner is gone on success. *)
Definition DestroyPlanner (planner : option (option PlannerCapabilities)) (f : PlannerFactory) :
    Status * PlannerFactory :=
  match planner with
  | None => (InvalidArgument "planner instance is null", f)
  | Some None => (InternalError "planner capability query threw an exception", f)
  | Some (Some c) =>
      if bool_decide (plannerId c = EmptyString) then (InvalidArgument "planner identifier is empty", f)
      else match factories_ f !! plannerId c with
      | None => (FailedPrecondition "planner instance is not tracked by this factory", f)
      | Some e =>
          if (activeInstances e =? 0)%nat then
            (FailedPrecondition "planner instance is not tracked by this factory", f)
          else (Ok, count_instances pred (plannerId c) f)
      end
  end.

Definition RegisteredPlannerCount (f : PlannerFactory) : Z := Z.of_nat (size (factories_ f)).

(* ------------------------------------------------------------------ *)
(** ** Threads *)

(** The factory, the identifiers that threads are creating a planner of, and
    the planners that clients hold. *)
Record FactoryState := mkState {
  factory : PlannerFactory;
  creating : gmap nat string;
  held : gmap nat string;
}.

#[local] Instance eta_FactoryState : EtaRecord FactoryState := fun s =>
  mkState (factory s) (creating s) (held s).

Inductive FactoryLabel :=
  | Registers (c : PlannerCapabilities) (creator : option PlannerCreator)
  | Unregisters (planner_id : string)
  | CreateBegins (thread : nat) (planner_id : string)
  | CreateEnds (thread : nat) (c : Creation) (planner : nat)
  | Destroys (planner : nat) (capabilities : option PlannerCapabilities)
  | DestroysNull
  | RegistersDirectly (c : PlannerCapabilities)
  | UnregistersDirectly (planner_id : string).

(** The status that the call answers, if it ends with the transition. *)
Definition factory_exec (l : FactoryLabel) (s : FactoryState) : option (option Status * FactoryState) :=
  let answer '(st, f) := Some (Some st, s <| factory := f |>) in
  let registry_call (op : PlannerRegistry → Status * PlannerRegistry) :=
    r ← registry_ (factory s);
    let '(st, r) := op r in answer (st, mkFactory (Some r) (factories_ (factory s))) in
  match l with
  | Registers c creator => answer (Factory_RegisterPlanner c creator (factory s))
  | Unregisters planner_id => answer (Factory_UnregisterPlanner planner_id (factory s))
  | CreateBegins thread planner_id =>
      match creating s !! thread with
      | Some _ => None
      | None =>
          match CreatePlanner_begin planner_id (factory s) with
          | (inl st, f) => answer (st, f)
          | (inr _, f) =>
              Some (None, s <| factory := f |> <| creating := <[thread := planner_id]> (creating s) |>)
          end
      end
  | CreateEnds thread c planner =>
      key ← creating s !! thread;
      let '(st, f) := CreatePlanner_end key c (factory s) in
      let s := s <| factory := f |> <| creating := delete thread (creating s) |> in
      if isOk st then
        match held s !! planner with
        | Some _ => None
        | None => Some (Some st, s <| held := <[planner := key]> (held s) |>)
        end
      else Some (Some st, s)
  | Destroys planner capabilities =>
      key ← held s !! planner;
      match capabilities with
      | Some c => guard (plannerId c = key);; Some tt
      | None => Some tt
      end;;
      let '(st, f) := DestroyPlanner (Some capabilities) (factory s) in
      Some (Some st, s <| factory := f |>
                       <| held := if isOk st then delete planner (held s) else held s |>)
  | DestroysNull => answer (DestroyPlanner None (factory s))
  | RegistersDirectly c => registry_call (RegisterPlanner c)
  | UnregistersDirectly planner_id => registry_call (UnregisterPlanner planner_id)
  end.

Fixpoint factory_run (ls : list FactoryLabel) (s : FactoryState) : option FactoryState :=
  match ls with
  | [] => Some s
  | l :: ls => '(_, s) ← factory_exec l s; factory_run ls s
  end.

Definition initial (registry : option PlannerRegistry) : FactoryState :=
  mkState (mkFactory registry ∅) ∅ ∅.
End Factory.
Arguments FactoryEntry : clear implicits.
Arguments PlannerFactory : clear implicits.
Arguments FactoryState : clear implicits.
Arguments FactoryLabel : clear implicits.

(* ------------------------------------------------------------------ *)
(** ** The instances of a planner factory

    The factory counts exactly the planners that are being created or held,
    so that a creator is forgotten only when there are none; and its creators
    are in its registry with their capabilities. *)

Open Scope nat_scope.

Section Factory.
Context {PlannerCreator : Type}.
#[local] Notation PlannerFactory := (PlannerFactory PlannerCreator).
#[local] Notation FactoryState := (FactoryState PlannerCreator).
#[local] Notation FactoryLabel := (FactoryLabel PlannerCreator).

(** The count of an identifier; none without an entry. *)
Definition active_planners (key : string) (f : PlannerFactory) : nat :=
  match factories_ f !! key with Some e => activeInstances e | None => 0 end.

Lemma count_instances_active g key key' f :
  g 0 = 0 ∨ is_Some (factories_ f !! key) →
  active_planners key' (count_instances g key f) =
    if decide (key' = key) then g (active_planners key f) else active_planners key' f.
Proof.
  unfold active_planners, count_instances. simpl. intros Hg. destruct (decide (key' = key)) as [->|Hne].
  - rewrite lookup_alter_eq. destruct (factories_ f !! key); simpl; [done|]. by destruct Hg as [->|[? ?]].
  - by rewrite lookup_alter_ne.
Qed.

#[export] Instance planner_counter : InstanceCounter PlannerFactory := {|
  knows key f := is_Some (factories_ f !! key);
  active := active_planners;
  recount := count_instances;
  active_recount := count_instances_active;
|}.

Lemma acquire_planner id key f :
  is_Some (factories_ f !! id) → active key (count_instances S id f) = active key f + one key id.
Proof. exact (active_acquire id key f). Qed.

Lemma release_planner id key f :
  0 < active id f → active key f = active key (count_instances pred id f) + one key id.
Proof. exact (active_release id key f). Qed.

Lemma active_Register c creator key f :
  active key (Factory_RegisterPlanner c creator f).2 = active key f.
Proof.
  unfold Factory_RegisterPlanner. simpl. unfold active_planners. destruct (registry_ f) as [r|]; [|done].
  destruct creator; [|done]. destruct (negb _); [done|].
  destruct (factories_ f !! plannerId c) eqn:E; [done|]. destruct (RegisterPlanner c r) as [st r'].
  destruct (negb (isOk st)); [done|]. simpl. destruct (decide (plannerId c = key)) as [<-|Hne].
  - by rewrite lookup_insert_eq, E.
  - by rewrite lookup_insert_ne.
Qed.

Lemma active_Unregister id key f :
  active key (Factory_UnregisterPlanner id f).2 = active key f ∧
  (isOk (Factory_UnregisterPlanner id f).1 = true → active id f = 0).
Proof.
  unfold Factory_UnregisterPlanner. simpl. unfold active_planners. destruct (registry_ f) as [r|]; [|done].
  case_bool_decide; [done|]. destruct (factories_ f !! id) as [e|] eqn:E; [|done].
  destruct (Nat.ltb_spec 0 (activeInstances e)); [done|]. destruct (UnregisterPlanner id r) as [st r'].
  destruct (negb (isOk st)); (split; [|lia]); [done|]. simpl. destruct (decide (id = key)) as [<-|Hne].
  - rewrite lookup_delete_eq, E. lia.
  - by rewrite lookup_delete_ne.
Qed.

Lemma active_Create_begin id key f :
  active key (CreatePlanner_begin id f).2 =
    active key f + if (CreatePlanner_begin id f).1 is inr _ then one key id else 0.
Proof.
  unfold CreatePlanner_begin. destruct (registry_ f); [|simpl; lia]. case_bool_decide; [simpl; lia|].
  destruct (factories_ f !! id) as [e|] eqn:E; [|simpl; lia].
  cbn [fst snd]. by apply acquire_planner.
Qed.

Lemma active_Create_end id c key f :
  0 < active id f →
  active key f =
    active key (CreatePlanner_end id c f).2 + if isOk (CreatePlanner_end id c f).1 then 0 else one key id.
Proof.
  intros Hid. unfold CreatePlanner_end, release_active_instance.
  destruct c as [| | |c]; try by apply release_planner.
  destruct (_ || _); [by apply release_planner|simpl; lia].
Qed.

Lemma active_Destroy p key f :
  active key f =
    active key (DestroyPlanner p f).2 +
    match p with
    | Some (Some c) => if isOk (DestroyPlanner p f).1 then one key (plannerId c) else 0
    | _ => 0
    end.
Proof.
  destruct p as [[c|]|]; simpl; [|lia..]. unfold DestroyPlanner. case_bool_decide; [simpl; lia|].
  destruct (factories_ f !! plannerId c) as [e|] eqn:E; [|simpl; lia].
  destruct (Nat.eqb_spec (activeInstances e) 0); [simpl; lia|]. apply release_planner.
  change (0 < active_planners (plannerId c) f). unfold active_planners. rewrite E. lia.
Qed.

(** Nothing but these operations changes the counts. *)
Definition counted (s : FactoryState) : Prop :=
  ∀ key, active key (factory s) = holders key (creating s) + holders key (held s).

#[local] Arguments DestroyPlanner : simpl never.
#[local] Arguments CreatePlanner_end : simpl never.
#[local] Arguments CreatePlanner_begin : simpl never.
Lemma factory_exec_counted l s st s' : factory_exec l s = Some (st, s') → counted s → counted s'.
Proof.
  intros E Hs key. pose proof (Hs key) as Hk.
  destruct l as [c creator'|planner_id|thread planner_id|thread c planner|planner capabilities| |c|planner_id]; simpl in E.
  - pose proof (active_Register c creator' key (factory s)) as H.
    destruct (Factory_RegisterPlanner _ _ _) as [x f]. simplify_eq/=. lia.
  - pose proof (active_Unregister planner_id key (factory s)) as [H _].
    destruct (Factory_UnregisterPlanner _ _) as [x f]. simplify_eq/=. lia.
  - destruct (creating s !! thread) eqn:Et; [done|].
    pose proof (active_Create_begin planner_id key (factory s)) as H.
    destruct (CreatePlanner_begin _ _) as [[x|x] f]; simplify_eq/=; [lia|].
    rewrite holders_insert by done. lia.
  - destruct (creating s !! thread) as [id|] eqn:Et; [|done]. simpl in E.
    pose proof (holders_delete id _ _ _ Et) as Hd. rewrite one_same in Hd.
    pose proof (active_Create_end id c key (factory s)) as H. specialize (Hs id).
    destruct (CreatePlanner_end id c (factory s)) as [x f]. simpl in *.
    specialize (H ltac:(lia)). pose proof (holders_delete key _ _ _ Et) as Hdk.
    destruct (isOk x); [|simplify_eq/=; lia].
    destruct (held s !! planner) eqn:Eh; [done|]. simplify_eq/=. rewrite holders_insert by done. lia.
  - destruct (held s !! planner) as [id|] eqn:Eh; [|done]. simpl in E.
    pose proof (holders_delete key _ _ _ Eh) as Hd.
    destruct capabilities as [c|]; simpl in E.
    + case_guard; [|done]. simpl in E. subst id.
      pose proof (active_Destroy (Some (Some c)) key (factory s)) as H.
      destruct (DestroyPlanner _ _) as [x f]. simplify_eq/=. destruct (isOk x); simpl; lia.
    + by simplify_eq/=.
  - by simplify_eq/=.
  - destruct (registry_ (factory s)) as [r|]; [|done]. simpl in E.
    destruct (RegisterPlanner c r). by simplify_eq/=.
  - destruct (registry_ (factory s)) as [r|]; [|done]. simpl in E.
    destruct (UnregisterPlanner planner_id r). by simplify_eq/=.
Qed.

Lemma factory_run_invariant (P : FactoryState → Prop) (ok : FactoryLabel → Prop) ls :
  (∀ l s st s', ok l → factory_exec l s = Some (st, s') → P s → P s') →
  ∀ s s', Forall ok ls → factory_run ls s = Some s' → P s → P s'.
Proof.
  intros Hstep. induction ls as [|l ls IH]; intros s s' Hls H Hs; simpl in H; [by simplify_eq|].
  inversion_clear Hls. destruct (factory_exec l s) as [[st s1]|] eqn:E; [|done]. simpl in H. eauto.
Qed.

Lemma initial_counted r : counted (initial r).
Proof. intros key. simpl. by rewrite !holders_empty. Qed.

Lemma run_counted r ls s : factory_run ls (initial r) = Some s → counted s.
Proof.
  intros H. eapply (factory_run_invariant counted (λ _, True)); [|by apply Forall_true|done|apply initial_counted].
  intros. by eapply factory_exec_counted.
Qed.

(* ------------------------------------------------------------------ *)
(** ** The registry of the factory *)

Definition direct (l : FactoryLabel) : bool := if l is UnregistersDirectly _ then true else false.

(** Every creator is in the registry, under its identifier. *)
Definition registered (f : PlannerFactory) : Prop :=
  ∀ key e, factories_ f !! key = Some e →
    plannerId (entry_capabilities e) = key ∧ key ≠ EmptyString ∧
    ∃ r, registry_ f = Some r ∧ r !! key = Some (entry_capabilities e).

Lemma valid_id c : Capabilities_isValid c = true → plannerId c ≠ EmptyString.
Proof.
  unfold Capabilities_isValid. rewrite !andb_true_iff, negb_true_iff. by intros [[H%bool_decide_eq_false _] _].
Qed.

Lemma RegisterPlanner_keeps c r key x :
  r !! key = Some x → (RegisterPlanner c r).2 !! key = Some x.
Proof.
  unfold RegisterPlanner. intros H. destruct (negb _); [done|].
  destruct (r !! plannerId c) eqn:E; [done|]. simpl. rewrite lookup_insert_ne; [done|]. congruence.
Qed.

Lemma RegisterPlanner_valid c r :
  Capabilities_isValid c = true →
  RegisterPlanner c r =
    match r !! plannerId c with
    | Some _ => (FailedPrecondition "planner is already registered", r)
    | None => (Ok, <[plannerId c := c]> r)
    end.
Proof. unfold RegisterPlanner. by intros ->. Qed.

Lemma registered_Register c creator f : registered f → registered (Factory_RegisterPlanner c creator f).2.
Proof.
  intros Hf. unfold Factory_RegisterPlanner. destruct (registry_ f) as [r|] eqn:Er; [|done].
  destruct creator as [creator|]; [|done]. destruct (Capabilities_isValid c) eqn:Hv; simpl; [|done].
  destruct (factories_ f !! plannerId c) eqn:E; [done|].
  assert (Hkeep : ∀ key e, factories_ f !! key = Some e →
    plannerId (entry_capabilities e) = key ∧ key ≠ EmptyString ∧ ∃ r', Some (RegisterPlanner c r).2 = Some r' ∧
      r' !! key = Some (entry_capabilities e)).
  { intros key e He. destruct (Hf key e He) as (Hk & Hn & r' & Hr & Hl). rewrite Er in Hr. simplify_eq.
    split_and!; [done..|]. eexists. split; [done|]. by apply RegisterPlanner_keeps. }
  rewrite RegisterPlanner_valid in Hkeep |- * by done.
  destruct (r !! plannerId c) as [x|]; [exact Hkeep|]. intros key e. simpl.
  destruct (decide (plannerId c = key)) as [<-|Hne].
  - rewrite lookup_insert_eq. intros [= <-]. split_and!; [done|by apply valid_id|].
    eexists. split; [done|]. apply lookup_insert_eq.
  - rewrite lookup_insert_ne by done. apply Hkeep.
Qed.

Lemma registered_Unregister id f : registered f → registered (Factory_UnregisterPlanner id f).2.
Proof.
  intros Hf. unfold Factory_UnregisterPlanner. destruct (registry_ f) as [r|] eqn:Er; [|done].
  case_bool_decide as Hid; [done|]. destruct (factories_ f !! id) as [e|] eqn:E; [|done].
  destruct (0 <? activeInstances e); [done|]. unfold UnregisterPlanner. rewrite bool_decide_eq_false_2 by done.
  destruct (Hf id e E) as (_ & _ & r' & Hr & Hl). rewrite Er in Hr. injection Hr as <-. rewrite Hl. simpl.
  intros key e'. simpl. destruct (decide (id = key)) as [<-|Hne]; [by rewrite lookup_delete_eq|].
  rewrite lookup_delete_ne by done. intros He. destruct (Hf key e' He) as (Hk & Hn & r' & Hr & Hl').
  rewrite Er in Hr. injection Hr as <-. split_and!; [done..|]. eexists. split; [done|].
  by rewrite lookup_delete_ne.
Qed.

Lemma registered_count g key f : registered f → registered (count_instances g key f).
Proof.
  intros Hf key' e He. unfold count_instances in *. simpl in *.
  apply lookup_alter_Some in He as [(-> & e' & He & ->)|[_ He]]; simpl; by eapply Hf.
Qed.

Lemma factory_exec_registered l s st s' :
  direct l = false → factory_exec l s = Some (st, s') → registered (factory s) → registered (factory s').
Proof.
  intros Hl E Hs.
  destruct l as [c creator'|planner_id|thread planner_id|thread c planner|planner capabilities| |c|planner_id]; simpl in E; try done.
  - pose proof (registered_Register c creator' _ Hs) as H.
    destruct (Factory_RegisterPlanner _ _ _) as [x f]. by simplify_eq/=.
  - pose proof (registered_Unregister planner_id _ Hs) as H.
    destruct (Factory_UnregisterPlanner _ _) as [x f]. by simplify_eq/=.
  - destruct (creating s !! thread); [done|].
    assert (H : registered (CreatePlanner_begin planner_id (factory s)).2).
    { unfold CreatePlanner_begin. destruct (registry_ _); [|done]. case_bool_decide; [done|].
      destruct (_ !! planner_id); [|done]. by apply registered_count. }
    by destruct (CreatePlanner_begin _ _) as [[x|x] f]; simplify_eq/=.
  - destruct (creating s !! thread) as [id|]; [|done]. simpl in E.
    assert (H : registered (CreatePlanner_end id c (factory s)).2).
    { unfold CreatePlanner_end. destruct c; try by apply registered_count.
      destruct (_ || _); [by apply registered_count|done]. }
    destruct (CreatePlanner_end _ _ _) as [x f]. simpl in *.
    destruct (isOk x); [destruct (held s !! planner); [done|]|]; by simplify_eq/=.
  - destruct (held s !! planner) as [id|]; [|done]. simpl in E.
    assert (H : registered (DestroyPlanner (Some capabilities) (factory s)).2).
    { unfold DestroyPlanner. destruct capabilities as [c|]; [|done]. case_bool_decide; [done|].
      destruct (_ !! plannerId c); [|done]. destruct (_ =? 0); [done|]. by apply registered_count. }
    destruct (match capabilities with Some c => _ | None => _ end); [|done]. simpl in E.
    destruct (DestroyPlanner _ _) as [x f]. by simplify_eq/=.
  - by simplify_eq/=.
  - destruct (registry_ (factory s)) as [r|] eqn:Er; [|done]. simpl in E.
    destruct (RegisterPlanner c r) as [x r'] eqn:Ereg. simplify_eq/=.
    intros key e He. destruct (Hs key e He) as (Hk & Hn & r0 & Hr & Hl0). simpl. rewrite Er in Hr. simplify_eq.
    split_and!; [done..|]. eexists. split; [done|]. replace r' with (RegisterPlanner c r0).2 by by rewrite Ereg.
    by apply RegisterPlanner_keeps.
Qed.

Lemma run_registered r ls s :
  factory_run ls (initial r) = Some s → Forall (λ l, direct l = false) ls → registered (factory s).
Proof.
  intros H Hls. by eapply (factory_run_invariant (λ s, registered (factory s))); [apply factory_exec_registered|..].
Qed.

(* ------------------------------------------------------------------ *)
(** ** Theorems *)

(** Under any interleaving of threads that register, create and destroy
    planners, the factory counts for each identifier exactly the planners that
    are being created and those that clients hold. A creator is forgotten only
    when there are none. *)
Theorem planner_factory_counts r ls s :
  factory_run ls (initial r) = Some s →
  (∀ key, active key (factory s) = holders key (creating s) + holders key (held s)) ∧
  ∀ key, isOk (Factory_UnregisterPlanner key (factory s)).1 = true →
    (∀ thread, creating s !! thread ≠ Some key) ∧ ∀ planner, held s !! planner ≠ Some key.
Proof.
  intros H%run_counted. split; [exact H|]. intros key Hok.
  destruct (active_Unregister key key (factory s)) as [_ H0]. specialize (H0 Hok). rewrite H in H0.
  split; apply holders_0; lia.
Qed.

(** As long as nobody unregisters planners behind the factory's back, the
    registry has every creator's capabilities under its identifier, and the
    creator can be unregistered exactly when no planner of it is counted. *)
Theorem planner_factory_registered r ls s key e :
  factory_run ls (initial r) = Some s → Forall (λ l, direct l = false) ls →
  factories_ (factory s) !! key = Some e →
  (∃ reg, registry_ (factory s) = Some reg ∧ Capabilities key reg = Some (entry_capabilities e)) ∧
  (isOk (Factory_UnregisterPlanner key (factory s)).1 = true ↔ activeInstances e = 0).
Proof.
  intros H Hls He. pose proof (run_registered r ls s H Hls key e He) as (Hk & Hn & reg & Hr & Hl). split.
  - exists reg. split; [done|]. unfold Capabilities. by rewrite bool_decide_eq_false_2.
  - unfold Factory_UnregisterPlanner. rewrite Hr, He, bool_decide_eq_false_2 by done.
    unfold UnregisterPlanner. rewrite bool_decide_eq_false_2, Hl by done.
    destruct (Nat.ltb_spec 0 (activeInstances e)); simpl; (split; [|done || lia]); [done|lia].
Qed.
End Factory.

(* ------------------------------------------------------------------ *)
(** ** Witnesses *)

Definition sample_planner : PlannerCapabilities := @DefaultCapabilities.

(** Two threads create a planner, one creator throws; a planner is given back. *)
Definition factory_trace : list (FactoryLabel unit) :=
  [Registers sample_planner (Some tt); CreateBegins 0 (plannerId sample_planner);
   CreateBegins 1 (plannerId sample_planner); CreateEnds 1 CreatorThrew 7;
   CreateEnds 0 (Created sample_planner) 8].

Lemma planner_factory_counts_witness :
  ∃ s, factory_run factory_trace (initial (Some ∅)) = Some s ∧
    active (plannerId sample_planner) (factory s) = 1 ∧
    isOk (Factory_UnregisterPlanner (plannerId sample_planner) (factory s)).1 = false.
Proof.
  destruct (factory_run factory_trace (initial (Some ∅))) as [s|] eqn:E; [|vm_compute in E; discriminate E].
  exists s. split; [reflexivity|].
  destruct (planner_factory_counts (Some ∅) factory_trace s E) as [Hc Hu].
  assert (Hh : held s !! 8 = Some (plannerId sample_planner)).
  { vm_compute in E. injection E as <-. reflexivity. }
  split; [vm_compute in E; injection E as <-; reflexivity|].
  destruct (isOk (Factory_UnregisterPlanner (plannerId sample_planner) (factory s)).1) eqn:Hok; [|reflexivity].
  destruct (Hu _ Hok) as [_ Hheld]. destruct (Hheld 8 Hh).
Defined.

Lemma planner_factory_registered_witness :
  ∃ s e, factory_run (factory_trace ++ [Destroys 8 (Some sample_planner)]) (initial (Some ∅)) = Some s ∧
    factories_ (factory s) !! plannerId sample_planner = Some e ∧
    isOk (Factory_UnregisterPlanner (plannerId sample_planner) (factory s)).1 = true.
Proof.
  destruct (factory_run (factory_trace ++ [Destroys 8 (Some sample_planner)]) (initial (Some ∅))) as [s|] eqn:E;
    [|vm_compute in E; discriminate E].
  exists s, (mkEntry sample_planner tt 0). split; [reflexivity|].
  assert (He : factories_ (factory s) !! plannerId sample_planner = Some (mkEntry sample_planner tt 0)).
  { vm_compute in E. injection E as <-. reflexivity. }
  split; [exact He|].
  apply (planner_factory_registered (Some ∅) (factory_trace ++ [Destroys 8 (Some sample_planner)]) s
           (plannerId sample_planner) (mkEntry sample_planner tt 0) E); [|exact He|reflexivity].
  repeat constructor.
Defined.
