(* ===== verification/Plugins.v ===== *)
(** * The registry and the factory of plugins

    plugins/src/PluginMetadata.cpp, PluginLifecycleState.cpp,
    PluginRegistry.cpp and PluginFactory.cpp, with the versions of
    common/Version.hpp.  A registry accepts plugins that are compatible with
    the version of the framework and keeps the state of each in its life
    cycle; a factory creates and destroys plugins and counts them.

    The factory and the registry have a lock each, and creators, the metadata
    of a plugin and its [Shutdown] run without: [CreatePlugin] and
    [DestroyPlugin] are sequences of transitions, whose program points are
    [PluginPc].  What a creator or a plugin does is part of the label.  A
    plugin keeps its identifier, is given back to the factory that made it, and
    no two threads destroy the same plugin.  Failures of allocation and the
    paths of manifests are left out; loading shared libraries is not part of
    the repository. *)

From S2P Require Import Prelude Status InstanceLedger.

Open Scope Z_scope.

(* ------------------------------------------------------------------ *)
(** ** Versions *)

Record SemanticVersion := mkVersion { major : Z; minor : Z; patch : Z }.

#[export] Instance SemanticVersion_eq_dec : EqDecision SemanticVersion.
Proof. solve_decision. Defined.

Definition apiVersion : SemanticVersion := mkVersion 1 0 1.

Definition Compare (lhs rhs : SemanticVersion) : Z :=
  if negb (major lhs =? major rhs) then if major lhs <? major rhs then -1 else 1
  else if negb (minor lhs =? minor rhs) then if minor lhs <? minor rhs then -1 else 1
  else if negb (patch lhs =? patch rhs) then if patch lhs <? patch rhs then -1 else 1
  else 0.

Record PluginVersionCompatibility := mkCompatibility {
  minimum_framework_version : SemanticVersion;
  maximum_framework_version : SemanticVersion;
}.

Definition Compatibility_IsCompatibleWith (c : PluginVersionCompatibility) (v : SemanticVersion) : bool :=
  (Compare (minimum_framework_version c) v <=? 0) && (Compare v (maximum_framework_version c) <=? 0).

Definition Compatibility_IsValid (c : PluginVersionCompatibility) : bool :=
  Compare (minimum_framework_version c) (maximum_framework_version c) <=? 0.

(* ------------------------------------------------------------------ *)
(** ** Metadata and life cycle *)

Record PluginMetadata := mkMetadata {
  plugin_id : string;
  plugin_name : string;
  vendor : string;
  plugin_description : string;
  plugin_version : SemanticVersion;
  compatibility : PluginVersionCompatibility;
}.

Definition Metadata_IsValid (m : PluginMetadata) : bool :=
  negb (bool_decide (plugin_id m = EmptyString)) && negb (bool_decide (plugin_name m = EmptyString)) &&
  negb (bool_decide (vendor m = EmptyString)) && Compatibility_IsValid (compatibility m).

Definition Metadata_IsCompatibleWith (m : PluginMetadata) (v : SemanticVersion) : bool :=
  Compatibility_IsCompatibleWith (compatibility m) v.

Inductive PluginLifecycleState :=
  | kDiscovered | kRegistered | kLoaded | kInitialized | kStarted | kStopped | kShutdown | kFailed.

#[export] Instance PluginLifecycleState_eq_dec : EqDecision PluginLifecycleState.
Proof. solve_decision. Defined.

Definition PluginLifecycleState_toString (s : PluginLifecycleState) : string :=
  match s with
  | kDiscovered => "discovered"
  | kRegistered => "registered"
  | kLoaded => "loaded"
  | kInitialized => "initialized"
  | kStarted => "started"
  | kStopped => "stopped"
  | kShutdown => "shutdown"
  | kFailed => "failed"
  end.

(* ------------------------------------------------------------------ *)
(** ** The registry *)

Record PluginRecord := mkRecord { record_metadata : PluginMetadata; lifecycle_state : PluginLifecycleState }.

Notation PluginRegistry := (gmap string PluginRecord).

Definition RegisterPlugin (m : PluginMetadata) (r : PluginRegistry) : Status * PluginRegistry :=
  if negb (Metadata_IsValid m) then
    (InvalidArgument "plugin metadata is incomplete or has invalid compatibility range", r)
  else if negb (Metadata_IsCompatibleWith m apiVersion) then
    (FailedPrecondition "plugin is not compatible with this framework API version", r)
  else match r !! plugin_id m with
  | Some _ => (FailedPrecondition "plugin is already registered", r)
  | None => (Ok, <[plugin_id m := mkRecord m kRegistered]> r)
  end.

Definition UnregisterPlugin (id : string) (r : PluginRegistry) : Status * PluginRegistry :=
  if bool_decide (id = EmptyString) then (InvalidArgument "plugin identifier is empty", r)
  else match r !! id with
  | None => (FailedPrecondition "plugin is not registered", r)
  | Some _ => (Ok, delete id r)
  end.

Definition SetLifecycleState (id : string) (state : PluginLifecycleState) (r : PluginRegistry) :
    Status * PluginRegistry :=
  if bool_decide (id = EmptyString) then (InvalidArgument "plugin identifier is empty", r)
  else match r !! id with
  | None => (FailedPrecondition "plugin is not registered", r)
  | Some record => (Ok, <[id := mkRecord (record_metadata record) state]> r)
  end.

Definition Contains (id : string) (r : PluginRegistry) : bool :=
  negb (bool_decide (id = EmptyString)) && bool_decide (is_Some (r !! id)).

Definition Metadata (id : string) (r : PluginRegistry) : option PluginMetadata :=
  if bool_decide (id = EmptyString) then None else record_metadata <$> r !! id.

Definition LifecycleState (id : string) (r : PluginRegistry) : option PluginLifecycleState :=
  if bool_decide (id = EmptyString) then None else lifecycle_state <$> r !! id.

(** In the order of the hash map, which is not specified. *)
Definition EnumeratePlugins (r : PluginRegistry) : list PluginRecord := (map_to_list r).*2.

Definition PluginCount (r : PluginRegistry) : Z := Z.of_nat (size r).

(** The operations of [IPluginRegistrar]. *)
Inductive RegistryOp :=
  | OpRegister (m : PluginMetadata)
  | OpUnregister (id : string)
  | OpSetState (id : string) (state : PluginLifecycleState).

Definition registry_op (op : RegistryOp) : PluginRegistry → Status * PluginRegistry :=
  match op with
  | OpRegister m => RegisterPlugin m
  | OpUnregister id => UnregisterPlugin id
  | OpSetState id state => SetLifecycleState id state
  end.

(* ------------------------------------------------------------------ *)
(** ** The factory *)

Section Factory.
Context {PluginCreator : Type}.

Record FactoryEntry := mkEntry {
  entry_metadata : PluginMetadata;
  creator : PluginCreator;
  active_instances : nat;
}.

Record PluginFactory := mkFactory {
  registry_ : option PluginRegistry;
  factories_ : gmap string FactoryEntry;
}.

Definition no_registry : Status := FailedPrecondition "plugin registry is not available".

Definition Factory_RegisterPlugin (m : PluginMetadata) (creator : option PluginCreator)
    (f : PluginFactory) : Status * PluginFactory :=
  match registry_ f, creator with
  | None, _ => (no_registry, f)
  | Some _, None => (InvalidArgument "plugin creator is empty", f)
  | Some r, Some creator =>
      if negb (Metadata_IsValid m) then
        (InvalidArgument "plugin metadata is incomplete or invalid", f)
      else match factories_ f !! plugin_id m with
      | Some _ => (FailedPrecondition "plugin creator is already registered", f)
      | None =>
          let '(registry_status, r) := RegisterPlugin m r in
          if negb (isOk registry_status) then (registry_status, mkFactory (Some r) (factories_ f))
          else (Ok, mkFactory (Some r) (<[plugin_id m := mkEntry m creator 0]> (factories_ f)))
      end
  end.

Definition Factory_UnregisterPlugin (id : string) (f : PluginFactory) : Status * PluginFactory :=
  match registry_ f with
  | None => (no_registry, f)
  | Some r =>
      if bool_decide (id = EmptyString) then (InvalidArgument "plugin identifier is empty", f)
      else match factories_ f !! id with
      | None => (FailedPrecondition "plugin creator is not registered", f)
      | Some e =>
          if (0 <? active_instances e)%nat then (FailedPrecondition "plugin instances are still active", f)
          else
            let '(registry_status, r) := UnregisterPlugin id r in
            if negb (isOk registry_status) then (registry_status, mkFactory (Some r) (factories_ f))
            else (Ok, mkFactory (Some r) (delete id (factories_ f)))
      end
  end.

Definition count_instances (g : nat → nat) (key : string) (f : PluginFactory) : PluginFactory :=
  mkFactory (registry_ f)
    (alter (λ e, mkEntry (entry_metadata e) (creator e) (g (active_instances e))) key (factories_ f)).

Definition release_active_instance (key : string) (f : PluginFactory) : PluginFactory :=
  count_instances pred key f.

(** [CreatePlugin] up to the call of the creator. *)
Definition CreatePlugin_begin (id : string) (f : PluginFactory) : (Status + PluginCreator) * PluginFactory :=
  match registry_ f with
  | None => (inl no_registry, f)
  | Some _ =>
      if bool_decide (id = EmptyString) then (inl (InvalidArgument "plugin identifier is empty"), f)
      else match factories_ f !! id with
      | None => (inl (FailedPrecondition "plugin creator is not registered"), f)
      | Some e => (inr (creator e), count_instances S id f)
      end
  end.

(** What the creator does: a plugin has the identifier of its metadata. *)
Inductive Creation := CreatorThrew | CreatorNull | Created (id : string).

Definition creation_error (key : string) (c : Creation) : option string :=
  match c with
  | CreatorThrew => Some "plugin creator threw an exception"%string
  | CreatorNull => Some "plugin creator returned null"%string
  | Created id =>
      if bool_decide (id = key) then None
      else Some "created plugin metadata does not match requested identifier"%string
  end.

(** [registry_->SetLifecycleState(key, state)] *)
Definition set_state (key : string) (state : PluginLifecycleState) (f : PluginFactory) :
    Status * PluginFactory :=
  match registry_ f with
  | None => (no_registry, f)
  | Some r => let '(st, r) := SetLifecycleState key state r in (st, mkFactory (Some r) (factories_ f))
  end.

(** [DestroyPlugin] up to the call of [Shutdown]. *)
Definition DestroyPlugin_begin (plugin : option string) (f : PluginFactory) : option Status :=
  match registry_ f, plugin with
  | None, _ => Some no_registry
  | Some _, None => Some (InvalidArgument "plugin instance is null")
  | Some _, Some id =>
      if bool_decide (id = EmptyString) then Some (InvalidArgument "plugin identifier is empty")
      else match factories_ f !! id with
      | None => Some (FailedPrecondition "plugin instance is not tracked by this factory")
      | Some e =>
          if (active_instances e =? 0)%nat then
            Some (FailedPrecondition "plugin instance is not tracked by this factory")
          else None
      end
  end.

Definition RegisteredPluginCount (f : PluginFactory) : Z := Z.of_nat (size (factories_ f)).

(* ------------------------------------------------------------------ *)
(** ** Threads *)

Inductive PluginPc :=
  | Creating (key : string)
  | CreationFailed (key message : string)
  | CreationDone (key : string)
  | CreationRefused (key : string) (st : Status)
  | ShuttingDown (key : string) (plugin : nat)
  | ShutdownFailed (key : string) (plugin : nat) (st : Status)
  | ShutDown (key : string).

(** The factory, the threads inside it, and the plugins that clients hold. *)
Record PluginsState := mkState {
  factory : PluginFactory;
  threads : gmap nat PluginPc;
  held : gmap nat string;
}.

#[local] Instance eta_PluginsState : EtaRecord PluginsState := fun s =>
  mkState (factory s) (threads s) (held s).

Inductive PluginLabel :=
  | Registers (m : PluginMetadata) (creator : option PluginCreator)
  | Unregisters (id : string)
  | CreateBegins (thread : nat) (id : string)
  | CreatorReturns (thread : nat) (c : Creation)
  | CreateEnds (thread plugin : nat)
  | DestroyBegins (thread plugin : nat)
  | ShutdownReturns (thread : nat) (st : Status)
  | DestroyEnds (thread : nat)
  | RegistryCall (op : RegistryOp).

Definition at_pc (thread : nat) (pc : PluginPc) (s : PluginsState) : PluginsState :=
  s <| threads := <[thread := pc]> (threads s) |>.

Definition leaves (thread : nat) (s : PluginsState) : PluginsState :=
  s <| threads := delete thread (threads s) |>.

(** The status a call answers when it ends with the transition. *)
Definition plugins_exec (l : PluginLabel) (s : PluginsState) : option (option Status * PluginsState) :=
  match l with
  | Registers m creator =>
      let '(st, f) := Factory_RegisterPlugin m creator (factory s) in Some (Some st, s <| factory := f |>)
  | Unregisters id =>
      let '(st, f) := Factory_UnregisterPlugin id (factory s) in Some (Some st, s <| factory := f |>)
  | CreateBegins thread id =>
      match threads s !! thread with
      | Some _ => None
      | None =>
          match CreatePlugin_begin id (factory s) with
          | (inl st, f) => Some (Some st, s <| factory := f |>)
          | (inr _, f) => Some (None, at_pc thread (Creating id) (s <| factory := f |>))
          end
      end
  | CreatorReturns thread c =>
      match threads s !! thread with
      | Some (Creating key) =>
          match creation_error key c with
          | Some message =>
              Some (None, at_pc thread (CreationFailed key message)
                            (s <| factory := release_active_instance key (factory s) |>))
          | None => Some (None, at_pc thread (CreationDone key) s)
          end
      | _ => None
      end
  | CreateEnds thread plugin =>
      match threads s !! thread with
      | Some (CreationFailed key message) =>
          let '(_, f) := set_state key kFailed (factory s) in
          Some (Some (InternalError message), leaves thread (s <| factory := f |>))
      | Some (CreationDone key) =>
          let '(st, f) := set_state key kLoaded (factory s) in
          let s := s <| factory := f |> in
          if negb (isOk st) then Some (None, at_pc thread (CreationRefused key st) s)
          else match held s !! plugin with
          | Some _ => None
          | None => Some (Some st, leaves thread (s <| held := <[plugin := key]> (held s) |>))
          end
      | Some (CreationRefused key st) =>
          Some (Some st, leaves thread (s <| factory := release_active_instance key (factory s) |>))
      | _ => None
      end
  | DestroyBegins thread plugin =>
      match threads s !! thread, held s !! plugin with
      | None, Some key =>
          match DestroyPlugin_begin (Some key) (factory s) with
          | Some st => Some (Some st, s)
          | None =>
              Some (None, at_pc thread (ShuttingDown key plugin) (s <| held := delete plugin (held s) |>))
          end
      | _, _ => None
      end
  | ShutdownReturns thread st =>
      match threads s !! thread with
      | Some (ShuttingDown key plugin) =>
          if negb (isOk st) then Some (None, at_pc thread (ShutdownFailed key plugin st) s)
          else Some (None, at_pc thread (ShutDown key)
                             (s <| factory := release_active_instance key (factory s) |>))
      | _ => None
      end
  | DestroyEnds thread =>
      match threads s !! thread with
      | Some (ShutdownFailed key plugin st) =>
          let '(_, f) := set_state key kFailed (factory s) in
          match held s !! plugin with
          | Some _ => None
          | None =>
              Some (Some st, leaves thread (s <| factory := f |> <| held := <[plugin := key]> (held s) |>))
          end
      | Some (ShutDown key) =>
          let '(st, f) := set_state key kShutdown (factory s) in
          Some (Some st, leaves thread (s <| factory := f |>))
      | _ => None
      end
  | RegistryCall op =>
      match registry_ (factory s) with
      | None => None
      | Some r =>
          let '(st, r) := registry_op op r in
          Some (Some st, s <| factory := mkFactory (Some r) (factories_ (factory s)) |>)
      end
  end.

Fixpoint plugins_run (ls : list PluginLabel) (s : PluginsState) : option PluginsState :=
  match ls with
  | [] => Some s
  | l :: ls => '(_, s) ← plugins_exec l s; plugins_run ls s
  end.

Definition initial (registry : option PluginRegistry) : PluginsState :=
  mkState (mkFactory registry ∅) ∅ ∅.
End Factory.
Arguments FactoryEntry : clear implicits.
Arguments PluginFactory : clear implicits.
Arguments PluginsState : clear implicits.
Arguments PluginLabel : clear implicits.
