(* ===== verification/PluginProofs.v ===== *)
(** * What plugin hosts can rely on

    The registry holds only plugins that are compatible with the framework;
    the factory counts the plugins that threads create, shut down or hold, and
    forgets a creator only when there are none; and the states it leaves in
    the registry. *)

From S2P Require Import Prelude Status InstanceLedger Plugins.

Open Scope Z_scope.

(* ------------------------------------------------------------------ *)
(** ** Versions *)

(** Versions are compared by major, minor and patch number. *)
Definition version_le (v w : SemanticVersion) : Prop :=
  major v < major w ∨
  major v = major w ∧ (minor v < minor w ∨ minor v = minor w ∧ patch v <= patch w).

Lemma Compare_le v w : (Compare v w <=? 0) = true ↔ version_le v w.
Proof.
  unfold Compare, version_le. rewrite Z.leb_le.
  destruct (Z.eqb_spec (major v) (major w)), (Z.ltb_spec (major v) (major w)),
    (Z.eqb_spec (minor v) (minor w)), (Z.ltb_spec (minor v) (minor w)),
    (Z.eqb_spec (patch v) (patch w)), (Z.ltb_spec (patch v) (patch w)); simpl; lia.
Qed.

#[export] Instance version_le_preorder : PreOrder version_le.
Proof.
  split; unfold version_le; [intros v; lia|intros u v w; lia].
Qed.

(** A plugin that may be registered. *)
Definition compatible (m : PluginMetadata) : Prop :=
  plugin_id m ≠ EmptyString ∧ plugin_name m ≠ EmptyString ∧ vendor m ≠ EmptyString ∧
  version_le (minimum_framework_version (compatibility m)) apiVersion ∧
  version_le apiVersion (maximum_framework_version (compatibility m)).

Lemma compatible_exact m :
  Metadata_IsValid m && Metadata_IsCompatibleWith m apiVersion = true ↔ compatible m.
Proof.
  unfold Metadata_IsValid, Metadata_IsCompatibleWith, Compatibility_IsCompatibleWith, Compatibility_IsValid, compatible.
  rewrite !andb_true_iff, !negb_true_iff, !bool_decide_eq_false, !Compare_le.
  split; [tauto|]. intros (H1 & H2 & H3 & H4 & H5). split_and!; try done. by transitivity apiVersion.
Qed.

(* ------------------------------------------------------------------ *)
(** ** The registry *)

Definition registry_ok (r : PluginRegistry) : Prop :=
  map_Forall (λ id record, plugin_id (record_metadata record) = id ∧ compatible (record_metadata record)) r.


Lemma RegisterPlugin_ok m r :
  registry_ok r →
  registry_ok (RegisterPlugin m r).2 ∧
  (isOk (RegisterPlugin m r).1 = true ↔ compatible m ∧ r !! plugin_id m = None).
Proof.
  intros Hr. pose proof (compatible_exact m) as Hc. unfold RegisterPlugin.
  destruct (Metadata_IsValid m); simpl in *; [|naive_solver].
  destruct (Metadata_IsCompatibleWith m apiVersion); simpl in *; [|naive_solver].
  destruct (r !! plugin_id m) eqn:E; simpl; [naive_solver|]. split; [|naive_solver].
  apply map_Forall_insert_2; [|done]. split; [done|]. by apply Hc.
Qed.

Lemma registry_op_ok op r : registry_ok r → registry_ok (registry_op op r).2.
Proof.
  intros Hr. destruct op as [m|id|id st]; simpl; [by apply RegisterPlugin_ok|..].
  - unfold UnregisterPlugin. case_bool_decide; [done|]. destruct (r !! id); [|done].
    by apply map_Forall_delete.
  - unfold SetLifecycleState. case_bool_decide; [done|]. destruct (r !! id) eqn:E; [|done].
    apply map_Forall_insert_2; [|done]. by apply (map_Forall_lookup_1 _ _ _ _ Hr) in E.
Qed.

(* ------------------------------------------------------------------ *)
(** ** Counts *)

Open Scope nat_scope.

Section Factory.
Context {PluginCreator : Type}.
#[local] Notation PluginFactory := (PluginFactory PluginCreator).
#[local] Notation PluginsState := (PluginsState PluginCreator).
#[local] Notation PluginLabel := (PluginLabel PluginCreator).

Definition active_plugins (key : string) (f : PluginFactory) : nat :=
  match factories_ f !! key with Some e => active_instances e | None => 0 end.

Lemma count_plugins_active g key key' f :
  g 0 = 0 ∨ is_Some (factories_ f !! key) →
  active_plugins key' (count_instances g key f) =
    if decide (key' = key) then g (active_plugins key f) else active_plugins key' f.
Proof.
  unfold active_plugins, count_instances. simpl. intros Hg. destruct (decide (key' = key)) as [->|Hne].
  - rewrite lookup_alter_eq. destruct (factories_ f !! key); simpl; [done|]. by destruct Hg as [->|[? ?]].
  - by rewrite lookup_alter_ne.
Qed.

#[export] Instance plugin_counter : InstanceCounter PluginFactory := {|
  knows key f := is_Some (factories_ f !! key);
  active := active_plugins;
  recount := count_instances;
  active_recount := count_plugins_active;
|}.

Lemma acquire_plugin id key f :
  is_Some (factories_ f !! id) → active key (count_instances S id f) = active key f + one key id.
Proof. exact (active_acquire id key f). Qed.

Lemma release_plugin id key f :
  0 < active id f → active key f = active key (release_active_instance id f) + one key id.
Proof. exact (active_release id key f). Qed.

Lemma plugins_Register m creator key f : active key (Factory_RegisterPlugin m creator f).2 = active key f.
Proof.
  unfold Factory_RegisterPlugin. simpl. unfold active_plugins. destruct (registry_ f) as [r|]; [|done].
  destruct creator; [|done]. destruct (negb _); [done|].
  destruct (factories_ f !! plugin_id m) eqn:E; [done|]. destruct (RegisterPlugin m r) as [st r'].
  destruct (negb (isOk st)); [done|]. simpl. destruct (decide (plugin_id m = key)) as [<-|Hne].
  - by rewrite lookup_insert_eq, E.
  - by rewrite lookup_insert_ne.
Qed.

Lemma plugins_Unregister id key f :
  active key (Factory_UnregisterPlugin id f).2 = active key f ∧
  (isOk (Factory_UnregisterPlugin id f).1 = true → active id f = 0).
Proof.
  unfold Factory_UnregisterPlugin. simpl. unfold active_plugins. destruct (registry_ f) as [r|]; [|done].
  case_bool_decide; [done|]. destruct (factories_ f !! id) as [e|] eqn:E; [|done].
  destruct (Nat.ltb_spec 0 (active_instances e)); [done|]. destruct (UnregisterPlugin id r) as [st r'].
  destruct (negb (isOk st)); (split; [|lia]); [done|]. simpl. destruct (decide (id = key)) as [<-|Hne].
  - rewrite lookup_delete_eq, E. lia.
  - by rewrite lookup_delete_ne.
Qed.

Lemma plugins_Create_begin id key f :
  active key (CreatePlugin_begin id f).2 =
    active key f + if (CreatePlugin_begin id f).1 is inr _ then one key id else 0.
Proof.
  unfold CreatePlugin_begin. destruct (registry_ f); [|simpl; lia]. case_bool_decide; [simpl; lia|].
  destruct (factories_ f !! id) as [e|] eqn:E; [|simpl; lia].
  cbn [fst snd]. by apply acquire_plugin.
Qed.

Lemma set_state_active key st f key' : active key' (set_state key st f).2 = active key' f.
Proof.
  unfold set_state. destruct (registry_ f) as [r|]; [|done].
  by destruct (SetLifecycleState key st r).
Qed.

(** The plugin that the program point of a thread stands for. *)
Definition pc_plugin (pc : PluginPc) : option string :=
  match pc with
  | Creating key | CreationDone key | CreationRefused key _ | ShuttingDown key _
  | ShutdownFailed key _ _ => Some key
  | CreationFailed _ _ | ShutDown _ => None
  end.

Definition plugins_counted (s : PluginsState) : Prop :=
  ∀ key, active key (factory s) = tracked pc_plugin key (threads s) + holders key (held s).

#[local] Arguments set_state : simpl never.
#[local] Arguments CreatePlugin_begin : simpl never.

(** The thread of a transition moves to [pc], or leaves. *)
Lemma tracked_moves key thread pc pc' (ts : gmap nat PluginPc) :
  ts !! thread = Some pc →
  tracked pc_plugin key (<[thread := pc']> ts) + weight pc_plugin key pc =
    tracked pc_plugin key ts + weight pc_plugin key pc' ∧
  tracked pc_plugin key (delete thread ts) + weight pc_plugin key pc = tracked pc_plugin key ts.
Proof.
  intros Hpc. pose proof (tracked_insert pc_plugin key thread pc' ts) as H1.
  pose proof (tracked_delete pc_plugin key thread ts) as H2.
  unfold weight_at in *. rewrite Hpc in *. by split.
Qed.

(** A thread that stands for a plugin keeps its count positive. *)
Lemma tracked_active s key thread pc :
  plugins_counted s → threads s !! thread = Some pc → pc_plugin pc = Some key → 0 < active key (factory s).
Proof.
  intros Hs Hpc Hk. rewrite (Hs key). destruct (tracked_moves key thread pc pc _ Hpc) as [_ H].
  unfold weight in H. rewrite Hk, one_same in H. lia.
Qed.

(** The counts after the thread moved to [pc] or left. *)
Ltac by_move Hmove Et pc :=
  let H := fresh in let H' := fresh in
  destruct (Hmove _ _ pc _ Et) as [H H']; unfold weight in H, H'; simpl in H, H'; lia.

Lemma plugins_exec_counted l s st s' : plugins_exec l s = Some (st, s') → plugins_counted s → plugins_counted s'.
Proof.
  intros E Hs key. pose proof (Hs key) as Hk.
  assert (Hpos := tracked_active s). assert (Hmove := tracked_moves key).
  destruct l as [m creator|id|t id|t c|t p|t p|t st0|t|op]; simpl in E.
  - pose proof (plugins_Register m creator key (factory s)) as H.
    destruct (Factory_RegisterPlugin _ _ _) as [x f]. simplify_eq/=. lia.
  - pose proof (plugins_Unregister id key (factory s)) as [H _].
    destruct (Factory_UnregisterPlugin _ _) as [x f]. simplify_eq/=. lia.
  - destruct (threads s !! t) eqn:Et; [done|].
    pose proof (plugins_Create_begin id key (factory s)) as H.
    pose proof (tracked_insert pc_plugin key t (Creating id) (threads s)) as Hi.
    unfold weight_at in Hi. rewrite Et in Hi.
    destruct (CreatePlugin_begin _ _) as [[x|x] f]; simplify_eq/=; [lia|].
    unfold weight in Hi. simpl in Hi. lia.
  - destruct (threads s !! t) as [[id| | | | | |]|] eqn:Et; try done.
    specialize (Hpos id t _ Hs Et eq_refl). pose proof (release_plugin id key _ Hpos) as Hr.
    destruct (creation_error id c) as [message|]; simplify_eq/=.
    + by_move Hmove Et (CreationFailed id message).
    + by_move Hmove Et (CreationDone id).
  - destruct (threads s !! t) as [[|id message|id|id st0| | |]|] eqn:Et; try done.
    + pose proof (set_state_active id kFailed (factory s) key) as H.
      destruct (set_state _ _ _) as [x f]. simplify_eq/=.
      by_move Hmove Et (ShutDown id).
    + pose proof (set_state_active id kLoaded (factory s) key) as H.
      destruct (set_state _ _ _) as [x f]. simpl in *.
      destruct (isOk x); simpl in E.
      * destruct (held s !! p) eqn:Eh; [done|]. simplify_eq/=. rewrite holders_insert by done.
        by_move Hmove Et (ShutDown id).
      * simplify_eq/=. by_move Hmove Et (CreationRefused id x).
    + specialize (Hpos id t _ Hs Et eq_refl). pose proof (release_plugin id key _ Hpos) as Hr. simplify_eq/=.
      by_move Hmove Et (ShutDown id).
  - destruct (threads s !! t) eqn:Et; [done|]. destruct (held s !! p) as [id|] eqn:Eh; [|done].
    destruct (DestroyPlugin_begin _ _) as [x|]; simplify_eq/=; [lia|].
    pose proof (holders_delete key _ _ _ Eh) as Hd.
    pose proof (tracked_insert pc_plugin key t (ShuttingDown id p) (threads s)) as Hi.
    unfold weight_at, weight in Hi. rewrite Et in Hi. simpl in Hi. lia.
  - destruct (threads s !! t) as [[| | | |id p| |]|] eqn:Et; try done.
    specialize (Hpos id t _ Hs Et eq_refl). pose proof (release_plugin id key _ Hpos) as Hr.
    destruct (isOk st0); simplify_eq/=.
    + by_move Hmove Et (ShutDown id).
    + by_move Hmove Et (ShutdownFailed id p st0).
  - destruct (threads s !! t) as [[| | | | |id p st0|id]|] eqn:Et; try done.
    + pose proof (set_state_active id kFailed (factory s) key) as H.
      destruct (set_state _ _ _) as [x f]. destruct (held s !! p) eqn:Eh; [done|]. simplify_eq/=.
      rewrite holders_insert by done.
      by_move Hmove Et (ShutDown id).
    + pose proof (set_state_active id kShutdown (factory s) key) as H.
      destruct (set_state _ _ _) as [x f]. simplify_eq/=.
      by_move Hmove Et (ShutDown id).
  - destruct (registry_ (factory s)) as [r|]; [|done]. destruct (registry_op op r). by simplify_eq/=.
Qed.

Lemma plugins_run_invariant (P : PluginsState → Prop) ls :
  (∀ l s st s', plugins_exec l s = Some (st, s') → P s → P s') →
  ∀ s s', plugins_run ls s = Some s' → P s → P s'.
Proof.
  intros Hstep. induction ls as [|l ls IH]; intros s s' H Hs; simpl in H; [by simplify_eq|].
  destruct (plugins_exec l s) as [[st s1]|] eqn:E; [|done]. simpl in H. eauto.
Qed.

Lemma run_plugins_counted r ls s : plugins_run ls (initial r) = Some s → plugins_counted s.
Proof.
  intros H. eapply (plugins_run_invariant plugins_counted); [apply plugins_exec_counted|done|].
  intros key. simpl. by rewrite tracked_empty, holders_empty.
Qed.

(* ------------------------------------------------------------------ *)
(** ** The registry of the factory *)

Definition factory_registry_ok (f : PluginFactory) : Prop :=
  ∀ r, registry_ f = Some r → registry_ok r.

Lemma Factory_RegisterPlugin_registry m creator f :
  factory_registry_ok f → factory_registry_ok (Factory_RegisterPlugin m creator f).2.
Proof.
  unfold Factory_RegisterPlugin. intros Hf. destruct (registry_ f) as [r|] eqn:Er; [|done].
  destruct creator; [|done]. destruct (negb _); [done|]. destruct (factories_ f !! plugin_id m); [done|].
  pose proof (registry_op_ok (OpRegister m) r (Hf r Er)) as H. simpl in H.
  destruct (RegisterPlugin m r) as [st r']. destruct (negb _); intros ? [= <-]; exact H.
Qed.

Lemma Factory_UnregisterPlugin_registry id f :
  factory_registry_ok f → factory_registry_ok (Factory_UnregisterPlugin id f).2.
Proof.
  unfold Factory_UnregisterPlugin. intros Hf. destruct (registry_ f) as [r|] eqn:Er; [|done].
  case_bool_decide; [done|]. destruct (factories_ f !! id) as [e|]; [|done]. destruct (0 <? _); [done|].
  pose proof (registry_op_ok (OpUnregister id) r (Hf r Er)) as H'. simpl in H'.
  destruct (UnregisterPlugin id r) as [st r']. destruct (negb _); intros ? [= <-]; exact H'.
Qed.

Lemma set_state_registry key st f : factory_registry_ok f → factory_registry_ok (set_state key st f).2.
Proof.
  unfold set_state. intros Hf. destruct (registry_ f) as [r|] eqn:Er; [|done].
  pose proof (registry_op_ok (OpSetState key st) r (Hf r Er)) as H. simpl in H.
  destruct (SetLifecycleState key st r) as [x r']. intros ? [= <-]. exact H.
Qed.

Lemma CreatePlugin_begin_registry id (f : PluginFactory) : registry_ (CreatePlugin_begin id f).2 = registry_ f.
Proof.
  unfold CreatePlugin_begin. destruct (registry_ f) eqn:Er; [|done]. case_bool_decide; [done|].
  by destruct (factories_ f !! id).
Qed.

Lemma plugins_exec_registry l s st s' :
  plugins_exec l s = Some (st, s') → factory_registry_ok (factory s) → factory_registry_ok (factory s').
Proof.
  intros E Hs. assert (Hset := λ key x, set_state_registry key x _ Hs).
  destruct l as [m creator|id|t id|t c|t p|t p|t st0|t|op]; simpl in E.
  - pose proof (Factory_RegisterPlugin_registry m creator _ Hs) as H.
    destruct (Factory_RegisterPlugin _ _ _). by simplify_eq/=.
  - pose proof (Factory_UnregisterPlugin_registry id _ Hs) as H.
    destruct (Factory_UnregisterPlugin _ _). by simplify_eq/=.
  - destruct (threads s !! t); [done|]. pose proof (CreatePlugin_begin_registry id (factory s)) as H.
    intros r Hr. apply Hs. rewrite <-H. destruct (CreatePlugin_begin _ _) as [[x|x] f]; by simplify_eq/=.
  - destruct (threads s !! t) as [[]|]; try done. destruct (creation_error _ _); by simplify_eq/=.
  - destruct (threads s !! t) as [[|id message|id|id st0| | |]|]; try done.
    + specialize (Hset id kFailed). destruct (set_state _ _ _). by simplify_eq/=.
    + specialize (Hset id kLoaded). destruct (set_state _ _ _) as [x f]. simpl in *.
      destruct (isOk x); simpl in E; [destruct (held s !! p); [done|]|]; by simplify_eq/=.
    + by simplify_eq/=.
  - destruct (threads s !! t); [done|]. destruct (held s !! p); [|done].
    destruct (DestroyPlugin_begin _ _); by simplify_eq/=.
  - destruct (threads s !! t) as [[]|]; try done. destruct (isOk st0); by simplify_eq/=.
  - destruct (threads s !! t) as [[| | | | |id p st0|id]|]; try done.
    + specialize (Hset id kFailed). destruct (set_state _ _ _). destruct (held s !! p); [done|]. by simplify_eq/=.
    + specialize (Hset id kShutdown). destruct (set_state _ _ _). by simplify_eq/=.
  - destruct (registry_ (factory s)) as [r|] eqn:Er; [|done].
    pose proof (registry_op_ok op r (Hs r Er)) as H. destruct (registry_op op r) as [x r'].
    simplify_eq/=. intros ? [= <-]. exact H.
Qed.

Lemma run_registry_ok r ls (s : PluginsState) :
  registry_ok r → plugins_run ls (initial (Some r)) = Some s → factory_registry_ok (factory s).
Proof.
  intros Hr H. eapply (plugins_run_invariant (λ s, factory_registry_ok (factory s)));
    [apply plugins_exec_registry|done|]. by intros ? [= <-].
Qed.

(* ------------------------------------------------------------------ *)
(** ** Theorems *)

(** C15: Under any interleaving of threads that register, create and destroy
    plugins and of direct calls of the registry, the factory counts for each
    identifier exactly the plugins that threads create or shut down and those
    that clients hold. A creator is forgotten only when there are none. *)
Theorem plugin_factory_counts r ls (s : PluginsState) :
  plugins_run ls (initial r) = Some s →
  (∀ key, active key (factory s) = tracked pc_plugin key (threads s) + holders key (held s)) ∧
  ∀ key, isOk (Factory_UnregisterPlugin key (factory s)).1 = true →
    (∀ thread pc, threads s !! thread = Some pc → pc_plugin pc ≠ Some key) ∧
    ∀ plugin, held s !! plugin ≠ Some key.
Proof.
  intros H%run_plugins_counted. split; [exact H|]. intros key Hok.
  destruct (plugins_Unregister key key (factory s)) as [_ H0]. specialize (H0 Hok). rewrite H in H0.
  split; [apply tracked_0|apply holders_0]; lia.
Qed.

(** The registry never holds a plugin that is incomplete or whose range
    of framework versions does not contain the version of the framework, and
    holds each under its identifier, whatever the factory and direct calls do;
    and it accepts every other plugin whose identifier is free. *)
Theorem plugin_registry_compatible r ls (s : PluginsState) :
  registry_ok r → plugins_run ls (initial (Some r)) = Some s →
  ∀ reg, registry_ (factory s) = Some reg →
    (∀ id m, Metadata id reg = Some m → plugin_id m = id ∧ compatible m) ∧
    ∀ m, isOk (RegisterPlugin m reg).1 = true ↔ compatible m ∧ Contains (plugin_id m) reg = false.
Proof.
  intros Hr H reg Hreg. pose proof (run_registry_ok r ls s Hr H reg Hreg) as Hok. split.
  - intros id m. unfold Metadata. case_bool_decide; [done|].
    destruct (reg !! id) as [x|] eqn:E; [|done]. intros [= <-]. by apply (map_Forall_lookup_1 _ _ _ _ Hok) in E.
  - intros m. destruct (RegisterPlugin_ok m reg Hok) as [_ Hm]. rewrite Hm. unfold Contains, compatible.
    rewrite andb_false_iff, negb_false_iff, bool_decide_eq_true, bool_decide_eq_false, <-eq_None_not_Some.
    tauto.
Qed.
End Factory.

(* ------------------------------------------------------------------ *)
(** ** Witnesses *)

Definition sample_plugin : PluginMetadata :=
  mkMetadata "arm" "Arm" "vendor" "" (mkVersion 2 0 0) (mkCompatibility (mkVersion 1 0 0) (mkVersion 1 9 9)).

(** Two threads create a plugin, one gets none; the other one is destroyed,
    but its [Shutdown] fails. *)
Definition plugins_trace : list (PluginLabel unit) :=
  [Registers sample_plugin (Some tt); CreateBegins 0 "arm"; CreateBegins 1 "arm"; CreatorReturns 1 CreatorNull;
   CreatorReturns 0 (Created "arm"); CreateEnds 0 8; CreateEnds 1 9; DestroyBegins 2 8;
   ShutdownReturns 2 (InternalError "stuck"); DestroyEnds 2].

Lemma plugin_factory_counts_witness :
  ∃ s, plugins_run plugins_trace (initial (Some ∅)) = Some s ∧ active "arm" (factory s) = 1 ∧
    isOk (Factory_UnregisterPlugin "arm" (factory s)).1 = false.
Proof.
  destruct (plugins_run plugins_trace (initial (Some ∅))) as [s|] eqn:E; [|vm_compute in E; discriminate E].
  exists s. split; [reflexivity|].
  destruct (plugin_factory_counts (Some ∅) plugins_trace s E) as [_ Hu].
  assert (Hh : held s !! 8 = Some "arm"%string). { vm_compute in E. injection E as <-. reflexivity. }
  split; [vm_compute in E; injection E as <-; reflexivity|].
  destruct (isOk (Factory_UnregisterPlugin "arm" (factory s)).1) eqn:Hok; [|reflexivity].
  destruct (Hu _ Hok) as [_ Hheld]. destruct (Hheld 8 Hh).
Defined.

Lemma plugin_registry_compatible_witness :
  ∃ s reg, plugins_run plugins_trace (initial (Some ∅)) = Some s ∧ registry_ (factory s) = Some reg ∧
    compatible sample_plugin ∧ LifecycleState "arm" reg = Some kFailed.
Proof.
  destruct (plugins_run plugins_trace (initial (Some ∅))) as [s|] eqn:E; [|vm_compute in E; discriminate E].
  destruct (registry_ (factory s)) as [reg|] eqn:Er; [|vm_compute in E; injection E as <-; discriminate Er].
  exists s, reg. split; [reflexivity|]. split; [exact Er|].
  assert (Hm : Metadata "arm" reg = Some sample_plugin ∧ LifecycleState "arm" reg = Some kFailed).
  { vm_compute in E. injection E as <-. vm_compute in Er. injection Er as <-. split; reflexivity. }
  split; [|apply Hm]. destruct Hm as [Hm _].
  apply (plugin_registry_compatible ∅ plugins_trace s (map_Forall_empty _) E reg Er) in Hm. apply Hm.
Defined.

(** A plugin that is unregistered between the last two steps of
    [DestroyPlugin] is destroyed, and the call answers an error. *)
Example destroyed_with_error :
  ∃ s st s', plugins_run
    [Registers sample_plugin (Some tt); CreateBegins 0 "arm"; CreatorReturns 0 (Created "arm"); CreateEnds 0 8;
     DestroyBegins 0 8; ShutdownReturns 0 Ok; Unregisters "arm"] (initial (Some ∅)) = Some s ∧
    plugins_exec (DestroyEnds 0) s = Some (Some st, s') ∧ isOk st = false ∧ held s' !! 8 = None.
Proof. do 3 eexists. split_and!; vm_compute; reflexivity. Qed.

