(* ===== verification/Sensors.v ===== *)
(** * Sensors, frames and their states

    The values of include/humanoid/perception: SensorType.h, SensorFrame.h,
    SensorCapabilities.h, SensorState.h, Sensor.h, and the registry of sensor
    creators of SensorFactory.h.  Time is the steady clock in nanoseconds; its
    epoch stands for a time that is not known. *)

From Stdlib Require Import SpecFloat Init.Byte.
From S2P Require Import Prelude Command Status.

Open Scope Z_scope.

Inductive SensorType :=
  | SensorCamera | SensorDepthCamera | SensorLidar | SensorMicrophone | SensorImu | SensorRadar
  | SensorCustom | SensorTypeRaw (value : Z).

#[export] Instance SensorType_eq_dec : EqDecision SensorType.
Proof. solve_decision. Defined.

Definition SensorType_toString (t : SensorType) : string :=
  match t with
  | SensorCamera => "Camera"
  | SensorDepthCamera => "DepthCamera"
  | SensorLidar => "Lidar"
  | SensorMicrophone => "Microphone"
  | SensorImu => "Imu"
  | SensorRadar => "Radar"
  | SensorCustom => "Custom"
  | SensorTypeRaw _ => "Unknown"
  end.

(** [std::variant<bool, std::int64_t, double, std::string>], as in payloads. *)
Definition SensorFrameMetadataValue : Type := CommandPayloadValue.

Record SensorFrame := mkFrame {
  frame_id : Z;
  sensorType : SensorType;
  frame_timestamp : Z;
  width : Z;
  height : Z;
  channels : Z;
  bytesPerElement : Z;
  encoding : string;
  data : list byte;
  frame_metadata : gmap string SensorFrameMetadataValue;
}.

#[export] Instance eta_SensorFrame : EtaRecord SensorFrame := fun f =>
  mkFrame (frame_id f) (sensorType f) (frame_timestamp f) (width f) (height f) (channels f)
    (bytesPerElement f) (encoding f) (data f) (frame_metadata f).

Definition default_SensorFrame : SensorFrame := mkFrame 0 SensorCustom 0 0 0 0 0 "" [] ∅.

Definition hasIdentity (f : SensorFrame) : bool := negb (frame_id f =? 0).
Definition frame_empty (f : SensorFrame) : bool := bool_decide (data f = []).
Definition sizeBytes (f : SensorFrame) : Z := Z.of_nat (length (data f)).
Definition hasDimensions (f : SensorFrame) : bool := negb (width f =? 0) && negb (height f =? 0).

Record SensorFrameResult := mkFrameResult { read_status : Status; read_frame : SensorFrame }.

Record SensorCapabilities := mkSensorCapabilities {
  sensorId : string;
  sensor_name : string;
  sensor_type : SensorType;
  supportedEncodings : list string;
  maximumWidth : Z;
  maximumHeight : Z;
  maximumFrameRateHz : spec_float;
  supportsHardwareTimestamp : bool;
  supportsStartStop : bool;
  supportsStreaming : bool;
  supportsConfiguration : bool;
  nominalReadTimeout : Z;
}.

Definition SensorCapabilities_isValid (c : SensorCapabilities) : bool :=
  negb (bool_decide (sensorId c = "")) && negb (bool_decide (sensor_name c = "")).

Inductive SensorLifecycleState :=
  | SensorUninitialized | SensorInitialized | SensorRunning | SensorStopped | SensorShutdown
  | SensorFaulted.

#[export] Instance SensorLifecycleState_eq_dec : EqDecision SensorLifecycleState.
Proof. solve_decision. Defined.

Inductive SensorHealthStatus :=
  | HealthUnknown | HealthHealthy | HealthDegraded | HealthFaulted | HealthUnavailable.

#[export] Instance SensorHealthStatus_eq_dec : EqDecision SensorHealthStatus.
Proof. solve_decision. Defined.

Record SensorHealth := mkHealth {
  health_status : SensorHealthStatus;
  diagnosticCode : string;
  health_message : string;
  health_timestamp : Z;
}.

Definition default_SensorHealth : SensorHealth := mkHealth HealthUnknown "" "" 0.

Definition isUsable (h : SensorHealth) : bool :=
  bool_decide (health_status h = HealthHealthy) || bool_decide (health_status h = HealthDegraded).

Record SensorState := mkSensorState {
  lifecycle : SensorLifecycleState;
  sensor_health : SensorHealth;
  framesProduced : Z;
  frameErrors : Z;
  state_timestamp : Z;
}.

#[export] Instance eta_SensorState : EtaRecord SensorState := fun s =>
  mkSensorState (lifecycle s) (sensor_health s) (framesProduced s) (frameErrors s) (state_timestamp s).

Definition default_SensorState : SensorState :=
  mkSensorState SensorUninitialized default_SensorHealth 0 0 0.

Definition isRunning (s : SensorState) : bool := bool_decide (lifecycle s = SensorRunning).

Definition Unavailable (message : string) : Status := error kUnavailable message.

(* ------------------------------------------------------------------ *)
(** ** The registry of creators *)

Section Factory.
Context {SensorCreator : Type}.

Record SensorFactoryEntry := mkSensorFactoryEntry {
  factory_capabilities : SensorCapabilities;
  sensor_creator : SensorCreator;
}.

Notation SensorFactory := (gmap string SensorFactoryEntry).

Definition Factory_RegisterSensor (c : SensorCapabilities) (creator : option SensorCreator)
    (f : SensorFactory) : Status * SensorFactory :=
  if negb (SensorCapabilities_isValid c) then
    (InvalidArgument "sensor capabilities require non-empty sensor id and name", f)
  else match creator with
  | None => (InvalidArgument "sensor creator is empty", f)
  | Some creator =>
      match f !! sensorId c with
      | Some _ => (FailedPrecondition "sensor id is already registered", f)
      | None => (Ok, <[sensorId c := mkSensorFactoryEntry c creator]> f)
      end
  end.

Definition Factory_UnregisterSensor (id : string) (f : SensorFactory) : Status * SensorFactory :=
  if bool_decide (id = "") then (InvalidArgument "sensor id is empty", f)
  else match f !! id with
  | None => (Unavailable "sensor id is not registered", f)
  | Some _ => (Ok, delete id f)
  end.

(** What a creator does, called without the lock: [None] is a null pointer. *)
Definition CreateSensor {Sensor : Type} (create : SensorCreator → Outcome (option Sensor))
    (id : string) (f : SensorFactory) : Status * option Sensor :=
  if bool_decide (id = "") then (InvalidArgument "sensor id is empty", None)
  else match f !! id with
  | None => (Unavailable "sensor id is not registered", None)
  | Some entry =>
      match create (sensor_creator entry) with
      | Value None => (InternalError "sensor creator returned null", None)
      | Value (Some sensor) => (Ok, Some sensor)
      | _ => (InternalError "sensor creator threw an exception", None)
      end
  end.

Definition EnumerateSensors (f : SensorFactory) : list SensorCapabilities :=
  map factory_capabilities (bindings f).*2.

Definition Factory_Contains (id : string) (f : SensorFactory) : bool := bool_decide (is_Some (f !! id)).
Definition Factory_Size (f : SensorFactory) : Z := Z.of_nat (size f).
End Factory.
Arguments SensorFactoryEntry : clear implicits.
