(* ===== verification/PerceptionPipeline.v ===== *)
(** * The perception pipeline

    src/perception/PerceptionPipeline.cpp: stages that depend on each other
    are registered by name; [Execute] runs the enabled ones on a frame, each
    after those it depends on.

    The graph is a map that a lock guards; [Execute] copies it once, so that
    it is a function of that copy and of the world of the stages.  A second
    mutex serialises the runs of the stages.  What a stage does with the
    context is the class [StageEnvironment]. *)

From Stdlib Require Import SpecFloat.
From S2P Require Import Prelude Command Status Sensors.

Open Scope nat_scope.

(* ------------------------------------------------------------------ *)
(** ** Contexts *)

Inductive DetectionType :=
  | DetectionObject | DetectionPose | DetectionFace | DetectionQrCode | DetectionMarker
  | DetectionSemanticSegmentation | DetectionCustom.

Record BoundingBox2D := mkBox {
  box_x : spec_float; box_y : spec_float; box_width : spec_float; box_height : spec_float;
}.

Record Position3D := mkPosition {
  position_x : spec_float; position_y : spec_float; position_z : spec_float;
  coordinateFrame : string;
}.

Record DetectionResult := mkDetection {
  detection_id : string;
  detection_type : DetectionType;
  confidence : spec_float;
  label : string;
  boundingBox : BoundingBox2D;
  position : option Position3D;
  detection_timestamp : Z;
  trackingId : string;
}.

Inductive InferenceOutputValue :=
  | OutputScalar (value : SensorFrameMetadataValue)
  | OutputVector (values : list spec_float).

Record InferenceResult := mkInferenceResult {
  inference_status : Status;
  result_modelId : string;
  outputs : gmap string InferenceOutputValue;
  result_detections : list DetectionResult;
  result_timestamp : Z;
}.

#[export] Instance eta_InferenceResult : EtaRecord InferenceResult := fun r =>
  mkInferenceResult (inference_status r) (result_modelId r) (outputs r) (result_detections r)
    (result_timestamp r).

Definition default_InferenceResult : InferenceResult := mkInferenceResult Ok "" ∅ [] 0.

Record PerceptionContext := mkContext {
  context_frame : SensorFrame;
  inferenceResults : list InferenceResult;
  detections : list DetectionResult;
  context_metadata : gmap string SensorFrameMetadataValue;
  context_timestamp : Z;
}.

(* ------------------------------------------------------------------ *)
(** ** Stages *)

Inductive PerceptionStageType :=
  | StageFrame | StageFilter | StageInference | StageDetection | StageTracking | StageOutput | StageCustom.

Record PerceptionStageDescriptor := mkDescriptor {
  stageId : string;
  stage_name : string;
  stage_type : PerceptionStageType;
  enabled : bool;
  dependencies : list string;
  configuration : gmap string SensorFrameMetadataValue;
}.

#[export] Instance eta_PerceptionStageDescriptor : EtaRecord PerceptionStageDescriptor := fun d =>
  mkDescriptor (stageId d) (stage_name d) (stage_type d) (enabled d) (dependencies d) (configuration d).

Definition Descriptor_isValid (d : PerceptionStageDescriptor) : bool :=
  negb (bool_decide (stageId d = "")) && negb (bool_decide (stage_name d = "")).

Class StageEnvironment := {
  StageWorld : Type;
  Stage : Type;
  Process : Stage → PerceptionContext → StageWorld → Outcome Status * PerceptionContext * StageWorld;
}.

Section Pipeline.
Context {Env : StageEnvironment}.

Record StageEntry := mkStage { descriptor : PerceptionStageDescriptor; stage : Stage }.

#[local] Instance eta_StageEntry : EtaRecord StageEntry := fun e => mkStage (descriptor e) (stage e).

Notation Stages := (gmap string StageEntry).

Definition RegisterStage (d : PerceptionStageDescriptor) (stage : option Stage) (stages : Stages) :
    Status * Stages :=
  if negb (Descriptor_isValid d) then
    (InvalidArgument "stage descriptor requires non-empty id and name", stages)
  else match stage with
  | None => (InvalidArgument "stage is null", stages)
  | Some stage =>
      if bool_decide (is_Some (stages !! stageId d)) then
        (FailedPrecondition "stage id is already registered", stages)
      else if existsb (λ dependency, bool_decide (dependency = "")) (dependencies d) then
        (InvalidArgument "stage dependency id is empty", stages)
      else (Ok, <[stageId d := mkStage d stage]> stages)
  end.

(** The other stages no longer depend on the one that is removed. *)
Definition drop_dependency (key : string) (e : StageEntry) : StageEntry :=
  e <| descriptor ::= set_field dependencies (filter (λ dependency, dependency ≠ key)) |>.

Definition UnregisterStage (id : string) (stages : Stages) : Status * Stages :=
  if bool_decide (id = "") then (InvalidArgument "stage id is empty", stages)
  else match stages !! id with
  | None => (Unavailable "stage id is not registered", stages)
  | Some _ => (Ok, drop_dependency id <$> delete id stages)
  end.

Definition with_stage (id : string) (f : PerceptionStageDescriptor → PerceptionStageDescriptor)
    (stages : Stages) : Status * Stages :=
  match stages !! id with
  | None => (Unavailable "stage id is not registered", stages)
  | Some e => (Ok, <[id := e <| descriptor ::= f |>]> stages)
  end.

Definition ConfigureStage (id : string) (c : gmap string SensorFrameMetadataValue) :
    Stages → Status * Stages :=
  with_stage id (set_field configuration (λ _, c)).

Definition SetStageEnabled (id : string) (b : bool) : Stages → Status * Stages :=
  with_stage id (set_field enabled (λ _, b)).

Definition Clear (stages : Stages) : Stages := ∅.

Definition DescribeGraph (stages : Stages) : list PerceptionStageDescriptor :=
  map descriptor (bindings stages).*2.

Definition Size (stages : Stages) : Z := Z.of_nat (size stages).

(* ------------------------------------------------------------------ *)
(** ** The order of execution *)

(** [incoming_edges] and [dependents]: [operator[]] makes an entry where there
    is none. *)
Definition Edges : Type := gmap string nat * gmap string (list string).

Definition add_edge (stage_id dependency : string) (edges : Edges) : Edges :=
  (<[stage_id := S (default 0 (edges.1 !! stage_id))]> edges.1,
   <[dependency := default [] (edges.2 !! dependency) ++ [stage_id]]> edges.2).

(** The loop over the dependencies of a stage; [None] if one is missing. *)
Fixpoint stage_edges (snapshot : Stages) (stage_id : string) (ds : list string) (edges : Edges) :
    option Edges :=
  match ds with
  | [] => Some edges
  | dependency :: ds =>
      if bool_decide (is_Some (snapshot !! dependency)) then
        stage_edges snapshot stage_id ds (add_edge stage_id dependency edges)
      else None
  end.

Definition new_stage (stage_id : string) (edges : Edges) : Edges :=
  (match edges.1 !! stage_id with Some _ => edges.1 | None => <[stage_id := 0]> edges.1 end, edges.2).

(** The loop over the stages. *)
Fixpoint graph_edges (snapshot : Stages) (l : list (string * StageEntry)) (edges : Edges) : option Edges :=
  match l with
  | [] => Some edges
  | (stage_id, entry) :: l =>
      match stage_edges snapshot stage_id (dependencies (descriptor entry)) (new_stage stage_id edges) with
      | None => None
      | Some edges => graph_edges snapshot l edges
      end
  end.

Definition initially_ready (incoming : gmap string nat) : list string :=
  (filter (λ x : string * nat, x.2 = 0) (bindings incoming)).*1.

(** The loop over the stages that depend on one that is done. *)
Fixpoint release_dependents (ds : list string) (incoming : gmap string nat) (ready : list string) :
    gmap string nat * list string :=
  match ds with
  | [] => (incoming, ready)
  | dependent :: ds =>
      match incoming !! dependent with
      | Some (S n) =>
          release_dependents ds (<[dependent := n]> incoming)
            (if n =? 0 then ready ++ [dependent] else ready)
      | _ => release_dependents ds incoming ready
      end
  end.

(** The loop over [ready]; [snapshot.at] throws if there is no such stage. *)
Inductive Drained := DrainedOrder (order : list StageEntry) | OutOfRange | OutOfFuel.

Fixpoint drain (fuel : nat) (snapshot : Stages) (dependents : gmap string (list string))
    (incoming : gmap string nat) (ready : list string) (order : list StageEntry) : Drained :=
  match ready with
  | [] => DrainedOrder order
  | stage_id :: ready =>
      match fuel with
      | O => OutOfFuel
      | S fuel =>
          match snapshot !! stage_id with
          | None => OutOfRange
          | Some entry =>
              let '(incoming, ready) :=
                release_dependents (default [] (dependents !! stage_id)) incoming ready in
              drain fuel snapshot dependents incoming ready (order ++ [entry])
          end
      end
  end.

(** Every stage is in [ready] at most once. *)
Definition BuildExecutionOrder (snapshot : Stages) : option (Status * list StageEntry) :=
  match graph_edges snapshot (bindings snapshot) (∅, ∅) with
  | None => Some (FailedPrecondition "pipeline stage dependency is not registered", [])
  | Some (incoming, dependents) =>
      match drain (size snapshot) snapshot dependents incoming (initially_ready incoming) [] with
      | DrainedOrder order =>
          if length order =? size snapshot then Some (Ok, order)
          else Some (FailedPrecondition "pipeline graph contains a cycle", order)
      | OutOfRange | OutOfFuel => None
      end
  end.

(* ------------------------------------------------------------------ *)
(** ** Execution *)

Record PerceptionPipelineResult := mkPerceptionResult {
  perception_status : Status;
  perception_context : PerceptionContext;
  executedStages : list string;
}.

Definition new_context (frame : SensorFrame) (now : Z) : PerceptionContext := mkContext frame [] [] ∅ now.

(** The loop over the order of execution. *)
Fixpoint run_stages (order : list StageEntry) (c : PerceptionContext) (executed : list string)
    (w : StageWorld) : PerceptionPipelineResult * StageWorld :=
  match order with
  | [] => (mkPerceptionResult Ok c executed, w)
  | entry :: order =>
      if negb (enabled (descriptor entry)) then run_stages order c executed w
      else match Process (stage entry) c w with
      | (Value status, c, w) =>
          if negb (isOk status) then (mkPerceptionResult status c executed, w)
          else run_stages order c (executed ++ [stageId (descriptor entry)]) w
      | (_, c, w) =>
          (mkPerceptionResult (InternalError "perception stage threw an exception") c executed, w)
      end
  end.

(** [now] is the clock when the context is made. *)
Definition Execute (frame : SensorFrame) (now : Z) (stages : Stages) (w : StageWorld) :
    option (PerceptionPipelineResult * StageWorld) :=
  match BuildExecutionOrder stages with
  | None => None
  | Some (order_status, execution_order) =>
      if negb (isOk order_status) then Some (mkPerceptionResult order_status (new_context frame now) [], w)
      else Some (run_stages execution_order (new_context frame now) [] w)
  end.
End Pipeline.
