(* ===== verification/PerceptionProofs.v ===== *)
(** * The order in which stages run

    The order that [BuildExecutionOrder] computes exists exactly when the
    graph of dependencies is closed and has no cycle; it lists every stage
    once, after all it depends on.  The proof follows the loop: [ready] holds
    the stages that are not done and whose dependencies are. *)

From stdpp Require Import sorting.
From S2P Require Import Prelude Command Status Sensors PerceptionPipeline.

Open Scope nat_scope.

(* ------------------------------------------------------------------ *)
(** ** Occurrences *)

Definition occ (x : string) (l : list string) : nat := length (filter (x =.) l).

Lemma occ_nil x : occ x [] = 0.
Proof. done. Qed.

Lemma occ_cons_eq x l : occ x (x :: l) = S (occ x l).
Proof. unfold occ. by rewrite filter_cons_True. Qed.

Lemma occ_cons_ne x y l : x ≠ y → occ x (y :: l) = occ x l.
Proof. unfold occ. intros. by rewrite filter_cons_False. Qed.

Lemma occ_app x l l' : occ x (l ++ l') = occ x l + occ x l'.
Proof. unfold occ. by rewrite filter_app, length_app. Qed.

Lemma occ_singleton x y : occ x [y] = if decide (x = y) then 1 else 0.
Proof. destruct (decide _) as [<-|]; [by rewrite occ_cons_eq|by rewrite occ_cons_ne]. Qed.

(** The dependencies that are not yet done. *)
Definition undone (ds p : list string) : nat := length (filter (.∉ ds) p).

Lemma undone_nil p : undone [] p = length p.
Proof.
  unfold undone. induction p as [|y p IH]; [done|]. rewrite filter_cons_True by apply not_elem_of_nil.
  cbn [length]. by f_equal.
Qed.

Lemma undone_snoc ds z p : z ∉ ds → undone ds p = undone (ds ++ [z]) p + occ z p.
Proof.
  intros Hz. unfold undone, occ. induction p as [|y p IH]; [done|].
  rewrite !filter_cons.
  destruct (decide (z = y)) as [<-|Hne].
  - rewrite decide_True by done. rewrite decide_False by set_solver. simpl. lia.
  - destruct (decide (y ∉ ds)); [rewrite decide_True by set_solver|rewrite decide_False by set_solver]; simpl; lia.
Qed.

Lemma undone_0 ds p : undone ds p = 0 → ∀ y, y ∈ p → y ∈ ds.
Proof.
  unfold undone. intros H%length_zero_iff_nil y Hy. destruct (decide (y ∈ ds)); [done|].
  assert (Hf : y ∈ filter (.∉ ds) p) by by apply list_elem_of_filter.
  rewrite H in Hf. by apply not_elem_of_nil in Hf.
Qed.

Lemma undone_pos ds p : undone ds p ≠ 0 → ∃ y, y ∈ p ∧ y ∉ ds.
Proof.
  unfold undone. destruct (filter (.∉ ds) p) as [|y l] eqn:E; [done|]. intros _. exists y.
  assert (H : y ∈ filter (.∉ ds) p) by (rewrite E; by left). apply list_elem_of_filter in H as [??]. done.
Qed.

(* ------------------------------------------------------------------ *)
(** ** Descending chains in a finite set *)

Section Chains.
Context {A : Type} (R : relation A).

Lemma descending_chain (l : list A) n x :
  x ∈ l → (∀ x, x ∈ l → ∃ y, y ∈ l ∧ R x y) →
  ∃ c, length c = S n ∧ c ⊆ l ∧ StronglySorted (λ x y, tc R y x) c.
Proof.
  intros Hx Hl. induction n as [|n IH].
  - exists [x]. split_and!; [done|set_solver|repeat constructor].
  - destruct IH as ([|z c] & Hlen & Hc & Hs); [done|].
    destruct (Hl z) as (y & Hy & Hr); [set_solver|]. exists (y :: z :: c). split_and!; [simpl in *; lia|set_solver|].
    constructor; [done|]. constructor; [by apply tc_once|].
    apply StronglySorted_inv in Hs as [_ Hs]. eapply Forall_impl; [exact Hs|]. intros u Hu.
    eapply tc_transitive; [exact Hu|by apply tc_once].
Qed.

Lemma acyclic_minimal (l : list A) :
  l ≠ [] → (∀ x, ¬ tc R x x) → ¬ ∀ x, x ∈ l → ∃ y, y ∈ l ∧ R x y.
Proof.
  intros Hl Hr H. destruct l as [|x l]; [done|].
  destruct (descending_chain (x :: l) (length (x :: l)) x) as (c & Hlen & Hc & Hs); [by left|done|].
  assert (Hn : NoDup c).
  { clear Hlen Hc. induction Hs as [|y c _ IH Hy]; [constructor|]. constructor; [|done].
    intros Hin. rewrite Forall_forall in Hy. by apply (Hr y), Hy. }
  apply (NoDup_submseteq c (x :: l)) in Hn; [|done]. apply submseteq_length in Hn. lia.
Qed.
End Chains.

(* ------------------------------------------------------------------ *)
(** ** The graph *)

Section Graph.
Context {Env : StageEnvironment}.
Notation Stages := (gmap string StageEntry).

Definition deps (e : StageEntry) : list string := dependencies (descriptor e).

(** [x] depends on [y]. *)
Definition depends (stages : Stages) (x y : string) : Prop :=
  ∃ e, stages !! x = Some e ∧ y ∈ deps e.

Definition dependencies_registered (stages : Stages) : Prop :=
  ∀ x y, depends stages x y → is_Some (stages !! y).

Definition acyclic (stages : Stages) : Prop := ∀ x, ¬ tc (depends stages) x x.

(** Every stage comes after those it depends on. *)
Definition dependencies_first (stages : Stages) (order : list StageEntry) : Prop :=
  ∀ pre e post, order = pre ++ e :: post → ∀ d, d ∈ deps e → ∃ e', stages !! d = Some e' ∧ e' ∈ pre.

(** The edges of the graph [g] of dependency lists. *)
Definition edges_of (g : gmap string (list string)) (E : Edges) : Prop :=
  (∀ x, E.1 !! x = length <$> g !! x) ∧
  ∀ x y, occ x (default [] (E.2 !! y)) = occ y (default [] (g !! x)).

Lemma new_stage_edges g x E :
  g !! x = None → edges_of g E → edges_of (<[x := []]> g) (new_stage x E).
Proof.
  intros Hx [H1 H2]. unfold new_stage. rewrite (H1 x), Hx. simpl. split; simpl.
  - intros y. destruct (decide (x = y)) as [<-|Hne]; [by rewrite !lookup_insert_eq|].
    by rewrite !lookup_insert_ne.
  - intros y z. rewrite H2. destruct (decide (x = y)) as [<-|Hne]; [by rewrite Hx, lookup_insert_eq|].
    by rewrite lookup_insert_ne.
Qed.

Lemma add_edge_edges g x d p E :
  g !! x = Some p → edges_of g E → edges_of (<[x := p ++ [d]]> g) (add_edge x d E).
Proof.
  intros Hx [H1 H2]. unfold add_edge. split; simpl.
  - intros y. destruct (decide (x = y)) as [<-|Hne].
    + rewrite !lookup_insert_eq, H1, Hx. simpl. f_equal. rewrite length_app. simpl. lia.
    + by rewrite !lookup_insert_ne.
  - intros y z. destruct (decide (d = z)) as [<-|Hdz].
    + rewrite lookup_insert_eq. simpl. rewrite occ_app, H2, occ_singleton.
      destruct (decide (y = x)) as [->|Hne].
      * rewrite lookup_insert_eq, Hx. simpl. by rewrite occ_app, occ_singleton, decide_True.
      * rewrite lookup_insert_ne by done. lia.
    + rewrite lookup_insert_ne by done. rewrite H2. destruct (decide (y = x)) as [->|Hne].
      * rewrite lookup_insert_eq, Hx. simpl. rewrite occ_app, occ_singleton, decide_False by done. lia.
      * by rewrite lookup_insert_ne.
Qed.

Lemma stage_edges_spec (stages : Stages) x ds g p E :
  g !! x = Some p → edges_of g E →
  match stage_edges stages x ds E with
  | Some E' => edges_of (<[x := p ++ ds]> g) E' ∧ ∀ d, d ∈ ds → is_Some (stages !! d)
  | None => ∃ d, d ∈ ds ∧ stages !! d = None
  end.
Proof.
  revert g p E. induction ds as [|d ds IH]; intros g p E Hx HE; simpl.
  - rewrite app_nil_r, insert_id by done. split; [done|]. intros d Hd. by apply not_elem_of_nil in Hd.
  - case_bool_decide as Hd.
    + specialize (IH (<[x := p ++ [d]]> g) (p ++ [d]) (add_edge x d E)).
      rewrite lookup_insert_eq in IH. specialize (IH eq_refl (add_edge_edges _ _ _ _ _ Hx HE)).
      destruct (stage_edges _ _ _ _).
      * rewrite insert_insert_eq, <-app_assoc in IH. split; [apply IH|].
        intros d' [->|Hd']%elem_of_cons; [done|by apply IH].
      * destruct IH as (d' & Hd' & Hn). exists d'. split; [by right|done].
    + exists d. split; [by left|]. by apply eq_None_not_Some.
Qed.

Definition lists_of (l : list (string * StageEntry)) : gmap string (list string) :=
  deps <$> list_to_map (M := gmap string StageEntry) l.

Lemma graph_edges_spec (stages : Stages) l g E :
  NoDup l.*1 → (∀ x, x ∈ l.*1 → g !! x = None) → edges_of g E →
  match graph_edges stages l E with
  | Some E' =>
      edges_of (lists_of l ∪ g) E' ∧
      ∀ x e d, (x, e) ∈ l → d ∈ deps e → is_Some (stages !! d)
  | None => ∃ x e d, (x, e) ∈ l ∧ d ∈ deps e ∧ stages !! d = None
  end.
Proof.
  revert g E. induction l as [|[x e] l IH]; intros g E Hnd Hg HE; simpl.
  - unfold lists_of; simpl; rewrite fmap_empty, map_empty_union. split; [done|]. intros ??? H. by apply not_elem_of_nil in H.
  - simpl in *. apply NoDup_cons in Hnd as [Hx Hnd].
    pose proof (new_stage_edges _ x _ (Hg x ltac:(by left)) HE) as HE'.
    pose proof (stage_edges_spec stages x (deps e) _ [] _ (lookup_insert_eq _ _ _) HE') as H.
    unfold deps at 1 in H. destruct (stage_edges _ _ _ _) as [E1|].
    + simpl in H. rewrite insert_insert_eq in H. destruct H as [HE1 Hd].
      assert (Hg' : ∀ y, y ∈ l.*1 → <[x := deps e]> g !! y = None).
      { intros y Hy. rewrite lookup_insert_ne; [apply Hg; by right|by intros ->]. }
      specialize (IH (<[x := deps e]> g) E1 Hnd Hg' HE1). destruct (graph_edges stages l E1).
      * unfold lists_of in *. simpl. rewrite fmap_insert. rewrite <-insert_union_r, insert_union_l in IH.
        { destruct IH as [IH1 IH2]. split; [exact IH1|].
          intros y e' d [[= -> ->]|Hin]%elem_of_cons; [apply Hd|by eapply IH2]. }
        rewrite lookup_fmap, (not_elem_of_list_to_map_1 l x) by done. done.
      * destruct IH as (y & e' & d & ? & ? & ?). exists y, e', d. split_and!; [by right|done..].
    + destruct H as (d & Hd & Hn). exists x, e, d. split_and!; [by left|done..].
Qed.

(** The dependency lists of the registered stages. *)
Definition dependency_graph (stages : Stages) : gmap string (list string) := deps <$> stages.

Lemma bindings_edges (stages : Stages) :
  match graph_edges stages (bindings stages) (∅, ∅) with
  | Some E => edges_of (dependency_graph stages) E ∧ dependencies_registered stages
  | None => ¬ dependencies_registered stages
  end.
Proof.
  assert (H0 : edges_of ∅ (∅, ∅)) by (split; intros; simpl; by rewrite !lookup_empty).
  pose proof (graph_edges_spec stages (bindings stages) ∅ (∅, ∅) (NoDup_bindings _)
    (λ _ _, lookup_empty _) H0) as H.
  destruct (graph_edges _ _ _) as [E|].
  - destruct H as [HE Hd]. split.
    + rewrite map_union_empty in HE. replace (dependency_graph stages) with (lists_of (bindings stages)); [done|].
      unfold dependency_graph, lists_of. f_equal.
      rewrite (list_to_map_proper _ (map_to_list stages)); [apply list_to_map_to_list|apply NoDup_bindings|apply bindings_perm].
    + intros x y (e & He & Hy). eapply (Hd x e y); [by apply elem_of_bindings|done].
  - destruct H as (x & e & d & He%elem_of_bindings & Hd & Hn). intros Hc.
    destruct (Hc x d) as [? ?]; [by exists e|by simplify_eq].
Qed.

(* ------------------------------------------------------------------ *)
(** ** The loop *)

Lemma release_dependents_spec l incoming ready :
  (∀ x n, incoming !! x = Some n → occ x l <= n) →
  ∃ incoming' new, release_dependents l incoming ready = (incoming', ready ++ new) ∧
    (∀ x, incoming' !! x = (λ n, n - occ x l) <$> incoming !! x) ∧ NoDup new ∧
    ∀ x, x ∈ new ↔ incoming !! x = Some (occ x l) ∧ occ x l ≠ 0.
Proof.
  revert incoming ready. induction l as [|y l IH]; intros incoming ready Hl; simpl.
  - exists incoming, []. rewrite app_nil_r. split_and!; [done| |constructor|].
    + intros x. destruct (incoming !! x); simpl; [f_equal; rewrite occ_nil; lia|done].
    + intros x. split; [intros H; by apply not_elem_of_nil in H|by intros [_ []]].
  - destruct (incoming !! y) as [[|n]|] eqn:Ey.
    + apply Hl in Ey. rewrite occ_cons_eq in Ey. lia.
    + destruct (IH (<[y := n]> incoming) (if n =? 0 then ready ++ [y] else ready)) as (inc' & new & -> & Hinc & Hnd & Hnew).
      { intros x k. destruct (decide (x = y)) as [->|Hne].
        - rewrite lookup_insert_eq. intros [= <-]. apply Hl in Ey. rewrite occ_cons_eq in Ey. lia.
        - rewrite lookup_insert_ne by done. intros Hk%Hl. by rewrite occ_cons_ne in Hk. }
      exists inc', (if n =? 0 then y :: new else new). split_and!.
      * destruct (n =? 0); [by rewrite <-app_assoc|done].
      * intros x. rewrite Hinc. destruct (decide (x = y)) as [->|Hne].
        { rewrite lookup_insert_eq, Ey, occ_cons_eq. done. }
        by rewrite lookup_insert_ne, occ_cons_ne.
      * destruct (Nat.eqb_spec n 0) as [->|]; [|done]. constructor; [|done].
        rewrite Hnew, lookup_insert_eq. by intros [[= <-] []].
      * intros x. specialize (Hnew x). destruct (decide (x = y)) as [->|Hne].
        { rewrite lookup_insert_eq in Hnew. rewrite Ey, occ_cons_eq. apply Hl in Ey. rewrite occ_cons_eq in Ey.
          destruct (Nat.eqb_spec n 0) as [->|Hn].
          - rewrite elem_of_cons. split; [|by left]. intros _. split; [f_equal; lia|done].
          - rewrite Hnew. split; [intros [[= ->] _]; split; congruence|].
            intros [[= <-] _]. by split. }
        rewrite lookup_insert_ne, occ_cons_ne in * by done. rewrite <-Hnew.
        destruct (n =? 0); [|done]. rewrite elem_of_cons. naive_solver.
    + destruct (IH incoming ready) as (inc' & new & -> & Hinc & Hnd & Hnew).
      { intros x k Hk. destruct (decide (x = y)) as [->|Hne]; [by simplify_eq|].
        apply Hl in Hk. by rewrite occ_cons_ne in Hk. }
      exists inc', new. split_and!; [done| |done|].
      * intros x. rewrite Hinc. destruct (decide (x = y)) as [->|Hne]; [by rewrite Ey|by rewrite occ_cons_ne].
      * intros x. rewrite Hnew. destruct (decide (x = y)) as [->|Hne]; [naive_solver|by rewrite occ_cons_ne].
Qed.

(** [ds] names the stages of [order]; [g] has their dependencies. *)
Record drain_invariant (stages : Stages) (incoming : gmap string nat) (ready ds : list string)
    (order : list StageEntry) : Prop := {
  drain_order : Forall2 (λ x e, stages !! x = Some e) ds order;
  drain_distinct : NoDup (ds ++ ready);
  drain_incoming x : incoming !! x = undone ds <$> dependency_graph stages !! x;
  drain_released x : x ∈ ds ++ ready ↔ incoming !! x = Some 0;
  drain_first pre x post : ds = pre ++ x :: post → ∀ y, depends stages x y → y ∈ pre;
}.

Lemma drain_registered stages incoming ready ds order x :
  drain_invariant stages incoming ready ds order → x ∈ ds ++ ready → ∃ e, stages !! x = Some e.
Proof.
  intros H Hx. apply (drain_released _ _ _ _ _ H) in Hx. rewrite (drain_incoming _ _ _ _ _ H) in Hx.
  unfold dependency_graph in Hx. rewrite lookup_fmap in Hx. destruct (stages !! x); [by eexists|done].
Qed.

Lemma drain_length stages incoming ready ds order :
  drain_invariant stages incoming ready ds order → length ds + length ready <= size stages.
Proof.
  intros H. rewrite <-length_app, <-length_map_to_list, <-(length_fmap fst).
  apply submseteq_length, NoDup_submseteq; [apply H|]. intros x Hx.
  destruct (drain_registered _ _ _ _ _ _ H Hx) as [e He].
  apply list_elem_of_fmap. exists (x, e). split; [done|by apply elem_of_map_to_list].
Qed.

(** A round of the loop. *)
Lemma drain_step stages (dependents : gmap string (list string)) incoming z ready ds order e :
  (∀ x y, occ x (default [] (dependents !! y)) = occ y (default [] (dependency_graph stages !! x))) →
  drain_invariant stages incoming (z :: ready) ds order → stages !! z = Some e →
  ∃ incoming' ready', release_dependents (default [] (dependents !! z)) incoming ready = (incoming', ready') ∧
    drain_invariant stages incoming' ready' (ds ++ [z]) (order ++ [e]).
Proof.
  intros Hdep H Hz. assert (Hzds : z ∉ ds).
  { intros Hin. pose proof (drain_distinct _ _ _ _ _ H) as Hn. apply NoDup_app in Hn as (_ & Hn & _).
    apply (Hn z Hin). by left. }
  assert (Hinc := drain_incoming _ _ _ _ _ H).
  destruct (release_dependents_spec (default [] (dependents !! z)) incoming ready) as (inc' & new & -> & Hinc' & Hnd & Hnew).
  { intros x n Hn. rewrite Hdep. rewrite Hinc in Hn. destruct (dependency_graph stages !! x); [|done].
    simpl in *. simplify_eq. rewrite (undone_snoc ds z) by done. lia. }
  exists inc', (ready ++ new). split; [done|].
  assert (Hinc2 : ∀ x, inc' !! x = undone (ds ++ [z]) <$> dependency_graph stages !! x).
  { intros x. rewrite Hinc', Hinc, Hdep. destruct (dependency_graph stages !! x) as [p|]; [|done]. simpl. f_equal.
    rewrite (undone_snoc ds z) by done. lia. }
  assert (Hold : ∀ x, x ∈ ds ++ z :: ready ↔ incoming !! x = Some 0) by apply H.
  assert (Hrel : ∀ x, x ∈ (ds ++ z :: ready) ∨ x ∈ new ↔ inc' !! x = Some 0).
  { intros x. rewrite Hold, Hnew, Hinc'. destruct (incoming !! x) as [n|] eqn:En; simpl; [|naive_solver].
    assert (occ x (default [] (dependents !! z)) <= n).
    { rewrite Hdep. rewrite Hinc in En. destruct (dependency_graph stages !! x) as [p|]; [|done].
      simpl in *. simplify_eq. rewrite (undone_snoc ds z) by done. lia. }
    split; [intros [[= ->]|[[= ->] _]]; f_equal; lia|]. intros [= Hn0]. destruct (decide (n = 0)) as [->|]; [by left|].
    right. split; [f_equal|]; lia. }
  split.
  - apply Forall2_app; [apply H|by repeat constructor].
  - rewrite <-app_assoc. change ([z] ++ ready ++ new) with ((z :: ready) ++ new). rewrite (app_assoc ds (z :: ready) new). apply NoDup_app.
    split; [apply H|]. split; [|done]. intros x Hx%Hold Hn%Hnew. naive_solver congruence.
  - exact Hinc2.
  - intros x. rewrite <-Hrel. set_solver.
  - intros pre x post Heq y Hy. destruct post as [|u post _] using rev_ind.
    + apply app_inj_tail in Heq as [<- <-]. destruct Hy as (e' & He' & Hy). simplify_eq.
      apply (undone_0 _ (deps e)); [|done].
      assert (Hz0 : incoming !! z = Some 0) by (apply Hold; set_solver).
      rewrite Hinc in Hz0. unfold dependency_graph in Hz0. rewrite lookup_fmap, Hz in Hz0. by simplify_eq/=.
    + rewrite app_comm_cons, app_assoc in Heq. apply app_inj_tail in Heq as [-> _].
      by eapply (drain_first _ _ _ _ _ H).
Qed.

Lemma drain_ends stages (dependents : gmap string (list string)) fuel incoming ready ds order :
  (∀ x y, occ x (default [] (dependents !! y)) = occ y (default [] (dependency_graph stages !! x))) →
  drain_invariant stages incoming ready ds order → size stages <= fuel + length ds →
  ∃ incoming' ds' order', drain fuel stages dependents incoming ready order = DrainedOrder order' ∧
    drain_invariant stages incoming' [] ds' order'.
Proof.
  intros Hdep. revert incoming ready ds order. induction fuel as [|fuel IH]; intros incoming ready ds order H Hf.
  - destruct ready as [|z ready]; [by exists incoming, ds, order|].
    apply drain_length in H. simpl in H. lia.
  - destruct ready as [|z ready]; [by exists incoming, ds, order|]. simpl.
    destruct (drain_registered _ _ _ _ _ z H) as [e He]; [set_solver|]. rewrite He.
    destruct (drain_step _ _ _ _ _ _ _ _ Hdep H He) as (inc' & ready' & -> & H').
    apply (IH _ _ _ _ H'). rewrite length_app. simpl. lia.
Qed.

(* ------------------------------------------------------------------ *)
(** ** What the loop leaves *)

Lemma initially_ready_spec incoming :
  NoDup (initially_ready incoming) ∧ ∀ x, x ∈ initially_ready incoming ↔ incoming !! x = Some 0.
Proof.
  unfold initially_ready. split.
  - pose proof (NoDup_bindings incoming) as Hn. revert Hn. induction (bindings incoming) as [|[x n] l IH]; [done|].
    simpl. intros [Hx Hn]%NoDup_cons. rewrite filter_cons. destruct (decide _); [|by apply IH].
    simpl. constructor; [|by apply IH]. contradict Hx. apply list_elem_of_fmap in Hx as (y & -> & [_ Hy]%list_elem_of_filter).
    by apply list_elem_of_fmap_2.
  - intros x. rewrite list_elem_of_fmap. split.
    + intros ([y n] & -> & [Hn Hin]%list_elem_of_filter). simpl in *. subst n. by apply elem_of_bindings.
    + intros Hx. exists (x, 0). split; [done|]. apply list_elem_of_filter. split; [done|].
      by apply elem_of_bindings.
Qed.

Lemma drain_starts stages incoming dependents :
  edges_of (dependency_graph stages) (incoming, dependents) →
  drain_invariant stages incoming (initially_ready incoming) [] [].
Proof.
  intros [Hinc _]. destruct (initially_ready_spec incoming) as [Hnd Hin]. split; [constructor|done| |done|].
  - intros x. rewrite Hinc. destruct (dependency_graph stages !! x); [|done]. simpl. by rewrite undone_nil.
  - intros [|? pre] ?? [=].
Qed.

(** A stage that the loop leaves out depends on another one. *)
Lemma left_out_depends stages incoming ds order x :
  drain_invariant stages incoming [] ds order → dependencies_registered stages →
  is_Some (stages !! x) → x ∉ ds → ∃ y, depends stages x y ∧ is_Some (stages !! y) ∧ y ∉ ds.
Proof.
  intros H Hreg [e He] Hx. pose proof (drain_incoming _ _ _ _ _ H x) as Hinc.
  unfold dependency_graph in Hinc. rewrite lookup_fmap, He in Hinc. simpl in Hinc.
  destruct (undone_pos ds (deps e)) as (y & Hy & Hn).
  - intros H0. rewrite H0 in Hinc. apply (drain_released _ _ _ _ _ H) in Hinc. by rewrite app_nil_r in Hinc.
  - exists y. assert (depends stages x y) by by exists e. split_and!; [done|by apply (Hreg x)|done].
Qed.

(** The stages that have been done do not lie on a cycle. *)
Lemma first_acyclic stages ds x :
  NoDup ds → (∀ pre x post, ds = pre ++ x :: post → ∀ y, depends stages x y → y ∈ pre) →
  x ∈ ds → ¬ tc (depends stages) x x.
Proof.
  revert x. induction ds as [|z ds IH] using rev_ind; intros x Hnd Hfirst Hx Hcycle.
  { by apply not_elem_of_nil in Hx. }
  apply NoDup_app in Hnd as (Hnd & Hz & _).
  assert (Hfirst' : ∀ pre x post, ds = pre ++ x :: post → ∀ y, depends stages x y → y ∈ pre).
  { intros pre u post -> y. apply (Hfirst pre u (post ++ [z])). by rewrite <-app_assoc. }
  apply elem_of_app in Hx as [Hx| ->%list_elem_of_singleton]; [by eapply IH|].
  assert (Hds : ∀ u v, tc (depends stages) u v → u ∈ ds → v ∈ ds).
  { intros u v Huv. induction Huv as [u v Hd|u v w Hd _ IHt]; intros Hu.
    - apply list_elem_of_split in Hu as (l1 & l2 & ->). apply elem_of_app. left. by eapply Hfirst'.
    - apply IHt. apply list_elem_of_split in Hu as (l1 & l2 & ->). apply elem_of_app. left. by eapply Hfirst'. }
  assert (Hstep : ∀ v, depends stages z v → v ∈ ds) by by apply (Hfirst ds z []).
  apply (Hz z); [|by left]. inversion Hcycle as [? ? Hd|? v ? Hd Ht]; subst; [by apply Hstep|].
  by eapply Hds; [|apply Hstep].
Qed.

Lemma elem_of_keys (stages : Stages) x : x ∈ (map_to_list stages).*1 ↔ is_Some (stages !! x).
Proof.
  rewrite list_elem_of_fmap. split.
  - intros ([? e] & -> & He%elem_of_map_to_list). by exists e.
  - intros [e He]. exists (x, e). split; [done|by apply elem_of_map_to_list].
Qed.

(** Nothing is left out exactly if the order is as long as the map. *)
Lemma drain_all stages incoming ds order :
  drain_invariant stages incoming [] ds order →
  length order = size stages ↔ ∀ x, is_Some (stages !! x) → x ∈ ds.
Proof.
  intros H. assert (Hlen : length ds = length order) by (eapply Forall2_length, H).
  pose proof (drain_distinct _ _ _ _ _ H) as Hnd. rewrite app_nil_r in Hnd.
  pose proof (drain_length _ _ _ _ _ H) as Hle. simpl in Hle.
  rewrite <-Hlen, <-length_map_to_list, <-(length_fmap fst). split.
  - intros Heq x Hx. destruct (decide (x ∈ ds)) as [|Hn]; [done|].
    assert (x :: ds ⊆+ (map_to_list stages).*1) as Hs%submseteq_length; [|simpl in Hs; lia].
    apply NoDup_submseteq; [by constructor|]. intros y [->|Hy]%elem_of_cons; [by apply elem_of_keys|].
    apply elem_of_keys. destruct (drain_registered _ _ _ _ _ y H) as [e He]; [set_solver|by exists e].
  - intros Hall. rewrite length_fmap, length_map_to_list. apply Nat.le_antisymm; [lia|].
    rewrite <-length_map_to_list, <-(length_fmap fst).
    apply submseteq_length, NoDup_submseteq; [apply NoDup_fst_map_to_list|].
    intros x Hx%elem_of_keys. by apply Hall.
Qed.

(** The order is complete exactly if the graph has no cycle. *)
Lemma drain_complete stages incoming ds order :
  drain_invariant stages incoming [] ds order → dependencies_registered stages →
  length order = size stages ↔ acyclic stages.
Proof.
  intros H Hreg. rewrite (drain_all _ _ _ _ H).
  pose proof (drain_distinct _ _ _ _ _ H) as Hnd. rewrite app_nil_r in Hnd. split.
  - intros Hall x Hx. assert (Hsome : is_Some (stages !! x)).
    { inversion Hx as [? ? (e & He & _)|? ? ? (e & He & _)]; by exists e. }
    revert Hx. apply (first_acyclic _ ds); [done|apply H|by apply Hall].
  - intros Hac x Hx. destruct (decide (x ∈ ds)) as [|Hn]; [done|]. exfalso.
    set (rest := filter (.∉ ds) (map_to_list stages).*1).
    assert (Hrest : ∀ x, x ∈ rest ↔ is_Some (stages !! x) ∧ x ∉ ds).
    { intros y. unfold rest. rewrite list_elem_of_filter, elem_of_keys. tauto. }
    apply (acyclic_minimal (depends stages) rest); [|done|].
    + intros Hnil. assert (Hin : x ∈ rest) by by apply Hrest. rewrite Hnil in Hin. by apply not_elem_of_nil in Hin.
    + intros y [Hy Hny]%Hrest. destruct (left_out_depends _ _ _ _ _ H Hreg Hy Hny) as (z & Hd & Hz & Hnz).
      exists z. split; [by apply Hrest|done].
Qed.

(* ------------------------------------------------------------------ *)
(** ** The order, and its runs *)

(** The stages of [order] have the names [ds]. *)
Definition named (stages : Stages) : list string → list StageEntry → Prop :=
  Forall2 (λ x e, stages !! x = Some e).

Lemma named_elem stages ds order x :
  named stages ds order → x ∈ ds → ∃ e, stages !! x = Some e ∧ e ∈ order ∧ (x, e) ∈ zip ds order.
Proof.
  intros H Hx. induction H as [|y e ds order Hy _ IH]; [by apply not_elem_of_nil in Hx|].
  apply elem_of_cons in Hx as [->|Hx].
  - exists e. split_and!; [done|by left|by left].
  - destruct (IH Hx) as (e' & ? & ? & ?). exists e'. split_and!; [done|by right|by right].
Qed.

Lemma named_zip stages ds order x e : named stages ds order → (x, e) ∈ zip ds order → stages !! x = Some e.
Proof.
  intros H Hx. induction H as [|y e' ds order Hy _ IH]; [by apply not_elem_of_nil in Hx|].
  apply elem_of_cons in Hx as [[= -> ->]|Hx]; auto.
Qed.

Lemma named_perm stages ds order :
  named stages ds order → NoDup ds → (∀ x, is_Some (stages !! x) → x ∈ ds) →
  order ≡ₚ (map_to_list stages).*2.
Proof.
  intros H Hnd Hall. assert (Hlen := Forall2_length _ _ _ H).
  assert (Hz : zip ds order ≡ₚ map_to_list stages).
  { apply NoDup_Permutation; [|apply NoDup_map_to_list|].
    - apply (NoDup_fmap_1 fst). by rewrite fst_zip by lia.
    - intros [x e]. rewrite elem_of_map_to_list. split; [by apply named_zip|].
      intros He. destruct (named_elem _ _ _ x H) as (e' & He' & _ & Hin); [by apply Hall; exists e|].
      by simplify_eq. }
  rewrite <-Hz, snd_zip; [done|lia].
Qed.

(** What [BuildExecutionOrder] answers. *)
Lemma BuildExecutionOrder_spec stages :
  ∃ st order, BuildExecutionOrder stages = Some (st, order) ∧
    (isOk st = true ↔ dependencies_registered stages ∧ acyclic stages) ∧
    (isOk st = true → order ≡ₚ (map_to_list stages).*2 ∧ dependencies_first stages order).
Proof.
  unfold BuildExecutionOrder. pose proof (bindings_edges stages) as HE.
  destruct (graph_edges stages (bindings stages) (∅, ∅)) as [[incoming dependents]|].
  2: { do 2 eexists. split_and!; [done| |done]. split; [done|]. by intros [? _]. }
  destruct HE as [HE Hreg]. pose proof (drain_starts _ _ _ HE) as H0.
  destruct (drain_ends stages dependents (size stages) _ _ _ _ (proj2 HE) H0) as (inc' & ds & order & -> & H).
  { simpl. lia. }
  pose proof (drain_complete _ _ _ _ H Hreg) as Hc.
  destruct (Nat.eqb_spec (length order) (size stages)) as [Hlen|Hlen]; do 2 eexists; (split; [done|]).
  2: { split; [split; [done|tauto]|done]. }
  split; [split; [tauto|done]|]. intros _. pose proof (drain_order _ _ _ _ _ H) as Hds. split.
  - apply (named_perm _ ds); [done| |by apply (drain_all _ _ _ _ H)].
    pose proof (drain_distinct _ _ _ _ _ H) as Hn. by rewrite app_nil_r in Hn.
  - intros pre e post -> d Hd. apply Forall2_app_inv_r in Hds as (dpre & dpost & Hpre & Hpost & ->).
    inversion Hpost as [|x ? dpost' ? He Hpost']; subst.
    destruct (named_elem stages dpre pre d Hpre) as (e' & ? & ? & _); [|by exists e'].
    eapply (drain_first _ _ _ _ _ H); [done|by exists e].
Qed.

(* ------------------------------------------------------------------ *)
(** ** Runs *)

(** The stages [l] all succeed, one after the other. *)
Inductive ran : list StageEntry → PerceptionContext → StageWorld → PerceptionContext → StageWorld → Prop :=
  | ran_none c w : ran [] c w c w
  | ran_stage e l c w st c1 w1 c2 w2 :
      Process (stage e) c w = (Value st, c1, w1) → isOk st = true → ran l c1 w1 c2 w2 →
      ran (e :: l) c w c2 w2.

Definition runs (e : StageEntry) : bool := enabled (descriptor e).
Definition name (e : StageEntry) : string := stageId (descriptor e).

(** The result of a stage that fails. *)
Definition failure_status (x : Outcome Status) : Status :=
  match x with Value st => st | _ => InternalError "perception stage threw an exception" end.

Lemma run_stages_spec order c executed w r w' :
  run_stages order c executed w = (r, w') →
  ∃ done rest c1 w1, List.filter runs order = done ++ rest ∧ executedStages r = executed ++ map name done ∧
    ran done c w c1 w1 ∧
    match rest with
    | [] => perception_status r = Ok ∧ perception_context r = c1 ∧ w' = w1
    | e :: _ =>
        isOk (perception_status r) = false ∧
        ∃ x, Process (stage e) c1 w1 = (x, perception_context r, w') ∧ perception_status r = failure_status x
    end.
Proof.
  revert c executed w. induction order as [|e order IH]; intros c executed w E; simpl in E.
  { injection E as <- <-. exists [], [], c, w. simpl. rewrite app_nil_r. split_and!; try done. constructor. }
  simpl. unfold runs at 1. destruct (enabled (descriptor e)); [|by apply IH]. simpl in E.
  destruct (Process (stage e) c w) as [[[st|what|] c1] w1] eqn:Ep.
  2,3: injection E as <- <-; exists [], (e :: List.filter runs order), c, w; simpl; rewrite app_nil_r;
       split_and!; [done|done|constructor|done|by eexists].
  destruct (isOk st) eqn:Est; simpl in E.
  - destruct (IH _ _ _ E) as (done' & rest & c2 & w2 & -> & -> & Hran & Hrest).
    exists (e :: done'), rest, c2, w2. split_and!; [done|by rewrite <-app_assoc|by econstructor|done].
  - injection E as <- <-. exists [], (e :: List.filter runs order), c, w. simpl. rewrite app_nil_r.
    split_and!; [done|done|constructor|done|by eexists].
Qed.

(* ------------------------------------------------------------------ *)
(** ** Changes of the graph *)

Lemma tc_mono {A} (R R' : relation A) x y : (∀ x y, R x y → R' x y) → tc R x y → tc R' x y.
Proof. intros HR H. induction H; [by apply tc_once, HR|eapply tc_l; [by apply HR|done]]. Qed.

Definition runnable (stages : Stages) : Prop := dependencies_registered stages ∧ acyclic stages.

Lemma runnable_sub stages stages' :
  (∀ x y, depends stages' x y → depends stages x y ∧ is_Some (stages' !! y)) →
  runnable stages → runnable stages'.
Proof.
  intros Hsub [_ Hac]. split; [intros x y H; by apply (Hsub x y)|].
  intros x Hx. apply (Hac x). eapply tc_mono; [|exact Hx]. intros ? ? H. by apply Hsub.
Qed.

Lemma UnregisterStage_runnable id stages : runnable stages → runnable (UnregisterStage id stages).2.
Proof.
  intros H. unfold UnregisterStage. case_bool_decide; [done|]. destruct (stages !! id) as [e0|]; [|done]. simpl.
  eapply runnable_sub; [|exact H]. intros x y (e & He & Hy). rewrite lookup_fmap in He.
  destruct (delete id stages !! x) as [e'|] eqn:Ex; [|done]. simpl in He. simplify_eq.
  apply lookup_delete_Some in Ex as [Hne Ex]. unfold deps, drop_dependency in Hy. simpl in Hy.
  apply list_elem_of_filter in Hy as [Hyid Hy]. assert (Hd : depends stages x y) by by exists e'.
  split; [done|]. rewrite lookup_fmap, lookup_delete_ne by done. apply fmap_is_Some. by apply (proj1 H x).
Qed.

Lemma with_stage_runnable id f stages :
  (∀ d, dependencies (f d) = dependencies d) → runnable stages → runnable (with_stage id f stages).2.
Proof.
  intros Hf H. unfold with_stage. destruct (stages !! id) as [e0|] eqn:Eid; [|done]. simpl.
  assert (Hsome : ∀ y e', is_Some (stages !! y) → is_Some (<[id := e']> stages !! y)).
  { intros y e' Hy. destruct (decide (id = y)) as [<-|]; [by rewrite lookup_insert_eq|by rewrite lookup_insert_ne]. }
  eapply runnable_sub; [|exact H]. intros x y (e & He & Hy).
  assert (Hd : depends stages x y).
  { destruct (decide (id = x)) as [<-|].
    - rewrite lookup_insert_eq in He. simplify_eq. unfold deps in Hy. simpl in Hy. rewrite Hf in Hy. by exists e0.
    - rewrite lookup_insert_ne in He by done. by exists e. }
  split; [done|]. by apply Hsome, (proj1 H x).
Qed.

(** Nothing registered depends on a new stage. *)
Lemma RegisterStage_runnable d stage stages :
  (∀ y, y ∈ dependencies d → is_Some (stages !! y)) →
  runnable stages → runnable (RegisterStage d stage stages).2.
Proof.
  intros Hdeps [Hreg Hac]. unfold RegisterStage. destruct (negb _); [done|]. destruct stage as [st|]; [|done].
  case_bool_decide as Hid; [done|]. destruct (existsb _ _); [done|]. simpl.
  set (stages' := <[stageId d := mkStage d st]> stages).
  assert (Hnew : ∀ x y, depends stages' x y → y ≠ stageId d ∧ is_Some (stages !! y) ∧
    (x ≠ stageId d → depends stages x y)).
  { intros x y (e & He & Hy). unfold stages' in He. assert (Hsome : is_Some (stages !! y)).
    { destruct (decide (stageId d = x)) as [<-|].
      - rewrite lookup_insert_eq in He. simplify_eq. by apply Hdeps.
      - rewrite lookup_insert_ne in He by done. apply (Hreg x). by exists e. }
    split_and!; [by intros ->|done|]. intros Hx. rewrite lookup_insert_ne in He by done. by exists e. }
  split.
  - intros x y (Hy & Hs & _)%Hnew. unfold stages'. by rewrite lookup_insert_ne.
  - assert (Hold : ∀ u v, tc (depends stages') u v → v ≠ stageId d ∧ (u ≠ stageId d → tc (depends stages) u v)).
    { intros u v Huv. induction Huv as [u v Hd|u v w Hd _ [IH1 IH2]].
      - apply Hnew in Hd as (? & _ & Hd). split; [done|]. intros Hu. by apply tc_once, Hd.
      - apply Hnew in Hd as (Hv & _ & Hd). split; [done|]. intros Hu. eapply tc_l; [by apply Hd|by apply IH2]. }
    intros x Hx. pose proof (Hold x x Hx) as [Hne Ht]. by apply (Hac x), Ht.
Qed.
End Graph.

(* ------------------------------------------------------------------ *)
(** ** What users of the perception pipeline can rely on

    The order of execution exists exactly for the graphs that can be ordered;
    a run goes through the enabled stages in that order, up to the first one
    that fails; and how the changes of the graph keep it in order. *)

Section Pipeline.
Context {Env : StageEnvironment}.
Notation Stages := (gmap string StageEntry).

(** All stages, each after those it depends on. *)
Definition execution_order (stages : Stages) (order : list StageEntry) : Prop :=
  order ≡ₚ (map_to_list stages).*2 ∧ dependencies_first stages order.

(** Changes of the graph. *)
Inductive GraphOp :=
  | OpRegisterStage (d : PerceptionStageDescriptor) (stage : option Stage)
  | OpUnregisterStage (id : string)
  | OpConfigureStage (id : string) (c : gmap string SensorFrameMetadataValue)
  | OpSetStageEnabled (id : string) (b : bool)
  | OpClear.

Definition graph_op (op : GraphOp) (stages : Stages) : Stages :=
  match op with
  | OpRegisterStage d stage => (RegisterStage d stage stages).2
  | OpUnregisterStage id => (UnregisterStage id stages).2
  | OpConfigureStage id c => (ConfigureStage id c stages).2
  | OpSetStageEnabled id b => (SetStageEnabled id b stages).2
  | OpClear => Clear stages
  end.

(** A stage is registered after those it depends on. *)
Fixpoint in_order (ops : list GraphOp) (stages : Stages) : Prop :=
  match ops with
  | [] => True
  | op :: ops =>
      match op with
      | OpRegisterStage d _ => ∀ y, y ∈ dependencies d → is_Some (stages !! y)
      | _ => True
      end ∧ in_order ops (graph_op op stages)
  end.

Definition graph_after (ops : list GraphOp) (stages : Stages) : Stages :=
  foldl (λ stages op, graph_op op stages) stages ops.

Lemma runnable_empty : runnable ∅.
Proof.
  split.
  - intros x y (e & He & _). by rewrite lookup_empty in He.
  - intros x H. inversion H as [? ? (e & He & _)|? ? ? (e & He & _)]; by rewrite lookup_empty in He.
Qed.

Lemma in_order_runnable ops stages : runnable stages → in_order ops stages → runnable (graph_after ops stages).
Proof.
  revert stages. induction ops as [|op ops IH]; intros stages H; simpl; [done|]. intros [Hop Hops].
  apply IH; [|done]. destruct op; simpl.
  - by apply RegisterStage_runnable.
  - by apply UnregisterStage_runnable.
  - by apply with_stage_runnable.
  - by apply with_stage_runnable.
  - apply runnable_empty.
Qed.

(** C27: An order of execution is found exactly when every dependency is
    registered and no stage depends on itself, through others or directly; it
    has every stage once, after all it depends on. The loop ends, and no look-up
    in it throws. *)
Theorem BuildExecutionOrder_exact (stages : Stages) :
  ∃ st order, BuildExecutionOrder stages = Some (st, order) ∧
    (isOk st = true ↔ dependencies_registered stages ∧ acyclic stages) ∧
    (isOk st = true → execution_order stages order).
Proof. apply BuildExecutionOrder_spec. Qed.

(** On a graph that cannot be ordered [Execute] answers an error and runs
    nothing. On every other graph it runs the enabled stages in an order of
    execution, each on the context its predecessor left, up to the first that
    fails or throws, and answers success exactly if none does. *)
Theorem Execute_runs frame now (stages : Stages) w :
  ∃ r w', Execute frame now stages w = Some (r, w') ∧
    (¬ runnable stages →
       isOk (perception_status r) = false ∧ executedStages r = [] ∧
       perception_context r = new_context frame now ∧ w' = w) ∧
    (runnable stages →
       ∃ order done rest c1 w1, execution_order stages order ∧
         List.filter runs order = done ++ rest ∧ executedStages r = map name done ∧
         ran done (new_context frame now) w c1 w1 ∧
         match rest with
         | [] => perception_status r = Ok ∧ perception_context r = c1 ∧ w' = w1
         | e :: _ =>
             isOk (perception_status r) = false ∧
             ∃ x, Process (stage e) c1 w1 = (x, perception_context r, w') ∧
               perception_status r = failure_status x
         end).
Proof.
  unfold Execute. destruct (BuildExecutionOrder_spec stages) as (st & order & -> & Hok & Horder).
  change (isOk st = true ↔ runnable stages) in Hok. destruct (isOk st) eqn:Est; simpl.
  - destruct (run_stages order (new_context frame now) [] w) as [r w'] eqn:Er. exists r, w'.
    split; [done|]. split; [tauto|]. intros _.
    apply run_stages_spec in Er as (done' & rest & c1 & w1 & Hf & Hn & Hran & Hrest).
    exists order, done', rest, c1, w1. split; [by apply Horder|]. by split_and!.
  - do 2 eexists. split; [done|]. split; [by intros _; split_and!|]. intros Hr. by apply Hok in Hr.
Qed.

(** A graph that is built by registering stages after those they depend on
    stays in order, whatever is unregistered, configured, enabled or disabled
    in between: [Execute] never answers an error of the graph. *)
Theorem graph_stays_runnable ops :
  in_order ops ∅ →
  ∃ order, BuildExecutionOrder (graph_after ops ∅) = Some (Ok, order) ∧
    execution_order (graph_after ops ∅) order.
Proof.
  intros H. pose proof (in_order_runnable ops ∅ runnable_empty H) as Hr.
  destruct (BuildExecutionOrder_spec (graph_after ops ∅)) as (st & order & E & Hok & Horder).
  exists order. split; [|by apply Horder, Hok]. rewrite E. f_equal. f_equal.
  apply Hok in Hr. clear -E Hr. unfold BuildExecutionOrder in E.
  destruct (graph_edges _ _ _) as [[incoming dependents]|]; [|by simplify_eq].
  destruct (drain _ _ _ _ _ _); [|done..]. destruct (_ =? _); by simplify_eq.
Qed.
End Pipeline.

(* ------------------------------------------------------------------ *)
(** ** Witnesses *)

(** Stages that answer with a status and mark the context. *)
Definition sample_stages : StageEnvironment := {|
  StageWorld := list Z;
  Stage := Z * Status;
  Process s c w := (Value s.2, c, w ++ [s.1]);
|}.

Definition sample_descriptor (stage_id : string) (ds : list string) : PerceptionStageDescriptor :=
  mkDescriptor stage_id "stage" StageCustom true ds ∅.

Section Examples.
#[local] Existing Instance sample_stages.

Definition sample_graph : list (@GraphOp sample_stages) :=
  [OpRegisterStage (sample_descriptor "camera" []) (Some (1, Ok)%Z);
   OpRegisterStage (sample_descriptor "detect" ["camera"; "camera"]) (Some (2, Ok)%Z);
   OpRegisterStage (sample_descriptor "filter" ["camera"]) (Some (3, Ok)%Z);
   OpRegisterStage (sample_descriptor "arm" ["filter"; "detect"]) (Some (4, Ok)%Z);
   OpSetStageEnabled "filter" false].

(** The run of a graph: the stages executed, in the order of the world. *)
Definition sample_run (ops : list (@GraphOp sample_stages)) : option (bool * list string * list Z) :=
  '(r, w) ← Execute default_SensorFrame 5 (graph_after ops ∅) [];
  Some (isOk (perception_status r), executedStages r, w).

(** A disabled stage is passed over, also by the stages that depend on it. *)
Example disabled_dependency :
  sample_run sample_graph = Some (true, ["camera"; "detect"; "arm"], [1; 2; 4]%Z).
Proof. vm_compute. reflexivity. Qed.

Example unregistered_dependency :
  sample_run (sample_graph ++ [OpUnregisterStage "filter"; OpUnregisterStage "camera"]) =
    Some (true, ["detect"; "arm"], [2; 4]%Z).
Proof. vm_compute. reflexivity. Qed.

Example cyclic_graph :
  sample_run [OpRegisterStage (sample_descriptor "camera" ["arm"]) (Some (1, Ok)%Z);
              OpRegisterStage (sample_descriptor "arm" ["detect"]) (Some (2, Ok)%Z);
              OpRegisterStage (sample_descriptor "detect" ["camera"]) (Some (3, Ok)%Z);
              OpRegisterStage (sample_descriptor "other" []) (Some (4, Ok)%Z)] = Some (false, [], []).
Proof. vm_compute. reflexivity. Qed.

Lemma graph_stays_runnable_witness :
  in_order sample_graph ∅ ∧
  ∃ order, BuildExecutionOrder (graph_after sample_graph ∅) = Some (Ok, order) ∧ length order = 4.
Proof.
  assert (H : in_order sample_graph ∅).
  { simpl. split_and!; try done; intros y Hy; repeat (apply elem_of_cons in Hy as [->|Hy];
      [vm_compute; by eexists|]); by apply not_elem_of_nil in Hy. }
  split; [exact H|]. destruct (graph_stays_runnable sample_graph H) as (order & E & _).
  exists order. split; [exact E|]. vm_compute in E. injection E as <-. reflexivity.
Defined.
End Examples.
