(* ===== verification/SensorFusion.v ===== *)
(** * Synchronizing frames

    src/perception/SensorFusion.cpp: [FrameSynchronizer] accepts frames whose
    timestamps lie close together.  The policy is guarded by a lock and read
    once.  Timestamps are nanoseconds in 64 bits; their difference overflows
    when it does not fit, which the code does not exclude. *)

From S2P Require Import Prelude Command Status Sensors.

Open Scope Z_scope.

Record FrameSynchronizationPolicy := mkPolicy {
  maximumSkew : Z;
  requiredSensorTypes : list SensorType;
}.

Definition Policy_isValid (p : FrameSynchronizationPolicy) : bool := 0 <=? maximumSkew p.

Record SynchronizedFrameSet := mkFrameSet {
  set_status : Status;
  set_frames : list SensorFrame;
  earliestTimestamp : Z;
  latestTimestamp : Z;
}.

(** The constructor does not look at its policy. *)
Definition new_FrameSynchronizer (p : FrameSynchronizationPolicy) : FrameSynchronizationPolicy := p.

Definition invalid_skew : Status :=
  InvalidArgument "frame synchronization maximum skew must be non-negative".

Definition SetPolicy (p old : FrameSynchronizationPolicy) : Status * FrameSynchronizationPolicy :=
  if negb (Policy_isValid p) then (invalid_skew, old) else (Ok, p).

Definition ContainsSensorType (frames : list SensorFrame) (t : SensorType) : bool :=
  existsb (λ frame, bool_decide (sensorType frame = t)) frames.

(** [std::minmax_element] by timestamp: the first smallest and the last
    largest element. *)
Definition minmax_step (acc : SensorFrame * SensorFrame) (frame : SensorFrame) : SensorFrame * SensorFrame :=
  (if frame_timestamp frame <? frame_timestamp acc.1 then frame else acc.1,
   if frame_timestamp frame <? frame_timestamp acc.2 then acc.2 else frame).

Definition minmax_element (frames : list SensorFrame) : option (SensorFrame * SensorFrame) :=
  match frames with
  | [] => None
  | frame :: frames => Some (foldl minmax_step (frame, frame) frames)
  end.

(** The range of a signed word of 64 bits. *)
Definition fits_int64 (z : Z) : bool := (- 2 ^ 63 <=? z) && (z <? 2 ^ 63).

(** [None] is the overflow of the difference of two timestamps. *)
Definition Synchronize (policy : FrameSynchronizationPolicy) (frames : list SensorFrame) :
    option SynchronizedFrameSet :=
  let no_set status := Some (mkFrameSet status [] 0 0) in
  if negb (Policy_isValid policy) then no_set invalid_skew
  else match minmax_element frames with
  | None => no_set (InvalidArgument "no frames supplied")
  | Some (earliest, latest) =>
      if negb (forallb (ContainsSensorType frames) (requiredSensorTypes policy)) then
        no_set (FailedPrecondition "required sensor type is missing")
      else if (frame_timestamp earliest =? 0) || (frame_timestamp latest =? 0) then
        no_set (InvalidArgument "all frames require monotonic timestamps")
      else
        let spread := frame_timestamp latest - frame_timestamp earliest in
        if negb (fits_int64 spread) then None
        else if maximumSkew policy <? spread then
          Some (mkFrameSet (FailedPrecondition "frame timestamps exceed synchronization skew") []
                  (frame_timestamp earliest) (frame_timestamp latest))
        else Some (mkFrameSet Ok frames (frame_timestamp earliest) (frame_timestamp latest))
  end.

(* ------------------------------------------------------------------ *)
(** ** What is accepted *)

Definition times (frames : list SensorFrame) : list Z := map frame_timestamp frames.

Lemma minmax_foldl frames acc :
  frame_timestamp acc.1 <= frame_timestamp acc.2 →
  let '(lo, hi) := foldl minmax_step acc frames in
  frame_timestamp lo <= frame_timestamp hi ∧
  (∀ t, t ∈ times frames ∨ t = frame_timestamp acc.1 ∨ t = frame_timestamp acc.2 →
     frame_timestamp lo <= t <= frame_timestamp hi) ∧
  (lo ∈ frames ∨ lo = acc.1) ∧ (hi ∈ frames ∨ hi = acc.2).
Proof.
  revert acc. induction frames as [|f frames IH]; intros [lo hi] H; simpl in *.
  { split_and!; [done| |by right|by right]. intros t [Ht|[->| ->]]; [by apply not_elem_of_nil in Ht|lia..]. }
  specialize (IH (minmax_step (lo, hi) f)). unfold minmax_step in IH |- *. simpl in *.
  destruct (Z.ltb_spec (frame_timestamp f) (frame_timestamp lo)), (Z.ltb_spec (frame_timestamp f) (frame_timestamp hi));
    simpl in IH; specialize (IH ltac:(lia)); destruct (foldl _ _ frames) as [lo' hi'];
    destruct IH as (Hle & Hin & Hl & Hh); pose proof (Hin (frame_timestamp lo)); pose proof (Hin (frame_timestamp hi));
    pose proof (Hin (frame_timestamp f)).
  all: split_and!; [done| |set_solver|set_solver].
  all: intros t [Ht|[->| ->]]; [apply elem_of_cons in Ht as [->|Ht]|..]; try (by apply Hin; left).
  all: try (apply Hin; tauto); try lia.
Qed.

Lemma minmax_element_spec frames lo hi :
  minmax_element frames = Some (lo, hi) →
  lo ∈ frames ∧ hi ∈ frames ∧ ∀ f, f ∈ frames → frame_timestamp lo <= frame_timestamp f <= frame_timestamp hi.
Proof.
  destruct frames as [|f frames]; [done|]. simpl. intros [= E].
  pose proof (minmax_foldl frames (f, f) ltac:(simpl; lia)) as H. rewrite E in H. simpl in H.
  destruct H as (_ & H & Hlo & Hhi). split_and!; [set_solver|set_solver|].
  intros g [->|Hg]%elem_of_cons; apply H; [tauto|]. left. by apply list_elem_of_fmap_2.
Qed.

(** Frames that are close together, have the required types, and a time. *)
Definition synchronized (p : FrameSynchronizationPolicy) (frames : list SensorFrame) : Prop :=
  0 <= maximumSkew p ∧ frames ≠ [] ∧
  (∀ t, t ∈ requiredSensorTypes p → ∃ f, f ∈ frames ∧ sensorType f = t) ∧
  (∀ f g, f ∈ frames → g ∈ frames → frame_timestamp g - frame_timestamp f <= maximumSkew p).

Definition time_known (frames : list SensorFrame) : Prop := ∀ f, f ∈ frames → 0 < frame_timestamp f < 2 ^ 63.

Lemma ContainsSensorType_spec frames t :
  ContainsSensorType frames t = true ↔ ∃ f, f ∈ frames ∧ sensorType f = t.
Proof.
  unfold ContainsSensorType. rewrite existsb_exists. split; intros (f & Hf & Ht); exists f.
  - rewrite bool_decide_eq_true in Ht. by rewrite list_elem_of_In.
  - rewrite bool_decide_eq_true. by rewrite <-list_elem_of_In.
Qed.

(** Of frames whose times are known [Synchronize] accepts exactly those
    that have the required types and times no farther apart than the policy
    allows; it answers them unchanged with the earliest and the latest time. No
    difference of times overflows. *)
Theorem Synchronize_exact policy frames :
  time_known frames →
  ∃ s, Synchronize policy frames = Some s ∧
    (isOk (set_status s) = true ↔ synchronized policy frames) ∧
    (isOk (set_status s) = true →
       set_frames s = frames ∧ (∃ f, f ∈ frames ∧ frame_timestamp f = earliestTimestamp s) ∧
       (∃ f, f ∈ frames ∧ frame_timestamp f = latestTimestamp s) ∧
       ∀ f, f ∈ frames → earliestTimestamp s <= frame_timestamp f <= latestTimestamp s).
Proof.
  intros Htime. unfold Synchronize, Policy_isValid.
  destruct (Z.leb_spec 0 (maximumSkew policy)) as [Hs|Hs]; simpl.
  2: { eexists. split; [done|]. split; [|done]. split; [done|]. intros [? _]. lia. }
  destruct (minmax_element frames) as [[lo hi]|] eqn:Em.
  2: { eexists. split; [done|]. split; [|done]. split; [done|]. intros (_ & Hn & _). by destruct frames. }
  pose proof (minmax_element_spec _ _ _ Em) as (Hlo & Hhi & Hall).
  destruct (forallb _ _) eqn:Ht; simpl.
  2: { eexists. split; [done|]. split; [|done]. split; [done|]. intros (_ & _ & Hreq & _).
       assert (forallb (ContainsSensorType frames) (requiredSensorTypes policy) = true) as Ht'; [|congruence].
       apply forallb_forall. intros t Hin%list_elem_of_In. by apply ContainsSensorType_spec, Hreq. }
  pose proof (Htime lo Hlo). pose proof (Htime hi Hhi).
  rewrite (proj2 (Z.eqb_neq _ _)), (proj2 (Z.eqb_neq (frame_timestamp hi) 0)) by lia. simpl.
  assert (fits_int64 (frame_timestamp hi - frame_timestamp lo) = true) as ->.
  { unfold fits_int64. rewrite andb_true_iff, Z.leb_le, Z.ltb_lt. pose proof (Hall lo Hlo). lia. }
  simpl. destruct (Z.ltb_spec (maximumSkew policy) (frame_timestamp hi - frame_timestamp lo)) as [Hk|Hk].
  - eexists. split; [done|]. split; [|done]. split; [done|]. intros (_ & _ & _ & Hskew).
    specialize (Hskew lo hi Hlo Hhi). lia.
  - eexists. split; [done|]. simpl. split.
    + split; [|done]. intros _. split_and!; [done|by intros ->| |].
      * intros t Hin%list_elem_of_In. rewrite forallb_forall in Ht. by apply ContainsSensorType_spec, Ht.
      * intros f g Hf Hg. pose proof (Hall f Hf). pose proof (Hall g Hg). lia.
    + intros _. split_and!; [done|by exists lo|by exists hi|done].
Qed.

Definition frame_at (t : SensorType) (time : Z) : SensorFrame :=
  default_SensorFrame <| sensorType := t |> <| frame_timestamp := time |>.

Lemma Synchronize_exact_witness :
  time_known [frame_at SensorLidar 30; frame_at SensorCamera 20] ∧
  ∃ s, Synchronize (mkPolicy 10 [SensorCamera]) [frame_at SensorLidar 30; frame_at SensorCamera 20] = Some s ∧
    earliestTimestamp s = 20 ∧ synchronized (mkPolicy 10 [SensorCamera]) (set_frames s).
Proof.
  assert (H : time_known [frame_at SensorLidar 30; frame_at SensorCamera 20]).
  { intros f Hf. repeat (apply elem_of_cons in Hf as [->|Hf]; [simpl; lia|]). by apply not_elem_of_nil in Hf. }
  split; [exact H|]. destruct (Synchronize_exact (mkPolicy 10 [SensorCamera]) _ H) as (s & E & Hs & _).
  exists s. split; [exact E|]. vm_compute in E. injection E as <-. split; [reflexivity|]. apply Hs. reflexivity.
Defined.

(** A frame without a time between others is accepted, although all frames
    are asked for one; times may be negative. *)
Example unknown_time_accepted :
  option_map (λ s, isOk (set_status s))
    (Synchronize (mkPolicy 10 []) [frame_at SensorLidar (-5); frame_at SensorCamera 0; frame_at SensorImu 5]) =
    Some true.
Proof. reflexivity. Qed.
