(* ===== verification/ModelManager.v ===== *)
(** * Models and inference engines

    src/perception/ModelManager.cpp: a registry of engines and of models that
    name the engine they run on.  One lock guards the maps; an engine is called
    without it.  Engines are the application's: [InferenceEnvironment] is what
    the manager uses of them, and they may throw. *)

From S2P Require Import Prelude Command Status Sensors PerceptionPipeline.

Open Scope Z_scope.

Record InferenceEngineCapabilities := mkEngineCapabilities {
  engineId : string;
  engine_name : string;
  supportedBackends : list string;
  supportedModelFormats : list string;
}.

Definition EngineCapabilities_isValid (c : InferenceEngineCapabilities) : bool :=
  negb (bool_decide (engineId c = "")) && negb (bool_decide (engine_name c = "")).

Record InferenceRequest := mkInferenceRequest {
  request_modelId : string;
  inputFrame : SensorFrame;
  parameters : gmap string SensorFrameMetadataValue;
  request_timestamp : Z;
}.

Definition hasModel (r : InferenceRequest) : bool := negb (bool_decide (request_modelId r = "")).

Record ModelDescriptor := mkModel {
  modelId : string;
  model_name : string;
  format : string;
  model_engineId : string;
  model_version : string;
  model_timestamp : Z;
}.

#[export] Instance eta_ModelDescriptor : EtaRecord ModelDescriptor := fun m =>
  mkModel (modelId m) (model_name m) (format m) (model_engineId m) (model_version m) (model_timestamp m).

Definition default_ModelDescriptor : ModelDescriptor := mkModel "" "" "" "" "" 0.

Definition Model_isValid (m : ModelDescriptor) : bool :=
  negb (bool_decide (modelId m = "")) && negb (bool_decide (model_name m = "")) &&
  negb (bool_decide (format m = "")) && negb (bool_decide (model_engineId m = "")).

Class InferenceEnvironment := {
  EngineWorld : Type;
  Engine : Type;
  Engine_Capabilities : Engine → EngineWorld → Outcome InferenceEngineCapabilities * EngineWorld;
  Engine_Run : Engine → InferenceRequest → EngineWorld → Outcome InferenceResult * EngineWorld;
}.

Section Manager.
Context {Env : InferenceEnvironment}.

Record ModelManager := mkManager {
  engines_ : gmap string Engine;
  engine_capabilities_ : gmap string InferenceEngineCapabilities;
  models_ : gmap string ModelDescriptor;
}.

#[local] Instance eta_ModelManager : EtaRecord ModelManager := fun m =>
  mkManager (engines_ m) (engine_capabilities_ m) (models_ m).

Definition new_ModelManager : ModelManager := mkManager ∅ ∅ ∅.

(** [emplace] changes nothing where there is an entry. *)
Definition emplace {A} (k : string) (x : A) (m : gmap string A) : gmap string A :=
  match m !! k with Some _ => m | None => <[k := x]> m end.

Definition RegisterEngine (engine : option Engine) (m : ModelManager) (w : EngineWorld) :
    Status * ModelManager * EngineWorld :=
  match engine with
  | None => (InvalidArgument "inference engine is null", m, w)
  | Some engine =>
      match Engine_Capabilities engine w with
      | (Value c, w) =>
          if negb (EngineCapabilities_isValid c) then
            (InvalidArgument "inference engine requires non-empty id and name", m, w)
          else if bool_decide (is_Some (engines_ m !! engineId c)) then
            (FailedPrecondition "inference engine id is already registered", m, w)
          else
            (Ok, m <| engines_ ::= emplace (engineId c) engine |>
                   <| engine_capabilities_ ::= emplace (engineId c) c |>, w)
      | (_, w) => (InternalError "inference engine capabilities query threw an exception", m, w)
      end
  end.

Definition UnregisterEngine (id : string) (m : ModelManager) : Status * ModelManager :=
  if bool_decide (id = "") then (InvalidArgument "engine id is empty", m)
  else match engines_ m !! id with
  | None => (Unavailable "inference engine id is not registered", m)
  | Some _ => (Ok, m <| engines_ ::= delete id |> <| engine_capabilities_ ::= delete id |>)
  end.

Definition RegisterModel (d : ModelDescriptor) (now : Z) (m : ModelManager) : Status * ModelManager :=
  if negb (Model_isValid d) then
    (InvalidArgument "model requires non-empty id, name, format, and engine id", m)
  else
    let d := if model_timestamp d =? 0 then d <| model_timestamp := now |> else d in
    match engines_ m !! model_engineId d with
    | None => (FailedPrecondition "model references an unregistered inference engine", m)
    | Some _ =>
        match models_ m !! modelId d with
        | Some _ => (FailedPrecondition "model id is already registered", m)
        | None => (Ok, m <| models_ ::= <[modelId d := d]> |>)
        end
    end.

Definition UnregisterModel (id : string) (m : ModelManager) : Status * ModelManager :=
  if bool_decide (id = "") then (InvalidArgument "model id is empty", m)
  else match models_ m !! id with
  | None => (Unavailable "model id is not registered", m)
  | Some _ => (Ok, m <| models_ ::= delete id |>)
  end.

Definition FindModel (id : string) (m : ModelManager) : Status * ModelDescriptor :=
  if bool_decide (id = "") then (InvalidArgument "model id is empty", default_ModelDescriptor)
  else match models_ m !! id with
  | None => (Unavailable "model id is not registered", default_ModelDescriptor)
  | Some d => (Ok, d)
  end.

Definition EnumerateModels (m : ModelManager) : list ModelDescriptor := (bindings (models_ m)).*2.

Definition EnumerateEngines (m : ModelManager) : list InferenceEngineCapabilities :=
  (bindings (engine_capabilities_ m)).*2.

Definition failed_inference (st : Status) (id : string) : InferenceResult :=
  default_InferenceResult <| inference_status := st |> <| result_modelId := id |>.

(** [RunInference] under the lock: the engine that is to run. *)
Definition find_engine (id : string) (m : ModelManager) : InferenceResult + Engine :=
  match models_ m !! id with
  | None => inl (failed_inference (Unavailable "model id is not registered") id)
  | Some d =>
      match engines_ m !! model_engineId d with
      | None => inl (failed_inference (Unavailable "model inference engine is not registered") id)
      | Some engine => inr engine
      end
  end.

Definition RunInference (r : InferenceRequest) (now : Z) (m : ModelManager) (w : EngineWorld) :
    InferenceResult * EngineWorld :=
  if negb (hasModel r) then
    (failed_inference (InvalidArgument "inference request model id is empty") "", w)
  else match find_engine (request_modelId r) m with
  | inl result => (result, w)
  | inr engine =>
      match Engine_Run engine r w with
      | (Value result, w) =>
          let result := if result_timestamp result =? 0 then result <| result_timestamp := now |> else result in
          let result := if bool_decide (result_modelId result = "")
                        then result <| result_modelId := request_modelId r |> else result in
          (result, w)
      | (_, w) =>
          let result :=
            failed_inference (InternalError "inference engine threw an exception") (request_modelId r) in
          (result <| result_timestamp := now |>, w)
      end
  end.

(* ------------------------------------------------------------------ *)
(** ** The registry *)

(** Engines and capabilities go together; models are complete. *)
Record manager_ok (m : ModelManager) : Prop := {
  engines_declared id : is_Some (engines_ m !! id) ↔ is_Some (engine_capabilities_ m !! id);
  capabilities_named id c :
    engine_capabilities_ m !! id = Some c → engineId c = id ∧ EngineCapabilities_isValid c = true;
  models_named id d : models_ m !! id = Some d → modelId d = id ∧ Model_isValid d = true;
}.

Lemma new_manager_ok : manager_ok new_ModelManager.
Proof.
  split; intros *; simpl.
  - by rewrite !lookup_empty.
  - by rewrite lookup_empty.
  - by rewrite lookup_empty.
Qed.

Lemma RegisterEngine_ok engine m w : manager_ok m → manager_ok (RegisterEngine engine m w).1.2.
Proof.
  intros [H1 H2 H3]. unfold RegisterEngine. destruct engine as [e|]; [|done].
  destruct (Engine_Capabilities e w) as [[c|what|] w']; [|done..].
  destruct (EngineCapabilities_isValid c) eqn:Ec; simpl; [|done]. case_bool_decide as He; [done|]. simpl.
  apply eq_None_not_Some in He. assert (Hc : engine_capabilities_ m !! engineId c = None).
  { apply eq_None_not_Some. rewrite <-H1, He. by intros [? ?]. }
  unfold emplace. rewrite He, Hc. split; simpl; [| |done].
  - intros id. destruct (decide (engineId c = id)) as [<-|]; [by rewrite !lookup_insert_eq; split; eexists|].
    by rewrite !lookup_insert_ne.
  - intros id c'. destruct (decide (engineId c = id)) as [<-|].
    + rewrite lookup_insert_eq. intros [= <-]. split; [done|exact Ec].
    + rewrite lookup_insert_ne by done. apply H2.
Qed.

Lemma UnregisterEngine_ok id m : manager_ok m → manager_ok (UnregisterEngine id m).2.
Proof.
  intros [H1 H2 H3]. unfold UnregisterEngine. case_bool_decide; [done|]. destruct (engines_ m !! id); [|done].
  split; simpl; [| |done].
  - intros id'. destruct (decide (id = id')) as [<-|]; [by rewrite !lookup_delete_eq|by rewrite !lookup_delete_ne].
  - intros id' c Hc%lookup_delete_Some. by apply H2, Hc.
Qed.

Lemma RegisterModel_ok d now m : manager_ok m → manager_ok (RegisterModel d now m).2.
Proof.
  intros [H1 H2 H3]. unfold RegisterModel. destruct (Model_isValid d) eqn:Ed; simpl; [|done].
  set (d' := if model_timestamp d =? 0 then _ else d).
  assert (Hd' : Model_isValid d' = true) by (unfold d'; by destruct (_ =? 0)).
  destruct (engines_ m !! model_engineId d'); [|done]. destruct (models_ m !! modelId d'); [done|].
  split; simpl; [done..|]. intros id d2. destruct (decide (modelId d' = id)) as [<-|].
  - rewrite lookup_insert_eq. intros [= <-]. split; [done|exact Hd'].
  - rewrite lookup_insert_ne by done. apply H3.
Qed.

Lemma UnregisterModel_ok id m : manager_ok m → manager_ok (UnregisterModel id m).2.
Proof.
  intros [H1 H2 H3]. unfold UnregisterModel. case_bool_decide; [done|]. destruct (models_ m !! id); [|done].
  split; simpl; [done..|]. intros id' d Hd%lookup_delete_Some. by apply H3, Hd.
Qed.

Inductive ManagerOp :=
  | OpRegisterEngine (engine : option Engine)
  | OpUnregisterEngine (id : string)
  | OpRegisterModel (d : ModelDescriptor) (now : Z)
  | OpUnregisterModel (id : string).

Definition manager_op (op : ManagerOp) (s : ModelManager * EngineWorld) : ModelManager * EngineWorld :=
  let '(m, w) := s in
  match op with
  | OpRegisterEngine engine => let '(_, m, w) := RegisterEngine engine m w in (m, w)
  | OpUnregisterEngine id => ((UnregisterEngine id m).2, w)
  | OpRegisterModel d now => ((RegisterModel d now m).2, w)
  | OpUnregisterModel id => ((UnregisterModel id m).2, w)
  end.

Definition manager_after (ops : list ManagerOp) (w : EngineWorld) : ModelManager * EngineWorld :=
  foldl (λ s op, manager_op op s) (new_ModelManager, w) ops.

Lemma manager_after_ok ops w : manager_ok (manager_after ops w).1.
Proof.
  unfold manager_after. assert (H : manager_ok (new_ModelManager, w).1) by apply new_manager_ok. revert H.
  generalize (new_ModelManager, w). induction ops as [|op ops IH]; intros [m w'] H; simpl; [done|].
  apply IH. destruct op; simpl.
  - pose proof (RegisterEngine_ok engine m w' H) as He. by destruct (RegisterEngine engine m w') as [[? ?] ?].
  - by apply UnregisterEngine_ok.
  - by apply RegisterModel_ok.
  - by apply UnregisterModel_ok.
Qed.

(** The engine that runs a model. *)
Definition engine_of (id : string) (m : ModelManager) : option Engine :=
  d ← models_ m !! id; engines_ m !! model_engineId d.

(** Whatever was registered and unregistered before, an inference is run
    by the engine of its model exactly if the model and that engine are
    registered, and is answered with the engine's result under a model
    identifier; otherwise an error is answered and no engine is called. *)
Theorem RunInference_exact ops r now w0 w :
  let m := (manager_after ops w0).1 in
  match engine_of (request_modelId r) m with
  | None => ∃ result, RunInference r now m w = (result, w) ∧ isOk (inference_status result) = false
  | Some engine =>
      hasModel r = true ∧
      ∃ result, RunInference r now m w = (result, (Engine_Run engine r w).2) ∧
        (now ≠ 0 → result_timestamp result ≠ 0) ∧ result_modelId result ≠ "" ∧
        match (Engine_Run engine r w).1 with
        | Value x =>
            inference_status result = inference_status x ∧ outputs result = outputs x ∧
            result_detections result = result_detections x ∧
            (result_modelId x ≠ "" → result_modelId result = result_modelId x)
        | _ => inference_status result = InternalError "inference engine threw an exception"
        end
  end.
Proof.
  intros m. pose proof (manager_after_ok ops w0) as Hok. fold m in Hok. unfold engine_of, RunInference, find_engine, hasModel.
  destruct (models_ m !! request_modelId r) as [d|] eqn:Ed; simpl.
  2: { case_bool_decide; simpl; by eexists. }
  destruct (models_named _ Hok _ _ Ed) as [Hid Hv]. unfold Model_isValid in Hv.
  rewrite !andb_true_iff, !negb_true_iff, !bool_decide_eq_false in Hv. destruct Hv as [[[Hne _] _] _].
  rewrite Hid in Hne. rewrite bool_decide_eq_false_2 by done. simpl.
  destruct (engines_ m !! model_engineId d) as [e|]; [|by eexists]. split; [done|].
  destruct (Engine_Run e r w) as [[x|what|] w']; simpl.
  2,3: by eexists.
  eexists. split; [done|]. destruct (Z.eqb_spec (result_timestamp x) 0); case_bool_decide; simpl in *; by split_and!.
Qed.
End Manager.
