(* ===== verification/SensorManager.v ===== *)
(** * The sensor manager

    src/perception/SensorManager.cpp: sensors are registered, taken through
    their life cycle and read by any thread; the frames read are routed to
    listeners.

    The maps of the manager are guarded by a lock, each sensor by a mutex of
    its own, and listeners are called without either: every operation is a
    sequence of critical sections, whose program points are [SensorPc].  Entries are
    shared by pointer and live in the heap [entries], so that a thread can hold
    one that has been unregistered.  What a sensor or a listener does is part
    of the label of the transition that calls it, and the calls a transition
    makes are its events; a sensor is called with its mutex held, so that the
    call and the change of its entry are one transition.  Hence a sensor that calls
    the manager back for its own entry, and so waits for ever for the mutex that its
    thread holds, is not a behaviour of the model. *)

From stdpp Require Import sorting.
From S2P Require Import Prelude Command Status Sensors.

Open Scope Z_scope.

Record SensorManagerStatistics := mkStatistics {
  registeredSensors : Z;
  frameListeners : Z;
  registrations : Z;
  unregistrations : Z;
  routedFrames : Z;
  readFailures : Z;
  listenerCallbacks : Z;
  listenerFailures : Z;
}.

#[export] Instance eta_SensorManagerStatistics : EtaRecord SensorManagerStatistics := fun s =>
  mkStatistics (registeredSensors s) (frameListeners s) (registrations s) (unregistrations s)
    (routedFrames s) (readFailures s) (listenerCallbacks s) (listenerFailures s).

Record FrameResult := mkManagerFrameResult {
  result_status : Status;
  result_sensorId : string;
  result_frame : SensorFrame;
}.

(** The results of failed operations have the default value. *)
Definition failed_frame (st : Status) (id : string) : FrameResult :=
  mkManagerFrameResult st id default_SensorFrame.

Record HealthResult := mkHealthResult {
  health_result_status : Status;
  health_sensorId : string;
  result_health : SensorHealth;
}.

Definition failed_health (st : Status) (id : string) : HealthResult :=
  mkHealthResult st id default_SensorHealth.

Record Entry := mkSensorEntry {
  capabilities : SensorCapabilities;
  entry_state : SensorState;
  latest_frame : option SensorFrame;
  removed : bool;
}.

#[export] Instance eta_Entry : EtaRecord Entry := fun e =>
  mkSensorEntry (capabilities e) (entry_state e) (latest_frame e) (removed e).

Definition new_Entry (c : SensorCapabilities) : Entry := mkSensorEntry c default_SensorState None false.

Definition entry_id (e : Entry) : string := sensorId (capabilities e).

(** [x += n] on a word of 64 bits. *)
Definition u64_plus (x n : Z) : Z := (x + n) mod u64_modulus.

(* ------------------------------------------------------------------ *)
(** ** Calls of sensors *)

Inductive LifecycleOp := OpInitialize | OpStart | OpStop | OpShutdown.

Definition successful_state (op : LifecycleOp) : SensorLifecycleState :=
  match op with
  | OpInitialize => SensorInitialized
  | OpStart => SensorRunning
  | OpStop => SensorStopped
  | OpShutdown => SensorShutdown
  end.

Inductive SensorCall := CallLifecycle (op : LifecycleOp) | CallReadFrame | CallHealth.

(** [InvokeLifecycle] with the mutex of the entry. *)
Definition invoke_lifecycle (op : LifecycleOp) (answer : Outcome Status) (now : Z) (e : Entry) :
    Status * Entry * list SensorCall :=
  if removed e then (Unavailable "sensor is unregistered", e, [])
  else match answer with
  | Value status =>
      (status,
       e <| entry_state ::= λ s,
              let s := s <| state_timestamp := now |> in
              if isOk status then s <| lifecycle := successful_state op |> else s |>,
       [CallLifecycle op])
  | _ =>
      (InternalError "sensor lifecycle operation threw an exception",
       e <| entry_state ::= λ s, s <| lifecycle := SensorFaulted |> <| state_timestamp := now |> |>,
       [CallLifecycle op])
  end.

(** [MarkRemovedAndShutdown]: what [Stop] and [Shutdown] answer is ignored. *)
Definition mark_removed (now : Z) (e : Entry) : Entry :=
  e <| removed := true |>
    <| entry_state ::= λ s, s <| lifecycle := SensorShutdown |> <| state_timestamp := now |> |>.

(** [ReadFrame] with the mutex of the entry: [None] if the sensor has been
    removed, which is not counted as a failure. *)
Definition read_sensor (answer : Outcome SensorFrameResult) (now now' : Z) (e : Entry) :
    option (FrameResult * Entry) :=
  let failing status :=
    Some (failed_frame status (entry_id e),
          e <| entry_state ::= λ s, s <| frameErrors ::= u64_incr |> <| state_timestamp := now' |> |>) in
  if removed e then None
  else match answer with
  | Value r =>
      if negb (isOk (read_status r)) then failing (read_status r)
      else
        let frame := read_frame r in
        let frame := if frame_timestamp frame =? 0 then frame <| frame_timestamp := now |> else frame in
        let frame := frame <| sensorType := sensor_type (capabilities e) |> in
        Some (mkManagerFrameResult (read_status r) (entry_id e) frame,
              e <| entry_state ::= λ s, s <| framesProduced ::= u64_incr |> <| state_timestamp := now' |> |>
                <| latest_frame := Some frame |>)
  | _ => failing (InternalError "sensor frame read threw an exception")
  end.

(** [Health] with the mutex of the entry. *)
Definition query_health (answer : Outcome SensorHealth) (now now' : Z) (e : Entry) : HealthResult * Entry :=
  match answer with
  | Value health =>
      let health :=
        if health_timestamp health =? 0
        then mkHealth (health_status health) (diagnosticCode health) (health_message health) now
        else health in
      (mkHealthResult Ok (entry_id e) health,
       e <| entry_state ::= λ s, s <| sensor_health := health |> <| state_timestamp := now' |> |>)
  | _ => (failed_health (InternalError "sensor health query threw an exception") (entry_id e), e)
  end.

Definition no_sensor : Status := Unavailable "sensor id is not registered".

(* ------------------------------------------------------------------ *)
(** ** The manager *)

Section Manager.
Context {Listener : Type}.

(** What a thread does with the result of a read: [ReadFrame] returns it,
    [ReadAllFrames] adds it to the others and goes on. *)
Inductive AfterRead := ReturnFrame | ReadMore (ids : list string) (results : list FrameResult).

Inductive SensorPc :=
  | Removing (es : list nat) (clears : bool)
  | Operating (e : nat) (op : LifecycleOp)
  | NextRead (ids : list string) (results : list FrameResult)
  | Reading (e : nat) (after : AfterRead)
  | ReadFailed (r : FrameResult) (after : AfterRead)
  | Routing (r : FrameResult) (after : AfterRead)
  | Calling (r : FrameResult) (ls : list Listener) (callbacks failures : Z) (after : AfterRead)
  | NextHealth (ids : list string) (results : list HealthResult)
  | QueryingHealth (e : nat) (more : option (list string * list HealthResult)).

Record SensorManager := mkSensorManager {
  entries : list Entry;
  sensors_ : gmap string nat;
  listeners_ : gmap Z Listener;
  next_subscription_id_ : Z;
  statistics_ : SensorManagerStatistics;
  threads : gmap nat SensorPc;
}.

#[export] Instance eta_SensorManager : EtaRecord SensorManager := fun s =>
  mkSensorManager (entries s) (sensors_ s) (listeners_ s) (next_subscription_id_ s) (statistics_ s) (threads s).

Definition new_SensorManager : SensorManager :=
  mkSensorManager [] ∅ ∅ 1 (mkStatistics 0 0 0 0 0 0 0 0) ∅.

Inductive SensorAnswer :=
  | AnswerStatus (st : Status)
  | AnswerFrame (r : FrameResult)
  | AnswerFrames (rs : list FrameResult)
  | AnswerHealth (r : HealthResult)
  | AnswerHealths (rs : list HealthResult).

Inductive SensorEvent :=
  | SensorCalled (e : nat) (call : SensorCall)
  | ListenerCalled (l : Listener) (id : string) (frame : SensorFrame).

(** What a transition answers, the calls it makes, and the state it leaves. *)
Definition Step : Type := option SensorAnswer * list SensorEvent * SensorManager.

Definition at_pc (thread : nat) (pc : SensorPc) (s : SensorManager) : SensorManager :=
  s <| threads ::= <[thread := pc]> |>.

Definition leaves (thread : nat) (s : SensorManager) : SensorManager := s <| threads ::= delete thread |>.

Definition goes_on (thread : nat) (pc : SensorPc) (s : SensorManager) : Step := (None, [], at_pc thread pc s).

Definition answers (thread : nat) (a : SensorAnswer) (s : SensorManager) : Step := (Some a, [], leaves thread s).

Definition with_events (evs : list SensorEvent) (x : Step) : Step := (x.1.1, evs ++ x.1.2, x.2).

(** The result of a read goes to the caller of [ReadFrame] or to the loop of
    [ReadAllFrames]. *)
Definition frame_read (thread : nat) (r : FrameResult) (after : AfterRead) (s : SensorManager) : Step :=
  match after with
  | ReturnFrame => answers thread (AnswerFrame r) s
  | ReadMore ids results => goes_on thread (NextRead ids (results ++ [r])) s
  end.

Definition health_read (thread : nat) (r : HealthResult) (more : option (list string * list HealthResult))
    (s : SensorManager) : Step :=
  match more with
  | None => answers thread (AnswerHealth r) s
  | Some (ids, results) => goes_on thread (NextHealth ids (results ++ [r])) s
  end.

Definition FindEntry (id : string) (s : SensorManager) : option nat :=
  if bool_decide (id = "") then None else sensors_ s !! id.

(** [ReadFrame] and [Health] up to the mutex of the entry. *)
Definition read_begins (thread : nat) (id : string) (after : AfterRead) (s : SensorManager) : Step :=
  match FindEntry id s with
  | None => frame_read thread (failed_frame no_sensor id) after s
  | Some e => goes_on thread (Reading e after) s
  end.

Definition health_begins (thread : nat) (id : string) (more : option (list string * list HealthResult))
    (s : SensorManager) : Step :=
  match FindEntry id s with
  | None => health_read thread (failed_health no_sensor id) more s
  | Some e => goes_on thread (QueryingHealth e more) s
  end.

(** [RegisterSensor]; [None] is a null pointer. *)
Definition RegisterSensor (answer : option (Outcome SensorCapabilities)) (s : SensorManager) :
    Status * SensorManager :=
  match answer with
  | None => (InvalidArgument "sensor is null", s)
  | Some (Value c) =>
      if negb (SensorCapabilities_isValid c) then
        (InvalidArgument "sensor capabilities require non-empty sensor id and name", s)
      else if bool_decide (is_Some (sensors_ s !! sensorId c)) then
        (FailedPrecondition "sensor id is already registered", s)
      else
        (Ok, s <| entries ::= (λ es, es ++ [new_Entry c]) |>
               <| sensors_ ::= <[sensorId c := length (entries s)]> |>
               <| statistics_ ::= set_field registrations u64_incr |>)
  | Some _ => (InternalError "sensor capabilities query threw an exception", s)
  end.

(** [UnregisterSensor] up to the shutdown of the sensor. *)
Definition unregister_begins (thread : nat) (id : string) (s : SensorManager) : Step :=
  if bool_decide (id = "") then (Some (AnswerStatus (InvalidArgument "sensor id is empty")), [], s)
  else match sensors_ s !! id with
  | None => (Some (AnswerStatus no_sensor), [], s)
  | Some e =>
      goes_on thread (Removing [e] false)
        (s <| sensors_ ::= delete id |> <| statistics_ ::= set_field unregistrations u64_incr |>)
  end.

(** [Shutdown] up to the shutdown of the sensors. *)
Definition shutdown_begins (thread : nat) (s : SensorManager) : Step :=
  goes_on thread (Removing (bindings (sensors_ s)).*2 true)
    (s <| sensors_ := ∅ |>
       <| statistics_ ::= set_field unregistrations (λ x, u64_plus x (Z.of_nat (size (sensors_ s)))) |>).

Definition DiscoverSensors (s : SensorManager) : list SensorCapabilities :=
  omap (λ e, capabilities <$> entries s !! e) (bindings (sensors_ s)).*2.

Definition Contains (id : string) (s : SensorManager) : bool := bool_decide (is_Some (sensors_ s !! id)).
Definition Size (s : SensorManager) : Z := Z.of_nat (size (sensors_ s)).

(** The entry of a sensor, for the operations that only look at it. *)
Definition entry_of (id : string) (s : SensorManager) : option Entry :=
  e ← FindEntry id s; entries s !! e.

Definition LatestFrame (id : string) (s : SensorManager) : FrameResult :=
  match entry_of id s with
  | None => failed_frame no_sensor id
  | Some e =>
      match latest_frame e with
      | None => failed_frame (Unavailable "sensor has no routed frame") (entry_id e)
      | Some frame => mkManagerFrameResult Ok (entry_id e) frame
      end
  end.

Definition State (id : string) (s : SensorManager) : Status * string * SensorState :=
  match entry_of id s with
  | None => (no_sensor, id, default_SensorState)
  | Some e => (Ok, entry_id e, entry_state e)
  end.

(** [None] is an empty listener. *)
Definition Subscribe (listener : option Listener) (s : SensorManager) : Status * Z * SensorManager :=
  match listener with
  | None => (InvalidArgument "frame listener is empty", 0, s)
  | Some listener =>
      let id := next_subscription_id_ s in
      (Ok, id,
       s <| next_subscription_id_ := u64_incr id |>
         <| listeners_ ::= (λ m, match m !! id with Some _ => m | None => <[id := listener]> m end) |>)
  end.

Definition Unsubscribe (id : Z) (s : SensorManager) : Status * SensorManager :=
  if id =? 0 then (InvalidArgument "subscription id is zero", s)
  else match listeners_ s !! id with
  | None => (Unavailable "subscription id is not registered", s)
  | Some _ => (Ok, s <| listeners_ ::= delete id |>)
  end.

Definition GetStatistics (s : SensorManager) : SensorManagerStatistics :=
  (statistics_ s) <| registeredSensors := Z.of_nat (size (sensors_ s)) |>
                  <| frameListeners := Z.of_nat (size (listeners_ s)) |>.

(** The listeners in the order of their subscriptions. *)
Definition subscription_le (x y : Z * Listener) : Prop := x.1 <= y.1.

#[local] Instance subscription_le_dec : RelDecision subscription_le.
Proof. intros x y. unfold subscription_le. apply _. Defined.

Definition listeners_in_order (m : gmap Z Listener) : list Listener :=
  (merge_sort subscription_le (map_to_list m)).*2.

(* ------------------------------------------------------------------ *)
(** ** Transitions *)

Inductive SensorLabel :=
  | Registers (answer : option (Outcome SensorCapabilities))
  | Unregisters (thread : nat) (id : string)
  | ShutdownBegins (thread : nat)
  | Removes (thread : nat) (now : Z)
  | RemovalEnds (thread : nat)
  | LifecycleBegins (thread : nat) (id : string) (op : LifecycleOp)
  | LifecycleCalls (thread : nat) (answer : Outcome Status) (now : Z)
  | ReadBegins (thread : nat) (id : string)
  | ReadAllBegins (thread : nat)
  | ReadsNext (thread : nat)
  | SensorReads (thread : nat) (answer : Outcome SensorFrameResult) (now now' : Z)
  | FailureCounted (thread : nat)
  | RouteBegins (thread : nat)
  | CallsListener (thread : nat) (threw : bool)
  | RouteEnds (thread : nat)
  | HealthBegins (thread : nat) (id : string)
  | HealthReportBegins (thread : nat)
  | HealthNext (thread : nat)
  | HealthCalls (thread : nat) (answer : Outcome SensorHealth) (now now' : Z)
  | Subscribes (listener : option Listener)
  | Unsubscribes (id : Z).

(** The operations that a thread outside of the manager begins. *)
Definition begins (thread : nat) (x : Step) (s : SensorManager) : option Step :=
  match threads s !! thread with None => Some x | Some _ => None end.

Definition update_entry (e : nat) (x : Entry) (s : SensorManager) : SensorManager := s <| entries ::= <[e := x]> |>.

(** The transitions of removals, life cycles and health queries. *)
Definition entry_exec (l : SensorLabel) (s : SensorManager) : option Step :=
  match l with
  | Unregisters t id => begins t (unregister_begins t id s) s
  | ShutdownBegins t => begins t (shutdown_begins t s) s
  | Removes t now =>
      match threads s !! t with
      | Some (Removing (e :: es) clears) =>
          x ← entries s !! e;
          Some (None, [SensorCalled e (CallLifecycle OpStop); SensorCalled e (CallLifecycle OpShutdown)],
                at_pc t (Removing es clears) (update_entry e (mark_removed now x) s))
      | _ => None
      end
  | RemovalEnds t =>
      match threads s !! t with
      | Some (Removing [] clears) =>
          Some (answers t (AnswerStatus Ok) (if clears then s <| listeners_ := ∅ |> else s))
      | _ => None
      end
  | LifecycleBegins t id op =>
      begins t (match FindEntry id s with
                | None => (Some (AnswerStatus no_sensor), [], s)
                | Some e => goes_on t (Operating e op) s
                end) s
  | LifecycleCalls t answer now =>
      match threads s !! t with
      | Some (Operating e op) =>
          x ← entries s !! e;
          let '(st, x, calls) := invoke_lifecycle op answer now x in
          Some (with_events (map (SensorCalled e) calls) (answers t (AnswerStatus st) (update_entry e x s)))
      | _ => None
      end
  | HealthBegins t id => begins t (health_begins t id None s) s
  | HealthReportBegins t => begins t (goes_on t (NextHealth (bindings (sensors_ s)).*1 []) s) s
  | HealthNext t =>
      match threads s !! t with
      | Some (NextHealth [] results) => Some (answers t (AnswerHealths results) s)
      | Some (NextHealth (id :: ids) results) => Some (health_begins t id (Some (ids, results)) s)
      | _ => None
      end
  | HealthCalls t answer now now' =>
      match threads s !! t with
      | Some (QueryingHealth e more) =>
          x ← entries s !! e;
          let '(r, x) := query_health answer now now' x in
          Some (with_events [SensorCalled e CallHealth] (health_read t r more (update_entry e x s)))
      | _ => None
      end
  | _ => None
  end.

(** The transitions of reads. *)
Definition read_exec (l : SensorLabel) (s : SensorManager) : option Step :=
  match l with
  | ReadBegins t id => begins t (read_begins t id ReturnFrame s) s
  | ReadAllBegins t => begins t (goes_on t (NextRead (bindings (sensors_ s)).*1 []) s) s
  | ReadsNext t =>
      match threads s !! t with
      | Some (NextRead [] results) => Some (answers t (AnswerFrames results) s)
      | Some (NextRead (id :: ids) results) => Some (read_begins t id (ReadMore ids results) s)
      | _ => None
      end
  | SensorReads t answer now now' =>
      match threads s !! t with
      | Some (Reading e after) =>
          x ← entries s !! e;
          match read_sensor answer now now' x with
          | None => Some (frame_read t (failed_frame (Unavailable "sensor is unregistered") (entry_id x)) after s)
          | Some (r, x) =>
              Some (with_events [SensorCalled e CallReadFrame]
                (goes_on t (if isOk (result_status r) then Routing r after else ReadFailed r after)
                   (update_entry e x s)))
          end
      | _ => None
      end
  | FailureCounted t =>
      match threads s !! t with
      | Some (ReadFailed r after) =>
          Some (frame_read t r after (s <| statistics_ ::= set_field readFailures u64_incr |>))
      | _ => None
      end
  | RouteBegins t =>
      match threads s !! t with
      | Some (Routing r after) =>
          Some (goes_on t (Calling r (listeners_in_order (listeners_ s)) 0 0 after)
                  (s <| statistics_ ::= set_field routedFrames u64_incr |>))
      | _ => None
      end
  | CallsListener t threw =>
      match threads s !! t with
      | Some (Calling r (l :: ls) callbacks failures after) =>
          Some (with_events [ListenerCalled l (result_sensorId r) (result_frame r)]
            (goes_on t (Calling r ls (if threw : bool then callbacks else u64_incr callbacks)
                          (if threw then u64_incr failures else failures) after) s))
      | _ => None
      end
  | RouteEnds t =>
      match threads s !! t with
      | Some (Calling r [] callbacks failures after) =>
          Some (frame_read t r after
            (if negb (callbacks =? 0) || negb (failures =? 0)
             then s <| statistics_ ::= λ st, st <| listenerCallbacks ::= u64_plus callbacks |>
                                                <| listenerFailures ::= u64_plus failures |> |>
             else s))
      | _ => None
      end
  | _ => None
  end.

Definition sensor_exec (l : SensorLabel) (s : SensorManager) : option Step :=
  match l with
  | Registers answer =>
      let '(st, s) := RegisterSensor answer s in Some (Some (AnswerStatus st), [], s)
  | Subscribes listener =>
      let '(st, _, s) := Subscribe listener s in Some (Some (AnswerStatus st), [], s)
  | Unsubscribes id =>
      let '(st, s) := Unsubscribe id s in Some (Some (AnswerStatus st), [], s)
  | _ =>
      match entry_exec l s with
      | Some x => Some x
      | None => read_exec l s
      end
  end.

(** A run and its events. *)
Fixpoint sensor_run (ls : list SensorLabel) (s : SensorManager) : option (list SensorEvent * SensorManager) :=
  match ls with
  | [] => Some ([], s)
  | l :: ls =>
      '(_, evs, s) ← sensor_exec l s;
      '(evs', s) ← sensor_run ls s;
      Some (evs ++ evs', s)
  end.
End Manager.
Arguments SensorManager : clear implicits.
Arguments SensorPc : clear implicits.
Arguments SensorLabel : clear implicits.
Arguments SensorEvent : clear implicits.
Arguments Step : clear implicits.
