(* ===== verification/SensorManagerProofs.v ===== *)
(** * The invariants of the sensor manager

    An entry that has not been removed is registered under its identifier or
    in the hands of a thread that removes it; a removed one stays shut down;
    what is routed comes from a sensor; and the counters account for the
    frames and the registrations. *)

From S2P Require Import Prelude Command Status InstanceLedger Sensors SensorManager.

Open Scope Z_scope.

Create HintDb sensors.

Section Manager.
Context {Listener : Type}.
#[local] Notation SensorManager := (SensorManager Listener).
#[local] Notation SensorPc := (SensorPc Listener).
#[local] Notation SensorLabel := (SensorLabel Listener).
#[local] Notation Step := (Step Listener).
Implicit Types (s : SensorManager) (pc : SensorPc).

(* ------------------------------------------------------------------ *)
(** ** The shape of a transition *)

(** [s'] has the entries and the maps of [s]; a thread has moved. *)
Definition moved (t : nat) (q : option SensorPc) s s' : Prop :=
  s' = s <| threads ::= match q with Some q => <[t := q]> | None => delete t end |>.

(** The program points after a read or a query. *)
Definition settled (q : option SensorPc) : Prop :=
  match q with None | Some (NextRead _ _) | Some (NextHealth _ _) => True | _ => False end.

Lemma frame_read_moved t r after s : ∃ q, settled q ∧ moved t q s (frame_read t r after s).2.
Proof. destruct after as [|ids rs]; [by exists None|by exists (Some (NextRead ids (rs ++ [r])))]. Qed.

Lemma health_read_moved t r more s : ∃ q, settled q ∧ moved t q s (health_read t r more s).2.
Proof. destruct more as [[ids rs]|]; [by exists (Some (NextHealth ids (rs ++ [r])))|by exists None]. Qed.

Lemma read_begins_moved t id after s :
  ∃ q, (settled q ∨ ∃ e, FindEntry id s = Some e ∧ q = Some (Reading e after)) ∧
    moved t q s (read_begins t id after s).2.
Proof.
  unfold read_begins. destruct (FindEntry id s) as [e|].
  - exists (Some (Reading e after)). split; [|done]. right. by exists e.
  - destruct (frame_read_moved t (failed_frame no_sensor id) after s) as (q & ? & ?). exists q. auto.
Qed.

Lemma health_begins_moved t id more s :
  ∃ q, (settled q ∨ ∃ e, FindEntry id s = Some e ∧ q = Some (QueryingHealth e more)) ∧
    moved t q s (health_begins t id more s).2.
Proof.
  unfold health_begins. destruct (FindEntry id s) as [e|].
  - exists (Some (QueryingHealth e more)). split; [|done]. right. by exists e.
  - destruct (health_read_moved t (failed_health no_sensor id) more s) as (q & ? & ?). exists q. auto.
Qed.

(* ------------------------------------------------------------------ *)
(** ** What a call does to an entry *)

(** The entry of the same sensor; if it was removed, it remains shut down. *)
Definition same_sensor (x x' : Entry) : Prop :=
  capabilities x' = capabilities x ∧ removed x' = removed x ∧
  (removed x = true → lifecycle (entry_state x') = lifecycle (entry_state x)).

#[export] Instance same_sensor_refl : Reflexive same_sensor.
Proof. by intros x. Qed.

Lemma invoke_lifecycle_same op answer now x : same_sensor x (invoke_lifecycle op answer now x).1.2.
Proof.
  unfold invoke_lifecycle. destruct (removed x) eqn:Er; [done|].
  destruct answer as [st|what|]; simpl; [destruct (isOk st)|..]; (split; [done|]; split; [done|simpl; intros; congruence]).
Qed.

Lemma read_sensor_same answer now now' x r x' : read_sensor answer now now' x = Some (r, x') → same_sensor x x'.
Proof.
  unfold read_sensor. destruct (removed x) eqn:Er; [done|].
  destruct answer as [[st f]|what|]; simpl; [destruct (isOk st)|..]; simpl; intros [= <- <-];
    (split; [done|]; split; [done|simpl; intros; congruence]).
Qed.

Lemma query_health_same answer now now' x : same_sensor x (query_health answer now now' x).2.
Proof. destruct answer as [h|what|]; by split_and!. Qed.

(** What a read leaves of the frame. *)
Lemma read_sensor_frame answer now now' x r x' :
  read_sensor answer now now' x = Some (r, x') →
  result_sensorId r = entry_id x ∧ (isOk (result_status r) = true →
    sensorType (result_frame r) = sensor_type (capabilities x) ∧ latest_frame x' = Some (result_frame r) ∧
    (now ≠ 0 → frame_timestamp (result_frame r) ≠ 0)) ∧
  (isOk (result_status r) = false → latest_frame x' = latest_frame x).
Proof.
  unfold read_sensor. destruct (removed x); [done|].
  destruct answer as [[st f]|what|]; simpl; [destruct (isOk st) eqn:Est|..]; simpl; intros [= <- <-]; simpl.
  2-4: split_and!; [done|first [done|intros; congruence]|done].
  split_and!; [done| |intros; congruence]. intros _. split_and!; [done|done|].
  destruct (Z.eqb_spec (frame_timestamp f) 0); simpl; auto.
Qed.

Lemma read_sensor_counts answer now now' x r x' :
  read_sensor answer now now' x = Some (r, x') →
  framesProduced (entry_state x') =
    (if isOk (result_status r) then u64_incr else λ n, n) (framesProduced (entry_state x)) ∧
  frameErrors (entry_state x') =
    (if isOk (result_status r) then λ n, n else u64_incr) (frameErrors (entry_state x)).
Proof.
  unfold read_sensor. destruct (removed x); [done|].
  destruct answer as [[st f]|what|]; simpl; [destruct (isOk st) eqn:Est|..]; simpl; intros [= <- <-]; simpl;
    try rewrite Est; done.
Qed.

(* ------------------------------------------------------------------ *)
(** ** Removal *)

Definition removal_list pc : list nat := match pc with Removing es _ => es | _ => [] end.

Definition being_removed (e : nat) s : Prop := ∃ t pc, threads s !! t = Some pc ∧ e ∈ removal_list pc.

Record sensors_ok s : Prop := {
  ok_registered id e :
    sensors_ s !! id = Some e → ∃ x, entries s !! e = Some x ∧ entry_id x = id ∧ removed x = false;
  ok_unremoved e x :
    entries s !! e = Some x → removed x = false → sensors_ s !! entry_id x = Some e ∨ being_removed e s;
  ok_removed e x : entries s !! e = Some x → removed x = true → lifecycle (entry_state x) = SensorShutdown;
  ok_removing e : being_removed e s → is_Some (entries s !! e) ∧ ∀ id, sensors_ s !! id ≠ Some e;
}.

(** A transition that registers and removes nothing. *)
Record keeps s s' : Prop := {
  keeps_sensors : sensors_ s' = sensors_ s;
  keeps_entry e x : entries s !! e = Some x → ∃ x', entries s' !! e = Some x' ∧ same_sensor x x';
  keeps_entry_back e x' : entries s' !! e = Some x' → ∃ x, entries s !! e = Some x;
  keeps_removing e : being_removed e s' ↔ being_removed e s;
}.

Lemma keeps_ok s s' : keeps s s' → sensors_ok s → sensors_ok s'.
Proof.
  intros [K1 K2 K3 K4] [H1 H2 H3 H4]. split.
  - intros id e He. rewrite K1 in He. destruct (H1 id e He) as (x & Hx & Hid & Hr).
    destruct (K2 e x Hx) as (x' & Hx' & Hc & Hr' & _). exists x'. unfold entry_id in *.
    split_and!; [done|by rewrite Hc|by rewrite Hr'].
  - intros e x' Hx' Hr'. destruct (K3 e x' Hx') as [x Hx]. destruct (K2 e x Hx) as (x2 & Hx2 & Hc & Hr & _).
    simplify_eq. rewrite K1, K4. unfold entry_id. rewrite Hc. apply H2; congruence.
  - intros e x' Hx' Hr'. destruct (K3 e x' Hx') as [x Hx]. destruct (K2 e x Hx) as (x2 & Hx2 & Hc & Hr & Hl).
    simplify_eq. rewrite Hl by congruence. apply (H3 e x Hx). congruence.
  - intros e He%K4%H4. destruct He as [[x Hx] Hn]. destruct (K2 e x Hx) as (x' & ? & _).
    rewrite K1. split; [by exists x'|done].
Qed.

Lemma being_removed_moves (t : nat) (q : option SensorPc) s e :
  match threads s !! t with Some pc => removal_list pc | None => [] end = [] →
  match q with Some q => removal_list q | None => [] end = [] →
  being_removed e (s <| threads ::= match q with Some q => <[t := q]> | None => delete t end |>) ↔
  being_removed e s.
Proof.
  intros Hold Hnew. unfold being_removed. simpl. split; intros (u & pc & Hu & He).
  - destruct (decide (t = u)) as [<-|Hne].
    + destruct q as [q|]; [rewrite lookup_insert_eq in Hu|by rewrite lookup_delete_eq in Hu].
      simplify_eq. rewrite Hnew in He. by apply not_elem_of_nil in He.
    + exists u, pc. split; [|done].
      destruct q; [by rewrite lookup_insert_ne in Hu|by rewrite lookup_delete_ne in Hu].
  - destruct (decide (t = u)) as [<-|Hne].
    + rewrite Hu in Hold. rewrite Hold in He. by apply not_elem_of_nil in He.
    + exists u, pc. split; [|done]. destruct q; [by rewrite lookup_insert_ne|by rewrite lookup_delete_ne].
Qed.

(** A thread moves, and perhaps an entry changes. *)
Lemma keeps_moved t q s s0 s' :
  entries s0 = entries s ∧ sensors_ s0 = sensors_ s ∧ threads s0 = threads s ∨
    (∃ e x x', entries s !! e = Some x ∧ same_sensor x x' ∧ entries s0 = <[e := x']> (entries s) ∧
       sensors_ s0 = sensors_ s ∧ threads s0 = threads s) →
  match threads s !! t with Some pc => removal_list pc | None => [] end = [] →
  match q with Some q => removal_list q | None => [] end = [] →
  moved t q s0 s' → keeps s s'.
Proof.
  intros Hs0 Hold Hnew ->.
  assert (Hrem : ∀ e, being_removed e (s0 <| threads ::= match q with Some q => <[t := q]> | None => delete t end |>)
    ↔ being_removed e s).
  { assert (Ht : threads s0 = threads s) by naive_solver. intros e. rewrite being_removed_moves; [|by rewrite Ht|done].
    unfold being_removed. by rewrite Ht. }
  destruct Hs0 as [(He & Hs & _)|(e & x & x' & Hx & Hsame & He & Hs & _)]; split; simpl; rewrite ?He; try done.
  - intros e' y Hy. by exists y.
  - intros e' y Hy. by exists y.
  - intros e' y Hy. destruct (decide (e = e')) as [<-|Hne].
    + simplify_eq. exists x'. split; [|done]. apply list_lookup_insert_eq. by eapply lookup_lt_Some.
    + exists y. by rewrite list_lookup_insert_ne.
  - intros e' y Hy. destruct (decide (e = e')) as [<-|Hne]; [by exists x|].
    rewrite list_lookup_insert_ne in Hy by done. by exists y.
Qed.

(* ------------------------------------------------------------------ *)
(** ** Transitions *)

Definition plain (l : SensorLabel) : bool :=
  match l with
  | Registers _ | Unregisters _ _ | ShutdownBegins _ | Removes _ _ | RemovalEnds _
  | Subscribes _ | Unsubscribes _ => false
  | _ => true
  end.

(** No program point of a removal. *)
Definition harmless (q : option SensorPc) : Prop :=
  match q with Some pc => removal_list pc | None => [] end = [].

Lemma settled_harmless q : settled q → harmless q.
Proof. by destruct q as [[]|]. Qed.

(** What a transition other than a removal changes: the entry of the thread's
    sensor, and the thread's program point. *)
Definition changes_entry s s0 : Prop :=
  entries s0 = entries s ∧ sensors_ s0 = sensors_ s ∧ threads s0 = threads s ∨
  (∃ e x x', entries s !! e = Some x ∧ same_sensor x x' ∧ entries s0 = <[e := x']> (entries s) ∧
     sensors_ s0 = sensors_ s ∧ threads s0 = threads s).

Definition plain_step s s' : Prop :=
  ∃ t q s0, changes_entry s s0 ∧ harmless (threads s !! t) ∧ harmless q ∧ moved t q s0 s'.

Lemma plain_step_keeps s s' : plain_step s s' → keeps s s'.
Proof. intros (t & q & s0 & ? & ? & ? & ?). by eapply keeps_moved. Qed.

(** The state that a transition leaves. *)
Lemma step_state (x : Step) (s' : SensorManager) a evs : Some x = Some (a, evs, s') → x.2 = s'.
Proof. by intros [= ->]. Qed.

Lemma with_events_state evs (x : Step) : (with_events evs x).2 = x.2.
Proof. done. Qed.

Lemma changes_nothing s : changes_entry s s.
Proof. by left. Qed.

Lemma changes_statistics f s : changes_entry s (s <| statistics_ ::= f |>).
Proof. by left. Qed.

Lemma changes_update e x x' s :
  entries s !! e = Some x → same_sensor x x' → changes_entry s (update_entry e x' s).
Proof. intros. right. by exists e, x, x'. Qed.

#[local] Hint Resolve changes_nothing changes_statistics changes_update settled_harmless : sensors.

Lemma frame_read_plain t r after s s0 :
  changes_entry s s0 → harmless (threads s !! t) → plain_step s (frame_read t r after s0).2.
Proof.
  intros. destruct (frame_read_moved t r after s0) as (q & ? & ?). exists t, q, s0. eauto with sensors.
Qed.

Lemma health_read_plain t r more s s0 :
  changes_entry s s0 → harmless (threads s !! t) → plain_step s (health_read t r more s0).2.
Proof.
  intros. destruct (health_read_moved t r more s0) as (q & ? & ?). exists t, q, s0. eauto with sensors.
Qed.

Lemma read_begins_plain t id after s : harmless (threads s !! t) → plain_step s (read_begins t id after s).2.
Proof.
  intros. destruct (read_begins_moved t id after s) as (q & Hq & ?). exists t, q, s. split_and!; [eauto with sensors|done| |done].
  destruct Hq as [?|(e & _ & ->)]; [eauto with sensors|done].
Qed.

Lemma health_begins_plain t id more s : harmless (threads s !! t) → plain_step s (health_begins t id more s).2.
Proof.
  intros. destruct (health_begins_moved t id more s) as (q & Hq & ?). exists t, q, s. split_and!; [eauto with sensors|done| |done].
  destruct Hq as [?|(e & _ & ->)]; [eauto with sensors|done].
Qed.

Lemma goes_on_plain t pc s s0 :
  changes_entry s s0 → harmless (threads s !! t) → harmless (Some pc) → plain_step s (goes_on t pc s0).2.
Proof. intros. by exists t, (Some pc), s0. Qed.

Lemma answers_plain t a s s0 :
  changes_entry s s0 → harmless (threads s !! t) → plain_step s (answers t a s0).2.
Proof. intros. by exists t, None, s0. Qed.

#[local] Hint Resolve frame_read_plain health_read_plain read_begins_plain health_begins_plain goes_on_plain
  answers_plain : sensors.
#[local] Hint Extern 1 (harmless (Some _)) => reflexivity : sensors.

Lemma plain_exec l s a evs s' :
  plain l = true → sensor_exec l s = Some (a, evs, s') → plain_step s s' ∨ s' = s.
Proof.
  intros Hl E.
  assert (Ht : ∀ t pc, threads s !! t = Some pc → removal_list pc = [] → harmless (threads s !! t)).
  { intros t pc Hpc ?. unfold harmless. by rewrite Hpc. }
  assert (Hn : ∀ t, threads s !! t = None → harmless (threads s !! t)).
  { intros t Hpc. unfold harmless. by rewrite Hpc. }
  destruct l; try done; unfold sensor_exec, entry_exec, read_exec, begins in E;
    (destruct (threads s !! thread) as [pc|] eqn:Epc; [destruct pc|]); try done;
    repeat match type of E with
    | context [match ?ids with [] => _ | _ :: _ => _ end] => destruct ids; try done
    end.
  all: try (destruct (entries s !! e) as [x|] eqn:Ex; [simpl in E|by simplify_eq/=]).
  all: try (pose proof (invoke_lifecycle_same op answer now x) as Hx; destruct (invoke_lifecycle _ _ _ _) as [[st x'] calls]).
  all: try (pose proof (query_health_same answer now now' x) as Hx; destruct (query_health _ _ _ _) as [r x']).
  all: try (destruct (read_sensor answer now now' x) as [[r x']|] eqn:Hx; [apply read_sensor_same in Hx|]).
  all: try (destruct (FindEntry id s)); try (by right; injection E as <- <- <-).
  all: left; apply step_state in E; subst s'; rewrite ?with_events_state; repeat case_match;
    eauto 6 with sensors.
Qed.

Lemma plain_ok l s a evs s' :
  plain l = true → sensor_exec l s = Some (a, evs, s') → sensors_ok s → sensors_ok s'.
Proof.
  intros Hl E Hs. destruct (plain_exec l s a evs s' Hl E) as [H| ->]; [|done].
  eapply keeps_ok; [by apply plain_step_keeps|done].
Qed.

(* ------------------------------------------------------------------ *)
(** ** Registration and removal *)

Lemma being_removed_insert t pc s0 s e :
  threads s0 = <[t := pc]> (threads s) →
  being_removed e s0 ↔ e ∈ removal_list pc ∨ ∃ u pc', u ≠ t ∧ threads s !! u = Some pc' ∧ e ∈ removal_list pc'.
Proof.
  intros Ht. unfold being_removed. rewrite Ht. split.
  - intros (u & pc' & Hu & He). destruct (decide (t = u)) as [<-|Hne].
    + rewrite lookup_insert_eq in Hu. simplify_eq. by left.
    + rewrite lookup_insert_ne in Hu by done. right. by exists u, pc'.
  - intros [He|(u & pc' & Hne & Hu & He)].
    + exists t, pc. by rewrite lookup_insert_eq.
    + exists u, pc'. by rewrite lookup_insert_ne.
Qed.

Lemma being_removed_by t pc s e :
  threads s !! t = Some pc →
  being_removed e s ↔ e ∈ removal_list pc ∨ ∃ u pc', u ≠ t ∧ threads s !! u = Some pc' ∧ e ∈ removal_list pc'.
Proof. intros Ht. apply (being_removed_insert t pc s s). by rewrite insert_id. Qed.

Lemma Register_ok answer s : sensors_ok s → sensors_ok (RegisterSensor answer s).2.
Proof.
  intros Hs. unfold RegisterSensor. destruct answer as [[c|what|]|]; [|done..].
  destruct (negb _); [done|]. case_bool_decide as Hid; [done|]. simpl. apply eq_None_not_Some in Hid.
  assert (Hnew : (entries s ++ [new_Entry c]) !! length (entries s) = Some (new_Entry c)).
  { by apply list_lookup_middle. }
  assert (Hold : ∀ e x, entries s !! e = Some x → (entries s ++ [new_Entry c]) !! e = Some x).
  { intros. by apply lookup_app_l_Some. }
  assert (Hcase : ∀ e x, (entries s ++ [new_Entry c]) !! e = Some x →
    entries s !! e = Some x ∨ e = length (entries s) ∧ x = new_Entry c).
  { intros e x [Hx|[Hlen Hx]]%lookup_app_Some; [by left|right].
    apply list_lookup_singleton_Some in Hx as [? <-]. split; [lia|done]. }
  destruct Hs as [H1 H2 H3 H4]. split; simpl.
  - intros id e. destruct (decide (sensorId c = id)) as [<-|Hne].
    + rewrite lookup_insert_eq. intros [= <-]. by exists (new_Entry c).
    + rewrite lookup_insert_ne by done. intros (x & ? & ? & ?)%H1. exists x. auto.
  - intros e x [Hx|[-> ->]]%Hcase Hr.
    + destruct (H2 e x Hx Hr) as [Hreg|?]; [|by right]. left. rewrite lookup_insert_ne; [done|]. congruence.
    + left. apply lookup_insert_eq.
  - intros e x [Hx|[-> ->]]%Hcase Hr; [by apply (H3 e)|done].
  - intros e He. destruct (H4 e He) as [[x Hx] Hn]. split; [exists x; auto|]. intros id.
    destruct (decide (sensorId c = id)) as [<-|Hne].
    + rewrite lookup_insert_eq. intros [= <-]. apply lookup_lt_Some in Hx. lia.
    + by rewrite lookup_insert_ne.
Qed.

(** The sensors [es] pass from the map to a thread. *)
Lemma withdraw_ok t es clears s s' :
  threads s !! t = None → entries s' = entries s → threads s' = <[t := Removing es clears]> (threads s) →
  (∀ id e, sensors_ s' !! id = Some e → sensors_ s !! id = Some e ∧ e ∉ es) →
  (∀ id e, sensors_ s !! id = Some e → sensors_ s' !! id = Some e ∨ e ∈ es) →
  (∀ e, e ∈ es → ∃ id, sensors_ s !! id = Some e) →
  sensors_ok s → sensors_ok s'.
Proof.
  intros Ht He Hth Hsub Hsup Hes [H1 H2 H3 H4].
  assert (Hrem : ∀ e, being_removed e s' ↔ e ∈ es ∨ being_removed e s).
  { intros e. rewrite (being_removed_insert t _ s' s e Hth). simpl. unfold being_removed. split.
    - intros [?|(u & pc & _ & ? & ?)]; [by left|right; by exists u, pc].
    - intros [?|(u & pc & ? & ?)]; [by left|]. right. exists u, pc. split_and!; [congruence|done..]. }
  split.
  - intros id e [Hid _]%Hsub. rewrite He. by apply H1.
  - intros e x. rewrite He, Hrem. intros Hx Hr. destruct (H2 e x Hx Hr) as [Hreg|?]; [|tauto].
    destruct (Hsup _ _ Hreg); tauto.
  - rewrite He. apply H3.
  - intros e. rewrite Hrem, He. intros [Hin|Hb].
    + destruct (Hes e Hin) as [id Hid]. destruct (H1 id e Hid) as (x & ? & _). split; [by exists x|].
      intros id' Hid'. by apply Hsub in Hid' as [_ ?].
    + destruct (H4 e Hb) as [? Hn]. split; [done|]. intros id [Hid _]%Hsub. by apply (Hn id).
Qed.

(** A thread shuts down the first of the sensors it removes. *)
Lemma removes_ok t e es clears now x s :
  threads s !! t = Some (Removing (e :: es) clears) → entries s !! e = Some x → sensors_ok s →
  sensors_ok (at_pc t (Removing es clears) (update_entry e (mark_removed now x) s)).
Proof.
  intros Ht Hx [H1 H2 H3 H4]. set (s' := at_pc _ _ _).
  assert (Hrem : ∀ e', being_removed e' s → e' = e ∨ being_removed e' s').
  { intros e'. rewrite (being_removed_by t _ s e' Ht), (being_removed_insert t (Removing es clears) s' s e' eq_refl).
    simpl. rewrite elem_of_cons. tauto. }
  assert (Hrem' : ∀ e', being_removed e' s' → being_removed e' s).
  { intros e'. rewrite (being_removed_by t _ s e' Ht), (being_removed_insert t (Removing es clears) s' s e' eq_refl).
    simpl. rewrite elem_of_cons. tauto. }
  assert (He : being_removed e s) by (exists t, (Removing (e :: es) clears); split; [done|by left]).
  assert (Hlen := lookup_lt_Some _ _ _ Hx). split; simpl.
  - intros id e' Hid. rewrite list_lookup_insert_ne; [by apply H1|]. intros <-. by apply (H4 e He) in Hid.
  - intros e' y. destruct (decide (e = e')) as [<-|Hne].
    + rewrite list_lookup_insert_eq by done. by intros [= <-].
    + rewrite list_lookup_insert_ne by done. intros Hy Hr. destruct (H2 e' y Hy Hr) as [?|Hb]; [by left|right].
      apply Hrem in Hb as [->|?]; done.
  - intros e' y. destruct (decide (e = e')) as [<-|Hne].
    + rewrite list_lookup_insert_eq by done. by intros [= <-].
    + rewrite list_lookup_insert_ne by done. apply H3.
  - intros e' Hb%Hrem'. destruct (H4 e' Hb) as [[y Hy] Hn]. split; [|done].
    destruct (decide (e = e')) as [<-|Hne]; [|exists y; by rewrite list_lookup_insert_ne].
    eexists. by apply list_lookup_insert_eq.
Qed.

Lemma removal_ends_ok t clears s s' :
  threads s !! t = Some (Removing [] clears) → entries s' = entries s → sensors_ s' = sensors_ s →
  threads s' = delete t (threads s) → sensors_ok s → sensors_ok s'.
Proof.
  intros Ht He Hse Hth. apply keeps_ok. split; rewrite ?He, ?Hse; [done| |by intros e x ?; exists x|].
  - intros e x Hx. by exists x.
  - intros e. unfold being_removed. rewrite Hth. split.
    + intros (u & pc & [Hne Hu]%lookup_delete_Some & Hin). by exists u, pc.
    + intros (u & pc & Hu & Hin). exists u, pc. split; [|done]. apply lookup_delete_Some. split; [|done].
      intros <-. simplify_eq. by apply not_elem_of_nil in Hin.
Qed.

(** Registered sensors are distinct. *)
Lemma registered_once id id' e s : sensors_ok s → sensors_ s !! id = Some e → sensors_ s !! id' = Some e → id = id'.
Proof.
  intros Hs H1%(ok_registered _ Hs) H2%(ok_registered _ Hs). destruct H1 as (x & ? & ? & _), H2 as (x' & ? & ? & _).
  congruence.
Qed.

Lemma unregister_ok t id s :
  threads s !! t = None → sensors_ok s → sensors_ok (unregister_begins t id s).2.
Proof.
  intros Ht Hs. unfold unregister_begins. case_bool_decide; [done|].
  destruct (sensors_ s !! id) as [e|] eqn:Eid; [|done].
  eapply (withdraw_ok t [e] false s); [done..| | | |done]; simpl.
  - intros id' e' [Hne Hid']%lookup_delete_Some. split; [done|]. intros ->%list_elem_of_singleton.
    by apply Hne, (registered_once id id' e s).
  - intros id' e' Hid'. destruct (decide (id = id')) as [<-|Hne]; [right; simplify_eq; by left|].
    left. by rewrite lookup_delete_ne.
  - intros e' ->%list_elem_of_singleton. by exists id.
Qed.

Lemma shutdown_ok t s : threads s !! t = None → sensors_ok s → sensors_ok (shutdown_begins t s).2.
Proof.
  intros Ht Hs.
  assert (Hes : ∀ e, e ∈ (bindings (sensors_ s)).*2 ↔ ∃ id, sensors_ s !! id = Some e).
  { intros e. rewrite list_elem_of_fmap. split.
    - intros ([id e'] & -> & Hin%elem_of_bindings). by exists id.
    - intros [id Hid]. exists (id, e). by rewrite elem_of_bindings. }
  eapply (withdraw_ok t (bindings (sensors_ s)).*2 true s); [done..| | | |done]; simpl.
  - intros id e. by rewrite lookup_empty.
  - intros id e Hid. right. apply Hes. by exists id.
  - intros e. apply Hes.
Qed.

Lemma exec_ok l s a evs s' : sensor_exec l s = Some (a, evs, s') → sensors_ok s → sensors_ok s'.
Proof.
  intros E Hs. destruct (plain l) eqn:Hl; [by eapply plain_ok|].
  destruct l; try done; unfold sensor_exec, entry_exec, read_exec, begins in E.
  - pose proof (Register_ok answer s Hs) as H. destruct (RegisterSensor answer s). by simplify_eq/=.
  - destruct (threads s !! thread) eqn:Et; [done|]. apply step_state in E. subst s'. by apply unregister_ok.
  - destruct (threads s !! thread) eqn:Et; [done|]. apply step_state in E. subst s'. by apply shutdown_ok.
  - destruct (threads s !! thread) as [[[|e es] clears| | | | | | | |]|] eqn:Et; try done.
    destruct (entries s !! e) as [x|] eqn:Ex; [simpl in E|by simplify_eq/=]. injection E as <- <- <-.
    by apply removes_ok with (clears := clears).
  - destruct (threads s !! thread) as [[[|e es] clears| | | | | | | |]|] eqn:Et; try done.
    apply step_state in E. subst s'. apply (removal_ends_ok thread clears s); [done|by destruct clears..|done].
  - unfold Subscribe in E. destruct listener; injection E as <- <- <-; [|done]. eapply keeps_ok; [|exact Hs].
    split; simpl; [done|by intros e x ?; exists x|by intros e x ?; exists x|done].
  - unfold Unsubscribe in E. destruct (id =? 0); [by injection E as <- <- <-|].
    destruct (listeners_ s !! id); injection E as <- <- <-; [|done]. eapply keeps_ok; [|exact Hs].
    split; simpl; [done|by intros e x ?; exists x|by intros e x ?; exists x|done].
Qed.

Lemma new_ok : sensors_ok new_SensorManager.
Proof.
  split; simpl.
  - intros id e. by rewrite lookup_empty.
  - done.
  - done.
  - intros e (t & pc & Ht & _). simpl in Ht. by rewrite lookup_empty in Ht.
Qed.

Lemma sensor_run_invariant (P : SensorManager → Prop) (ok : SensorLabel → Prop) ls :
  (∀ l s a evs s', ok l → sensor_exec l s = Some (a, evs, s') → P s → P s') →
  ∀ s evs s', Forall ok ls → sensor_run ls s = Some (evs, s') → P s → P s'.
Proof.
  intros Hstep. induction ls as [|l ls IH]; intros s evs s' Hls E Hs; simpl in E; [by simplify_eq|].
  inversion_clear Hls. destruct (sensor_exec l s) as [[[a evs1] s1]|] eqn:E1; [|done]. simpl in E.
  destruct (sensor_run ls s1) as [[evs2 s2]|] eqn:E2; [|done]. simpl in E. simplify_eq. eauto.
Qed.

Lemma run_ok ls evs s : sensor_run ls new_SensorManager = Some (evs, s) → sensors_ok s.
Proof.
  intros H. eapply (sensor_run_invariant sensors_ok (λ _, True)); [|by apply Forall_true|exact H|apply new_ok].
  intros. by eapply exec_ok.
Qed.

(* ------------------------------------------------------------------ *)
(** ** A removed sensor *)

(** The sensor of [e] has been removed, and no thread is about to do it. *)
Definition resting (e : nat) s : Prop :=
  (∃ x, entries s !! e = Some x ∧ removed x = true) ∧ ¬ being_removed e s.

Lemma unregistered_rests (e : nat) x s :
  sensors_ok s → entries s !! e = Some x → (∀ id, sensors_ s !! id ≠ Some e) → ¬ being_removed e s → resting e s.
Proof.
  intros Hs Hx Hn Hb. split; [|done]. exists x. split; [done|]. destruct (removed x) eqn:Hr; [done|].
  destruct (ok_unremoved _ Hs e x Hx Hr) as [H|?]; [by apply Hn in H|done].
Qed.

Lemma resting_unregistered e id s : sensors_ok s → resting e s → sensors_ s !! id ≠ Some e.
Proof.
  intros Hs [(x & Hx & Hr) _] Hid. destruct (ok_registered _ Hs id e Hid) as (x' & Hx' & _ & Hr'). congruence.
Qed.

Lemma keeps_resting e s s' : keeps s s' → resting e s → resting e s'.
Proof.
  intros [_ K2 _ K4] [(x & Hx & Hr) Hb]. split; [|by rewrite K4].
  destruct (K2 e x Hx) as (x' & Hx' & _ & Hr' & _). exists x'. split; [done|congruence].
Qed.

(** A thread that removes other sensors. *)
Lemma removal_resting e t pc s s' :
  threads s' = <[t := pc]> (threads s) → e ∉ removal_list pc →
  (∀ x, entries s !! e = Some x → entries s' !! e = Some x) → resting e s → resting e s'.
Proof.
  intros Ht He Hent [(x & Hx & Hr) Hb]. split; [exists x; auto|].
  rewrite (being_removed_insert t pc s' s e Ht). intros [?|(u & pc' & _ & ? & ?)]; [done|].
  apply Hb. by exists u, pc'.
Qed.

Lemma resting_step e l s a evs s' :
  sensors_ok s → resting e s → sensor_exec l s = Some (a, evs, s') → resting e s'.
Proof.
  intros Hs He E. assert (Hnr := λ id, resting_unregistered e id s Hs He). destruct (plain l) eqn:Hl.
  { destruct (plain_exec l s a evs s' Hl E) as [H| ->]; [|done]. eapply keeps_resting; [by apply plain_step_keeps|done]. }
  destruct l; try done; unfold sensor_exec, entry_exec, read_exec, begins in E.
  - unfold RegisterSensor in E. destruct answer as [[c|what|]|]; try by simplify_eq/=.
    destruct (negb _); [by simplify_eq/=|]. case_bool_decide; simplify_eq/=; [done|].
    destruct He as [(x & Hx & Hr) Hb]. split; [|done]. exists x. split; [|done]. by apply lookup_app_l_Some.
  - destruct (threads s !! thread); [done|]. apply step_state in E. subst s'. unfold unregister_begins.
    case_bool_decide; [done|]. destruct (sensors_ s !! id) as [e'|] eqn:Eid; [|done].
    eapply removal_resting; [done| |done|done]. intros ->%list_elem_of_singleton. by apply (Hnr id).
  - destruct (threads s !! thread); [done|]. apply step_state in E. subst s'.
    eapply removal_resting; [done| |done|done]. simpl.
    intros ([id e'] & -> & Hin%elem_of_bindings)%list_elem_of_fmap. by apply (Hnr id).
  - destruct (threads s !! thread) as [[[|e' es] clears| | | | | | | |]|] eqn:Et; try done.
    destruct (entries s !! e') as [y|] eqn:Ey; [simpl in E|by simplify_eq/=]. injection E as <- <- <-.
    assert (Hne : e ∉ e' :: es).
    { intros Hin. apply He. by exists thread, (Removing (e' :: es) clears). }
    eapply (removal_resting e thread (Removing es clears) s); [done| | |exact He]; simpl; [set_solver|]. intros x Hx. rewrite list_lookup_insert_ne; [done|set_solver].
  - destruct (threads s !! thread) as [[[|e' es] clears| | | | | | | |]|] eqn:Et; try done.
    apply step_state in E. subst s'. destruct He as [(x & Hx & Hr) Hb]. split; [exists x; by destruct clears|].
    intros (u & pc & Hu & Hin). apply Hb. exists u, pc. split; [|done].
    destruct clears; simpl in Hu; by apply lookup_delete_Some in Hu as [_ ?].
  - unfold Subscribe in E. destruct listener; injection E as <- <- <-; done.
  - unfold Unsubscribe in E. destruct (id =? 0); [by injection E as <- <- <-|].
    destruct (listeners_ s !! id); injection E as <- <- <-; done.
Qed.

Lemma step_events (x : Step) (s' : SensorManager) a evs : Some x = Some (a, evs, s') → x.1.2 = evs.
Proof. by intros [= ->]. Qed.

Lemma frame_read_events t r after s : (frame_read t r after s).1.2 = [].
Proof. by destruct after. Qed.

Lemma health_read_events t r more s : (health_read t r more s).1.2 = [].
Proof. by destruct more as [[? ?]|]. Qed.

Lemma read_begins_events t id after s : (read_begins t id after s).1.2 = [].
Proof. unfold read_begins. destruct (FindEntry id s); [done|apply frame_read_events]. Qed.

Lemma health_begins_events t id more s : (health_begins t id more s).1.2 = [].
Proof. unfold health_begins. destruct (FindEntry id s); [done|apply health_read_events]. Qed.

Lemma with_events_events evs (x : Step) : (with_events evs x).1.2 = evs ++ x.1.2.
Proof. done. Qed.

(** When a transition makes a call. *)
Definition call_allowed s (ev : SensorEvent Listener) : Prop :=
  match ev with
  | SensorCalled e call =>
      call = CallHealth ∨ being_removed e s ∨ ∃ x, entries s !! e = Some x ∧ removed x = false
  | ListenerCalled l id frame =>
      ∃ t r ls callbacks failures after, threads s !! t = Some (Calling r (l :: ls) callbacks failures after) ∧
        id = result_sensorId r ∧ frame = result_frame r
  end.

Lemma event_allowed l s a evs s' ev :
  sensor_exec l s = Some (a, evs, s') → ev ∈ evs → call_allowed s ev.
Proof.
  intros E Hin.
  destruct l; unfold sensor_exec, entry_exec, read_exec, begins in E;
    try (destruct (threads s !! thread) as [pc|] eqn:Epc; [destruct pc|]); try done;
    repeat match type of E with
    | context [match ?ids with [] => _ | _ :: _ => _ end] => destruct ids; try done
    end.
  all: try (destruct (entries s !! _) as [x|] eqn:Ex; [simpl in E|by simplify_eq/=]).
  all: try (destruct (invoke_lifecycle op answer now x) as [[st x'] calls] eqn:Hx).
  all: try (destruct (query_health _ _ _ _) as [r x']).
  all: try (destruct (read_sensor answer now now' x) as [[r x']|] eqn:Hx).
  all: try (destruct (RegisterSensor _ _)); try (destruct (Subscribe _ _) as [[??]?]); try (destruct (Unsubscribe _ _)).
  all: try (destruct (FindEntry id s)).
  all: apply step_events in E; subst evs.
  all: rewrite ?with_events_events, ?frame_read_events, ?health_read_events, ?read_begins_events, ?health_begins_events in Hin.
  all: rewrite ?app_nil_r in Hin; try (by apply not_elem_of_nil in Hin).
  1-2: unfold unregister_begins in Hin; repeat case_match; by apply not_elem_of_nil in Hin.
  - simpl in Hin. assert (He : being_removed n s) by (exists thread; eexists; split; [exact Epc|by left]).
    rewrite !elem_of_cons in Hin. destruct Hin as [->|[->|Hin]]; [right; by left..|]. by apply not_elem_of_nil in Hin.
  - apply list_elem_of_fmap in Hin as (c & -> & Hin). right. right. unfold invoke_lifecycle in Hx.
    exists x. split; [done|]. destruct (removed x); [|done]. simplify_eq. by apply not_elem_of_nil in Hin.
  - simpl in Hin. apply list_elem_of_singleton in Hin as ->. right. right.
    exists x. split; [done|]. unfold read_sensor in Hx. by destruct (removed x).
  - simpl in Hin. apply list_elem_of_singleton in Hin as ->. simpl. by repeat eexists.
  - simpl in Hin. apply list_elem_of_singleton in Hin as ->. by left.
Qed.

Lemma resting_run e ls s evs s' :
  sensors_ok s → resting e s → sensor_run ls s = Some (evs, s') →
  resting e s' ∧ ∀ call, SensorCalled e call ∈ evs → call = CallHealth.
Proof.
  revert s evs. induction ls as [|l ls IH]; intros s evs Hs He E; simpl in E.
  { simplify_eq. split; [done|]. intros call H. by apply not_elem_of_nil in H. }
  destruct (sensor_exec l s) as [[[a evs1] s1]|] eqn:E1; [|done]. simpl in E.
  destruct (sensor_run ls s1) as [[evs2 s2]|] eqn:E2; [|done]. simpl in E. simplify_eq.
  destruct (IH s1 evs2) as [Hr Hc]; [by eapply exec_ok|by eapply resting_step|done|]. split; [done|].
  intros call [Hin|Hin]%elem_of_app; [|by apply Hc].
  destruct He as [(x & Hx & Hrem) Hb].
  destruct (event_allowed _ _ _ _ _ _ E1 Hin) as [?|[?|(x' & ? & ?)]]; [done..|congruence].
Qed.
End Manager.
