(* ===== verification/SensorAccounts.v ===== *)
(** * What the sensor manager counts and routes

    Every sensor that was registered is registered or was unregistered; every
    frame a sensor produced was routed or is about to be, and every failure was
    counted or is about to be, modulo [2 ^ 64]; and whatever a listener is given
    came from a sensor of its kind. *)

From S2P Require Import Prelude Command Status InstanceLedger Sensors SensorManager SensorManagerProofs.

Open Scope Z_scope.

(* ------------------------------------------------------------------ *)
(** ** Sums *)

Definition total {A} (f : A → Z) (l : list A) : Z := foldr (λ x acc, f x + acc) 0 l.

Lemma total_app {A} (f : A → Z) l l' : total f (l ++ l') = total f l + total f l'.
Proof. unfold total. induction l as [|x l IH]; simpl; [done|]. rewrite IH. lia. Qed.

Lemma total_insert {A} (f : A → Z) l i x y :
  l !! i = Some x → total f (<[i := y]> l) = total f l + f y - f x.
Proof.
  unfold total. revert i. induction l as [|z l IH]; intros [|i] Hi; simplify_eq/=; [lia|]. rewrite (IH i Hi). lia.
Qed.

Lemma u64_plus_eq64 x n : u64_plus x n ≡₆₄ x + n.
Proof. unfold eq64, u64_plus. by rewrite Zmod_mod. Qed.

(* ------------------------------------------------------------------ *)
(** ** Accounts *)

Section Accounts.
Context {Listener : Type}.
#[local] Notation SensorManager := (SensorManager Listener).
#[local] Notation SensorPc := (SensorPc Listener).
#[local] Notation SensorLabel := (SensorLabel Listener).
#[local] Notation Step := (Step Listener).
Implicit Types (s : SensorManager) (pc : SensorPc).

(** The threads that are about to route a frame, or to count a failure. *)
Definition to_route pc : option string := match pc with Routing _ _ => Some "" | _ => None end.
Definition to_count pc : option string := match pc with ReadFailed _ _ => Some "" | _ => None end.

Definition threads_at (counts : SensorPc → option string) s : Z := Z.of_nat (tracked counts "" (threads s)).

Definition at_point (counts : SensorPc → option string) (q : option SensorPc) : Z :=
  match q with Some pc => Z.of_nat (weight counts "" pc) | None => 0 end.

Lemma threads_at_moved counts t q s s' :
  moved t q s s' → threads_at counts s' + at_point counts (threads s !! t) = threads_at counts s + at_point counts q.
Proof.
  intros ->. unfold threads_at, at_point. destruct q as [pc|]; simpl.
  - pose proof (tracked_insert counts "" t pc (threads s)) as H. unfold weight_at in H.
    destruct (threads s !! t); lia.
  - pose proof (tracked_delete counts "" t (threads s)) as H. unfold weight_at in H.
    destruct (threads s !! t); lia.
Qed.

Definition produced (x : Entry) : Z := framesProduced (entry_state x).
Definition failed_reads (x : Entry) : Z := frameErrors (entry_state x).

Definition registered_balance s : Z :=
  registrations (statistics_ s) - unregistrations (statistics_ s) - Z.of_nat (size (sensors_ s)).
Definition frames_balance s : Z := total produced (entries s) - routedFrames (statistics_ s).
Definition errors_balance s : Z := total failed_reads (entries s) - readFailures (statistics_ s).

Record accounts s : Prop := {
  accounts_registered : registered_balance s ≡₆₄ 0;
  accounts_frames : frames_balance s ≡₆₄ threads_at to_route s;
  accounts_errors : errors_balance s ≡₆₄ threads_at to_count s;
}.

(** A thread moves to [q], and the counters of [s0] agree. *)
Record balanced t q s s0 : Prop := {
  balanced_threads : threads s0 = threads s;
  balanced_registered : registered_balance s0 ≡₆₄ registered_balance s;
  balanced_frames :
    frames_balance s0 + at_point to_route (threads s !! t) ≡₆₄ frames_balance s + at_point to_route q;
  balanced_errors :
    errors_balance s0 + at_point to_count (threads s !! t) ≡₆₄ errors_balance s + at_point to_count q;
}.

Lemma balanced_accounts t q s s0 s' : moved t q s0 s' → balanced t q s s0 → accounts s → accounts s'.
Proof.
  intros Hm [Ht Hr Hf He] [H1 H2 H3].
  pose proof (threads_at_moved to_route _ _ _ _ Hm) as Mr. pose proof (threads_at_moved to_count _ _ _ _ Hm) as Mc.
  assert (Tr : threads_at to_route s0 = threads_at to_route s) by (unfold threads_at; by rewrite Ht).
  assert (Tc : threads_at to_count s0 = threads_at to_count s) by (unfold threads_at; by rewrite Ht).
  rewrite Ht in Mr, Mc.
  assert (B : registered_balance s' = registered_balance s0 ∧ frames_balance s' = frames_balance s0 ∧
              errors_balance s' = errors_balance s0) by (by rewrite Hm).
  destruct B as (B1 & B2 & B3). split; rewrite ?B1, ?B2, ?B3.
  - by rewrite Hr.
  - clear He H3 B1 B2 B3 Mc. congr64.
  - clear Hf H2 B1 B2 B3 Mr. congr64.
Qed.

(** The counters stay; the thread is at no counted point, or stays at one. *)
Lemma balanced_same t q s s0 :
  threads s0 = threads s → registered_balance s0 = registered_balance s → frames_balance s0 = frames_balance s →
  errors_balance s0 = errors_balance s → at_point to_route (threads s !! t) = at_point to_route q →
  at_point to_count (threads s !! t) = at_point to_count q → balanced t q s s0.
Proof. intros Ht H1 H2 H3 H4 H5. split; by rewrite ?H1, ?H2, ?H3, ?H4, ?H5. Qed.

Lemma settled_route (q : option SensorPc) : settled q → at_point to_route q = 0 ∧ at_point to_count q = 0.
Proof. by destruct q as [[]|]. Qed.

(** A thread at no counted point. *)
Definition quiet (t : nat) s : Prop :=
  at_point to_route (threads s !! t) = 0 ∧ at_point to_count (threads s !! t) = 0.

Lemma quiet_balanced t q s s0 :
  quiet t s → at_point to_route q = 0 ∧ at_point to_count q = 0 →
  threads s0 = threads s → registered_balance s0 = registered_balance s → frames_balance s0 = frames_balance s →
  errors_balance s0 = errors_balance s → balanced t q s s0.
Proof. intros [Q1 Q2] [H1 H2] **. apply balanced_same; congruence. Qed.

Lemma account_moves t q s s' : quiet t s → moved t q s s' → at_point to_route q = 0 ∧ at_point to_count q = 0 →
  accounts s → accounts s'.
Proof. intros. eapply balanced_accounts; [done| |done]. by apply quiet_balanced. Qed.

Lemma account_frame_read t r after s s0 :
  (∀ q, settled q → balanced t q s s0) → accounts s → accounts (frame_read t r after s0).2.
Proof.
  intros Hq Hs. destruct (frame_read_moved t r after s0) as (q & Hset & Hm).
  eapply balanced_accounts; [exact Hm|by apply Hq|done].
Qed.

Lemma account_health_read t r more s s0 :
  (∀ q, settled q → balanced t q s s0) → accounts s → accounts (health_read t r more s0).2.
Proof.
  intros Hq Hs. destruct (health_read_moved t r more s0) as (q & Hset & Hm).
  eapply balanced_accounts; [exact Hm|by apply Hq|done].
Qed.

Lemma account_read_begins t id after s : quiet t s → accounts s → accounts (read_begins t id after s).2.
Proof.
  intros Hq Hs. destruct (read_begins_moved t id after s) as (q & Hset & Hm).
  eapply account_moves; [done|exact Hm| |done]. destruct Hset as [?|(e & _ & ->)]; [by apply settled_route|done].
Qed.

Lemma account_health_begins t id more s : quiet t s → accounts s → accounts (health_begins t id more s).2.
Proof.
  intros Hq Hs. destruct (health_begins_moved t id more s) as (q & Hset & Hm).
  eapply account_moves; [done|exact Hm| |done]. destruct Hset as [?|(e & _ & ->)]; [by apply settled_route|done].
Qed.

(** Calls that leave the counts of the entry. *)
Lemma update_balances e x x' s :
  entries s !! e = Some x → produced x' = produced x → failed_reads x' = failed_reads x →
  frames_balance (update_entry e x' s) = frames_balance s ∧ errors_balance (update_entry e x' s) = errors_balance s.
Proof.
  intros Hx Hp Hf. unfold frames_balance, errors_balance. simpl.
  rewrite (total_insert produced _ _ _ _ Hx), (total_insert failed_reads _ _ _ _ Hx). lia.
Qed.

Lemma lifecycle_counts op answer now x :
  produced (invoke_lifecycle op answer now x).1.2 = produced x ∧
  failed_reads (invoke_lifecycle op answer now x).1.2 = failed_reads x.
Proof.
  unfold invoke_lifecycle, produced, failed_reads. destruct (removed x); [done|].
  destruct answer as [st|what|]; simpl; [by destruct (isOk st)|done..].
Qed.

Lemma health_counts answer now now' x :
  produced (query_health answer now now' x).2 = produced x ∧
  failed_reads (query_health answer now now' x).2 = failed_reads x.
Proof. by destruct answer. Qed.

(** The entry of a thread that reads a frame. *)
Lemma read_balanced t e after x r x' answer now now' s :
  threads s !! t = Some (Reading e after) → entries s !! e = Some x →
  read_sensor answer now now' x = Some (r, x') →
  balanced t (Some (if isOk (result_status r) then Routing r after else ReadFailed r after)) s (update_entry e x' s).
Proof.
  intros Ht Hx Hr. apply read_sensor_counts in Hr as [Hp Hf].
  split; [done|done|..]; rewrite Ht; unfold frames_balance, errors_balance; simpl;
    rewrite (total_insert _ _ _ _ _ Hx); unfold produced, failed_reads; rewrite ?Hp, ?Hf;
    destruct (isOk (result_status r)); simpl.
  all: unfold weight; simpl; rewrite ?one_same; clear; congr64.
Qed.

(** The thread counts its failure, or the frame it is to route. *)
Lemma counted_balanced t r after q s :
  threads s !! t = Some (ReadFailed r after) → at_point to_route q = 0 ∧ at_point to_count q = 0 →
  balanced t q s (s <| statistics_ ::= set_field readFailures u64_incr |>).
Proof.
  intros Ht [Q1 Q2]. split; rewrite ?Ht, ?Q1, ?Q2; [done..|]. unfold errors_balance. simpl.
  unfold weight. simpl. rewrite one_same. clear. congr64.
Qed.

Lemma routed_balanced t r after q s :
  threads s !! t = Some (Routing r after) → at_point to_route q = 0 ∧ at_point to_count q = 0 →
  balanced t q s (s <| statistics_ ::= set_field routedFrames u64_incr |>).
Proof.
  intros Ht [Q1 Q2]. split; rewrite ?Ht, ?Q1, ?Q2; [done|done| |done]. unfold frames_balance. simpl.
  unfold weight. simpl. rewrite one_same. clear. congr64.
Qed.

(** The maps of the manager. *)
Lemma registration_accounts answer s : accounts s → accounts (RegisterSensor answer s).2.
Proof.
  intros Hs. unfold RegisterSensor. destruct answer as [[c|what|]|]; [|done..].
  destruct (negb _); [done|]. case_bool_decide as Hid; [done|]. apply eq_None_not_Some in Hid.
  destruct Hs as [H1 H2 H3]. split.
  - unfold registered_balance in *. simpl. rewrite map_size_insert_None by done. rewrite Nat2Z.inj_succ.
    clear H2 H3. congr64.
  - unfold frames_balance in *. simpl. rewrite total_app. simpl. unfold produced at 2. simpl.
    change (threads_at to_route _) with (threads_at to_route s). by rewrite Z.add_0_r.
  - unfold errors_balance in *. simpl. rewrite total_app. simpl. unfold failed_reads at 2. simpl.
    change (threads_at to_count _) with (threads_at to_count s). by rewrite Z.add_0_r.
Qed.

Lemma withdrawal_accounts t (es : list nat) clears n s s0 s' :
  threads s !! t = None → threads s0 = threads s → entries s0 = entries s →
  routedFrames (statistics_ s0) = routedFrames (statistics_ s) →
  readFailures (statistics_ s0) = readFailures (statistics_ s) →
  registrations (statistics_ s0) = registrations (statistics_ s) →
  unregistrations (statistics_ s0) ≡₆₄ unregistrations (statistics_ s) + n →
  Z.of_nat (size (sensors_ s)) = Z.of_nat (size (sensors_ s0)) + n →
  moved t (Some (Removing es clears)) s0 s' → accounts s → accounts s'.
Proof.
  intros Ht Hth He Hr Hf Hreg Hun Hsize Hm Hs. eapply balanced_accounts; [exact Hm| |exact Hs]. split.
  - done.
  - unfold registered_balance. rewrite Hreg, Hun. clear -Hsize. congr64.
  - unfold frames_balance. by rewrite He, Hr, Ht.
  - unfold errors_balance. by rewrite He, Hf, Ht.
Qed.

Lemma unregister_accounts t id s : threads s !! t = None → accounts s → accounts (unregister_begins t id s).2.
Proof.
  intros Ht Hs. unfold unregister_begins. case_bool_decide; [done|].
  destruct (sensors_ s !! id) as [e|] eqn:Eid; [|done].
  apply (withdrawal_accounts t [e] false 1 s
    (s <| sensors_ ::= delete id |> <| statistics_ ::= set_field unregistrations u64_incr |>)); try done; simpl.
  - apply u64_incr_eq64.
  - rewrite map_size_delete_Some by by eexists. assert (size (sensors_ s) ≠ 0)%nat; [|lia].
    intros H0%map_size_empty_iff. by rewrite H0, lookup_empty in Eid.
Qed.

Lemma shutdown_accounts t s : threads s !! t = None → accounts s → accounts (shutdown_begins t s).2.
Proof.
  intros Ht Hs.
  apply (withdrawal_accounts t (bindings (sensors_ s)).*2 true (Z.of_nat (size (sensors_ s))) s
    (s <| sensors_ := ∅ |>
       <| statistics_ ::= set_field unregistrations (λ x, u64_plus x (Z.of_nat (size (sensors_ s)))) |>));
    try done; simpl. apply u64_plus_eq64.
Qed.

Lemma quiet_at t pc s : threads s !! t = Some pc → to_route pc = None → to_count pc = None → quiet t s.
Proof. intros Ht Hr Hc. unfold quiet, at_point. rewrite Ht. unfold weight. by rewrite Hr, Hc. Qed.

Lemma quiet_out t s : threads s !! t = None → quiet t s.
Proof. intros Ht. unfold quiet. by rewrite Ht. Qed.

#[local] Hint Resolve quiet_at quiet_out : sensors.
#[local] Hint Resolve account_read_begins account_health_begins : sensors.

(** The transitions of [entry_exec]. *)
Lemma accounts_entry l s a evs s' : entry_exec l s = Some (a, evs, s') → accounts s → accounts s'.
Proof.
  intros E Hs. destruct l; try done; unfold entry_exec, begins in E;
    (destruct (threads s !! thread) as [pc|] eqn:Epc; [destruct pc|]); try done;
    repeat match type of E with
    | context [match ?ids with [] => _ | _ :: _ => _ end] => destruct ids; try done
    end;
    assert (Hq : quiet thread s) by (first [by apply quiet_out | eapply quiet_at; [exact Epc|done..]]).
  - apply step_state in E. subst s'. by apply unregister_accounts.
  - apply step_state in E. subst s'. by apply shutdown_accounts.
  - destruct (entries s !! n) as [x|] eqn:Ex; simplify_eq/=.
    destruct (update_balances n x (mark_removed now x) s Ex eq_refl eq_refl) as [B1 B2].
    eapply (balanced_accounts thread (Some (Removing es clears)) s (update_entry n (mark_removed now x) s));
      [done|by apply quiet_balanced|done].
  - apply step_state in E. subst s'. eapply (balanced_accounts thread None s (if clears then s <| listeners_ := ∅ |> else s));
      [done| |done]. by destruct clears; apply quiet_balanced.
  - destruct (FindEntry id s) as [e|]; apply step_state in E; subst s'; [|done].
    by eapply (account_moves thread (Some (Operating e op)) s).
  - destruct (entries s !! e) as [x|] eqn:Ex; [simpl in E|by simplify_eq/=].
    destruct (lifecycle_counts op answer now x) as [C1 C2].
    destruct (invoke_lifecycle op answer now x) as [[st x'] calls]. apply step_state in E. subst s'.
    destruct (update_balances e x x' s Ex C1 C2) as [B1 B2].
    eapply (balanced_accounts thread None s (update_entry e x' s)); [done|by apply quiet_balanced|done].
  - apply step_state in E. subst s'. by apply account_health_begins.
  - apply step_state in E. subst s'. by eapply (account_moves thread (Some (NextHealth _ [])) s).
  - apply step_state in E. subst s'. by eapply (account_moves thread None s).
  - apply step_state in E. subst s'. by apply account_health_begins.
  - destruct (entries s !! e) as [x|] eqn:Ex; [simpl in E|by simplify_eq/=].
    destruct (health_counts answer now now' x) as [C1 C2].
    destruct (query_health answer now now' x) as [r x']. apply step_state in E. subst s'.
    destruct (update_balances e x x' s Ex C1 C2) as [B1 B2]. rewrite with_events_state.
    apply (account_health_read _ _ _ s); [|done]. intros q Hset. apply quiet_balanced; [done|by apply settled_route|done..].
Qed.

(** The transitions of [read_exec]. *)
Lemma accounts_read l s a evs s' : read_exec l s = Some (a, evs, s') → accounts s → accounts s'.
Proof.
  intros E Hs. destruct l; try done; unfold read_exec, begins in E;
    (destruct (threads s !! thread) as [pc|] eqn:Epc; [destruct pc|]); try done;
    repeat match type of E with
    | context [match ?ids with [] => _ | _ :: _ => _ end] => destruct ids; try done
    end.
  - apply step_state in E. subst s'. apply account_read_begins; [by apply quiet_out|done].
  - apply step_state in E. subst s'. eapply (account_moves thread (Some (NextRead _ [])) s); [by apply quiet_out|done..].
  - apply step_state in E. subst s'. eapply (account_moves thread None s); [eapply quiet_at; [exact Epc|done..]|done..].
  - apply step_state in E. subst s'. apply account_read_begins; [eapply quiet_at; [exact Epc|done..]|done].
  - destruct (entries s !! e) as [x|] eqn:Ex; simpl in E; [|done].
    destruct (read_sensor answer now now' x) as [[r x']|] eqn:Er; apply step_state in E; subst s'.
    + eapply balanced_accounts; [|by eapply read_balanced|done]. done.
    + apply (account_frame_read _ _ _ s); [|done]. intros q Hset.
      apply quiet_balanced; [eapply quiet_at; [exact Epc|done..]|by apply settled_route|done..].
  - apply step_state in E. subst s'. apply (account_frame_read _ _ _ s); [|done]. intros q Hset.
    eapply counted_balanced; [exact Epc|by apply settled_route].
  - apply step_state in E. subst s'. eapply (balanced_accounts thread (Some (Calling r (listeners_in_order (listeners_ s)) 0 0 after)) s); [done|by eapply routed_balanced|done].
  - apply step_state in E. subst s'. eapply (account_moves thread (Some (Calling _ _ _ _ _)) s); [eapply quiet_at; [exact Epc|done..]|done..].
  - apply step_state in E. subst s'. apply (account_frame_read _ _ _ s); [|done]. intros q Hset.
    apply quiet_balanced; [eapply quiet_at; [exact Epc|done..]|by apply settled_route|by destruct (_ || _)..].
Qed.

Lemma accounts_exec l s a evs s' : sensor_exec l s = Some (a, evs, s') → accounts s → accounts s'.
Proof.
  intros E Hs. unfold sensor_exec in E.
  destruct l; try (destruct (entry_exec _ s) as [x|] eqn:Ee; [simplify_eq; by eapply accounts_entry|by eapply accounts_read]).
  - pose proof (registration_accounts answer s Hs) as H. destruct (RegisterSensor answer s). by simplify_eq/=.
  - unfold Subscribe in E. destruct listener; injection E as <- <- <-; by destruct Hs.
  - unfold Unsubscribe in E. destruct (id =? 0); [by injection E as <- <- <-|].
    destruct (listeners_ s !! id); injection E as <- <- <-; by destruct Hs.
Qed.

Lemma run_accounts ls evs s : sensor_run ls new_SensorManager = Some (evs, s) → accounts s.
Proof.
  intros H. eapply (sensor_run_invariant accounts (λ _, True)); [|by apply Forall_true|exact H|].
  - intros. by eapply accounts_exec.
  - by split.
Qed.
End Accounts.
