(* ===== verification/SensorProperties.v ===== *)
(** * What users of the sensor manager can rely on

    A sensor that is unregistered is left alone; the counters account for
    registrations and frames; what listeners are given comes from a sensor of
    its kind, with a time; and every operation ends. *)

From S2P Require Import Prelude Command Status InstanceLedger Sensors SensorManager SensorManagerProofs SensorAccounts.

Open Scope Z_scope.

Section Routing.
Context {Listener : Type}.
(** Whether the clock is known not to be at its epoch. *)
Context (clocked : Prop).
#[local] Notation SensorManager := (SensorManager Listener).
#[local] Notation SensorPc := (SensorPc Listener).
#[local] Notation SensorLabel := (SensorLabel Listener).
Implicit Types (s : SensorManager) (pc : SensorPc).

(* ------------------------------------------------------------------ *)
(** ** What is routed *)

(** A frame of the kind of the sensor of the entry [x], and with a time. *)
Definition frame_of (x : Entry) (f : SensorFrame) : Prop :=
  sensorType f = sensor_type (capabilities x) ∧ (clocked → frame_timestamp f ≠ 0).

Definition frame_from s (r : FrameResult) : Prop :=
  ∃ (e : nat) x, entries s !! e = Some x ∧ entry_id x = result_sensorId r ∧ frame_of x (result_frame r).

Definition pc_ok s pc : Prop :=
  match pc with
  | Operating e _ | Reading e _ | QueryingHealth e _ => is_Some (entries s !! e)
  | Routing r _ | Calling r _ _ _ _ => frame_from s r
  | _ => True
  end.

Record routing_ok s : Prop := {
  routing_pc t pc : threads s !! t = Some pc → pc_ok s pc;
  routing_latest (e : nat) x f : entries s !! e = Some x → latest_frame x = Some f → frame_of x f;
}.

(** Sensors keep their capabilities. *)
Definition persists s s' : Prop :=
  ∀ (e : nat) x, entries s !! e = Some x → ∃ x', entries s' !! e = Some x' ∧ capabilities x' = capabilities x.

Lemma persists_pc s s' pc : persists s s' → pc_ok s pc → pc_ok s' pc.
Proof.
  intros H. assert (Hr : ∀ r, frame_from s r → frame_from s' r).
  { intros r (e & x & Hx & Hid & Hf). destruct (H e x Hx) as (x' & Hx' & Hc). exists e, x'.
    unfold entry_id, frame_of in *. by rewrite Hc. }
  assert (He : ∀ e : nat, is_Some (entries s !! e) → is_Some (entries s' !! e)).
  { intros e [x Hx]. destruct (H e x Hx) as (x' & ? & _). by exists x'. }
  destruct pc; simpl; auto.
Qed.

(** The latest frames of [s'] are of their sensors. *)
Definition latest_ok s : Prop :=
  ∀ (e : nat) x f, entries s !! e = Some x → latest_frame x = Some f → frame_of x f.

Lemma routing_moved t q s s0 s' :
  routing_ok s → moved t q s0 s' → threads s0 = threads s → persists s s0 → latest_ok s0 →
  match q with Some pc => pc_ok s0 pc | None => True end → routing_ok s'.
Proof.
  intros [Hpc _] -> Hth Hp Hl Hq.
  assert (He : ∀ pc, pc_ok s0 pc → pc_ok (s0 <| threads ::= match q with Some pc => <[t := pc]> | None => delete t end |>) pc).
  { intros []; done. }
  split; [|exact Hl]. intros u pc Hu. apply He. simpl in Hu. rewrite Hth in Hu.
  destruct q as [pc'|].
  - apply lookup_insert_Some in Hu as [[-> ->]|[_ Hu]]; [done|]. eapply persists_pc; [done|by eapply Hpc].
  - apply lookup_delete_Some in Hu as [_ Hu]. eapply persists_pc; [done|by eapply Hpc].
Qed.

Lemma persists_update (e : nat) x x' s :
  entries s !! e = Some x → capabilities x' = capabilities x → persists s (update_entry e x' s).
Proof.
  intros Hx Hc e' y Hy. simpl. destruct (decide (e = e')) as [<-|Hne].
  - exists x'. rewrite list_lookup_insert_eq by (by eapply lookup_lt_Some). simplify_eq. done.
  - exists y. by rewrite list_lookup_insert_ne.
Qed.

Lemma latest_update (e : nat) x x' s :
  latest_ok s → entries s !! e = Some x → capabilities x' = capabilities x →
  (latest_frame x' = latest_frame x ∨ ∃ f, latest_frame x' = Some f ∧ frame_of x f) →
  latest_ok (update_entry e x' s).
Proof.
  intros Hl Hx Hc Hf e' y f Hy Hyf. simpl in Hy. destruct (decide (e = e')) as [<-|Hne].
  - rewrite list_lookup_insert_eq in Hy by (by eapply lookup_lt_Some). simplify_eq.
    assert (Ho : frame_of x f).
    { destruct Hf as [Hf|(f' & Hf' & Ho)]; [apply (Hl e x f); congruence|congruence]. }
    unfold frame_of in *. by rewrite Hc.
  - rewrite list_lookup_insert_ne in Hy by done. by eapply Hl.
Qed.

(** Calls other than reads leave the latest frame. *)
Lemma lifecycle_latest op answer now x :
  latest_frame (invoke_lifecycle op answer now x).1.2 = latest_frame x.
Proof.
  unfold invoke_lifecycle. destruct (removed x); [done|].
  destruct answer as [st|what|]; simpl; [by destruct (isOk st)|done..].
Qed.

Lemma health_latest answer now now' x : latest_frame (query_health answer now now' x).2 = latest_frame x.
Proof. by destruct answer. Qed.

Lemma found_entry id e s : sensors_ok s → FindEntry id s = Some e → is_Some (entries s !! e).
Proof.
  unfold FindEntry. case_bool_decide; [done|]. intros Hs He.
  destruct (ok_registered _ Hs _ _ He) as (x & Hx & _). by exists x.
Qed.

Lemma settled_ok s q : settled q → match q with Some pc => pc_ok s pc | None => True end.
Proof. by destruct q as [[]|]. Qed.

Lemma persists_refl s s' : entries s' = entries s → persists s s'.
Proof. intros He e x Hx. exists x. by rewrite He. Qed.

(** Moves of a thread that leave the entries. *)
Lemma routing_goes_on t pc s s0 :
  routing_ok s → threads s0 = threads s → entries s0 = entries s → pc_ok s0 pc → routing_ok (goes_on t pc s0).2.
Proof.
  intros Hs Ht He Hpc. eapply (routing_moved t (Some pc) s s0); [done|done|done|by apply persists_refl| |done].
  unfold latest_ok. rewrite He. apply Hs.
Qed.

Lemma routing_answers t a s s0 :
  routing_ok s → threads s0 = threads s → persists s s0 → latest_ok s0 → routing_ok (answers t a s0).2.
Proof. intros. by eapply (routing_moved t None s s0). Qed.

Lemma routing_frame_read t r after s s0 :
  routing_ok s → threads s0 = threads s → entries s0 = entries s → routing_ok (frame_read t r after s0).2.
Proof.
  intros Hs Ht He. destruct (frame_read_moved t r after s0) as (q & Hq & Hm).
  eapply (routing_moved t q s s0); [done|done|done|by apply persists_refl| |by apply settled_ok].
  unfold latest_ok. rewrite He. apply Hs.
Qed.

Lemma routing_health_read t r more s s0 :
  routing_ok s → threads s0 = threads s → persists s s0 → latest_ok s0 → routing_ok (health_read t r more s0).2.
Proof.
  intros Hs Ht Hp Hl. destruct (health_read_moved t r more s0) as (q & Hq & Hm).
  eapply (routing_moved t q s s0); [done..|by apply settled_ok].
Qed.

Lemma routing_read_begins t id after s :
  sensors_ok s → routing_ok s → routing_ok (read_begins t id after s).2.
Proof.
  intros Hok Hs. unfold read_begins. destruct (FindEntry id s) as [e|] eqn:E.
  - apply (routing_goes_on t _ s); [done..|]. by apply (found_entry id).
  - by apply (routing_frame_read t _ _ s).
Qed.

Lemma routing_health_begins t id more s :
  sensors_ok s → routing_ok s → routing_ok (health_begins t id more s).2.
Proof.
  intros Hok Hs. unfold health_begins. destruct (FindEntry id s) as [e|] eqn:E.
  - apply (routing_goes_on t _ s); [done..|]. by apply (found_entry id).
  - apply (routing_health_read t _ _ s); [done|done|by apply persists_refl|exact (routing_latest _ Hs)].
Qed.

(** The clock is not at its epoch when a frame is given a time. *)
Definition stamped (l : SensorLabel) : bool :=
  match l with SensorReads _ _ now _ => negb (now =? 0) | _ => true end.

Lemma routing_entry l s a evs s' :
  entry_exec l s = Some (a, evs, s') → sensors_ok s → routing_ok s → routing_ok s'.
Proof.
  intros E Hok Hs. assert (Hl := routing_latest _ Hs). destruct l; try done; unfold entry_exec, begins in E;
    (destruct (threads s !! thread) as [pc|] eqn:Epc; [destruct pc|]); try done;
    repeat match type of E with
    | context [match ?ids with [] => _ | _ :: _ => _ end] => destruct ids; try done
    end.
  - apply step_state in E. subst s'. unfold unregister_begins. case_bool_decide; [done|].
    destruct (sensors_ s !! id); [|done]. by apply (routing_goes_on thread _ s).
  - apply step_state in E. subst s'. by apply (routing_goes_on thread _ s).
  - destruct (entries s !! n) as [x|] eqn:Ex; [|done]. simpl in E. injection E as <- <- <-.
    eapply (routing_moved thread (Some (Removing es clears)) s (update_entry n (mark_removed now x) s)); [done|done|done| | |done].
    + by apply (persists_update n x).
    + apply (latest_update n x); [done|done|done|by left].
  - apply step_state in E. subst s'.
    apply (routing_answers thread _ s); [done|by destruct clears|by apply persists_refl; destruct clears|].
    by destruct clears.
  - destruct (FindEntry id s) as [e|] eqn:Ef; apply step_state in E; subst s'; [|done].
    apply (routing_goes_on thread _ s); [done..|]. by apply (found_entry id).
  - destruct (entries s !! e) as [x|] eqn:Ex; [simpl in E|by simplify_eq/=].
    pose proof (lifecycle_latest op answer now x) as Hlf. pose proof (invoke_lifecycle_same op answer now x) as [Hc _].
    destruct (invoke_lifecycle op answer now x) as [[st x'] calls]. apply step_state in E. subst s'. simpl in *.
    apply (routing_answers thread (AnswerStatus st) s (update_entry e x' s));
      [done|done|by apply (persists_update e x)|]. apply (latest_update e x); [done|done|done|by left].
  - apply step_state in E. subst s'. by apply routing_health_begins.
  - apply step_state in E. subst s'. by apply (routing_goes_on thread _ s).
  - apply step_state in E. subst s'. apply (routing_answers thread _ s); [done|done|by apply persists_refl|done].
  - apply step_state in E. subst s'. by apply routing_health_begins.
  - destruct (entries s !! e) as [x|] eqn:Ex; [simpl in E|by simplify_eq/=].
    pose proof (health_latest answer now now' x) as Hlf. pose proof (query_health_same answer now now' x) as [Hc _].
    destruct (query_health answer now now' x) as [r x']. apply step_state in E. subst s'. simpl in Hlf, Hc.
    rewrite with_events_state. apply (routing_health_read thread _ _ s (update_entry e x' s));
      [done|done|by apply (persists_update e x)|]. apply (latest_update e x); [done|done|done|by left].
Qed.

Lemma routing_read l s a evs s' :
  (clocked → stamped l = true) → read_exec l s = Some (a, evs, s') → sensors_ok s → routing_ok s → routing_ok s'.
Proof.
  intros Hst E Hok Hs. assert (Hl := routing_latest _ Hs). destruct l; try done; unfold read_exec, begins in E;
    (destruct (threads s !! thread) as [pc|] eqn:Epc; [destruct pc|]); try done;
    repeat match type of E with
    | context [match ?ids with [] => _ | _ :: _ => _ end] => destruct ids; try done
    end; try (pose proof (routing_pc _ Hs _ _ Epc) as Hpc; simpl in Hpc).
  - apply step_state in E. subst s'. by apply routing_read_begins.
  - apply step_state in E. subst s'. by apply (routing_goes_on thread _ s).
  - apply step_state in E. subst s'. apply (routing_answers thread _ s); [done|done|by apply persists_refl|done].
  - apply step_state in E. subst s'. by apply routing_read_begins.
  - destruct (entries s !! e) as [x|] eqn:Ex; simpl in E; [|done].
    destruct (read_sensor answer now now' x) as [[r x']|] eqn:Er; apply step_state in E; subst s'.
    + pose proof (read_sensor_same _ _ _ _ _ _ Er) as [Hc _].
      destruct (read_sensor_frame _ _ _ _ _ _ Er) as (Hid & Hfr & Hkeep).
      simpl in Hst. rewrite negb_true_iff, Z.eqb_neq in Hst.
      eapply (routing_moved thread (Some (if isOk (result_status r) then Routing r after else ReadFailed r after))
        s (update_entry e x' s)); [done|done|done|by apply (persists_update e x)| |].
      * apply (latest_update e x); [done..|]. destruct (isOk (result_status r)); [|left; by apply Hkeep].
        destruct Hfr as (Ht & Hlf & Hn); [done|]. right. exists (result_frame r). split; [done|]. split; auto.
      * destruct (isOk (result_status r)); [|done]. destruct Hfr as (Ht & Hlf & Hn); [done|].
        exists e, x'. split; [by apply list_lookup_insert_eq; eapply lookup_lt_Some|].
        unfold entry_id, frame_of. rewrite Hc. split; [done|]. split; auto.
    + by apply (routing_frame_read thread _ _ s).
  - apply step_state in E. subst s'. by apply (routing_frame_read thread _ _ s).
  - apply step_state in E. subst s'. by apply (routing_goes_on thread _ s).
  - apply step_state in E. subst s'. by apply (routing_goes_on thread _ s).
  - apply step_state in E. subst s'. apply (routing_frame_read thread _ _ s); [done|by destruct (_ || _)..].
Qed.

Lemma routing_exec l s a evs s' :
  (clocked → stamped l = true) → sensor_exec l s = Some (a, evs, s') → sensors_ok s → routing_ok s → routing_ok s'.
Proof.
  intros Hst E Hok Hs. unfold sensor_exec in E.
  destruct l; try (destruct (entry_exec _ s) as [x|] eqn:Ee;
    [simplify_eq; by eapply routing_entry|by eapply routing_read]).
  - unfold RegisterSensor in E. destruct answer as [[c|what|]|]; try by simplify_eq/=.
    destruct (negb _); [by simplify_eq/=|]. case_bool_decide; [by simplify_eq/=|]. injection E as <- <- <-.
    destruct Hs as [H1 H2]. split; simpl.
    + intros t pc Hpc. eapply persists_pc; [|by eapply H1]. intros e x Hx. exists x. split; [|done].
      by apply lookup_app_l_Some.
    + intros e x f [Hx|[_ Hx]]%lookup_app_Some; [by eapply H2|].
      by apply list_lookup_singleton_Some in Hx as [_ <-].
  - unfold Subscribe in E. destruct listener; injection E as <- <- <-; by destruct Hs.
  - unfold Unsubscribe in E. destruct (id =? 0); [by injection E as <- <- <-|].
    destruct (listeners_ s !! id); injection E as <- <- <-; by destruct Hs.
Qed.

Lemma run_routing ls evs s :
  sensor_run ls new_SensorManager = Some (evs, s) → Forall (λ l, clocked → stamped l = true) ls →
  sensors_ok s ∧ routing_ok s.
Proof.
  intros H Hls.
  eapply (sensor_run_invariant (λ s, sensors_ok s ∧ routing_ok s) (λ l, clocked → stamped l = true)); [|exact Hls|exact H|].
  - intros l s0 a evs0 s1 Hl E [Hok Hr]. split; [by eapply exec_ok|by eapply routing_exec].
  - split; [apply new_ok|]. split; [|done]. intros t pc Ht. simpl in Ht. by rewrite lookup_empty in Ht.
Qed.

(** What listeners are given was routed by a reachable state; later states
    keep the sensor. *)
Lemma persists_exec l s a evs s' : sensor_exec l s = Some (a, evs, s') → persists s s'.
Proof.
  intros E. destruct (plain l) eqn:Hl.
  { destruct (plain_exec l s a evs s' Hl E) as [H%plain_step_keeps| ->]; [|by apply persists_refl].
    intros e x Hx. destruct (keeps_entry _ _ H e x Hx) as (x' & Hx' & Hc & _). by exists x'. }
  destruct l; try done; unfold sensor_exec, entry_exec, read_exec, begins in E.
  - unfold RegisterSensor in E. destruct answer as [[c|what|]|]; try (by simplify_eq/=; apply persists_refl).
    destruct (negb _); [by simplify_eq/=; apply persists_refl|].
    case_bool_decide; injection E as <- <- <-; [by apply persists_refl|].
    intros e x Hx. exists x. split; [|done]. by apply lookup_app_l_Some.
  - destruct (threads s !! thread); [done|]. apply step_state in E. subst s'. unfold unregister_begins.
    case_bool_decide; [by apply persists_refl|]. destruct (sensors_ s !! id); by apply persists_refl.
  - destruct (threads s !! thread); [done|]. apply step_state in E. subst s'. by apply persists_refl.
  - destruct (threads s !! thread) as [[[|e es] clears| | | | | | | |]|]; try done.
    destruct (entries s !! e) as [x|] eqn:Ex; [|done]. simpl in E. injection E as <- <- <-.
    by apply (persists_update e x).
  - destruct (threads s !! thread) as [[[|e es] clears| | | | | | | |]|]; try done.
    apply step_state in E. subst s'. apply persists_refl. by destruct clears.
  - unfold Subscribe in E. destruct listener; injection E as <- <- <-; by apply persists_refl.
  - unfold Unsubscribe in E. destruct (id =? 0); [by injection E as <- <- <-; apply persists_refl|].
    destruct (listeners_ s !! id); injection E as <- <- <-; by apply persists_refl.
Qed.

Lemma listener_frames ls s evs s' l id f :
  Forall (λ l, clocked → stamped l = true) ls → sensors_ok s → routing_ok s → sensor_run ls s = Some (evs, s') →
  ListenerCalled l id f ∈ evs → ∃ (e : nat) x, entries s' !! e = Some x ∧ entry_id x = id ∧ frame_of x f.
Proof.
  revert s evs. induction ls as [|lb ls IH]; intros s evs Hls Hok Hr E Hin; simpl in E.
  { simplify_eq. by apply not_elem_of_nil in Hin. }
  inversion_clear Hls. destruct (sensor_exec lb s) as [[[a evs1] s1]|] eqn:E1; [|done]. simpl in E.
  destruct (sensor_run ls s1) as [[evs2 s2]|] eqn:E2; [|done]. simpl in E. simplify_eq.
  assert (Hok1 : sensors_ok s1) by (by eapply exec_ok). assert (Hr1 : routing_ok s1) by (by eapply routing_exec).
  apply elem_of_app in Hin as [Hin|Hin]; [|by eapply IH].
  destruct (event_allowed _ _ _ _ _ _ E1 Hin) as (t & r & lis & c & fs & after & Ht & -> & ->).
  destruct (routing_pc _ Hr _ _ Ht) as (e & x & Hx & Hid & Hf).
  assert (Hp : persists s s').
  { eapply (sensor_run_invariant (persists s) (λ _, True)); [|by apply Forall_true|exact E2|by eapply persists_exec].
    intros lb' u a' evs' u' _ Eu Hu e' y Hy. destruct (Hu e' y Hy) as (y' & Hy' & Hc).
    destruct (persists_exec _ _ _ _ _ Eu e' y' Hy') as (y2 & ? & ?). exists y2. split; [done|congruence]. }
  destruct (Hp e x Hx) as (x' & Hx' & Hc). exists e, x'. unfold entry_id, frame_of in *. by rewrite Hc.
Qed.

End Routing.

Section Manager.
Context {Listener : Type}.
#[local] Notation SensorManager := (SensorManager Listener).
#[local] Notation SensorPc := (SensorPc Listener).
#[local] Notation SensorLabel := (SensorLabel Listener).
Implicit Types (s : SensorManager) (pc : SensorPc).

(* ------------------------------------------------------------------ *)
(** ** Theorems *)

(** C28: When a sensor is no longer registered and no thread is unregistering
    it, it has been shut down; and whatever any threads do then, also those that
    had found it before, it is never registered again under its entry and the
    manager calls it for nothing but its health. *)
Theorem unregistered_sensor_rests ls evs s (e : nat) x :
  sensor_run ls new_SensorManager = Some (evs, s) → entries s !! e = Some x →
  (∀ id, sensors_ s !! id ≠ Some e) → ¬ being_removed e s →
  removed x = true ∧ lifecycle (entry_state x) = SensorShutdown ∧
  ∀ ls' evs' s', sensor_run ls' s = Some (evs', s') →
    (∀ id, sensors_ s' !! id ≠ Some e) ∧ ∀ call, SensorCalled e call ∈ evs' → call = CallHealth.
Proof.
  intros H%run_ok Hx Hn Hb. pose proof (unregistered_rests e x s H Hx Hn Hb) as Hr.
  destruct Hr as [(x' & Hx' & Hrem) _]. simplify_eq. split; [done|]. split; [by apply (ok_removed _ H e)|].
  intros ls' evs' s' E. destruct (resting_run e ls' s evs' s' H) as [Hr' Hc]; [by eapply unregistered_rests|done|].
  split; [|done]. intros id. apply resting_unregistered; [|done].
  eapply (sensor_run_invariant sensors_ok (λ _, True)); [|by apply Forall_true|exact E|done].
  intros. by eapply exec_ok.
Qed.

(** C29: The statistics account for every sensor and every frame, modulo
    [2 ^ 64]: registrations are the sensors unregistered and those registered;
    the frames that sensors produced are those routed and those that threads
    are about to route; the failed reads are those counted and those about to
    be. *)
Theorem sensor_statistics_account ls evs s :
  sensor_run ls new_SensorManager = Some (evs, s) →
  let st := GetStatistics s in
  registrations st ≡₆₄ unregistrations st + registeredSensors st ∧
  total produced (entries s) ≡₆₄ routedFrames st + threads_at to_route s ∧
  total failed_reads (entries s) ≡₆₄ readFailures st + threads_at to_count s.
Proof.
  intros [H1 H2 H3]%run_accounts. unfold registered_balance, frames_balance, errors_balance in *. simpl.
  split_and!; [clear H2 H3|clear H1 H3|clear H1 H2]; congr64.
Qed.

(** The invariants of a run; the frames have times if the clock was never at
    its epoch. *)
Lemma run_frames ls evs s :
  sensor_run ls new_SensorManager = Some (evs, s) →
  sensors_ok s ∧ routing_ok (Forall (λ l, stamped l = true) ls) s.
Proof. intros H. apply (run_routing _ ls evs s H). apply Forall_forall. intros l Hl Hc. rewrite Forall_forall in Hc. by apply Hc. Qed.

(** Whatever a listener is called with, and whatever [LatestFrame]
    answers, is a frame of a sensor that was registered under the identifier
    given and of that sensor's kind, and has a time if the clock was not at its
    epoch. *)
Theorem frames_attributed ls evs s :
  sensor_run ls new_SensorManager = Some (evs, s) →
  let clocked := Forall (λ l, stamped l = true) ls in
  (∀ l id f, ListenerCalled l id f ∈ evs →
     ∃ (e : nat) x, entries s !! e = Some x ∧ entry_id x = id ∧ frame_of clocked x f) ∧
  ∀ id, isOk (result_status (LatestFrame id s)) = true →
    ∃ x, entry_of id s = Some x ∧ entry_id x = id ∧ frame_of clocked x (result_frame (LatestFrame id s)).
Proof.
  intros H clocked. destruct (run_frames ls evs s H) as [Hok Hr]. split.
  - intros l id f Hin. eapply listener_frames; [| | |exact H|exact Hin]; [|apply new_ok|].
    + apply Forall_forall. intros lb Hlb Hc. unfold clocked in Hc. rewrite Forall_forall in Hc. by apply Hc.
    + split; [|done]. intros t pc Ht. simpl in Ht. by rewrite lookup_empty in Ht.
  - intros id. unfold LatestFrame, entry_of, FindEntry. case_bool_decide; [done|].
    destruct (sensors_ s !! id) as [e|] eqn:Eid; [|done]. simpl.
    destruct (ok_registered _ Hok _ _ Eid) as (x & Hx & Hid & _). rewrite Hx.
    destruct (latest_frame x) as [f|] eqn:Ef; [|done]. intros _. exists x. split_and!; [done|done|].
    by apply (routing_latest _ _ Hr e).
Qed.

(* ------------------------------------------------------------------ *)
(** ** Operations end *)

(** The transitions with which a thread inside the manager goes on. *)
Definition continues (l : SensorLabel) : option nat :=
  match l with
  | Removes t _ | RemovalEnds t | LifecycleCalls t _ _ | ReadsNext t | SensorReads t _ _ _
  | FailureCounted t | RouteBegins t | CallsListener t _ | RouteEnds t | HealthNext t
  | HealthCalls t _ _ _ => Some t
  | _ => None
  end.

(** Bounds on the transitions that a thread has before it, with [n]
    listeners. *)
Definition after_work (n : nat) (after : AfterRead) : nat :=
  match after with ReturnFrame => 0 | ReadMore ids _ => S (length ids * (n + 4)) end.

Definition work (n : nat) pc : nat :=
  match pc with
  | Removing es _ => S (length es)
  | Operating _ _ => 1
  | NextRead ids _ => S (length ids * (n + 4))
  | Reading _ after => n + 3 + after_work n after
  | ReadFailed _ after => S (after_work n after)
  | Routing _ after => n + 2 + after_work n after
  | Calling _ ls _ _ after => S (length ls) + after_work n after
  | NextHealth ids _ => S (length ids * 2)
  | QueryingHealth _ more => S (match more with None => 0 | Some (ids, _) => S (length ids * 2) end)
  end.

Definition work_left (n : nat) (q : option SensorPc) : nat := match q with None => 0 | Some pc => work n pc end.

Lemma frame_read_work n t r after s :
  work_left n (threads (frame_read t r after s).2 !! t) = after_work n after ∧
  listeners_ (frame_read t r after s).2 = listeners_ s.
Proof. destruct after; simpl; by rewrite ?lookup_delete_eq, ?lookup_insert_eq. Qed.

Lemma health_read_work n t r more s :
  work_left n (threads (health_read t r more s).2 !! t) =
    match more with None => 0 | Some (ids, _) => S (length ids * 2) end%nat ∧
  listeners_ (health_read t r more s).2 = listeners_ s.
Proof. destruct more as [[ids rs]|]; simpl; by rewrite ?lookup_delete_eq, ?lookup_insert_eq. Qed.

Lemma read_begins_work n t id after s :
  (work_left n (threads (read_begins t id after s).2 !! t) <= n + 3 + after_work n after)%nat ∧
  listeners_ (read_begins t id after s).2 = listeners_ s.
Proof.
  unfold read_begins. destruct (FindEntry id s); [simpl; rewrite lookup_insert_eq; split; [simpl; lia|done]|].
  destruct (frame_read_work n t (failed_frame no_sensor id) after s) as [-> ->]. split; [lia|done].
Qed.

Lemma health_begins_work n t id ids rs s :
  (work_left n (threads (health_begins t id (Some (ids, rs)) s).2 !! t) <= S (S (length ids * 2)))%nat ∧
  listeners_ (health_begins t id (Some (ids, rs)) s).2 = listeners_ s.
Proof.
  unfold health_begins. destruct (FindEntry id s); [simpl; rewrite lookup_insert_eq; split; [simpl; lia|done]|].
  destruct (health_read_work n t (failed_health no_sensor id) (Some (ids, rs)) s) as [-> ->]. split; [lia|done].
Qed.

Lemma listeners_in_order_length (m : gmap Z Listener) : length (listeners_in_order m) = size m.
Proof.
  unfold listeners_in_order. rewrite length_fmap. etransitivity; [apply Permutation_length, sorting.merge_sort_Permutation|].
  apply length_map_to_list.
Qed.

(** What a transition does to the work of its thread. *)
Definition less_work (t : nat) s s' : Prop :=
  let n := size (listeners_ s) in
  (work_left n (threads s' !! t) < work_left n (threads s !! t))%nat ∧
  (threads s' !! t = None ∨ listeners_ s' = listeners_ s).

Lemma continues_works l t s a evs s' :
  continues l = Some t → sensor_exec l s = Some (a, evs, s') → less_work t s s'.
Proof.
  unfold less_work. intros Hl E. unfold sensor_exec in E.
  destruct l; try done; simpl in Hl; injection Hl as <-; unfold entry_exec, read_exec in E;
    (destruct (threads s !! thread) as [pc|] eqn:Epc; [destruct pc|]); try done;
    repeat match type of E with
    | context [match ?ids with [] => _ | _ :: _ => _ end] => destruct ids; try done
    end; simpl work_left.
  - destruct (entries s !! n) as [x|]; [|done]. simpl in E. injection E as <- <- <-. simpl.
    rewrite lookup_insert_eq. simpl. split; [lia|by right].
  - apply step_state in E. subst s'. simpl. rewrite lookup_delete_eq. simpl. split; [lia|by left].
  - destruct (entries s !! e) as [x|]; [simpl in E|by simplify_eq/=].
    destruct (invoke_lifecycle op answer now x) as [[st x'] calls]. apply step_state in E. subst s'. simpl.
    rewrite lookup_delete_eq. simpl. split; [lia|by left].
  - apply step_state in E. subst s'. simpl. rewrite lookup_delete_eq. simpl. split; [lia|by left].
  - apply step_state in E. subst s'. destruct (read_begins_work (size (listeners_ s)) thread s0 (ReadMore ids results) s)
      as [Hw ->]. simpl in Hw. split; [lia|by right].
  - destruct (entries s !! e) as [x|]; simpl in E; [|done].
    destruct (read_sensor answer now now' x) as [[r x']|]; apply step_state in E; subst s'.
    + simpl. rewrite lookup_insert_eq. split; [destruct (isOk _); simpl; lia|by right].
    + match goal with |- context [frame_read ?t ?r ?after ?s] =>
        destruct (frame_read_work (size (listeners_ s)) t r after s) as [-> ->] end.
      split; [lia|by right].
  - apply step_state in E. subst s'.
    match goal with |- context [frame_read ?t ?r ?after ?s0] =>
      destruct (frame_read_work (size (listeners_ s)) t r after s0) as [-> ->] end.
    split; [lia|by right].
  - apply step_state in E. subst s'. simpl. rewrite lookup_insert_eq. simpl. rewrite listeners_in_order_length.
    split; [lia|by right].
  - apply step_state in E. subst s'. simpl. rewrite lookup_insert_eq. simpl. split; [lia|by right].
  - apply step_state in E. subst s'.
    match goal with |- context [frame_read ?t ?r ?after ?s0] =>
      destruct (frame_read_work (size (listeners_ s)) t r after s0) as [-> ->] end.
    split; [lia|right; by destruct (_ || _)].
  - apply step_state in E. subst s'. simpl. rewrite lookup_delete_eq. simpl. split; [lia|by left].
  - apply step_state in E. subst s'. destruct (health_begins_work (size (listeners_ s)) thread s0 ids results s)
      as [Hw ->]. simpl. split; [lia|by right].
  - destruct (entries s !! e) as [x|]; [simpl in E|by simplify_eq/=].
    destruct (query_health answer now now' x) as [r x']. apply step_state in E. subst s'. rewrite with_events_state.
    match goal with |- context [health_read ?t ?r ?more ?s0] =>
      destruct (health_read_work (size (listeners_ s)) t r more s0) as [-> ->] end.
    split; [lia|by right].
Qed.

Lemma continues_bounded t ls s evs s' :
  Forall (λ l, continues l = Some t) ls → sensor_run ls s = Some (evs, s') →
  (length ls <= work_left (size (listeners_ s)) (threads s !! t))%nat.
Proof.
  revert s evs. induction ls as [|l ls IH]; intros s evs Hls E; simpl in *; [lia|]. inversion_clear Hls.
  destruct (sensor_exec l s) as [[[a evs1] s1]|] eqn:E1; [|done]. simpl in E.
  destruct (sensor_run ls s1) as [[evs2 s2]|] eqn:E2; [|done]. simpl in E. simplify_eq.
  destruct (continues_works l t s a evs1 s1) as [Hw Hl]; [done|done|].
  assert (IH' : (length ls <= work_left (size (listeners_ s1)) (threads s1 !! t))%nat) by (by eapply IH).
  destruct Hl as [Ht|Hl]; [rewrite Ht in IH', Hw|rewrite Hl in IH']; simpl in *; lia.
Qed.

Lemma can_continue s t pc :
  sensors_ok s → routing_ok False s → threads s !! t = Some pc →
  ∃ l, continues l = Some t ∧ is_Some (sensor_exec l s).
Proof.
  intros Hok Hr Ht. pose proof (routing_pc _ _ Hr t pc Ht) as Hpc.
  destruct pc as [[|e es] clears|e op|[|id ids] rs|e after|r after|r after|r [|l lis] c fs after|[|id ids] rs|e more];
    simpl in Hpc; try destruct Hpc as [x Hx].
  - exists (RemovalEnds t). simpl. rewrite Ht. by split; [|eexists].
  - exists (Removes t 0). simpl. rewrite Ht. destruct (ok_removing _ Hok e) as [[x Hx] _].
    { exists t, (Removing (e :: es) clears). split; [done|by left]. }
    rewrite Hx. by split; [|eexists].
  - exists (LifecycleCalls t UnknownException 0). simpl. rewrite Ht, Hx. simpl.
    destruct (invoke_lifecycle op UnknownException 0 x) as [[? ?] ?]. by split; [|eexists].
  - exists (ReadsNext t). simpl. rewrite Ht. by split; [|eexists].
  - exists (ReadsNext t). simpl. rewrite Ht. by split; [|eexists].
  - exists (SensorReads t UnknownException 0 0). simpl. rewrite Ht, Hx. simpl.
    destruct (read_sensor UnknownException 0 0 x) as [[? ?]|]; by split; [|eexists].
  - exists (FailureCounted t). simpl. rewrite Ht. by split; [|eexists].
  - exists (RouteBegins t). simpl. rewrite Ht. by split; [|eexists].
  - exists (RouteEnds t). simpl. rewrite Ht. by split; [|eexists].
  - exists (CallsListener t true). simpl. rewrite Ht. by split; [|eexists].
  - exists (HealthNext t). simpl. rewrite Ht. by split; [|eexists].
  - exists (HealthNext t). simpl. rewrite Ht. by split; [|eexists].
  - exists (HealthCalls t UnknownException 0 0). simpl. rewrite Ht, Hx. simpl. by split; [|eexists].
Qed.

(** C30: Every operation of the manager ends, provided the sensors and the listeners
    that it calls return: whatever they answer or throw, a thread inside has at most
    the transitions before it that [work] counts, and until it has left it always
    has one; the entry it holds is there, also after the sensor was unregistered.  A
    call of a sensor is one transition here; one that calls the manager back for its
    own sensor would wait for the mutex of the entry that its thread holds
    (SensorManager.cpp, lines 172, 261 and 305), and is outside of the model. *)
Theorem operations_end ls evs s t pc :
  sensor_run ls new_SensorManager = Some (evs, s) → threads s !! t = Some pc →
  ∀ ls' evs' s', Forall (λ l, continues l = Some t) ls' → sensor_run ls' s = Some (evs', s') →
    (length ls' <= work (size (listeners_ s)) pc)%nat ∧
    (threads s' !! t = None ∨ ∃ l, continues l = Some t ∧ is_Some (sensor_exec l s')).
Proof.
  intros H Ht ls' evs' s' Hls E. split.
  { pose proof (continues_bounded t ls' s evs' s' Hls E) as Hb. by rewrite Ht in Hb. }
  destruct (run_routing False ls evs s H) as [Hok Hr]; [by apply Forall_true|].
  destruct (threads s' !! t) as [pc'|] eqn:Ht'; [right|by left].
  assert (Hs : sensors_ok s' ∧ routing_ok False s') by
    (eapply (sensor_run_invariant (λ s, sensors_ok s ∧ routing_ok False s) (λ _, True));
       [|by apply Forall_true|exact E|done]; intros ????? _ ? []; split; [by eapply exec_ok|by eapply routing_exec]).
  destruct Hs. by apply (can_continue s' t pc').
Qed.
End Manager.

(* ------------------------------------------------------------------ *)
(** ** Witnesses *)

Definition sample_sensor : SensorCapabilities :=
  mkSensorCapabilities "cam" "Camera" SensorCamera [] 0 0 (SpecFloat.S754_zero false) false true true false 0.

(** A frame is read and given to the one listener. *)
Definition reading : list (SensorLabel nat) :=
  [Registers (Some (Value sample_sensor)); Subscribes (Some 7%nat);
   LifecycleBegins 0 "cam" OpStart; LifecycleCalls 0 (Value Ok) 10;
   ReadBegins 0 "cam"; SensorReads 0 (Value (mkFrameResult Ok default_SensorFrame)) 11 12; RouteBegins 0;
   CallsListener 0 false].

(** Then the sensor is unregistered, while another thread asks for its
    health. *)
Definition unregistering : list (SensorLabel nat) :=
  [RouteEnds 0; HealthBegins 1 "cam"; Unregisters 0 "cam"; Removes 0 13; RemovalEnds 0].

Definition sample_manager : SensorManager nat :=
  match sensor_run (reading ++ unregistering) new_SensorManager with
  | Some (_, s) => s
  | None => new_SensorManager
  end.

Definition sample_events : list (SensorEvent nat) :=
  match sensor_run (reading ++ unregistering) new_SensorManager with Some (evs, _) => evs | None => [] end.

Lemma sample_reached : sensor_run (reading ++ unregistering) new_SensorManager = Some (sample_events, sample_manager).
Proof. vm_compute. reflexivity. Qed.

Lemma sample_unregistered :
  (∀ id, sensors_ sample_manager !! id ≠ Some 0%nat) ∧ ¬ being_removed 0 sample_manager.
Proof.
  split.
  - intros id. change (sensors_ sample_manager) with (∅ : gmap string nat). by rewrite lookup_empty.
  - intros (t & pc & Ht & Hin).
    change (threads sample_manager) with ({[1%nat := QueryingHealth 0 None]} : gmap nat (SensorPc nat)) in Ht.
    apply lookup_singleton_Some in Ht as [_ <-]. by apply not_elem_of_nil in Hin.
Qed.

(** The thread that waits for the health of the sensor still asks for it. *)
Lemma unregistered_sensor_rests_witness :
  ∃ x evs s, entries sample_manager !! 0%nat = Some x ∧ removed x = true ∧
    sensor_run [HealthCalls 1 (Value default_SensorHealth) 14 15] sample_manager = Some (evs, s) ∧
    evs = [SensorCalled 0 CallHealth] ∧ ∀ call, SensorCalled 0 call ∈ evs → call = CallHealth.
Proof.
  destruct (entries sample_manager !! 0%nat) as [x|] eqn:Ex; [|vm_compute in Ex; discriminate Ex].
  destruct (sensor_run [HealthCalls 1 (Value default_SensorHealth) 14 15] sample_manager) as [[evs s]|] eqn:E;
    [|vm_compute in E; discriminate E].
  exists x, evs, s. split; [reflexivity|].
  destruct (unregistered_sensor_rests (reading ++ unregistering) sample_events sample_manager 0 x sample_reached Ex
    (proj1 sample_unregistered) (proj2 sample_unregistered)) as (Hr & _ & Hc).
  split; [exact Hr|]. split; [reflexivity|]. split; [|exact (proj2 (Hc _ _ _ E))].
  vm_compute in E. injection E as <- _. reflexivity.
Defined.

Lemma sensor_statistics_account_witness :
  let st := GetStatistics sample_manager in
  registrations st ≡₆₄ unregistrations st + registeredSensors st ∧
  registrations st = 1 ∧ unregistrations st = 1 ∧ routedFrames st = 1 ∧ listenerCallbacks st = 1.
Proof.
  split; [apply (sensor_statistics_account (reading ++ unregistering) sample_events sample_manager sample_reached)|].
  repeat split; reflexivity.
Defined.

Lemma frames_attributed_witness :
  ∃ f (e : nat) x, ListenerCalled 7%nat "cam" f ∈ sample_events ∧ entries sample_manager !! e = Some x ∧
    entry_id x = "cam"%string ∧ sensorType f = SensorCamera.
Proof.
  assert (Hin : ListenerCalled 7%nat "cam" (default_SensorFrame <| frame_timestamp := 11 |> <| sensorType := SensorCamera |>)
    ∈ sample_events).
  { change sample_events with
      [SensorCalled 0 (CallLifecycle OpStart); SensorCalled 0 CallReadFrame;
       ListenerCalled 7%nat "cam" (default_SensorFrame <| frame_timestamp := 11 |> <| sensorType := SensorCamera |>);
       SensorCalled 0 (CallLifecycle OpStop); SensorCalled 0 (CallLifecycle OpShutdown)].
    right. right. left. }
  destruct (frames_attributed (reading ++ unregistering) sample_events sample_manager sample_reached)
    as [Hl _]. destruct (Hl _ _ _ Hin) as (e & x & Hx & Hid & _).
  do 3 eexists. split; [exact Hin|]. split; [exact Hx|]. split; [exact Hid|reflexivity].
Defined.

(** The thread that waits for the health has one transition before it. *)
Lemma operations_end_witness :
  threads sample_manager !! 1%nat = Some (QueryingHealth 0 None) ∧
  (∃ l, continues l = Some 1%nat ∧ is_Some (sensor_exec l sample_manager)) ∧
  ∀ evs s, sensor_run [HealthCalls 1 (Value default_SensorHealth) 14 15] sample_manager = Some (evs, s) →
    (1 <= work 0 (QueryingHealth (Listener := nat) 0 None))%nat.
Proof.
  assert (Ht : threads sample_manager !! 1%nat = Some (QueryingHealth 0 None)) by reflexivity.
  pose proof (operations_end (reading ++ unregistering) sample_events sample_manager 1 _ sample_reached Ht) as H.
  split; [exact Ht|]. split.
  - destruct (H [] [] sample_manager (Forall_nil_2 _) eq_refl) as [_ [Hn|Hl]]; [rewrite Ht in Hn; discriminate Hn|exact Hl].
  - intros evs s E. refine (proj1 (H _ _ _ _ E)). repeat constructor.
Defined.
