(* ===== verification/UnitreeTypes.v ===== *)
(** * Types of the Unitree SDK layer

    plugins/unitree/sdk/SdkTypes.h with the conversions of SdkConverter.cpp to
    the robot state of the framework, the results of include/humanoid/adapters/
    Result.h, and [WithLowState] of SdkWrapper.cpp, which takes over what the
    robot reports.  A vendor message is the record of the values that the code
    reads of it. *)

From Stdlib Require Import SpecFloat.
From S2P Require Import Prelude Command Status RobotState.

Open Scope Z_scope.

Definition kSdkMaxJointStates : nat := 35.
Definition kSdkMaxContactStates : nat := 4.

Inductive SdkErrorCode :=
  | SdkSuccess | SdkNotAvailable | SdkConnectionFailed | SdkTimeout | SdkRobotFault | SdkUnknown.

#[export] Instance SdkErrorCode_eq_dec : EqDecision SdkErrorCode.
Proof. solve_decision. Defined.

Record SdkResult := mkSdkResult { sdk_code : SdkErrorCode; sdk_message : string }.

Definition Succeeded (r : SdkResult) : bool := bool_decide (sdk_code r = SdkSuccess).

Inductive SdkConnectionState :=
  | SdkUninitialized | SdkInitialized | SdkConnected | SdkDisconnected | SdkShutdown | SdkFaulted.

#[export] Instance SdkConnectionState_eq_dec : EqDecision SdkConnectionState.
Proof. solve_decision. Defined.

Inductive SdkMotionMode := MotionUnknown | MotionIdle | MotionStanding | MotionWalking | MotionSitting | MotionFaulted.

#[export] Instance SdkMotionMode_eq_dec : EqDecision SdkMotionMode.
Proof. solve_decision. Defined.

(** [static_cast<std::int32_t>] of a mode. *)
Definition motion_mode_number (m : SdkMotionMode) : Z :=
  match m with
  | MotionUnknown => 0 | MotionIdle => 1 | MotionStanding => 2
  | MotionWalking => 3 | MotionSitting => 4 | MotionFaulted => 5
  end.

Record SdkVelocityCommand := mkSdkVelocity { sdk_linear_x : float32; sdk_linear_y : float32; sdk_angular_z : float32 }.

Inductive SdkHandGesture :=
  | HandsUp | Clap | HighFive | Hug | Heart | Reject | Wave | ShakeHand.

(** Samples are bytes. *)
Record SdkAudioPlayback := mkPlayback { app_name : string; stream_id : string; pcm_data : list Z }.

(** Times are in milliseconds. *)
Record SdkConfiguration := mkSdkConfiguration {
  robot_ip : string; network_interface : string; domain_id : Z; sdk_timeout : Z;
  serial_number : string; firmware_version : string;
}.

Definition default_SdkConfiguration : SdkConfiguration := mkSdkConfiguration "192.168.123.161" "eth0" 0 500 "" "".

Record SdkRobotDescriptor := mkSdkDescriptor {
  descriptor_vendor : string; descriptor_model : string; descriptor_robot_ip : string;
  descriptor_network_interface : string; descriptor_domain_id : Z; descriptor_serial_number : string;
  descriptor_firmware_version : string; discovered : bool;
}.

Record SdkDiscoveryResult := mkDiscovery { discovery_result : SdkResult; discovery_descriptor : SdkRobotDescriptor }.

Record SdkCommunicationOptions := mkOptions {
  heartbeat_interval : Z; reconnect_interval : Z; connection_timeout : Z }.

#[export] Instance eta_SdkCommunicationOptions : EtaRecord SdkCommunicationOptions := fun o =>
  mkOptions (heartbeat_interval o) (reconnect_interval o) (connection_timeout o).

Definition default_SdkCommunicationOptions : SdkCommunicationOptions := mkOptions 500 1000 1500.

Record SdkRobotState := mkSdkState {
  sdk_connection_state : SdkConnectionState;
  sdk_motion_mode : SdkMotionMode;
  robot_mode : Z;
  motion_mode_id : Z;
  battery_level : float32;
  sdk_charging : bool;
  linear_x : float32; linear_y : float32; angular_z : float32;
  position_x : float32; position_y : float32; position_z : float32;
  sdk_roll : float32; sdk_pitch : float32; sdk_yaw : float32;
  emergency_stop : bool;
  fault_code : Z;
  fsm_id : Z;
  low_state_available : bool;
  low_state_tick : Z;
  sdk_heartbeat_count : Z;
  sdk_reconnect_attempt_count : Z;
  latency_ms : float32;
  imu_quaternion : list float32;
  imu_angular_velocity : list float32;
  imu_linear_acceleration : list float32;
  imu_temperature_celsius : float32;
  joint_count : Z;
  sdk_joint_position : list float32;
  sdk_joint_velocity : list float32;
  sdk_joint_acceleration : list float32;
  sdk_joint_torque : list float32;
  sdk_joint_voltage : list float32;
  joint_temperature_celsius : list float32;
  sdk_joint_mode : list Z;
  joint_fault : list Z;
  contact_count : Z;
  contact_force : list float32;
  contact_temperature_celsius : list float32;
  sdk_timestamp : Z;
}.

#[export] Instance eta_SdkRobotState : EtaRecord SdkRobotState := fun s =>
  mkSdkState (sdk_connection_state s) (sdk_motion_mode s) (robot_mode s) (motion_mode_id s) (battery_level s)
    (sdk_charging s) (linear_x s) (linear_y s) (angular_z s) (position_x s) (position_y s) (position_z s)
    (sdk_roll s) (sdk_pitch s) (sdk_yaw s) (emergency_stop s) (fault_code s) (fsm_id s) (low_state_available s)
    (low_state_tick s) (sdk_heartbeat_count s) (sdk_reconnect_attempt_count s) (latency_ms s) (imu_quaternion s)
    (imu_angular_velocity s) (imu_linear_acceleration s) (imu_temperature_celsius s) (joint_count s)
    (sdk_joint_position s) (sdk_joint_velocity s) (sdk_joint_acceleration s) (sdk_joint_torque s)
    (sdk_joint_voltage s) (joint_temperature_celsius s) (sdk_joint_mode s) (joint_fault s) (contact_count s)
    (contact_force s) (contact_temperature_celsius s) (sdk_timestamp s).

Definition float_zero : float32 := float32_of_Z 0.

Definition default_SdkRobotState : SdkRobotState :=
  let z := float_zero in
  let zs := replicate kSdkMaxJointStates z in
  let ns := replicate kSdkMaxJointStates 0 in
  mkSdkState SdkUninitialized MotionUnknown 0 0 z false z z z z z z z z z false 0 (-1) false 0 0 0 z
    [z; z; z; float32_of_Z 1] [z; z; z] [z; z; z] z 0 zs zs zs zs zs zs ns ns 0
    (replicate kSdkMaxContactStates z) (replicate kSdkMaxContactStates z) 0.

(* ------------------------------------------------------------------ *)
(** ** Results of adapters *)

Inductive ErrorCode :=
  | AdapterSuccess | SDKUnavailable | ConnectionFailed | AdapterTimeout | RobotFault | AdapterUnknown.

#[export] Instance ErrorCode_eq_dec : EqDecision ErrorCode.
Proof. solve_decision. Defined.

Record Result := mkAdapterResult { result_code : ErrorCode; adapter_message : string }.

Definition Result_Succeeded (r : Result) : bool := bool_decide (result_code r = AdapterSuccess).

Definition ToAdapterErrorCode (code : SdkErrorCode) : ErrorCode :=
  match code with
  | SdkSuccess => AdapterSuccess
  | SdkNotAvailable => SDKUnavailable
  | SdkConnectionFailed => ConnectionFailed
  | SdkTimeout => AdapterTimeout
  | SdkRobotFault => RobotFault
  | SdkUnknown => AdapterUnknown
  end.

Definition ToAdapterResult (r : SdkResult) : Result :=
  mkAdapterResult (ToAdapterErrorCode (sdk_code r)) (sdk_message r).

Definition SdkErrorCode_toString (code : SdkErrorCode) : string :=
  match code with
  | SdkSuccess => "success"
  | SdkNotAvailable => "sdk_unavailable"
  | SdkConnectionFailed => "connection_failed"
  | SdkTimeout => "timeout"
  | SdkRobotFault => "robot_fault"
  | SdkUnknown => "unknown"
  end.

Definition SdkConnectionState_toString (state : SdkConnectionState) : string :=
  match state with
  | SdkUninitialized => "uninitialized"
  | SdkInitialized => "initialized"
  | SdkConnected => "connected"
  | SdkDisconnected => "disconnected"
  | SdkShutdown => "shutdown"
  | SdkFaulted => "faulted"
  end.

Definition SdkMotionMode_toString (mode : SdkMotionMode) : string :=
  match mode with
  | MotionUnknown => "unknown"
  | MotionIdle => "idle"
  | MotionStanding => "standing"
  | MotionWalking => "walking"
  | MotionSitting => "sitting"
  | MotionFaulted => "faulted"
  end.

(* ------------------------------------------------------------------ *)
(** ** The robot state of the framework *)

(** An element of an array of floats or of integers. *)
Definition float_at (l : list float32) (i : nat) : float32 := default float_zero (l !! i).
Definition int_at (l : list Z) (i : nat) : Z := default 0 (l !! i).

(** The loop over the joints or contacts: the first [n] are written. *)
Definition write_first {A} (n : nat) (f : nat → A) (l : list A) : list A :=
  imap (λ i x, if bool_decide (i < n)%nat then f i else x) l.

Definition core_joint (s : SdkRobotState) (i : nat) : RobotJointState :=
  mkJoint true (float_at (sdk_joint_position s) i) (float_at (sdk_joint_velocity s) i)
    (float_at (sdk_joint_acceleration s) i) (float_at (sdk_joint_torque s) i)
    (float_at (sdk_joint_voltage s) i) (float_at (joint_temperature_celsius s) i)
    (int_at (sdk_joint_mode s) i) (int_at (joint_fault s) i).

Definition core_contact (s : SdkRobotState) (i : nat) : RobotContactState :=
  mkContact true (SFltb float_zero (float_at (contact_force s) i)) (float_at (contact_force s) i)
    (float_at (contact_temperature_celsius s) i).

Definition max_temperature (s : SdkRobotState) (n : nat) : float32 :=
  foldl (λ acc i, if SFltb acc (float_at (joint_temperature_celsius s) i)
                  then float_at (joint_temperature_celsius s) i else acc) float_zero (seq 0 n).

Definition ToCoreRobotState (s : SdkRobotState) : RobotState :=
  let joint_count' := Nat.min (Z.to_nat (joint_count s)) kMaxRobotJointStates in
  let contact_count' := Nat.min (Z.to_nat (contact_count s)) kMaxRobotContactStates in
  {| connection := mkConnection (bool_decide (sdk_connection_state s = SdkConnected));
     power := mkPower (battery_level s) (sdk_charging s);
     motion := mkMotion (bool_decide (sdk_motion_mode s = MotionStanding))
                 (bool_decide (sdk_motion_mode s = MotionWalking))
                 (bool_decide (sdk_motion_mode s = MotionSitting)) (robot_mode s) (motion_mode_id s);
     velocity := mkVelocity (linear_x s) (linear_y s) (angular_z s);
     pose := mkPose (position_x s) (position_y s) (position_z s);
     orientation := mkOrientation (sdk_roll s) (sdk_pitch s) (sdk_yaw s);
     imu := mkImu (low_state_available s)
              (float_at (imu_quaternion s) 0) (float_at (imu_quaternion s) 1)
              (float_at (imu_quaternion s) 2) (float_at (imu_quaternion s) 3)
              (float_at (imu_angular_velocity s) 0) (float_at (imu_angular_velocity s) 1)
              (float_at (imu_angular_velocity s) 2)
              (float_at (imu_linear_acceleration s) 0) (float_at (imu_linear_acceleration s) 1)
              (float_at (imu_linear_acceleration s) 2) (imu_temperature_celsius s);
     joints := write_first joint_count' (core_joint s) (joints default_RobotState);
     contacts := write_first contact_count' (core_contact s) (contacts default_RobotState);
     diagnostics := mkDiagnostics (low_state_available s) (low_state_tick s) (sdk_heartbeat_count s)
                      (sdk_reconnect_attempt_count s) (latency_ms s) (max_temperature s joint_count')
                      (joint_count s) (contact_count s);
     health := mkHealth (emergency_stop s) (fault_code s);
     state_timestamp := sdk_timestamp s |}.

(* ------------------------------------------------------------------ *)
(** ** What the robot reports *)

Record MotorState := mkMotor {
  motor_q : float32; motor_dq : float32; motor_ddq : float32; motor_tau_est : float32; motor_vol : float32;
  motor_temperature : Z; motor_mode : Z; motorstate : Z;
}.

(** The message [unitree_hg::msg::dds_::LowState_]. *)
Record LowState := mkLowState {
  tick : Z; mode_pr : Z; mode_machine : Z;
  quaternion : list float32; gyroscope : list float32; accelerometer : list float32;
  imu_temperature : Z; rpy : list float32;
  motor_state : list MotorState;
}.

(** The first motor that reports a fault. *)
Definition aggregate_fault (ms : list MotorState) : Z :=
  foldl (λ acc m, if (acc =? 0) && negb (motorstate m =? 0) then motorstate m else acc) 0 ms.

Definition int32_max : Z := 2 ^ 31 - 1.

(** The loop over the motors: [xs] over the beginning of the array. *)
Definition write_prefix {A} (xs old : list A) : list A := xs ++ drop (length xs) old.

Definition WithLowState (s : SdkRobotState) (m : LowState) (heartbeats reconnects now : Z) : SdkRobotState :=
  let motors := take kSdkMaxJointStates (motor_state m) in
  let fault := aggregate_fault motors in
  let fault := if int32_max <? fault then int32_max else fault in
  s <| low_state_available := true |> <| low_state_tick := tick m |>
    <| robot_mode := mode_pr m |> <| motion_mode_id := mode_machine m |>
    <| sdk_heartbeat_count := heartbeats |> <| sdk_reconnect_attempt_count := reconnects |>
    <| sdk_timestamp := now |>
    <| imu_quaternion := quaternion m |> <| imu_angular_velocity := gyroscope m |>
    <| imu_linear_acceleration := accelerometer m |>
    <| imu_temperature_celsius := float32_of_Z (imu_temperature m) |>
    <| sdk_roll := float_at (rpy m) 0 |> <| sdk_pitch := float_at (rpy m) 1 |> <| sdk_yaw := float_at (rpy m) 2 |>
    <| joint_count := Z.of_nat (length motors) |>
    <| sdk_joint_position ::= write_prefix (map motor_q motors) |>
    <| sdk_joint_velocity ::= write_prefix (map motor_dq motors) |>
    <| sdk_joint_acceleration ::= write_prefix (map motor_ddq motors) |>
    <| sdk_joint_torque ::= write_prefix (map motor_tau_est motors) |>
    <| sdk_joint_voltage ::= write_prefix (map motor_vol motors) |>
    <| joint_temperature_celsius ::= write_prefix (map (λ x, float32_of_Z (motor_temperature x)) motors) |>
    <| sdk_joint_mode ::= write_prefix (map motor_mode motors) |>
    <| joint_fault ::= write_prefix (map motorstate motors) |>
    <| fault_code := fault |>
    <| emergency_stop := negb (fault =? 0) |>.

(* ------------------------------------------------------------------ *)
(** ** Reported states *)

(** The joint that a motor reports. *)
Definition reported_joint (x : MotorState) : RobotJointState :=
  mkJoint true (motor_q x) (motor_dq x) (motor_ddq x) (motor_tau_est x) (motor_vol x)
    (float32_of_Z (motor_temperature x)) (motor_mode x) (motorstate x).

Definition faulty (x : MotorState) : bool := negb (motorstate x =? 0).

Lemma prefix_at {A B} (d : B) (f : A → B) xs old (i : nat) x :
  xs !! i = Some x → default d (write_prefix (map f xs) old !! i) = f x.
Proof.
  intros Hx. unfold write_prefix. rewrite lookup_app_l by (rewrite length_map; by eapply lookup_lt_Some).
  change (map f xs) with (f <$> xs). by rewrite list_lookup_fmap, Hx.
Qed.

Lemma write_prefix_length {A} (xs old : list A) : (length xs <= length old)%nat → length (write_prefix xs old) = length old.
Proof. intros. unfold write_prefix. rewrite length_app, length_drop. lia. Qed.

Lemma write_first_lookup {A} n (f : nat → A) l (i : nat) :
  write_first n f l !! i = (λ x, if bool_decide (i < n)%nat then f i else x) <$> l !! i.
Proof. apply list_lookup_imap. Qed.

(** The fault that is kept is the first. *)
Lemma aggregate_fault_kept ms acc :
  acc ≠ 0 → foldl (λ acc m, if (acc =? 0) && negb (motorstate m =? 0) then motorstate m else acc) acc ms = acc.
Proof.
  intros Hacc%Z.eqb_neq. induction ms as [|m ms IH]; simpl; [done|]. rewrite Hacc. exact IH.
Qed.

Lemma aggregate_fault_exact ms :
  aggregate_fault ms = match List.filter faulty ms with [] => 0 | m :: _ => motorstate m end.
Proof.
  unfold aggregate_fault. induction ms as [|m ms IH]; simpl; [done|]. unfold faulty at 1.
  destruct (motorstate m =? 0) eqn:E; simpl; [exact IH|]. apply aggregate_fault_kept. by apply Z.eqb_neq.
Qed.

(** C33: What the robot reports of its motors arrives in the robot state of the
    framework: of the first 35 motors each is a valid joint with the values
    reported, all other joints are invalid; the state has an emergency stop exactly
    if one of these motors reports a fault, and the code of the first that does, or
    [2 ^ 31 - 1] if that is larger. *)
Theorem reported_state s m heartbeats reconnects now :
  (∀ x, x ∈ motor_state m → 0 <= motorstate x < 2 ^ 32) →
  let r := ToCoreRobotState (WithLowState s m heartbeats reconnects now) in
  let motors := take kMaxRobotJointStates (motor_state m) in
  length (joints r) = kMaxRobotJointStates ∧ jointCount (diagnostics r) = Z.of_nat (length motors) ∧
  (∀ (i : nat) x, motors !! i = Some x → joints r !! i = Some (reported_joint x)) ∧
  (∀ i j, joints r !! i = Some j → (length motors <= i)%nat → joint_valid j = false) ∧
  emergencyStop (health r) = existsb faulty motors ∧
  faultCode (health r) = match List.filter faulty motors with [] => 0 | x :: _ => Z.min (motorstate x) int32_max end ∧
  0 <= faultCode (health r) <= int32_max.
Proof.
  intros Hm r motors. unfold kMaxRobotJointStates in motors.
  assert (Hn : (length motors <= 35)%nat) by (unfold motors; rewrite length_take; lia).
  assert (Hj : joints r = write_first (length motors)
    (core_joint (WithLowState s m heartbeats reconnects now)) (joints default_RobotState)).
  { unfold r, ToCoreRobotState. simpl joints. f_equal. simpl joint_count.
    change (take kSdkMaxJointStates (motor_state m)) with motors. unfold kMaxRobotJointStates. lia. }
  assert (Hf : faultCode (health r) = match List.filter faulty motors with [] => 0 | x :: _ => Z.min (motorstate x) int32_max end).
  { unfold r. simpl. change (take kSdkMaxJointStates (motor_state m)) with motors. rewrite aggregate_fault_exact.
    unfold int32_max. destruct (List.filter faulty motors) as [|x l]; [done|].
    destruct (_ <? _) eqn:E; [apply Z.ltb_lt in E|apply Z.ltb_ge in E]; lia. }
  assert (Hx : ∀ x l, List.filter faulty motors = x :: l → 0 < motorstate x < 2 ^ 32).
  { intros x l E. assert (Hin : In x (List.filter faulty motors)) by (rewrite E; by left).
    apply filter_In in Hin as [Hin Hfx]. unfold faulty in Hfx. rewrite negb_true_iff, Z.eqb_neq in Hfx.
    assert (Hr : 0 <= motorstate x < 2 ^ 32); [|lia]. apply Hm. apply list_elem_of_In in Hin. unfold motors in Hin.
    by eapply elem_of_take in Hin as (k & Hk%list_elem_of_lookup_2 & _). }
  split_and!; try done.
  - intros i x Hi. pose proof (lookup_lt_Some _ _ _ Hi) as Hlt. rewrite Hj, write_first_lookup.
    rewrite bool_decide_eq_true_2 by done.
    destruct (lookup_lt_is_Some_2 (joints default_RobotState) i) as [j ->]; [simpl; lia|]. simpl. f_equal.
    unfold core_joint, reported_joint, float_at, int_at. simpl. change (take kSdkMaxJointStates (motor_state m)) with motors.
    by rewrite !(prefix_at _ _ _ _ _ _ Hi).
  - intros i j Hi Hle. rewrite Hj, write_first_lookup in Hi. rewrite bool_decide_eq_false_2 in Hi by lia.
    destruct (joints default_RobotState !! i) as [j'|] eqn:Ej; [|done]. simpl in Hi. injection Hi as <-.
    apply lookup_replicate in Ej as [-> _]. done.
  - unfold r. simpl. change (take kSdkMaxJointStates (motor_state m)) with motors. rewrite aggregate_fault_exact.
    destruct (List.filter faulty motors) as [|x l] eqn:E.
    + symmetry. simpl. apply not_true_iff_false. intros (x & Hin & Hfx)%existsb_exists.
      assert (Hin' : In x (List.filter faulty motors)) by (by apply filter_In). by rewrite E in Hin'.
    + assert (existsb faulty motors = true) as ->.
      { apply existsb_exists. exists x. apply filter_In. rewrite E. by left. }
      specialize (Hx x l eq_refl). unfold int32_max. destruct (_ <? _) eqn:Elt; [done|].
      rewrite negb_true_iff, Z.eqb_neq. lia.
  - rewrite Hf. unfold int32_max. destruct (List.filter faulty motors) as [|x l] eqn:E; [lia|].
    specialize (Hx x l eq_refl). lia.
  - rewrite Hf. unfold int32_max. destruct (List.filter faulty motors) as [|x l] eqn:E; lia.
Qed.

Definition sample_motor (fault : Z) : MotorState :=
  mkMotor float_zero float_zero float_zero float_zero float_zero 40 1 fault.

Definition sample_low_state : LowState :=
  mkLowState 7 0 0 [] [] [] 30 [] [sample_motor 0; sample_motor (2 ^ 31 + 5); sample_motor 3].

Lemma reported_state_witness :
  let r := ToCoreRobotState (WithLowState default_SdkRobotState sample_low_state 0 0 9) in
  joints r !! 1%nat = Some (reported_joint (sample_motor (2 ^ 31 + 5))) ∧ faultCode (health r) = int32_max.
Proof.
  destruct (reported_state default_SdkRobotState sample_low_state 0 0 9) as (_ & _ & Hj & _ & _ & Hf & _).
  - intros x. change (motor_state sample_low_state) with [sample_motor 0; sample_motor (2 ^ 31 + 5); sample_motor 3].
    rewrite !elem_of_cons, elem_of_nil. intros [->|[->|[->|[]]]]; simpl; lia.
  - split; [exact (Hj 1%nat _ eq_refl)|]. rewrite Hf. reflexivity.
Defined.
