(* ===== verification/SdkClients.v ===== *)
(** * The clients of the Unitree SDK

    plugins/unitree/sdk/SdkClientSupport.h and the three adapters of SDK clients
    (LocoAdapter.cpp, HandAdapter.cpp, AudioAdapter.cpp), which have one shape:
    a client that exists once it is initialized, and a connection that a query
    of the robot confirms.  The SDK and the operating system are the parameter
    [Sdk]; a [Device] is their state with the calls made so far, which the code
    does not keep. *)

From Stdlib Require Import SpecFloat.
From stdpp Require Import pretty.
From S2P Require Import Prelude Command Status RobotState UnitreeTypes.

Open Scope Z_scope.

Inductive ClientKind := LocoClient | ArmActionClient | AudioClient.

Inductive SdkCall :=
  | ChannelFactoryInit (domain : Z) (interface : string)
  | NewClient (k : ClientKind)
  | ClientInit (k : ClientKind)
  | ClientSetTimeout (k : ClientKind) (seconds : float32)
  | CallGetFsmId
  | CallStandUp | CallBalanceStand | CallSit
  | CallMove (vx vy omega : float32)
  | CallSetVelocity (vx vy omega : float32)
  | CallStopMove | CallDamp
  | CallGetActionList
  | CallExecuteAction (id : Z)
  | CallGetVolume
  | CallPlayStream (app stream : string) (pcm : list Z)
  | CallPlayStop (app : string)
  | CallSetVolume (volume : Z).

(** What a call returns or throws, and the number it leaves in the argument that
    it is given by reference. *)
Class Sdk := {
  World : Type;
  sdk_call : SdkCall → World → Outcome Z * Z * World;
  interface_exists : string → World → bool;
  netlink_socket : World → bool;
}.

(** A call, and whether it returned 0. *)
Inductive SdkEvent := Called (c : SdkCall) (ok : bool).

Section Clients.
Context `{Sdk}.

Record Device := mkDevice { world : World; calls : list SdkEvent }.

Definition returned_zero (a : Outcome Z) : bool := match a with Value n => n =? 0 | _ => false end.

Definition call (c : SdkCall) (d : Device) : Outcome Z * Z * Device :=
  let '(a, out, w) := sdk_call c (world d) in
  (a, out, mkDevice w (calls d ++ [Called c (returned_zero a)])).

(* ------------------------------------------------------------------ *)
(** ** SdkClientSupport.h *)

Definition Success (message : string) : SdkResult := mkSdkResult SdkSuccess message.
Definition Failure (code : SdkErrorCode) (message : string) : SdkResult := mkSdkResult code message.

Definition FromSdkReturn (sdk_return : Z) (command : string) (failure_code : SdkErrorCode) : SdkResult :=
  if sdk_return =? 0 then Success (command +:+ " succeeded")
  else Failure failure_code (command +:+ " failed with Unitree SDK2 return code " +:+ pretty sdk_return).

Definition sdk_result (a : Outcome Z) (command : string) (failure_code : SdkErrorCode) : SdkResult :=
  match a with
  | Value n => FromSdkReturn n command failure_code
  | Exception what => Failure failure_code (command +:+ " failed with Unitree SDK2 exception: " +:+ what)
  | UnknownException =>
      Failure failure_code (command +:+ " failed with an unknown Unitree SDK2 exception")
  end.

Definition InvokeSdkCommand (command : string) (failure_code : SdkErrorCode) (c : SdkCall) (d : Device) :
    SdkResult * Device :=
  let '(a, _, d) := call c d in (sdk_result a command failure_code, d).

Definition TimeoutSeconds (milliseconds : Z) : float32 :=
  SFdiv 24 128 (float32_of_Z milliseconds) (float32_of_Z 1000).

Definition ValidateSdkConfiguration (c : SdkConfiguration) (d : Device) : SdkResult :=
  if bool_decide (network_interface c = "") then Failure SdkConnectionFailed "network interface is empty"
  else if sdk_timeout c <=? 0 then Failure SdkTimeout "timeout must be greater than zero"
  else if int32_max <? domain_id c then Failure SdkConnectionFailed "DDS domain id exceeds supported range"
  else if negb (interface_exists (network_interface c) (world d)) then
    Failure SdkConnectionFailed ("network interface does not exist: " +:+ network_interface c)
  else if negb (netlink_socket (world d)) then
    Failure SdkConnectionFailed
      "route netlink socket is unavailable; Unitree SDK2 transport cannot be initialized in this environment"
  else Success "Unitree SDK2 configuration is valid".

(* ------------------------------------------------------------------ *)
(** ** A client *)

Record Client := mkClient {
  client_ : bool;
  client_configuration_ : SdkConfiguration;
  client_initialized_ : bool;
  client_connected_ : bool;
}.

#[export] Instance eta_Client : EtaRecord Client := fun c =>
  mkClient (client_ c) (client_configuration_ c) (client_initialized_ c) (client_connected_ c).

Definition new_Client : Client := mkClient false default_SdkConfiguration false false.

Definition client_noun (k : ClientKind) : string :=
  match k with LocoClient => "locomotion" | ArmActionClient => "hand" | AudioClient => "audio" end.

Definition RequireInitialized (k : ClientKind) (command : string) (c : Client) : SdkResult :=
  if negb (client_initialized_ c) || negb (client_ c) then
    Failure SdkConnectionFailed (command +:+ " requires initialized " +:+ client_noun k +:+ " client")
  else Success (command +:+ " precondition satisfied").

Definition RequireConnected (k : ClientKind) (command : string) (c : Client) : SdkResult :=
  if negb (client_initialized_ c) || negb (client_ c) || negb (client_connected_ c) then
    Failure SdkConnectionFailed (command +:+ " requires connected " +:+ client_noun k +:+ " client")
  else Success (command +:+ " precondition satisfied").

(** Calls of which none throws; or what the first that does throws. *)
Fixpoint call_all (cs : list SdkCall) (d : Device) : option (Outcome Z) * Device :=
  match cs with
  | [] => (None, d)
  | c :: cs =>
      let '(a, _, d) := call c d in
      match a with Value _ => call_all cs d | _ => (Some a, d) end
  end.

Definition client_calls (k : ClientKind) (c : SdkConfiguration) : list SdkCall :=
  [ChannelFactoryInit (domain_id c) (network_interface c); NewClient k; ClientInit k;
   ClientSetTimeout k (TimeoutSeconds (sdk_timeout c))].

Definition Client_Initialize (k : ClientKind) (configuration : SdkConfiguration) (c : Client) (d : Device) :
    SdkResult * Client * Device :=
  let noun := "Unitree " +:+ client_noun k +:+ " adapter " in
  if client_initialized_ c then (Success (noun +:+ "already initialized"), c, d)
  else
    let validation := ValidateSdkConfiguration configuration d in
    if negb (Succeeded validation) then (validation, c, d)
    else match call_all (client_calls k configuration) d with
    | (None, d) => (Success (noun +:+ "initialized"), mkClient true configuration true false, d)
    | (Some a, d) =>
        (Failure SdkConnectionFailed
           (match a with
            | Exception what => noun +:+ "initialization failed: " +:+ what
            | _ => noun +:+ "initialization failed with an unknown exception"
            end),
         c <| client_ := false |> <| client_initialized_ := false |> <| client_connected_ := false |>, d)
    end.

Definition Client_Shutdown (k : ClientKind) (c : Client) : SdkResult * Client :=
  (Success ("Unitree " +:+ client_noun k +:+ " adapter shut down"),
   c <| client_ := false |> <| client_initialized_ := false |> <| client_connected_ := false |>).

(** A command of a connected client. *)
Definition connected_command (k : ClientKind) (name label : string) (sdk : SdkCall) (c : Client) (d : Device) :
    SdkResult * Device :=
  let precondition := RequireConnected k name c in
  if negb (Succeeded precondition) then (precondition, d)
  else InvokeSdkCommand label SdkRobotFault sdk d.

(** A query that confirms the connection. *)
Definition confirm (k : ClientKind) (name label : string) (sdk : SdkCall) (c : Client) (d : Device) :
    SdkResult * Z * Client * Device :=
  let precondition := RequireInitialized k name c in
  if negb (Succeeded precondition) then (precondition, -1, c, d)
  else
    let '(a, out, d) := call sdk d in
    let r := sdk_result a label SdkConnectionFailed in
    (r, out, c <| client_connected_ := Succeeded r |>, d).

(* ------------------------------------------------------------------ *)
(** ** LocoAdapter *)

Definition IsFinite (v : SdkVelocityCommand) : bool :=
  isfinite (sdk_linear_x v) && isfinite (sdk_linear_y v) && isfinite (sdk_angular_z v).

Definition Loco_Initialize : SdkConfiguration → Client → Device → SdkResult * Client * Device :=
  Client_Initialize LocoClient.

Definition Loco_Shutdown : Client → SdkResult * Client := Client_Shutdown LocoClient.

(** The number stays -1 if there is no client. *)
Definition GetFsmId : Client → Device → SdkResult * Z * Client * Device :=
  confirm LocoClient "GetFsmId" "GetFsmId" CallGetFsmId.

Definition Loco_Connect (c : Client) (d : Device) : SdkResult * Client * Device :=
  let '(r, _, c, d) := GetFsmId c d in (r, c, d).

Definition Loco_Disconnect (c : Client) : SdkResult * Client :=
  (Success "Unitree locomotion adapter disconnected", c <| client_connected_ := false |>).

Definition Loco_Stand : Client → Device → SdkResult * Device :=
  connected_command LocoClient "Stand" "Stand" CallStandUp.

Definition Loco_BalanceStand : Client → Device → SdkResult * Device :=
  connected_command LocoClient "BalanceStand" "BalanceStand" CallBalanceStand.

Definition Loco_Sit : Client → Device → SdkResult * Device :=
  connected_command LocoClient "Sit" "Sit" CallSit.

Definition Walk (v : SdkVelocityCommand) (c : Client) (d : Device) : SdkResult * Device :=
  if negb (IsFinite v) then (Failure SdkUnknown "walk command contains a non-finite velocity value", d)
  else connected_command LocoClient "Walk" "Walk"
         (CallMove (sdk_linear_x v) (sdk_linear_y v) (sdk_angular_z v)) c d.

Definition SetVelocity (v : SdkVelocityCommand) (c : Client) (d : Device) : SdkResult * Device :=
  if negb (IsFinite v) then (Failure SdkUnknown "velocity command contains a non-finite value", d)
  else connected_command LocoClient "SetVelocity" "SetVelocity"
         (CallSetVelocity (sdk_linear_x v) (sdk_linear_y v) (sdk_angular_z v)) c d.

Definition Loco_Stop (c : Client) (d : Device) : SdkResult * Device :=
  let precondition := RequireInitialized LocoClient "Stop" c in
  if negb (Succeeded precondition) then (precondition, d)
  else InvokeSdkCommand "Stop" SdkRobotFault CallStopMove d.

Definition Loco_EmergencyStop (c : Client) (d : Device) : SdkResult * Client * Device :=
  let precondition := RequireInitialized LocoClient "EmergencyStop" c in
  if negb (Succeeded precondition) then (precondition, c, d)
  else
    let '(stop_result, d) := InvokeSdkCommand "EmergencyStop.StopMove" SdkRobotFault CallStopMove d in
    let '(damp_result, d) := InvokeSdkCommand "EmergencyStop.Damp" SdkRobotFault CallDamp d in
    (if negb (Succeeded stop_result) then stop_result else damp_result, c <| client_connected_ := false |>, d).

(* ------------------------------------------------------------------ *)
(** ** HandAdapter *)

Definition ToActionId (g : SdkHandGesture) : Z :=
  match g with
  | HandsUp => 15 | Clap => 17 | HighFive => 18 | Hug => 19
  | Heart => 20 | Reject => 22 | Wave => 26 | ShakeHand => 27
  end.

Definition kReleaseArmActionId : Z := 99.

Definition UnsupportedFingerCommand (command : string) : SdkResult :=
  Failure SdkUnknown
    (command +:+ " is not exposed by Unitree G1 SDK2 arm action client; command was not sent").

Definition Hand_Initialize : SdkConfiguration → Client → Device → SdkResult * Client * Device :=
  Client_Initialize ArmActionClient.

Definition Hand_Shutdown : Client → SdkResult * Client := Client_Shutdown ArmActionClient.

Definition Hand_Connect (c : Client) (d : Device) : SdkResult * Client * Device :=
  let '(r, _, c, d) := confirm ArmActionClient "Connect" "Hand.Connect" CallGetActionList c d in (r, c, d).

Definition Hand_Open : SdkResult := UnsupportedFingerCommand "Open".
Definition Hand_Close : SdkResult := UnsupportedFingerCommand "Close".
Definition Hand_Grip : SdkResult := UnsupportedFingerCommand "Grip".

Definition Hand_Release : Client → Device → SdkResult * Device :=
  connected_command ArmActionClient "Release" "Hand.Release" (CallExecuteAction kReleaseArmActionId).

Definition Hand_Gesture (g : SdkHandGesture) : Client → Device → SdkResult * Device :=
  connected_command ArmActionClient "Gesture" "Hand.Gesture" (CallExecuteAction (ToActionId g)).

(* ------------------------------------------------------------------ *)
(** ** AudioAdapter *)

Definition kMaxVolumePercent : Z := 100.

Definition ValidatePlayback (p : SdkAudioPlayback) : SdkResult :=
  if bool_decide (app_name p = "") then Failure SdkUnknown "audio playback app_name is empty"
  else if bool_decide (stream_id p = "") then Failure SdkUnknown "audio playback stream_id is empty"
  else if bool_decide (pcm_data p = []) then Failure SdkUnknown "audio playback pcm_data is empty"
  else Success "audio playback payload is valid".

Definition ValidateAppName (app : string) : SdkResult :=
  if bool_decide (app = "") then Failure SdkUnknown "audio app_name is empty"
  else Success "audio app_name is valid".

Definition ValidateVolume (volume : Z) : SdkResult :=
  if kMaxVolumePercent <? volume then Failure SdkUnknown "audio volume must be in range [0, 100]"
  else Success "audio volume is valid".

Definition Audio_Initialize : SdkConfiguration → Client → Device → SdkResult * Client * Device :=
  Client_Initialize AudioClient.

Definition Audio_Shutdown : Client → SdkResult * Client := Client_Shutdown AudioClient.

Definition Audio_Connect (c : Client) (d : Device) : SdkResult * Client * Device :=
  let '(r, _, c, d) := confirm AudioClient "Connect" "Audio.Connect" CallGetVolume c d in (r, c, d).

Definition Play (p : SdkAudioPlayback) (c : Client) (d : Device) : SdkResult * Device :=
  let validation := ValidatePlayback p in
  if negb (Succeeded validation) then (validation, d)
  else connected_command AudioClient "Play" "Audio.Play" (CallPlayStream (app_name p) (stream_id p) (pcm_data p)) c d.

Definition Audio_Stop (app : string) (c : Client) (d : Device) : SdkResult * Device :=
  let validation := ValidateAppName app in
  if negb (Succeeded validation) then (validation, d)
  else connected_command AudioClient "Stop" "Audio.Stop" (CallPlayStop app) c d.

Definition SetVolume (volume : Z) (c : Client) (d : Device) : SdkResult * Device :=
  let validation := ValidateVolume volume in
  if negb (Succeeded validation) then (validation, d)
  else connected_command AudioClient "SetVolume" "Audio.SetVolume" (CallSetVolume volume) c d.

Definition Mute : Client → Device → SdkResult * Device := SetVolume 0.
End Clients.
Arguments Device {_}.
