(* ===== verification/SdkWrapper.v ===== *)
(** * SdkWrapper

    plugins/unitree/sdk/SdkWrapper.cpp: the locomotion client behind a mutex,
    with a worker thread that keeps asking the robot for its state.  Each
    operation is the part that runs under the mutex; [wrapper_exec] puts them
    together with the threads that stop, join and publish outside of it.  The
    destructor does what [StopBegins] with [ThenShutdown] begins. *)

From Stdlib Require Import SpecFloat.
From S2P Require Import Prelude Command Status RobotState UnitreeTypes SdkClients.

Open Scope Z_scope.

Definition kDefaultHeartbeatInterval : Z := 500.
Definition kDefaultReconnectInterval : Z := 1000.
Definition kDefaultConnectionTimeout : Z := 1500.

Definition PositiveOrDefault (value default_value : Z) : Z := if 0 <? value then value else default_value.

Definition NormalizeCommunicationOptions (o : SdkCommunicationOptions) : SdkCommunicationOptions :=
  let heartbeat := PositiveOrDefault (heartbeat_interval o) kDefaultHeartbeatInterval in
  let reconnect := PositiveOrDefault (reconnect_interval o) kDefaultReconnectInterval in
  let timeout := PositiveOrDefault (connection_timeout o) kDefaultConnectionTimeout in
  mkOptions heartbeat reconnect (if timeout <? heartbeat then heartbeat else timeout).

Definition MakeDescriptor (c : SdkConfiguration) (discovered : bool) : SdkRobotDescriptor :=
  mkSdkDescriptor "Unitree" "G1" (robot_ip c) (network_interface c) (domain_id c) (serial_number c)
    (firmware_version c) discovered.

Definition UpdateStateSample (connection_state : SdkConnectionState) (motion_mode : SdkMotionMode)
    (fsm : Z) (stopped : bool) (fault now : Z) (s : SdkRobotState) : SdkRobotState :=
  s <| sdk_connection_state := connection_state |> <| sdk_motion_mode := motion_mode |>
    <| motion_mode_id := motion_mode_number motion_mode |> <| emergency_stop := stopped |>
    <| fault_code := fault |> <| fsm_id := fsm |> <| sdk_timestamp := now |>.

Definition UpdateStateAfterCommand (connection_state : SdkConnectionState) (motion_mode : SdkMotionMode)
    (succeeded : bool) (now : Z) (s : SdkRobotState) : SdkRobotState :=
  UpdateStateSample connection_state motion_mode (fsm_id s) (bool_decide (connection_state = SdkFaulted))
    (if succeeded then 0 else 1) now s.

(** [steady_clock::time_point]s are nanoseconds, durations milliseconds. *)
Definition elapsed (since now milliseconds : Z) : bool := ns_of_ms milliseconds <=? elapsed_ns now since.

Section Wrapper.
Context `{Sdk} {Callback : Type}.

(* ------------------------------------------------------------------ *)
(** ** State *)

Record Wrapper := mkWrapper {
  loco_adapter_ : Client;
  low_state_subscriber_ : bool;
  configuration_ : SdkConfiguration;
  latest_state_ : SdkRobotState;
  communication_options_ : SdkCommunicationOptions;
  state_update_callback_ : option Callback;
  last_successful_heartbeat_ : Z;
  last_reconnect_attempt_ : Z;
  heartbeat_count_ : Z;
  reconnect_attempt_count_ : Z;
  connection_state_ : SdkConnectionState;
  motion_mode_ : SdkMotionMode;
  initialized_ : bool;
  connected_ : bool;
  communication_running_ : bool;
  stop_communication_requested_ : bool;
  communication_thread_ : option nat;
}.

#[export] Instance eta_Wrapper : EtaRecord Wrapper := fun w =>
  mkWrapper (loco_adapter_ w) (low_state_subscriber_ w) (configuration_ w) (latest_state_ w)
    (communication_options_ w) (state_update_callback_ w) (last_successful_heartbeat_ w)
    (last_reconnect_attempt_ w) (heartbeat_count_ w) (reconnect_attempt_count_ w) (connection_state_ w)
    (motion_mode_ w) (initialized_ w) (connected_ w) (communication_running_ w)
    (stop_communication_requested_ w) (communication_thread_ w).

Definition new_Wrapper : Wrapper :=
  mkWrapper new_Client false default_SdkConfiguration default_SdkRobotState default_SdkCommunicationOptions
    None 0 0 0 0 SdkUninitialized MotionUnknown false false false false None.

(** [UpdateStateSample] with the members of the wrapper. *)
Definition sample (fsm : Z) (stopped : bool) (fault now : Z) (w : Wrapper) : Wrapper :=
  w <| latest_state_ ::= UpdateStateSample (connection_state_ w) (motion_mode_ w) fsm stopped fault now |>.

Definition with_loco (c : Client) (w : Wrapper) : Wrapper := w <| loco_adapter_ := c |>.

Definition count_samples (w : Wrapper) : Wrapper :=
  w <| latest_state_ ::= λ s, s <| sdk_heartbeat_count := heartbeat_count_ w |>
                                <| sdk_reconnect_attempt_count := reconnect_attempt_count_ w |> |>.

Definition not_initialized : SdkResult := Failure SdkConnectionFailed "Unitree SDK2 wrapper is not initialized".
Definition not_connected : SdkResult := Failure SdkConnectionFailed "Unitree SDK2 wrapper is not connected".

(* ------------------------------------------------------------------ *)
(** ** Operations under the mutex *)

(** [Initialize] up to the subscriber; [inr] if it goes on to that. *)
Definition Initialize (c : SdkConfiguration) (now : Z) (w : Wrapper) (d : Device) :
    (SdkResult + ()) * Wrapper * Device :=
  if initialized_ w then (inl (Success "Unitree SDK2 wrapper already initialized"), w, d)
  else
    let '(r, loco, d) := Loco_Initialize c (loco_adapter_ w) d in
    let w := with_loco loco w in
    if negb (Succeeded r) then
      (inl r, sample (-1) false 0 now (w <| connection_state_ := SdkFaulted |>), d)
    else
      (inr (),
       sample (-1) false 0 now
         (w <| configuration_ := c |> <| initialized_ := true |> <| connected_ := false |>
            <| motion_mode_ := MotionIdle |> <| connection_state_ := SdkInitialized |>
            <| latest_state_ := default_SdkRobotState |>), d).

(** The rest of [Initialize]: whether there is a subscriber now. *)
Definition Subscribed (made : bool) (w : Wrapper) : SdkResult * Wrapper :=
  (Success "Unitree SDK2 wrapper initialized", w <| low_state_subscriber_ := made |>).

(** The callback of the subscriber. *)
Definition ReceiveLowState (m : LowState) (now : Z) (w : Wrapper) : Wrapper :=
  w <| latest_state_ ::= λ s, WithLowState s m (heartbeat_count_ w) (reconnect_attempt_count_ w) now |>.

Definition DiscoverRobot (w : Wrapper) (d : Device) : SdkDiscoveryResult * Wrapper * Device :=
  if negb (initialized_ w) then
    (mkDiscovery not_initialized (MakeDescriptor (configuration_ w) false), w, d)
  else
    let '(r, _, loco, d) := GetFsmId (loco_adapter_ w) d in
    let w := with_loco loco w in
    (mkDiscovery r (MakeDescriptor (configuration_ w) (Succeeded r)),
     if Succeeded r then w else w <| connection_state_ := SdkFaulted |>, d).

(** [None] if nothing is published. *)
Definition Connect (now now' : Z) (w : Wrapper) (d : Device) : option SdkResult * Wrapper * Device :=
  if negb (initialized_ w) then (None, w, d)
  else
    let '(r, fsm, loco, d) := GetFsmId (loco_adapter_ w) d in
    let ok := Succeeded r in
    let state := if ok then SdkConnected else SdkFaulted in
    let w := with_loco loco w <| connected_ := ok |> <| connection_state_ := state |> in
    let w := if ok then w <| last_successful_heartbeat_ := now |> else w in
    (Some r, count_samples (sample fsm (negb ok) (if ok then 0 else 1) now' w), d).

Definition Disconnect (now : Z) (w : Wrapper) : Wrapper :=
  sample (-1) false 0 now
    (with_loco (Loco_Disconnect (loco_adapter_ w)).2 w
       <| connected_ := false |> <| motion_mode_ := MotionIdle |> <| connection_state_ := SdkDisconnected |>).

(** [thread] is the new thread, or what its constructor throws. *)
Definition StartCommunication (o : SdkCommunicationOptions) (thread : Outcome nat) (w : Wrapper) :
    SdkResult * Wrapper :=
  if negb (initialized_ w) then (not_initialized, w)
  else if communication_running_ w then (Success "Unitree SDK2 communication worker already running", w)
  else
    let w := w <| communication_options_ := NormalizeCommunicationOptions o |>
               <| stop_communication_requested_ := false |> in
    match thread with
    | Value id =>
        (Success "Unitree SDK2 communication worker started",
         w <| communication_running_ := true |> <| communication_thread_ := Some id |>)
    | Exception what =>
        (Failure SdkUnknown ("failed to start Unitree SDK2 communication worker: " +:+ what),
         w <| communication_running_ := false |>)
    | UnknownException =>
        (Failure SdkUnknown "failed to start Unitree SDK2 communication worker: unknown exception",
         w <| communication_running_ := false |>)
    end.

(** [StopCommunication] before the join, with the thread to join; [None] if
    nothing is running. *)
Definition StopCommunication_begin (w : Wrapper) : option (option nat * Wrapper) :=
  if negb (communication_running_ w) then None
  else Some (communication_thread_ w,
             w <| stop_communication_requested_ := true |> <| communication_thread_ := None |>).

Definition StopCommunication_end (w : Wrapper) : Wrapper :=
  w <| communication_running_ := false |> <| stop_communication_requested_ := false |>.

Definition reconnect_due (now : Z) (w : Wrapper) : bool :=
  (last_reconnect_attempt_ w =? 0) ||
  elapsed (last_reconnect_attempt_ w) now (reconnect_interval (communication_options_ w)).

(** The second query of [SynchronizeState], when it is due. *)
Definition reconnect (timed_out : bool) (r : SdkResult) (now now' : Z) (w : Wrapper) (d : Device) :
    SdkResult * Wrapper * Device :=
  if negb (reconnect_due now w) then (r, w, d)
  else
    let w := w <| reconnect_attempt_count_ ::= u64_incr |> <| last_reconnect_attempt_ := now |> in
    let '(r', fsm, loco, d) := GetFsmId (loco_adapter_ w) d in
    let w := with_loco loco w in
    if Succeeded r' then
      (r', sample fsm false 0 now'
             (w <| connected_ := true |> <| connection_state_ := SdkConnected |>
                <| last_successful_heartbeat_ := now |>), d)
    else if timed_out then
      (Failure SdkTimeout "Unitree SDK2 communication timed out and reconnect failed", w, d)
    else (r, w, d).

Definition heartbeat_timed_out (now : Z) (w : Wrapper) : bool :=
  (last_successful_heartbeat_ w =? 0) ||
  elapsed (last_successful_heartbeat_ w) now (connection_timeout (communication_options_ w)).

(** [None] if nothing is published. *)
Definition SynchronizeState (now now' : Z) (w : Wrapper) (d : Device) : option SdkResult * Wrapper * Device :=
  if negb (initialized_ w) then (None, w, d)
  else
    let w := w <| heartbeat_count_ ::= u64_incr |> in
    let '(r, fsm, loco, d) := GetFsmId (loco_adapter_ w) d in
    let w := with_loco loco w in
    if Succeeded r then
      (Some r,
       count_samples (sample fsm false 0 now'
         (w <| connected_ := true |> <| connection_state_ := SdkConnected |>
            <| last_successful_heartbeat_ := now |>)), d)
    else
      let timed_out := heartbeat_timed_out now w in
      let '(r, w) :=
        if timed_out then
          (Failure SdkTimeout "Unitree SDK2 communication heartbeat timed out",
           sample fsm false 0 now' (w <| connected_ := false |> <| connection_state_ := SdkDisconnected |>))
        else (r, w) in
      let '(r, w, d) := reconnect timed_out r now now' w d in
      (Some r, count_samples w, d).

(** What a command leaves. *)
Definition after_command (r : SdkResult) (mode : SdkMotionMode) (now : Z) (w : Wrapper) : Wrapper :=
  let ok := Succeeded r in
  let w := w <| motion_mode_ := if ok then mode else MotionFaulted |>
             <| connection_state_ ::= λ state, if ok then state else SdkFaulted |> in
  w <| latest_state_ ::= UpdateStateAfterCommand (connection_state_ w) (motion_mode_ w) ok now |>.

(** A command of the connected robot. *)
Definition motion_command (command : Client → Device → SdkResult * Device) (mode : SdkMotionMode) (now : Z)
    (w : Wrapper) (d : Device) : SdkResult * Wrapper * Device :=
  if negb (initialized_ w) || negb (connected_ w) then (not_connected, w, d)
  else
    let '(r, d) := command (loco_adapter_ w) d in
    (r, after_command r mode now w, d).

Definition Move (vx vy omega : float32) : Z → Wrapper → Device → SdkResult * Wrapper * Device :=
  motion_command (Walk (mkSdkVelocity vx vy omega)) MotionWalking.

Definition StandUp : Z → Wrapper → Device → SdkResult * Wrapper * Device :=
  motion_command Loco_Stand MotionStanding.

Definition Sit : Z → Wrapper → Device → SdkResult * Wrapper * Device := motion_command Loco_Sit MotionSitting.

Definition BalanceStand : Z → Wrapper → Device → SdkResult * Wrapper * Device :=
  motion_command Loco_BalanceStand MotionStanding.

Definition Stop (now : Z) (w : Wrapper) (d : Device) : SdkResult * Wrapper * Device :=
  if negb (initialized_ w) then (not_initialized, w, d)
  else
    let '(r, d) := Loco_Stop (loco_adapter_ w) d in
    (r, after_command r MotionIdle now w, d).

Definition EmergencyStop (now : Z) (w : Wrapper) (d : Device) : SdkResult * Wrapper * Device :=
  if negb (initialized_ w) then (not_initialized, w, d)
  else
    let '(r, loco, d) := Loco_EmergencyStop (loco_adapter_ w) d in
    (r, sample (fsm_id (latest_state_ w)) true 1 now
          (with_loco loco w <| connected_ := false |> <| motion_mode_ := MotionFaulted |>
             <| connection_state_ := SdkFaulted |>), d).

Definition Shutdown (now : Z) (w : Wrapper) : Wrapper :=
  sample (-1) false 0 now
    (with_loco (Loco_Shutdown (loco_adapter_ w)).2 w
       <| connected_ := false |> <| initialized_ := false |> <| low_state_subscriber_ := false |>
       <| motion_mode_ := MotionIdle |> <| connection_state_ := SdkShutdown |>
       <| last_successful_heartbeat_ := 0 |> <| last_reconnect_attempt_ := 0 |>).

Definition ReadRobotState (w : Wrapper) : SdkRobotState := latest_state_ w.

Definition SetStateUpdateCallback (callback : option Callback) (w : Wrapper) : Wrapper :=
  w <| state_update_callback_ := callback |>.

Record SdkCommunicationStatus := mkCommunicationStatus {
  status_running : bool; status_initialized : bool; status_connected : bool;
  status_connection_state : SdkConnectionState; status_heartbeat_count : Z;
  status_reconnect_attempt_count : Z; status_last_successful_heartbeat : Z;
  status_last_reconnect_attempt : Z;
}.

Definition CommunicationStatus (w : Wrapper) : SdkCommunicationStatus :=
  mkCommunicationStatus (communication_running_ w) (initialized_ w) (connected_ w) (connection_state_ w)
    (heartbeat_count_ w) (reconnect_attempt_count_ w) (last_successful_heartbeat_ w) (last_reconnect_attempt_ w).

(* ------------------------------------------------------------------ *)
(** ** Threads *)

(** What a thread does once the worker has stopped. *)
Inductive AfterStop := ReturnStopped | ThenDisconnect | ThenShutdown.

Inductive WrapperPc :=
  | Subscribing
  | Publishing (r : option SdkResult) (callback : option Callback) (state : SdkRobotState)
  | Joining (worker : option nat) (after : AfterStop)
  | Ending (after : AfterStop)
  | Stopped (after : AfterStop).

(** The program points of [RunCommunicationLoop]. *)
Inductive WorkerPc :=
  | AtLoop
  | Waiting
  | Synchronizing
  | WorkerPublishing (callback : option Callback) (state : SdkRobotState).

(** [published] has the calls of callbacks made so far, which the code does not
    keep. *)
Record WrapperState := mkWrapperState {
  wrapper : Wrapper;
  device : Device;
  clients : gmap nat WrapperPc;
  workers : gmap nat WorkerPc;
  published : list (Callback * RobotState);
}.

#[export] Instance eta_WrapperState : EtaRecord WrapperState := fun s =>
  mkWrapperState (wrapper s) (device s) (clients s) (workers s) (published s).

Definition initial (w : World) : WrapperState := mkWrapperState new_Wrapper (mkDevice w []) ∅ ∅ [].

(** The operations that one step under the mutex completes. *)
Inductive WrapperCommand :=
  | Discovers
  | Moves (vx vy omega : float32)
  | StandsUp | Sits | BalanceStands | Stops | EmergencyStops.

Inductive WrapperLabel :=
  | Executes (c : WrapperCommand) (now : Z)
  | InitializeBegins (t : nat) (c : SdkConfiguration) (now : Z)
  | SubscribeEnds (t : nat) (made : bool)
  | LowStateReceived (t : nat) (m : LowState) (now : Z)
  | Connects (t : nat) (now now' : Z)
  | Synchronizes (t : nat) (now now' : Z)
  | Publishes (t : nat)
  | Starts (o : SdkCommunicationOptions) (thread : Outcome nat)
  | StopBegins (t : nat) (after : AfterStop)
  | Joins (t : nat)
  | StopEnds (t : nat)
  | Finishes (t : nat) (now : Z)
  | SetsCallback (callback : option Callback)
  | WorkerLoops (k : nat)
  | WorkerWakes (k : nat) (timed_out : bool)
  | WorkerSynchronizes (k : nat) (now now' : Z)
  | WorkerPublishes (k : nat).

(** What a client is answered, if the transition ends its operation. *)
Definition Step : Type := option SdkResult * WrapperState.

Definition execute (c : WrapperCommand) (now : Z) (w : Wrapper) (d : Device) : SdkResult * Wrapper * Device :=
  match c with
  | Discovers => let '(r, w, d) := DiscoverRobot w d in (discovery_result r, w, d)
  | Moves vx vy omega => Move vx vy omega now w d
  | StandsUp => StandUp now w d
  | Sits => Sit now w d
  | BalanceStands => BalanceStand now w d
  | Stops => Stop now w d
  | EmergencyStops => EmergencyStop now w d
  end.

Definition at_client (t : nat) (pc : WrapperPc) (s : WrapperState) : WrapperState := s <| clients ::= <[t := pc]> |>.
Definition leaves (t : nat) (s : WrapperState) : WrapperState := s <| clients ::= delete t |>.
Definition at_worker (k : nat) (pc : WorkerPc) (s : WrapperState) : WrapperState := s <| workers ::= <[k := pc]> |>.

(** A client thread outside of the wrapper. *)
Definition outside (t : nat) (s : WrapperState) : bool := bool_decide (clients s !! t = None).

(** A client that has the result of a query publishes the state. *)
Definition publish (t : nat) (r : option SdkResult) (w : Wrapper) (d : Device) (s : WrapperState) : Step :=
  let s := s <| wrapper := w |> <| device := d |> in
  match r with
  | None => (Some not_initialized, s)
  | Some r => (None, at_client t (Publishing (Some r) (state_update_callback_ w) (latest_state_ w)) s)
  end.

(** What the callback throws is ignored. *)
Definition PublishStateUpdate (callback : option Callback) (state : SdkRobotState) (s : WrapperState) : WrapperState :=
  match callback with
  | None => s
  | Some f => s <| published ::= λ l, l ++ [(f, ToCoreRobotState state)] |>
  end.

(** [StopCommunication], to the join or past it. *)
Definition stop_begins (t : nat) (after : AfterStop) (s : WrapperState) : Step :=
  match StopCommunication_begin (wrapper s) with
  | Some (worker, w) => (None, at_client t (Joining worker after) (s <| wrapper := w |>))
  | None =>
      match after with
      | ReturnStopped => (Some (Success "Unitree SDK2 communication worker already stopped"), s)
      | _ => (None, at_client t (Stopped after) s)
      end
  end.

Definition client_exec (l : WrapperLabel) (s : WrapperState) : option Step :=
  match l with
  | Executes c now =>
      let '(r, w, d) := execute c now (wrapper s) (device s) in
      Some (Some r, s <| wrapper := w |> <| device := d |>)
  | InitializeBegins t c now =>
      if negb (outside t s) then None
      else
        let '(r, w, d) := Initialize c now (wrapper s) (device s) in
        let s := s <| wrapper := w |> <| device := d |> in
        match r with
        | inl r => Some (Some r, s)
        | inr _ => Some (None, at_client t Subscribing s)
        end
  | SubscribeEnds t made =>
      match clients s !! t with
      | Some Subscribing =>
          let '(r, w) := Subscribed made (wrapper s) in
          Some (Some r, leaves t (s <| wrapper := w |>))
      | _ => None
      end
  | LowStateReceived t m now =>
      if negb (outside t s) then None
      else
        let w := ReceiveLowState m now (wrapper s) in
        Some (None, at_client t (Publishing None (state_update_callback_ w) (latest_state_ w)) (s <| wrapper := w |>))
  | Connects t now now' =>
      if negb (outside t s) then None
      else let '(r, w, d) := Connect now now' (wrapper s) (device s) in Some (publish t r w d s)
  | Synchronizes t now now' =>
      if negb (outside t s) then None
      else let '(r, w, d) := SynchronizeState now now' (wrapper s) (device s) in Some (publish t r w d s)
  | Publishes t =>
      match clients s !! t with
      | Some (Publishing r callback state) => Some (r, leaves t (PublishStateUpdate callback state s))
      | _ => None
      end
  | Starts o thread =>
      match thread with
      | Value k => if bool_decide (is_Some (workers s !! k)) then None else
          let '(r, w) := StartCommunication o thread (wrapper s) in
          Some (Some r,
            (if negb (initialized_ (wrapper s)) || communication_running_ (wrapper s) then s
             else at_worker k AtLoop s) <| wrapper := w |>)
      | _ =>
          let '(r, w) := StartCommunication o thread (wrapper s) in
          Some (Some r, s <| wrapper := w |>)
      end
  | StopBegins t after => if negb (outside t s) then None else Some (stop_begins t after s)
  | Joins t =>
      match clients s !! t with
      | Some (Joining (Some k) after) =>
          match workers s !! k with
          | None => Some (None, at_client t (Ending after) s)
          | Some _ => None
          end
      | Some (Joining None after) => Some (None, at_client t (Ending after) s)
      | _ => None
      end
  | StopEnds t =>
      match clients s !! t with
      | Some (Ending after) =>
          let s := s <| wrapper ::= StopCommunication_end |> in
          match after with
          | ReturnStopped => Some (Some (Success "Unitree SDK2 communication worker stopped"), leaves t s)
          | _ => Some (None, at_client t (Stopped after) s)
          end
      | _ => None
      end
  | Finishes t now =>
      match clients s !! t with
      | Some (Stopped ThenDisconnect) =>
          let w := Disconnect now (wrapper s) in
          Some (publish t (Some (Success "Unitree SDK2 wrapper disconnected")) w (device s) s)
      | Some (Stopped ThenShutdown) =>
          let w := Shutdown now (wrapper s) in
          Some (publish t (Some (Success "Unitree SDK2 wrapper shut down")) w (device s) s)
      | _ => None
      end
  | SetsCallback callback => Some (None, s <| wrapper ::= SetStateUpdateCallback callback |>)
  | _ => None
  end.

(** [RunCommunicationLoop]; a wait ends when it is notified or times out, and
    goes on when it was notified but no stop is requested. *)
Definition worker_exec (l : WrapperLabel) (s : WrapperState) : option WrapperState :=
  match l with
  | WorkerLoops k =>
      match workers s !! k with
      | Some AtLoop =>
          if stop_communication_requested_ (wrapper s) then Some (s <| workers ::= delete k |>)
          else Some (at_worker k Waiting s)
      | _ => None
      end
  | WorkerWakes k timed_out =>
      match workers s !! k with
      | Some Waiting =>
          if stop_communication_requested_ (wrapper s) then Some (s <| workers ::= delete k |>)
          else if timed_out : bool then Some (at_worker k Synchronizing s) else Some s
      | _ => None
      end
  | WorkerSynchronizes k now now' =>
      match workers s !! k with
      | Some Synchronizing =>
          let '(r, w, d) := SynchronizeState now now' (wrapper s) (device s) in
          let s := s <| wrapper := w |> <| device := d |> in
          Some (at_worker k (match r with
                             | None => AtLoop
                             | Some _ => WorkerPublishing (state_update_callback_ w) (latest_state_ w)
                             end) s)
      | _ => None
      end
  | WorkerPublishes k =>
      match workers s !! k with
      | Some (WorkerPublishing callback state) =>
          Some (at_worker k AtLoop (PublishStateUpdate callback state s))
      | _ => None
      end
  | _ => None
  end.

Definition wrapper_exec (l : WrapperLabel) (s : WrapperState) : option Step :=
  match client_exec l s with
  | Some x => Some x
  | None => s ← worker_exec l s; Some (None, s)
  end.

Fixpoint wrapper_run (ls : list WrapperLabel) (s : WrapperState) : option WrapperState :=
  match ls with
  | [] => Some s
  | l :: ls => '(_, s) ← wrapper_exec l s; wrapper_run ls s
  end.
End Wrapper.
Arguments Wrapper : clear implicits.
Arguments WrapperPc : clear implicits.
Arguments WorkerPc : clear implicits.
Arguments WrapperState {_} Callback.
Arguments WrapperLabel : clear implicits.
