(* ===== verification/SdkProofs.v ===== *)
(** * Calls of the Unitree SDK

    The calls that the operations of SdkWrapper make: which of them move the
    robot, and when the robot has been confirmed to be there. *)

From Stdlib Require Import SpecFloat.
From S2P Require Import Prelude Command RobotState Status UnitreeTypes SdkClients SdkWrapper.

Open Scope Z_scope.

(** The calls that make the robot move. *)
Definition moves (c : SdkCall) : bool :=
  match c with
  | CallStandUp | CallBalanceStand | CallSit | CallMove _ _ _ | CallSetVelocity _ _ _ => true
  | _ => false
  end.

(** The velocities of a call are numbers. *)
Definition finite_call (c : SdkCall) : bool :=
  match c with
  | CallMove x y z | CallSetVelocity x y z => isfinite x && isfinite y && isfinite z
  | _ => true
  end.

(** The robot may move once the last query of its state succeeded, unless it
    was damped since. *)
Definition arm (b : bool) (ev : SdkEvent) : bool :=
  match ev with
  | Called CallGetFsmId ok => ok
  | Called CallDamp _ => false
  | _ => b
  end.

Definition armed (evs : list SdkEvent) : bool := foldl arm false evs.

Definition moves_armed (evs : list SdkEvent) : Prop :=
  ∀ before c ok after, evs = before ++ Called c ok :: after → moves c = true →
    armed before = true ∧ finite_call c = true.

Lemma armed_snoc evs ev : armed (evs ++ [ev]) = arm (armed evs) ev.
Proof. unfold armed. by rewrite foldl_app. Qed.

Lemma moves_armed_snoc evs c ok :
  moves_armed evs → (moves c = true → armed evs = true ∧ finite_call c = true) →
  moves_armed (evs ++ [Called c ok]).
Proof.
  intros H Hc before c' ok' after E Hm. destruct after as [|ev after] using rev_ind.
  - apply app_inj_tail in E as [-> [= -> ->]]. by apply Hc.
  - rewrite app_comm_cons, app_assoc in E. apply app_inj_tail in E as [-> _]. by eapply H.
Qed.

(* ------------------------------------------------------------------ *)
(** ** Clients *)

Section Clients.
Context `{Sdk}.
Implicit Types (d : Device) (c : Client).

(** The locomotion client is connected only while the robot may move. *)
Definition device_ok c d : Prop :=
  moves_armed (calls d) ∧ (client_connected_ c = true → armed (calls d) = true).

Lemma call_calls sdk d :
  calls (call sdk d).2 = calls d ++ [Called sdk (returned_zero (call sdk d).1.1)].
Proof. unfold call. by destruct (sdk_call sdk (world d)) as [[a out] w]. Qed.

Lemma sdk_result_succeeded a command code :
  code ≠ SdkSuccess → Succeeded (sdk_result a command code) = returned_zero a.
Proof.
  intros Hc. unfold Succeeded, sdk_result, FromSdkReturn.
  destruct a as [n|what|]; simpl; [destruct (n =? 0); simpl; [done|]|..]; by rewrite bool_decide_eq_false_2.
Qed.

(** A call that does not ask for the state or damp the robot. *)
Lemma call_ok sdk c d :
  sdk ≠ CallGetFsmId → sdk ≠ CallDamp →
  (moves sdk = true → client_connected_ c = true ∧ finite_call sdk = true) →
  device_ok c d → device_ok c (call sdk d).2.
Proof.
  intros H1 H2 H3 [Hm Hc]. split; rewrite call_calls.
  - apply moves_armed_snoc; [done|]. intros [? ?]%H3. auto.
  - rewrite armed_snoc. by destruct sdk.
Qed.

Lemma call_all_ok cs c d :
  Forall (λ sdk, moves sdk = false ∧ sdk ≠ CallGetFsmId ∧ sdk ≠ CallDamp) cs →
  device_ok c d → device_ok c (call_all cs d).2.
Proof.
  intros Hcs. revert d. induction Hcs as [|sdk cs (Hm & H1 & H2) _ IH]; intros d Hd; simpl; [done|].
  pose proof (call_ok sdk c d H1 H2) as Hk. destruct (call sdk d) as [[a out] d']. simpl in Hk.
  destruct a; [apply IH|..]; apply Hk; congruence.
Qed.

Lemma disconnected_ok c c' d : client_connected_ c' = false → device_ok c d → device_ok c' d.
Proof. intros E [Hm _]. split; [done|]. by rewrite E. Qed.

Lemma Client_Initialize_ok k configuration c d :
  device_ok c d → device_ok (Client_Initialize k configuration c d).1.2 (Client_Initialize k configuration c d).2.
Proof.
  intros Hd. unfold Client_Initialize. destruct (client_initialized_ c); [done|].
  destruct (negb (Succeeded _)); [done|].
  assert (Hc : device_ok c (call_all (client_calls k configuration) d).2)
    by (apply call_all_ok; [repeat constructor; done|done]).
  destruct (call_all _ d) as [[a|] d']; simpl; by eapply disconnected_ok.
Qed.

Lemma GetFsmId_ok c d : device_ok c d → device_ok (GetFsmId c d).1.2 (GetFsmId c d).2.
Proof.
  intros [Hm Hc]. unfold GetFsmId, confirm. destruct (negb (Succeeded _)); [done|].
  pose proof (call_calls CallGetFsmId d) as Hk. destruct (call CallGetFsmId d) as [[a out] d']. simpl in *.
  split; rewrite Hk; [by apply moves_armed_snoc|]. rewrite armed_snoc, sdk_result_succeeded by done. done.
Qed.

(** What a query answers, and the call it makes. *)
Lemma GetFsmId_exact c d :
  client_initialized_ c = true → client_ c = true →
  let '(r, _, c', d') := GetFsmId c d in
  calls d' = calls d ++ [Called CallGetFsmId (Succeeded r)] ∧
  c' = c <| client_connected_ := Succeeded r |> ∧ sdk_code r ≠ SdkTimeout.
Proof.
  intros Hi Hc. unfold GetFsmId, confirm, RequireInitialized. rewrite Hi, Hc. simpl.
  pose proof (call_calls CallGetFsmId d) as Hk. destruct (call CallGetFsmId d) as [[a out] d']. simpl in *.
  rewrite sdk_result_succeeded by done. split_and!; [done|done|].
  unfold sdk_result, FromSdkReturn. destruct a; [destruct (_ =? 0)|..]; done.
Qed.

Lemma InvokeSdkCommand_calls command code sdk d :
  ∃ ok, calls (InvokeSdkCommand command code sdk d).2 = calls d ++ [Called sdk ok].
Proof.
  unfold InvokeSdkCommand. pose proof (call_calls sdk d) as Hk.
  destruct (call sdk d) as [[a out] d']. simpl in *. by eexists.
Qed.

Lemma InvokeSdkCommand_ok command code sdk c d :
  sdk ≠ CallGetFsmId → sdk ≠ CallDamp →
  (moves sdk = true → client_connected_ c = true ∧ finite_call sdk = true) →
  device_ok c d → device_ok c (InvokeSdkCommand command code sdk d).2.
Proof.
  intros H1 H2 H3 Hd. unfold InvokeSdkCommand. pose proof (call_ok sdk c d H1 H2 H3 Hd) as Hk.
  by destruct (call sdk d) as [[a out] d'].
Qed.

Lemma connected_command_ok k name label sdk c d :
  sdk ≠ CallGetFsmId → sdk ≠ CallDamp → finite_call sdk = true →
  device_ok c d → device_ok c (connected_command k name label sdk c d).2.
Proof.
  intros H1 H2 H3 Hd. unfold connected_command, RequireConnected.
  destruct (client_initialized_ c), (client_ c), (client_connected_ c) eqn:E; simpl; try done.
  by apply InvokeSdkCommand_ok.
Qed.

Lemma Walk_ok v c d : device_ok c d → device_ok c (Walk v c d).2.
Proof.
  intros Hd. unfold Walk, IsFinite. destruct (isfinite _ && isfinite _ && isfinite _) eqn:E; simpl; [|done].
  by apply connected_command_ok.
Qed.

Lemma Loco_Stop_ok c d : device_ok c d → device_ok c (Loco_Stop c d).2.
Proof. intros Hd. unfold Loco_Stop. destruct (negb _); [done|]. by apply InvokeSdkCommand_ok. Qed.

Lemma Loco_EmergencyStop_ok c d :
  device_ok c d → device_ok (Loco_EmergencyStop c d).1.2 (Loco_EmergencyStop c d).2.
Proof.
  intros Hd. unfold Loco_EmergencyStop. destruct (negb _); [done|].
  assert (H1 : device_ok c (InvokeSdkCommand "EmergencyStop.StopMove" SdkRobotFault CallStopMove d).2)
    by (by apply InvokeSdkCommand_ok).
  destruct (InvokeSdkCommand "EmergencyStop.StopMove" SdkRobotFault CallStopMove d) as [r d1]. simpl in H1.
  pose proof (InvokeSdkCommand_calls "EmergencyStop.Damp" SdkRobotFault CallDamp d1) as [ok Hk].
  destruct (InvokeSdkCommand "EmergencyStop.Damp" SdkRobotFault CallDamp d1) as [r2 d2]. simpl in *.
  split; simpl; [|done]. rewrite Hk. by apply moves_armed_snoc; [apply H1|].
Qed.

(** Whatever the calls answer, the robot is told to stop and damped. *)
Lemma Loco_EmergencyStop_calls c d :
  client_initialized_ c = true → client_ c = true →
  ∃ ok ok', let '(r, c', d') := Loco_EmergencyStop c d in
    calls d' = calls d ++ [Called CallStopMove ok; Called CallDamp ok'] ∧
    Succeeded r = ok && ok' ∧ c' = c <| client_connected_ := false |>.
Proof.
  intros Hi Hc. unfold Loco_EmergencyStop, RequireInitialized. rewrite Hi, Hc. simpl.
  unfold InvokeSdkCommand.
  pose proof (call_calls CallStopMove d) as H1. destruct (call CallStopMove d) as [[a1 o1] d1]. simpl in *.
  pose proof (call_calls CallDamp d1) as H2. destruct (call CallDamp d1) as [[a2 o2] d2]. simpl in *.
  exists (returned_zero a1), (returned_zero a2). rewrite H2, H1, <-app_assoc. split_and!; [done| |done].
  rewrite sdk_result_succeeded by done. destruct (returned_zero a1) eqn:E; simpl; rewrite sdk_result_succeeded; done.
Qed.
End Clients.

(* ------------------------------------------------------------------ *)
(** ** A robot *)

(** Its state is the answers it will give to queries; it does all else. *)
Definition sample_sdk : Sdk := {|
  World := list bool;
  sdk_call c w :=
    match c, w with
    | CallGetFsmId, ok :: w => (Value (if ok : bool then 0 else 1), 4, w)
    | _, _ => (Value 0, 0, w)
    end;
  interface_exists _ _ := true;
  netlink_socket _ := true;
|}.

(** A robot that does not answer queries with an error. *)
Definition willing : @World sample_sdk := @nil bool.

(* ------------------------------------------------------------------ *)
(** ** SdkWrapper: what holds in every state

    The invariant of the wrapper and of the calls it has made, and the workers
    and the threads that stop them. *)

Section Wrapper.
Context `{Sdk} {Callback : Type}.
#[local] Notation Wrapper := (Wrapper Callback).
#[local] Notation WrapperState := (WrapperState Callback).
#[local] Notation WrapperLabel := (WrapperLabel Callback).
Implicit Types (w : Wrapper) (d : Device) (s : WrapperState).

Record wrapper_ok w d : Prop := {
  ok_device : device_ok (loco_adapter_ w) d;
  ok_loco : initialized_ w = true → client_initialized_ (loco_adapter_ w) = true;
  ok_client : client_initialized_ (loco_adapter_ w) = true → client_ (loco_adapter_ w) = true;
  ok_connected : connected_ w = true → initialized_ w = true;
}.

(** Operations that leave the client. *)
Lemma wrapper_ok_client w w' d :
  loco_adapter_ w' = loco_adapter_ w → initialized_ w' = initialized_ w → connected_ w' = connected_ w →
  wrapper_ok w d → wrapper_ok w' d.
Proof. intros E1 E2 E3 [H1 H2 H3 H4]. split; by rewrite ?E1, ?E2, ?E3. Qed.

Lemma Client_Initialize_client k configuration (c : Client) d :
  let '(r, c', _) := Client_Initialize k configuration c d in
  (client_initialized_ c = true → client_ c = true) →
  (client_initialized_ c' = true → client_ c' = true) ∧
  (Succeeded r = true → client_initialized_ c' = true).
Proof.
  unfold Client_Initialize. destruct (client_initialized_ c) eqn:E; [simpl; rewrite ?E; auto|].
  generalize (client_calls k configuration). intros cs.
  destruct (Succeeded (ValidateSdkConfiguration configuration d)) eqn:Ev; simpl; [|rewrite ?E, ?Ev; auto].
  destruct (call_all cs d) as [[a|] d']; simpl; auto.
Qed.

Lemma Initialize_ok configuration now w d :
  wrapper_ok w d → wrapper_ok (Initialize configuration now w d).1.2 (Initialize configuration now w d).2.
Proof.
  intros Hw. unfold Initialize, Loco_Initialize. destruct (initialized_ w) eqn:Ei; [done|].
  pose proof (Client_Initialize_ok LocoClient configuration (loco_adapter_ w) d (ok_device _ _ Hw)) as Hd.
  pose proof (Client_Initialize_client LocoClient configuration (loco_adapter_ w) d) as Hc.
  destruct (Client_Initialize _ _ _ _) as [[r c] d']. destruct (Hc (ok_client _ _ Hw)) as [Hc1 Hc2].
  destruct (Succeeded r); split; simpl; auto.
  - congruence.
  - intros Hx%(ok_connected _ _ Hw). congruence.
Qed.

(** A query leaves the client as it is but for the connection. *)
Lemma GetFsmId_client (c : Client) d :
  let c' := (GetFsmId c d).1.2 in client_initialized_ c' = client_initialized_ c ∧ client_ c' = client_ c.
Proof.
  unfold GetFsmId, confirm. destruct (negb (Succeeded _)); [done|].
  by destruct (call CallGetFsmId d) as [[a out] d'].
Qed.

(** A query, after which the wrapper may be connected. *)
Lemma wrapper_ok_query w w' d :
  let '(_, _, c, d') := GetFsmId (loco_adapter_ w) d in
  loco_adapter_ w' = c → initialized_ w' = initialized_ w → (connected_ w' = true → initialized_ w = true) →
  wrapper_ok w d → wrapper_ok w' d'.
Proof.
  pose proof (GetFsmId_ok (loco_adapter_ w) d) as Hd. pose proof (GetFsmId_client (loco_adapter_ w) d) as Hc.
  destruct (GetFsmId (loco_adapter_ w) d) as [[[r fsm] c] d']. simpl in *. destruct Hc as [Hc1 Hc2].
  intros E1 E2 E3 [H1 H2 H3 H4]. split; rewrite ?E1, ?E2, ?Hc1, ?Hc2; auto.
Qed.

Lemma DiscoverRobot_ok w d : wrapper_ok w d → wrapper_ok (DiscoverRobot w d).1.2 (DiscoverRobot w d).2.
Proof.
  intros Hw. unfold DiscoverRobot. destruct (initialized_ w) eqn:Ei; [|done]. simpl.
  pose proof (λ w', wrapper_ok_query w w' d) as Hq. destruct (GetFsmId _ d) as [[[r fsm] c] d']. simpl.
  apply Hq; by destruct (Succeeded r).
Qed.

Lemma Connect_ok now now' w d : wrapper_ok w d → wrapper_ok (Connect now now' w d).1.2 (Connect now now' w d).2.
Proof.
  intros Hw. unfold Connect. destruct (initialized_ w) eqn:Ei; [|done]. simpl.
  pose proof (λ w', wrapper_ok_query w w' d) as Hq. destruct (GetFsmId _ d) as [[[r fsm] c] d']. simpl.
  apply Hq; by destruct (Succeeded r).
Qed.

Lemma reconnect_ok timed_out r now now' w d :
  initialized_ w = true → wrapper_ok w d →
  wrapper_ok (reconnect timed_out r now now' w d).1.2 (reconnect timed_out r now now' w d).2.
Proof.
  intros Hi Hw. unfold reconnect. destruct (negb _); [done|]. cbv zeta.
  pose proof (λ w', wrapper_ok_query w w' d) as Hq. simpl (loco_adapter_ _).
  destruct (GetFsmId _ d) as [[[r' fsm] c] d'].
  destruct (Succeeded r'); [by apply Hq|]. destruct timed_out; by apply Hq.
Qed.

Lemma SynchronizeState_ok now now' w d :
  wrapper_ok w d → wrapper_ok (SynchronizeState now now' w d).1.2 (SynchronizeState now now' w d).2.
Proof.
  intros Hw. unfold SynchronizeState. destruct (initialized_ w) eqn:Ei; [|done]. cbv zeta. simpl (negb true).
  pose proof (λ w', wrapper_ok_query w w' d) as Hq. simpl (loco_adapter_ _).
  destruct (GetFsmId _ d) as [[[r fsm] c] d']. destruct (Succeeded r); [by apply Hq|].
  match goal with |- context [if ?b then (?r1, ?w1) else (?r2, ?w2)] =>
    assert (H1 : wrapper_ok (if b then w1 else w2) d') by (apply Hq; by destruct b);
    assert (Hi : initialized_ (if b then w1 else w2) = true) by (by destruct b);
    assert (E : (if b then (r1, w1) else (r2, w2)) = (if b then r1 else r2, if b then w1 else w2)) by (by destruct b);
    rewrite E; clear E; generalize dependent (if b then w1 else w2); generalize (if b then r1 else r2)
  end.
  intros r1 w1 H1 Hi. pose proof (reconnect_ok (heartbeat_timed_out now (with_loco c (w <| heartbeat_count_ ::= u64_incr |>)))
    r1 now now' w1 d' Hi H1) as Hr.
  destruct (reconnect _ r1 now now' w1 d') as [[r2 w2] d2]. by apply (wrapper_ok_client w2).
Qed.

(** Commands leave the client. *)
Lemma motion_command_ok command mode now w d :
  (device_ok (loco_adapter_ w) d → device_ok (loco_adapter_ w) (command (loco_adapter_ w) d).2) →
  wrapper_ok w d → wrapper_ok (motion_command command mode now w d).1.2 (motion_command command mode now w d).2.
Proof.
  intros Hc [H1 H2 H3 H4]. unfold motion_command. destruct (negb _ || negb _); [by split|].
  specialize (Hc H1). destruct (command _ d) as [r d']. by split.
Qed.

Lemma execute_ok c now w d : wrapper_ok w d → wrapper_ok (execute c now w d).1.2 (execute c now w d).2.
Proof.
  intros Hw. destruct c; simpl.
  - pose proof (DiscoverRobot_ok w d Hw) as Hd. by destruct (DiscoverRobot w d) as [[r w'] d'].
  - apply motion_command_ok; [apply Walk_ok|done].
  - apply motion_command_ok; [by apply connected_command_ok|done].
  - apply motion_command_ok; [by apply connected_command_ok|done].
  - apply motion_command_ok; [by apply connected_command_ok|done].
  - unfold Stop. destruct (negb _); [done|]. pose proof (Loco_Stop_ok (loco_adapter_ w) d (ok_device _ _ Hw)) as Hd.
    destruct Hw. destruct (Loco_Stop _ d) as [r d']. by split.
  - unfold EmergencyStop. destruct (negb (initialized_ w)) eqn:Ei; [done|]. destruct Hw as [H1 H2 H3 H4].
    pose proof (Loco_EmergencyStop_ok (loco_adapter_ w) d H1) as Hd.
    rewrite negb_false_iff in Ei. specialize (H2 Ei).
    destruct (Loco_EmergencyStop_calls (loco_adapter_ w) d H2 (H3 H2)) as (ok & ok' & Hc).
    destruct (Loco_EmergencyStop _ d) as [[r c] d']. destruct Hc as (_ & _ & ->). by split; simpl; auto.
Qed.

(* ------------------------------------------------------------------ *)
(** ** Transitions *)

Definition state_ok s : Prop := wrapper_ok (wrapper s) (device s).

Lemma initial_ok (w0 : World) : state_ok (initial w0).
Proof. split; try done. split; [|done]. intros before c ok after E. by destruct before. Qed.

Lemma publish_ok t r w d s : wrapper_ok w d → state_ok (publish t r w d s).2.
Proof. intros Hw. by destruct r. Qed.

Lemma PublishStateUpdate_ok callback state s : state_ok s → state_ok (PublishStateUpdate callback state s).
Proof. by destruct callback. Qed.

Lemma client_step_state (x : option SdkResult * WrapperState) a s' : Some x = Some (a, s') → x.2 = s'.
Proof. by intros [= ->]. Qed.

Lemma client_exec_ok l s a s' : client_exec l s = Some (a, s') → state_ok s → state_ok s'.
Proof.
  intros E Hs. destruct l; try done; simpl in E.
  - pose proof (execute_ok c now _ _ Hs) as Hx. destruct (execute c now _ _) as [[r w] d]. by simplify_eq.
  - destruct (negb _); [done|]. pose proof (Initialize_ok c now _ _ Hs) as Hx.
    destruct (Initialize c now _ _) as [[[r|[]] w] d]; by simplify_eq.
  - destruct (clients s !! t) as [[]|]; try done. simplify_eq. by eapply wrapper_ok_client; [..|exact Hs].
  - destruct (negb _); [done|]. simplify_eq. by eapply wrapper_ok_client; [..|exact Hs].
  - destruct (negb _); [done|]. pose proof (Connect_ok now now' _ _ Hs) as Hx.
    destruct (Connect now now' _ _) as [[r w] d]. apply client_step_state in E. subst s'. by apply publish_ok.
  - destruct (negb _); [done|]. pose proof (SynchronizeState_ok now now' _ _ Hs) as Hx.
    destruct (SynchronizeState now now' _ _) as [[r w] d]. apply client_step_state in E. subst s'.
    by apply publish_ok.
  - destruct (clients s !! t) as [[]|]; try done. simplify_eq. by apply (PublishStateUpdate_ok callback state) in Hs.
  - assert (Hw : ∀ th, wrapper_ok (StartCommunication o th (wrapper s)).2 (device s)).
    { intros th. apply (wrapper_ok_client (wrapper s)); [..|done]; unfold StartCommunication;
        destruct (negb _); [done| |done| |done|]; destruct (communication_running_ _); [done| |done| |done|]; by destruct th. }
    destruct thread as [k|what|].
    + case_bool_decide; [done|]. specialize (Hw (Value k)). destruct (StartCommunication _ _ _) as [r w].
      simplify_eq. by destruct (negb _ || _).
    + specialize (Hw (Exception what)). destruct (StartCommunication _ _ _) as [r w]. by simplify_eq.
    + specialize (Hw UnknownException). destruct (StartCommunication _ _ _) as [r w]. by simplify_eq.
  - destruct (negb _); [done|]. apply client_step_state in E. subst s'. unfold stop_begins, StopCommunication_begin.
    destruct (negb _); simpl; [by destruct after|]. by eapply wrapper_ok_client; [..|exact Hs].
  - destruct (clients s !! t) as [[| |[k|] after| |]|]; try done; [destruct (workers s !! k); [done|]|]; by simplify_eq.
  - destruct (clients s !! t) as [[| | |after|]|]; try done.
    destruct after; simplify_eq; (by eapply wrapper_ok_client; [..|exact Hs]).
  - destruct (clients s !! t) as [[| | | |[]]|]; try done; apply client_step_state in E; subst s';
      destruct Hs as [H1 H2 H3 H4]; split; simpl in *; try done; by eapply disconnected_ok.
  - simplify_eq. by eapply wrapper_ok_client; [..|exact Hs].
Qed.

Lemma worker_exec_ok l s s' : worker_exec l s = Some s' → state_ok s → state_ok s'.
Proof.
  intros E Hs. destruct l; try done; simpl in E.
  - destruct (workers s !! k) as [[]|]; try done. destruct (stop_communication_requested_ _); by simplify_eq.
  - destruct (workers s !! k) as [[]|]; try done.
    destruct (stop_communication_requested_ _), timed_out; by simplify_eq.
  - destruct (workers s !! k) as [[]|]; try done. pose proof (SynchronizeState_ok now now' _ _ Hs) as Hx.
    destruct (SynchronizeState now now' _ _) as [[r w] d]. by simplify_eq.
  - destruct (workers s !! k) as [[]|]; try done. simplify_eq. by apply (PublishStateUpdate_ok callback state) in Hs.
Qed.

Lemma wrapper_exec_ok l s a s' : wrapper_exec l s = Some (a, s') → state_ok s → state_ok s'.
Proof.
  unfold wrapper_exec. intros E. destruct (client_exec l s) as [x|] eqn:Ec.
  - simplify_eq. by eapply client_exec_ok.
  - destruct (worker_exec l s) as [s1|] eqn:Ew; simpl in E; [|done]. simplify_eq. by eapply worker_exec_ok.
Qed.

(** An invariant of runs whose labels are allowed where they come. *)
Lemma wrapper_run_ok ls s s' : wrapper_run ls s = Some s' → state_ok s → state_ok s'.
Proof.
  revert s. induction ls as [|l ls IH]; intros s E Hs; simpl in E; [by simplify_eq|].
  destruct (wrapper_exec l s) as [[a s1]|] eqn:E1; simpl in E; [|done]. eapply IH; [done|by eapply wrapper_exec_ok].
Qed.
End Wrapper.
