(* ===== verification/SdkWorkers.v ===== *)
(** * SdkWrapper: the communication worker

    As long as the threads that stop the worker do so one after the other there
    is at most one worker, and it ends when it is asked to.  Two threads that
    stop it at once can leave it running for ever. *)

From Stdlib Require Import SpecFloat.
From S2P Require Import Prelude Command Status RobotState UnitreeTypes SdkClients SdkWrapper SdkProofs.

Open Scope Z_scope.

Section Wrapper.
Context `{Sdk} {Callback : Type}.
#[local] Notation Wrapper := (Wrapper Callback).
#[local] Notation WrapperPc := (WrapperPc Callback).
#[local] Notation WrapperState := (WrapperState Callback).
#[local] Notation WrapperLabel := (WrapperLabel Callback).
Implicit Types (w : Wrapper) (d : Device) (s : WrapperState) (l : WrapperLabel) (ls : list WrapperLabel).

(* ------------------------------------------------------------------ *)
(** ** What concerns the worker *)

Definition stopping (pc : WrapperPc) : bool := match pc with Joining _ _ | Ending _ => true | _ => false end.

(** Where the threads are that stop the worker. *)
Definition stop_of (pc : option WrapperPc) : option WrapperPc :=
  match pc with Some pc => if stopping pc then Some pc else None | None => None end.

Definition stop_view s (t : nat) : option WrapperPc := stop_of (clients s !! t).

Definition comm w : bool * bool * option nat :=
  (communication_running_ w, stop_communication_requested_ w, communication_thread_ w).

(** What a transition does to the worker and to those who stop it. *)
Inductive worker_step s s' : WrapperLabel → Prop :=
  | step_same l :
      (∀ t, stop_view s' t = stop_view s t) → comm (wrapper s') = comm (wrapper s) →
      dom (workers s') = dom (workers s) → worker_step s s' l
  | step_starts o k r :
      comm (wrapper s) = (false, r, communication_thread_ (wrapper s)) → (∀ t, stop_view s' t = stop_view s t) →
      comm (wrapper s') = (true, false, Some k) → dom (workers s') = {[k]} ∪ dom (workers s) →
      worker_step s s' (Starts o (Value k))
  | step_fails o th r :
      comm (wrapper s) = (false, r, communication_thread_ (wrapper s)) → (∀ t, stop_view s' t = stop_view s t) →
      comm (wrapper s') = (false, false, communication_thread_ (wrapper s)) →
      dom (workers s') = dom (workers s) → worker_step s s' (Starts o th)
  | step_stops t after :
      communication_running_ (wrapper s) = true →
      clients s' = <[t := Joining (communication_thread_ (wrapper s)) after]> (clients s) → clients s !! t = None →
      comm (wrapper s') = (true, true, None) → dom (workers s') = dom (workers s) →
      worker_step s s' (StopBegins t after)
  | step_joins t k after :
      clients s !! t = Some (Joining k after) →
      match k with Some k => k ∉ dom (workers s) | None => True end →
      clients s' = <[t := Ending after]> (clients s) → wrapper s' = wrapper s → workers s' = workers s →
      worker_step s s' (Joins t)
  | step_ends t after :
      clients s !! t = Some (Ending after) →
      (∀ t', stop_view s' t' = if bool_decide (t' = t) then None else stop_view s t') →
      comm (wrapper s') = (false, false, communication_thread_ (wrapper s)) → workers s' = workers s →
      worker_step s s' (StopEnds t)
  | step_worker_ends l k :
      stop_communication_requested_ (wrapper s) = true → is_Some (workers s !! k) →
      clients s' = clients s → wrapper s' = wrapper s → workers s' = delete k (workers s) → worker_step s s' l.

(** A thread moves that stops nothing. *)
Lemma stop_view_insert s s' (t : nat) pc :
  stop_view s t = None → clients s' = <[t := pc]> (clients s) → stopping pc = false →
  ∀ t', stop_view s' t' = stop_view s t'.
Proof.
  intros Ht Hc Hp t'. unfold stop_view in *. rewrite Hc. destruct (decide (t = t')) as [<-|Hn].
  - rewrite lookup_insert_eq, Ht. simpl. by rewrite Hp.
  - by rewrite lookup_insert_ne.
Qed.

Lemma stop_view_delete s s' (t : nat) :
  stop_view s t = None → clients s' = delete t (clients s) → ∀ t', stop_view s' t' = stop_view s t'.
Proof.
  intros Ht Hc t'. unfold stop_view in *. rewrite Hc. destruct (decide (t = t')) as [<-|Hn].
  - by rewrite lookup_delete_eq, Ht.
  - by rewrite lookup_delete_ne.
Qed.

Lemma outside_view s t : negb (outside t s) = false → clients s !! t = None ∧ stop_view s t = None.
Proof.
  unfold outside, stop_view. rewrite negb_false_iff, bool_decide_eq_true. intros ->. by split.
Qed.

Lemma view_at s (t : nat) pc : clients s !! t = Some pc → stop_view s t = if stopping pc then Some pc else None.
Proof. unfold stop_view. by intros ->. Qed.

Lemma dom_at_worker s (k : nat) pc : is_Some (workers s !! k) → dom (workers (at_worker k pc s)) = dom (workers s).
Proof. intros Hk. simpl. rewrite dom_insert_L. apply elem_of_dom in Hk. set_solver. Qed.

(* ------------------------------------------------------------------ *)
(** ** Operations leave the worker *)

Lemma GetFsmId_comm w c : comm (with_loco c w) = comm w.
Proof. done. Qed.

Lemma Initialize_comm c now w d : comm (Initialize c now w d).1.2 = comm w.
Proof.
  unfold Initialize. destruct (initialized_ w); [done|]. destruct (Loco_Initialize c _ d) as [[r loco] d'].
  by destruct (Succeeded r).
Qed.

Lemma Connect_comm now now' w d : comm (Connect now now' w d).1.2 = comm w.
Proof.
  unfold Connect. destruct (initialized_ w); [|done]. simpl. destruct (GetFsmId _ d) as [[[r fsm] loco] d'].
  by destruct (Succeeded r).
Qed.

Lemma reconnect_comm b r now now' w d : comm (reconnect b r now now' w d).1.2 = comm w.
Proof.
  unfold reconnect. destruct (reconnect_due now w); [|done]. simpl.
  destruct (GetFsmId _ d) as [[[r' fsm] loco] d']. by destruct (Succeeded r'), b.
Qed.

Lemma SynchronizeState_comm now now' w d : comm (SynchronizeState now now' w d).1.2 = comm w.
Proof.
  unfold SynchronizeState. destruct (initialized_ w); [|done]. simpl.
  destruct (GetFsmId _ d) as [[[r fsm] loco] d']. destruct (Succeeded r); [done|].
  destruct (heartbeat_timed_out _ _) eqn:E;
    match goal with |- context [reconnect ?b ?r ?n ?n' ?w1 ?d1] =>
      pose proof (reconnect_comm b r n n' w1 d1) as Hr; destruct (reconnect b r n n' w1 d1) as [[r2 w2] d2] end; done.
Qed.

Lemma motion_command_comm command mode now w d : comm (motion_command command mode now w d).1.2 = comm w.
Proof. unfold motion_command. destruct (_ || _); [done|]. by destruct (command _ d) as [r d']. Qed.

Lemma execute_comm c now w d : comm (execute c now w d).1.2 = comm w.
Proof.
  destruct c; simpl; try apply motion_command_comm.
  - unfold DiscoverRobot. destruct (initialized_ w); [|done]. simpl.
    destruct (GetFsmId _ d) as [[[r fsm] loco] d']. simpl. by destruct (Succeeded r).
  - unfold Stop. destruct (initialized_ w); [|done]. simpl. by destruct (Loco_Stop _ d) as [r d'].
  - unfold EmergencyStop. destruct (initialized_ w); [|done]. simpl.
    by destruct (Loco_EmergencyStop _ d) as [[r loco] d'].
Qed.

(** A query that publishes. *)
Lemma publish_step l t r w d s :
  negb (outside t s) = false → comm w = comm (wrapper s) → worker_step s (publish t r w d s).2 l.
Proof.
  intros [Ho Hv]%outside_view Hc. destruct r as [r|]; apply step_same; try done.
  by eapply stop_view_insert.
Qed.

Lemma start_step o th s a s' :
  client_exec (Starts o th) s = Some (a, s') → worker_step s s' (Starts o th).
Proof.
  simpl. intros E. destruct th as [k|what|].
  - case_bool_decide as Hk; [done|]. unfold StartCommunication in E.
    destruct (initialized_ (wrapper s)); simpl in E; [|injection E as _ <-; by apply step_same].
    destruct (communication_running_ (wrapper s)) eqn:Er; simpl in E; injection E as _ <-; [by apply step_same|].
    eapply step_starts; [unfold comm; by rewrite Er|done|done|]. simpl. by rewrite dom_insert_L.
  - unfold StartCommunication in E. destruct (initialized_ (wrapper s)); simpl in E; [|injection E as _ <-; by apply step_same].
    destruct (communication_running_ (wrapper s)) eqn:Er; simpl in E; injection E as _ <-; [by apply step_same|].
    eapply step_fails; [unfold comm; by rewrite Er|done|done|done].
  - unfold StartCommunication in E. destruct (initialized_ (wrapper s)); simpl in E; [|injection E as _ <-; by apply step_same].
    destruct (communication_running_ (wrapper s)) eqn:Er; simpl in E; injection E as _ <-; [by apply step_same|].
    eapply step_fails; [unfold comm; by rewrite Er|done|done|done].
Qed.

Lemma stop_step t after s : negb (outside t s) = false → worker_step s (stop_begins t after s).2 (StopBegins t after).
Proof.
  intros [Ho Hv]%outside_view. unfold stop_begins, StopCommunication_begin.
  destruct (communication_running_ (wrapper s)) eqn:Er; simpl.
  - by apply step_stops; rewrite ?Er.
  - destruct after; [by apply step_same|apply step_same; try done; by eapply stop_view_insert..].
Qed.

Lemma client_step l s a s' : client_exec l s = Some (a, s') → worker_step s s' l.
Proof.
  intros E. destruct l; try done; simpl in E.
  - pose proof (execute_comm c now (wrapper s) (device s)) as Hc.
    destruct (execute c now _ _) as [[r w] d]. injection E as _ <-. by apply step_same.
  - destruct (negb (outside t s)) eqn:Eo; [done|]. apply outside_view in Eo as [Ho Hv].
    pose proof (Initialize_comm c now (wrapper s) (device s)) as Hc.
    destruct (Initialize c now _ _) as [[[r|[]] w] d]; injection E as _ <-; apply step_same; try done.
    by eapply stop_view_insert.
  - destruct (clients s !! t) as [[]|] eqn:Et; try done. injection E as _ <-. apply step_same; try done.
    apply (stop_view_delete _ _ t); [by rewrite (view_at _ _ _ Et)|done].
  - destruct (negb (outside t s)) eqn:Eo; [done|]. apply outside_view in Eo as [Ho Hv]. injection E as _ <-.
    apply step_same; try done. by eapply stop_view_insert.
  - destruct (negb (outside t s)) eqn:Eo; [done|]. pose proof (Connect_comm now now' (wrapper s) (device s)) as Hc.
    destruct (Connect now now' _ _) as [[r w] d].
    pose proof (publish_step (Connects t now now') t r w d s Eo Hc) as Hp. destruct (publish t r w d s). by simplify_eq.
  - destruct (negb (outside t s)) eqn:Eo; [done|]. pose proof (SynchronizeState_comm now now' (wrapper s) (device s)) as Hc.
    destruct (SynchronizeState now now' _ _) as [[r w] d].
    pose proof (publish_step (Synchronizes t now now') t r w d s Eo Hc) as Hp. destruct (publish t r w d s). by simplify_eq.
  - destruct (clients s !! t) as [[| r callback state| | |]|] eqn:Et; try done. injection E as _ <-.
    apply step_same; [|by destruct callback..].
    apply (stop_view_delete _ _ t); [by rewrite (view_at _ _ _ Et)|by destruct callback].
  - by eapply start_step.
  - destruct (negb (outside t s)) eqn:Eo; [done|]. pose proof (stop_step t after s Eo) as Hp.
    destruct (stop_begins t after s). by simplify_eq.
  - destruct (clients s !! t) as [[| |[k|] after| |]|] eqn:Et; try done.
    + destruct (workers s !! k) eqn:Ek; [done|]. injection E as _ <-.
      eapply step_joins; [done|by apply not_elem_of_dom|done..].
    + injection E as _ <-. by eapply step_joins.
  - destruct (clients s !! t) as [[| | |after|]|] eqn:Et; try done.
    assert (Hv : ∀ x : option WrapperPc, stop_of x = None → ∀ s', clients s' = partial_alter (λ _, x) t (clients s) →
      ∀ t', stop_view s' t' = if bool_decide (t' = t) then None else stop_view s t').
    { intros x Hx s1 Hs1 t'. unfold stop_view. rewrite Hs1. case_bool_decide as Ht; [subst; by rewrite lookup_partial_alter_eq|].
      by rewrite lookup_partial_alter_ne by done. }
    destruct after; injection E as _ <-; (eapply step_ends; [done| |done|done]);
      [by apply (Hv None)|by apply (Hv (Some (Stopped ThenDisconnect)))|by apply (Hv (Some (Stopped ThenShutdown)))].
  - destruct (clients s !! t) as [[| | | |[]]|] eqn:Et; try done; injection E as _ <-; apply step_same; try done;
      (eapply stop_view_insert; [by rewrite (view_at _ _ _ Et)|done|done]).
  - injection E as _ <-. by apply step_same.
Qed.

Lemma worker_exec_step l s s' : worker_exec l s = Some s' → worker_step s s' l.
Proof.
  intros E. destruct l; try done; simpl in E; destruct (workers s !! k) as [[]|] eqn:Ek; try done.
  - destruct (stop_communication_requested_ (wrapper s)) eqn:Er; injection E as <-.
    + by eapply (step_worker_ends _ _ _ k).
    + apply step_same; try done. by apply dom_at_worker.
  - destruct (stop_communication_requested_ (wrapper s)) eqn:Er; [injection E as <-; by eapply (step_worker_ends _ _ _ k)|].
    destruct timed_out; injection E as <-; apply step_same; try done. by apply dom_at_worker.
  - pose proof (SynchronizeState_comm now now' (wrapper s) (device s)) as Hc.
    destruct (SynchronizeState now now' _ _) as [[r w] d]. injection E as <-. apply step_same; try done.
    by rewrite dom_at_worker.
  - injection E as <-. apply step_same; [by destruct callback..|]. rewrite dom_at_worker; by destruct callback.
Qed.

Lemma wrapper_exec_step l s a s' : wrapper_exec l s = Some (a, s') → worker_step s s' l.
Proof.
  unfold wrapper_exec. intros E. destruct (client_exec l s) as [x|] eqn:Ec.
  - simplify_eq. by eapply client_step.
  - destruct (worker_exec l s) as [s1|] eqn:Ew; simpl in E; [|done]. simplify_eq. by eapply worker_exec_step.
Qed.

(* ------------------------------------------------------------------ *)
(** ** One stop at a time *)

(** Nobody stops the worker; or only [t], which is at [pc]. *)
Definition nobody s : Prop := ∀ t, stop_view s t = None.
Definition only s (t : nat) (pc : WrapperPc) : Prop :=
  ∀ t', stop_view s t' = if bool_decide (t' = t) then Some pc else None.

(** A run in which a thread begins to stop the worker only while no other
    does. *)
Fixpoint serial ls s : Prop :=
  match ls with
  | [] => True
  | l :: ls =>
      match l with StopBegins _ _ => nobody s | _ => True end ∧
      match wrapper_exec l s with Some (_, s) => serial ls s | None => True end
  end.

(** Whether a run is one. *)
Fixpoint serially ls s : bool :=
  match ls with
  | [] => true
  | l :: ls =>
      match l with StopBegins _ _ => forallb (λ x, negb (stopping x.2)) (map_to_list (clients s)) | _ => true end &&
      match wrapper_exec l s with Some (_, s) => serially ls s | None => true end
  end.

Lemma nobody_stops s : forallb (λ x, negb (stopping x.2)) (map_to_list (clients s)) = true → nobody s.
Proof.
  rewrite forallb_forall. intros Hs t. unfold stop_view. destruct (clients s !! t) as [pc|] eqn:Et; [|done]. simpl.
  specialize (Hs (t, pc)). rewrite <-list_elem_of_In, elem_of_map_to_list in Hs. specialize (Hs Et). simpl in Hs.
  by destruct (stopping pc).
Qed.

Lemma serially_serial ls s : serially ls s = true → serial ls s.
Proof.
  revert s. induction ls as [|l ls IH]; intros s Hs; simpl in *; [done|]. apply andb_true_iff in Hs as [Hl Hs]. split.
  - destruct l; try done. by apply nobody_stops.
  - destruct (wrapper_exec l s) as [[a s']|]; [by apply IH|done].
Qed.

(** There is no worker, there is one, a thread waits for it, a thread has
    waited for it. *)
Inductive phase s : Prop :=
  | phase_idle r :
      nobody s → comm (wrapper s) = (false, r, None) → dom (workers s) = ∅ → phase s
  | phase_runs k :
      nobody s → comm (wrapper s) = (true, false, Some k) → dom (workers s) = {[k]} → phase s
  | phase_joins t k after :
      only s t (Joining (Some k) after) → comm (wrapper s) = (true, true, None) → dom (workers s) ⊆ {[k]} → phase s
  | phase_ends t after :
      only s t (Ending after) → comm (wrapper s) = (true, true, None) → dom (workers s) = ∅ → phase s.

Lemma only_at s t pc t' pc' : only s t pc → clients s !! t' = Some pc' → stopping pc' = true → t' = t ∧ pc' = pc.
Proof.
  intros Ho Ht Hs. specialize (Ho t'). rewrite (view_at _ _ _ Ht), Hs in Ho.
  case_bool_decide; simplify_eq. done.
Qed.

Lemma nobody_at s t' pc' : nobody s → clients s !! t' = Some pc' → stopping pc' = false.
Proof.
  intros Ho Ht. specialize (Ho t'). rewrite (view_at _ _ _ Ht) in Ho. by destruct (stopping pc').
Qed.

Lemma only_insert s s' (t : nat) pc :
  nobody s → clients s' = <[t := pc]> (clients s) → stopping pc = true → only s' t pc.
Proof.
  intros Hn Hc Hp t'. unfold stop_view. rewrite Hc. case_bool_decide as Ht.
  - subst. rewrite lookup_insert_eq. simpl. by rewrite Hp.
  - rewrite lookup_insert_ne by done. apply Hn.
Qed.

Lemma only_update s s' (t : nat) pc pc' :
  only s t pc → clients s' = <[t := pc']> (clients s) → stopping pc' = true → only s' t pc'.
Proof.
  intros Hn Hc Hp t'. unfold stop_view. rewrite Hc. case_bool_decide as Ht.
  - subst. rewrite lookup_insert_eq. simpl. by rewrite Hp.
  - rewrite lookup_insert_ne by done. specialize (Hn t'). rewrite bool_decide_eq_false_2 in Hn by done. exact Hn.
Qed.

(** The phases follow each other. *)
Lemma phase_step l s s' :
  worker_step s s' l → match l with StopBegins _ _ => nobody s | _ => True end → phase s → phase s'.
Proof.
  intros Hstep Hl Hp. destruct Hstep as [l Hv Hc Hd|o k r Hc Hv Hc' Hd|o th r Hc Hv Hc' Hd|t after Hr Hcl Ht Hc Hd
    |t k after Ht Hk Hcl Hw Hwk|t after Ht Hv Hc Hwk|l k Hr Hk Hcl Hw Hwk].
  - destruct Hp as [r H1 H2 H3|k H1 H2 H3|t k after H1 H2 H3|t after H1 H2 H3]; rewrite <-Hc in H2; rewrite <-Hd in H3.
    + eapply phase_idle; [intros t; by rewrite Hv|done..].
    + eapply phase_runs; [intros t; by rewrite Hv|done..].
    + eapply phase_joins; [intros t'; by rewrite Hv|done..].
    + eapply phase_ends; [intros t'; by rewrite Hv|done..].
  - destruct Hp as [r' H1 H2 H3|k' H1 H2 H3|t k' after H1 H2 H3|t after H1 H2 H3]; rewrite H2 in Hc; simplify_eq.
    eapply phase_runs; [intros t; by rewrite Hv|done|]. rewrite Hd, H3. set_solver.
  - destruct Hp as [r' H1 H2 H3|k' H1 H2 H3|t k' after H1 H2 H3|t after H1 H2 H3]; rewrite H2 in Hc; try discriminate Hc; injection Hc as _ Hh.
    eapply phase_idle; [intros t; by rewrite Hv|by rewrite Hc', <-Hh|by rewrite Hd].
  - destruct Hp as [r' H1 H2 H3|k' H1 H2 H3|t' k' after' H1 H2 H3|t' after' H1 H2 H3].
    + unfold comm in H2. congruence.
    + unfold comm in H2. injection H2 as _ _ Hh. rewrite Hh in Hcl.
      eapply phase_joins; [by eapply only_insert|done|]. by rewrite Hd, H3.
    + exfalso. specialize (Hl t'). rewrite H1, bool_decide_eq_true_2 in Hl by done. done.
    + exfalso. specialize (Hl t'). rewrite H1, bool_decide_eq_true_2 in Hl by done. done.
  - destruct Hp as [r' H1 H2 H3|k' H1 H2 H3|t' k' after' H1 H2 H3|t' after' H1 H2 H3].
    + by pose proof (nobody_at _ _ _ H1 Ht).
    + by pose proof (nobody_at _ _ _ H1 Ht).
    + destruct (only_at _ _ _ _ _ H1 Ht eq_refl) as [-> [= -> ->]].
      eapply phase_ends; [by eapply only_update|by rewrite Hw|]. rewrite Hwk. set_solver.
    + by destruct (only_at _ _ _ _ _ H1 Ht eq_refl) as [_ Hx].
  - destruct Hp as [r' H1 H2 H3|k' H1 H2 H3|t' k' after' H1 H2 H3|t' after' H1 H2 H3].
    + by pose proof (nobody_at _ _ _ H1 Ht).
    + by pose proof (nobody_at _ _ _ H1 Ht).
    + by destruct (only_at _ _ _ _ _ H1 Ht eq_refl) as [_ Hx].
    + destruct (only_at _ _ _ _ _ H1 Ht eq_refl) as [-> _]. unfold comm in H2. injection H2 as _ _ Hh.
      eapply phase_idle; [|by rewrite Hc, Hh|by rewrite Hwk].
      intros t2. rewrite Hv, H1. by case_bool_decide.
  - assert (Hv : ∀ t, stop_view s' t = stop_view s t) by (intros t; unfold stop_view; by rewrite Hcl).
    assert (Hd : dom (workers s') ⊆ dom (workers s)) by (rewrite Hwk, dom_delete_L; set_solver).
    apply elem_of_dom in Hk.
    destruct Hp as [r' H1 H2 H3|k' H1 H2 H3|t' k' after' H1 H2 H3|t' after' H1 H2 H3]; rewrite <-Hw in H2.
    + set_solver.
    + rewrite Hw in H2. unfold comm in H2. congruence.
    + eapply phase_joins; [intros t; by rewrite Hv|done|set_solver].
    + set_solver.
Qed.

Lemma serial_run_phase ls s s' : serial ls s → wrapper_run ls s = Some s' → phase s → phase s'.
Proof.
  revert s. induction ls as [|l ls IH]; intros s Hs E Hp; simpl in *; [by simplify_eq|].
  destruct (wrapper_exec l s) as [[a s1]|] eqn:E1; simpl in E; [|done]. destruct Hs as [Hl Hs].
  eapply IH; [done|done|]. eapply phase_step; [by eapply wrapper_exec_step|done|done].
Qed.

Lemma initial_phase (w0 : World) : phase (initial w0).
Proof. by eapply phase_idle. Qed.

(* ------------------------------------------------------------------ *)
(** ** The worker ends *)

(** The worker whose transition it is. *)
Definition worker_of l : option nat :=
  match l with
  | WorkerLoops k | WorkerWakes k _ | WorkerSynchronizes k _ _ | WorkerPublishes k => Some k
  | _ => None
  end.

(** The transitions before a worker that is asked to stop. *)
Definition worker_work (pc : option (WorkerPc Callback)) : nat :=
  match pc with
  | None => 0
  | Some AtLoop | Some Waiting => 1
  | Some Synchronizing => 3
  | Some (WorkerPublishing _ _) => 2
  end.

Definition transitions_of (k : nat) ls : nat := length (filter (λ l, worker_of l = Some k) ls).

Lemma worker_exec_work k l s s' :
  stop_communication_requested_ (wrapper s) = true → worker_exec l s = Some s' →
  ∃ k', worker_of l = Some k' ∧
    (k' = k → worker_work (workers s' !! k) < worker_work (workers s !! k))%nat ∧
    (k' ≠ k → workers s' !! k = workers s !! k).
Proof.
  intros Hr E. destruct l as [| | | | | | | | | | | | |k'|k' timed_out|k' now now'|k']; try done; simpl in E;
    destruct (workers s !! k') as [[]|] eqn:Ek; try done; exists k'; (split; [done|]).
  - rewrite Hr in E. injection E as <-. simpl.
    split; [intros <-; rewrite lookup_delete_eq, Ek; simpl; lia|intros; by rewrite lookup_delete_ne].
  - rewrite Hr in E. injection E as <-. simpl.
    split; [intros <-; rewrite lookup_delete_eq, Ek; simpl; lia|intros; by rewrite lookup_delete_ne].
  - destruct (SynchronizeState now now' _ _) as [[[r|] w] d]; injection E as <-; simpl;
      (split; [intros <-; rewrite lookup_insert_eq, Ek; simpl; lia|intros; by rewrite lookup_insert_ne]).
  - injection E as <-. destruct callback; simpl;
      (split; [intros <-; rewrite lookup_insert_eq, Ek; simpl; lia|intros; by rewrite lookup_insert_ne]).
Qed.

(** The transitions of clients leave a worker that runs. *)
Lemma client_exec_worker (k : nat) l s a s' :
  communication_running_ (wrapper s) = true → client_exec l s = Some (a, s') → workers s' = workers s ∧ worker_of l = None.
Proof.
  intros Hr E. destruct l; try done; simpl in E; (split; [|done]).
  - destruct (execute c now _ _) as [[r w] d]. by injection E as _ <-.
  - destruct (negb _); [done|]. destruct (Initialize c now _ _) as [[[r|[]] w] d]; by injection E as _ <-.
  - destruct (clients s !! t) as [[]|]; try done. by injection E as _ <-.
  - destruct (negb _); [done|]. by injection E as _ <-.
  - destruct (negb _); [done|]. destruct (Connect now now' _ _) as [[[r|] w] d]; by injection E as _ <-.
  - destruct (negb _); [done|]. destruct (SynchronizeState now now' _ _) as [[[r|] w] d]; by injection E as _ <-.
  - destruct (clients s !! t) as [[| r callback state| | |]|]; try done. injection E as _ <-. by destruct callback.
  - rewrite Hr, orb_true_r in E. destruct thread as [k'|what|]; [case_bool_decide; [done|]|..];
      destruct (StartCommunication _ _ _) as [r w]; by injection E as _ <-.
  - destruct (negb _); [done|]. unfold stop_begins, StopCommunication_begin in E. rewrite Hr in E. by injection E as _ <-.
  - destruct (clients s !! t) as [[| |[k'|] after| |]|]; try done; [destruct (workers s !! k'); [done|]|]; by injection E as _ <-.
  - destruct (clients s !! t) as [[| | |after|]|]; try done. destruct after; by injection E as _ <-.
  - destruct (clients s !! t) as [[| | | |[]]|]; try done; by injection E as _ <-.
  - by injection E as _ <-.
Qed.

(** A thread waits for a worker. *)
Definition waits s (t k : nat) (after : AfterStop) : Prop :=
  only s t (Joining (Some k) after) ∧ comm (wrapper s) = (true, true, None) ∧ dom (workers s) ⊆ {[k]}.

Lemma waits_step t k after l s a s' :
  waits s t k after → wrapper_exec l s = Some (a, s') → l ≠ Joins t →
  match l with StopBegins _ _ => nobody s | _ => True end → waits s' t k after.
Proof.
  intros (Ho & Hc & Hd) E%wrapper_exec_step Hn Hl.
  destruct E as [l Hv Hc' Hd'|o k' r Hc' _ _ _|o th r Hc' _ _ _|t' after' _ _ _ _ _
    |t' k' after' Ht _ _ _ _|t' after' Ht _ _ _|l k' _ Hk Hcl Hw Hwk]; try (rewrite Hc in Hc'; simplify_eq).
  - split; [intros t'; by rewrite Hv|]. by rewrite Hc', Hd'.
  - exfalso. specialize (Hl t). by rewrite Ho, bool_decide_eq_true_2 in Hl.
  - destruct (only_at _ _ _ _ _ Ho Ht eq_refl) as [-> _]. done.
  - by destruct (only_at _ _ _ _ _ Ho Ht eq_refl) as [_ Hx].
  - split; [intros t'; unfold stop_view; rewrite Hcl; apply Ho|]. rewrite Hw, Hwk, dom_delete_L. split; [done|set_solver].
Qed.

Lemma waits_work t k after l s a s' :
  waits s t k after → wrapper_exec l s = Some (a, s') →
  (transitions_of k [l] + worker_work (workers s' !! k) <= worker_work (workers s !! k))%nat.
Proof.
  intros (_ & Hc & _) E. unfold comm in Hc. injection Hc as Hr Hq _. unfold wrapper_exec in E.
  unfold transitions_of. rewrite filter_cons, filter_nil.
  destruct (client_exec l s) as [x|] eqn:Ec.
  - simplify_eq. destruct (client_exec_worker k _ _ _ _ Hr Ec) as [-> ->]. done.
  - destruct (worker_exec l s) as [s1|] eqn:Ew; simpl in E; [|done]. simplify_eq.
    destruct (worker_exec_work k l s s' Hq Ew) as (k' & Hk' & H1 & H2). rewrite Hk'.
    case_decide as Hk; simplify_eq.
    + specialize (H1 eq_refl). simpl. lia.
    + rewrite H2 by congruence. simpl. lia.
Qed.

Lemma waits_run t k after ls s s' :
  waits s t k after → serial ls s → Joins t ∉ ls → wrapper_run ls s = Some s' →
  waits s' t k after ∧ (transitions_of k ls + worker_work (workers s' !! k) <= worker_work (workers s !! k))%nat.
Proof.
  revert s. induction ls as [|l ls IH]; intros s Hw Hs Hn E; simpl in E, Hs; [by simplify_eq|].
  destruct (wrapper_exec l s) as [[a s1]|] eqn:E1; simpl in E; [|done]. destruct Hs as [Hl Hs].
  rewrite not_elem_of_cons in Hn. destruct Hn as [Hn1 Hn2].
  pose proof (waits_work _ _ _ _ _ _ _ Hw E1) as H1.
  destruct (IH s1) as [H2 H3]; [by eapply waits_step|done..|]. split; [done|].
  change (l :: ls) with ([l] ++ ls). unfold transitions_of in *. rewrite filter_app, length_app. lia.
Qed.

(** C32: If threads stop the worker one after the other, a thread that waits for
    the worker to end does not wait for ever: as long as it waits nobody starts a
    worker or takes the request back, the worker has at most three transitions
    before it ends and always one until then, and once it has ended the thread
    goes on. There is never more than one worker. *)
Theorem StopCommunication_ends ls (w0 : World) s t k after :
  serial ls (initial w0) → wrapper_run ls (initial w0) = Some s →
  clients s !! t = Some (Joining (Some k) after) →
  ∀ ls' s', serial ls' s → Joins t ∉ ls' → wrapper_run ls' s = Some s' →
    stop_communication_requested_ (wrapper s') = true ∧ dom (workers s') ⊆ {[k]} ∧
    (transitions_of k ls' <= 3)%nat ∧
    match workers s' !! k with
    | Some _ => ∃ l, worker_of l = Some k ∧ is_Some (wrapper_exec l s')
    | None => is_Some (wrapper_exec (Joins t) s')
    end.
Proof.
  intros Hs E Ht ls' s' Hs' Hn E'. pose proof (serial_run_phase ls _ _ Hs E (initial_phase w0)) as Hp.
  assert (Hw : waits s t k after).
  { destruct Hp as [r' H1 H2 H3|k' H1 H2 H3|t' k' after' H1 H2 H3|t' after' H1 H2 H3].
    - by pose proof (nobody_at _ _ _ H1 Ht).
    - by pose proof (nobody_at _ _ _ H1 Ht).
    - destruct (only_at _ _ _ _ _ H1 Ht eq_refl) as [-> [= -> ->]]. by split.
    - by destruct (only_at _ _ _ _ _ H1 Ht eq_refl) as [_ Hx]. }
  destruct (waits_run t k after ls' s s' Hw Hs' Hn E') as [(Ho & Hc & Hd) Hb].
  unfold comm in Hc. injection Hc as _ Hq _. split_and!; [done|done| |].
  - assert (worker_work (workers s !! k) <= 3)%nat by (destruct (workers s !! k) as [[]|]; simpl; lia). lia.
  - destruct (workers s' !! k) as [pc|] eqn:Ek.
    + destruct pc; [exists (WorkerLoops k)|exists (WorkerWakes k true)|exists (WorkerSynchronizes k 0 0)|exists (WorkerPublishes k)];
        (split; [done|]); unfold wrapper_exec; simpl; rewrite Ek, ?Hq; try by eexists.
      destruct (SynchronizeState 0 0 _ _) as [[r w] d]. by eexists.
    + assert (Hj : clients s' !! t = Some (Joining (Some k) after)).
      { specialize (Ho t). unfold stop_view in Ho. rewrite bool_decide_eq_true_2 in Ho by done.
        destruct (clients s' !! t) as [pc|]; [|done]. simpl in Ho. by destruct (stopping pc). }
      unfold wrapper_exec. simpl. rewrite Hj, Ek. by eexists.
Qed.
End Wrapper.

(* ------------------------------------------------------------------ *)
(** ** Witness, and two stops at once *)

#[local] Existing Instance sample_sdk.

Definition stopping_once : list (WrapperLabel nat) :=
  [InitializeBegins 0 default_SdkConfiguration 5; SubscribeEnds 0 true;
   Starts default_SdkCommunicationOptions (Value 1%nat); WorkerLoops 1; StopBegins 0 ReturnStopped].

Definition stopped_state (ls : list (WrapperLabel nat)) : WrapperState nat :=
  match wrapper_run ls (initial willing) with Some s => s | None => initial willing end.

Lemma stopping_reached : wrapper_run stopping_once (initial willing) = Some (stopped_state stopping_once).
Proof. vm_compute. reflexivity. Qed.

Lemma stopping_threads :
  clients (stopped_state stopping_once) !! 0%nat = Some (Joining (Some 1%nat) ReturnStopped) ∧
  workers (stopped_state stopping_once) !! 1%nat = Some Waiting.
Proof. vm_compute. by split. Qed.

Lemma stopping_serial : serial stopping_once (initial willing).
Proof. apply serially_serial. vm_compute. reflexivity. Qed.

Lemma StopCommunication_ends_witness :
  clients (stopped_state stopping_once) !! 0%nat = Some (Joining (Some 1%nat) ReturnStopped) ∧
  ∃ l, worker_of l = Some 1%nat ∧ is_Some (wrapper_exec l (stopped_state stopping_once)).
Proof.
  split; [exact (proj1 stopping_threads)|].
  pose proof (StopCommunication_ends stopping_once willing _ 0 1 ReturnStopped stopping_serial stopping_reached
    (proj1 stopping_threads) [] (stopped_state stopping_once) I (not_elem_of_nil _) eq_refl) as (_ & _ & _ & H).
  rewrite (proj2 stopping_threads) in H. exact H.
Defined.

(** The second of two threads that stop the worker finds no thread to join and
    takes the request back before the worker has seen it: the first waits for a
    worker that goes on, and that a new one is started beside. *)
Definition two_stops : list (WrapperLabel nat) :=
  stopping_once ++ [StopBegins 2 ReturnStopped; Joins 2; StopEnds 2].

Definition heartbeat : list (WrapperLabel nat) :=
  [WorkerWakes 1 true; WorkerSynchronizes 1 40 41; WorkerPublishes 1; WorkerLoops 1].

Example concurrent_stops :
  let s := stopped_state two_stops in
  let s' := stopped_state (two_stops ++ heartbeat) in
  let s2 := stopped_state (two_stops ++ [Starts default_SdkCommunicationOptions (Value 3%nat)]) in
  (clients s !! 0%nat = Some (Joining (Some 1%nat) ReturnStopped) ∧ workers s !! 1%nat = Some Waiting ∧
   stop_communication_requested_ (wrapper s) = false ∧ communication_running_ (wrapper s) = false) ∧
  (clients s' !! 0%nat = Some (Joining (Some 1%nat) ReturnStopped) ∧ workers s' !! 1%nat = Some Waiting ∧
   stop_communication_requested_ (wrapper s') = false) ∧
  workers s2 !! 1%nat = Some Waiting ∧ workers s2 !! 3%nat = Some AtLoop.
Proof. vm_compute. repeat split. Qed.
