(* ===== verification/SdkProperties.v ===== *)
(** * What users of SdkWrapper can rely on

    The robot moves only while its state is known; an emergency stop always
    reaches it; a heartbeat decides whether it is connected. *)

From Stdlib Require Import SpecFloat.
From S2P Require Import Prelude Command Status RobotState UnitreeTypes SdkClients SdkWrapper SdkProofs.

Open Scope Z_scope.

Section Wrapper.
Context `{Sdk} {Callback : Type}.
#[local] Notation Wrapper := (Wrapper Callback).
#[local] Notation WrapperState := (WrapperState Callback).
#[local] Notation WrapperLabel := (WrapperLabel Callback).
Implicit Types (w : Wrapper) (d : Device) (s : WrapperState) (ls : list WrapperLabel).

(** C3: Under every interleaving of threads, every call that makes the robot
    move comes after a query of its state that succeeded, with neither a failed
    query nor a damping in between, and the velocities it passes are numbers. *)
Theorem robot_moves_armed ls (w0 : World) s before c ok after :
  wrapper_run ls (initial w0) = Some s → calls (device s) = before ++ Called c ok :: after →
  moves c = true → armed before = true ∧ finite_call c = true.
Proof.
  intros E Hc Hm. destruct (wrapper_run_ok ls _ _ E (initial_ok w0)) as [[Ha _] _ _ _].
  exact (Ha before c ok after Hc Hm).
Qed.

(* ------------------------------------------------------------------ *)
(** ** Emergency stop *)

(** The calls of a run come after those before it. *)
Lemma armed_after evs evs' :
  armed evs = false → Called CallGetFsmId true ∉ evs' → armed (evs ++ evs') = false.
Proof.
  intros Ha. induction evs' as [|ev evs' IH] using rev_ind; intros Hn; [by rewrite app_nil_r|].
  rewrite app_assoc, armed_snoc. rewrite not_elem_of_app, not_elem_of_cons in Hn. destruct Hn as (Hn & Hne & _).
  rewrite IH by done. by destruct ev as [[] []].
Qed.

Lemma disarmed_rests evs evs' :
  moves_armed (evs ++ evs') → armed evs = false → Called CallGetFsmId true ∉ evs' →
  ∀ c ok, Called c ok ∈ evs' → moves c = false.
Proof.
  intros Hm Ha Hn c ok Hin. destruct (moves c) eqn:E; [|done]. apply list_elem_of_split in Hin as (l1 & l2 & ->).
  destruct (Hm (evs ++ l1) c ok l2) as [Hb _]; [by rewrite <-app_assoc|done|].
  rewrite not_elem_of_app in Hn. by rewrite armed_after in Hb by (done || apply Hn).
Qed.

(** C31: An emergency stop of an initialized wrapper always stops and damps the
    robot, even when one of the two calls fails or throws, and answers success
    if neither does. Whatever the threads do afterwards, the robot is not made to
    move before a query of its state succeeds. *)
Theorem EmergencyStop_exact ls (w0 : World) s now :
  wrapper_run ls (initial w0) = Some s → initialized_ (wrapper s) = true →
  ∃ r s' ok ok', wrapper_exec (Executes EmergencyStops now) s = Some (Some r, s') ∧
    calls (device s') = calls (device s) ++ [Called CallStopMove ok; Called CallDamp ok'] ∧
    Succeeded r = ok && ok' ∧ connected_ (wrapper s') = false ∧
    emergency_stop (latest_state_ (wrapper s')) = true ∧
    ∀ ls' s2 evs, wrapper_run ls' s' = Some s2 → calls (device s2) = calls (device s') ++ evs →
      Called CallGetFsmId true ∉ evs → ∀ c ok, Called c ok ∈ evs → moves c = false.
Proof.
  intros E Hi. pose proof (wrapper_run_ok ls _ _ E (initial_ok w0)) as Hs.
  pose proof (ok_loco _ _ Hs Hi) as Hl. pose proof (ok_client _ _ Hs Hl) as Hc.
  destruct (wrapper_exec (Executes EmergencyStops now) s) as [[a s']|] eqn:Ex; [|].
  2: { unfold wrapper_exec in Ex. simpl in Ex. by destruct (EmergencyStop now _ _) as [[? ?] ?]. }
  pose proof (wrapper_exec_ok _ _ _ _ Ex Hs) as Hs'.
  unfold wrapper_exec in Ex. simpl in Ex. unfold EmergencyStop in Ex. rewrite Hi in Ex. simpl in Ex.
  destruct (Loco_EmergencyStop_calls _ (device s) Hl Hc) as (ok & ok' & Hk).
  destruct (Loco_EmergencyStop _ _) as [[r c] d']. destruct Hk as (Hd & Hr & Hc').
  injection Ex as <- <-. exists r. do 3 eexists. split; [reflexivity|]. simpl. split; [exact Hd|].
  split_and!; [done|done|done|]. intros ls' s2 evs E2 Hcalls Hn.
  apply (disarmed_rests (calls d')); [|rewrite Hd|done].
  - rewrite <-Hcalls. apply (wrapper_run_ok ls' _ _ E2 Hs').
  - change [Called CallStopMove ok; Called CallDamp ok'] with ([Called CallStopMove ok] ++ [Called CallDamp ok']).
    by rewrite app_assoc, armed_snoc.
Qed.

(* ------------------------------------------------------------------ *)
(** ** Heartbeats *)

(** Whether one of some queries succeeded. *)
Definition answered (queries : list bool) : bool := existsb (λ b, b) queries.

(** The state that is published after a heartbeat. *)
Definition heartbeat_state (ok timed_out : bool) (old : SdkConnectionState) : SdkConnectionState :=
  if ok then SdkConnected else if timed_out then SdkDisconnected else old.

Lemma reconnect_exact timed_out r now now' w d :
  client_initialized_ (loco_adapter_ w) = true → client_ (loco_adapter_ w) = true → Succeeded r = false →
  let '(r', w', d') := reconnect timed_out r now now' w d in
  ∃ queries, calls d' = calls d ++ map (Called CallGetFsmId) queries ∧
    length queries = (if reconnect_due now w then 1%nat else 0%nat) ∧
    let ok := answered queries in
    Succeeded r' = ok ∧ connected_ w' = ok || connected_ w ∧
    last_successful_heartbeat_ w' = (if ok then now else last_successful_heartbeat_ w) ∧
    heartbeat_count_ w' = heartbeat_count_ w ∧ initialized_ w' = initialized_ w ∧
    connection_state_ w' = (if ok then SdkConnected else connection_state_ w) ∧
    sdk_connection_state (latest_state_ w') = (if ok then SdkConnected else sdk_connection_state (latest_state_ w)) ∧
    (ok = false → timed_out = false → r' = r) ∧ (ok = false → timed_out = true → sdk_code r = SdkTimeout → sdk_code r' = SdkTimeout).
Proof.
  intros Hi Hc Hr. unfold reconnect. destruct (reconnect_due now w); simpl.
  2: { exists []. by rewrite app_nil_r. }
  pose proof (GetFsmId_exact (loco_adapter_ w) d Hi Hc) as Hq.
  destruct (GetFsmId _ d) as [[[r' fsm] c] d']. destruct Hq as (Hd & -> & _).
  destruct (Succeeded r') eqn:E; [exists [true]; by rewrite E|].
  destruct timed_out; exists [false]; by split_and!.
Qed.

(** Nothing has happened yet, or it is at least [milliseconds] ago. *)
Definition overdue (since now milliseconds : Z) : bool :=
  bool_decide (since = 0 ∨ ns_of_ms milliseconds <= elapsed_ns now since).

Lemma overdue_exact since now milliseconds :
  (since =? 0) || elapsed since now milliseconds = overdue since now milliseconds.
Proof.
  unfold overdue, elapsed. destruct (Z.eqb_spec since 0), (Z.leb_spec (ns_of_ms milliseconds) (elapsed_ns now since)); simpl;
    case_bool_decide; lia.
Qed.

(** A heartbeat asks for the robot's state once, and once more if that
    fails and a reconnection is due. The wrapper is connected afterwards exactly
    if one of them succeeded, or if it was before and the last success is not yet
    too long ago; a timeout is answered only when it is. *)
Theorem SynchronizeState_exact ls (w0 : World) s now now' :
  wrapper_run ls (initial w0) = Some s →
  let w := wrapper s in
  let too_old := overdue (last_successful_heartbeat_ w) now (connection_timeout (communication_options_ w)) in
  let due := overdue (last_reconnect_attempt_ w) now (reconnect_interval (communication_options_ w)) in
  match SynchronizeState now now' w (device s) with
  | (None, w', d') => initialized_ w = false ∧ w' = w ∧ d' = device s
  | (Some r, w', d') =>
      initialized_ w' = true ∧ heartbeat_count_ w' = u64_incr (heartbeat_count_ w) ∧
      ∃ first second, let ok := answered (first :: second) in
        calls d' = calls (device s) ++ map (Called CallGetFsmId) (first :: second) ∧
        length second = (if first then 0 else if due then 1 else 0)%nat ∧
        Succeeded r = ok ∧
        connected_ w' = ok || (connected_ w && negb (too_old)) ∧
        last_successful_heartbeat_ w' = (if ok then now else last_successful_heartbeat_ w) ∧
        sdk_connection_state (latest_state_ w') =
          heartbeat_state ok (too_old) (sdk_connection_state (latest_state_ w)) ∧
        (sdk_code r = SdkTimeout ↔ ok = false ∧ too_old = true)
  end.
Proof.
  intros E w. cbv zeta. rewrite <-!overdue_exact. fold (heartbeat_timed_out now w) (reconnect_due now w).
  pose proof (wrapper_run_ok ls _ _ E (initial_ok w0)) as Hs. unfold state_ok in Hs. fold w in Hs.
  generalize dependent (device s). intros d Hs. unfold SynchronizeState. cbv zeta.
  destruct (initialized_ w) eqn:Hi; [|done]. simpl (negb true). simpl (loco_adapter_ _).
  pose proof (ok_loco _ _ Hs Hi) as Hl. pose proof (ok_client _ _ Hs Hl) as Hc.
  pose proof (GetFsmId_exact _ d Hl Hc) as Hq.
  destruct (GetFsmId _ d) as [[[r fsm] c] d1]. destruct Hq as (Hd & -> & Ht).
  destruct (Succeeded r) eqn:Er.
  { split; [exact Hi|]. split; [reflexivity|]. exists true, []. split_and!; try done.
    by split; [intros|intros [? ?]]. }
  set (w1 := with_loco _ _). change (heartbeat_timed_out now w1) with (heartbeat_timed_out now w).
  destruct (heartbeat_timed_out now w) eqn:Eto.
  - set (w2 := sample _ _ _ _ _). set (r2 := Failure _ _).
    pose proof (reconnect_exact true r2 now now' w2 d1 Hl Hc eq_refl) as Hr.
    destruct (reconnect true r2 now now' w2 d1) as [[r3 w3] d3].
    destruct Hr as (queries & Hd3 & Hlen & Hok & Hcon & Hlast & Hcount & Hi3 & Hst & Hst' & _ & Hto).
    split; [exact (eq_trans Hi3 Hi)|]. split; [exact Hcount|]. exists false, queries.
    split_and!; try done.
    + by rewrite Hd3, Hd, <-app_assoc.
    + etransitivity; [exact Hcon|]. simpl. by destruct (answered queries), (connected_ w).
    + change (answered (false :: queries)) with (answered queries).
      split; [intros Hx|by intros [Hx _]; apply Hto]. split; [|done].
      destruct (answered queries) eqn:Ea; [|done]. unfold Succeeded in Hok. by rewrite Hx in Hok.
  - pose proof (reconnect_exact false r now now' w1 d1 Hl Hc Er) as Hr.
    destruct (reconnect false r now now' w1 d1) as [[r3 w3] d3].
    destruct Hr as (queries & Hd3 & Hlen & Hok & Hcon & Hlast & Hcount & Hi3 & Hst & Hst' & Hsame & _).
    split; [exact (eq_trans Hi3 Hi)|]. split; [exact Hcount|]. exists false, queries.
    split_and!; try done.
    + by rewrite Hd3, Hd, <-app_assoc.
    + etransitivity; [exact Hcon|]. simpl. by destruct (answered queries), (connected_ w).
    + change (answered (false :: queries)) with (answered queries).
      split; [intros Hx|by intros [_ Hx]]. exfalso. destruct (answered queries) eqn:Ea.
      * unfold Succeeded in Hok. by rewrite Hx in Hok.
      * by rewrite Hsame in Hx.
Qed.
End Wrapper.

(* ------------------------------------------------------------------ *)
(** ** Witnesses *)

#[local] Existing Instance sample_sdk.

(** The wrapper is initialized, connected and watched by worker 1. *)
Definition connecting : list (WrapperLabel nat) :=
  [InitializeBegins 0 default_SdkConfiguration 5; SubscribeEnds 0 true; Connects 0 10 11; Publishes 0;
   Starts default_SdkCommunicationOptions (Value 1%nat)].

Definition one : float32 := float32_of_Z 1.

Definition walking : list (WrapperLabel nat) := connecting ++ [Executes (Moves one float_zero float_zero) 20].

Definition state_after (ls : list (WrapperLabel nat)) (answers : @World sample_sdk) : WrapperState nat :=
  match wrapper_run ls (initial answers) with Some s => s | None => initial answers end.

Definition events_after ls answers : list SdkEvent := calls (device (state_after ls answers)).

Lemma walking_reached : wrapper_run walking (initial willing) = Some (state_after walking willing).
Proof. vm_compute. reflexivity. Qed.

Lemma robot_moves_armed_witness :
  ∃ before, events_after walking willing = before ++ [Called (CallMove one float_zero float_zero) true] ∧
    armed before = true ∧ finite_call (CallMove one float_zero float_zero) = true.
Proof.
  exists (events_after connecting willing).
  assert (E : events_after walking willing = events_after connecting willing ++ [Called (CallMove one float_zero float_zero) true])
    by reflexivity.
  split; [exact E|].
  exact (robot_moves_armed walking willing _ _ _ _ [] walking_reached E eq_refl).
Defined.

Lemma EmergencyStop_exact_witness :
  ∃ r s', wrapper_exec (Executes EmergencyStops 30) (state_after walking willing) = Some (Some r, s') ∧
    connected_ (wrapper s') = false ∧ emergency_stop (latest_state_ (wrapper s')) = true.
Proof.
  destruct (EmergencyStop_exact walking willing _ 30 walking_reached eq_refl)
    as (r & s' & ok & ok' & E & _ & _ & Hc & He & _).
  exists r, s'. split; [exact E|]. split; [exact Hc|exact He].
Defined.

(** A robot that answers the second and the third query with an error. *)
Definition failing : @World sample_sdk := [true; false; false].

(** A heartbeat two seconds after the last success, to which the robot answers
    neither query. *)
Lemma SynchronizeState_exact_witness :
  wrapper_run walking (initial failing) = Some (state_after walking failing) ∧
  let s := state_after walking failing in
  match SynchronizeState 2000000010 2000000011 (wrapper s) (device s) with
  | (Some r, w', d') => initialized_ w' = true ∧ connected_ w' = false ∧ sdk_code r = SdkTimeout
  | (None, _, _) => False
  end.
Proof.
  assert (E : wrapper_run walking (initial failing) = Some (state_after walking failing))
    by (vm_compute; reflexivity).
  split; [exact E|]. pose proof (SynchronizeState_exact walking _ _ 2000000010 2000000011 E) as H. cbv zeta in H |- *.
  destruct (SynchronizeState _ _ _ _) as [[[r|] w'] d'] eqn:Es; [|destruct H as [H _]; discriminate H].
  split; [exact (proj1 H)|]. vm_compute in Es. injection Es as <- <- <-. split; reflexivity.
Defined.

(** The heartbeat after an emergency stop makes the robot ready to move, and
    clears the emergency stop from the state it publishes. *)
Example emergency_stop_undone :
  let stopped := state_after (walking ++ [Executes EmergencyStops 30]) willing in
  let after := state_after (walking ++ [Executes EmergencyStops 30; WorkerLoops 1; WorkerWakes 1 true;
    WorkerSynchronizes 1 40 41; Executes (Moves one float_zero float_zero) 50]) willing in
  emergency_stop (latest_state_ (wrapper stopped)) = true ∧
  emergency_stop (latest_state_ (wrapper after)) = false ∧
  calls (device after) = calls (device stopped) ++
    [Called CallGetFsmId true; Called (CallMove one float_zero float_zero) true].
Proof. vm_compute. repeat split. Qed.
