(* ===== verification/UnitreeAdapter.v ===== *)
(** * The Unitree G1 adapter

    src/adapters/unitree/UnitreeG1Adapter.cpp and the facade that it drives,
    src/sdk/LocoClientWrapper.cpp.  What SdkWrapper and the adapters of the hand
    and audio clients answer to one thread is the interface [UnitreeLink]: other
    threads, as the communication worker, change its world between the requests.
    A [Link] is that world with the requests made so far, which the code does not
    keep.  Every operation holds the mutex of the adapter; what it logs is left
    out. *)

From Stdlib Require Import Ascii SpecFloat.
From S2P Require Import Prelude Command RobotState SafetyValidator CommandValidation Text Status Planner UnitreeTypes SdkClients.

Open Scope Z_scope.

(* ------------------------------------------------------------------ *)
(** ** Requests to the SDK layer *)

Inductive SdkRequest :=
  | ReqInitialize (c : SdkConfiguration)
  | ReqSetStateUpdateCallback (present : bool)
  | ReqConnect
  | ReqStartCommunication (o : SdkCommunicationOptions)
  | ReqStopCommunication
  | ReqDisconnect
  | ReqShutdown
  | ReqSynchronizeState
  | ReqMove (vx vy omega : float32)
  | ReqStop | ReqStandUp | ReqSit | ReqBalanceStand | ReqEmergencyStop
  | ReqHandInitialize (c : SdkConfiguration) | ReqHandConnect | ReqHandShutdown
  | ReqHandOpen | ReqHandClose | ReqGesture (g : SdkHandGesture)
  | ReqAudioInitialize (c : SdkConfiguration) | ReqAudioConnect | ReqAudioShutdown
  | ReqPlay (p : SdkAudioPlayback) | ReqAudioStop (app : string) | ReqSetVolume (volume : Z) | ReqMute.

Class UnitreeLink := {
  LinkWorld : Type;
  sdk_request : SdkRequest → LinkWorld → SdkResult * LinkWorld;
  link_state : LinkWorld → SdkRobotState;
  link_connected : LinkWorld → bool;
}.

Record RobotConfig := mkRobotConfig {
  vendor : string; model : string; ip : string; config_network_interface : string; config_domain_id : Z;
  config_timeout : Z; config_serial_number : string; firmware : string;
}.

Definition ToSdkConfiguration (c : RobotConfig) : SdkConfiguration :=
  mkSdkConfiguration (ip c) (config_network_interface c) (config_domain_id c) (config_timeout c)
    (config_serial_number c) (firmware c).

(* ------------------------------------------------------------------ *)
(** ** Results *)

Definition Adapter_Success (message : string) : UnitreeTypes.Result := mkAdapterResult AdapterSuccess message.
Definition Adapter_Failure (code : ErrorCode) (message : string) : UnitreeTypes.Result := mkAdapterResult code message.

Definition ToStatus (r : UnitreeTypes.Result) : Status :=
  match result_code r with
  | AdapterSuccess => Ok
  | SDKUnavailable | ConnectionFailed | AdapterTimeout => error kUnavailable (adapter_message r)
  | RobotFault => error kFailedPrecondition (adapter_message r)
  | AdapterUnknown => error kInternalError (adapter_message r)
  end.

Definition ToCommandResult (r : UnitreeTypes.Result) : CommandResult :=
  mkResult
    (match result_code r with
     | AdapterSuccess => StatusCompleted
     | AdapterTimeout => StatusTimeout
     | _ => StatusFailed
     end) (adapter_message r).

(* ------------------------------------------------------------------ *)
(** ** Addresses *)

Definition IsDigits (value : chars) : bool := negb (bool_decide (value = [])) && forallb is_digit value.

(** [std::stoi] throws if the number is no [int]. *)
Definition ParseIpv4Octet (value : chars) : option Z :=
  if negb (IsDigits value) then None
  else
    let octet := decimal value in
    if 2 ^ 31 - 1 <? octet then None
    else if (0 <=? octet) && (octet <=? 255) then Some octet else None.

(** [std::getline] with a delimiter, until it fails: there is no token after a
    dot that ends the text. [token] has the characters read so far, the last one
    first. *)
Fixpoint dotted (started : bool) (token s : chars) : list chars :=
  match s with
  | [] => if started then [rev token] else []
  | c :: s =>
      if bool_decide (c = "."%char) then rev token :: dotted false [] s
      else dotted true (c :: token) s
  end.

Fixpoint all_octets (tokens : list chars) : bool :=
  match tokens with
  | [] => true
  | token :: tokens => match ParseIpv4Octet token with None => false | Some _ => all_octets tokens end
  end.

Definition IsValidIpv4Address (address : chars) : bool :=
  let tokens := dotted false [] address in
  all_octets tokens && (length tokens =? 4)%nat.

(* ------------------------------------------------------------------ *)
(** ** Velocities *)

(** [1.5F] and [2.0F]. *)
Definition kMaxLinearVelocity : float32 := binary_normalize 24 128 3 (-1) false.
Definition kMaxYawVelocity : float32 := float32_of_Z 2.

Definition IsValidVelocity (vx vy omega : float32) : bool :=
  isfinite vx && isfinite vy && isfinite omega &&
  SFleb (SFabs vx) kMaxLinearVelocity && SFleb (SFabs vy) kMaxLinearVelocity &&
  SFleb (SFabs omega) kMaxYawVelocity.

Section Adapter.
Context `{UnitreeLink}.

Record Link := mkLink { link_world : LinkWorld; requests : list SdkRequest }.

Definition send (r : SdkRequest) (l : Link) : SdkResult * Link :=
  let '(answer, w) := sdk_request r (link_world l) in (answer, mkLink w (requests l ++ [r])).

(* ------------------------------------------------------------------ *)
(** ** LocoClientWrapper *)

Record LocoClientWrapper := mkLocoClientWrapper { communication_timeout_ : Z }.

Definition new_LocoClientWrapper : LocoClientWrapper := mkLocoClientWrapper 500.

Definition adapter_request (r : SdkRequest) (l : Link) : UnitreeTypes.Result * Link :=
  let '(answer, l) := send r l in (ToAdapterResult answer, l).

Definition Wrapper_Initialize (c : RobotConfig) (x : LocoClientWrapper) (l : Link) :
    UnitreeTypes.Result * LocoClientWrapper * Link :=
  let '(r, l) := adapter_request (ReqInitialize (ToSdkConfiguration c)) l in
  (r, mkLocoClientWrapper (config_timeout c), l).

Definition communication_options (timeout : Z) : SdkCommunicationOptions :=
  mkOptions timeout (i64_wrap (timeout * 2)) (i64_wrap (timeout * 3)).

Definition Wrapper_StartCommunication (x : LocoClientWrapper) (l : Link) : UnitreeTypes.Result * Link :=
  adapter_request (ReqStartCommunication (communication_options (communication_timeout_ x))) l.

Definition Wrapper_SetRobotStateManager (present : bool) (l : Link) : Link :=
  (send (ReqSetStateUpdateCallback present) l).2.

(* ------------------------------------------------------------------ *)
(** ** The adapter *)

Record Adapter := mkAdapter {
  config_ : RobotConfig;
  adapter_client_ : option LocoClientWrapper;
  state_manager_ : bool;
  adapter_initialized_ : bool;
  adapter_connected_ : bool;
}.

#[export] Instance eta_Adapter : EtaRecord Adapter := fun a =>
  mkAdapter (config_ a) (adapter_client_ a) (state_manager_ a) (adapter_initialized_ a) (adapter_connected_ a).

Definition new_Adapter (c : RobotConfig) (client : option LocoClientWrapper) (state_manager : bool) : Adapter :=
  mkAdapter c client state_manager false false.

Definition MarkFailureIfNeeded (r : UnitreeTypes.Result) (a : Adapter) : Adapter :=
  if Result_Succeeded r then a else a <| adapter_connected_ := false |>.

Definition ValidateConfig (c : RobotConfig) : UnitreeTypes.Result :=
  if negb (bool_decide (vendor c = "Unitree")) then Adapter_Failure AdapterUnknown "robot vendor is not Unitree"
  else if negb (bool_decide (model c = "G1")) then Adapter_Failure AdapterUnknown "robot model is not G1"
  else if negb (IsValidIpv4Address (chars_of (ip c))) then
    Adapter_Failure ConnectionFailed "robot IP address is not a valid IPv4 address"
  else if bool_decide (config_network_interface c = "") then
    Adapter_Failure ConnectionFailed "network interface is empty"
  else if config_timeout c <=? 0 then Adapter_Failure AdapterTimeout "timeout must be greater than zero"
  else Adapter_Success "robot configuration is valid".

(** [construction] is what the constructor of the client does, if it is
    called. *)
Definition Adapter_Initialize (construction : Outcome ()) (a : Adapter) (l : Link) : Status * Adapter * Link :=
  let validation := ValidateConfig (config_ a) in
  if negb (Result_Succeeded validation) then (ToStatus validation, a, l)
  else
    let made :=
      match adapter_client_ a, construction with
      | Some x, _ => inr x
      | None, Value _ => inr new_LocoClientWrapper
      | None, Exception what =>
          inl (Adapter_Failure SDKUnavailable ("Unitree SDK wrapper construction failed: " +:+ what))
      | None, UnknownException =>
          inl (Adapter_Failure SDKUnavailable
                 "Unitree SDK wrapper construction failed with an unknown exception")
      end in
    match made with
    | inl r => (ToStatus r, MarkFailureIfNeeded r a, l)
    | inr x =>
        let l := if state_manager_ a then Wrapper_SetRobotStateManager true l else l in
        let '(r, x, l) := Wrapper_Initialize (config_ a) x l in
        let a := a <| adapter_client_ := Some x |> in
        (ToStatus r,
         if Result_Succeeded r then a <| adapter_initialized_ := true |> <| adapter_connected_ := false |>
         else MarkFailureIfNeeded r a, l)
    end.

Definition no_client : UnitreeTypes.Result :=
  Adapter_Failure SDKUnavailable "Unitree SDK wrapper is unavailable".

Definition Adapter_Connect (a : Adapter) (l : Link) : Status * Adapter * Link :=
  match adapter_client_ a with
  | None => (ToStatus no_client, a, l)
  | Some x =>
      let '(r, l) := adapter_request ReqConnect l in
      let '(communication, l) := Wrapper_StartCommunication x l in
      let r := if Result_Succeeded r && negb (Result_Succeeded communication) then communication else r in
      (ToStatus r,
       if Result_Succeeded r then a <| adapter_initialized_ := true |> <| adapter_connected_ := true |>
       else MarkFailureIfNeeded r a, l)
  end.

Definition Adapter_Disconnect (a : Adapter) (l : Link) : Status * Adapter * Link :=
  match adapter_client_ a with
  | None => (ToStatus no_client, a, l)
  | Some _ =>
      let '(r, l) := adapter_request ReqDisconnect l in
      (ToStatus r, if Result_Succeeded r then a <| adapter_connected_ := false |> else MarkFailureIfNeeded r a, l)
  end.

Definition Adapter_Shutdown (a : Adapter) (l : Link) : Status * Adapter * Link :=
  let a' := a <| adapter_initialized_ := false |> <| adapter_connected_ := false |> in
  match adapter_client_ a with
  | None => (ToStatus (Adapter_Success "Unitree adapter already shut down"), a', l)
  | Some _ => let '(r, l) := adapter_request ReqShutdown l in (ToStatus r, a', l)
  end.

(** A command that the client takes. *)
Definition client_command (req : SdkRequest) (a : Adapter) (l : Link) : UnitreeTypes.Result * Adapter * Link :=
  match adapter_client_ a with
  | None => (no_client, a, l)
  | Some _ => let '(r, l) := adapter_request req l in (r, MarkFailureIfNeeded r a, l)
  end.

Definition Adapter_StandUp : Adapter → Link → UnitreeTypes.Result * Adapter * Link := client_command ReqStandUp.
Definition Adapter_Sit : Adapter → Link → UnitreeTypes.Result * Adapter * Link := client_command ReqSit.
Definition Adapter_BalanceStand : Adapter → Link → UnitreeTypes.Result * Adapter * Link := client_command ReqBalanceStand.
Definition Adapter_Stop : Adapter → Link → UnitreeTypes.Result * Adapter * Link := client_command ReqStop.

Definition Adapter_Move (vx vy omega : float32) (a : Adapter) (l : Link) : UnitreeTypes.Result * Adapter * Link :=
  if negb (IsValidVelocity vx vy omega) then
    (Adapter_Failure AdapterUnknown "velocity command is invalid or out of range", a, l)
  else client_command (ReqMove vx vy omega) a l.

Definition Adapter_EmergencyStop (a : Adapter) (l : Link) : UnitreeTypes.Result * Adapter * Link :=
  match adapter_client_ a with
  | None => (no_client, a, l)
  | Some _ => let '(r, l) := adapter_request ReqEmergencyStop l in (r, a <| adapter_connected_ := false |>, l)
  end.

Definition Adapter_IsConnected (a : Adapter) : bool := adapter_connected_ a.

Definition Adapter_GetRobotState (now : Z) (a : Adapter) : RobotState :=
  default_RobotState <| connection := mkConnection (adapter_connected_ a) |>
    <| motion := mkMotion false false false (if adapter_initialized_ a then 1 else 0) 0 |>
    <| state_timestamp := now |>.

Record RobotInformation := mkInformation {
  info_vendor : string; info_model : string; info_adapterName : string; info_serialNumber : string;
  info_firmwareVersion : string;
}.

Definition Adapter_GetRobotInformation (a : Adapter) : RobotInformation :=
  mkInformation "Unitree" "G1" "UnitreeG1Adapter" (config_serial_number (config_ a)) (firmware (config_ a)).

Definition Adapter_GetCapabilities : RobotCapabilities :=
  mkRobotCapabilities true true true true true true false true true.

Definition Adapter_GetCommandCapabilities : CommandCapabilitySet :=
  SafetyValidator.mkCapabilities true true true true true true true true false false false false false false false false.

(** A number of the payload as a float; anything else is 0. *)
Definition number (c : Command) (key : string) : float32 :=
  cast_float (default (S754_zero false) (NumericPayloadValue (payload c) key)).

Definition answer (x : UnitreeTypes.Result * Adapter * Link) : CommandResult * Adapter * Link :=
  let '(r, a, l) := x in (ToCommandResult r, a, l).

Definition Adapter_ExecuteCommand (c : Command) (a : Adapter) (l : Link) : CommandResult * Adapter * Link :=
  match type c with
  | TypeStand => answer (Adapter_StandUp a l)
  | TypeSit => answer (Adapter_Sit a l)
  | TypeWalk | TypeMove | TypeVelocity =>
      answer (Adapter_Move (number c "linear_x") (number c "linear_y") (number c "angular_z") a l)
  | TypeRotate => answer (Adapter_Move (float32_of_Z 0) (float32_of_Z 0) (number c "angular_z") a l)
  | TypeStop => answer (Adapter_Stop a l)
  | TypeEmergencyStop => answer (Adapter_EmergencyStop a l)
  | TypeHandOpen | TypeHandClose | TypeGesture | TypePlayAudio | TypeStopAudio | TypeSetVolume
  | TypeMuteAudio | TypeCustom =>
      (mkResult StatusRejected "Command type is not supported by this Unitree factory adapter", a, l)
  | TypeRaw _ => (mkResult StatusRejected "Unknown command type", a, l)
  end.

Definition Adapter_Update (a : Adapter) (l : Link) : Status * Adapter * Link :=
  match adapter_client_ a with
  | None => (error kUnavailable "Unitree SDK wrapper is unavailable", a, l)
  | Some _ => let '(r, l) := adapter_request ReqSynchronizeState l in (ToStatus r, a, l)
  end.

(* ------------------------------------------------------------------ *)
(** ** Uses of an adapter *)

Inductive AdapterOp :=
  | OpInitialize (construction : Outcome ())
  | OpConnect | OpDisconnect | OpShutdown
  | OpStandUp | OpSit | OpBalanceStand | OpMove (vx vy omega : float32) | OpStop | OpEmergencyStop
  | OpExecuteCommand (c : Command)
  | OpUpdate.

Definition adapter_op (op : AdapterOp) (a : Adapter) (l : Link) : Adapter * Link :=
  match op with
  | OpInitialize construction => let '(_, a, l) := Adapter_Initialize construction a l in (a, l)
  | OpConnect => let '(_, a, l) := Adapter_Connect a l in (a, l)
  | OpDisconnect => let '(_, a, l) := Adapter_Disconnect a l in (a, l)
  | OpShutdown => let '(_, a, l) := Adapter_Shutdown a l in (a, l)
  | OpStandUp => let '(_, a, l) := Adapter_StandUp a l in (a, l)
  | OpSit => let '(_, a, l) := Adapter_Sit a l in (a, l)
  | OpBalanceStand => let '(_, a, l) := Adapter_BalanceStand a l in (a, l)
  | OpMove vx vy omega => let '(_, a, l) := Adapter_Move vx vy omega a l in (a, l)
  | OpStop => let '(_, a, l) := Adapter_Stop a l in (a, l)
  | OpEmergencyStop => let '(_, a, l) := Adapter_EmergencyStop a l in (a, l)
  | OpExecuteCommand c => let '(_, a, l) := Adapter_ExecuteCommand c a l in (a, l)
  | OpUpdate => let '(_, a, l) := Adapter_Update a l in (a, l)
  end.

Fixpoint adapter_ops (ops : list AdapterOp) (a : Adapter) (l : Link) : Adapter * Link :=
  match ops with
  | [] => (a, l)
  | op :: ops => let '(a, l) := adapter_op op a l in adapter_ops ops a l
  end.
End Adapter.

(* ------------------------------------------------------------------ *)
(** ** What users of the Unitree G1 adapter can rely on

    The addresses it accepts, the velocities it lets through, and what becomes of
    a command that the dispatcher has admitted. *)

(* ------------------------------------------------------------------ *)
(** ** Addresses *)

Definition dot : ascii := ".".

(** A number of at most 255 in decimal digits, leading zeros included. *)
Definition octet_text (t : chars) : Prop := t ≠ [] ∧ all_chars is_digit t ∧ decimal t <= 255.

(** Tokens with dots between them. *)
Fixpoint joined (tokens : list chars) : chars :=
  match tokens with
  | [] => []
  | [t] => t
  | t :: tokens => t ++ dot :: joined tokens
  end.

Lemma joined_cons t tokens : tokens ≠ [] → joined (t :: tokens) = t ++ dot :: joined tokens.
Proof. by destruct tokens. Qed.

Lemma dotted_nil s : dotted false [] s = [] → s = [].
Proof.
  destruct s as [|c s]; simpl; [done|]. case_bool_decide; [done|].
  cut (∀ cur, dotted true cur s ≠ []); [intros Hn E; by destruct (Hn [c])|]. clear.
  induction s as [|c s IH]; intros cur; simpl; [done|]. case_bool_decide; [done|apply IH].
Qed.

(** Only a dot at the end is lost. *)
Lemma dotted_joined s started cur :
  (started = false → cur = []) →
  rev cur ++ s = joined (dotted started cur s) ∨ rev cur ++ s = joined (dotted started cur s) ++ [dot].
Proof.
  revert started cur. induction s as [|c s IH]; intros started cur Hs; simpl.
  - rewrite app_nil_r. left. destruct started; [done|]. by rewrite Hs.
  - case_bool_decide as Hc.
    + subst c. destruct (decide (dotted false [] s = [])) as [E|E].
      { rewrite E. right. by rewrite (dotted_nil s E). }
      rewrite joined_cons by done. destruct (IH false []) as [Hj|Hj]; [done|left|right]; simpl in Hj.
      * by rewrite Hj at 1.
      * by rewrite Hj at 1; rewrite <-app_assoc.
    + destruct (IH true (c :: cur)) as [Hj|Hj]; [done|left|right]; rewrite <-Hj; simpl; by rewrite <-app_assoc.
Qed.

Lemma dotted_token t s started cur :
  dot ∉ t → dotted started cur (t ++ dot :: s) = (rev cur ++ t) :: dotted false [] s.
Proof.
  revert started cur. induction t as [|c t IH]; intros started cur Hd; simpl; [by rewrite app_nil_r|].
  rewrite not_elem_of_cons in Hd. rewrite bool_decide_eq_false_2 by naive_solver.
  rewrite IH by naive_solver. simpl. by rewrite <-app_assoc.
Qed.

Lemma dotted_last t started cur :
  dot ∉ t → (started = true ∨ t ≠ []) → dotted started cur t = [rev cur ++ t].
Proof.
  revert started cur. induction t as [|c t IH]; intros started cur Hd Hs; simpl.
  - destruct Hs as [->|]; [by rewrite app_nil_r|done].
  - rewrite not_elem_of_cons in Hd. rewrite bool_decide_eq_false_2 by naive_solver.
    rewrite IH by (naive_solver || by left). simpl. by rewrite <-app_assoc.
Qed.

Lemma digits_no_dot t : all_chars is_digit t → dot ∉ t.
Proof. intros Ht Hin. rewrite Forall_forall in Ht. by apply Ht in Hin. Qed.

(** Tokens that are not empty come back. *)
Lemma dotted_tokens tokens :
  Forall octet_text tokens →
  dotted false [] (joined tokens) = tokens ∧ (tokens ≠ [] → dotted false [] (joined tokens ++ [dot]) = tokens).
Proof.
  induction 1 as [|t tokens (Hne & Hd%digits_no_dot & _) _ IH]; [done|].
  destruct (decide (tokens = [])) as [->|Hn].
  - simpl. split; [apply dotted_last; auto|intros _]. by rewrite dotted_token.
  - destruct IH as [IH1 IH2]. rewrite joined_cons by done.
    split; [|intros _; rewrite <-app_assoc, <-app_comm_cons]; rewrite dotted_token by done; f_equal; auto.
Qed.

Lemma ParseIpv4Octet_exact t : is_Some (ParseIpv4Octet t) ↔ octet_text t.
Proof.
  unfold ParseIpv4Octet, IsDigits, octet_text. case_bool_decide as Hn; simpl.
  { subst. split; [intros []; done|intros []; done]. }
  destruct (forallb is_digit t) eqn:Ed; simpl.
  - assert (Hd : all_chars is_digit t) by (apply Forall_forall; intros c Hc; rewrite forallb_forall in Ed; apply Ed; by apply list_elem_of_In).
    pose proof (decimal_nonnegative t Hd). destruct (2 ^ 31 - 1 <? decimal t) eqn:E1;
      [apply Z.ltb_lt in E1; split; [intros []; done|lia]|].
    destruct ((0 <=? decimal t) && (decimal t <=? 255)) eqn:E2.
    + apply andb_true_iff in E2 as [_ E2%Z.leb_le]. split; [done|by eexists].
    + apply andb_false_iff in E2 as [E2%Z.leb_gt|E2%Z.leb_gt]; (split; [intros []; done|lia]).
  - split; [intros []; done|]. intros (_ & Hd & _). exfalso. apply not_true_iff_false in Ed. apply Ed.
    apply forallb_forall. intros c Hc%list_elem_of_In. rewrite Forall_forall in Hd. by apply Hd.
Qed.

Lemma all_octets_exact tokens : all_octets tokens = true ↔ Forall octet_text tokens.
Proof.
  induction tokens as [|t tokens IH]; simpl; [by split|].
  rewrite Forall_cons, <-ParseIpv4Octet_exact, <-IH. destruct (ParseIpv4Octet t); split.
  - by split; [eexists|].
  - by intros [_ ?].
  - done.
  - by intros [[] _].
Qed.

(** Four numbers of at most 255 with dots between them, perhaps with one more dot
    at the end. *)
Definition address_text (s : chars) : Prop :=
  ∃ a b c d, Forall octet_text [a; b; c; d] ∧
    let address := a ++ dot :: b ++ dot :: c ++ dot :: d in s = address ∨ s = address ++ [dot].

Theorem IsValidIpv4Address_exact s : IsValidIpv4Address s = true ↔ address_text s.
Proof.
  unfold IsValidIpv4Address, address_text. rewrite andb_true_iff, all_octets_exact, Nat.eqb_eq. split.
  - intros [Ho Hlen]. pose proof (dotted_joined s false [] (λ _, eq_refl)) as Hj.
    destruct (dotted false [] s) as [|a [|b [|c [|d [|e r]]]]]; try done. exists a, b, c, d. by split.
  - intros (a & b & c & d & Ho & Hs). destruct (dotted_tokens _ Ho) as [H1 H2].
    destruct Hs as [Hs|Hs]; rewrite Hs; simpl in H1, H2.
    + rewrite H1; by split.
    + rewrite H2 by done; by split.
Qed.

Example dot_at_the_end : IsValidIpv4Address (chars_of "192.168.123.161.") = true.
Proof. reflexivity. Qed.

(* ------------------------------------------------------------------ *)
(** ** What the adapter requests *)

Section Adapter.
Context `{UnitreeLink}.
Implicit Types (a : Adapter) (l : Link).

(** A velocity that may be requested. *)
Definition within (r : SdkRequest) : Prop :=
  match r with ReqMove vx vy omega => IsValidVelocity vx vy omega = true | _ => True end.

(** A request that an adapter with the configuration may make. *)
Definition permitted (c : RobotConfig) (r : SdkRequest) : Prop :=
  match r with
  | ReqMove vx vy omega => IsValidVelocity vx vy omega = true
  | ReqInitialize x => x = ToSdkConfiguration c ∧ Result_Succeeded (ValidateConfig c) = true
  | _ => True
  end.

Definition adapter_ok (c : RobotConfig) (injected : bool) a l : Prop :=
  config_ a = c ∧ Forall (permitted c) (requests l) ∧
  (adapter_connected_ a = true → adapter_initialized_ a = true ∧ is_Some (adapter_client_ a)) ∧
  (Result_Succeeded (ValidateConfig c) = false → injected = false → adapter_client_ a = None ∧ requests l = []).

Lemma send_exact r l :
  (send r l).1 = (sdk_request r (link_world l)).1 ∧ requests (send r l).2 = requests l ++ [r].
Proof. unfold send. by destruct (sdk_request r (link_world l)). Qed.

Lemma adapter_request_exact r l :
  (adapter_request r l).1 = ToAdapterResult (sdk_request r (link_world l)).1 ∧
  requests (adapter_request r l).2 = requests l ++ [r].
Proof.
  unfold adapter_request. destruct (send_exact r l) as [H1 H2]. destruct (send r l) as [x l']. simpl in *. by rewrite H1.
Qed.

(** A request by an adapter with a client. *)
Lemma request_ok r c injected a a' l :
  permitted c r → is_Some (adapter_client_ a) → config_ a' = config_ a → adapter_client_ a' = adapter_client_ a →
  (adapter_connected_ a' = true → adapter_initialized_ a' = true) →
  adapter_ok c injected a l → adapter_ok c injected a' (adapter_request r l).2.
Proof.
  intros Hw [x Hx] Hc Hcl Hcon (H1 & H2 & H3 & H4). destruct (adapter_request_exact r l) as [_ Hr]. split_and!.
  - congruence.
  - rewrite Hr, Forall_app. by repeat constructor.
  - intros Hk%Hcon. split; [done|]. rewrite Hcl. by exists x.
  - intros Hv Hi. destruct (H4 Hv Hi) as [Hn _]. congruence.
Qed.

Lemma MarkFailureIfNeeded_fields r a :
  config_ (MarkFailureIfNeeded r a) = config_ a ∧ adapter_client_ (MarkFailureIfNeeded r a) = adapter_client_ a ∧
  adapter_initialized_ (MarkFailureIfNeeded r a) = adapter_initialized_ a ∧
  adapter_connected_ (MarkFailureIfNeeded r a) = adapter_connected_ a && Result_Succeeded r.
Proof. unfold MarkFailureIfNeeded. destruct (Result_Succeeded r); by rewrite ?andb_true_r, ?andb_false_r. Qed.

Lemma client_command_ok r c injected a l :
  permitted c r → adapter_ok c injected a l →
  adapter_ok c injected (client_command r a l).1.2 (client_command r a l).2.
Proof.
  intros Hw Ha. unfold client_command. destruct (adapter_client_ a) as [x|] eqn:Ex; [|done].
  pose proof (λ a', request_ok r c injected a a' l Hw) as Hr. destruct (adapter_request r l) as [answer l']. simpl in *.
  destruct (MarkFailureIfNeeded_fields answer a) as (H1 & H2 & H3 & H4). apply Hr; try done.
  rewrite H3, H4. intros [Hc _]%andb_true_iff. by apply Ha.
Qed.

Lemma Adapter_Move_ok vx vy omega c injected a l :
  adapter_ok c injected a l → adapter_ok c injected (Adapter_Move vx vy omega a l).1.2 (Adapter_Move vx vy omega a l).2.
Proof.
  intros Ha. unfold Adapter_Move. destruct (IsValidVelocity vx vy omega) eqn:Ev; [|done]. by apply client_command_ok.
Qed.

Lemma Adapter_EmergencyStop_ok c injected a l :
  adapter_ok c injected a l → adapter_ok c injected (Adapter_EmergencyStop a l).1.2 (Adapter_EmergencyStop a l).2.
Proof.
  intros Ha. unfold Adapter_EmergencyStop. destruct (adapter_client_ a) as [x|] eqn:Ex; [|done].
  pose proof (λ a', request_ok ReqEmergencyStop c injected a a' l I) as Hr.
  destruct (adapter_request ReqEmergencyStop l) as [answer l']. simpl in *. by apply Hr.
Qed.

Lemma Adapter_ExecuteCommand_ok cmd c injected a l :
  adapter_ok c injected a l → adapter_ok c injected (Adapter_ExecuteCommand cmd a l).1.2 (Adapter_ExecuteCommand cmd a l).2.
Proof.
  intros Ha. assert (Hk : ∀ x : UnitreeTypes.Result * Adapter * Link,
    adapter_ok c injected x.1.2 x.2 → adapter_ok c injected (answer x).1.2 (answer x).2) by (by intros [[r a'] l']).
  unfold Adapter_ExecuteCommand. destruct (type cmd); try done; apply Hk;
    first [apply Adapter_Move_ok|apply Adapter_EmergencyStop_ok|apply client_command_ok]; done.
Qed.

Lemma Adapter_Initialize_ok construction c injected a l :
  adapter_ok c injected a l →
  adapter_ok c injected (Adapter_Initialize construction a l).1.2 (Adapter_Initialize construction a l).2.
Proof.
  intros Ha. unfold Adapter_Initialize. destruct (Result_Succeeded (ValidateConfig (config_ a))) eqn:Ev; [|done].
  destruct Ha as (H1 & H2 & H3 & H4).
  assert (Hx : ∀ x, let '(r, x, l') := Wrapper_Initialize (config_ a) x (if state_manager_ a then Wrapper_SetRobotStateManager true l else l) in
    let a' := a <| adapter_client_ := Some x |> in
    adapter_ok c injected (if Result_Succeeded r then a' <| adapter_initialized_ := true |> <| adapter_connected_ := false |>
      else MarkFailureIfNeeded r a') l').
  { intros x. unfold Wrapper_Initialize. set (l1 := if state_manager_ a then _ else _).
    assert (Hl1 : Forall (permitted c) (requests l1)).
    { unfold l1. destruct (state_manager_ a); [|done]. unfold Wrapper_SetRobotStateManager.
      rewrite (proj2 (send_exact _ l)), Forall_app. by repeat constructor. }
    destruct (adapter_request_exact (ReqInitialize (ToSdkConfiguration (config_ a))) l1) as [_ Hr].
    destruct (adapter_request _ l1) as [r l']. simpl in Hr. unfold MarkFailureIfNeeded.
    destruct (Result_Succeeded r); split_and!; simpl; try done; try congruence;
      try (rewrite Hr, Forall_app, Forall_singleton; split; [done|]; simpl; by rewrite <-H1). }
  destruct (adapter_client_ a) as [x|].
  - specialize (Hx x). destruct (Wrapper_Initialize _ _ _) as [[r x'] l']. exact Hx.
  - destruct construction as [[]|what|].
    + specialize (Hx new_LocoClientWrapper). destruct (Wrapper_Initialize _ _ _) as [[r x'] l']. exact Hx.
    + split_and!; simpl; try done; congruence.
    + split_and!; simpl; try done; congruence.
Qed.

Lemma adapter_op_ok op c injected a l :
  adapter_ok c injected a l → adapter_ok c injected (adapter_op op a l).1 (adapter_op op a l).2.
Proof.
  intros Ha. destruct op; simpl.
  - pose proof (Adapter_Initialize_ok construction c injected a l Ha) as Hk. by destruct (Adapter_Initialize _ a l) as [[r a'] l'].
  - unfold Adapter_Connect. destruct (adapter_client_ a) as [x|] eqn:Ex; [|done].
    pose proof (request_ok ReqConnect c injected a a l I ltac:(by eexists) eq_refl eq_refl) as H1.
    destruct (adapter_request ReqConnect l) as [r l1]. simpl in H1.
    unfold Wrapper_StartCommunication. set (req := ReqStartCommunication _).
    pose proof (λ a', request_ok req c injected a a' l1 I) as H2.
    destruct (adapter_request req l1) as [r2 l2]. simpl in H2. unfold MarkFailureIfNeeded.
    generalize (if Result_Succeeded r && negb (Result_Succeeded r2) then r2 else r). intros rr.
    destruct (Result_Succeeded rr); simpl; apply H2; try done; try (apply H1; [apply Ha|done]); by eexists.
  - unfold Adapter_Disconnect. destruct (adapter_client_ a) as [x|] eqn:Ex; [|done].
    pose proof (λ a', request_ok ReqDisconnect c injected a a' l I) as Hr.
    destruct (adapter_request ReqDisconnect l) as [r l']. simpl in Hr. unfold MarkFailureIfNeeded.
    destruct (Result_Succeeded r); simpl; apply Hr; try done; by eexists.
  - unfold Adapter_Shutdown. destruct (adapter_client_ a) as [x|] eqn:Ex.
    + pose proof (λ a', request_ok ReqShutdown c injected a a' l I) as Hr.
      destruct (adapter_request ReqShutdown l) as [r l']. simpl in *. by apply Hr; try done.
    + destruct Ha as (H1 & H2 & H3 & H4). split_and!; simpl; try done.
  - pose proof (client_command_ok ReqStandUp c injected a l I Ha) as Hk. unfold Adapter_StandUp. by destruct (client_command _ a l) as [[r a'] l'].
  - pose proof (client_command_ok ReqSit c injected a l I Ha) as Hk. unfold Adapter_Sit. by destruct (client_command _ a l) as [[r a'] l'].
  - pose proof (client_command_ok ReqBalanceStand c injected a l I Ha) as Hk. unfold Adapter_BalanceStand.
    by destruct (client_command _ a l) as [[r a'] l'].
  - pose proof (Adapter_Move_ok vx vy omega c injected a l Ha) as Hk. by destruct (Adapter_Move _ _ _ a l) as [[r a'] l'].
  - pose proof (client_command_ok ReqStop c injected a l I Ha) as Hk. unfold Adapter_Stop. by destruct (client_command _ a l) as [[r a'] l'].
  - pose proof (Adapter_EmergencyStop_ok c injected a l Ha) as Hk. by destruct (Adapter_EmergencyStop a l) as [[r a'] l'].
  - pose proof (Adapter_ExecuteCommand_ok c0 c injected a l Ha) as Hk. by destruct (Adapter_ExecuteCommand c0 a l) as [[r a'] l'].
  - unfold Adapter_Update. destruct (adapter_client_ a) as [x|] eqn:Ex; [|done].
    pose proof (request_ok ReqSynchronizeState c injected a a l I ltac:(by eexists) eq_refl eq_refl) as Hr.
    destruct (adapter_request ReqSynchronizeState l) as [r l']. simpl in *. apply Hr; [apply Ha|done].
Qed.

Lemma adapter_ops_ok ops c injected a l :
  adapter_ok c injected a l → adapter_ok c injected (adapter_ops ops a l).1 (adapter_ops ops a l).2.
Proof.
  revert a l. induction ops as [|op ops IH]; intros a l Ha; simpl; [done|].
  pose proof (adapter_op_ok op c injected a l Ha) as Hk. destruct (adapter_op op a l) as [a' l']. by apply IH.
Qed.

(** A configuration with which the adapter works. *)
Definition config_ok (c : RobotConfig) : Prop :=
  UnitreeAdapter.vendor c = "Unitree" ∧ model c = "G1" ∧ address_text (chars_of (ip c)) ∧
  config_network_interface c ≠ "" ∧ 0 < config_timeout c.

Lemma ValidateConfig_exact c : Result_Succeeded (ValidateConfig c) = true ↔ config_ok c.
Proof.
  unfold ValidateConfig, config_ok. rewrite <-IsValidIpv4Address_exact.
  destruct (bool_decide_reflect (UnitreeAdapter.vendor c = "Unitree")); simpl; [|by split; [|intros (? & _)]].
  destruct (bool_decide_reflect (model c = "G1")); simpl; [|by split; [|intros (_ & ? & _)]].
  destruct (IsValidIpv4Address _); simpl; [|by split; [|intros (_ & _ & ? & _)]].
  destruct (bool_decide_reflect (config_network_interface c = "")); simpl; [by split; [|intros (_ & _ & _ & ? & _)]|].
  destruct (Z.leb_spec (config_timeout c) 0); simpl; [split; [done|lia]|by split].
Qed.

(** A finite number of at most [limit] in magnitude. *)
Definition limited (limit f : float32) : Prop := isfinite f = true ∧ SFleb (SFabs f) limit = true.

Definition three_halves : float32 := SFdiv 24 128 (float32_of_Z 3) (float32_of_Z 2).

Lemma IsValidVelocity_exact vx vy omega :
  IsValidVelocity vx vy omega = true ↔
  limited three_halves vx ∧ limited three_halves vy ∧ limited (float32_of_Z 2) omega.
Proof.
  assert (E : kMaxLinearVelocity = three_halves) by (vm_compute; reflexivity).
  unfold IsValidVelocity, limited. rewrite !andb_true_iff, E. tauto.
Qed.

(** C4: Whatever operations are called on an adapter, commands included, every
    velocity it requests is finite and at most 1.5 in either direction and 2 in
    turning; it initializes its client only with its own configuration, and only if
    that is valid; if it is not, an adapter that was not given a client requests
    nothing at all; and it reports a connection only when it is initialized. *)
Theorem adapter_requests_safe ops c client state_manager w :
  let '(a, l) := adapter_ops ops (new_Adapter c client state_manager) (mkLink w []) in
  (∀ vx vy omega, ReqMove vx vy omega ∈ requests l →
     limited three_halves vx ∧ limited three_halves vy ∧ limited (float32_of_Z 2) omega) ∧
  (∀ x, ReqInitialize x ∈ requests l → config_ok c ∧ x = ToSdkConfiguration c) ∧
  (¬ config_ok c → client = None → requests l = []) ∧
  (Adapter_IsConnected a = true → adapter_initialized_ a = true).
Proof.
  assert (Ha : adapter_ok c (bool_decide (is_Some client)) (new_Adapter c client state_manager) (mkLink w [])).
  { split_and!; try done. intros _ Hn%bool_decide_eq_false. split; [|done]. simpl.
    destruct client; [by destruct Hn; eexists|done]. }
  apply (adapter_ops_ok ops) in Ha. destruct (adapter_ops ops _ _) as [a l]. destruct Ha as (H1 & H2 & H3 & H4).
  split_and!.
  - intros vx vy omega Hin. rewrite Forall_forall in H2. apply IsValidVelocity_exact. exact (H2 _ Hin).
  - intros x Hin. rewrite Forall_forall in H2. destruct (H2 _ Hin) as [-> Hv]. by rewrite <-ValidateConfig_exact.
  - intros Hv ->. apply H4; [|done]. rewrite <-ValidateConfig_exact in Hv. by apply not_true_is_false.
  - intros Hc. by apply H3.
Qed.

(* ------------------------------------------------------------------ *)
(** ** Commands that the dispatcher admits *)

(** The float of an admitted number. *)
Definition payload_float (v : CommandPayloadValue) : float32 :=
  match v with
  | PayloadDouble d => cast_float d
  | PayloadInt i => cast_float (double_of_int64 i)
  | _ => cast_float (S754_zero false)
  end.

(** The request that a command stands for. *)
Inductive commands (c : Command) : SdkRequest → Prop :=
  | commands_stand : type c = TypeStand → commands c ReqStandUp
  | commands_sit : type c = TypeSit → commands c ReqSit
  | commands_stop : type c = TypeStop → commands c ReqStop
  | commands_emergency_stop : type c = TypeEmergencyStop → commands c ReqEmergencyStop
  | commands_velocity x y z :
      type c ∈ [TypeWalk; TypeMove; TypeVelocity] →
      payload c = {[ "linear_x" := x; "linear_y" := y; "angular_z" := z ]} →
      commands c (ReqMove (payload_float x) (payload_float y) (payload_float z))
  | commands_rotate z :
      type c = TypeRotate → payload c = {[ "angular_z" := z ]} →
      commands c (ReqMove (float32_of_Z 0) (float32_of_Z 0) (payload_float z)).

(** What the adapter does with a request that is within its limits. *)
Definition delivered (c : Command) a l req : Prop :=
  let '(r, a', l') := Adapter_ExecuteCommand c a l in
  let answer := (sdk_request req (link_world l)).1 in
  requests l' = requests l ++ [req] ∧ message r = sdk_message answer ∧
  (status r = StatusCompleted ↔ Succeeded answer = true) ∧
  (status r = StatusTimeout ↔ sdk_code answer = SdkTimeout) ∧
  (adapter_connected_ a' = true →
     adapter_connected_ a = true ∧ Succeeded answer = true ∧ req ≠ ReqEmergencyStop).

Lemma to_command_result (x : SdkResult) :
  let r := ToCommandResult (ToAdapterResult x) in
  message r = sdk_message x ∧ (status r = StatusCompleted ↔ Succeeded x = true) ∧
  (status r = StatusTimeout ↔ sdk_code x = SdkTimeout) ∧ Result_Succeeded (ToAdapterResult x) = Succeeded x.
Proof. destruct x as [[] m]; by split_and!. Qed.

Lemma delivers c a l req :
  is_Some (adapter_client_ a) → req ≠ ReqEmergencyStop →
  Adapter_ExecuteCommand c a l = answer (client_command req a l) → delivered c a l req.
Proof.
  intros [x Hx] Hn E. unfold delivered, client_command in *. rewrite E, Hx.
  destruct (adapter_request_exact req l) as [H1 H2]. destruct (adapter_request req l) as [r l']. simpl in *. subst r.
  destruct (to_command_result (sdk_request req (link_world l)).1) as (T1 & T2 & T3 & T4).
  destruct (MarkFailureIfNeeded_fields (ToAdapterResult (sdk_request req (link_world l)).1) a) as (_ & _ & _ & H5).
  split_and!; try done. rewrite H5, T4. intros [??]%andb_true_iff. done.
Qed.

Lemma number_of c key v : payload c !! key = Some v → number c key = payload_float v.
Proof. intros Hv. unfold number, NumericPayloadValue. rewrite Hv. by destruct v. Qed.

(** What the adapter does with a command depends on its request. *)
Lemma commands_execute c req a l :
  commands c req →
  Adapter_ExecuteCommand c a l =
    match req with
    | ReqMove vx vy omega => answer (Adapter_Move vx vy omega a l)
    | ReqEmergencyStop => answer (Adapter_EmergencyStop a l)
    | _ => answer (client_command req a l)
    end.
Proof.
  intros [Ht|Ht|Ht|Ht|x y z Ht Hp|z Ht Hp]; unfold Adapter_ExecuteCommand; try by rewrite Ht.
  - rewrite (number_of c "linear_x" x), (number_of c "linear_y" y), (number_of c "angular_z" z) by (by rewrite Hp).
    rewrite !elem_of_cons, elem_of_nil in Ht. by destruct Ht as [Ht|[Ht|[Ht|[]]]]; rewrite Ht.
  - by rewrite (number_of c "angular_z" z), Ht by (by rewrite Hp).
Qed.

Lemma commands_unique c req req' : commands c req → commands c req' → req = req'.
Proof.
  assert (Hn : ∀ x y z x' y' z' : CommandPayloadValue,
    ({[ "linear_x" := x; "linear_y" := y; "angular_z" := z ]} : gmap string CommandPayloadValue) =
    {[ "linear_x" := x'; "linear_y" := y'; "angular_z" := z' ]} → x = x' ∧ y = y' ∧ z = z').
  { intros x y z x' y' z' E. pose proof (f_equal (lookup "linear_x") E) as E1.
    pose proof (f_equal (lookup "linear_y") E) as E2. pose proof (f_equal (lookup "angular_z") E) as E3.
    by simplify_map_eq. }
  intros [Ht|Ht|Ht|Ht|x y z Ht Hp|z Ht Hp] [Ht'|Ht'|Ht'|Ht'|x' y' z' Ht' Hp'|z' Ht' Hp']; try congruence;
    try (match goal with H1 : type c = _, H2 : type c ∈ _ |- _ =>
           rewrite H1, !elem_of_cons, elem_of_nil in H2; by destruct H2 as [|[|[|[]]]] end).
  - rewrite Hp in Hp'. by destruct (Hn _ _ _ _ _ _ Hp') as (-> & -> & ->).
  - rewrite Hp in Hp'. pose proof (f_equal (lookup "angular_z") Hp') as E. by simplify_map_eq.
Qed.

Lemma emergency_stop_delivered c a l :
  is_Some (adapter_client_ a) → Adapter_ExecuteCommand c a l = answer (Adapter_EmergencyStop a l) →
  delivered c a l ReqEmergencyStop.
Proof.
  intros [x Hx] E. unfold delivered, Adapter_EmergencyStop in *. rewrite E, Hx.
  destruct (adapter_request_exact ReqEmergencyStop l) as [H1 H2].
  destruct (adapter_request ReqEmergencyStop l) as [r l']. simpl in *. subst r.
  destruct (to_command_result (sdk_request ReqEmergencyStop (link_world l)).1) as (T1 & T2 & T3 & _). by split_and!.
Qed.

(** A command that stands for a request. *)
Lemma commanded c a l req :
  commands c req → is_Some (adapter_client_ a) →
  (within req ∧ delivered c a l req) ∨
  (¬ within req ∧ ∃ m, Adapter_ExecuteCommand c a l = (mkResult StatusFailed m, a, l)).
Proof.
  intros Hc Hx. pose proof (commands_execute c req a l Hc) as He.
  destruct req; try (left; split; [exact I|first [by apply delivers|by apply emergency_stop_delivered]]).
  simpl. unfold Adapter_Move in He. destruct (IsValidVelocity vx vy omega) eqn:Ev.
  - left. split; [done|]. by apply delivers.
  - right. split; [done|]. eexists. by rewrite He.
Qed.

(** The commands that no request of this adapter serves. *)
Definition unsupported : list CommandType :=
  [TypeHandOpen; TypeHandClose; TypeMuteAudio; TypeGesture; TypePlayAudio; TypeStopAudio; TypeSetVolume; TypeCustom].

Lemma admitted_cases c :
  payload_ok (type c) (payload c) → (∃ req, commands c req) ∨ type c ∈ unsupported.
Proof.
  intros Hp. remember (type c) as t eqn:Et. remember (payload c) as p eqn:Ep. symmetry in Et, Ep.
  destruct Hp as [t Ht|t x y z Ht| | | | | |]; try (right; repeat (left || right); fail).
  - rewrite !elem_of_cons, elem_of_nil in Ht. destruct Ht as [->|[->|[->|[->|[->|[->|[->|[]]]]]]]];
      first [left; eexists; by constructor|right; repeat (left || right)].
  - left. eexists. eapply commands_velocity; [by rewrite Et|done].
  - left. eexists. by eapply commands_rotate.
Qed.

(** C34: A command with parameters that the dispatcher admits makes an adapter
    with a client request exactly what it stands for and answer as the robot does;
    a velocity outside of the adapter's limits, and a command for hands or audio, is
    refused and nothing is requested. *)
Theorem admitted_command_delivered c a l :
  ValidatePayload c = None → is_Some (adapter_client_ a) →
  (∃ req, commands c req ∧ within req ∧ delivered c a l req) ∨
  ((∀ req, commands c req → ¬ within req) ∧
   let '(r, a', l') := Adapter_ExecuteCommand c a l in
   status r ∈ [StatusRejected; StatusFailed] ∧ a' = a ∧ l' = l).
Proof.
  intros Hp%ValidatePayload_accepts Hx.
  destruct (admitted_cases c Hp) as [[req Hc]|Ht].
  - destruct (commanded c a l req Hc Hx) as [[Hw Hd]|[Hw [m E]]]; [left; by exists req|right].
    split; [intros req' Hc'; by rewrite (commands_unique c req' req)|]. rewrite E. split; [right; left|done].
  - right. unfold unsupported in Ht. split.
    + intros req [Ht'|Ht'|Ht'|Ht'|x y z Ht' _|z Ht' _] _; revert Ht; rewrite ?Ht', !elem_of_cons, elem_of_nil;
        try (intuition discriminate). rewrite !elem_of_cons, elem_of_nil in Ht'.
      destruct Ht' as [->|[->|[->|[]]]]; intuition discriminate.
    + unfold Adapter_ExecuteCommand. rewrite !elem_of_cons, elem_of_nil in Ht.
      destruct Ht as [Ht|[Ht|[Ht|[Ht|[Ht|[Ht|[Ht|[Ht|[]]]]]]]]]; rewrite Ht; (split; [left|done]).
Qed.
End Adapter.

(* ------------------------------------------------------------------ *)
(** ** Witness *)

(** An SDK layer that does everything. *)
Definition sample_link : UnitreeLink := {|
  LinkWorld := ();
  sdk_request _ w := (mkSdkResult SdkSuccess "done", w);
  link_state _ := default_SdkRobotState;
  link_connected _ := true;
|}.

Definition sample_walk : Command :=
  default_Command <| type := TypeWalk |>
    <| payload := {[ "linear_x" := PayloadInt 1; "linear_y" := PayloadInt 0; "angular_z" := PayloadInt 2 ]} |>.

Definition sample_config : RobotConfig := mkRobotConfig "Unitree" "G1" "192.168.123.161" "eth0" 0 500 "" "".

Definition sample_adapter : Adapter := new_Adapter sample_config (Some new_LocoClientWrapper) false.

Lemma sample_walk_admitted : ValidatePayload sample_walk = None.
Proof. vm_compute. reflexivity. Qed.

Lemma admitted_command_delivered_witness :
  ∃ req, commands sample_walk req ∧ within req ∧
    delivered (H := sample_link) sample_walk sample_adapter (mkLink (H := sample_link) tt []) req.
Proof.
  destruct (admitted_command_delivered (H := sample_link) sample_walk sample_adapter (mkLink (H := sample_link) tt [])
    sample_walk_admitted (ex_intro _ _ eq_refl)) as [Hd|[Hn _]]; [exact Hd|].
  exfalso. refine (Hn _ (commands_velocity sample_walk (PayloadInt 1) (PayloadInt 0) (PayloadInt 2) _ eq_refl) _).
  - change (type sample_walk) with TypeWalk. left.
  - vm_compute. reflexivity.
Defined.

(** An adapter that was given a client takes a connection for an initialization:
    with a configuration that [Initialize] refuses it is connected, and the robot
    stands up. *)
Example connected_unvalidated :
  let refused := mkRobotConfig "Unitree" "G1" "somewhere" "eth0" 0 500 "" "" in
  let '(a, l) := adapter_ops (H := sample_link) [OpInitialize (Value ()); OpConnect; OpStandUp]
    (new_Adapter refused (Some new_LocoClientWrapper) false) (mkLink (H := sample_link) tt []) in
  Result_Succeeded (ValidateConfig refused) = false ∧ adapter_initialized_ a = true ∧
  last (requests (H := sample_link) l) = Some ReqStandUp.
Proof. by vm_compute. Qed.
