(* ===== verification/UnitreePlugin.v ===== *)
(** * The adapter of the Unitree G1 plugin

    plugins/unitree/g1/src/UnitreeG1Adapter.cpp, built with the SDK: an adapter of
    the robot, its hands and its audio, whose operations hold the mutex only in
    parts.  A part is what an operation
    does up to the end of one section under the mutex. *)

From Stdlib Require Import Ascii SpecFloat.
From S2P Require Import Prelude Command RobotState SafetyValidator CommandValidation Text Status Planner UnitreeTypes SdkClients UnitreeAdapter.

Open Scope Z_scope.

(* ------------------------------------------------------------------ *)
(** ** Conversions *)

Definition Sdk_ToStatus (r : SdkResult) : Status :=
  match sdk_code r with
  | SdkSuccess => Ok
  | SdkNotAvailable | SdkConnectionFailed | SdkTimeout => error kUnavailable (sdk_message r)
  | SdkRobotFault => error kFailedPrecondition (sdk_message r)
  | SdkUnknown => error kInternalError (sdk_message r)
  end.

Definition Sdk_ToCommandResult (r : SdkResult) : CommandResult :=
  mkResult
    (match sdk_code r with
     | SdkSuccess => StatusCompleted
     | SdkTimeout => StatusTimeout
     | SdkConnectionFailed | SdkNotAvailable => StatusRejected
     | SdkRobotFault | SdkUnknown => StatusFailed
     end) (sdk_message r).

Definition StringPayload (c : Command) (key : string) : option string :=
  match payload c !! key with Some (PayloadString s) => Some s | _ => None end.

Definition ToGesture (gesture : string) : option SdkHandGesture :=
  let named s := bool_decide (gesture = s) in
  if named "hands_up" || named "HandsUp" then Some HandsUp
  else if named "clap" || named "Clap" then Some Clap
  else if named "high_five" || named "HighFive" then Some HighFive
  else if named "hug" || named "Hug" then Some Hug
  else if named "heart" || named "Heart" then Some Heart
  else if named "reject" || named "Reject" then Some Reject
  else if named "wave" || named "Wave" then Some Wave
  else if named "shake_hand" || named "ShakeHand" then Some ShakeHand
  else None.

(** [static_cast<std::uint8_t>] of a double is undefined out of range. *)
Definition cast_uint8 (d : spec_float) : option Z :=
  match d with
  | S754_infinity _ | S754_nan => None
  | _ => let z := truncate d in if (0 <=? z) && (z <? 256) then Some z else None
  end.

Section Plugin.
Context `{UnitreeLink}.

(* ------------------------------------------------------------------ *)
(** ** The adapter *)

(** [updates] has the states given to the state manager so far, which the code
    does not keep. *)
Record G1 := mkG1 {
  g1_configuration_ : SdkConfiguration;
  g1_state_manager_ : bool;
  g1_latest_state_ : RobotState;
  g1_initialized_ : bool;
  g1_connected_ : bool;
  hand_available_ : bool;
  audio_available_ : bool;
  updates : list RobotState;
}.

#[export] Instance eta_G1 : EtaRecord G1 := fun a =>
  mkG1 (g1_configuration_ a) (g1_state_manager_ a) (g1_latest_state_ a) (g1_initialized_ a) (g1_connected_ a)
    (hand_available_ a) (audio_available_ a) (updates a).

Definition new_G1 (c : SdkConfiguration) (state_manager : bool) : G1 :=
  mkG1 c state_manager default_RobotState false false false false [].

(** [state_manager_->UpdateState], if there is one. *)
Definition update_manager (a : G1) : G1 :=
  if g1_state_manager_ a then a <| updates ::= λ l, l ++ [g1_latest_state_ a] |> else a.

(** The callback that the adapter gives to the SDK layer. *)
Definition StateUpdated (state : RobotState) (a : G1) : G1 := update_manager (a <| g1_latest_state_ := state |>).

Definition G1_Initialize (a : G1) (l : Link) : Status * G1 * Link :=
  if g1_initialized_ a then (Ok, a, l)
  else
    let l := (send (ReqSetStateUpdateCallback true) l).2 in
    let '(loco, l) := send (ReqInitialize (g1_configuration_ a)) l in
    if negb (Succeeded loco) then (Sdk_ToStatus loco, a, l)
    else
      let '(hand, l) := send (ReqHandInitialize (g1_configuration_ a)) l in
      let '(audio, l) := send (ReqAudioInitialize (g1_configuration_ a)) l in
      (Ok, a <| hand_available_ := Succeeded hand |> <| audio_available_ := Succeeded audio |>
             <| g1_initialized_ := true |>, l).

Definition G1_Shutdown (a : G1) (l : Link) : Status * G1 * Link :=
  let l := (send ReqShutdown l).2 in
  let l := (send ReqHandShutdown l).2 in
  let l := (send ReqAudioShutdown l).2 in
  (Ok, a <| g1_initialized_ := false |> <| g1_connected_ := false |> <| hand_available_ := false |>
         <| audio_available_ := false |> <| g1_latest_state_ := default_RobotState |>, l).

Definition G1_not_initialized : Status := FailedPrecondition "Unitree G1 adapter is not initialized".

(** [Connect], first part: [None] if it goes on. *)
Definition Connect_check (a : G1) : option Status :=
  if negb (g1_initialized_ a) then Some G1_not_initialized else None.

(** Second part: an error, or which of hand and audio are available. *)
Definition Connect_robot (a : G1) (l : Link) : (Status + bool * bool) * G1 * Link :=
  let '(r, l) := send ReqConnect l in
  if negb (Succeeded r) then (inl (Sdk_ToStatus r), a <| g1_connected_ := false |>, l)
  else
    let '(r, l) := send (ReqStartCommunication (communication_options (sdk_timeout (g1_configuration_ a)))) l in
    if negb (Succeeded r) then (inl (Sdk_ToStatus r), a <| g1_connected_ := false |>, l)
    else (inr (hand_available_ a, audio_available_ a), a, l).

(** A client is only asked to connect if it is available. *)
Definition connect_if (available : bool) (r : SdkRequest) (l : Link) : bool * Link :=
  if available then let '(answer, l) := send r l in (Succeeded answer, l) else (false, l).

(** Last part. *)
Definition Connect_clients (hand audio : bool) (a : G1) (l : Link) : Status * G1 * Link :=
  let '(hand_connected, l) := connect_if hand ReqHandConnect l in
  let '(audio_connected, l) := connect_if audio ReqAudioConnect l in
  let state := ToCoreRobotState (link_state (link_world l)) in
  (Ok, update_manager
         (a <| hand_available_ := hand_connected |> <| audio_available_ := audio_connected |>
            <| g1_connected_ := true |> <| g1_latest_state_ := state <| connection := mkConnection true |> |>), l).

Definition G1_Disconnect (a : G1) (l : Link) : Status * G1 * Link :=
  let '(r, l) := send ReqDisconnect l in
  (Sdk_ToStatus r,
   update_manager (a <| g1_connected_ := false |>
                     <| g1_latest_state_ ::= λ s, s <| connection := mkConnection false |> |>), l).

(** [Update], after its check, which is [Connect_check]. *)
Definition Update_state (a : G1) (l : Link) : Status * G1 * Link :=
  let '(r, l) := send ReqSynchronizeState l in
  let state := ToCoreRobotState (link_state (link_world l)) in
  (Sdk_ToStatus r,
   update_manager (a <| g1_latest_state_ := state <| connection := mkConnection (link_connected (link_world l)) |> |>), l).

Definition G1_GetCommandCapabilities (a : G1) : CommandCapabilitySet :=
  SafetyValidator.mkCapabilities true true true true true true true true false false (hand_available_ a)
    (audio_available_ a) (audio_available_ a) (audio_available_ a) (audio_available_ a) false.

Definition G1_GetCapabilities : RobotCapabilities :=
  mkRobotCapabilities true true true true true true true true true.

Definition G1_GetRobotInformation (a : G1) : RobotInformation :=
  mkInformation "Unitree" "G1" "UnitreeG1PluginAdapter" (serial_number (g1_configuration_ a))
    (firmware_version (g1_configuration_ a)).

(* ------------------------------------------------------------------ *)
(** ** Commands *)

Definition rejected (m : string) : CommandResult := mkResult StatusRejected m.

(** What a command asks of the SDK layer, or why it is refused; [None] is
    undefined behaviour. *)
Definition ExecuteVelocity (c : Command) : CommandResult + SdkRequest :=
  match NumericPayloadValue (payload c) "linear_x", NumericPayloadValue (payload c) "linear_y",
        NumericPayloadValue (payload c) "angular_z" with
  | Some x, Some y, Some z => inr (ReqMove (cast_float x) (cast_float y) (cast_float z))
  | _, _, _ => inl (rejected "Velocity command payload is incomplete")
  end.

Definition ExecuteRotate (c : Command) : CommandResult + SdkRequest :=
  match NumericPayloadValue (payload c) "angular_z" with
  | Some z => inr (ReqMove (float32_of_Z 0) (float32_of_Z 0) (cast_float z))
  | None => inl (rejected "Rotate command payload is incomplete")
  end.

Definition ExecuteGesture (c : Command) : CommandResult + SdkRequest :=
  match StringPayload c "gesture" with
  | None => inl (rejected "Gesture command payload is incomplete")
  | Some name =>
      match ToGesture name with
      | None => inl (rejected "Gesture command is not supported by Unitree G1")
      | Some g => inr (ReqGesture g)
      end
  end.

(** The bytes of a string. *)
Definition bytes_of (s : string) : list Z := map Text.code (chars_of s).

Definition ExecutePlayAudio (c : Command) : CommandResult + SdkRequest :=
  match StringPayload c "app_name", StringPayload c "stream_id", StringPayload c "pcm_data" with
  | Some app, Some stream, Some pcm => inr (ReqPlay (mkPlayback app stream (bytes_of pcm)))
  | _, _, _ => inl (rejected "PlayAudio command payload is incomplete")
  end.

Definition ExecuteStopAudio (c : Command) : CommandResult + SdkRequest :=
  match StringPayload c "app_name" with
  | None => inl (rejected "StopAudio command payload is incomplete")
  | Some app => inr (ReqAudioStop app)
  end.

Definition ExecuteSetVolume (c : Command) : option (CommandResult + SdkRequest) :=
  let invalid := Some (inl (rejected "SetVolume command payload is invalid")) in
  match NumericPayloadValue (payload c) "volume" with
  | None => invalid
  | Some volume =>
      if SFltb volume (double_of_int64 0) || SFltb (double_of_int64 100) volume then invalid
      else match cast_uint8 volume with Some v => Some (inr (ReqSetVolume v)) | None => None end
  end.

Definition command_request (c : Command) : option (CommandResult + SdkRequest) :=
  match type c with
  | TypeStand => Some (inr ReqStandUp)
  | TypeSit => Some (inr ReqSit)
  | TypeWalk | TypeMove | TypeVelocity => Some (ExecuteVelocity c)
  | TypeRotate => Some (ExecuteRotate c)
  | TypeStop => Some (inr ReqStop)
  | TypeEmergencyStop => Some (inr ReqEmergencyStop)
  | TypeHandOpen => Some (inr ReqHandOpen)
  | TypeHandClose => Some (inr ReqHandClose)
  | TypeGesture => Some (ExecuteGesture c)
  | TypePlayAudio => Some (ExecutePlayAudio c)
  | TypeStopAudio => Some (ExecuteStopAudio c)
  | TypeSetVolume => ExecuteSetVolume c
  | TypeMuteAudio => Some (inr ReqMute)
  | TypeCustom => Some (inl (rejected "Custom commands are not enabled for Unitree G1"))
  | TypeRaw _ => Some (inl (rejected "Unknown command type"))
  end.

Definition G1_ExecuteCommand (c : Command) (a : G1) (l : Link) : option (CommandResult * G1 * Link) :=
  if negb (g1_initialized_ a) then Some (rejected "Unitree G1 adapter is not initialized", a, l)
  else match command_request c with
  | None => None
  | Some (inl r) => Some (r, a, l)
  | Some (inr req) =>
      let a := match type c with TypeEmergencyStop => a <| g1_connected_ := false |> | _ => a end in
      let '(answer, l) := send req l in
      Some (Sdk_ToCommandResult answer, a, l)
  end.

(* ------------------------------------------------------------------ *)
(** ** Threads *)

(** Where a thread is inside [Connect] or [Update]. *)
Inductive G1Pc := Connecting | ConnectingClients (hand audio : bool) | Updating.

Record G1State := mkG1State { adapter : G1; link : Link; g1_threads : gmap nat G1Pc }.

#[export] Instance eta_G1State : EtaRecord G1State := fun s => mkG1State (adapter s) (link s) (g1_threads s).

Inductive G1Label :=
  | G1Initializes | G1ShutsDown | G1Disconnects
  | G1Executes (c : Command)
  | G1ConnectBegins (t : nat) | G1ConnectsRobot (t : nat) | G1ConnectsClients (t : nat)
  | G1UpdateBegins (t : nat) | G1Updates (t : nat)
  | G1StateUpdated (state : RobotState).

Definition with_result (x : Status * G1 * Link) (s : G1State) : G1State :=
  let '(_, a, l) := x in s <| adapter := a |> <| link := l |>.

Definition g1_exec (label : G1Label) (s : G1State) : option G1State :=
  match label with
  | G1Initializes => Some (with_result (G1_Initialize (adapter s) (link s)) s)
  | G1ShutsDown => Some (with_result (G1_Shutdown (adapter s) (link s)) s)
  | G1Disconnects => Some (with_result (G1_Disconnect (adapter s) (link s)) s)
  | G1Executes c =>
      '(_, a, l) ← G1_ExecuteCommand c (adapter s) (link s);
      Some (s <| adapter := a |> <| link := l |>)
  | G1ConnectBegins t =>
      match g1_threads s !! t, Connect_check (adapter s) with
      | Some _, _ => None
      | None, Some _ => Some s
      | None, None => Some (s <| g1_threads ::= <[t := Connecting]> |>)
      end
  | G1ConnectsRobot t =>
      match g1_threads s !! t with
      | Some Connecting =>
          let '(r, a, l) := Connect_robot (adapter s) (link s) in
          Some (s <| adapter := a |> <| link := l |>
                  <| g1_threads ::= match r with
                                    | inl _ => delete t
                                    | inr (hand, audio) => <[t := ConnectingClients hand audio]>
                                    end |>)
      | _ => None
      end
  | G1ConnectsClients t =>
      match g1_threads s !! t with
      | Some (ConnectingClients hand audio) =>
          Some (with_result (Connect_clients hand audio (adapter s) (link s)) (s <| g1_threads ::= delete t |>))
      | _ => None
      end
  | G1UpdateBegins t =>
      match g1_threads s !! t, Connect_check (adapter s) with
      | Some _, _ => None
      | None, Some _ => Some s
      | None, None => Some (s <| g1_threads ::= <[t := Updating]> |>)
      end
  | G1Updates t =>
      match g1_threads s !! t with
      | Some Updating => Some (with_result (Update_state (adapter s) (link s)) (s <| g1_threads ::= delete t |>))
      | _ => None
      end
  | G1StateUpdated state => Some (s <| adapter ::= StateUpdated state |>)
  end.

Fixpoint g1_run (ls : list G1Label) (s : G1State) : option G1State :=
  match ls with
  | [] => Some s
  | label :: ls => s ← g1_exec label s; g1_run ls s
  end.
End Plugin.

(* ------------------------------------------------------------------ *)
(** ** What users of the plugin's adapter can rely on

    Commands that the dispatcher admits reach the SDK layer as what they stand for;
    and two behaviours that need not be meant. *)

(** The volumes that the dispatcher admits. *)
Lemma volume_cast v :
  0 <= v <= 100 →
  SFltb (double_of_int64 v) (double_of_int64 0) || SFltb (double_of_int64 100) (double_of_int64 v) = false ∧
  cast_uint8 (double_of_int64 v) = Some v.
Proof.
  intros Hv.
  assert (H : forallb (λ v, negb (SFltb (double_of_int64 v) (double_of_int64 0) || SFltb (double_of_int64 100) (double_of_int64 v)) &&
    bool_decide (cast_uint8 (double_of_int64 v) = Some v)) (seqZ 0 101) = true) by (vm_compute; reflexivity).
  rewrite forallb_forall in H. specialize (H v).
  apply andb_prop in H as [H1 H2]; [|apply list_elem_of_In, elem_of_seqZ; lia].
  split; [by apply negb_true_iff|by apply bool_decide_eq_true in H2].
Qed.

Section Plugin.
Context `{UnitreeLink}.
Implicit Types (a : G1) (l : Link).

(** The request that a command stands for: those of [commands], and those for
    hands and audio. *)
Inductive stands_for (c : Command) : SdkRequest → Prop :=
  | stands_motion req : commands c req → stands_for c req
  | stands_open : type c = TypeHandOpen → stands_for c ReqHandOpen
  | stands_close : type c = TypeHandClose → stands_for c ReqHandClose
  | stands_mute : type c = TypeMuteAudio → stands_for c ReqMute
  | stands_gesture name g :
      type c = TypeGesture → payload c = {[ "gesture" := PayloadString name ]} → ToGesture name = Some g →
      stands_for c (ReqGesture g)
  | stands_play app stream pcm :
      type c = TypePlayAudio → payload c !! "app_name" = Some (PayloadString app) →
      payload c !! "stream_id" = Some (PayloadString stream) → payload c !! "pcm_data" = Some (PayloadString pcm) →
      stands_for c (ReqPlay (mkPlayback app stream (bytes_of pcm)))
  | stands_stop_audio app :
      type c = TypeStopAudio → payload c = {[ "app_name" := PayloadString app ]} → stands_for c (ReqAudioStop app)
  | stands_volume v :
      type c = TypeSetVolume → payload c = {[ "volume" := PayloadInt v ]} → 0 <= v <= 100 →
      stands_for c (ReqSetVolume v).

(** The admitted commands that the robot does not know. *)
Definition unknown_command (c : Command) : Prop :=
  type c = TypeCustom ∨
  type c = TypeGesture ∧ ∃ name, payload c = {[ "gesture" := PayloadString name ]} ∧ ToGesture name = None.

Lemma number_payload (m : gmap string CommandPayloadValue) key v :
  m !! key = Some v → is_number v → ∃ d, NumericPayloadValue m key = Some d ∧ cast_float d = payload_float v.
Proof. unfold NumericPayloadValue. intros -> Hv. destruct v; try done; by eexists. Qed.

(** An admitted command is either known, or stands for the request that is
    made. *)
Lemma admitted_request c :
  payload_ok (type c) (payload c) →
  (∃ req, command_request c = Some (inr req) ∧ stands_for c req) ∨
  (∃ m, command_request c = Some (inl (rejected m)) ∧ unknown_command c).
Proof.
  intros Hp. remember (type c) as t eqn:Et. remember (payload c) as p eqn:Ep. symmetry in Et, Ep.
  unfold command_request. rewrite Et. destruct Hp as [t Ht|t x y z Ht Hx Hy Hz|z Hz|g|m app stream pcm H1 H2 H3|app|v Hv|m].
  - left. rewrite !elem_of_cons, elem_of_nil in Ht.
    destruct Ht as [->|[->|[->|[->|[->|[->|[->|[]]]]]]]]; (eexists; split; [done|]);
      first [by constructor|apply stands_motion; by constructor].
  - left. assert (Hc : commands c (ReqMove (payload_float x) (payload_float y) (payload_float z))).
    { eapply commands_velocity; [by rewrite Et|done]. }
    destruct (number_payload (payload c) "linear_x" x) as (dx & Ex & Fx); [by rewrite Ep|done|].
    destruct (number_payload (payload c) "linear_y" y) as (dy & Ey & Fy); [by rewrite Ep|done|].
    destruct (number_payload (payload c) "angular_z" z) as (dz & Ez & Fz); [by rewrite Ep|done|].
    eexists. split; [|by apply stands_motion].
    assert (ExecuteVelocity c = inr (ReqMove (payload_float x) (payload_float y) (payload_float z))) as <-.
    { unfold ExecuteVelocity. by rewrite Ex, Ey, Ez, Fx, Fy, Fz. }
    rewrite !elem_of_cons, elem_of_nil in Ht. by destruct Ht as [->|[->|[->|[]]]].
  - left. destruct (number_payload (payload c) "angular_z" z) as (dz & Ez & Fz); [by rewrite Ep|done|].
    eexists. split; [unfold ExecuteRotate; by rewrite Ez, Fz|]. apply stands_motion. by apply commands_rotate.
  - unfold ExecuteGesture, StringPayload. rewrite Ep, lookup_singleton_eq. destruct (ToGesture g) as [gesture|] eqn:Eg.
    + left. eexists. split; [done|]. by eapply stands_gesture.
    + right. eexists. split; [done|]. right. split; [done|]. by exists g.
  - left. unfold ExecutePlayAudio, StringPayload. subst m. rewrite H1, H2, H3.
    eexists. split; [done|]. by apply stands_play.
  - left. unfold ExecuteStopAudio, StringPayload. rewrite Ep, lookup_singleton_eq.
    eexists. split; [done|]. by apply stands_stop_audio.
  - left. unfold ExecuteSetVolume, NumericPayloadValue. rewrite Ep, lookup_singleton_eq.
    destruct (volume_cast v Hv) as [-> ->]. eexists. split; [done|]. by apply stands_volume.
  - right. eexists. split; [done|]. by left.
Qed.

(** C35: A command with parameters that the dispatcher admits makes an
    initialized adapter request exactly what it stands for, and answer as the SDK
    layer does; refused are only custom commands and gestures without a name that
    the robot knows, and nothing is requested for them. No conversion of a
    parameter is undefined. *)
Theorem plugin_command_delivered c a l :
  ValidatePayload c = None → g1_initialized_ a = true →
  ∃ r a' l', G1_ExecuteCommand c a l = Some (r, a', l') ∧
    ((∃ req, stands_for c req ∧ requests l' = requests l ++ [req] ∧
        r = Sdk_ToCommandResult (sdk_request req (link_world l)).1 ∧
        (type c = TypeEmergencyStop → g1_connected_ a' = false)) ∨
     (unknown_command c ∧ status r = StatusRejected ∧ a' = a ∧ l' = l)).
Proof.
  intros Hp%ValidatePayload_accepts Hi. unfold G1_ExecuteCommand. rewrite Hi. simpl.
  destruct (admitted_request c Hp) as [(req & -> & Hs)|(m & -> & Hu)].
  - destruct (send_exact req l) as [H1 H2]. destruct (send req l) as [x l']. simpl in *. subst x.
    do 3 eexists. split; [done|]. left. exists req. split_and!; try done. by intros ->.
  - do 3 eexists. split; [done|]. right. by split_and!.
Qed.
End Plugin.

(* ------------------------------------------------------------------ *)
(** ** Witness and examples *)

#[local] Existing Instance sample_link.

Definition idle_link : Link := mkLink (H := sample_link) tt [].

Definition ready_g1 : G1 := (new_G1 default_SdkConfiguration false) <| g1_initialized_ := true |>.

Definition sample_volume (v : CommandPayloadValue) : Command :=
  default_Command <| type := TypeSetVolume |> <| payload := {[ "volume" := v ]} |>.

Lemma sample_volume_admitted : ValidatePayload (sample_volume (PayloadInt 40)) = None.
Proof. vm_compute. reflexivity. Qed.

Lemma plugin_command_delivered_witness :
  ∃ r a' l', G1_ExecuteCommand (sample_volume (PayloadInt 40)) ready_g1 idle_link = Some (r, a', l') ∧
    ∃ req, stands_for (sample_volume (PayloadInt 40)) req ∧ requests l' = [req].
Proof.
  destruct (plugin_command_delivered (sample_volume (PayloadInt 40)) ready_g1 idle_link sample_volume_admitted eq_refl)
    as (r & a' & l' & E & [(req & Hs & Hr & _)|([Ht|[Ht _]] & _)]); [|discriminate Ht..].
  exists r, a', l'. split; [exact E|]. exists req. split; [exact Hs|exact Hr].
Defined.

(** A volume that is no number passes the comparisons with 0 and 100, and its
    conversion to an integer is undefined; the dispatcher refuses it. *)
Example volume_not_a_number :
  G1_ExecuteCommand (sample_volume (PayloadDouble S754_nan)) ready_g1 idle_link = None ∧
  ValidatePayload (sample_volume (PayloadDouble S754_nan)) ≠ None.
Proof. by vm_compute. Qed.

(** A shutdown while another thread connects leaves the adapter connected, but
    not initialized. *)
Example shutdown_while_connecting :
  match g1_run [G1Initializes; G1ConnectBegins 0; G1ConnectsRobot 0; G1ShutsDown; G1ConnectsClients 0]
          (mkG1State (new_G1 default_SdkConfiguration false) idle_link ∅) with
  | Some s => g1_connected_ (adapter s) = true ∧ g1_initialized_ (adapter s) = false
  | None => False
  end.
Proof. by vm_compute. Qed.
