(* ===== verification/RobotFactories.v ===== *)
(** * Robot factories and the Unitree G1 plugin

    src/factory/RobotFactoryRegistry.cpp with adapters/IRobotFactory.h, the
    factory of src/adapters/unitree/UnitreeRobotFactory.cpp, and the plugin of
    plugins/unitree/g1/src/UnitreeG1Plugin.cpp against the registry of [Plugins].
    The registry holds its mutex throughout each operation, as the plugin holds
    its own. *)

From S2P Require Import Prelude Status Plugins PluginProofs UnitreeTypes SdkClients UnitreeAdapter UnitreePlugin.

Open Scope Z_scope.

(* ------------------------------------------------------------------ *)
(** ** The interface of a factory *)

Record IRobotFactory (A : Type) := mkRobotFactory {
  Vendor : string;
  SupportedModels : list string;
  Supports : string → string → bool;
  CreateAdapter : RobotConfig → option A;
}.
Arguments Vendor {A} _.
Arguments SupportedModels {A} _.
Arguments Supports {A} _ _ _.
Arguments CreateAdapter {A} _ _.

Section Registry.
Context {A : Type}.
#[local] Notation Factory := (IRobotFactory A).
Implicit Types (f g : Factory) (r : list (option Factory)).

(* ------------------------------------------------------------------ *)
(** ** The registry *)

(** A null pointer is [None]. *)
Definition RegisterFactory (factory : option Factory) r : UnitreeTypes.Result * list (option Factory) :=
  match factory with
  | None => (Adapter_Failure AdapterUnknown "robot factory is null", r)
  | Some f =>
      let duplicate registered :=
        match registered with
        | None => false
        | Some g => existsb (Supports g (Vendor f)) (SupportedModels f)
        end in
      if existsb duplicate r then (Adapter_Failure AdapterUnknown "robot factory is already registered", r)
      else (Adapter_Success "robot factory registered", r ++ [factory])
  end.

Definition supporting (vendor model : string) (factory : option Factory) : option Factory :=
  f ← factory; if Supports f vendor model then Some f else None.

Definition FindFactory (vendor model : string) r : option Factory :=
  head (omap (supporting vendor model) r).

Definition Registry_CreateAdapter (c : RobotConfig) r : option A :=
  f ← FindFactory (UnitreeAdapter.vendor c) (model c) r; CreateAdapter f c.

Definition FactoryCount r : nat := length r.

Definition RegisteredVendors r : list string := omap (fmap Vendor) r.

(* ------------------------------------------------------------------ *)
(** ** No two factories for one model *)

(** What the interface asks of a factory: it supports what it says, and this
    only for its vendor. *)
Class LawfulFactory f : Prop := {
  supports_vendor vendor model : Supports f vendor model = true → vendor = Vendor f;
  supports_models model : Supports f (Vendor f) model = true ↔ model ∈ SupportedModels f;
}.

Definition registrations (fs : list (option Factory)) : list (option Factory) :=
  foldl (λ r factory, (RegisterFactory factory r).2) [] fs.

Definition exclusive r : Prop :=
  ∀ i j f g vendor model, r !! i = Some (Some f) → r !! j = Some (Some g) →
    Supports f vendor model = true → Supports g vendor model = true → i = j.

Lemma duplicate_refused f r g vendor model `{!LawfulFactory f} :
  Some g ∈ r → Supports g vendor model = true → Supports f vendor model = true →
  RegisterFactory (Some f) r = (Adapter_Failure AdapterUnknown "robot factory is already registered", r).
Proof.
  intros Hg H1 H2. pose proof (supports_vendor _ _ H2) as ->. unfold RegisterFactory.
  rewrite (proj2 (existsb_exists _ _)); [done|]. exists (Some g). split; [by apply list_elem_of_In|].
  apply existsb_exists. exists model. split; [|done]. by apply list_elem_of_In, supports_models.
Qed.

Lemma RegisterFactory_exclusive factory r :
  (∀ f, factory = Some f → LawfulFactory f) → exclusive r → exclusive (RegisterFactory factory r).2.
Proof.
  intros Hf Hr. destruct factory as [f|]; [|done]. specialize (Hf f eq_refl).
  pose proof (λ i g v m Hi, duplicate_refused f r g v m (list_elem_of_lookup_2 r i (Some g) Hi)) as Hnew.
  unfold RegisterFactory in *. destruct (existsb _ r); [done|].
  intros i j x y v m Hi Hj Hx Hy. simpl.
  apply lookup_app_Some in Hi as [Hi|[? Hi]]; apply lookup_app_Some in Hj as [Hj|[? Hj]].
  - by eapply Hr.
  - apply list_lookup_singleton_Some in Hj as [? [= <-]]. by discriminate (Hnew _ _ _ _ Hi Hx Hy).
  - apply list_lookup_singleton_Some in Hi as [? [= <-]]. by discriminate (Hnew _ _ _ _ Hj Hy Hx).
  - apply list_lookup_singleton_Some in Hi as [? _], Hj as [? _]. lia.
Qed.

Lemma registrations_exclusive fs :
  (∀ f, Some f ∈ fs → LawfulFactory f) → exclusive (registrations fs).
Proof.
  unfold registrations. assert (H0 : exclusive []) by (by intros i j f g v m Hi). revert H0.
  generalize (@nil (option Factory)) as r. induction fs as [|x fs IH]; intros r Hr Hf; simpl; [done|].
  apply IH; [|intros f ?; apply Hf; by right]. apply RegisterFactory_exclusive; [|done].
  intros f ->. apply Hf. left.
Qed.

Lemma FindFactory_Some vendor model r f :
  FindFactory vendor model r = Some f → Some f ∈ r ∧ Supports f vendor model = true.
Proof.
  intros E. unfold FindFactory in E. apply head_Some_elem_of, list_elem_of_omap in E as (x & Hx & E).
  destruct x as [g|]; [|done]. simpl in E. destruct (Supports g vendor model) eqn:Eg; [|done]. by simplify_eq/=.
Qed.

(** A factory is found for a vendor and a model exactly if it is registered and
    supports them: the order of registrations does not matter, and an adapter is
    made by the only factory for its model. *)
Theorem FindFactory_only fs f vendor model :
  (∀ f, Some f ∈ fs → LawfulFactory f) →
  FindFactory vendor model (registrations fs) = Some f ↔
  Some f ∈ registrations fs ∧ Supports f vendor model = true.
Proof.
  intros Hf. split; [apply FindFactory_Some|]. intros [H1 H2].
  destruct (FindFactory vendor model (registrations fs)) as [g|] eqn:E.
  - apply FindFactory_Some in E as [H3 H4].
    apply list_elem_of_lookup_1 in H1 as [i Hi], H3 as [j Hj].
    pose proof (registrations_exclusive fs Hf i j f g vendor model Hi Hj H2 H4) as ->. congruence.
  - exfalso. unfold FindFactory in E. apply head_None in E.
    assert (f ∈ omap (supporting vendor model) (registrations fs)) as Hx.
    { apply list_elem_of_omap. exists (Some f). split; [done|]. simpl. by rewrite H2. }
    rewrite E in Hx. by apply elem_of_nil in Hx.
Qed.
End Registry.

(* ------------------------------------------------------------------ *)
(** ** The factory of Unitree robots *)

Section Unitree.
Context `{UnitreeLink}.

(** [state_manager] says whether the factory has one. *)
Definition Unitree_Supports (vendor model : string) : bool :=
  bool_decide (vendor = "Unitree") && bool_decide (model = "G1").

Definition UnitreeRobotFactory (state_manager : bool) : IRobotFactory Adapter :=
  {| Vendor := "Unitree"; SupportedModels := ["G1"]; Supports := Unitree_Supports;
     CreateAdapter c :=
       if negb (Unitree_Supports (UnitreeAdapter.vendor c) (model c)) then None
       else Some (new_Adapter c None state_manager) |}.

#[export] Instance UnitreeRobotFactory_lawful state_manager : LawfulFactory (UnitreeRobotFactory state_manager).
Proof.
  split; simpl; unfold Unitree_Supports.
  - intros v m [?%bool_decide_eq_true _]%andb_prop. done.
  - intros m. rewrite list_elem_of_singleton, bool_decide_true, andb_true_l, bool_decide_eq_true by done. done.
Qed.
End Unitree.

(* ------------------------------------------------------------------ *)
(** ** The plugin *)

Record UnitreeG1Plugin := mkG1Plugin { metadata_ : PluginMetadata; plugin_initialized_ : bool; plugin_started_ : bool }.

Definition CreateMetadata : PluginMetadata :=
  mkMetadata "com.unitree.g1" "Unitree G1 Plugin" "Unitree"
    "Unitree G1 plugin using the humanoid-core Unitree SDK abstraction" apiVersion
    (mkCompatibility apiVersion apiVersion).

Definition new_UnitreeG1Plugin : UnitreeG1Plugin := mkG1Plugin CreateMetadata false false.

Definition G1Plugin_Initialize (p : UnitreeG1Plugin) (r : PluginRegistry) : Status * UnitreeG1Plugin * PluginRegistry :=
  if plugin_initialized_ p then (Ok, p, r)
  else
    let id := plugin_id (metadata_ p) in
    let finish lifecycle_status r :=
      if negb (isOk lifecycle_status) then (lifecycle_status, p, r)
      else (Ok, mkG1Plugin (metadata_ p) true false, r) in
    let '(lifecycle_status, r) := SetLifecycleState id kInitialized r in
    if negb (isOk lifecycle_status) then
      let '(registration_status, r) := RegisterPlugin (metadata_ p) r in
      if negb (isOk registration_status) then (registration_status, p, r)
      else let '(lifecycle_status, r) := SetLifecycleState id kInitialized r in finish lifecycle_status r
    else finish lifecycle_status r.

Definition G1Plugin_Start (p : UnitreeG1Plugin) : Status * UnitreeG1Plugin :=
  if negb (plugin_initialized_ p) then (FailedPrecondition "Unitree G1 plugin is not initialized", p)
  else (Ok, mkG1Plugin (metadata_ p) (plugin_initialized_ p) true).

Definition G1Plugin_Stop (p : UnitreeG1Plugin) : Status * UnitreeG1Plugin :=
  (Ok, mkG1Plugin (metadata_ p) (plugin_initialized_ p) false).

Definition G1Plugin_Shutdown (p : UnitreeG1Plugin) : Status * UnitreeG1Plugin :=
  (Ok, mkG1Plugin (metadata_ p) false false).

Definition G1Plugin_CreateAdapter : G1 := new_G1 default_SdkConfiguration false.

(** What the creator makes is a new plugin. *)
Definition RegisterUnitreeG1Plugin {PluginCreator} (creator : PluginCreator) :
    PluginFactory PluginCreator → Status * PluginFactory PluginCreator :=
  Factory_RegisterPlugin CreateMetadata (Some creator).

(** A new plugin is always initialized: with the record that the registry has of
    it, or with a new one, which the registry accepts. *)
Theorem G1Plugin_initializes (r : PluginRegistry) :
  let id := plugin_id CreateMetadata in
  G1Plugin_Initialize new_UnitreeG1Plugin r =
    (Ok, mkG1Plugin CreateMetadata true false,
     <[id := mkRecord (default CreateMetadata (record_metadata <$> r !! id)) kInitialized]> r).
Proof.
  simpl. unfold G1Plugin_Initialize, SetLifecycleState. simpl.
  destruct (r !! "com.unitree.g1") as [x|] eqn:E; simpl; [done|].
  unfold RegisterPlugin. simpl. rewrite E. simpl. rewrite lookup_insert_eq. simpl. by rewrite insert_insert_eq.
Qed.
