(* ===== verification/Telemetry.v ===== *)
(** * The telemetry service

    src/services/TelemetryService.cpp: a worker thread that gives snapshots of the
    robot state to listeners.  The service has a lock for its life cycle and one
    for its listeners, and listeners run without either: every section under a
    lock, every test of the stop token and every call of a listener is one
    transition.  Threads are numbered in the order in which they start, and a
    worker that has ended is no longer among the [workers].  A listener can use the
    service itself: inside of one the worker can stop the service, which makes it
    wait for another worker.  Allocation does not fail. *)

From S2P Require Import Prelude RobotState.

Open Scope Z_scope.

Section Telemetry.
Context {Listener : Type}.

(* ------------------------------------------------------------------ *)
(** ** The service *)

Record TelemetryService := mkTelemetryService {
  has_state_manager : bool;
  polling_interval_ : Z;
  listeners_ : gmap Z Listener;
  next_subscription_id_ : Z;
  stop_requested_ : bool;
  worker_ : option nat;
}.

#[export] Instance eta_TelemetryService : EtaRecord TelemetryService := fun x =>
  mkTelemetryService (has_state_manager x) (polling_interval_ x) (listeners_ x) (next_subscription_id_ x)
    (stop_requested_ x) (worker_ x).

Definition kInvalidSubscriptionId : Z := 0.
Definition kDefaultPollingInterval : Z := 100.

Definition NormalizePollingInterval (polling_interval : Z) : Z :=
  if 0 <? polling_interval then polling_interval else kDefaultPollingInterval.

Definition new_TelemetryService (state_manager : bool) (polling_interval : Z) : TelemetryService :=
  mkTelemetryService state_manager (NormalizePollingInterval polling_interval) ∅ 1 false None.

(** [thread] is the thread that is created, [None] if that fails. *)
Definition Start (thread : option nat) (x : TelemetryService) : bool * TelemetryService :=
  if negb (has_state_manager x) || bool_decide (is_Some (worker_ x)) then (false, x)
  else match thread with
  | Some k => (true, x <| stop_requested_ := false |> <| worker_ := Some k |>)
  | None => (false, x <| stop_requested_ := true |>)
  end.

(** [Stop] under its lock, called by the worker [self] or by another thread: the
    worker that is asked to stop, and the one to wait for. *)
Definition Stop_begin (self : option nat) (x : TelemetryService) :
    option nat * option nat * TelemetryService :=
  let x := x <| stop_requested_ := true |> in
  match worker_ x with
  | None => (None, None, x)
  | Some k =>
      if bool_decide (self = Some k) then (Some k, None, x)
      else (Some k, Some k, x <| worker_ := None |>)
  end.

(** The counter after [id]. *)
Definition next_id (id : Z) : Z :=
  let id := u64_incr id in if id =? kInvalidSubscriptionId then 1 else id.

(** [attempts] rounds of the loop. *)
Fixpoint allocate (attempts : nat) (x : TelemetryService) : Z * TelemetryService :=
  match attempts with
  | O => (kInvalidSubscriptionId, x)
  | S attempts =>
      let candidate := next_subscription_id_ x in
      let x := x <| next_subscription_id_ := next_id candidate |> in
      if negb (candidate =? kInvalidSubscriptionId) && bool_decide (listeners_ x !! candidate = None) then
        (candidate, x)
      else allocate attempts x
  end.

(** The code makes up to [2 ^ 64 - 1] attempts; see [allocate_enough]. *)
Definition AllocateSubscriptionIdLocked (x : TelemetryService) : Z * TelemetryService :=
  allocate (S (size (listeners_ x))) x.

Definition Subscribe (listener : option Listener) (x : TelemetryService) : Z * TelemetryService :=
  match listener with
  | None => (kInvalidSubscriptionId, x)
  | Some f =>
      let '(id, x) := AllocateSubscriptionIdLocked x in
      if id =? kInvalidSubscriptionId then (kInvalidSubscriptionId, x)
      else (id, x <| listeners_ ::= <[id := f]> |>)
  end.

Definition Unsubscribe (id : Z) (x : TelemetryService) : bool * TelemetryService :=
  if id =? kInvalidSubscriptionId then (false, x)
  else (bool_decide (is_Some (listeners_ x !! id)), x <| listeners_ ::= delete id |>).

(* ------------------------------------------------------------------ *)
(** ** Threads *)

(** Where a worker is in [Run] and [PublishCurrentState]; inside of a listener it
    may wait for another worker. *)
Inductive WorkerPc :=
  | Testing
  | Reading
  | Copying (state : RobotState)
  | Calling (rest : list (Z * Listener)) (state : RobotState)
  | InListener (waits_for : option nat) (rest : list (Z * Listener)) (state : RobotState)
  | Asleep.

Record Worker := mkWorker { stop_token : bool; pc : WorkerPc }.

Definition request_stop (w : Worker) : Worker := mkWorker true (pc w).

(** [waiting] has the threads that wait for a worker in [Stop]; [called] the calls
    of listeners made so far, which the code does not keep. *)
Record TelemetryState := mkTelemetryState {
  service : TelemetryService;
  manager : RobotStateManager;
  workers : gmap nat Worker;
  next_worker : nat;
  waiting : gmap nat nat;
  called : list (Z * Listener * RobotState);
}.

#[export] Instance eta_TelemetryState : EtaRecord TelemetryState := fun s =>
  mkTelemetryState (service s) (manager s) (workers s) (next_worker s) (waiting s) (called s).

Definition initial (state_manager : bool) (polling_interval : Z) (m : RobotStateManager) : TelemetryState :=
  mkTelemetryState (new_TelemetryService state_manager polling_interval) m ∅ 0 ∅ [].

(** Who calls [Stop]: a worker, from inside of a listener, or another thread. *)
Inductive Caller := OtherThread (t : nat) | InWorker (k : nat).

Inductive TelemetryLabel :=
  | StateUpdates (state : RobotState)
  | Subscribes (listener : option Listener)
  | Unsubscribes (id : Z)
  | Starts (created : bool)
  | StopBegins (c : Caller)
  | Joins (c : Caller)
  | WorkerTests (k : nat)
  | WorkerReads (k : nat)
  | WorkerCopies (k : nat) (order : list Z)
  | WorkerCalls (k : nat)
  | WorkerReturns (k : nat)
  | WorkerSleeps (k : nat)
  | WorkerWakes (k : nat) (timed_out : bool).

Definition at_pc (k : nat) (p : WorkerPc) (s : TelemetryState) : TelemetryState :=
  s <| workers ::= alter (λ w, mkWorker (stop_token w) p) k |>.

Definition ends (k : nat) (s : TelemetryState) : TelemetryState := s <| workers ::= delete k |>.

(** Whether a worker leaves [Run] at its wait. *)
Definition stops (w : Worker) (s : TelemetryState) : bool := stop_requested_ (service s) || stop_token w.

Definition pc_of (k : nat) (s : TelemetryState) : option WorkerPc := pc <$> workers s !! k.

(** [Stop] up to the wait for the worker, if there is one. *)
Definition stop_begins (self : option nat) (s : TelemetryState) : option nat * TelemetryState :=
  let '(asked, join, x) := Stop_begin self (service s) in
  let s := s <| service := x |> in
  (join, match asked with Some k => s <| workers ::= alter request_stop k |> | None => s end).

(** The map is not ordered: its listeners in the order of [ids]. *)
Definition copy_listeners (ids : list Z) (subscribed : gmap Z Listener) : list (Z * Listener) :=
  omap (λ id, (id,.) <$> subscribed !! id) ids.

Definition service_exec (l : TelemetryLabel) (s : TelemetryState) : option TelemetryState :=
  match l with
  | StateUpdates state => Some (s <| manager ::= UpdateState state |>)
  | Subscribes listener => Some (s <| service := (Subscribe listener (service s)).2 |>)
  | Unsubscribes id => Some (s <| service := (Unsubscribe id (service s)).2 |>)
  | Starts created =>
      let k := next_worker s in
      let '(started, x) := Start (if created : bool then Some k else None) (service s) in
      let s := s <| service := x |> in
      Some (if started then s <| workers ::= <[k := mkWorker false Testing]> |> <| next_worker := S k |> else s)
  | StopBegins (OtherThread t) =>
      match waiting s !! t with
      | Some _ => None
      | None =>
          let '(join, s) := stop_begins None s in
          Some (match join with Some k => s <| waiting ::= <[t := k]> |> | None => s end)
      end
  | StopBegins (InWorker k) =>
      match pc_of k s with
      | Some (InListener None rest state) =>
          let '(join, s) := stop_begins (Some k) s in Some (at_pc k (InListener join rest state) s)
      | _ => None
      end
  | Joins (OtherThread t) =>
      k ← waiting s !! t;
      match workers s !! k with
      | Some _ => None
      | None => Some (s <| waiting ::= delete t |>)
      end
  | Joins (InWorker k) =>
      match pc_of k s with
      | Some (InListener (Some j) rest state) =>
          match workers s !! j with
          | Some _ => None
          | None => Some (at_pc k (InListener None rest state) s)
          end
      | _ => None
      end
  | _ => None
  end.

(** [Run] and [PublishCurrentState]. What a listener throws is ignored. *)
Definition worker_exec (l : TelemetryLabel) (s : TelemetryState) : option TelemetryState :=
  match l with
  | WorkerTests k =>
      w ← workers s !! k;
      match pc w with
      | Testing => Some (if stop_token w then ends k s else at_pc k Reading s)
      | _ => None
      end
  | WorkerReads k =>
      match pc_of k s with
      | Some Reading => Some (at_pc k (Copying (GetState (manager s))) s)
      | _ => None
      end
  | WorkerCopies k order =>
      match pc_of k s with
      | Some (Copying state) =>
          let subscribed := listeners_ (service s) in
          if bool_decide (order ≡ₚ (map_to_list subscribed).*1) then
            Some (at_pc k (Calling (copy_listeners order subscribed) state) s)
          else None
      | _ => None
      end
  | WorkerCalls k =>
      match pc_of k s with
      | Some (Calling ((id, f) :: rest) state) =>
          Some (at_pc k (InListener None rest state) (s <| called ::= λ l, l ++ [(id, f, state)] |>))
      | _ => None
      end
  | WorkerReturns k =>
      match pc_of k s with
      | Some (InListener None rest state) => Some (at_pc k (Calling rest state) s)
      | _ => None
      end
  | WorkerSleeps k =>
      w ← workers s !! k;
      match pc w with
      | Calling [] _ => Some (if stops w s then ends k s else at_pc k Asleep s)
      | _ => None
      end
  | WorkerWakes k timed_out =>
      w ← workers s !! k;
      match pc w with
      | Asleep =>
          Some (if stops w s then ends k s else if timed_out : bool then at_pc k Testing s else s)
      | _ => None
      end
  | _ => None
  end.

Definition telemetry_exec (l : TelemetryLabel) (s : TelemetryState) : option TelemetryState :=
  match service_exec l s with
  | Some s => Some s
  | None => worker_exec l s
  end.

Fixpoint telemetry_run (ls : list TelemetryLabel) (s : TelemetryState) : option TelemetryState :=
  match ls with
  | [] => Some s
  | l :: ls => s ← telemetry_exec l s; telemetry_run ls s
  end.
End Telemetry.
