(* ===== verification/TelemetryProperties.v ===== *)
(** * What users of the telemetry service can rely on

    Subscriptions get identifiers of their own; whoever stops the service does not
    wait for ever; and a listener that is unsubscribed is called at most once more
    by each worker. *)

From S2P Require Import Prelude RobotState Telemetry.

Open Scope Z_scope.

Section Telemetry.
Context {Listener : Type}.
#[local] Notation WorkerPc := (@WorkerPc Listener).
#[local] Notation TelemetryService := (@TelemetryService Listener).
#[local] Notation TelemetryState := (@TelemetryState Listener).
#[local] Notation TelemetryLabel := (@TelemetryLabel Listener).
Implicit Types (x : TelemetryService) (s : TelemetryState) (l : TelemetryLabel) (ls : list TelemetryLabel).

(* ------------------------------------------------------------------ *)
(** ** Identifiers *)

Definition valid_id (id : Z) : Prop := 1 <= id < u64_modulus.

(** How many identifiers there are. *)
Definition ids : Z := u64_modulus - 1.

(** The identifier that the loop tries in round [i], counted from 0. *)
Definition candidate (id : Z) (i : nat) : Z := (id - 1 + Z.of_nat i) mod ids + 1.

Lemma next_id_candidate id : valid_id id → next_id id = candidate id 1.
Proof.
  unfold valid_id, next_id, candidate, ids, kInvalidSubscriptionId. intros Hid. unfold u64_incr.
  destruct (decide (id = u64_modulus - 1)) as [->|Hn].
  - replace (u64_modulus - 1 + 1) with u64_modulus by lia. rewrite Z_mod_same_full. simpl.
    replace (u64_modulus - 1 - 1 + Z.of_nat 1) with (u64_modulus - 1) by lia. by rewrite Z_mod_same_full.
  - rewrite Z.mod_small by lia. destruct (Z.eqb_spec (id + 1) 0); [lia|].
    rewrite Z.mod_small by (cbn [Z.of_nat Pos.of_succ_nat]; lia). lia.
Qed.

Lemma candidate_valid id i : valid_id (candidate id i).
Proof.
  unfold valid_id, candidate, ids. pose proof (Z.mod_pos_bound (id - 1 + Z.of_nat i) (u64_modulus - 1) eq_refl). lia.
Qed.

Lemma candidate_0 id : valid_id id → candidate id 0 = id.
Proof. unfold valid_id, candidate, ids. intros ?. rewrite Z.mod_small by lia. lia. Qed.

Lemma candidate_next id i : valid_id id → candidate (next_id id) i = candidate id (S i).
Proof.
  intros Hid. rewrite (next_id_candidate id Hid). unfold candidate.
  replace ((id - 1 + Z.of_nat 1) mod ids + 1 - 1) with ((id - 1 + Z.of_nat 1) mod ids) by lia.
  rewrite Zplus_mod_idemp_l. do 2 f_equal. lia.
Qed.

Lemma candidate_inj id i j :
  Z.of_nat i < ids → Z.of_nat j < ids → candidate id i = candidate id j → i = j.
Proof.
  unfold candidate. intros Hi Hj E. assert (E' : (id - 1 + Z.of_nat i) mod ids = (id - 1 + Z.of_nat j) mod ids) by lia.
  pose proof (Z.div_mod (id - 1 + Z.of_nat i) ids ltac:(done)). pose proof (Z.div_mod (id - 1 + Z.of_nat j) ids ltac:(done)).
  assert (ids * ((id - 1 + Z.of_nat i) / ids - (id - 1 + Z.of_nat j) / ids) = Z.of_nat i - Z.of_nat j) by lia.
  assert (((id - 1 + Z.of_nat i) / ids - (id - 1 + Z.of_nat j) / ids) = 0) by nia. nia.
Qed.

Definition set_next (id : Z) x : TelemetryService := x <| next_subscription_id_ := id |>.

(** The first candidate that is free is taken. *)
Lemma allocate_spec n x :
  valid_id (next_subscription_id_ x) →
  ∃ id' id, allocate n x = (id, set_next id' x) ∧ valid_id id' ∧
    ((id = kInvalidSubscriptionId ∧
      ∀ i, (i < n)%nat → is_Some (listeners_ x !! candidate (next_subscription_id_ x) i)) ∨
     (valid_id id ∧ listeners_ x !! id = None)).
Proof.
  revert x. induction n as [|n IH]; intros x Hx; simpl.
  { exists (next_subscription_id_ x), kInvalidSubscriptionId. split_and!; [by destruct x|done|]. left. split; [done|lia]. }
  assert (Hn : valid_id (next_id (next_subscription_id_ x))) by (rewrite next_id_candidate by done; apply candidate_valid).
  destruct (Z.eqb_spec (next_subscription_id_ x) kInvalidSubscriptionId) as [E|_].
  { unfold valid_id, kInvalidSubscriptionId in *. lia. }
  simpl. destruct (listeners_ x !! next_subscription_id_ x) eqn:E; simpl.
  - destruct (IH (set_next (next_id (next_subscription_id_ x)) x) Hn) as (id' & id & E' & Hid' & Hid).
    exists id', id. split_and!; [exact E'|done|]. destruct Hid as [[-> Hall]|Hid]; [left|by right]. split; [done|].
    intros [|i] Hi; [rewrite candidate_0 by done; by eexists|].
    rewrite <-candidate_next by done. apply Hall. lia.
  - exists (next_id (next_subscription_id_ x)), (next_subscription_id_ x). split_and!; [done|done|]. by right.
Qed.

(** Rounds after the one that finds an identifier do not happen. *)
Lemma allocate_more n m x :
  (n <= m)%nat → (allocate n x).1 ≠ kInvalidSubscriptionId → allocate m x = allocate n x.
Proof.
  revert m x. induction n as [|n IH]; intros [|m] x Hm; simpl; try done; [lia|].
  destruct (negb _ && _); [done|]. intros Hn. apply IH; [lia|done].
Qed.

(** Not all of more candidates than there are listeners are taken. *)
Lemma candidate_free (m : gmap Z Listener) id :
  Z.of_nat (size m) < ids → ¬ ∀ i, (i < S (size m))%nat → is_Some (m !! candidate id i).
Proof.
  intros Hsize Hall. set (l := candidate id <$> seq 0 (S (size m))).
  assert (Hl : NoDup l).
  { unfold l. apply NoDup_fmap_2_strong; [|apply NoDup_seq]. intros i j Hi Hj E.
    apply elem_of_seq in Hi, Hj. eapply candidate_inj; [lia|lia|exact E]. }
  assert (Hsub : list_to_set l ⊆ dom m).
  { intros y Hy. apply elem_of_list_to_set, list_elem_of_fmap in Hy as (i & -> & Hi). apply elem_of_dom, Hall.
    apply elem_of_seq in Hi. lia. }
  apply subseteq_size in Hsub. rewrite size_list_to_set, size_dom in Hsub by done.
  unfold l in Hsub. rewrite length_fmap, length_seq in Hsub. lia.
Qed.

Lemma AllocateSubscriptionIdLocked_spec x :
  valid_id (next_subscription_id_ x) → Z.of_nat (size (listeners_ x)) < ids →
  ∃ id' id, AllocateSubscriptionIdLocked x = (id, set_next id' x) ∧ valid_id id' ∧ valid_id id ∧
    listeners_ x !! id = None.
Proof.
  intros Hx Hsize. destruct (allocate_spec (S (size (listeners_ x))) x Hx) as (id' & id & E & Hid' & [[_ Hall]|[Hid Hn]]).
  - by destruct (candidate_free (listeners_ x) (next_subscription_id_ x) Hsize).
  - by exists id', id.
Qed.

(** The [2 ^ 64 - 1] attempts of the code find what the attempts of the model
    find. *)
Lemma allocate_enough attempts x :
  valid_id (next_subscription_id_ x) → (size (listeners_ x) < attempts)%nat → Z.of_nat attempts <= ids →
  allocate attempts x = AllocateSubscriptionIdLocked x.
Proof.
  intros Hx Hs Ha. destruct (AllocateSubscriptionIdLocked_spec x Hx ltac:(lia)) as (id' & id & E & _ & Hid & _).
  apply allocate_more; [lia|]. unfold AllocateSubscriptionIdLocked in E. rewrite E. simpl.
  unfold valid_id, kInvalidSubscriptionId in *. lia.
Qed.

(* ------------------------------------------------------------------ *)
(** ** Invariants *)

Definition ids_ok x : Prop :=
  valid_id (next_subscription_id_ x) ∧ ∀ id, is_Some (listeners_ x !! id) → valid_id id.

(** The listeners that a worker is still to call, and whom it waits for. *)
Definition held (p : WorkerPc) : list (Z * Listener) :=
  match p with Calling rest _ | InListener _ rest _ => rest | _ => [] end.

Definition waits_of (p : WorkerPc) : option nat :=
  match p with InListener j _ _ => j | _ => None end.

Definition waits s (c : Caller) : option nat :=
  match c with OtherThread t => waiting s !! t | InWorker k => pc_of k s ≫= waits_of end.

(** A worker that is waited for has been asked to stop, is no longer the one that
    the service would stop, and is newer than a worker that waits for it. *)
Definition waited_for s (k : nat) : Prop :=
  (k < next_worker s)%nat ∧ worker_ (service s) ≠ Some k ∧ stop_token <$> workers s !! k ≠ Some false.

Record state_ok s : Prop := {
  ok_ids : ids_ok (service s);
  ok_workers k : is_Some (workers s !! k) → (k < next_worker s)%nat;
  ok_held k p : pc_of k s = Some p → NoDup (held p).*1;
  ok_worker k : worker_ (service s) = Some k → S k = next_worker s;
  ok_waits c k : waits s c = Some k → waited_for s k;
  ok_newer j k : waits s (InWorker j) = Some k → (j < k)%nat;
}.

Lemma lookup_at_pc k p s j :
  workers (at_pc k p s) !! j =
    if bool_decide (j = k) then (λ w, mkWorker (stop_token w) p) <$> workers s !! j else workers s !! j.
Proof. unfold at_pc. simpl. case_bool_decide; [subst; by rewrite lookup_alter_eq|by rewrite lookup_alter_ne]. Qed.

Lemma pc_of_at_pc k p s j :
  pc_of j (at_pc k p s) = if bool_decide (j = k) then const p <$> workers s !! j else pc_of j s.
Proof. unfold pc_of. rewrite lookup_at_pc. case_bool_decide; [|done]. by destruct (workers s !! j). Qed.

Lemma token_at_pc k p s j : stop_token <$> workers (at_pc k p s) !! j = stop_token <$> workers s !! j.
Proof. rewrite lookup_at_pc. case_bool_decide; [|done]. by destruct (workers s !! j). Qed.

Lemma at_pc_ok k p s :
  NoDup (held p).*1 → (∀ j, waits_of p = Some j → (k < j)%nat ∧ waited_for s j) →
  state_ok s → state_ok (at_pc k p s).
Proof.
  intros Hp Hw [H1 H2 H3 H4 H5 H6].
  assert (Hwaited : ∀ j, waited_for s j → waited_for (at_pc k p s) j) by (unfold waited_for; intros j; by rewrite token_at_pc).
  assert (Hwaits : ∀ j i, waits (at_pc k p s) (InWorker j) = Some i →
    waits s (InWorker j) = Some i ∨ j = k ∧ waits_of p = Some i).
  { intros j i. simpl. rewrite pc_of_at_pc. case_bool_decide; [|by left]. destruct (workers s !! j); [|done]. by right. }
  split; [done|..].
  - intros j. rewrite lookup_at_pc. case_bool_decide; [rewrite fmap_is_Some|]; apply H2.
  - intros j q. rewrite pc_of_at_pc. case_bool_decide; [|apply H3]. destruct (workers s !! j); [by intros [= <-]|done].
  - exact H4.
  - intros [t|j] i Hi; apply Hwaited; [by apply (H5 (OtherThread t))|].
    apply Hwaits in Hi as [Hi|[_ Hi]]; [by apply (H5 (InWorker j))|by apply Hw].
  - intros j i Hi. apply Hwaits in Hi as [Hi|[-> Hi]]; [by apply H6|by apply Hw].
Qed.

Lemma ends_ok k s : state_ok s → state_ok (ends k s).
Proof.
  intros [H1 H2 H3 H4 H5 H6].
  assert (Hl : ∀ j w, workers (ends k s) !! j = Some w → workers s !! j = Some w)
    by (intros j w; simpl; rewrite lookup_delete_Some; by intros [_ ?]).
  assert (Hpc : ∀ j p, pc_of j (ends k s) = Some p → pc_of j s = Some p).
  { unfold pc_of. intros j p (w & Hw & ->)%fmap_Some. by rewrite (Hl j w Hw). }
  assert (Hwaits : ∀ c j, waits (ends k s) c = Some j → waits s c = Some j).
  { intros [t|i] j; [done|]. simpl. intros (p & Hp & E)%bind_Some. by rewrite (Hpc _ _ Hp). }
  split; [done|..].
  - intros j [w Hw]. apply H2. rewrite (Hl _ _ Hw). by eexists.
  - intros j p Hp. by apply (H3 j), Hpc.
  - exact H4.
  - intros c j Hj. destruct (H5 c j (Hwaits _ _ Hj)) as (Ha & Hb & Hc). split_and!; [done..|].
    intros (w & Hw & Ht)%fmap_Some. apply Hc. rewrite (Hl _ _ Hw). simpl. by f_equal.
  - intros i j Hj. by apply H6, Hwaits.
Qed.

Lemma with_service_ok x s :
  ids_ok x → worker_ x = worker_ (service s) → state_ok s → state_ok (s <| service := x |>).
Proof.
  intros Hx Hw [H1 H2 H3 H4 H5 H6]. split; simpl; try done.
  - rewrite Hw. exact H4.
  - intros c k Hk. destruct (H5 c k Hk) as (Ha & Hb & Hc). split_and!; [done|simpl; by rewrite Hw|done].
Qed.

Lemma Subscribe_ok f x : ids_ok x → ids_ok (Subscribe f x).2 ∧ worker_ (Subscribe f x).2 = worker_ x.
Proof.
  intros [Hn Hl]. destruct f as [f|]; [|done]. simpl.
  destruct (allocate_spec (S (size (listeners_ x))) x Hn) as (id' & id & E & Hid' & Hid).
  unfold AllocateSubscriptionIdLocked. rewrite E. destruct Hid as [[-> _]|[Hid _]]; [done|].
  destruct (id =? _); [done|]. split; [|done]. split; [done|]. simpl. intros j [? Hj].
  apply lookup_insert_Some in Hj as [[<- _]|[_ Hj]]; [done|]. apply Hl. by eexists.
Qed.

Lemma Unsubscribe_ok id x : ids_ok x → ids_ok (Unsubscribe id x).2 ∧ worker_ (Unsubscribe id x).2 = worker_ x.
Proof.
  intros [Hn Hl]. unfold Unsubscribe. destruct (id =? _); [done|]. split; [|done]. split; [done|]. simpl.
  intros j [? [_ Hj]%lookup_delete_Some]. apply Hl. by eexists.
Qed.

(** What [Stop] leaves before it waits. *)
Lemma stop_begins_exact self s :
  state_ok s →
  let '(join, s') := stop_begins self s in
  state_ok s' ∧ waiting s' = waiting s ∧ next_worker s' = next_worker s ∧ (∀ k, pc_of k s' = pc_of k s) ∧
  (∀ k, join = Some k → waited_for s' k ∧ S k = next_worker s ∧ self ≠ Some k).
Proof.
  intros Hs. unfold stop_begins, Stop_begin. simpl. destruct (worker_ (service s)) as [k|] eqn:Ew.
  2: { split_and!; try done. by apply with_service_ok; [apply Hs| |]. }
  set (s1 := s <| workers ::= alter request_stop k |>).
  assert (Hl : ∀ j, workers s1 !! j = (if bool_decide (j = k) then request_stop else Datatypes.id) <$> workers s !! j).
  { intros j. simpl. case_bool_decide; [subst; by rewrite lookup_alter_eq|rewrite lookup_alter_ne by done].
    by destruct (workers s !! j). }
  assert (Hpc : ∀ j, pc_of j s1 = pc_of j s).
  { intros j. unfold pc_of. rewrite Hl. by destruct (workers s !! j); simpl; [case_bool_decide|]. }
  assert (Ht : ∀ j, stop_token <$> workers s1 !! j ≠ Some false ↔ stop_token <$> workers s !! j ≠ Some false ∨ j = k).
  { intros j. rewrite Hl. destruct (workers s !! j) as [w|]; simpl; [|by split; [left|]].
    case_bool_decide; simpl; [split; [by right|done]|tauto]. }
  destruct Hs as [H1 H2 H3 H4 H5 H6].
  assert (Hk : S k = next_worker s) by by apply H4.
  assert (Hwaits : ∀ c, waits s1 c = waits s c) by (intros [t|j]; [done|simpl; by rewrite Hpc]).
  assert (Hok : ∀ x', ids_ok x' → worker_ x' = None ∨ worker_ x' = worker_ (service s) →
    state_ok (s1 <| service := x' |>)).
  { intros x' Hx' Hw'. split; simpl; try done.
    - intros j. change (is_Some (workers s1 !! j) → (j < next_worker s)%nat). rewrite Hl, fmap_is_Some. apply H2.
    - intros j p. change (pc_of j s1 = Some p → NoDup (held p).*1). rewrite Hpc. apply H3.
    - intros j Hj. destruct Hw' as [Hw'|Hw']; [congruence|]. apply H4. congruence.
    - intros c j Hj. change (waits s1 c = Some j) in Hj. rewrite Hwaits in Hj.
      destruct (H5 c j Hj) as (Ha & Hb & Hc). split_and!; [done|simpl; destruct Hw'; congruence|].
      apply (Ht j). by left.
    - intros i j Hj. change (waits s1 (InWorker i) = Some j) in Hj. rewrite Hwaits in Hj. by apply H6. }
  case_bool_decide as Hself.
  - split; [refine (Hok (mkTelemetryService _ _ _ _ _ (Some k)) _ _); [done|right; by rewrite Ew]|].
    split_and!; [done|done|intros j; apply Hpc|done].
  - split; [refine (Hok (mkTelemetryService _ _ _ _ _ None) _ _); [done|by left]|].
    split_and!; [done|done|intros j; apply Hpc|].
    intros j [= <-]. split_and!; [|done|done]. split_and!; [simpl; lia|done|]. apply (Ht k). by right.
Qed.

Lemma pc_of_Some k s p : pc_of k s = Some p → ∃ w, workers s !! k = Some w ∧ pc w = p.
Proof. unfold pc_of. intros (w & Hw & ->)%fmap_Some. by exists w. Qed.

Lemma copy_listeners_keys order (m : gmap Z Listener) :
  NoDup order → NoDup (copy_listeners order m).*1.
Proof.
  assert (Hsub : ∀ order id, id ∈ (copy_listeners order m).*1 → id ∈ order).
  { intros order' id (y & -> & (i & Hi & E)%list_elem_of_omap)%list_elem_of_fmap. destruct (m !! i); [|done]. by simplify_eq/=. }
  induction 1 as [|id order Hid Hl IH]; [constructor|]. unfold copy_listeners. simpl.
  destruct (m !! id); simpl; [|exact IH]. constructor; [|exact IH]. intros Hx. by apply Hid, Hsub.
Qed.

Lemma starts_ok s :
  let k := next_worker s in
  worker_ (service s) = None → state_ok s →
  state_ok (s <| service := (service s) <| stop_requested_ := false |> <| worker_ := Some k |> |>
              <| workers ::= <[k := mkWorker false Testing]> |> <| next_worker := S k |>).
Proof.
  intros k Hn [H1 H2 H3 H4 H5 H6]. set (s' := _ <| next_worker := _ |>).
  assert (Hl : ∀ j, workers s' !! j = if bool_decide (j = k) then Some (mkWorker false Testing) else workers s !! j).
  { intros j. simpl. case_bool_decide; [subst; by rewrite lookup_insert_eq|by rewrite lookup_insert_ne]. }
  assert (Hwaits : ∀ c j, waits s' c = Some j → waits s c = Some j).
  { intros [t|i] j; [done|]. simpl. unfold pc_of. rewrite Hl. by case_bool_decide. }
  split; [done|..].
  - intros j. rewrite Hl. change (next_worker s') with (S k). case_bool_decide; [lia|]. intros Hj%H2. subst k. lia.
  - intros j p. unfold pc_of. rewrite Hl. case_bool_decide; [intros [= <-]; constructor|apply H3].
  - by intros j [= <-].
  - intros c j Hj. destruct (H5 c j (Hwaits _ _ Hj)) as (Ha & Hb & Hc). unfold waited_for. rewrite Hl.
    rewrite bool_decide_false by (subst k; lia). split_and!; [simpl; lia|simpl; intros [= <-]; subst k; lia|done].
  - intros i j Hj. by apply H6, Hwaits.
Qed.

Lemma waiting_ok (w : gmap nat nat) s :
  (∀ t k, w !! t = Some k → waited_for s k) → state_ok s → state_ok (s <| waiting := w |>).
Proof.
  intros Hw [H1 H2 H3 H4 H5 H6]. split; try done. intros [t|j] k Hk; [exact (Hw t k Hk)|exact (H5 (InWorker j) k Hk)].
Qed.

Lemma service_exec_ok l s s' : service_exec l s = Some s' → state_ok s → state_ok s'.
Proof.
  intros E Hs. destruct l as [state|f|id|created|[t|k]|[t|k]|k|k|k order|k|k|k|k timed_out]; simpl in E; try done.
  - injection E as <-. by destruct Hs.
  - injection E as <-. destruct (Subscribe_ok f (service s)) as [H1 H2]; [apply Hs|]. by apply with_service_ok.
  - injection E as <-. destruct (Unsubscribe_ok id (service s)) as [H1 H2]; [apply Hs|]. by apply with_service_ok.
  - unfold Start in E. destruct (negb _ || bool_decide (is_Some (worker_ (service s)))) eqn:Eb.
    { injection E as <-. by destruct s. }
    apply orb_false_iff in Eb as [_ Hn%bool_decide_eq_false%eq_None_not_Some].
    destruct created; injection E as <-; [by apply starts_ok|].
    apply with_service_ok; [apply Hs|done|done].
  - destruct (waiting s !! t); [done|]. pose proof (stop_begins_exact None s Hs) as Hk.
    destruct (stop_begins None s) as [join s1]. injection E as <-. destruct Hk as (Hs1 & _ & _ & _ & Hj).
    destruct join as [k|]; [|done]. destruct (Hj k eq_refl) as [Hw _].
    apply (waiting_ok (<[t := k]> (waiting s1))); [|done].
    intros t' k' [[_ <-]|[_ Ht]]%lookup_insert_Some; [done|]. by apply (ok_waits _ Hs1 (OtherThread t')).
  - destruct (pc_of k s) as [[| | | |[j|] rest state|]|] eqn:Ek; try done.
    pose proof (stop_begins_exact (Some k) s Hs) as Hk.
    destruct (stop_begins (Some k) s) as [join s1]. injection E as <-. destruct Hk as (Hs1 & _ & Hn & _ & Hj).
    apply at_pc_ok; [exact (ok_held _ Hs k _ Ek)| |done].
    intros j Hjoin. destruct (Hj j Hjoin) as (Hw & Hnew & Hne). split; [|done].
    apply pc_of_Some in Ek as (w & Hk & _). assert (k < next_worker s)%nat by (apply Hs; by eexists).
    assert (k ≠ j) by congruence. lia.
  - destruct (waiting s !! t) as [k|] eqn:Et; [|done]. simpl in E. destruct (workers s !! k); [done|].
    injection E as <-. apply (waiting_ok (delete t (waiting s))); [|done].
    intros t' k' [_ Ht]%lookup_delete_Some. by apply (ok_waits _ Hs (OtherThread t')).
  - destruct (pc_of k s) as [[| | | |[j|] rest state|]|] eqn:Ek; try done. destruct (workers s !! j); [done|].
    injection E as <-. apply at_pc_ok; [exact (ok_held _ Hs k _ Ek)|done|done].
Qed.

Lemma telemetry_worker_ok l s s' : worker_exec l s = Some s' → state_ok s → state_ok s'.
Proof.
  intros E Hs. destruct l as [state|f|id|created|c|c|k|k|k order|k|k|k|k timed_out]; simpl in E; try done.
  - destruct (workers s !! k) as [w|]; [|done]. simpl in E. destruct (pc w); try done. injection E as <-.
    destruct (stop_token w); [by apply ends_ok|]. by apply at_pc_ok; [constructor| |].
  - destruct (pc_of k s) as [[]|]; try done. injection E as <-. by apply at_pc_ok; [constructor| |].
  - destruct (pc_of k s) as [[]|]; try done. case_bool_decide as Hp; [|done]. injection E as <-.
    apply at_pc_ok; [|done|done]. apply copy_listeners_keys. rewrite Hp. apply NoDup_fst_map_to_list.
  - destruct (pc_of k s) as [[| | |[|[id f] rest] state| |]|] eqn:Ek; try done. injection E as <-.
    pose proof (ok_held _ Hs k _ Ek) as Hd. simpl in Hd. apply NoDup_cons in Hd as [_ Hd].
    apply at_pc_ok; [done|done|]. by destruct Hs.
  - destruct (pc_of k s) as [[| | | |[j|] rest state|]|] eqn:Ek; try done. injection E as <-.
    apply at_pc_ok; [exact (ok_held _ Hs k _ Ek)|done|done].
  - destruct (workers s !! k) as [w|]; [|done]. simpl in E. destruct (pc w) as [| | |[|] state| |]; try done.
    injection E as <-. destruct (stops w s); [by apply ends_ok|]. by apply at_pc_ok; [constructor| |].
  - destruct (workers s !! k) as [w|]; [|done]. simpl in E. destruct (pc w); try done. injection E as <-.
    destruct (stops w s); [by apply ends_ok|]. destruct timed_out; [|done]. by apply at_pc_ok; [constructor| |].
Qed.

Lemma telemetry_exec_ok l s s' : telemetry_exec l s = Some s' → state_ok s → state_ok s'.
Proof.
  unfold telemetry_exec. destruct (service_exec l s) eqn:E; [intros [= <-]; by eapply service_exec_ok|].
  apply telemetry_worker_ok.
Qed.

Lemma telemetry_run_ok ls s s' : telemetry_run ls s = Some s' → state_ok s → state_ok s'.
Proof.
  revert s. induction ls as [|l ls IH]; intros s; simpl; [by intros [= <-]|].
  destruct (telemetry_exec l s) as [s1|] eqn:E; [|done]. intros E' Hs. eapply IH; [done|]. by eapply telemetry_exec_ok.
Qed.

Lemma telemetry_initial_ok b interval m : state_ok (initial b interval m).
Proof.
  assert (Hn : ∀ c, waits (initial b interval m) c = None) by by intros [t|j].
  split; try done.
  - split; [by vm_compute|]. intros id [? H]. discriminate H.
  - intros k [? H]. discriminate H.
  - intros c k H. by rewrite Hn in H.
Qed.

(* ------------------------------------------------------------------ *)
(** ** What a transition does to a worker *)

Definition mover l : option nat :=
  match l with
  | WorkerTests k | WorkerReads k | WorkerCopies k _ | WorkerCalls k | WorkerReturns k | WorkerSleeps k
  | WorkerWakes k _ | StopBegins (InWorker k) | Joins (InWorker k) => Some k
  | _ => None
  end.

Inductive moves s (k : nat) : TelemetryLabel → WorkerPc → option WorkerPc → Prop :=
  | move_test (tok : bool) :
      stop_token <$> workers s !! k = Some tok →
      moves s k (WorkerTests k) Testing (if tok then None else Some Reading)
  | move_read state : moves s k (WorkerReads k) Reading (Some (Copying state))
  | move_copy order state :
      order ≡ₚ (map_to_list (listeners_ (service s))).*1 →
      moves s k (WorkerCopies k order) (Copying state)
        (Some (Calling (copy_listeners order (listeners_ (service s))) state))
  | move_call id f rest state :
      moves s k (WorkerCalls k) (Calling ((id, f) :: rest) state) (Some (InListener None rest state))
  | move_return rest state : moves s k (WorkerReturns k) (InListener None rest state) (Some (Calling rest state))
  | move_sleep (tok : bool) state :
      stop_token <$> workers s !! k = Some tok →
      moves s k (WorkerSleeps k) (Calling [] state) (if stop_requested_ (service s) || tok then None else Some Asleep)
  | move_wake (tok timed_out : bool) :
      stop_token <$> workers s !! k = Some tok →
      moves s k (WorkerWakes k timed_out) Asleep
        (if stop_requested_ (service s) || tok then None else Some (if timed_out : bool then Testing else Asleep))
  | move_stop join rest state :
      moves s k (StopBegins (InWorker k)) (InListener None rest state) (Some (InListener join rest state))
  | move_join j rest state :
      moves s k (Joins (InWorker k)) (InListener (Some j) rest state) (Some (InListener None rest state)).

Lemma pc_of_ends k s j : pc_of j (ends k s) = if bool_decide (j = k) then None else pc_of j s.
Proof.
  unfold pc_of, ends. simpl. case_bool_decide; [subst; by rewrite lookup_delete_eq|by rewrite lookup_delete_ne].
Qed.

(** Either [l] leaves the worker where it is, or it is a transition of its own. *)
Definition moved s l s' k : Prop :=
  mover l ≠ Some k ∧ pc_of k s' = pc_of k s ∨ ∃ p, pc_of k s = Some p ∧ moves s k l p (pc_of k s').

Lemma moved_at_pc s l s1 j p q k :
  mover l = Some j → (∀ i, pc_of i s1 = pc_of i s) → pc_of j s = Some p → moves s j l p (Some q) →
  moved s l (at_pc j q s1) k.
Proof.
  intros Hl Hs Hp Hm. unfold moved. rewrite pc_of_at_pc. case_bool_decide as Hk.
  - subst k. right. exists p. split; [done|]. assert (Hj := Hs j). rewrite Hp in Hj. unfold pc_of in Hj.
    destruct (workers s1 !! j); [done|discriminate Hj].
  - left. rewrite Hl. split; [by intros [= ->]|apply Hs].
Qed.

Lemma moved_ends s l j p k :
  mover l = Some j → pc_of j s = Some p → moves s j l p None → moved s l (ends j s) k.
Proof.
  intros Hl Hp Hm. unfold moved. rewrite pc_of_ends. case_bool_decide as Hk; [subst k; right; by exists p|].
  left. split; [rewrite Hl; by intros [= ->]|done].
Qed.

(** Or it starts the worker. *)
Lemma service_exec_moved l s s' k :
  service_exec l s = Some s' → state_ok s →
  moved s l s' k ∨ k = next_worker s ∧ pc_of k s' = Some Testing.
Proof.
  intros E Hs. destruct l as [state|f|id|created|[t|j]|[t|j]|j|j|j order|j|j|j|j timed_out]; simpl in E; try done.
  - injection E as <-. by left; left.
  - injection E as <-. by left; left.
  - injection E as <-. by left; left.
  - destruct (Start _ _) as [started x]. injection E as <-. destruct started; [|by left; left].
    unfold moved, pc_of. simpl. destruct (decide (k = next_worker s)) as [->|Hk]; [right; by rewrite lookup_insert_eq|].
    left. left. by rewrite lookup_insert_ne.
  - destruct (waiting s !! t); [done|]. pose proof (stop_begins_exact None s Hs) as Hx.
    destruct (stop_begins None s) as [join s1]. injection E as <-. destruct Hx as (_ & _ & _ & Hpc & _).
    left. left. split; [done|]. rewrite <-Hpc. by destruct join.
  - destruct (pc_of j s) as [[| | | |[i|] rest state|]|] eqn:Ej; try done.
    pose proof (stop_begins_exact (Some j) s Hs) as Hx.
    destruct (stop_begins (Some j) s) as [join s1]. injection E as <-. destruct Hx as (_ & _ & _ & Hpc & _).
    left. eapply moved_at_pc; [done|exact Hpc|exact Ej|constructor].
  - destruct (waiting s !! t) as [j|]; [|done]. simpl in E. destruct (workers s !! j); [done|]. injection E as <-. by left; left.
  - destruct (pc_of j s) as [[| | | |[i|] rest state|]|] eqn:Ej; try done. destruct (workers s !! i); [done|].
    injection E as <-. left. eapply moved_at_pc; [done|done|exact Ej|constructor].
Qed.

Lemma worker_exec_moved l s s' k : worker_exec l s = Some s' → moved s l s' k.
Proof.
  intros E. destruct l as [state|f|id|created|c|c|j|j|j order|j|j|j|j timed_out]; simpl in E; try done.
  - destruct (workers s !! j) as [w|] eqn:Ew; [|done]. simpl in E. destruct (pc w) eqn:Ep; try done. injection E as <-.
    assert (Hp : pc_of j s = Some Testing) by (unfold pc_of; by rewrite Ew, <-Ep).
    assert (Ht : stop_token <$> workers s !! j = Some (stop_token w)) by by rewrite Ew.
    pose proof (move_test s j _ Ht) as Hm.
    destruct (stop_token w); [by eapply moved_ends|by eapply moved_at_pc].
  - destruct (pc_of j s) as [[]|] eqn:Ej; try done. injection E as <-. eapply moved_at_pc; [done|done|exact Ej|constructor].
  - destruct (pc_of j s) as [[]|] eqn:Ej; try done. case_bool_decide as Hp; [|done]. injection E as <-.
    eapply moved_at_pc; [done|done|exact Ej|by constructor].
  - destruct (pc_of j s) as [[| | |[|[id f] rest] state| |]|] eqn:Ej; try done. injection E as <-.
    eapply moved_at_pc; [done|done|exact Ej|constructor].
  - destruct (pc_of j s) as [[| | | |[i|] rest state|]|] eqn:Ej; try done. injection E as <-.
    eapply moved_at_pc; [done|done|exact Ej|constructor].
  - destruct (workers s !! j) as [w|] eqn:Ew; [|done]. simpl in E. destruct (pc w) as [| | |[|] state| |] eqn:Ep; try done.
    injection E as <-. unfold stops.
    assert (Hp : pc_of j s = Some (Calling [] state)) by (unfold pc_of; by rewrite Ew, <-Ep).
    assert (Ht : stop_token <$> workers s !! j = Some (stop_token w)) by by rewrite Ew.
    pose proof (move_sleep s j _ state Ht) as Hm.
    destruct (_ || _); [by eapply moved_ends|by eapply moved_at_pc].
  - destruct (workers s !! j) as [w|] eqn:Ew; [|done]. simpl in E. destruct (pc w) eqn:Ep; try done.
    injection E as <-. unfold stops.
    assert (Hp : pc_of j s = Some Asleep) by (unfold pc_of; by rewrite Ew, <-Ep).
    assert (Ht : stop_token <$> workers s !! j = Some (stop_token w)) by by rewrite Ew.
    pose proof (move_wake s j _ timed_out Ht) as Hm.
    destruct (_ || _); [by eapply moved_ends|]. destruct timed_out; [by eapply moved_at_pc|].
    destruct (decide (j = k)) as [->|Hne]; [right; exists Asleep; split; [done|by rewrite Hp]|].
    left. split; [by intros [= ->]|done].
Qed.

Lemma exec_moved_or_starts l s s' k :
  telemetry_exec l s = Some s' → state_ok s →
  moved s l s' k ∨ k = next_worker s ∧ pc_of k s' = Some Testing.
Proof.
  unfold telemetry_exec. destruct (service_exec l s) eqn:E; [intros [= <-]; by apply service_exec_moved|].
  intros E' _. left. by apply worker_exec_moved.
Qed.

Lemma exec_moved l s s' k :
  telemetry_exec l s = Some s' → state_ok s → (k < next_worker s)%nat → moved s l s' k.
Proof. intros E Hs Hk. destruct (exec_moved_or_starts l s s' k E Hs) as [?|[-> _]]; [done|lia]. Qed.

(* ------------------------------------------------------------------ *)
(** ** What a transition does to the rest *)

(** The calls that a transition makes. *)
Definition calls_by s l : list (Z * Listener * RobotState) :=
  match l with
  | WorkerCalls k => match pc_of k s with Some (Calling ((id, f) :: _) state) => [(id, f, state)] | _ => [] end
  | _ => []
  end.

Definition subscribed_after s l : gmap Z Listener :=
  match l with
  | Subscribes f => listeners_ (Subscribe f (service s)).2
  | Unsubscribes id => listeners_ (Unsubscribe id (service s)).2
  | _ => listeners_ (service s)
  end.

Lemma Stop_begin_listeners self x : listeners_ (Stop_begin self x).2 = listeners_ x.
Proof. unfold Stop_begin. simpl. destruct (worker_ x); [|done]. by case_bool_decide. Qed.

Lemma stop_begins_rest self s :
  listeners_ (service (stop_begins self s).2) = listeners_ (service s) ∧
  called (stop_begins self s).2 = called s ∧ next_worker (stop_begins self s).2 = next_worker s ∧
  waiting (stop_begins self s).2 = waiting s.
Proof.
  pose proof (Stop_begin_listeners self (service s)) as H. unfold stop_begins.
  destruct (Stop_begin self (service s)) as [[[k|] join] x]; simpl in *; by split_and!.
Qed.

Lemma exec_rest l s s' :
  telemetry_exec l s = Some s' →
  listeners_ (service s') = subscribed_after s l ∧ called s' = called s ++ calls_by s l ∧
  (next_worker s <= next_worker s')%nat ∧
  ∀ t k, l ≠ Joins (OtherThread t) → waiting s !! t = Some k → waiting s' !! t = Some k.
Proof.
  unfold telemetry_exec. intros E.
  destruct l as [state|f|id|created|[t|k]|[t|k]|k|k|k order|k|k|k|k timed_out]; simpl in E.
  - injection E as <-. simpl. by rewrite !app_nil_r.
  - injection E as <-. simpl. by rewrite !app_nil_r.
  - injection E as <-. simpl. by rewrite !app_nil_r.
  - destruct (Start _ _) as [started x] eqn:Ex. injection E as <-. simpl. rewrite !app_nil_r.
    assert (listeners_ x = listeners_ (service s)) as <-.
    { unfold Start in Ex. destruct (negb _ || _); [by injection Ex as _ <-|]. by destruct created; injection Ex as _ <-. }
    destruct started; split_and!; try done; simpl; lia.
  - destruct (waiting s !! t) eqn:Et; [done|]. destruct (stop_begins_rest None s) as (H1 & H2 & H3 & H4).
    destruct (stop_begins None s) as [join s1]. injection E as <-. simpl in *. rewrite !app_nil_r, <-H1, <-H2, <-H3, <-H4.
    destruct join; split_and!; try done. intros t' i _ Hi. simpl. rewrite lookup_insert_ne; [done|]. congruence.
  - destruct (pc_of k s) as [[| | | |[j|] rest state|]|]; try done. destruct (stop_begins_rest (Some k) s) as (H1 & H2 & H3 & H4).
    destruct (stop_begins (Some k) s) as [join s1]. injection E as <-. simpl in *. by rewrite !app_nil_r, <-H1, <-H2, <-H3, <-H4.
  - destruct (waiting s !! t) as [j|]; [|done]. simpl in E. destruct (workers s !! j); [done|]. injection E as <-.
    simpl. rewrite !app_nil_r. split_and!; try done. intros t' i Hne Hi. rewrite lookup_delete_ne; [done|]. congruence.
  - destruct (pc_of k s) as [[| | | |[j|] rest state|]|]; try done. destruct (workers s !! j); [done|]. injection E as <-.
    simpl. by rewrite !app_nil_r.
  - destruct (workers s !! k) as [w|]; [|done]. simpl in E. destruct (pc w); try done. injection E as <-.
    destruct (stop_token w); simpl; by rewrite !app_nil_r.
  - destruct (pc_of k s) as [[]|]; try done. injection E as <-. simpl. by rewrite !app_nil_r.
  - destruct (pc_of k s) as [[]|]; try done. case_bool_decide; [|done]. injection E as <-. simpl. by rewrite !app_nil_r.
  - destruct (pc_of k s) as [[| | |[|[id f] rest] state| |]|] eqn:Ek; try done. injection E as <-. simpl. by rewrite Ek, ?app_nil_r.
  - destruct (pc_of k s) as [[| | | |[j|] rest state|]|]; try done. injection E as <-. simpl. by rewrite !app_nil_r.
  - destruct (workers s !! k) as [w|]; [|done]. simpl in E. destruct (pc w) as [| | |[|] state| |]; try done.
    injection E as <-. destruct (stops w s); simpl; by rewrite !app_nil_r.
  - destruct (workers s !! k) as [w|]; [|done]. simpl in E. destruct (pc w); try done. injection E as <-.
    destruct (stops w s); [|destruct timed_out]; simpl; by rewrite !app_nil_r.
Qed.

(* ------------------------------------------------------------------ *)
(** ** Stopping the service *)

(** A transition of worker [k] itself, apart from what its listeners do. *)
Definition worker_of l : option nat :=
  match l with
  | WorkerTests k | WorkerReads k | WorkerCopies k _ | WorkerCalls k | WorkerReturns k | WorkerSleeps k
  | WorkerWakes k _ => Some k
  | _ => None
  end.

Definition own k l : nat := if bool_decide (worker_of l = Some k) then 1 else 0.
Definition subscribing l : nat := match l with Subscribes _ => 1 | _ => 0 end.

(** How many transitions a worker that has been asked to stop can still make,
    when there are [n] listeners. *)
Definition work (p : WorkerPc) (n : nat) : nat :=
  match p with
  | Testing | Asleep => 1
  | Reading => 2 * n + 3
  | Copying _ => 2 * n + 2
  | Calling rest _ => 2 * length rest + 1
  | InListener _ rest _ => 2 * length rest + 2
  end.

Definition work_of k s : nat :=
  match pc_of k s with Some p => work p (size (listeners_ (service s))) | None => 0 end.

Lemma work_mono p n m : (n <= m)%nat → (work p n <= work p m)%nat.
Proof. destruct p; simpl; lia. Qed.

Lemma size_subscribed_after s l : (size (subscribed_after s l) <= size (listeners_ (service s)) + subscribing l)%nat.
Proof.
  destruct l; simpl; try lia.
  - destruct listener as [f|]; simpl; [|lia].
    assert (Hl : ∀ n x, listeners_ (allocate n x).2 = listeners_ x).
    { induction n as [|n IH]; intros x; simpl; [done|]. destruct (negb _ && _); [done|]. by rewrite IH. }
    specialize (Hl (S (size (listeners_ (service s)))) (service s)). unfold AllocateSubscriptionIdLocked.
    destruct (allocate _ _) as [id x]. simpl in Hl. destruct (id =? _); simpl; rewrite Hl; [lia|].
    destruct (listeners_ (service s) !! id) eqn:E; [rewrite map_size_insert_Some by by eexists|rewrite map_size_insert_None by done]; lia.
  - unfold Unsubscribe. destruct (id =? _); simpl; [lia|]. pose proof (map_size_delete id (listeners_ (service s))) as H.
    rewrite H. destruct (listeners_ (service s) !! id); simpl; lia.
Qed.

Lemma length_copy_listeners order (m : gmap Z Listener) :
  order ≡ₚ (map_to_list m).*1 → (length (copy_listeners order m) <= size m)%nat.
Proof.
  intros Hp. assert (length order = size m) as <- by (by rewrite Hp, length_fmap, length_map_to_list).
  clear Hp. induction order as [|id order IH]; simpl; [lia|]. unfold copy_listeners in *. simpl.
  destruct (m !! id); simpl; lia.
Qed.

(** A worker that somebody waits for comes closer to its end with each of its
    transitions, and is not kept from it but by new subscriptions. *)
Lemma work_step l s s' k :
  telemetry_exec l s = Some s' → state_ok s → waited_for s k →
  (work_of k s' + own k l <= work_of k s + 2 * subscribing l)%nat.
Proof.
  intros E Hs (Hk & _ & Ht). destruct (exec_rest l s s' E) as (Hl & _ & _).
  pose proof (size_subscribed_after s l) as Hsize. rewrite <-Hl in Hsize. unfold work_of, own.
  destruct (exec_moved l s s' k E Hs Hk) as [[Hm ->]|(p & -> & Hm)].
  - rewrite bool_decide_false; [|by intros Hw; apply Hm; destruct l; simpl in *].
    destruct (pc_of k s) as [p|]; [|lia].
    pose proof (work_mono p _ _ Hsize). destruct p; simpl in *; lia.
  - assert (Htrue : ∀ tok, stop_token <$> workers s !! k = Some tok → tok = true).
    { intros [|] H; [done|]. by destruct Ht. }
    inversion Hm as [tok Htok|state|order state Hp|id f rest state|rest state|tok state Htok|tok b Htok|join rest state|j rest state];
      subst; simpl in *; rewrite ?bool_decide_true by done; try rewrite (Htrue _ Htok); rewrite ?orb_true_r; try lia.
    pose proof (length_copy_listeners _ _ Hp). lia.
Qed.

(** Only [Joins c] ends a wait of [c]. *)
Lemma caller_step l s s' c k :
  telemetry_exec l s = Some s' → state_ok s → l ≠ Joins c → waits s c = Some k → waits s' c = Some k.
Proof.
  intros E Hs Hl Hw. destruct c as [t|i]; [by apply (exec_rest l s s' E)|].
  assert (Hi : (i < next_worker s)%nat).
  { apply (ok_workers _ Hs). simpl in Hw. apply bind_Some in Hw as (p & (w & Hw & _)%pc_of_Some & _). by eexists. }
  destruct (exec_moved l s s' i E Hs Hi) as [[_ Hp]|(p & Hp & Hm)]; simpl in *; [by rewrite Hp|].
  rewrite Hp in Hw. simpl in Hw. inversion Hm; subst; try done.
Qed.

Lemma wait_run c k ls s s' :
  telemetry_run ls s = Some s' → state_ok s → Joins c ∉ ls → waits s c = Some k →
  waits s' c = Some k ∧ state_ok s' ∧
  (work_of k s' + sum_list_with (own k) ls <= work_of k s + 2 * sum_list_with subscribing ls)%nat.
Proof.
  revert s. induction ls as [|l ls IH]; intros s; simpl; [intros [= <-]; intros; split_and!; try done; lia|].
  destruct (telemetry_exec l s) as [s1|] eqn:E; [|done]. simpl. intros E' Hs Hn Hw.
  apply not_elem_of_cons in Hn as [Hn1 Hn2].
  assert (Hs1 : state_ok s1) by by eapply telemetry_exec_ok.
  assert (Hw1 : waits s1 c = Some k) by by eapply caller_step.
  destruct (IH s1 E' Hs1 Hn2 Hw1) as (H1 & H2 & H3). split_and!; [done|done|].
  pose proof (work_step l s s1 k E Hs (ok_waits _ Hs c k Hw)). lia.
Qed.

(** A transition of worker [j], or of one of its listeners that has waited. *)
Definition runs_worker (j : nat) l : Prop := worker_of l = Some j ∨ l = Joins (InWorker j).

(** A worker that is waited for can go on, or it waits itself for one that can. *)
Lemma waited_for_goes_on s k :
  state_ok s → waited_for s k → is_Some (workers s !! k) →
  ∃ l j, (k <= j)%nat ∧ waited_for s j ∧ runs_worker j l ∧ is_Some (telemetry_exec l s).
Proof.
  intros Hs. remember (next_worker s - k)%nat as n eqn:En. revert k En.
  induction n as [n IH] using lt_wf_ind. intros k -> Hk [w Hw].
  assert (Ht : stop_token w = true).
  { destruct Hk as (_ & _ & Ht). rewrite Hw in Ht. simpl in Ht. by destruct (stop_token w). }
  assert (Hp : pc_of k s = Some (pc w)) by (unfold pc_of; by rewrite Hw).
  assert (Hgo : ∀ l, runs_worker k l → is_Some (telemetry_exec l s) →
    ∃ l j, (k <= j)%nat ∧ waited_for s j ∧ runs_worker j l ∧ is_Some (telemetry_exec l s)).
  { intros l Hl Hx. by exists l, k. }
  destruct (pc w) as [| |state|[|[id f] rest] state|[j|] rest state|] eqn:Epc.
  - apply (Hgo (WorkerTests k)); [by left|]. unfold telemetry_exec. simpl. rewrite Hw. simpl. rewrite Epc. by eexists.
  - apply (Hgo (WorkerReads k)); [by left|]. unfold telemetry_exec. simpl. rewrite Hp. by eexists.
  - apply (Hgo (WorkerCopies k (map_to_list (listeners_ (service s))).*1)); [by left|]. unfold telemetry_exec. simpl.
    rewrite Hp, bool_decide_true by done. by eexists.
  - apply (Hgo (WorkerSleeps k)); [by left|]. unfold telemetry_exec. simpl. rewrite Hw. simpl. rewrite Epc. by eexists.
  - apply (Hgo (WorkerCalls k)); [by left|]. unfold telemetry_exec. simpl. rewrite Hp. by eexists.
  - assert (Hj : waits s (InWorker k) = Some j) by (simpl; by rewrite Hp).
    pose proof (ok_newer _ Hs _ _ Hj). pose proof (ok_waits _ Hs _ _ Hj) as Hwj.
    destruct (workers s !! j) as [wj|] eqn:Ej.
    + assert (k < next_worker s)%nat by (apply Hs; by eexists).
      destruct (IH (next_worker s - j)%nat ltac:(lia) j eq_refl Hwj ltac:(by eexists)) as (l & i & Hi & Hx). exists l, i. split; [lia|done].
    + apply (Hgo (Joins (InWorker k))); [by right|]. unfold telemetry_exec. simpl. rewrite Hp, Ej. by eexists.
  - apply (Hgo (WorkerReturns k)); [by left|]. unfold telemetry_exec. simpl. rewrite Hp. by eexists.
  - apply (Hgo (WorkerWakes k false)); [by left|]. unfold telemetry_exec. simpl. rewrite Hw. simpl. rewrite Epc. by eexists.
Qed.

(** C36: Whoever stops the service does not wait for ever, even if listeners stop
    it too: the worker that a thread or a listener waits for has been asked to stop
    and makes boundedly many transitions of its own, a number that grows only with
    new subscriptions; until it has ended there is always a transition of it, or of
    a worker that it waits for in turn; and then the wait can end. *)
Theorem Stop_ends ls b interval m s c k :
  telemetry_run ls (initial b interval m) = Some s → waits s c = Some k →
  ∀ ls' s', Joins c ∉ ls' → telemetry_run ls' s = Some s' →
    (sum_list_with (own k) ls' <= work_of k s + 2 * sum_list_with subscribing ls')%nat ∧
    match workers s' !! k with
    | Some w => stop_token w = true ∧
        ∃ l j, (k <= j)%nat ∧ waited_for s' j ∧ runs_worker j l ∧ is_Some (telemetry_exec l s')
    | None => is_Some (telemetry_exec (Joins c) s')
    end.
Proof.
  intros E Hw ls' s' Hn E'. pose proof (telemetry_run_ok _ _ _ E (telemetry_initial_ok b interval m)) as Hs.
  destruct (wait_run c k ls' s s' E' Hs Hn Hw) as (Hw' & Hs' & Hb). split; [lia|].
  pose proof (ok_waits _ Hs' c k Hw') as Hk. destruct (workers s' !! k) as [w|] eqn:Ek.
  - split; [|by apply waited_for_goes_on; [..|by eexists]].
    destruct Hk as (_ & _ & Ht). rewrite Ek in Ht. simpl in Ht. by destruct (stop_token w).
  - unfold telemetry_exec. destruct c as [t|i]; simpl in *.
    + rewrite Hw'. simpl. rewrite Ek. by eexists.
    + apply bind_Some in Hw' as (p & -> & Hp). destruct p as [| | | |[j|] rest state|]; try done.
      injection Hp as ->. rewrite Ek. by eexists.
Qed.

(* ------------------------------------------------------------------ *)
(** ** Subscriptions *)

(** A listener is given a subscription of its own: an identifier that is not 0
    and that no other listener has, unless all [2 ^ 64 - 1] are taken; the other
    subscriptions stay, and removing it answers whether it was there. *)
Theorem Subscribe_exact ls b interval m s f id :
  telemetry_run ls (initial b interval m) = Some s → Z.of_nat (size (listeners_ (service s))) < u64_modulus - 1 →
  (let '(new, x) := Subscribe (Some f) (service s) in
   1 <= new < u64_modulus ∧ listeners_ (service s) !! new = None ∧ listeners_ x = <[new := f]> (listeners_ (service s))) ∧
  Unsubscribe id (service s) =
    (bool_decide (is_Some (listeners_ (service s) !! id)), (service s) <| listeners_ ::= delete id |>).
Proof.
  intros E Hsize. pose proof (ok_ids _ (telemetry_run_ok _ _ _ E (telemetry_initial_ok b interval m))) as [Hn Hl]. split.
  - unfold Subscribe. destruct (AllocateSubscriptionIdLocked_spec (service s) Hn Hsize) as (id' & new & -> & _ & Hid & Hfree).
    destruct (Z.eqb_spec new kInvalidSubscriptionId) as [->|_]; [|by split; [exact Hid|]].
    unfold valid_id, kInvalidSubscriptionId in Hid. lia.
  - unfold Unsubscribe. destruct (Z.eqb_spec id kInvalidSubscriptionId) as [->|_]; [|done].
    destruct (listeners_ (service s) !! kInvalidSubscriptionId) eqn:E0.
    { assert (H0 : valid_id kInvalidSubscriptionId) by (apply Hl; by eexists). unfold valid_id, kInvalidSubscriptionId in H0. lia. }
    simpl. f_equal. destruct (service s) as [? ? subs ? ? ?]. simpl in *. by rewrite delete_id.
Qed.

(* ------------------------------------------------------------------ *)
(** ** Calls after the end of a subscription *)

(** Whether worker [k] has a copy of the listener that it is still to call. *)
Definition holds id k s : nat :=
  match pc_of k s with Some p => if bool_decide (id ∈ (held p).*1) then 1 else 0 | None => 0 end.

(** How many workers have one. *)
Definition pending id s : nat := sum_list_with (λ k, holds id k s) (seq 0 (next_worker s)).

Definition times (id : Z) (calls : list (Z * Listener * RobotState)) : nat :=
  length (filter (λ y, y.1.1 = id) calls).

(** No listener has the identifier at any time. *)
Fixpoint stays_out id ls s : Prop :=
  listeners_ (service s) !! id = None ∧
  match ls with
  | [] => True
  | l :: ls => match telemetry_exec l s with Some s => stays_out id ls s | None => True end
  end.

Lemma elem_of_copy_listeners id order (m : gmap Z Listener) :
  id ∈ (copy_listeners order m).*1 → is_Some (m !! id).
Proof.
  intros (y & -> & (i & _ & E)%list_elem_of_omap)%list_elem_of_fmap. destruct (m !! i) eqn:Ei; [|done].
  injection E as <-. simpl. rewrite Ei. by eexists.
Qed.

(** The call of the listener by worker [k]. *)
Definition calls_from id k s l : nat := if bool_decide (mover l = Some k) then times id (calls_by s l) else 0.

Lemma holds_step id l s s' k :
  telemetry_exec l s = Some s' → state_ok s → listeners_ (service s) !! id = None → (k < next_worker s)%nat →
  (holds id k s' + calls_from id k s l <= holds id k s)%nat.
Proof.
  intros E Hs Hn Hk. unfold holds, calls_from.
  destruct (exec_moved l s s' k E Hs Hk) as [[Hm ->]|(p & Hp & Hm)]; [rewrite bool_decide_false by done; lia|].
  pose proof (ok_held _ Hs k p Hp) as Hd. rewrite Hp.
  assert (Hc : mover l = Some k) by by destruct Hm. rewrite bool_decide_true by done.
  inversion Hm as [tok Htok|state|order state Hperm|id' f rest state|rest state|tok state Htok|tok b Htok|join rest state|j rest state];
    subst; simpl; unfold times; simpl; try (by destruct (_ || _)); try (by destruct tok); try lia.
  - rewrite bool_decide_false; [simpl; lia|]. intros [? Hx]%elem_of_copy_listeners. congruence.
  - rewrite Hp. simpl in *. apply NoDup_cons in Hd as [Hd1 Hd2]. rewrite filter_cons. simpl.
    destruct (decide (id' = id)) as [->|Hne].
    + rewrite (bool_decide_false (id ∈ rest.*1)) by done. rewrite bool_decide_true by left. done.
    + destruct (decide (id ∈ rest.*1)); [rewrite !bool_decide_true by (done || by right); simpl; lia|].
      rewrite bool_decide_false by done. simpl. lia.
  - destruct (_ || tok); simpl; [|destruct b]; rewrite ?bool_decide_false by (by intros ?%elem_of_nil); lia.
Qed.

Lemma sum_list_with_le {A} (f g h : A → nat) (xs : list A) :
  (∀ y, y ∈ xs → (f y + g y <= h y)%nat) → (sum_list_with f xs + sum_list_with g xs <= sum_list_with h xs)%nat.
Proof.
  induction xs as [|y xs IH]; intros Hle; simpl; [lia|].
  pose proof (Hle y ltac:(left)). assert (∀ z, z ∈ xs → (f z + g z <= h z)%nat) by (intros; apply Hle; by right).
  specialize (IH ltac:(done)). lia.
Qed.

Lemma holds_new id l s s' k :
  telemetry_exec l s = Some s' → state_ok s → (next_worker s <= k)%nat → holds id k s' = 0%nat.
Proof.
  intros E Hs Hk. assert (Hnone : pc_of k s = None).
  { destruct (pc_of k s) as [p|] eqn:Ep; [|done]. apply pc_of_Some in Ep as (w & Hw & _).
    assert (k < next_worker s)%nat by (apply Hs; by eexists). lia. }
  unfold holds. destruct (exec_moved_or_starts l s s' k E Hs) as [[[_ Hp]|(p & Hp & _)]|[_ Hp]].
  - by rewrite Hp, Hnone.
  - congruence.
  - rewrite Hp. by rewrite bool_decide_false by (simpl; by intros ?%elem_of_nil).
Qed.

Lemma pending_step id l s s' :
  telemetry_exec l s = Some s' → state_ok s → listeners_ (service s) !! id = None →
  (pending id s' + times id (calls_by s l) <= pending id s)%nat.
Proof.
  intros E Hs Hn. destruct (exec_rest l s s' E) as (_ & _ & Hnext & _). unfold pending.
  assert (H0 : sum_list_with (λ k, holds id k s') (seq (next_worker s) (next_worker s' - next_worker s)) = 0%nat).
  { apply Nat.le_0_r. etransitivity; [|apply Nat.eq_le_incl].
    - apply (Nat.le_trans _ _ _ (Nat.le_add_r _ 0)). etransitivity; [apply Nat.add_le_mono_l, Nat.le_0_l|].
      apply (sum_list_with_le _ (λ _, 0%nat) (λ _, 0%nat)). intros k [Hk _]%elem_of_seq. by rewrite (holds_new id l s s').
    - by induction (seq _ _). }
  replace (next_worker s') with (next_worker s + (next_worker s' - next_worker s))%nat by lia.
  rewrite seq_app, sum_list_with_app. rewrite Nat.add_0_l, H0.
  assert (Hc : (times id (calls_by s l) <= sum_list_with (λ k, calls_from id k s l) (seq 0 (next_worker s)))%nat).
  { destruct l as [| | | | | | | | |k| | |]; try (unfold times; simpl; lia).
    simpl. destruct (pc_of k s) as [p|] eqn:Ep; [|unfold times; simpl; lia].
    assert (Hk : k ∈ seq 0 (next_worker s)).
    { apply pc_of_Some in Ep as (w & Hw & _). apply elem_of_seq. split; [lia|]. apply (ok_workers _ Hs). by eexists. }
    pose proof (sum_list_with_in k (λ k', calls_from id k' s (WorkerCalls k)) _ Hk) as Hsum.
    unfold calls_from in Hsum at 1. rewrite bool_decide_true in Hsum by done. simpl in Hsum. by rewrite Ep in Hsum. }
  pose proof (sum_list_with_le (λ k, holds id k s') (λ k, calls_from id k s l) (λ k, holds id k s) (seq 0 (next_worker s))) as Hle.
  assert (∀ k, k ∈ seq 0 (next_worker s) → (holds id k s' + calls_from id k s l <= holds id k s)%nat).
  { intros k [_ Hk]%elem_of_seq. by apply holds_step. }
  specialize (Hle ltac:(done)). lia.
Qed.

(** C37: Once a listener is unsubscribed it is called at most once more by each
    worker that has already copied it for its present round, and by no other: as
    long as the identifier is not given out again, the calls are no more than the
    copies that were there. *)
Theorem unsubscribed_calls ls b interval m s id ls' s' :
  telemetry_run ls (initial b interval m) = Some s → telemetry_run ls' s = Some s' → stays_out id ls' s →
  (times id (called s') + pending id s' <= times id (called s) + pending id s)%nat.
Proof.
  intros E. pose proof (telemetry_run_ok _ _ _ E (telemetry_initial_ok b interval m)) as Hs. clear E. revert s Hs.
  induction ls' as [|l ls' IH]; intros s Hs; simpl; [by intros [= <-]|].
  destruct (telemetry_exec l s) as [s1|] eqn:E; [|done]. simpl. intros E' [Hn Ho].
  specialize (IH s1 (telemetry_exec_ok l s s1 E Hs) E' Ho).
  pose proof (pending_step id l s s1 E Hs Hn) as Hp. destruct (exec_rest l s s1 E) as (_ & Hc & _ & _).
  assert (Ht : times id (called s1) = (times id (called s) + times id (calls_by s l))%nat).
  { unfold times. by rewrite Hc, filter_app, length_app. }
  lia.
Qed.
End Telemetry.

(* ------------------------------------------------------------------ *)
(** ** Witnesses, and two last calls *)

(** Listener 1 is subscribed, and a thread stops worker 0 while it has a copy. *)
Definition stopping_worker : list (TelemetryLabel (Listener := nat)) :=
  [Subscribes (Some 7%nat); Starts true; WorkerTests 0; WorkerReads 0; WorkerCopies 0 [1]; StopBegins (OtherThread 0)].

Definition sample_telemetry (ls : list (TelemetryLabel (Listener := nat))) : TelemetryState (Listener := nat) :=
  default (initial true 50 (mkRobotStateManager default_RobotState))
    (telemetry_run ls (initial true 50 (mkRobotStateManager default_RobotState))).

Lemma sample_telemetry_run ls :
  is_Some (telemetry_run ls (initial true 50 (mkRobotStateManager default_RobotState))) →
  telemetry_run ls (initial true 50 (mkRobotStateManager default_RobotState)) = Some (sample_telemetry ls).
Proof. unfold sample_telemetry. by intros [s ->]. Qed.

Lemma stopping_worker_runs : is_Some (telemetry_run stopping_worker (initial true 50 (mkRobotStateManager default_RobotState))).
Proof. vm_compute. by eexists. Qed.

Lemma stopping_worker_waits : waits (sample_telemetry stopping_worker) (OtherThread 0) = Some 0%nat.
Proof. by vm_compute. Qed.

Lemma Stop_ends_witness :
  waits (sample_telemetry stopping_worker) (OtherThread 0) = Some 0%nat ∧
  ∃ l j, (0 <= j)%nat ∧ waited_for (sample_telemetry stopping_worker) j ∧ runs_worker j l ∧
    is_Some (telemetry_exec l (sample_telemetry stopping_worker)).
Proof.
  split; [exact stopping_worker_waits|].
  destruct (Stop_ends stopping_worker true 50 (mkRobotStateManager default_RobotState) (sample_telemetry stopping_worker)
    (OtherThread 0) 0 (sample_telemetry_run _ stopping_worker_runs) stopping_worker_waits [] _ (not_elem_of_nil _) eq_refl)
    as [_ H].
  exact (proj2 H).
Defined.

Lemma Subscribe_exact_witness :
  let '(new, x) := Subscribe (Some 8%nat) (service (sample_telemetry stopping_worker)) in
  1 <= new < u64_modulus ∧ listeners_ (service (sample_telemetry stopping_worker)) !! new = None ∧
  listeners_ x = <[new := 8%nat]> (listeners_ (service (sample_telemetry stopping_worker))).
Proof.
  refine (proj1 (Subscribe_exact stopping_worker true 50 (mkRobotStateManager default_RobotState)
    (sample_telemetry stopping_worker) 8%nat 1 (sample_telemetry_run _ stopping_worker_runs) _)).
  vm_compute. reflexivity.
Defined.

(** The thread returns, another starts worker 1, which copies the listener too;
    then it is unsubscribed, and both workers call it. *)
Definition called_twice : list (TelemetryLabel (Listener := nat)) :=
  stopping_worker ++ [Starts true; WorkerTests 1; WorkerReads 1; WorkerCopies 1 [1]].

Definition unsubscribed : list (TelemetryLabel (Listener := nat)) :=
  [Unsubscribes 1; WorkerCalls 0; WorkerCalls 1].

Lemma called_twice_runs : is_Some (telemetry_run called_twice (initial true 50 (mkRobotStateManager default_RobotState))).
Proof. vm_compute. by eexists. Qed.

Definition after_unsubscribe : TelemetryState (Listener := nat) := sample_telemetry (called_twice ++ [Unsubscribes 1]).

Lemma after_unsubscribe_runs :
  telemetry_run (called_twice ++ [Unsubscribes 1]) (initial true 50 (mkRobotStateManager default_RobotState)) =
    Some after_unsubscribe.
Proof. apply sample_telemetry_run. vm_compute. by eexists. Qed.

Lemma last_calls_run :
  telemetry_run [WorkerCalls 0; WorkerCalls 1] after_unsubscribe =
    Some (sample_telemetry (called_twice ++ unsubscribed)).
Proof. by vm_compute. Qed.

Lemma last_calls_out : stays_out 1 [WorkerCalls 0; WorkerCalls 1] after_unsubscribe.
Proof. by vm_compute. Qed.

Lemma unsubscribed_calls_witness :
  (times 1 (called (sample_telemetry (called_twice ++ unsubscribed))) +
   pending 1 (sample_telemetry (called_twice ++ unsubscribed)) <=
   times 1 (called after_unsubscribe) + pending 1 after_unsubscribe)%nat ∧ pending 1 after_unsubscribe = 2%nat.
Proof.
  split; [|vm_compute; reflexivity].
  exact (unsubscribed_calls (called_twice ++ [Unsubscribes 1]) true 50 (mkRobotStateManager default_RobotState)
    after_unsubscribe 1 [WorkerCalls 0; WorkerCalls 1] _ after_unsubscribe_runs last_calls_run last_calls_out).
Defined.

(** The documentation promises one final snapshot. *)
Example two_final_snapshots :
  times 1 (called after_unsubscribe) = 0%nat ∧
  times 1 (called (sample_telemetry (called_twice ++ unsubscribed))) = 2%nat.
Proof. by vm_compute. Qed.

(** A listener that stops the service leaves its worker in its place: the worker
    has ended, but the service does not start again until another thread stops
    it. *)
Example stopped_from_listener :
  let s := sample_telemetry
    [Subscribes (Some 7%nat); Starts true; WorkerTests 0; WorkerReads 0; WorkerCopies 0 [1]; WorkerCalls 0;
     StopBegins (InWorker 0); WorkerReturns 0; WorkerSleeps 0] in
  workers s = ∅ ∧ (Start (Some 1%nat) (service s)).1 = false ∧
  (Start (Some 1%nat) (Stop_begin None (service s)).2).1 = true.
Proof. by vm_compute. Qed.
