(* ===== verification/Ros2Bridge.v ===== *)
(** * The ROS 2 bridge

    src/ros2/bridge/ROS2Bridge.cpp: the conversions of its messages, and the bridge
    between a telemetry service and ROS 2 users, over [Telemetry].  Commands that
    users submit go to the dispatcher of [CommandDispatcher], which is given and
    answers by a parameter here.  The callback that the bridge subscribes takes the
    lock of the bridge after it was called, so that several threads can be inside
    of it. *)

From Stdlib Require Import Ascii SpecFloat.
From S2P Require Import Prelude Command RobotState SafetyValidator CommandValidation Text PerceptionPipeline Telemetry TelemetryProperties.

Open Scope Z_scope.

(* ------------------------------------------------------------------ *)
(** ** Messages *)

Record RobotStateMessage := mkStateMessage {
  msg_connected : bool; msg_batteryLevel : float32; msg_charging : bool;
  msg_standing : bool; msg_walking : bool; msg_sitting : bool;
  msg_linearX : float32; msg_linearY : float32; msg_angularZ : float32;
  msg_positionX : float32; msg_positionY : float32; msg_positionZ : float32;
  msg_roll : float32; msg_pitch : float32; msg_yaw : float32;
  msg_emergencyStop : bool; msg_faultCode : Z; msg_timestamp : Z;
}.

Definition default_RobotStateMessage : RobotStateMessage :=
  let z := float32_of_Z 0 in mkStateMessage false z false false false false z z z z z z z z z false 0 0.

Definition FromRobotState (s : RobotState) : RobotStateMessage :=
  mkStateMessage (connected (connection s)) (batteryLevel (power s)) (charging (power s))
    (standing (motion s)) (walking (motion s)) (sitting (motion s))
    (linearX (velocity s)) (linearY (velocity s)) (angularZ (velocity s))
    (positionX (pose s)) (positionY (pose s)) (positionZ (pose s))
    (roll (orientation s)) (pitch (orientation s)) (yaw (orientation s))
    (emergencyStop (health s)) (faultCode (health s)) (state_timestamp s).

Record DetectionResultMessage := mkDetectionMessage {
  dm_id : string; dm_type : string; dm_confidence : spec_float; dm_label : string;
  dm_x : spec_float; dm_y : spec_float; dm_width : spec_float; dm_height : spec_float;
  dm_hasPosition : bool;
  dm_positionX : spec_float; dm_positionY : spec_float; dm_positionZ : spec_float;
  dm_coordinateFrame : string; dm_trackingId : string; dm_timestamp : Z;
}.

Definition detectionTypeName (t : DetectionType) : string :=
  match t with
  | DetectionObject => "Object"
  | DetectionPose => "Pose"
  | DetectionFace => "Face"
  | DetectionQrCode => "QrCode"
  | DetectionMarker => "Marker"
  | DetectionSemanticSegmentation => "SemanticSegmentation"
  | DetectionCustom => "Custom"
  end.

Definition FromDetectionResult (d : DetectionResult) : DetectionResultMessage :=
  let z := S754_zero false in
  let '(has, x, y, w, frame) :=
    match position d with
    | Some p => (true, position_x p, position_y p, position_z p, coordinateFrame p)
    | None => (false, z, z, z, "")
    end in
  mkDetectionMessage (detection_id d) (detectionTypeName (detection_type d)) (confidence d) (label d)
    (box_x (boundingBox d)) (box_y (boundingBox d)) (box_width (boundingBox d)) (box_height (boundingBox d))
    has x y w frame (trackingId d) (detection_timestamp d).

Record CommandMessage := mkCommandMessage {
  cm_id : Z; cm_type : string; cm_priority : string; cm_timeoutMs : Z;
  cm_payload : gmap string string; cm_metadata : gmap string string;
}.

Record CommandResultMessage := mkResultMessage {
  rm_id : Z; rm_status : string; rm_message : string; rm_success : bool;
}.

Definition commandTypeFromName (name : string) : CommandType :=
  let named s := bool_decide (name = s) in
  if named "Stand" then TypeStand
  else if named "Sit" then TypeSit
  else if named "Walk" then TypeWalk
  else if named "Stop" then TypeStop
  else if named "Move" then TypeMove
  else if named "Rotate" then TypeRotate
  else if named "Velocity" then TypeVelocity
  else if named "EmergencyStop" then TypeEmergencyStop
  else if named "HandOpen" then TypeHandOpen
  else if named "HandClose" then TypeHandClose
  else if named "Gesture" then TypeGesture
  else if named "PlayAudio" then TypePlayAudio
  else if named "StopAudio" then TypeStopAudio
  else if named "SetVolume" then TypeSetVolume
  else if named "MuteAudio" then TypeMuteAudio
  else TypeCustom.

Definition commandPriorityFromName (name : string) : CommandPriority :=
  let named s := bool_decide (name = s) in
  if named "Low" then PriorityLow
  else if named "High" then PriorityHigh
  else if named "Critical" then PriorityCritical
  else PriorityNormal.

(* ------------------------------------------------------------------ *)
(** ** Parameters of commands *)

Definition parseBool (value : string) : option bool :=
  let named s := bool_decide (value = s) in
  if named "true" || named "1" then Some true
  else if named "false" || named "0" then Some false
  else None.

Definition parseInteger (value : string) : option Z :=
  match from_chars_int64 (chars_of value) with Some (i, []) => Some i | _ => None end.

Definition to_lower (c : ascii) : ascii :=
  if (65 <=? code c) && (code c <=? 90) then ascii_of_N (N_of_ascii c + 32) else c.

(** A letter, a digit or an underscore. *)
Definition is_word (c : ascii) : bool :=
  is_digit c || ((97 <=? code (to_lower c)) && (code (to_lower c) <=? 122)) || bool_decide (c = "_"%char).

(** What [std::from_chars] takes besides numbers, in letters of any case: an
    infinity, and [nan], perhaps with a word in parentheses. *)
Definition from_chars_special (s : chars) : option spec_float :=
  let '(negative, s) := minus_sign s in
  let lower := map to_lower s in
  if bool_decide (lower = chars_of "inf") || bool_decide (lower = chars_of "infinity") then
    Some (S754_infinity negative)
  else match after_prefix (chars_of "nan") lower with
  | Some [] => Some S754_nan
  | Some rest =>
      match after_prefix ["("%char] rest with
      | Some rest => if bool_decide (drop_while is_word rest = [")"%char]) then Some S754_nan else None
      | None => None
      end
  | None => None
  end.

Definition parseDouble (value : string) : option spec_float :=
  match from_chars_double (chars_of value) with
  | Some (d, []) => Some d
  | _ => from_chars_special (chars_of value)
  end.

Definition parsePayloadValue (value : string) : CommandPayloadValue :=
  match parseBool value, parseInteger value, parseDouble value with
  | Some b, _, _ => PayloadBool b
  | None, Some i, _ => PayloadInt i
  | None, None, Some d => PayloadDouble d
  | None, None, None => PayloadString value
  end.

(** [now] is the time of the steady clock. *)
Definition ToCommand (now : Z) (m : CommandMessage) : Command :=
  mkCommand (cm_id m) now (commandTypeFromName (cm_type m)) (commandPriorityFromName (cm_priority m))
    (cm_timeoutMs m) (parsePayloadValue <$> cm_payload m) (cm_metadata m).

Definition FromCommandResult (r : CommandResult) : CommandResultMessage :=
  mkResultMessage 0 (CommandStatus_toString (status r)) (message r) (isSuccess r).

(* ------------------------------------------------------------------ *)
(** ** The bridge *)

Record ROS2BridgeOptions := mkBridgeOptions { nodeName : string; subscribeTelemetry : bool }.

(** Which of the dependencies are there, and the state. *)
Record ROS2Bridge := mkBridge {
  bridge_options : ROS2BridgeOptions;
  has_telemetryService : bool;
  running_ : bool;
  telemetry_subscription_ : option Z;
  last_telemetry_state_ : option RobotStateMessage;
}.

#[export] Instance eta_ROS2Bridge : EtaRecord ROS2Bridge := fun b =>
  mkBridge (bridge_options b) (has_telemetryService b) (running_ b) (telemetry_subscription_ b)
    (last_telemetry_state_ b).

Definition new_ROS2Bridge (o : ROS2BridgeOptions) (telemetry : bool) : ROS2Bridge := mkBridge o telemetry false None None.

Record ROS2BridgeStatus := mkBridgeStatus {
  status_running : bool; ros2RuntimeAvailable : bool; status_nodeName : string;
  publisherCount : Z; subscriberCount : Z; serviceCount : Z; actionCount : Z;
}.

(** [runtime] is the configuration HUMANOID_CORE_HAS_ROS2_RUNTIME. *)
Definition Bridge_Status (runtime : bool) (b : ROS2Bridge) : ROS2BridgeStatus :=
  mkBridgeStatus (running_ b) runtime (nodeName (bridge_options b)) 13 5 10 7.

(** The state manager's state before the adapter's. *)
Definition ReadRobotState (manager adapter : option RobotState) : RobotStateMessage :=
  match manager, adapter with
  | Some s, _ | None, Some s => FromRobotState s
  | None, None => default_RobotStateMessage
  end.

Definition rejectedCommand (id : Z) (m : string) : CommandResultMessage :=
  mkResultMessage id (CommandStatus_toString StatusRejected) m false.

(** [dispatcher] is [CommandDispatcher::Execute] of the dispatcher, if there is
    one. *)
Definition SubmitCommand (dispatcher : option (Command → CommandResult)) (now : Z) (m : CommandMessage) :
    CommandResultMessage :=
  match dispatcher with
  | None => rejectedCommand (cm_id m) "CommandDispatcher dependency is not configured"
  | Some Execute =>
      let r := FromCommandResult (Execute (ToCommand now m)) in
      mkResultMessage (cm_id m) (rm_status r) (rm_message r) (rm_success r)
  end.

(* ------------------------------------------------------------------ *)
(** ** The bridge and the telemetry service *)

(** Who listens to the service. *)
Inductive BridgeListener := FromBridge | FromOther (n : nat).

#[export] Instance BridgeListener_eq_dec : EqDecision BridgeListener.
Proof. solve_decision. Defined.

Abbreviation Service := (TelemetryState (Listener := BridgeListener)).

(** [unsubscribing] has the threads inside [Stop] that are to remove a
    subscription, [callbacks] the workers of the service that are inside the
    callback and have not yet taken the lock. *)
Record BridgeState := mkBridgeState {
  bridge : ROS2Bridge;
  telemetry : Service;
  unsubscribing : gmap nat Z;
  callbacks : gmap nat RobotState;
}.

#[export] Instance eta_BridgeState : EtaRecord BridgeState := fun s =>
  mkBridgeState (bridge s) (telemetry s) (unsubscribing s) (callbacks s).

Inductive BridgeLabel :=
  | BridgeStarts
  | BridgeStops (t : nat)
  | BridgeUnsubscribes (t : nat)
  | CallbackBegins (k : nat)
  | CallbackWrites (k : nat)
  | ServiceSteps (l : TelemetryLabel (Listener := BridgeListener)).

(** [Start]; it holds the lock while it subscribes. *)
Definition Bridge_Start (s : BridgeState) : bool * BridgeState :=
  let b := bridge s in
  if running_ b then (false, s)
  else
    let b := b <| running_ := true |> in
    if subscribeTelemetry (bridge_options b) && has_telemetryService b then
      let '(subscription_id, x) := Subscribe (Some FromBridge) (service (telemetry s)) in
      let b := if negb (subscription_id =? kInvalidSubscriptionId)
               then b <| telemetry_subscription_ := Some subscription_id |> else b in
      (true, s <| bridge := b |> <| telemetry ::= λ y, y <| service := x |> |>)
    else (true, s <| bridge := b |>).

(** [Stop] under the lock: whether it goes on, and the subscription to remove. *)
Definition Bridge_Stop_begin (b : ROS2Bridge) : option (option Z) * ROS2Bridge :=
  if negb (running_ b) && bool_decide (telemetry_subscription_ b = None) then (None, b)
  else (Some (if has_telemetryService b then telemetry_subscription_ b else None),
        b <| running_ := false |> <| telemetry_subscription_ := None |>).

(** What other users of the service do: they subscribe listeners of their own,
    and remove only those. *)
Definition others (l : TelemetryLabel (Listener := BridgeListener)) (s : Service) : bool :=
  match l with
  | Subscribes (Some FromBridge) => false
  | Unsubscribes id => negb (bool_decide (listeners_ (service s) !! id = Some FromBridge))
  | WorkerCalls k =>
      match pc_of k s with Some (Calling ((_, FromBridge) :: _) _) => false | _ => true end
  | _ => true
  end.

Definition bridge_exec (l : BridgeLabel) (s : BridgeState) : option BridgeState :=
  match l with
  | BridgeStarts => Some (Bridge_Start s).2
  | BridgeStops t =>
      match unsubscribing s !! t with
      | Some _ => None
      | None =>
          let '(r, b) := Bridge_Stop_begin (bridge s) in
          let s := s <| bridge := b |> in
          Some (match r with Some (Some id) => s <| unsubscribing ::= <[t := id]> |> | _ => s end)
      end
  | BridgeUnsubscribes t =>
      id ← unsubscribing s !! t;
      Some (s <| telemetry ::= λ y, y <| service := (Unsubscribe id (service y)).2 |> |>
              <| unsubscribing ::= delete t |>)
  | CallbackBegins k =>
      match pc_of k (telemetry s) with
      | Some (Calling ((_, FromBridge) :: _) state) =>
          y ← telemetry_exec (WorkerCalls k) (telemetry s);
          Some (s <| telemetry := y |> <| callbacks ::= <[k := state]> |>)
      | _ => None
      end
  | CallbackWrites k =>
      state ← callbacks s !! k;
      Some (s <| bridge ::= λ b, b <| last_telemetry_state_ := Some (FromRobotState state) |> |>
              <| callbacks ::= delete k |>)
  | ServiceSteps l =>
      if negb (others l (telemetry s)) then None
      else
        match l with
        | WorkerReturns k | StopBegins (InWorker k) =>
            if bool_decide (is_Some (callbacks s !! k)) then None
            else y ← telemetry_exec l (telemetry s); Some (s <| telemetry := y |>)
        | _ => y ← telemetry_exec l (telemetry s); Some (s <| telemetry := y |>)
        end
  end.

Fixpoint bridge_run (ls : list BridgeLabel) (s : BridgeState) : option BridgeState :=
  match ls with
  | [] => Some s
  | l :: ls => s ← bridge_exec l s; bridge_run ls s
  end.

Definition bridge_initial (o : ROS2BridgeOptions) (has_service state_manager : bool) (interval : Z)
    (m : RobotStateManager) : BridgeState :=
  mkBridgeState (new_ROS2Bridge o has_service) (initial state_manager interval m) ∅ ∅.

(* ------------------------------------------------------------------ *)
(** ** Names and parameters *)

Lemma commandTypeFromName_toString t :
  IsKnownCommandType t = true → commandTypeFromName (CommandType_toString t) = t.
Proof. by destruct t. Qed.

Lemma commandTypeFromName_exact name t :
  t ≠ TypeCustom → commandTypeFromName name = t ↔ IsKnownCommandType t = true ∧ name = CommandType_toString t.
Proof.
  intros Ht. split; [|intros [Hk ->]; by apply commandTypeFromName_toString].
  unfold commandTypeFromName. repeat case_bool_decide; intros <-; try done.
Qed.

Lemma commandPriorityFromName_toString p :
  IsKnownPriority p = true → commandPriorityFromName (CommandPriority_toString p) = p.
Proof. by destruct p. Qed.

(** The texts that are taken for truth values, two of which are numbers. *)
Definition bool_texts : list string := ["true"; "1"; "false"; "0"].

Lemma parseBool_None value : parseBool value = None ↔ value ∉ bool_texts.
Proof.
  unfold parseBool, bool_texts. rewrite !not_elem_of_cons, elem_of_nil.
  repeat case_bool_decide; simpl; naive_solver.
Qed.

(** A text that the bridge takes for a finite number in the range of floats. *)
Definition number_text (value : string) : Prop :=
  value ∉ bool_texts ∧
  ((∃ i, from_chars_int64 (chars_of value) = Some (i, []) ∧ IsFiniteFloat (double_of_int64 i) = true) ∨
   (∀ i, from_chars_int64 (chars_of value) ≠ Some (i, [])) ∧
   ∃ d, from_chars_double (chars_of value) = Some (d, []) ∧ IsFiniteFloat d = true).

Lemma parseInteger_exact value i : parseInteger value = Some i ↔ from_chars_int64 (chars_of value) = Some (i, []).
Proof.
  unfold parseInteger. destruct (from_chars_int64 _) as [[j [|c r]]|]; naive_solver.
Qed.

(** The special values are not finite. *)
Lemma from_chars_special_not_finite s d : from_chars_special s = Some d → IsFiniteFloat d = false.
Proof.
  unfold from_chars_special. destruct (minus_sign s) as [negative s']. destruct (_ || _); [by intros [= <-]|].
  destruct (after_prefix _ _) as [[|c r]|]; [by intros [= <-]| |done].
  destruct (after_prefix _ _); [|done]. case_bool_decide; [by intros [= <-]|done].
Qed.

Lemma parsePayloadValue_number value : is_number (parsePayloadValue value) ↔ number_text value.
Proof.
  unfold parsePayloadValue, number_text. destruct (parseBool value) as [b|] eqn:Eb.
  { split; [done|]. intros [Hn%parseBool_None _]. congruence. }
  apply parseBool_None in Eb. destruct (parseInteger value) as [i|] eqn:Ei.
  { apply parseInteger_exact in Ei. simpl. rewrite Is_true_true. split; [by eauto 6|].
    intros [_ [(j & Hj & Hf)|[Hn _]]]; [congruence|]. by destruct (Hn i). }
  assert (Hi : ∀ i, from_chars_int64 (chars_of value) ≠ Some (i, [])).
  { intros i Hx%parseInteger_exact. congruence. }
  destruct (parseDouble value) as [d|] eqn:Ed; unfold parseDouble in Ed.
  - simpl. rewrite Is_true_true. split.
    + intros Hf. split; [done|]. right. split; [done|]. exists d. split; [|done].
      destruct (from_chars_double _) as [[d' [|c r]]|]; [by injection Ed as ->|..];
        by rewrite (from_chars_special_not_finite _ _ Ed) in Hf.
    + intros [_ [(i & Hx & _)|[_ (d' & Hd & Hf)]]]; [by destruct (Hi i)|]. rewrite Hd in Ed. by injection Ed as <-.
  - split; [done|]. intros [_ [(i & Hx & _)|[_ (d' & Hd & Hf)]]]; [by destruct (Hi i)|]. by rewrite Hd in Ed.
Qed.

(** The parameters of a message for a velocity. *)
Lemma velocity_parameters now m :
  commandTypeFromName (cm_type m) ∈ [TypeWalk; TypeMove; TypeVelocity] →
  ValidatePayload (ToCommand now m) = None ↔
  ∃ x y z, cm_payload m = {[ "linear_x" := x; "linear_y" := y; "angular_z" := z ]} ∧
    number_text x ∧ number_text y ∧ number_text z.
Proof.
  intros Ht. split.
  - intros Hp%ValidatePayload_accepts. simpl in Hp. remember (commandTypeFromName (cm_type m)) as ty eqn:Ety.
    remember (parsePayloadValue <$> cm_payload m) as p eqn:Ep.
    assert (Hty : ty ∉ [TypeStand; TypeSit; TypeStop; TypeEmergencyStop; TypeHandOpen; TypeHandClose; TypeMuteAudio;
      TypeRotate; TypeGesture; TypePlayAudio; TypeStopAudio; TypeSetVolume; TypeCustom]).
    { clear -Ht. set_solver. }
    destruct Hp as [t Hx|t x y z _ Hx Hy Hz|z Hz|g|m' app stream pcm H1 H2 H3|app|v Hv|m'];
      try (exfalso; apply Hty; set_solver).
    assert (Hl : ∀ k v, ({[ "linear_x" := x; "linear_y" := y; "angular_z" := z ]} : CommandPayload) !! k = Some v →
      ∃ text, cm_payload m !! k = Some text ∧ v = parsePayloadValue text).
    { intros k v. rewrite Ep, lookup_fmap. intros (text & Hk & ->)%fmap_Some. by exists text. }
    destruct (Hl "linear_x" x ltac:(done)) as (tx & Htx & ->). destruct (Hl "linear_y" y ltac:(done)) as (ty & Htyy & ->).
    destruct (Hl "angular_z" z ltac:(done)) as (tz & Htz & ->). exists tx, ty, tz.
    rewrite <-!parsePayloadValue_number. split_and!; try done.
    apply map_eq. intros k. destruct (cm_payload m !! k) as [text|] eqn:Ek.
    + assert (Hk : (parsePayloadValue <$> cm_payload m) !! k = Some (parsePayloadValue text)) by (by rewrite lookup_fmap, Ek).
      rewrite <-Ep in Hk. rewrite !lookup_insert_Some, lookup_singleton_Some in Hk.
      destruct Hk as [[<- _]|[_ [[<- _]|[_ [<- _]]]]]; rewrite <-Ek; [by rewrite Htx|by rewrite Htyy|by rewrite Htz].
    + symmetry. rewrite !lookup_insert_None, lookup_singleton_None. split_and!; congruence.
  - intros (x & y & z & Hp & Hx%parsePayloadValue_number & Hy%parsePayloadValue_number & Hz%parsePayloadValue_number).
    apply ValidatePayload_complete. simpl. rewrite Hp, !fmap_insert.
    replace (parsePayloadValue <$> {[ "angular_z" := z ]}) with ({[ "angular_z" := parsePayloadValue z ]} : CommandPayload)
      by (symmetry; apply map_fmap_singleton).
    by constructor.
Qed.

Lemma commandPriorityFromName_known name : IsKnownPriority (commandPriorityFromName name) = true.
Proof. unfold commandPriorityFromName. by repeat case_bool_decide. Qed.

(** What [ValidateCommand] asks of the identifier, the type, the priority and the
    times. *)
Lemma ValidateCommand_admits c later :
  ValidateCommand c later = None ↔
  id c ≠ 0 ∧ 0 <= timeout c ∧ IsKnownCommandType (type c) = true ∧ IsKnownPriority (priority c) = true ∧
  (0 < timeout c → timestamp c ≠ 0 ∧ timestamp c <= later ∧ elapsed_ns later (timestamp c) < ns_of_ms (timeout c)) ∧
  ValidatePayload c = None.
Proof.
  unfold ValidateCommand, ValidateTimes, hasTimeout.
  destruct (Z.eqb_spec (id c) 0); [naive_solver|]. destruct (Z.ltb_spec (timeout c) 0); [naive_solver lia|].
  destruct (IsKnownCommandType (type c)); simpl; [|naive_solver].
  destruct (IsKnownPriority (priority c)); simpl; [|naive_solver].
  destruct (Z.ltb_spec 0 (timeout c)); [|naive_solver lia].
  destruct (Z.eqb_spec (timestamp c) 0); [naive_solver lia|].
  destruct (Z.ltb_spec later (timestamp c)); [naive_solver lia|].
  destruct (Z.leb_spec (ns_of_ms (timeout c)) (elapsed_ns later (timestamp c))); naive_solver lia.
Qed.

(** C39: The command made at time [now] of a message for a velocity passes the
    checks of the dispatcher at time [later] exactly if its identifier is not 0,
    its timeout is not negative and, if there is one, not used up, and it has the
    three parameters and no more, each the text of a finite number in the range of
    floats other than [0] and [1]: these two are taken for truth values. *)
Theorem velocity_message_exact now later m :
  commandTypeFromName (cm_type m) ∈ [TypeWalk; TypeMove; TypeVelocity] →
  ValidateCommand (ToCommand now m) later = None ↔
  cm_id m ≠ 0 ∧ 0 <= cm_timeoutMs m ∧
  (0 < cm_timeoutMs m → now ≠ 0 ∧ now <= later ∧ elapsed_ns later now < ns_of_ms (cm_timeoutMs m)) ∧
  ∃ x y z, cm_payload m = {[ "linear_x" := x; "linear_y" := y; "angular_z" := z ]} ∧
    number_text x ∧ number_text y ∧ number_text z.
Proof.
  intros Ht. rewrite ValidateCommand_admits, velocity_parameters by done. simpl.
  assert (IsKnownCommandType (commandTypeFromName (cm_type m)) = true) as ->.
  { apply list_elem_of_In in Ht. simpl in Ht. by destruct Ht as [<-|[<-|[<-|[]]]]. }
  rewrite commandPriorityFromName_known. tauto.
Qed.

(** A walk at half the speed. *)
Definition walk_message (x y : string) : CommandMessage :=
  mkCommandMessage 7 "Walk" "High" 500 {[ "linear_x" := x; "linear_y" := y; "angular_z" := "-2" ]} ∅.

Lemma velocity_message_exact_witness :
  cm_id (walk_message "0.5" "0.0") ≠ 0 ∧ 0 <= cm_timeoutMs (walk_message "0.5" "0.0") ∧
  (0 < cm_timeoutMs (walk_message "0.5" "0.0") →
   5 ≠ 0 ∧ 5 <= 400000005 ∧ elapsed_ns 400000005 5 < ns_of_ms (cm_timeoutMs (walk_message "0.5" "0.0"))) ∧
  ∃ x y z, cm_payload (walk_message "0.5" "0.0") = {[ "linear_x" := x; "linear_y" := y; "angular_z" := z ]} ∧
    number_text x ∧ number_text y ∧ number_text z.
Proof. apply (velocity_message_exact 5 400000005 (walk_message "0.5" "0.0")); [by left|reflexivity]. Defined.

(** A speed of [0] is a truth value, and the command is rejected; so is a volume
    of [1]. *)
Example zero_speed_is_rejected :
  is_Some (ValidatePayload (ToCommand 0 (walk_message "0.5" "0"))) ∧
  is_Some (ValidatePayload (ToCommand 0 (mkCommandMessage 7 "SetVolume" "Low" 500 {[ "volume" := "1" ]} ∅))) ∧
  ValidatePayload (ToCommand 0 (mkCommandMessage 7 "SetVolume" "Low" 500 {[ "volume" := "2" ]} ∅)) = None.
Proof. split_and!; [eexists; reflexivity..|reflexivity]. Qed.

(* ------------------------------------------------------------------ *)
(** ** The subscription of the bridge *)

(** The subscription that the bridge has, or that a thread inside [Stop] is to
    remove. *)
Definition subscription_of (s : BridgeState) (o : option nat) : option Z :=
  match o with None => telemetry_subscription_ (bridge s) | Some t => unsubscribing s !! t end.

Definition listed (y : Service) (id : Z) : Prop := listeners_ (service y) !! id = Some FromBridge.

Record bridge_ok (s : BridgeState) : Prop := {
  bok_service : state_ok (telemetry s);
  bok_stopped : running_ (bridge s) = false → telemetry_subscription_ (bridge s) = None;
  bok_has : is_Some (telemetry_subscription_ (bridge s)) → has_telemetryService (bridge s) = true;
  bok_listed id : listed (telemetry s) id ↔ ∃ o, subscription_of s o = Some id;
  bok_distinct o o' id : subscription_of s o = Some id → subscription_of s o' = Some id → o = o';
}.

(** A step of the service that leaves the listeners of the bridge. *)
Lemma service_step_ok s y l :
  bridge_ok s → telemetry_exec l (telemetry s) = Some y → (∀ id, listed y id ↔ listed (telemetry s) id) →
  bridge_ok (s <| telemetry := y |>).
Proof.
  intros [H1 H2 H3 H4 H5] E Hl. split; try done; [exact (telemetry_exec_ok _ _ _ E H1)|].
  intros id. simpl. rewrite Hl. apply H4.
Qed.

Lemma Subscribe_cases f (x : TelemetryService (Listener := BridgeListener)) :
  valid_id (next_subscription_id_ x) →
  ((Subscribe f x).1 = kInvalidSubscriptionId ∧ listeners_ (Subscribe f x).2 = listeners_ x) ∨
  ∃ id g, f = Some g ∧ (Subscribe f x).1 = id ∧ id ≠ kInvalidSubscriptionId ∧ listeners_ x !! id = None ∧
    listeners_ (Subscribe f x).2 = <[id := g]> (listeners_ x).
Proof.
  intros Hn. destruct f as [f|]; [|by left]. simpl.
  destruct (allocate_spec (S (size (listeners_ x))) x Hn) as (id' & id & E & _ & [[-> _]|[Hid Hfree]]);
    unfold AllocateSubscriptionIdLocked; rewrite E; [by left|].
  destruct (Z.eqb_spec id kInvalidSubscriptionId) as [->|Hne]; [by left|]. right. by exists id, f.
Qed.

Lemma others_keep l (y y' : Service) id :
  state_ok y → telemetry_exec l y = Some y' → others l y = true → listed y' id ↔ listed y id.
Proof.
  intros Hy E Ho. unfold listed. destruct (exec_rest l y y' E) as (-> & _).
  destruct l as [state|f|i| | | | | | | | | |]; try done; unfold subscribed_after.
  - destruct (Subscribe_cases f (service y) (proj1 (ok_ids _ Hy))) as [[_ ->]|(new & g & -> & _ & _ & Hn & ->)]; [tauto|].
    destruct g; [done|]. rewrite lookup_insert_Some. split; [naive_solver|]. intros Hx. right. split; [congruence|done].
  - simpl in Ho. apply negb_true_iff, bool_decide_eq_false in Ho. unfold Unsubscribe. destruct (i =? _); [done|]. simpl.
    rewrite lookup_delete_Some. split; [naive_solver|]. intros Hx. split; [congruence|done].
Qed.

Lemma Bridge_Start_ok s : bridge_ok s → bridge_ok (Bridge_Start s).2.
Proof.
  intros Hs. unfold Bridge_Start. destruct (running_ (bridge s)) eqn:Er; [done|].
  destruct Hs as [H1 H2 H3 H4 H5]. specialize (H2 Er).
  destruct (subscribeTelemetry _ && _) eqn:Es; [|by split].
  apply andb_true_iff in Es as [_ Es].
  pose proof (Subscribe_ok (Some FromBridge) (service (telemetry s)) (ok_ids _ H1)) as [Hok Hw].
  pose proof (Subscribe_cases (Some FromBridge) (service (telemetry s)) (proj1 (ok_ids _ H1))) as Hk.
  destruct (Subscribe (Some FromBridge) (service (telemetry s))) as [id x]. simpl in *.
  assert (H1' : state_ok ((telemetry s) <| service := x |>)) by by apply with_service_ok.
  destruct Hk as [[-> Hl]|(new & g & [= <-] & -> & Hne%Z.eqb_neq & Hfree & Hl)]; [|rewrite Hne; simpl].
  - split; try done. simpl. intros i. unfold listed. simpl. rewrite Hl. apply H4.
  - split; try done; simpl.
    + intros i. unfold listed. simpl. rewrite Hl, lookup_insert_Some. fold (listed (telemetry s) i). rewrite (H4 i). split.
      * intros [[-> _]|[_ [[t|] Ho]]]; [by exists None|by exists (Some t)|simpl in Ho; congruence].
      * intros [[t|] Ho]; simpl in Ho; [|injection Ho as <-; by left]. right.
        assert (Hi : listed (telemetry s) i) by (apply H4; by exists (Some t)). split; [unfold listed in Hi; congruence|].
        by exists (Some t).
    + assert (Hnew : ∀ t, unsubscribing s !! t ≠ Some new).
      { intros t Ht. assert (Hi : listed (telemetry s) new) by (apply H4; by exists (Some t)). unfold listed in Hi. congruence. }
      intros [t|] [t'|] i; simpl; try done; [apply (H5 (Some t) (Some t'))|..];
        intros Ha Hb; simplify_eq; by destruct (Hnew _ ltac:(eassumption)).
Qed.

(** [Stop] hands the subscription over to its thread. *)
Lemma Bridge_Stop_ok t s s' : bridge_exec (BridgeStops t) s = Some s' → bridge_ok s → bridge_ok s'.
Proof.
  simpl. destruct (unsubscribing s !! t) eqn:Et; [done|]. unfold Bridge_Stop_begin.
  destruct (negb (running_ (bridge s)) && bool_decide (telemetry_subscription_ (bridge s) = None)) eqn:En.
  { intros [= <-]. by destruct s. }
  intros E [H1 H2 H3 H4 H5]. destruct (telemetry_subscription_ (bridge s)) as [id|] eqn:Ei.
  - rewrite H3 in E by by eexists. injection E as <-. split; try done; simpl.
    + intros [? [=]].
    + intros i. rewrite (H4 i). split.
      * intros [[t'|] Ho]; simpl in Ho; [|exists (Some t); simpl; rewrite lookup_insert_eq; congruence].
        exists (Some t'). simpl. rewrite lookup_insert_ne; [done|]. congruence.
      * intros [[t'|] Ho]; simpl in Ho; [|done].
        apply lookup_insert_Some in Ho as [[_ <-]|[_ Ho]]; [by exists None|by exists (Some t')].
    + intros [t1|] [t2|] i; simpl; try done. rewrite !lookup_insert_Some.
      intros [[<- <-]|[Hn1 Ha]] [[<- Hb]|[Hn2 Hb]]; [done|..].
      * by pose proof (H5 None (Some t2) id Ei Hb).
      * subst. by pose proof (H5 None (Some t1) _ Ei Ha).
      * by apply (H5 (Some t1) (Some t2) i).
  - assert (E' : s <| bridge := (bridge s) <| running_ := false |> <| telemetry_subscription_ := None |> |> = s').
    { destruct (has_telemetryService _); by injection E. }
    subst s'. split; try done; simpl.
    + intros i. rewrite (H4 i). by split; intros [[t'|] Ho]; simpl in Ho; try congruence; exists (Some t').
    + intros [t1|] [t2|] i; simpl; try done. apply (H5 (Some t1) (Some t2)).
Qed.

Lemma Bridge_unsubscribes_ok t s s' : bridge_exec (BridgeUnsubscribes t) s = Some s' → bridge_ok s → bridge_ok s'.
Proof.
  simpl. destruct (unsubscribing s !! t) as [id|] eqn:Et; [|done]. intros [= <-] [H1 H2 H3 H4 H5].
  pose proof (Unsubscribe_ok id (service (telemetry s)) (ok_ids _ H1)) as [Hok Hw].
  assert (Hl : listed (telemetry s) id) by (apply H4; by exists (Some t)).
  assert (Hid : id =? kInvalidSubscriptionId = false).
  { assert (Hv : valid_id id) by (apply (proj2 (ok_ids _ H1)); by eexists). unfold valid_id in Hv. apply Z.eqb_neq.
    unfold kInvalidSubscriptionId. lia. }
  unfold Unsubscribe in *. rewrite Hid in *. split; try done; simpl.
  - by apply with_service_ok.
  - intros i. unfold listed. simpl. rewrite lookup_delete_Some. fold (listed (telemetry s) i). rewrite (H4 i). split.
    + intros [Hne [[t'|] Ho]]; [|by exists None]. exists (Some t'). simpl in *. rewrite lookup_delete_ne; [done|]. congruence.
    + intros [[t'|] Ho]; simpl in Ho; [apply lookup_delete_Some in Ho as [Hne Ho]|]; split.
      * intros <-. by injection (H5 (Some t) (Some t') id Et Ho).
      * by exists (Some t').
      * intros <-. by pose proof (H5 (Some t) None id Et Ho).
      * by exists None.
  - intros [t1|] [t2|] i; simpl; rewrite ?lookup_delete_Some.
    + intros [_ Ha] [_ Hb]. by apply (H5 (Some t1) (Some t2) i).
    + intros [_ Ha] Hb. by apply (H5 (Some t1) None i).
    + intros Ha [_ Hb]. by apply (H5 None (Some t2) i).
    + done.
Qed.

Lemma bridge_exec_ok l s s' : bridge_exec l s = Some s' → bridge_ok s → bridge_ok s'.
Proof.
  intros E Hs. destruct l as [|t|t|k|k|l].
  - simpl in E. injection E as <-. by apply Bridge_Start_ok.
  - by apply (Bridge_Stop_ok t s).
  - by apply (Bridge_unsubscribes_ok t s).
  - simpl in E. destruct (pc_of k (telemetry s)) as [[| | |[|[i []] rest] state| |]|] eqn:Ek; try done.
    destruct (telemetry_exec (WorkerCalls k) (telemetry s)) as [y|] eqn:Ey; [|done]. injection E as <-.
    destruct (service_step_ok s y _ Hs Ey) as [H1 H2 H3 H4 H5]; [|by split].
    intros id. unfold listed. by destruct (exec_rest _ _ _ Ey) as (-> & _).
  - simpl in E. destruct (callbacks s !! k); [|done]. injection E as <-. by destruct Hs.
  - simpl in E. destruct (others l (telemetry s)) eqn:Eo; [|done]. simpl in E.
    assert (∃ y, telemetry_exec l (telemetry s) = Some y ∧ s' = s <| telemetry := y |>) as (y & Ey & ->).
    { destruct l as [| | | |[]| | | | | | | |]; try case_bool_decide; try done;
        match type of E with (?e ≫= _) = _ => destruct e as [y|] eqn:Ey end; try done; injection E as <-; by exists y. }
    apply (service_step_ok s y l Hs Ey). intros id. apply (others_keep l); [apply Hs|done|done].
Qed.

Lemma bridge_initial_ok o has_service b interval m : bridge_ok (bridge_initial o has_service b interval m).
Proof.
  split; try done.
  - apply telemetry_initial_ok.
  - by intros [? [=]].
  - intros id. split; [done|]. by intros [[t|] Ho].
  - by intros [t|] o' id.
Qed.

(** C38: The subscriptions of the bridge in the service are the one that it knows,
    which it has only while it runs, and those that a [Stop] under way is about to
    remove, each once; so once it is stopped, and every [Stop] has returned, it has
    left none, whatever was started and stopped at the same time. *)
Theorem bridge_leaves_nothing ls o has_service b interval m s :
  bridge_run ls (bridge_initial o has_service b interval m) = Some s →
  (∀ id, listeners_ (service (telemetry s)) !! id = Some FromBridge ↔
    telemetry_subscription_ (bridge s) = Some id ∨ ∃ t, unsubscribing s !! t = Some id) ∧
  (running_ (bridge s) = false → unsubscribing s = ∅ →
    ∀ id, listeners_ (service (telemetry s)) !! id ≠ Some FromBridge) ∧
  (∀ t id, unsubscribing s !! t = Some id → telemetry_subscription_ (bridge s) ≠ Some id).
Proof.
  assert (Hrun : ∀ s0, bridge_ok s0 → bridge_run ls s0 = Some s → bridge_ok s).
  { induction ls as [|l ls IH]; intros s0 H0; simpl; [by intros [= <-]|].
    destruct (bridge_exec l s0) as [s1|] eqn:E1; [|done]. apply IH. by apply (bridge_exec_ok l s0). }
  intros [H1 H2 H3 H4 H5]%Hrun; [|apply bridge_initial_ok]. split_and!.
  - intros id. etransitivity; [apply H4|]. split; [|intros [Ho|[t Ho]]; [by exists None|by exists (Some t)]].
    intros [[t|] Ho]; [right; by exists t|by left].
  - intros Hr Hu id Hid. apply H4 in Hid as [[t|] Ho]; simpl in Ho; [by rewrite Hu in Ho|]. by rewrite H2 in Ho.
  - intros t id Ht Hid. by pose proof (H5 (Some t) None id Ht Hid).
Qed.

(** The bridge is stopped and started again before the subscription is removed. *)
Definition restarted : list BridgeLabel :=
  [BridgeStarts; ServiceSteps (Subscribes (Some (FromOther 3))); BridgeStops 0; BridgeStarts; BridgeStops 1;
   BridgeUnsubscribes 1; BridgeUnsubscribes 0].

Definition sample_bridge (ls : list BridgeLabel) : BridgeState :=
  default (bridge_initial (mkBridgeOptions "bridge" true) true true 50 (mkRobotStateManager default_RobotState))
    (bridge_run ls (bridge_initial (mkBridgeOptions "bridge" true) true true 50 (mkRobotStateManager default_RobotState))).

Lemma restarted_runs :
  bridge_run restarted (bridge_initial (mkBridgeOptions "bridge" true) true true 50 (mkRobotStateManager default_RobotState)) =
    Some (sample_bridge restarted).
Proof. by vm_compute. Qed.

Lemma restarted_stopped : running_ (bridge (sample_bridge restarted)) = false ∧ unsubscribing (sample_bridge restarted) = ∅.
Proof. by vm_compute. Qed.

Lemma bridge_leaves_nothing_witness :
  telemetry_subscription_ (bridge (sample_bridge restarted)) = None ∧
  listeners_ (service (telemetry (sample_bridge restarted))) !! 1 ≠ Some FromBridge ∧
  listeners_ (service (telemetry (sample_bridge restarted))) !! 3 ≠ Some FromBridge.
Proof.
  destruct (bridge_leaves_nothing restarted (mkBridgeOptions "bridge" true) true true 50
    (mkRobotStateManager default_RobotState) _ restarted_runs) as (_ & H & _).
  split; [by vm_compute|].
  exact (conj (H (proj1 restarted_stopped) (proj2 restarted_stopped) 1) (H (proj1 restarted_stopped) (proj2 restarted_stopped) 3)).
Defined.

(** A worker of the service that has copied the callback calls it after [Stop] has
    returned, and so after the destructor, which only stops the bridge: it then
    uses an object that is gone. *)
Definition stopped_while_copied : list BridgeLabel :=
  [BridgeStarts; ServiceSteps (Starts true); ServiceSteps (WorkerTests 0); ServiceSteps (WorkerReads 0);
   ServiceSteps (WorkerCopies 0 [1]); BridgeStops 0; BridgeUnsubscribes 0].

Example callback_after_stop :
  let s := sample_bridge stopped_while_copied in
  running_ (bridge s) = false ∧ unsubscribing s = ∅ ∧ listeners_ (service (telemetry s)) = ∅ ∧
  last_telemetry_state_ (bridge s) = None ∧
  last_telemetry_state_ (bridge (sample_bridge (stopped_while_copied ++ [CallbackBegins 0; CallbackWrites 0]))) =
    Some (FromRobotState default_RobotState).
Proof. by vm_compute. Qed.
