(* ===== verification/Cloud.v ===== *)
(** * The cloud services

    src/cloud: the fleet (fleet/FleetManager.cpp), the access to it
    (auth/AuthManager.cpp), updates (ota/OtaManager.cpp), observations
    (monitoring/ObservabilityRegistry.cpp), the catalogue of endpoints
    (api/RestApiCatalog.cpp) and the facade over them (CloudPlatform.cpp).  Every
    operation holds the lock of its object throughout, so that a run is a list of
    calls; [now] is the time that a call reads from the steady clock.  Hash maps are
    modelled by maps: their order shows only where the code sorts. *)

From Stdlib Require Import SpecFloat Sorted.
From stdpp Require Import sorting.
From S2P Require Import Prelude.

Open Scope Z_scope.

Inductive CloudErrorCode :=
  | CloudSuccess | CloudNotFound | CloudAlreadyExists | CloudInvalidInput | CloudUnauthorized | CloudUnavailable
  | CloudFailed.

#[export] Instance CloudErrorCode_eq_dec : EqDecision CloudErrorCode.
Proof. solve_decision. Defined.

Record CloudResult := mkCloudResult { code : CloudErrorCode; cloud_message : string }.

Definition Success (m : string) : CloudResult := mkCloudResult CloudSuccess m.
Definition Failure (c : CloudErrorCode) (m : string) : CloudResult := mkCloudResult c m.
Definition ok (r : CloudResult) : bool := bool_decide (code r = CloudSuccess).

Definition string_le (s t : string) : Prop := String.leb s t = true.

#[export] Instance string_le_dec s t : Decision (string_le s t) := decide (String.leb s t = true).

#[export] Instance string_le_trans : Transitive string_le := string_leb_trans.

#[export] Instance string_le_total : Total string_le.
Proof. intros s t. unfold string_le. destruct (String.leb_total s t); [by left|by right]. Qed.

Lemma string_le_antisym s t : string_le s t → string_le t s → s = t.
Proof. apply String.leb_antisym. Qed.

(* ------------------------------------------------------------------ *)
(** ** The fleet *)

Module Fleet.

Record RobotRecord := mkRobot {
  robotId : string; vendor : string; model : string;
  online : bool; healthy : bool;
  capabilities : list string; lastHeartbeat : Z; robot_metadata : gmap string string;
}.

#[export] Instance eta_RobotRecord : EtaRecord RobotRecord := fun r =>
  mkRobot (robotId r) (vendor r) (model r) (online r) (healthy r) (capabilities r) (lastHeartbeat r) (robot_metadata r).

Record FleetStatus := mkFleetStatus { robotCount : nat; onlineCount : nat; unhealthyCount : nat; groupCount : nat }.

Record MissionDistribution := mkDistribution { missionId : string; targetRobotIds : list string; timestamp : Z }.

Record FleetManager := mkFleet {
  robots_ : gmap string RobotRecord;
  groups_ : gmap string (gset string);
  distributions_ : list MissionDistribution;
}.

#[export] Instance eta_FleetManager : EtaRecord FleetManager := fun f =>
  mkFleet (robots_ f) (groups_ f) (distributions_ f).

Definition empty_fleet : FleetManager := mkFleet ∅ ∅ [].

Definition RegisterRobot (now : Z) (r : RobotRecord) (f : FleetManager) : CloudResult * FleetManager :=
  if bool_decide (robotId r = "") then (Failure CloudInvalidInput "robot id is required", f)
  else if bool_decide (is_Some (robots_ f !! robotId r)) then
    (Failure CloudAlreadyExists "robot is already registered", f)
  else (Success "robot registered", f <| robots_ ::= <[robotId r := r <| lastHeartbeat := now |>]> |>).

Definition UnregisterRobot (id : string) (f : FleetManager) : CloudResult * FleetManager :=
  if bool_decide (robots_ f !! id = None) then (Failure CloudNotFound "robot is not registered", f)
  else (Success "robot unregistered",
        f <| robots_ ::= delete id |> <| groups_ ::= fmap (λ members : gset string, members ∖ {[id]}) |>).

Definition Heartbeat (now : Z) (id : string) (is_healthy : bool) (f : FleetManager) : CloudResult * FleetManager :=
  match robots_ f !! id with
  | None => (Failure CloudNotFound "robot is not registered", f)
  | Some r =>
      (Success "heartbeat accepted",
       f <| robots_ ::= <[id := r <| online := true |> <| healthy := is_healthy |> <| lastHeartbeat := now |>]> |>)
  end.

Definition AddRobotToGroup (group_id id : string) (f : FleetManager) : CloudResult * FleetManager :=
  if bool_decide (group_id = "") then (Failure CloudInvalidInput "group id is required", f)
  else if bool_decide (robots_ f !! id = None) then (Failure CloudNotFound "robot is not registered", f)
  else (Success "robot added to group",
        f <| groups_ ::= <[group_id := {[id]} ∪ default ∅ (groups_ f !! group_id)]> |>).

Definition DistributeMission (now : Z) (group_id mission_id : string) (f : FleetManager) : CloudResult * FleetManager :=
  if bool_decide (mission_id = "") then (Failure CloudInvalidInput "mission id is required", f)
  else match groups_ f !! group_id with
  | None => (Failure CloudNotFound "group is not registered", f)
  | Some members =>
      (Success "mission distributed",
       f <| distributions_ ::= λ l,
              l ++ [mkDistribution mission_id (merge_sort string_le (elements members)) now] |>)
  end.

Definition FindRobot (id : string) (f : FleetManager) : option RobotRecord := robots_ f !! id.

Definition robot_le (r r' : RobotRecord) : Prop := string_le (robotId r) (robotId r').

#[export] Instance robot_le_dec r r' : Decision (robot_le r r') := decide (string_le (robotId r) (robotId r')).

Definition Robots (f : FleetManager) : list RobotRecord := merge_sort robot_le (map_to_list (robots_ f)).*2.

Definition Status (f : FleetManager) : FleetStatus :=
  let robots := (map_to_list (robots_ f)).*2 in
  mkFleetStatus (size (robots_ f)) (length (filter (λ r, online r = true) robots))
    (length (filter (λ r, healthy r = false) robots)) (size (groups_ f)).

Inductive FleetCall :=
  | CallRegister (now : Z) (r : RobotRecord)
  | CallUnregister (id : string)
  | CallHeartbeat (now : Z) (id : string) (is_healthy : bool)
  | CallAdd (group_id id : string)
  | CallDistribute (now : Z) (group_id mission_id : string).

Definition fleet_call (c : FleetCall) (f : FleetManager) : CloudResult * FleetManager :=
  match c with
  | CallRegister now r => RegisterRobot now r f
  | CallUnregister id => UnregisterRobot id f
  | CallHeartbeat now id is_healthy => Heartbeat now id is_healthy f
  | CallAdd group_id id => AddRobotToGroup group_id id f
  | CallDistribute now group_id mission_id => DistributeMission now group_id mission_id f
  end.

Definition fleet_run (cs : list FleetCall) (f : FleetManager) : FleetManager :=
  foldl (λ f c, (fleet_call c f).2) f cs.

(** Robots are kept under their own identifiers, and groups have only registered
    robots. *)
Record fleet_ok (f : FleetManager) : Prop := {
  fok_id id r : robots_ f !! id = Some r → robotId r = id ∧ id ≠ "";
  fok_members g members id : groups_ f !! g = Some members → id ∈ members → is_Some (robots_ f !! id);
}.

Lemma fleet_call_ok c f : fleet_ok f → fleet_ok (fleet_call c f).2.
Proof.
  intros Hf. destruct c as [now r|id|now id b|g id|now g m]; simpl.
  - unfold RegisterRobot. case_bool_decide as Hid; [done|]. case_bool_decide as Hn; [done|]. destruct Hf as [H1 H2].
    split; simpl.
    + intros id r'. rewrite lookup_insert_Some. intros [[<- <-]|[_ Hr]]; [done|by apply H1].
    + intros g members id Hg Hm. apply lookup_insert_is_Some'. right. by apply (H2 g members).
  - unfold UnregisterRobot. case_bool_decide; [done|]. destruct Hf as [H1 H2]. split; simpl.
    + intros id' r [_ Hr]%lookup_delete_Some. by apply H1.
    + intros g members id'. rewrite lookup_fmap. intros (ms & Hg & ->)%fmap_Some [Hm Hne]%elem_of_difference.
      rewrite lookup_delete_ne by set_solver. by apply (H2 g ms).
  - unfold Heartbeat. destruct (robots_ f !! id) as [r|] eqn:Er; [|done]. destruct Hf as [H1 H2]. split; simpl.
    + intros id' r'. rewrite lookup_insert_Some. intros [[<- <-]|[_ Hr]]; [by apply (H1 id r)|by apply H1].
    + intros g members id' Hg Hm. apply lookup_insert_is_Some'. right. by apply (H2 g members).
  - unfold AddRobotToGroup. case_bool_decide; [done|]. case_bool_decide as Hn; [done|]. destruct Hf as [H1 H2].
    split; simpl; [done|]. intros g' members id'. rewrite lookup_insert_Some. intros [[<- <-]|[_ Hg]]; [|by apply (H2 g' members)].
    rewrite elem_of_union, elem_of_singleton. intros [->|Hm]; [by apply not_eq_None_Some|].
    destruct (groups_ f !! g) as [ms|] eqn:Eg; simpl in Hm; [by apply (H2 g ms)|set_solver].
  - unfold DistributeMission. case_bool_decide; [done|]. destruct (groups_ f !! g); [|done]. by destruct Hf.
Qed.

Lemma fleet_run_ok cs f : fleet_ok f → fleet_ok (fleet_run cs f).
Proof. revert f. induction cs as [|c cs IH]; intros f Hf; [done|]. by apply IH, fleet_call_ok. Qed.

Lemma empty_fleet_ok : fleet_ok empty_fleet.
Proof. by split. Qed.

(** A mission that is distributed to a group is recorded for exactly the members
    of the group, each once and in the order of their identifiers, and each of them
    is a robot that is registered at that moment, whatever robots were removed
    before. *)
Theorem distributed_to_registered cs now group_id mission_id :
  let f := fleet_run cs empty_fleet in
  let '(result, f') := DistributeMission now group_id mission_id f in
  if ok result then
    ∃ members d, groups_ f !! group_id = Some members ∧ distributions_ f' = distributions_ f ++ [d] ∧
      missionId d = mission_id ∧ StronglySorted string_le (targetRobotIds d) ∧ NoDup (targetRobotIds d) ∧
      ∀ id, id ∈ targetRobotIds d ↔ id ∈ members ∧ ∃ r, FindRobot id f = Some r ∧ robotId r = id
  else f' = f ∧ (mission_id = "" ∨ groups_ f !! group_id = None).
Proof.
  intros f. pose proof (fleet_run_ok cs _ empty_fleet_ok) as [H1 H2]. fold f in H1, H2. clearbody f.
  unfold DistributeMission. case_bool_decide; [by split; [|left]|].
  destruct (groups_ f !! group_id) as [members|] eqn:Eg; [|by split; [|right]]. simpl.
  eexists members, _. split_and!; try done; simpl.
  - apply StronglySorted_merge_sort; apply _.
  - rewrite merge_sort_Permutation. apply NoDup_elements.
  - intros id. rewrite merge_sort_Permutation, elem_of_elements. split; [|by intros [? _]].
    intros Hm. split; [done|]. destruct (H2 _ _ _ Eg Hm) as [r Hr]. exists r. split; [done|]. by apply (H1 id r).
Qed.
End Fleet.

(* ------------------------------------------------------------------ *)
(** ** Access *)

Module Auth.

Inductive AuthScheme := ApiKey | Jwt | OAuth2.

Record Principal := mkPrincipal { principalId : string; roles : list string; scheme : AuthScheme }.

Record AuditRecord := mkAudit {
  audited_principal : string; audited_action : string; authorized : bool; audited_at : Z;
}.

Record AuthManager := mkAuth {
  api_keys_ : gmap string Principal;
  role_permissions_ : gmap string (gset string);
  audit_log_ : list AuditRecord;
}.

#[export] Instance eta_AuthManager : EtaRecord AuthManager := fun m =>
  mkAuth (api_keys_ m) (role_permissions_ m) (audit_log_ m).

Definition empty_auth : AuthManager := mkAuth ∅ ∅ [].

Definition RegisterApiKey (api_key : string) (p : Principal) (m : AuthManager) : CloudResult * AuthManager :=
  if bool_decide (api_key = "") || bool_decide (principalId p = "") then
    (Failure CloudInvalidInput "api key and principal id are required", m)
  else (Success "api key registered", m <| api_keys_ ::= <[api_key := p]> |>).

Definition GrantPermission (role action : string) (m : AuthManager) : CloudResult * AuthManager :=
  if bool_decide (role = "") || bool_decide (action = "") then
    (Failure CloudInvalidInput "role and action are required", m)
  else (Success "permission granted",
        m <| role_permissions_ ::= <[role := {[action]} ∪ default ∅ (role_permissions_ m !! role)]> |>).

(** The test of one role. *)
Definition permits (action : string) (m : AuthManager) (role : string) : bool :=
  match role_permissions_ m !! role with
  | Some permissions => bool_decide (action ∈ permissions)
  | None => false
  end.

Definition AuthorizeApiKey (now : Z) (api_key action : string) (m : AuthManager) : bool * AuthManager :=
  let '(authorized, id) :=
    match api_keys_ m !! api_key with
    | Some p => (existsb (permits action m) (roles p), principalId p)
    | None => (false, "anonymous")
    end in
  (authorized, m <| audit_log_ ::= λ l, l ++ [mkAudit id action authorized now] |>).

Inductive AuthCall :=
  | CallRegisterKey (api_key : string) (p : Principal)
  | CallGrant (role action : string)
  | CallAuthorize (now : Z) (api_key action : string).

Definition auth_call (c : AuthCall) (m : AuthManager) : AuthManager :=
  match c with
  | CallRegisterKey api_key p => (RegisterApiKey api_key p m).2
  | CallGrant role action => (GrantPermission role action m).2
  | CallAuthorize now api_key action => (AuthorizeApiKey now api_key action m).2
  end.

Definition auth_run (cs : list AuthCall) (m : AuthManager) : AuthManager := foldl (λ m c, auth_call c m) m cs.

(** What the calls so far say: whose a key is, and what a role may do. *)
Definition key_of (api_key : string) (cs : list AuthCall) : option Principal :=
  last (omap (λ c, match c with
    | CallRegisterKey k p => if decide (k = api_key ∧ k ≠ "" ∧ principalId p ≠ "") then Some p else None
    | _ => None
    end) cs).

Definition granted (role action : string) (cs : list AuthCall) : Prop :=
  CallGrant role action ∈ cs ∧ role ≠ "" ∧ action ≠ "".

Definition attempts (cs : list AuthCall) : list string :=
  omap (λ c, match c with CallAuthorize _ _ action => Some action | _ => None end) cs.

(** The tables are what the calls say. *)
Record auth_ok (cs : list AuthCall) (m : AuthManager) : Prop := {
  aok_keys k : api_keys_ m !! k = key_of k cs;
  aok_permits role action : permits action m role = true ↔ granted role action cs;
  aok_log : audited_action <$> audit_log_ m = attempts cs;
}.

Lemma key_of_app k cs c :
  key_of k (cs ++ [c]) =
    match c with
    | CallRegisterKey k' p => if decide (k' = k ∧ k' ≠ "" ∧ principalId p ≠ "") then Some p else key_of k cs
    | _ => key_of k cs
    end.
Proof.
  unfold key_of. rewrite omap_app. simpl. destruct c as [k' p| |]; [|by rewrite app_nil_r..].
  case_decide; [by rewrite last_snoc|by rewrite app_nil_r].
Qed.

Lemma granted_app role action cs c :
  granted role action (cs ++ [c]) ↔ granted role action cs ∨ (c = CallGrant role action ∧ role ≠ "" ∧ action ≠ "").
Proof. unfold granted. rewrite elem_of_app, list_elem_of_singleton. naive_solver. Qed.

Lemma permits_granted role role' action action' m :
  permits action (m <| role_permissions_ ::= <[role' := {[action']} ∪ default ∅ (role_permissions_ m !! role')]> |>) role =
    permits action m role || bool_decide (role' = role ∧ action' = action).
Proof.
  unfold permits. simpl. destruct (decide (role' = role)) as [->|Hne].
  - rewrite lookup_insert_eq. destruct (role_permissions_ m !! role); simpl; repeat case_bool_decide; set_solver.
  - rewrite lookup_insert_ne by done. rewrite (bool_decide_false (_ ∧ _)) by naive_solver. by rewrite orb_false_r.
Qed.

Lemma auth_call_ok cs c m : auth_ok cs m → auth_ok (cs ++ [c]) (auth_call c m).
Proof.
  intros [H1 H2 H3]. assert (Ha : attempts (cs ++ [c]) = attempts cs ++ attempts [c]) by apply omap_app.
  destruct c as [k p|role action|now k action]; simpl in Ha |- *.
  - unfold RegisterApiKey. destruct (bool_decide (k = "") || _) eqn:E; split; simpl.
    all: try (by rewrite Ha, app_nil_r).
    all: try (intros role action; rewrite granted_app; etransitivity; [apply H2|naive_solver]).
    + intros k'. rewrite key_of_app. rewrite decide_False; [done|]. apply orb_true_iff in E as [E|E];
        apply bool_decide_eq_true in E; naive_solver.
    + intros k'. rewrite key_of_app. apply orb_false_iff in E as [E1%bool_decide_eq_false E2%bool_decide_eq_false].
      case_decide as Hk; [destruct Hk as [-> _]; by rewrite lookup_insert_eq|].
      rewrite lookup_insert_ne; [done|]. naive_solver.
  - unfold GrantPermission. destruct (bool_decide (role = "") || _) eqn:E; split.
    all: try (by simpl; rewrite Ha, app_nil_r).
    all: try (by intros k; rewrite key_of_app).
    + intros role' action'. rewrite granted_app. simpl. etransitivity; [apply H2|]. split; [by left|].
      intros [Hg|([= -> ->] & Hr & Hact)]; [done|]. by rewrite !bool_decide_false in E.
    + intros role' action'. apply orb_false_iff in E as [E1%bool_decide_eq_false E2%bool_decide_eq_false].
      pose proof (permits_granted role' role action' action m) as Hp. simpl in Hp |- *.
      rewrite Hp, granted_app, orb_true_iff, bool_decide_eq_true, H2. naive_solver.
  - unfold AuthorizeApiKey. destruct (api_keys_ m !! k) as [p|]; simpl; split; simpl.
    all: try (by rewrite fmap_app, H3, Ha).
    all: try (by intros k'; rewrite key_of_app).
    all: intros role action'; rewrite granted_app; etransitivity; [apply H2|naive_solver].
Qed.

Lemma auth_run_ok cs : auth_ok cs (auth_run cs empty_auth).
Proof.
  induction cs as [|c cs IH] using rev_ind.
  - split; try done. intros role action. split; [done|]. by intros [?%elem_of_nil _].
  - unfold auth_run. rewrite foldl_app. simpl. by apply auth_call_ok.
Qed.

(** C40: A key is authorized for an action exactly if the principal it was last
    registered for has a role that the action was granted to; and every attempt,
    whether it is authorized or not, is in the audit log, in order. *)
Theorem AuthorizeApiKey_exact cs now api_key action :
  let m := auth_run cs empty_auth in
  let '(answer, m') := AuthorizeApiKey now api_key action m in
  (answer = true ↔ ∃ p role, key_of api_key cs = Some p ∧ role ∈ roles p ∧ granted role action cs) ∧
  audited_action <$> audit_log_ m' = attempts cs ++ [action] ∧
  ∃ r, last (audit_log_ m') = Some r ∧ authorized r = answer ∧
    audited_principal r = from_option principalId "anonymous" (key_of api_key cs).
Proof.
  intros m. destruct (auth_run_ok cs) as [H1 H2 H3]. fold m in H1, H2, H3. clearbody m.
  unfold AuthorizeApiKey. rewrite H1. destruct (key_of api_key cs) as [p|]; simpl.
  - split_and!.
    + rewrite existsb_exists. setoid_rewrite H2. split.
      * intros (role & Hin%list_elem_of_In & Hg). by exists p, role.
      * intros (p' & role & [= <-] & Hin & Hg). exists role. split; [by apply list_elem_of_In|done].
    + by rewrite fmap_app, H3.
    + eexists. by rewrite last_snoc.
  - split_and!.
    + split; [done|]. by intros (p & role & [=] & _).
    + by rewrite fmap_app, H3.
    + eexists. by rewrite last_snoc.
Qed.
End Auth.

(* ------------------------------------------------------------------ *)
(** ** Updates *)

Module Ota.

Inductive PackageType := Software | Plugin | Mission | Configuration.
Inductive OtaStatus := Planned | Verified | Applied | RolledBack | Rejected.

Record PackageDescriptor := mkPackage {
  packageId : string; version : string; package_type : PackageType;
  verificationDigest : string; rollbackSupported : bool;
}.

Record UpdatePlan := mkPlan {
  robotIds : list string; package : PackageDescriptor; plan_status : OtaStatus; planned_at : Z;
}.

#[export] Instance eta_UpdatePlan : EtaRecord UpdatePlan := fun p =>
  mkPlan (robotIds p) (package p) (plan_status p) (planned_at p).

Record OtaManager := mkOta { packages_ : gmap string PackageDescriptor; plans_ : list UpdatePlan }.

#[export] Instance eta_OtaManager : EtaRecord OtaManager := fun m => mkOta (packages_ m) (plans_ m).

Definition RegisterPackage (p : PackageDescriptor) (m : OtaManager) : CloudResult * OtaManager :=
  if bool_decide (packageId p = "") || bool_decide (version p = "") then
    (Failure CloudInvalidInput "package id and version are required", m)
  else (Success "package registered", m <| packages_ ::= <[packageId p := p]> |>).

Definition PlanUpdate (now : Z) (package_id : string) (robot_ids : list string) (m : OtaManager) :
    CloudResult * OtaManager :=
  match robot_ids with
  | [] => (Failure CloudInvalidInput "target robots are required", m)
  | _ =>
      match packages_ m !! package_id with
      | None => (Failure CloudNotFound "package is not registered", m)
      | Some p => (Success "update planned", m <| plans_ ::= λ l, l ++ [mkPlan robot_ids p Planned now] |>)
      end
  end.

(** A plan for the package is given the status. *)
Definition with_status (status : OtaStatus) (package_id : string) (p : UpdatePlan) : UpdatePlan :=
  if bool_decide (packageId (package p) = package_id) then p <| plan_status := status |> else p.

Definition VerifyPackage (package_id digest : string) (m : OtaManager) : CloudResult * OtaManager :=
  match packages_ m !! package_id with
  | None => (Failure CloudNotFound "package is not registered", m)
  | Some p =>
      if negb (bool_decide (verificationDigest p = digest)) then
        (Failure CloudInvalidInput "package verification digest does not match", m)
      else (Success "package verified", m <| plans_ ::= fmap (with_status Verified package_id) |>)
  end.

(** The loop of [Rollback]: whether a plan was found, whether the loop returned, and
    the plans. *)
Fixpoint rollback_plans (package_id : string) (l : list UpdatePlan) : bool * bool * list UpdatePlan :=
  match l with
  | [] => (false, false, [])
  | p :: l =>
      if bool_decide (packageId (package p) = package_id) then
        if rollbackSupported (package p) then
          let '(_, returned, l) := rollback_plans package_id l in
          (true, returned, p <| plan_status := RolledBack |> :: l)
        else (true, true, p :: l)
      else let '(found, returned, l) := rollback_plans package_id l in (found, returned, p :: l)
  end.

Definition Rollback (package_id : string) (m : OtaManager) : CloudResult * OtaManager :=
  let '(found, returned, l) := rollback_plans package_id (plans_ m) in
  (if returned then Failure CloudInvalidInput "rollback is not supported by package"
   else if negb found then Failure CloudNotFound "update plan is not registered"
   else Success "rollback planned",
   m <| plans_ := l |>).

Definition plan_of (package_id : string) (p : UpdatePlan) : bool := bool_decide (packageId (package p) = package_id).

Definition irreversible (package_id : string) (p : UpdatePlan) : bool :=
  plan_of package_id p && negb (rollbackSupported (package p)).

Lemma rollback_plans_spec package_id l :
  ∃ before after,
    l = before ++ after ∧ Forall (λ p, irreversible package_id p = false) before ∧
    (if (rollback_plans package_id l).1.2
     then ∃ p rest, after = p :: rest ∧ irreversible package_id p = true
     else after = []) ∧
    (rollback_plans package_id l).1.1 = existsb (plan_of package_id) l ∧
    (rollback_plans package_id l).2 = (with_status RolledBack package_id <$> before) ++ after.
Proof.
  induction l as [|p l IH]; simpl; [by exists [], []|]. unfold irreversible, plan_of, with_status in *.
  case_bool_decide as Hp; simpl.
  - destruct (rollbackSupported (package p)) eqn:Er; simpl.
    + destruct IH as (before & after & -> & Hb & Ha & Hf & Hl). exists (p :: before), after.
      destruct (rollback_plans _ _) as [[found returned] l']. simpl in *.
      split_and!; try done; [by constructor; [rewrite Er, andb_false_r|]|].
      by rewrite bool_decide_true, Hl.
    + exists [], (p :: l). split_and!; try done. exists p, l. by rewrite bool_decide_true, Er.
  - destruct IH as (before & after & -> & Hb & Ha & Hf & Hl). exists (p :: before), after.
    destruct (rollback_plans _ _) as [[found returned] l']. simpl in *.
    split_and!; try done; [by constructor; [rewrite bool_decide_false|]|].
    by rewrite bool_decide_false, Hl.
Qed.

(** A rollback succeeds exactly if the package has plans and all of them can be
    rolled back: then each is, and nothing else changes. *)
Theorem Rollback_exact package_id m :
  let '(result, m') := Rollback package_id m in
  (ok result = true ↔
    existsb (plan_of package_id) (plans_ m) = true ∧ existsb (irreversible package_id) (plans_ m) = false) ∧
  (ok result = true → plans_ m' = with_status RolledBack package_id <$> plans_ m) ∧ packages_ m' = packages_ m.
Proof.
  unfold Rollback. destruct (rollback_plans_spec package_id (plans_ m)) as (before & after & E & Hb & Ha & Hf & Hl).
  destruct (rollback_plans package_id (plans_ m)) as [[found returned] l]. simpl in *.
  assert (Hnone : existsb (irreversible package_id) before = false).
  { apply not_true_iff_false. rewrite existsb_exists. intros (p & Hin%list_elem_of_In & Hp).
    rewrite Forall_forall in Hb. by rewrite (Hb p Hin) in Hp. }
  assert (Hx : existsb (irreversible package_id) (plans_ m) = existsb (irreversible package_id) after)
    by (by rewrite E, existsb_app, Hnone).
  rewrite Hx, <-Hf. destruct returned; simpl.
  - destruct Ha as (p & rest & -> & Hp). simpl. rewrite Hp. split_and!; [|done|done]. split; [done|by intros []].
  - subst after. simpl. rewrite app_nil_r in E, Hl. rewrite E, Hl. destruct found; split_and!; try done; split; try done; by intros [? ?].
Qed.

(** A rollback that fails has rolled back the plans before the one that it cannot:
    the package was registered again without the support. *)
Definition with_two_plans : OtaManager :=
  let update supported digest m := (RegisterPackage (mkPackage "nav" (if supported : bool then "1.0" else "2.0") Software digest supported) m).2 in
  let plan m := (PlanUpdate 5 "nav" ["g1"] m).2 in
  plan (update false "bb" (plan (update true "aa" (mkOta ∅ [])))).

Example failed_rollback_rolls_back :
  ok (Rollback "nav" with_two_plans).1 = false ∧
  plan_status <$> plans_ (Rollback "nav" with_two_plans).2 = [RolledBack; Planned].
Proof. by vm_compute. Qed.

(** Verifying the digest of version 2.0 marks the plan of version 1.0 as verified,
    which has another digest; and a plan that was rolled back as well. *)
Example verifies_other_version :
  (λ p, (version (package p), verificationDigest (package p), plan_status p)) <$>
    plans_ (VerifyPackage "nav" "bb" (Rollback "nav" with_two_plans).2).2 =
    [("1.0", "aa", Verified); ("2.0", "bb", Verified)].
Proof. by vm_compute. Qed.
End Ota.

(* ------------------------------------------------------------------ *)
(** ** Observations *)

Module Monitoring.

Record MetricSample := mkMetric {
  metric_name : string; metric_value : spec_float; tags : gmap string string; sampled_at : Z;
}.

#[export] Instance eta_MetricSample : EtaRecord MetricSample := fun x =>
  mkMetric (metric_name x) (metric_value x) (tags x) (sampled_at x).

Record TraceSpan := mkSpan { traceId : string; spanId : string; operation : string; durationMs : spec_float }.
Record HealthSnapshot := mkHealth { is_healthy : bool; health_message : string }.

Record ObservabilityRegistry := mkRegistry {
  metrics_ : list MetricSample; traces_ : list TraceSpan; health_ : HealthSnapshot;
}.

#[export] Instance eta_ObservabilityRegistry : EtaRecord ObservabilityRegistry := fun x =>
  mkRegistry (metrics_ x) (traces_ x) (health_ x).

Definition new_ObservabilityRegistry : ObservabilityRegistry := mkRegistry [] [] (mkHealth true "healthy").

(** The default time is given the present. *)
Definition RecordMetric (now : Z) (x : MetricSample) (g : ObservabilityRegistry) : ObservabilityRegistry :=
  let x := if sampled_at x =? 0 then x <| sampled_at := now |> else x in g <| metrics_ ::= λ l, l ++ [x] |>.

Definition RecordTrace (x : TraceSpan) (g : ObservabilityRegistry) : ObservabilityRegistry :=
  g <| traces_ ::= λ l, l ++ [x] |>.

Definition SetHealth (h : HealthSnapshot) (g : ObservabilityRegistry) : ObservabilityRegistry := g <| health_ := h |>.
End Monitoring.

(* ------------------------------------------------------------------ *)
(** ** Endpoints, and the facade *)

Module Platform.

Inductive HttpMethod := Get | Post | Put | Patch | Delete.

Record RestEndpoint := mkEndpoint {
  endpoint_id : string; endpoint_version : string; method : HttpMethod; path : string; subsystem : string;
  requiresAuthentication : bool;
}.

(** [RestApiCatalog::endpoints_]. *)
Definition Endpoints : list RestEndpoint := [
  mkEndpoint "robot.list" "v1" Get "/api/v1/robots" "Robot" true;
  mkEndpoint "robot.connect" "v1" Post "/api/v1/robots/{id}/connect" "Robot" true;
  mkEndpoint "robot.disconnect" "v1" Post "/api/v1/robots/{id}/disconnect" "Robot" true;
  mkEndpoint "mission.list" "v1" Get "/api/v1/missions" "Mission" true;
  mkEndpoint "mission.start" "v1" Post "/api/v1/missions/{id}/start" "Mission" true;
  mkEndpoint "bt.load" "v1" Post "/api/v1/behavior-trees" "BehaviorTree" true;
  mkEndpoint "planner.goal" "v1" Post "/api/v1/planner/goals" "Planner" true;
  mkEndpoint "telemetry.latest" "v1" Get "/api/v1/telemetry/latest" "Telemetry" true;
  mkEndpoint "perception.results" "v1" Get "/api/v1/perception/results" "Perception" true;
  mkEndpoint "fleet.status" "v1" Get "/api/v1/fleet/status" "Fleet" true;
  mkEndpoint "runtime.status" "v1" Get "/api/v1/runtime/status" "Runtime" true;
  mkEndpoint "health.check" "v1" Get "/api/v1/health" "Health" false;
  mkEndpoint "diagnostics.list" "v1" Get "/api/v1/diagnostics" "Diagnostics" true;
  mkEndpoint "configuration.get" "v1" Get "/api/v1/configuration" "Configuration" true ].

Definition FindBySubsystem (name : string) : list RestEndpoint := filter (λ e, subsystem e = name) Endpoints.

(** The facade; the services are the defaults if none are given.  They are shared
    objects, whose operations are those above on these fields. *)
Record CloudPlatform := mkPlatform {
  fleet : Fleet.FleetManager; auth : Auth.AuthManager; ota : Ota.OtaManager;
  observability : Monitoring.ObservabilityRegistry; platform_running : bool;
}.

#[export] Instance eta_CloudPlatform : EtaRecord CloudPlatform := fun p =>
  mkPlatform (fleet p) (auth p) (ota p) (observability p) (platform_running p).

Definition new_CloudPlatform (f : option Fleet.FleetManager) (a : option Auth.AuthManager)
    (o : option Ota.OtaManager) (g : option Monitoring.ObservabilityRegistry) : CloudPlatform :=
  mkPlatform (default Fleet.empty_fleet f) (default Auth.empty_auth a) (default (Ota.mkOta ∅ []) o)
    (default Monitoring.new_ObservabilityRegistry g) false.

Definition Platform_Start (p : CloudPlatform) : bool * CloudPlatform :=
  if platform_running p then (false, p) else (true, p <| platform_running := true |>).

Definition Platform_Stop (p : CloudPlatform) : CloudPlatform := p <| platform_running := false |>.

Record CloudPlatformStatus := mkPlatformStatus {
  status_running : bool; apiVersion : string; restEndpointCount : nat; robotCount : nat;
}.

Definition Platform_Status (p : CloudPlatform) : CloudPlatformStatus :=
  mkPlatformStatus (platform_running p) "v1" (length Endpoints) (Fleet.robotCount (Fleet.Status (fleet p))).

(** Only the health endpoint is open, endpoints have identifiers of their own, and
    the paths start with the version that the status gives. *)
Example open_endpoints :
  endpoint_id <$> filter (λ e, requiresAuthentication e = false) Endpoints = ["health.check"] ∧
  NoDup (endpoint_id <$> Endpoints) ∧
  Forall (λ e, String.prefix "/api/v1/" (path e) = true ∧ endpoint_version e = "v1") Endpoints.
Proof.
  split_and!; [reflexivity| |by repeat constructor].
  by apply (bool_decide_unpack _); vm_compute.
Qed.
End Platform.
