(* ===== verification/Managers.v ===== *)
(** * The managers of interfaces

    src/logging: the manager that hands messages to sinks; src/safety, src/motion,
    src/gesture, src/diagnostics, src/robot and src/configuration: managers of an
    object behind an interface, perhaps none; and BTContext.cpp, which holds two
    shared objects.  The objects are parameters, records of their operations on a
    world of type [W] that only they know. *)

From S2P Require Import Prelude Status.

Open Scope Z_scope.

Inductive LifecycleState := LifecycleUnconfigured | LifecycleConfigured | LifecycleInactive | LifecycleActive | LifecycleFaulted.

Definition LifecycleState_toString (s : LifecycleState) : string :=
  match s with
  | LifecycleUnconfigured => "unconfigured"
  | LifecycleConfigured => "configured"
  | LifecycleInactive => "inactive"
  | LifecycleActive => "active"
  | LifecycleFaulted => "faulted"
  end.

(* ------------------------------------------------------------------ *)
(** ** Logging *)

Module Logging.

Inductive LogLevel := LogTrace | LogDebug | LogInfo | LogWarning | LogError | LogCritical.

Definition severityRank (l : LogLevel) : Z :=
  match l with LogTrace => 0 | LogDebug => 1 | LogInfo => 2 | LogWarning => 3 | LogError => 4 | LogCritical => 5 end.

Definition LogLevel_toString (l : LogLevel) : string :=
  match l with
  | LogTrace => "trace"
  | LogDebug => "debug"
  | LogInfo => "info"
  | LogWarning => "warning"
  | LogError => "error"
  | LogCritical => "critical"
  end.

Record LogMessage := mkLogMessage { level : LogLevel; component : string; text : string; logged_at : Z }.

Section Logger.
Context {W : Type}.

Record LogSink := mkLogSink { write : LogMessage → W → Outcome Status * W; accepts : LogLevel → W → bool }.

Record LoggerManager := mkLoggerManager { sinks_ : list LogSink; minimum_level_ : LogLevel }.

Definition new_LoggerManager (l : LogLevel) : LoggerManager := mkLoggerManager [] l.

(** [None] is a null pointer. *)
Definition addSink (sink : option LogSink) (m : LoggerManager) : Status * LoggerManager :=
  match sink with
  | None => (InvalidArgument "log sink is null", m)
  | Some x => (Ok, mkLoggerManager (sinks_ m ++ [x]) (minimum_level_ m))
  end.

Definition clearSinks (m : LoggerManager) : LoggerManager := mkLoggerManager [] (minimum_level_ m).

Definition setMinimumLevel (l : LogLevel) (m : LoggerManager) : LoggerManager := mkLoggerManager (sinks_ m) l.

Definition passesMinimumLevel (l : LogLevel) (m : LoggerManager) : bool :=
  severityRank (minimum_level_ m) <=? severityRank l.

(** The loop over the copied sinks; what a sink throws goes to the caller. *)
Fixpoint write_all (sinks : list LogSink) (x : LogMessage) (first_error : Status) (w : W) : Outcome Status * W :=
  match sinks with
  | [] => (Value first_error, w)
  | sink :: sinks =>
      if accepts sink (level x) w then
        match write sink x w with
        | (Value status, w) =>
            write_all sinks x (if negb (isOk status) && isOk first_error then status else first_error) w
        | r => r
        end
      else write_all sinks x first_error w
  end.

Definition log (x : LogMessage) (m : LoggerManager) (w : W) : Outcome Status * W :=
  if negb (passesMinimumLevel (level x) m) then (Value Ok, w) else write_all (sinks_ m) x Ok w.

Definition isEnabled (l : LogLevel) (m : LoggerManager) (w : W) : bool :=
  if negb (passesMinimumLevel l m) then false else existsb (λ sink, accepts sink l w) (sinks_ m).

(** The sinks that accept the level written one after the other: what they answer,
    and what one throws, after which no other is written. *)
Fixpoint answers_of (sinks : list LogSink) (x : LogMessage) (w : W) : list Status * option (Outcome Status) * W :=
  match sinks with
  | [] => ([], None, w)
  | sink :: sinks =>
      if accepts sink (level x) w then
        match write sink x w with
        | (Value status, w) => let '(l, thrown, w) := answers_of sinks x w in (status :: l, thrown, w)
        | (r, w) => ([], Some r, w)
        end
      else answers_of sinks x w
  end.

Definition first_failure (e : Status) (l : list Status) : Status :=
  if isOk e then default e (head (filter (λ s, isOk s = false) l)) else e.

Lemma write_all_spec sinks x e w :
  let '(l, thrown, w') := answers_of sinks x w in
  write_all sinks x e w = (default (Value (first_failure e l)) thrown, w').
Proof.
  revert e w. induction sinks as [|sink sinks IH]; intros e w; simpl.
  { unfold first_failure. by destruct (isOk e). }
  destruct (accepts sink (level x) w); [|apply IH].
  destruct (write sink x w) as [[status|what|] w1]; [|done..].
  specialize (IH (if negb (isOk status) && isOk e then status else e) w1).
  destruct (answers_of sinks x w1) as [[l thrown] w']. rewrite IH. f_equal. destruct thrown; [done|]. simpl. f_equal.
  unfold first_failure. rewrite filter_cons.
  destruct (isOk status) eqn:Es; simpl; [done|]. destruct (isOk e) eqn:Ee; simpl; [by rewrite Es|by rewrite Ee].
Qed.

(** A message below the level of the manager reaches no sink; any other is written
    to each sink that accepts its level, in the order of their registration and
    whatever the others answer, and the answer is the first that is not a success. *)
Theorem log_exact x m w :
  if passesMinimumLevel (level x) m then
    let '(l, thrown, w') := answers_of (sinks_ m) x w in
    log x m w = (default (Value (default Ok (head (filter (λ s, isOk s = false) l)))) thrown, w')
  else log x m w = (Value Ok, w).
Proof.
  unfold log. destruct (passesMinimumLevel _ m); [|done]. simpl.
  pose proof (write_all_spec (sinks_ m) x Ok w) as H. by destruct (answers_of (sinks_ m) x w) as [[l thrown] w'].
Qed.
End Logger.
End Logging.

(* ------------------------------------------------------------------ *)
(** ** Managers of one object *)

Section Managed.
Context {Controller : Type}.

(** The [set] operations: a null pointer leaves the object as it is. *)
Definition set_controller (name : string) (c : option Controller) (managed : option Controller) :
    Status * option Controller :=
  match c with
  | None => (InvalidArgument (name +:+ " is null"), managed)
  | Some c => (Ok, Some c)
  end.

(** An operation that is passed on. *)
Definition forward {W : Type} (missing : Status) (op : Controller → W → Outcome Status * W)
    (managed : option Controller) (w : W) : Outcome Status * W :=
  match managed with Some c => op c w | None => (Value missing, w) end.

(** A question that is passed on. *)
Definition ask {W A : Type} (absent : A) (question : Controller → W → A) (managed : option Controller) (w : W) : A :=
  match managed with Some c => question c w | None => absent end.
End Managed.

Module Safety.

Inductive SafetyState := SafetyUnknown | SafetyNominal | SafetyProtectiveStop | SafetyEmergencyStop | SafetyFaulted.

Definition SafetyState_toString (s : SafetyState) : string :=
  match s with
  | SafetyUnknown => "unknown"
  | SafetyNominal => "nominal"
  | SafetyProtectiveStop => "protective_stop"
  | SafetyEmergencyStop => "emergency_stop"
  | SafetyFaulted => "faulted"
  end.

Section Safety.
Context {W : Type}.

Record SafetyController := mkSafetyController {
  safety_lifecycle : W → LifecycleState;
  safety_state : W → SafetyState;
  motion_allowed : W → bool;
  engage_stop : string → W → Outcome Status * W;
  release_stop : W → Outcome Status * W;
}.

Implicit Type managed : option SafetyController.

Definition missing : Status := FailedPrecondition "safety controller interface is not set".

Definition setController := set_controller (Controller := SafetyController) "safety controller interface".
Definition lifecycleState managed w := ask LifecycleUnconfigured safety_lifecycle managed w.
Definition safetyState managed w := ask SafetyUnknown safety_state managed w.
Definition isMotionAllowed managed w := ask false motion_allowed managed w.

Definition engageStop (reason : string) managed (w : W) : Outcome Status * W :=
  if bool_decide (reason = "") then (Value (InvalidArgument "safety stop reason is empty"), w)
  else forward missing (λ c, engage_stop c reason) managed w.

Definition releaseStop managed (w : W) : Outcome Status * W := forward missing release_stop managed w.

(** Motion is allowed only if there is a controller and it allows it; and a stop
    succeeds only if the controller answers a success: neither a missing controller
    nor a missing reason pass for one. *)
Theorem safety_needs_controller reason managed w :
  (isMotionAllowed managed w = true ↔ ∃ c, managed = Some c ∧ motion_allowed c w = true) ∧
  ∀ s w', engageStop reason managed w = (Value s, w') → isOk s = true →
    ∃ c, managed = Some c ∧ reason ≠ "" ∧ engage_stop c reason w = (Value s, w').
Proof.
  unfold isMotionAllowed, engageStop. split.
  - destruct managed as [c|]; simpl; [|by split; [|intros (c & [=] & _)]]. split; [by exists c|by intros (c' & [= <-] & ?)].
  - intros s w'. case_bool_decide; [by intros [= <- <-]|]. destruct managed as [c|]; simpl; [by exists c|by intros [= <- <-]].
Qed.
End Safety.
End Safety.

Module Motion.

Inductive MotionMode := MotionIdle | MotionHoldPosition | MotionJointPosition | MotionJointVelocity | MotionCartesianVelocity.

Definition MotionMode_toString (m : MotionMode) : string :=
  match m with
  | MotionIdle => "idle"
  | MotionHoldPosition => "hold_position"
  | MotionJointPosition => "joint_position"
  | MotionJointVelocity => "joint_velocity"
  | MotionCartesianVelocity => "cartesian_velocity"
  end.

Section Motion.
Context {W : Type}.

Record MotionController := mkMotionController {
  motion_lifecycle : W → LifecycleState;
  motion_mode : W → MotionMode;
  set_motion_mode : MotionMode → W → Outcome Status * W;
  hold_position : W → Outcome Status * W;
  stop_motion : W → Outcome Status * W;
}.

Implicit Type managed : option MotionController.

Definition missing : Status := FailedPrecondition "motion controller interface is not set".

Definition setController := set_controller (Controller := MotionController) "motion controller interface".
Definition lifecycleState managed w := ask LifecycleUnconfigured motion_lifecycle managed w.
Definition motionMode managed w := ask None (λ c w, Some (motion_mode c w)) managed w.
Definition setMotionMode (m : MotionMode) managed w := forward missing (λ c, set_motion_mode c m) managed w.
Definition holdPosition managed w := forward missing hold_position managed w.
Definition stopMotion managed w := forward missing stop_motion managed w.
End Motion.
End Motion.

Module Gestures.
Section Gestures.
Context {W : Type}.

Record GestureController := mkGestureController {
  gesture_lifecycle : W → LifecycleState;
  supports_gesture : string → W → Outcome bool;
  start_gesture : string → W → Outcome Status * W;
  stop_gesture : W → Outcome Status * W;
}.

Implicit Type managed : option GestureController.

Definition missing : Status := FailedPrecondition "gesture controller interface is not set".

Definition setController := set_controller (Controller := GestureController) "gesture controller interface".
Definition lifecycleState managed w := ask LifecycleUnconfigured gesture_lifecycle managed w.
Definition supportsGesture (id : string) managed w := ask (Value false) (λ c, supports_gesture c id) managed w.

Definition startGesture (id : string) managed (w : W) : Outcome Status * W :=
  if bool_decide (id = "") then (Value (InvalidArgument "gesture id is empty"), w)
  else forward missing (λ c, start_gesture c id) managed w.

Definition stopGesture managed w := forward missing stop_gesture managed w.
End Gestures.
End Gestures.

Module Diagnostics.

Inductive DiagnosticStatus := DiagnosticOk | DiagnosticWarning | DiagnosticError | DiagnosticStale.

Record DiagnosticRecord := mkDiagnosticRecord {
  diagnostic_name : string; diagnostic_status : DiagnosticStatus; diagnostic_message : string; diagnosed_at : Z;
}.

Section Diagnostics.
Context {W : Type}.

Record DiagnosticController := mkDiagnosticController {
  diagnostic_lifecycle : W → LifecycleState;
  collect_records : W → Outcome (list DiagnosticRecord);
  run_self_test : W → Outcome Status * W;
}.

Implicit Type managed : option DiagnosticController.

Definition missing : Status := FailedPrecondition "diagnostic controller interface is not set".

Definition setController := set_controller (Controller := DiagnosticController) "diagnostic controller interface".
Definition lifecycleState managed w := ask LifecycleUnconfigured diagnostic_lifecycle managed w.
Definition collect managed w := ask (Value []) collect_records managed w.
Definition runSelfTest managed w := forward missing run_self_test managed w.
End Diagnostics.
End Diagnostics.

Module Robots.
Section Robots.
Context {W : Type}.

Record Robot := mkRobotInterface {
  robot_lifecycle : W → LifecycleState;
  configure_robot : W → Outcome Status * W;
  activate_robot : W → Outcome Status * W;
  deactivate_robot : W → Outcome Status * W;
  shutdown_robot : W → Outcome Status * W;
}.

Record IRobotAdapter := mkAdapterInterface {
  initialize_adapter : W → Outcome Status * W;
  start_adapter : W → Outcome Status * W;
  stop_adapter : W → Outcome Status * W;
  shutdown_adapter : W → Outcome Status * W;
}.

Record RobotManager := mkRobotManager { robot_ : option Robot; adapter_ : option IRobotAdapter }.

Definition missingRobotStatus : Status := FailedPrecondition "robot interface is not set".
Definition missingAdapterStatus : Status := FailedPrecondition "robot adapter interface is not set".

Definition setRobot (r : option Robot) (m : RobotManager) : Status * RobotManager :=
  let '(st, r) := set_controller "robot interface" r (robot_ m) in (st, mkRobotManager r (adapter_ m)).

Definition clearRobot (m : RobotManager) : RobotManager := mkRobotManager None (adapter_ m).

Definition setAdapter (a : option IRobotAdapter) (m : RobotManager) : Status * RobotManager :=
  let '(st, a) := set_controller "robot adapter interface" a (adapter_ m) in (st, mkRobotManager (robot_ m) a).

Definition clearAdapter (m : RobotManager) : RobotManager := mkRobotManager (robot_ m) None.

Definition lifecycleState (m : RobotManager) w := ask LifecycleUnconfigured robot_lifecycle (robot_ m) w.
Definition configure (m : RobotManager) w := forward missingRobotStatus configure_robot (robot_ m) w.
Definition activate (m : RobotManager) w := forward missingRobotStatus activate_robot (robot_ m) w.
Definition deactivate (m : RobotManager) w := forward missingRobotStatus deactivate_robot (robot_ m) w.
Definition shutdown (m : RobotManager) w := forward missingRobotStatus shutdown_robot (robot_ m) w.
Definition initializeAdapter (m : RobotManager) w := forward missingAdapterStatus initialize_adapter (adapter_ m) w.
Definition startAdapter (m : RobotManager) w := forward missingAdapterStatus start_adapter (adapter_ m) w.
Definition stopAdapter (m : RobotManager) w := forward missingAdapterStatus stop_adapter (adapter_ m) w.
Definition shutdownAdapter (m : RobotManager) w := forward missingAdapterStatus shutdown_adapter (adapter_ m) w.
End Robots.
End Robots.

Module Settings.
Section Settings.
Context {W ConfigValue Path : Type}.

Record Configuration := mkConfiguration {
  has_key : string → W → Outcome bool;
  value_of : string → W → Outcome (option ConfigValue);
  source_path : W → Outcome Path;
}.

Implicit Type managed : option Configuration.

Definition setConfiguration := set_controller (Controller := Configuration) "configuration provider".
Definition contains (key : string) managed w := ask (Value false) (λ c, has_key c key) managed w.
Definition value (key : string) managed w := ask (Value None) (λ c, value_of c key) managed w.

Definition sourcePath managed (w : W) : Outcome (option Path) :=
  match managed with
  | None => Value None
  | Some c =>
      match source_path c w with
      | Value p => Value (Some p)
      | Exception what => Exception what
      | UnknownException => UnknownException
      end
  end.
End Settings.
End Settings.

(* ------------------------------------------------------------------ *)
(** ** The context of behavior trees *)

Module TreeContext.

(** Shared objects by their numbers; [execution_context_] or [blackboard_] is null in
    a context that was moved from. *)
Record BTContext := mkBTContext { execution_context_ : option nat; blackboard_ : option nat }.

(** [e] and [b] are the objects that [MakeExecutionContext] and [MakeBlackboard]
    make, if they are called. *)
Definition repaired (e b : nat) (c : BTContext) : BTContext :=
  mkBTContext (Some (default e (execution_context_ c))) (Some (default b (blackboard_ c))).

Definition new_BTContext (e b : nat) (execution blackboard : option nat) : BTContext :=
  repaired e b (mkBTContext execution blackboard).

Definition copy_construct (e b : nat) (other : BTContext) : BTContext := repaired e b other.

(** [operator=] with a context other than itself. *)
Definition copy_assign (e b : nat) (c other : BTContext) : BTContext := repaired e b other.

(** The context that is made, and what is left of the other. *)
Definition move_construct (e b : nat) (other : BTContext) : BTContext * BTContext :=
  (repaired e b other, mkBTContext None None).

Definition move_assign (e b : nat) (c other : BTContext) : BTContext * BTContext :=
  (repaired e b other, mkBTContext None None).

Definition SetExecution (execution : option nat) (c : BTContext) : bool * BTContext :=
  match execution with
  | None => (false, c)
  | Some x => (true, mkBTContext (Some x) (blackboard_ c))
  end.

Definition SetBlackboard (blackboard : option nat) (c : BTContext) : bool * BTContext :=
  match blackboard with
  | None => (false, c)
  | Some x => (true, mkBTContext (execution_context_ c) (Some x))
  end.

(** [requested] is [ExecutionContext::CancellationRequested] of the object. *)
Definition CancellationRequested (requested : nat → bool) (c : BTContext) : bool :=
  match execution_context_ c with Some x => requested x | None => false end.

(** Calls on a context; the others that it takes are in any state. *)
Inductive ContextCall :=
  | CallCopyAssign (e b : nat) (other : BTContext)
  | CallMoveAssign (e b : nat) (other : BTContext)
  | CallMovedFrom
  | CallSetExecution (execution : option nat)
  | CallSetBlackboard (blackboard : option nat).

Definition context_call (c : BTContext) (call : ContextCall) : BTContext :=
  match call with
  | CallCopyAssign e b other => copy_assign e b c other
  | CallMoveAssign e b other => (move_assign e b c other).1
  | CallMovedFrom => (move_construct 0 0 c).2
  | CallSetExecution x => (SetExecution x c).2
  | CallSetBlackboard x => (SetBlackboard x c).2
  end.

Definition complete (c : BTContext) : Prop := is_Some (execution_context_ c) ∧ is_Some (blackboard_ c).

(** A context has both of its objects, whatever contexts were assigned to it, unless
    it was moved from; and a context that is made or assigned from such a one has
    them again. *)
Theorem context_complete e b execution blackboard calls :
  CallMovedFrom ∉ calls →
  complete (foldl context_call (new_BTContext e b execution blackboard) calls).
Proof.
  assert (H0 : complete (new_BTContext e b execution blackboard)) by (split; by eexists).
  revert H0. generalize (new_BTContext e b execution blackboard).
  induction calls as [|call calls IH]; intros c Hc Hn; simpl; [done|].
  apply IH; [|intros Hin; apply Hn; by right].
  destruct call as [e' b' other|e' b' other| |[x|]|[x|]]; simpl; try done.
  - destruct Hn. by left.
  - destruct Hc. split; [by eexists|done].
  - destruct Hc. split; [done|by eexists].
Qed.
End TreeContext.
